(* ===== verification/_CoqProject ===== *)
-Q . S2P
Prelude.v
PyState.v
PyBytes.v
PyStr.v
PyDict.v
AdtCodec.v
AdtFixups.v
DtPatch.v
AnsFixup.v
PowerPassthrough.v
DcpEmu.v
Sha256.v
TrustCache.v
Kcdata.v
CodeSign.v
KernelPatch.v
Relay.v
Checkpoint.v
Capture.v
Restore.v
PageWalk.v
Serial.v
ProbeWatch.v
PyShlex.v
InstallHelpers.v
Profile.v
IomfbTrace.v
StartupDecode.v
StartupTables.v
StartupTrace.v
StartupProps.v
StartupWatch.v
StartupRun.v
DisplayTrace.v
KcTextMap.v
SmTrace.v
SmTraceProps.v
SmTraceRun.v
SmMachine.v
SmMachineProps.v
FirstSurface.v
FirstSurfaceProps.v
HostSks.v
LsdTrace.v
NativeInput.v
LiveThreads.v
PhysTask.v
Provision.v
Pipeline.v
TreeCodecs.v
