(* ===== verification/Prelude.v ===== *)
(** * darwin-vm: a verification development for the boot tooling

    darwin-vm boots an iOS system in QEMU.  The Python of the repository
    prepares what QEMU loads (device trees, trust caches, patched caches and
    kernels), drives the guest over its serial console and input relay,
    captures and restores checkpoints, watches debugger probes, and reads
    memory dumps.  This library models those programs file by file and proves
    what each promises.

    ** How the program is modelled

    A Python function is a Coq function of the same name.  Text is a list of
    code points ([PyStr]), bytes are [list byte] ([PyBytes]), a [dict] is an
    association list in insertion order ([PyDict]), [shlex] is [PyShlex], an
    exception is a value of [exn] and a function that may raise returns
    [res A].  A message keeps its fixed text; interpolated values are dropped.
    Integers are [Z]; where the source packs, masks or shifts, the model does.
    Programs that talk to the outside take what they observe as an argument: a
    script of received chunks with a clock ([Serial]), one input per iteration
    ([Relay]), lists of polls ([InstallHelpers], [IomfbTrace]), scripts of a
    monitor and a process ([Capture], [Restore]), reads of a dump ([PageWalk]).
    Procedures over such a state are in the monad of [PyState], with its three
    logics: [wp] for one run, the classes [Leads] (a relation every run keeps to)
    and [Holds] (an invariant, and what can be raised), which are the interfaces
    between a component's loops and the theorems about its callers.  Concurrent
    parts are step relations ([ProbeWatch]).  Times are milliseconds, in
    [NativeInput] microseconds.

    ** The files

    - [Prelude]: [res], its monad and tactic [simpl_res], list slices with [Z]
      indices, the hint bases [pylists]; [PyBytes], [PyStr], [PyDict],
      [PyShlex]: what the source uses of the language; [PyState]: stateful
      procedures that can raise; [Sha256]: SHA-256.
    - [AdtCodec]: [decode_node] and [encode_node] of [dt_fixup.py].  Round trip
      of stable trees, totality, what one pass does to each kind of value.
    - [AdtFixups]: the passes of [dt_fixup.py] and its [main].  One-shot
      behaviour, disjoint coprocessor regions, soundness of [del_compat]; the
      classes [Keeps] and [SameHead] carry the marker through every pass.
    - [DtPatch], [AnsFixup], [PowerPassthrough]: the raw editor
      ([tools/dt_patch.py]), the ANS wrapper ([tools/ans/dt_ans_fixup.py]) and
      the provider generator ([tools/re/power_passthrough_dt.py]).
    - [DcpEmu]: the dispatch-table emulator ([tools/re/dcp_dtable.py]); the
      disassembler is a parameter.
    - [TrustCache]: [build_tc.py] and [tools/rootfs/merge_tc.py].
    - [CodeSign]: [tools/input/prepare_display_policy.py] and
      [prepare_guarded_cache_patch.py].  [KernelPatch]: the guarded patchers
      [rtc_pv_patch.py], [smp_pv_patch.py], [patch_powerd_virtual_battery.py],
      and [fourcc_scan.py], [kptr.py] under [tools/re].
    - [Kcdata]: [tools/oskcdata.py] and [tools/bplist_carve.py]; the property
      list parser is a parameter.  [PageWalk]: the page walk and inspection of
      [tools/re/warm_boot_postmortem.py].
    - [Relay]: [tools/input/relay.py].  Equivalence of the bounded queue with a
      reference coalescing; one packet in flight.
    - [Checkpoint]: [tools/checkpoint_common.py] and the pure parts of the two
      programs.  [Capture], [Restore]: [main] of [tools/create_checkpoint.py] and
      [tools/restore_checkpoint.py], refined against the automata [life_step]
      and [stage_step]; what a capture records, a restore accepts.
    - [Serial]: [tools/serial.py]; the class [Stable] is the interface between
      the wait loops and the upload's postconditions.
    - [ProbeWatch]: [tools/re/probe_watch.py] and the protocol it follows with
      the event files of a recorder.  [DisplayTrace]:
      [tools/re/display_iokit_callbacks.py], whose callbacks, interleaved with
      the watcher file operation by file operation, refine that protocol.
    - [InstallHelpers]: [tools/re/install_staged_helpers.py] with
      [boot_command] of [tools/warm_boot_probe.py], refined against the
      automaton [life_step].
    - [Profile]: [tools/rootfs/bootstrap_profile.py].
    - [IomfbTrace]: [tools/re/iomfb_calltrace.py].
    - [StartupDecode], [StartupTables], [StartupTrace]: the callbacks of
      [tools/re/springboard_startup_trace_callbacks.py].  [StartupProps]: one
      invariant of its tables, breakpoints and event files; [StartupWatch]: the
      tracer with the watcher of [ProbeWatch]; [StartupRun]: a run.
    - [KcTextMap]: [tools/re/kc_text_map.py].  [SmTrace]: the callbacks of
      [tools/re/dcp_sm_dynamic_trace_callbacks.py].  [SmTraceProps]: which calls
      the recorded entries answer, the budgets, the finality of a stop;
      [SmTraceRun]: a run, and what it shows.
    - [SmMachine], [SmMachineProps]: [tools/re/dcp_sm_machine_callbacks.py],
      refined, at each thread pointer, against the protocol of its witnesses.
      [FirstSurface], [FirstSurfaceProps]: [tools/re/first_surface_callbacks.py],
      its captures of pixels and the stop at a visible surface.  [HostSks]:
      [tools/re/host_sks_request_callbacks.py], the guarded override of one
      response.  [LsdTrace]: [tools/re/lsd_ipc_trace_callbacks.py].
    - [LiveThreads], [PhysTask]: the threads of a stopped guest and the memory of
      a sleeping task ([tools/re/live_task_threads.py],
      [tools/re/physical_task_memory.py]); [PhysTask] reads what [PageWalk] reads.
      [Provision]: the staging of files into a stopped guest by calls of its own
      kernel.
    - [NativeInput]: [tools/input/native_input.py].
    - [Pipeline], [TreeCodecs]: how the parts meet.  The launch template of
      [Profile] is what [InstallHelpers] accepts and starts; the hashes
      [Profile] signs (with [CodeSign]'s parser and [Sha256]) are what
      [TrustCache] builds and loads; a tree [AdtCodec] writes is read, whole,
      by [DtPatch] and [PowerPassthrough].  [AnsFixup] replaces a pass of
      [AdtFixups].

    ** Interfaces

    [Provision] is proved against classes: [Debugger] (the operations of the
    debugger), [DebuggerLaws] (what its documentation promises of registers and
    breakpoints) and [NativeFiles] (the guest's open, read, write and close),
    each with an instance.  [PhysTask.stub_laws] says what a debug stub promises
    of its memory mode.  [Stable] ([Serial]), [Keeps] and [SameHead]
    ([AdtFixups]), [Sends] ([NativeInput]) carry a promise of one procedure to
    its callers.

    ** Fuel

    A loop whose recursion is not structural takes a fuel, and every function
    that can run out of it has a theorem that it does not: a decoder gets the
    length of its buffer (every header consumes at least eight bytes), a
    console loop one step per remaining chunk and per sleep before its
    deadline, a poll one step per shortest pass (50 ms for the input host's
    status, 100 ms for a process or a socket, 200 and 500 ms for the two sides of
    a migration) before its deadline, an argument scan the number of arguments,
    an emulated run the bound of the source.  A read of memory takes one pass per
    byte ([PhysTask.read_from], [FirstSurface.read_pieces],
    [Provision.read_back]), a wait of a callback one per 100 ms
    ([HostSks.await]).  [OutOfFuel] has no Python counterpart.

    ** Not modelled

    QEMU and its C devices, guest helpers in C, shell scripts; argument parsing
    by [argparse] and the writing of report files; process launching and
    sockets beyond the inputs above; LLDB, Capstone and [plistlib] (parameters
    where they are used).  Of the LLDB callback scripts those are left out that
    only print registers and memory at fixed addresses
    ([bks_checkin_callbacks.py], [display_query_callbacks.py] and smaller ones):
    their state is a few counters.  The memory readers over the monitor
    ([kmem.py], [guest_memgrep.py], [dart_read.py]) repeat the walk of [PageWalk];
    the RAM scans are heuristics for a reader's eye; the kernel-cache listings
    format a disassembler's output; the device-tree dump and the ExclaveOS merge
    are small tools around the codecs that are modelled.  Host drivers that only
    start programs and copy files ([tools/input/boot.py], [time_boot.py],
    [run_smp.py]) and reports that format logs have no contract of their own. *)

From stdpp Require Import base tactics list list_numbers strings.
From Stdlib Require Import Strings.Byte.

(** ** Python exceptions and fallible computations

    Fallible code returns [res A].  An exception keeps its Python class and
    the fixed text of its message; interpolated values are dropped.
    [OutOfFuel] is the one constructor with no Python counterpart: it marks a
    recursion bound of the model, and every function that can return it has a
    theorem that it does not. *)

Inductive exn :=
  | ValueError (msg : string)
  | TypeError (msg : string)
  | KeyError (key : list Z)
  | AttributeError
  | IndexError
  | StructError
  | UnicodeDecodeError
  | UnicodeEncodeError
  | RuntimeError (msg : string)
  | TimeoutError (msg : string)
  | AssertionError
  | OSError
  | SystemExit (msg : string)
  | NotImplementedError
  | StopIteration
  | JSONDecodeError
  | OutOfFuel.

Inductive res (A : Type) :=
  | Ok (a : A)
  | Raise (e : exn).
Arguments Ok {A} a.
Arguments Raise {A} e.

#[export] Instance exn_eq_dec : EqDecision exn.
Proof. solve_decision. Defined.
#[export] Instance res_eq_dec {A} `{EqDecision A} : EqDecision (res A).
Proof. solve_decision. Defined.

#[export] Instance res_ret : MRet res := λ A a, Ok a.
#[export] Instance res_bind : MBind res := λ A B f m,
  match m with Ok a => f a | Raise e => Raise e end.
#[export] Instance res_fmap : FMap res := λ A B f m,
  match m with Ok a => Ok (f a) | Raise e => Raise e end.

Declare Scope py_scope.
Delimit Scope py_scope with py.
Open Scope py_scope.
Open Scope Z_scope.

(** [raise_if b e ;; k] is Python's [if b: raise e] followed by [k]. *)
Notation "'raise_if' b 'with' e ';;' k" := (if b then Raise e else k)
  (at level 100, b at level 99, e at level 99, k at level 200,
   right associativity, only parsing) : py_scope.

Definition is_ok {A} (m : res A) : bool :=
  match m with Ok _ => true | Raise _ => false end.

(** [opt_or o e] turns an absent result into the exception [e]. *)
Definition opt_or {A} (o : option A) (e : exn) : res A :=
  match o with Some a => Ok a | None => Raise e end.

Definition res_opt {A} (m : res A) : option A :=
  match m with Ok a => Some a | Raise _ => None end.

(** Left-to-right traversals that stop at the first exception. *)
Definition res_map {A B} (f : A → res B) : list A → res (list B) :=
  fix go l := match l with
              | [] => Ok []
              | x :: l => y ← f x; ys ← go l; Ok (y :: ys)
              end.

Definition res_foldl {A B} (f : B → A → res B) : B → list A → res B :=
  fix go b l := match l with
                | [] => Ok b
                | x :: l => b ← f b x; go b l
                end.

Section res_lemmas.
Context {A B C : Type}.

Lemma bind_Ok (f : A → res B) (m : res A) b :
  (m ≫= f) = Ok b ↔ ∃ a, m = Ok a ∧ f a = Ok b.
Proof.
  destruct m as [a|e]; simpl; split.
  - eauto.
  - by intros (? & [= ->] & ?).
  - done.
  - by intros (? & ? & ?).
Qed.

Lemma bind_Raise (f : A → res B) (m : res A) e :
  (m ≫= f) = Raise e ↔ m = Raise e ∨ ∃ a, m = Ok a ∧ f a = Raise e.
Proof.
  destruct m as [a|e']; simpl; split.
  - eauto.
  - intros [?|(? & [= ->] & ?)]; [done|done].
  - intros [= ->]. by left.
  - intros [[= ->]|(? & ? & ?)]; done.
Qed.

Lemma ok_bind (a : A) (f : A → res B) : (Ok a ≫= f) = f a.
Proof. done. Qed.

Lemma Ok_inj (a b : A) : Ok a = Ok b → a = b.
Proof. by intros [= ->]. Qed.

Lemma bind_assoc (m : res A) (f : A → res B) (g : B → res C) :
  ((m ≫= f) ≫= g) = (m ≫= λ a, f a ≫= g).
Proof. by destruct m. Qed.

Lemma bind_ext (m : res A) (f g : A → res B) :
  (∀ a, f a = g a) → (m ≫= f) = (m ≫= g).
Proof. intros H. destruct m; simpl; auto. Qed.

Lemma fmap_Ok (f : A → B) (m : res A) b :
  (f <$> m) = Ok b ↔ ∃ a, m = Ok a ∧ b = f a.
Proof.
  destruct m as [a|e]; simpl; split.
  - intros [= <-]. eauto.
  - by intros (? & [= ->] & ->).
  - done.
  - by intros (? & ? & ?).
Qed.

Lemma opt_or_Ok (o : option A) e a : opt_or o e = Ok a ↔ o = Some a.
Proof. destruct o; simpl; split; congruence. Qed.

End res_lemmas.

Section res_loops.
Context {A B : Type}.

Lemma res_map_Ok (f : A → res B) l k :
  res_map f l = Ok k ↔ Forall2 (λ x y, f x = Ok y) l k.
Proof.
  revert k. induction l as [|x l IH]; intros k; simpl.
  - split; [intros [= <-]; constructor|]. by inversion 1.
  - rewrite bind_Ok. setoid_rewrite bind_Ok. split.
    + intros (y & Hy & ys & Hys & [= <-]). constructor; [done|]. by apply IH.
    + inversion 1 as [|? y ? ys Hy Hys]; subst.
      exists y. split; [done|]. exists ys. split; [by apply IH|done].
Qed.

Lemma res_map_app (f : A → res B) l k :
  res_map f (l ++ k) = (ys ← res_map f l; zs ← res_map f k; Ok (ys ++ zs)).
Proof.
  induction l as [|x l IH]; simpl; [by destruct (res_map f k)|].
  destruct (f x); simpl; [|done]. rewrite IH.
  destruct (res_map f l); simpl; [|done]. by destruct (res_map f k).
Qed.

Lemma res_foldl_app (f : B → A → res B) b l k :
  res_foldl f b (l ++ k) = (b' ← res_foldl f b l; res_foldl f b' k).
Proof.
  revert b. induction l as [|x l IH]; intros b; simpl; [done|].
  destruct (f b x); simpl; auto.
Qed.

(** The invariant rule of a raising loop. *)
Lemma res_foldl_inv (P : B → Prop) (f : B → A → res B) l b b' :
  (∀ c x c', P c → f c x = Ok c' → P c') →
  P b → res_foldl f b l = Ok b' → P b'.
Proof.
  intros Hstep. revert b. induction l as [|x l IH]; intros b Hb; simpl.
  - by intros [= <-].
  - rewrite bind_Ok. intros (c & Hc & Hgo). eapply IH, Hgo. eauto.
Qed.
End res_loops.

(** [simpl_res] destructs hypotheses of the form [(x ← m; k) = Ok v],
    [opt_or o e = Ok v], [f <$> m = Ok v] and the tests guarding a [Raise]. *)
Ltac simpl_res_step :=
  match goal with
  | H : Ok _ = Ok _ |- _ => apply Ok_inj in H; try subst
  | H : (_, _) = (_, _) |- _ => apply pair_equal_spec in H as [? ?]; try subst
  | H : Raise _ = Raise _ |- _ => injection H as H; subst
  | H : Ok _ = Raise _ |- _ => discriminate H
  | H : Raise _ = Ok _ |- _ => discriminate H
  | H : (_ ≫= _) = Ok _ |- _ =>
      let a := fresh "r" in let Ha := fresh "Hr" in
      apply bind_Ok in H as (a & Ha & H); cbv beta in H
  | H : (_ <$> _) = Ok _ |- _ =>
      let a := fresh "r" in let Ha := fresh "Hr" in
      apply fmap_Ok in H as (a & Ha & H); cbv beta in H
  | H : (let '(_, _) := ?p in _) = Ok _ |- _ => is_var p; destruct p; cbv beta iota in H
  | H : opt_or _ _ = Ok _ |- _ => apply opt_or_Ok in H
  | H : (if ?b then Raise _ else _) = Ok _ |- _ =>
      let E := fresh "Hif" in destruct b eqn:E; [discriminate H|]
  | H : (if ?b then _ else Raise _) = Ok _ |- _ =>
      let E := fresh "Hif" in destruct b eqn:E; [|discriminate H]
  end.
Ltac simpl_res := repeat simpl_res_step.

(** ** Lists indexed by [Z]

    Python slices of [bytes] and [str] use machine-independent integers; the
    model keeps the index in [Z] and never converts it to a unary number. *)

Section zlists.
Context {A : Type}.
Implicit Types l k : list A.

Definition zlen l : Z := Z.of_nat (length l).

(** [l[:n]] for [0 ≤ n]. *)
Fixpoint ztake (n : Z) l : list A :=
  match l with
  | [] => []
  | x :: l => if n <=? 0 then [] else x :: ztake (n - 1) l
  end.

(** [l[n:]] for [0 ≤ n]. *)
Fixpoint zdrop (n : Z) l : list A :=
  match l with
  | [] => []
  | x :: l' => if n <=? 0 then l else zdrop (n - 1) l'
  end.

(** [l[a:b]] for [0 ≤ a]. *)
Definition slice (a b : Z) l : list A := ztake (b - a) (zdrop a l).

(** [l[i]], for [0 ≤ i]; Python raises [IndexError] outside. *)
Fixpoint znth (i : Z) l : option A :=
  match l with
  | [] => None
  | x :: l => if i =? 0 then Some x else if i <? 0 then None else znth (i - 1) l
  end.

(** [l[i:i+len(k)] = k], the slice assignment of equal length inside [l]. *)
Definition zsplice (i : Z) k l : list A :=
  ztake i l ++ k ++ zdrop (i + zlen k) l.

Lemma zlen_nonneg l : 0 ≤ zlen l.
Proof. unfold zlen. lia. Qed.
Lemma zlen_nil : zlen [] = 0.
Proof. done. Qed.
Lemma zlen_cons x l : zlen (x :: l) = 1 + zlen l.
Proof. unfold zlen. simpl length. lia. Qed.
Lemma zlen_app l k : zlen (l ++ k) = zlen l + zlen k.
Proof. unfold zlen. rewrite length_app. lia. Qed.
Lemma zlen_replicate n x : zlen (replicate n x) = Z.of_nat n.
Proof. unfold zlen. by rewrite length_replicate. Qed.

Lemma ztake_take n l : ztake n l = take (Z.to_nat n) l.
Proof.
  revert n. induction l as [|x l IH]; intros n; simpl; [by rewrite take_nil|].
  destruct (n <=? 0) eqn:E.
  - replace (Z.to_nat n) with 0%nat by lia. done.
  - replace (Z.to_nat n) with (S (Z.to_nat (n - 1))) by lia. simpl. by rewrite IH.
Qed.

Lemma zdrop_drop n l : zdrop n l = drop (Z.to_nat n) l.
Proof.
  revert n. induction l as [|x l IH]; intros n; simpl; [by rewrite drop_nil|].
  destruct (n <=? 0) eqn:E.
  - replace (Z.to_nat n) with 0%nat by lia. done.
  - replace (Z.to_nat n) with (S (Z.to_nat (n - 1))) by lia. simpl. by rewrite IH.
Qed.

Lemma znth_lookup i l : 0 ≤ i → znth i l = l !! Z.to_nat i.
Proof.
  revert i. induction l as [|x l IH]; intros i Hi; simpl; [done|].
  destruct (i =? 0) eqn:E.
  - replace (Z.to_nat i) with 0%nat by lia. done.
  - destruct (i <? 0) eqn:E'; [lia|].
    replace (Z.to_nat i) with (S (Z.to_nat (i - 1))) by lia. simpl. apply IH. lia.
Qed.

Lemma zlen_ztake n l : zlen (ztake n l) = Z.max 0 (Z.min n (zlen l)).
Proof. unfold zlen. rewrite ztake_take, length_take. lia. Qed.
Lemma zlen_zdrop n l : zlen (zdrop n l) = Z.max 0 (zlen l - Z.max 0 n).
Proof. unfold zlen. rewrite zdrop_drop, length_drop. lia. Qed.
Lemma zlen_slice a b l :
  0 ≤ a → zlen (slice a b l) = Z.max 0 (Z.min (b - a) (zlen l - a)).
Proof. intros. unfold slice. rewrite zlen_ztake, zlen_zdrop. lia. Qed.

Lemma ztake_zdrop n l : ztake n l ++ zdrop n l = l.
Proof. rewrite ztake_take, zdrop_drop. apply take_drop. Qed.

Lemma ztake_app_exact l k n : n = zlen l → ztake n (l ++ k) = l.
Proof. intros ->. rewrite ztake_take. apply take_app_length'. unfold zlen. lia. Qed.
Lemma zdrop_app_exact l k n : n = zlen l → zdrop n (l ++ k) = k.
Proof. intros ->. rewrite zdrop_drop. apply drop_app_length'. unfold zlen. lia. Qed.
Lemma ztake_ge n l : zlen l ≤ n → ztake n l = l.
Proof. unfold zlen. intros. rewrite ztake_take. apply take_ge. lia. Qed.
Lemma zdrop_ge n l : zlen l ≤ n → zdrop n l = [].
Proof. unfold zlen. intros. rewrite zdrop_drop. apply drop_ge. lia. Qed.
Lemma ztake_le_0 n l : n ≤ 0 → ztake n l = [].
Proof. intros. rewrite ztake_take. by replace (Z.to_nat n) with 0%nat by lia. Qed.
Lemma zdrop_le_0 n l : n ≤ 0 → zdrop n l = l.
Proof. intros. rewrite zdrop_drop. by replace (Z.to_nat n) with 0%nat by lia. Qed.
Lemma zdrop_zdrop n m l : 0 ≤ n → 0 ≤ m → zdrop n (zdrop m l) = zdrop (m + n) l.
Proof. intros. rewrite !zdrop_drop, drop_drop. f_equal. lia. Qed.
Lemma ztake_ztake n m l : ztake n (ztake m l) = ztake (Z.min n m) l.
Proof. rewrite !ztake_take, take_take. f_equal. lia. Qed.

Lemma slice_app_mid a b l k m :
  a = zlen l → b = zlen l + zlen k → slice a b (l ++ k ++ m) = k.
Proof.
  intros -> ->. unfold slice. rewrite zdrop_app_exact by done.
  apply ztake_app_exact. lia.
Qed.

Lemma slice_app_r a c pre l :
  0 ≤ a → slice (zlen pre + a) (zlen pre + c) (pre ++ l) = slice a c l.
Proof.
  intros Ha. unfold slice. pose proof (zlen_nonneg pre).
  rewrite <-(zdrop_zdrop a (zlen pre)) by done.
  rewrite zdrop_app_exact by done. f_equal. lia.
Qed.
Lemma slice_app_exact l k c : c = zlen l → slice 0 c (l ++ k) = l.
Proof.
  intros ->. unfold slice. rewrite zdrop_le_0 by lia. apply ztake_app_exact. lia.
Qed.

Lemma slice_app_l a c l k : 0 ≤ a → c ≤ zlen l → slice a c (l ++ k) = slice a c l.
Proof.
  unfold zlen. intros Ha Hc. unfold slice. rewrite !ztake_take, !zdrop_drop.
  destruct (decide (Z.to_nat a ≤ length l)%nat).
  - rewrite drop_app_le by done. apply take_app_le. rewrite length_drop. lia.
  - replace (Z.to_nat (c - a)) with 0%nat by lia. done.
Qed.

Lemma zlen_zsplice i k l :
  0 ≤ i → i + zlen k ≤ zlen l → zlen (zsplice i k l) = zlen l.
Proof.
  intros ? ?. unfold zsplice.
  rewrite !zlen_app, zlen_ztake, zlen_zdrop. pose proof (zlen_nonneg k). lia.
Qed.

Lemma slice_zsplice i k l :
  0 ≤ i → i + zlen k ≤ zlen l → slice i (i + zlen k) (zsplice i k l) = k.
Proof.
  intros ? ?. unfold zsplice. apply slice_app_mid.
  - rewrite zlen_ztake. pose proof (zlen_nonneg k). lia.
  - rewrite zlen_ztake. pose proof (zlen_nonneg k). lia.
Qed.

(** A splice leaves every index outside its window alone. *)
Lemma znth_zsplice_ne i k l j :
  0 ≤ i → i + zlen k ≤ zlen l → 0 ≤ j → (j < i ∨ i + zlen k ≤ j) →
  znth j (zsplice i k l) = znth j l.
Proof.
  unfold zsplice, zlen. intros ? ? ? Hj.
  rewrite !znth_lookup by done. rewrite ztake_take, zdrop_drop.
  destruct Hj as [Hj|Hj].
  - rewrite lookup_app_l by (rewrite length_take; lia).
    apply lookup_take_lt. lia.
  - rewrite lookup_app_r by (rewrite length_take; lia).
    rewrite length_take, lookup_app_r by lia.
    rewrite lookup_drop. f_equal. lia.
Qed.

Lemma list_eq_znth l k :
  zlen l = zlen k → (∀ i, 0 ≤ i < zlen l → znth i l = znth i k) → l = k.
Proof.
  unfold zlen. intros Hlen H. apply list_eq_same_length with (length l); [lia|lia|].
  intros i x y Hi Hx Hy. specialize (H (Z.of_nat i)).
  rewrite !znth_lookup, Nat2Z.id in H by lia. rewrite Hx, Hy in H.
  assert (Some x = Some y) as Hxy by (apply H; lia). by injection Hxy.
Qed.
Lemma znth_slice a c j l : 0 ≤ a → 0 ≤ j < c - a → znth j (slice a c l) = znth (a + j) l.
Proof.
  intros Ha Hj. unfold slice. rewrite ztake_take, zdrop_drop, !znth_lookup by lia.
  rewrite lookup_take_lt by lia. rewrite lookup_drop. f_equal. lia.
Qed.

Lemma slice_slice a c d e l :
  0 ≤ a → 0 ≤ c → d ≤ e - c → slice a d (slice c e l) = slice (c + a) (c + d) l.
Proof.
  intros Ha Hc Hd. apply list_eq_znth.
  - rewrite !zlen_slice by lia. lia.
  - intros i Hi. rewrite zlen_slice in Hi by lia. rewrite !znth_slice by lia. f_equal. lia.
Qed.

Lemma znth_zsplice_in i k l j :
  0 ≤ i ≤ zlen l → i ≤ j < i + zlen k → znth j (zsplice i k l) = znth (j - i) k.
Proof.
  unfold zsplice, zlen. intros ? Hj. rewrite !znth_lookup, ztake_take by lia.
  rewrite lookup_app_r by (rewrite length_take; lia).
  rewrite length_take, lookup_app_l by lia. f_equal. lia.
Qed.

(** A window outside the splice reads the same. *)
Lemma slice_zsplice_ne i k l a c :
  0 ≤ i → i + zlen k ≤ zlen l → 0 ≤ a → (c ≤ i ∨ i + zlen k ≤ a) →
  slice a c (zsplice i k l) = slice a c l.
Proof.
  intros Hi Hk Ha Hd. apply list_eq_znth; rewrite !zlen_slice, zlen_zsplice by done; [done|].
  intros j Hj. rewrite !znth_slice by lia. apply znth_zsplice_ne; lia.
Qed.

(** A splice into a window spliced back is a splice. *)
Lemma zsplice_slice a n i k l :
  0 ≤ a → 0 ≤ i → i + zlen k ≤ n → a + n ≤ zlen l →
  zsplice a (zsplice i k (slice a (a + n) l)) l = zsplice (a + i) k l.
Proof.
  intros Ha Hi Hk Hn. pose proof (zlen_nonneg k).
  assert (zlen (slice a (a + n) l) = n) as Hs by (rewrite zlen_slice; lia).
  assert (zlen (zsplice i k (slice a (a + n) l)) = n) as Hz by (rewrite zlen_zsplice; lia).
  apply list_eq_znth; [rewrite !zlen_zsplice; lia|].
  rewrite zlen_zsplice by lia. intros j Hj.
  destruct (decide (a ≤ j < a + n)).
  - rewrite znth_zsplice_in by lia.
    destruct (decide (a + i ≤ j < a + i + zlen k)).
    + rewrite !znth_zsplice_in by lia. f_equal. lia.
    + rewrite !znth_zsplice_ne by lia. rewrite znth_slice by lia. f_equal. lia.
  - rewrite !znth_zsplice_ne by lia. done.
Qed.

Lemma slice_zsplice_mid i k l a c :
  0 ≤ i → i + zlen k ≤ zlen l → 0 ≤ a ≤ i → i + zlen k ≤ c ≤ zlen l →
  slice a c (zsplice i k l) = zsplice (i - a) k (slice a c l).
Proof.
  intros Hi Hk Ha Hc. pose proof (zlen_nonneg k).
  assert (zlen (slice a c l) = c - a) as Hs by (rewrite zlen_slice; lia).
  assert (zlen (slice a c (zsplice i k l)) = c - a) as Hs' by (rewrite zlen_slice, zlen_zsplice; lia).
  apply list_eq_znth; [rewrite zlen_zsplice; lia|]. rewrite Hs'. intros j Hj. rewrite znth_slice by lia.
  destruct (decide (i ≤ a + j < i + zlen k)).
  - rewrite !znth_zsplice_in by lia. f_equal. lia.
  - rewrite !znth_zsplice_ne by lia. by rewrite znth_slice by lia.
Qed.

(** Splicing the old window back undoes a splice. *)
Lemma zsplice_undo i k l :
  0 ≤ i → i + zlen k ≤ zlen l → zsplice i (slice i (i + zlen k) l) (zsplice i k l) = l.
Proof.
  intros Hi Hk. pose proof (zlen_nonneg k).
  assert (zlen (slice i (i + zlen k) l) = zlen k) as Hs by (rewrite zlen_slice; lia).
  pose proof (zlen_zsplice i k l Hi Hk) as Hz.
  apply list_eq_znth; [rewrite zlen_zsplice; lia|]. rewrite zlen_zsplice by lia. intros j Hj.
  destruct (decide (i ≤ j < i + zlen k)).
  - rewrite znth_zsplice_in, znth_slice by lia. f_equal. lia.
  - by rewrite !znth_zsplice_ne by lia.
Qed.
End zlists.

Lemma filter_all {A} (P : A → Prop) `{∀ x, Decision (P x)} (l : list A) :
  Forall P l → base.filter P l = l.
Proof.
  induction 1 as [|x l Hx _ IH]; [done|]. by rewrite filter_cons_True, IH.
Qed.

Create Rewrite HintDb pylists.
Create HintDb pylists.
#[export] Hint Rewrite @zlen_app @zlen_cons @zlen_nil @zlen_replicate : pylists.
#[export] Hint Resolve zlen_nonneg : pylists.

(** [roundup4 n]: the least multiple of four that is at least [n]. *)
Definition roundup4 (n : Z) : Z := 4 * ((n + 3) / 4).

Lemma roundup4_spec n : n ≤ roundup4 n < n + 4 ∧ roundup4 n mod 4 = 0.
Proof.
  unfold roundup4. pose proof (Z.div_mod (n + 3) 4).
  pose proof (Z.mod_pos_bound (n + 3) 4). split; [lia|].
  rewrite Z.mul_comm. apply Z.mod_mul. lia.
Qed.
Lemma roundup4_mult n : n mod 4 = 0 → roundup4 n = n.
Proof.
  intros H. pose proof (roundup4_spec n) as [? Hm].
  pose proof (Z.div_mod n 4). pose proof (Z.div_mod (roundup4 n) 4). lia.
Qed.


(** ** The high bit of a 32-bit word

    The trees' length words carry a flag in bit 31. *)

Lemma land_bit31 n : 0 ≤ n < 2 ^ 31 → Z.land n 0x80000000 = 0.
Proof.
  intros. apply Z.bits_inj'. intros i Hi. rewrite Z.land_spec, Z.bits_0.
  change 0x80000000 with (2 ^ 31). rewrite Z.pow2_bits_eqb by lia.
  destruct (31 =? i) eqn:E; [|by rewrite andb_false_r]. rewrite andb_true_r.
  destruct (Z.eq_dec n 0) as [->|]; [by rewrite Z.bits_0|].
  apply Z.bits_above_log2; [lia|]. replace i with 31 by lia. apply Z.log2_lt_pow2; lia.
Qed.
Lemma land_lnot_bit31 n : 0 ≤ n < 2 ^ 31 → Z.land n (Z.lnot 0x80000000) = n.
Proof.
  intros Hn. pose proof (land_bit31 n Hn) as H0.
  rewrite <-Z.ldiff_land. apply Z.bits_inj'. intros i Hi. rewrite Z.ldiff_spec.
  apply (f_equal (λ z, Z.testbit z i)) in H0. rewrite Z.land_spec, Z.bits_0 in H0.
  destruct (Z.testbit n i), (Z.testbit 0x80000000 i); done.
Qed.

Lemma flagged_length n f :
  0 ≤ n < 2 ^ 31 → f = 0 ∨ f = 0x80000000 →
  0 ≤ Z.lor n f < 2 ^ 32 ∧ Z.land (Z.lor n f) 0x80000000 = f
  ∧ Z.land (Z.lor n f) (Z.lnot 0x80000000) = n.
Proof.
  intros Hn Hf. rewrite !Z.land_lor_distr_l, land_bit31, land_lnot_bit31 by done.
  assert (Z.lor n f < 2 ^ 32) as Hlt.
  { destruct (Z.eq_dec (Z.lor n f) 0) as [->|]; [done|].
    apply Z.log2_lt_pow2; [|rewrite Z.log2_lor by lia].
    - assert (0 ≤ Z.lor n f) by (apply Z.lor_nonneg; lia). lia.
    - assert (Z.log2 n < 32).
      { destruct (Z.eq_dec n 0) as [->|]; [done|]. apply Z.log2_lt_pow2; lia. }
      assert (Z.log2 f < 32) by (by destruct Hf as [-> | ->]). lia. }
  split; [split; [apply Z.lor_nonneg; lia|done]|].
  destruct Hf as [-> | ->]; cbn; split; try done; by rewrite ?Z.lor_0_r.
Qed.

(** [(n + 3) & ~3] is the least multiple of four that is at least [n]. *)
Lemma land_lnot3 n : Z.land (n + 3) (Z.lnot 3) = roundup4 n.
Proof.
  change 3 with (Z.ones 2) at 2. rewrite <-Z.ldiff_land, Z.ldiff_ones_r by lia.
  rewrite Z.shiftl_mul_pow2, Z.shiftr_div_pow2 by lia. unfold roundup4. change (2 ^ 2) with 4. apply Z.mul_comm.
Qed.

(** A value of [n] bits beside a multiple of [2 ^ n]. *)
Lemma land_high_low a c n : 0 ≤ n → 0 ≤ c < 2 ^ n → Z.land (a * 2 ^ n) c = 0.
Proof.
  intros Hn Hc. apply Z.bits_inj'. intros i Hi. rewrite Z.land_spec, Z.bits_0.
  destruct (Z_lt_le_dec i n).
  - by rewrite Z.mul_pow2_bits_low.
  - rewrite <-(Z.mod_small c (2 ^ n)) by done. rewrite Z.mod_pow2_bits_high by lia. apply andb_false_r.
Qed.
Lemma lor_high_low a c n : 0 ≤ n → 0 ≤ c < 2 ^ n → Z.lor (a * 2 ^ n) c = a * 2 ^ n + c.
Proof. intros Hn Hc. pose proof (Z.add_lor_land (a * 2 ^ n) c). rewrite land_high_low in * by done. lia. Qed.

(** Masking with ones above bit [n] keeps the quotient. *)
Lemma land_high_mask w n k : 0 ≤ n → 0 ≤ k → Z.land w (Z.shiftl (Z.ones k) n) = (w / 2 ^ n) mod 2 ^ k * 2 ^ n.
Proof.
  intros Hn Hk. rewrite <-Z.land_ones, <-Z.shiftr_div_pow2, <-Z.shiftl_mul_pow2 by done.
  apply Z.bits_inj'. intros i Hi. rewrite Z.land_spec.
  destruct (Z_lt_le_dec i n).
  - rewrite !Z.shiftl_spec_low by done. apply andb_false_r.
  - rewrite !Z.shiftl_spec by done. rewrite Z.land_spec, Z.shiftr_spec by lia.
    by replace (i - n + n) with i by lia.
Qed.
