(* ===== verification/PyState.v ===== *)
(** * Stateful Python that can raise

    A procedure over a state [S] gives its value or the exception it raises
    and the state it leaves behind: what was done before a [raise] stays done.
    The console client, the page cache of the memory reader, the staged
    installer and the startup tracer are written in this monad.  Three logics
    come with it: [wp], which follows one run; [Leads], which relates the
    states before and after every run, raising or not; and [Holds], for an
    invariant that every run keeps and the exceptions it can raise. *)

From stdpp Require Import base tactics list.
From S2P Require Import Prelude.

Definition SE (S A : Type) : Type := S → res A * S.
#[export] Instance se_ret {S} : MRet (SE S) := λ A a s, (Ok a, s).
#[export] Instance se_bind {S} : MBind (SE S) := λ A B f m s,
  match m s with (Ok a, s) => f a s | (Raise e, s) => (Raise e, s) end.

Section operations.
Context {S : Type}.

Definition lift {A} (m : res A) : SE S A := λ s, (m, s).
Definition raise {A} (e : exn) : SE S A := lift (Raise e).
Definition gets {A} (f : S → A) : SE S A := λ s, (Ok (f s), s).
Definition update (f : S → S) : SE S () := λ s, (Ok (), f s).
(** [if b: m]. *)
Definition when (b : bool) (m : SE S ()) : SE S () := if b then m else mret ().
(** [for x in l: f(x)]. *)
Fixpoint for_each {A} (f : A → SE S ()) (l : list A) : SE S () :=
  match l with
  | [] => mret ()
  | x :: l => _ ← f x; for_each f l
  end.
End operations.

(** A run that returns has returned from both halves. *)
Lemma bind_returns {S A B} (m : SE S A) (f : A → SE S B) s b s' :
  (m ≫= f) s = (Ok b, s') → ∃ a s1, m s = (Ok a, s1) ∧ f a s1 = (Ok b, s').
Proof. unfold mbind, se_bind. destruct (m s) as [[a|e] s1]; [eauto|done]. Qed.

(** ** One run *)

Section wp.
Context {S : Type}.

(** [m] run from [s] returns in [Q] or raises in [E]. *)
Definition wp {A} (m : SE S A) (Q : A → S → Prop) (E : exn → S → Prop) (s : S) : Prop :=
  match m s with (Ok a, s') => Q a s' | (Raise e, s') => E e s' end.

Lemma wp_mono {A} (m : SE S A) (Q Q' : A → S → Prop) (E E' : exn → S → Prop) s :
  wp m Q E s → (∀ a s', Q a s' → Q' a s') → (∀ e s', E e s' → E' e s') → wp m Q' E' s.
Proof. unfold wp. destruct (m s) as [[a|e] s']; auto. Qed.
Lemma wp_bind {A B} (m : SE S A) (f : A → SE S B) Q E s :
  wp m (λ a, wp (f a) Q E) E s → wp (m ≫= f) Q E s.
Proof. unfold wp, mbind, se_bind. destruct (m s) as [[a|e] s']; auto. Qed.
Lemma wp_then {A B} (m : SE S A) (f : A → SE S B) (P : A → S → Prop) Q E s :
  wp m P E s → (∀ a s', P a s' → wp (f a) Q E s') → wp (m ≫= f) Q E s.
Proof. intros Hm Hf. apply wp_bind. eapply wp_mono; [exact Hm|exact Hf|done]. Qed.
Lemma wp_ret {A} (a : A) (Q : A → S → Prop) E s : Q a s → wp (mret a) Q E s.
Proof. done. Qed.
Lemma wp_lift {A} (m : res A) (Q : A → S → Prop) (E : exn → S → Prop) s :
  (∀ a, m = Ok a → Q a s) → (∀ e, m = Raise e → E e s) → wp (lift m) Q E s.
Proof. unfold wp, lift. destruct m; auto. Qed.
Lemma wp_raise {A} e (Q : A → S → Prop) (E : exn → S → Prop) s : E e s → wp (raise e) Q E s.
Proof. done. Qed.
Lemma wp_gets {A} (f : S → A) (Q : A → S → Prop) E s : Q (f s) s → wp (gets f) Q E s.
Proof. done. Qed.
Lemma wp_update (f : S → S) (Q : () → S → Prop) E s : Q () (f s) → wp (update f) Q E s.
Proof. done. Qed.
Lemma wp_when b (m : SE S ()) (Q : () → S → Prop) E s :
  (b = true → wp m Q E s) → (b = false → Q () s) → wp (when b m) Q E s.
Proof. unfold when. destruct b; [auto|]. intros _ HQ. by apply wp_ret, HQ. Qed.

(** The invariant rule of a loop; [done_] is what has been gone through. *)
Lemma wp_for_each {A} (f : A → SE S ()) (I : list A → S → Prop) (E : exn → S → Prop) l s :
  I [] s →
  (∀ done_ x s', I done_ s' → done_ ++ [x] `prefix_of` l → wp (f x) (λ _, I (done_ ++ [x])) E s') →
  wp (for_each f l) (λ _, I l) E s.
Proof.
  intros H0 Hf.
  assert (∀ rest done_ s', done_ ++ rest = l → I done_ s' → wp (for_each f rest) (λ _, I l) E s') as Hgo.
  { induction rest as [|x rest IH]; intros done_ s' Hl HI; cbn [for_each].
    - rewrite app_nil_r in Hl. apply wp_ret. by rewrite <-Hl.
    - apply wp_bind. eapply wp_mono; [apply Hf; [exact HI|]| |done].
      + exists rest. by rewrite <-app_assoc.
      + intros a s'' HI'. cbv beta in HI'. apply (IH (done_ ++ [x])); [by rewrite <-app_assoc|exact HI']. }
  by apply (Hgo l []).
Qed.
End wp.

(** ** Every run *)

(** [m] takes every state to one [R] relates it to, even when it raises. *)
Class Leads {S A} (R : S → S → Prop) (m : SE S A) := leads s : R s (m s).2.
#[export] Hint Mode Leads ! - ! ! : typeclass_instances.

Section leads.
Context {S : Type} (R : S → S → Prop).

#[export] Instance leads_ret `{!Reflexive R} {A} (a : A) : Leads R (mret a).
Proof. intros s. cbn. reflexivity. Qed.
#[export] Instance leads_lift `{!Reflexive R} {A} (m : res A) : Leads R (lift m).
Proof. intros s. cbn. reflexivity. Qed.
#[export] Instance leads_raise `{!Reflexive R} {A} e : Leads R (raise (A:=A) e).
Proof. intros s. cbn. reflexivity. Qed.
#[export] Instance leads_gets `{!Reflexive R} {A} (f : S → A) : Leads R (gets f).
Proof. intros s. cbn. reflexivity. Qed.
#[export] Instance leads_bind `{!Transitive R} {A B} (m : SE S A) (f : A → SE S B) :
  Leads R m → (∀ a, Leads R (f a)) → Leads R (m ≫= f).
Proof.
  intros Hm Hf s. unfold mbind, se_bind. specialize (Hm s).
  destruct (m s) as [[a|e] s']; [|exact Hm]. etransitivity; [exact Hm|apply (Hf a)].
Qed.
#[export] Instance leads_when `{!Reflexive R} b (m : SE S ()) : Leads R m → Leads R (when b m).
Proof. intros Hm s. unfold when. destruct b; [apply Hm|cbn; reflexivity]. Qed.
#[export] Instance leads_if {A} (b : bool) (m m' : SE S A) : Leads R m → Leads R m' → Leads R (if b then m else m').
Proof. by destruct b. Qed.
#[export] Instance leads_option {A B} (o : option A) (f : A → SE S B) (m : SE S B) :
  (∀ a, Leads R (f a)) → Leads R m → Leads R (match o with Some a => f a | None => m end).
Proof. destruct o; auto. Qed.
#[export] Instance leads_for_each `{!Reflexive R, !Transitive R} {A} (f : A → SE S ()) l :
  (∀ a, Leads R (f a)) → Leads R (for_each f l).
Proof. intros Hf. induction l as [|x l IH]; cbn [for_each]; apply _. Qed.
End leads.

(** ** Invariants *)

(** Run from [s], [m] ends in [I], also when it raises, and what it raises is
    in [E]; [Holds] is that for every [s] in [I]. *)
Definition keeps_at {S A} (I : S → Prop) (E : exn → Prop) (m : SE S A) (s : S) : Prop :=
  I (m s).2 ∧ match (m s).1 with Ok _ => True | Raise e => E e end.
Class Holds {S A} (I : S → Prop) (E : exn → Prop) (m : SE S A) := holds s : I s → keeps_at I E m s.
#[export] Hint Mode Holds ! - ! ! ! : typeclass_instances.

Section holds.
Context {S : Type} (I : S → Prop) (E : exn → Prop).

#[export] Instance holds_ret {A} (a : A) : Holds I E (mret a).
Proof. intros s H. by split. Qed.
#[export] Instance holds_gets {A} (f : S → A) : Holds I E (gets f).
Proof. intros s H. by split. Qed.
Lemma holds_raise {A} e : E e → Holds I E (raise (A:=A) e).
Proof. intros He s H. by split. Qed.
Lemma holds_lift {A} (m : res A) : (∀ e, m = Raise e → E e) → Holds I E (lift m).
Proof. intros He s H. split; [done|]. cbn. destruct m; auto. Qed.
Lemma holds_update f : (∀ s, I s → I (f s)) → Holds I E (update f).
Proof. intros Hf s H. split; [by apply Hf|done]. Qed.

(** Sequencing, with what is known of the first half's result. *)
Lemma keeps_bind {A B} (m : SE S A) (f : A → SE S B) s :
  keeps_at I E m s → (∀ a s', m s = (Ok a, s') → I s' → keeps_at I E (f a) s') → keeps_at I E (m ≫= f) s.
Proof.
  unfold keeps_at, mbind, se_bind. intros [Hs He] Hf. destruct (m s) as [[a|e] s']; [|by split].
  by apply (Hf a s').
Qed.
Lemma keeps_gets {A B} (g : S → A) (f : A → SE S B) s :
  keeps_at I E (f (g s)) s → keeps_at I E (gets g ≫= f) s.
Proof. done. Qed.
Lemma keeps_ok {A B} (m : SE S A) (f : A → SE S B) a s s' :
  m s = (Ok a, s') → keeps_at I E (f a) s' → keeps_at I E (m ≫= f) s.
Proof. unfold keeps_at, mbind, se_bind. by intros ->. Qed.
Lemma keeps_lift {A B} (m : res A) (f : A → SE S B) s :
  I s → (∀ a, m = Ok a → keeps_at I E (f a) s) → (∀ e, m = Raise e → E e) → keeps_at I E (lift m ≫= f) s.
Proof.
  unfold keeps_at, mbind, se_bind, lift. intros Hs Hf He. destruct m as [a|e]; [by apply Hf|]. cbn. auto.
Qed.
(** The first half establishes [Q] besides the invariant. *)
Lemma keeps_mid {A B} (Q : S → Prop) (m : SE S A) (f : A → SE S B) s :
  keeps_at (λ s', I s' ∧ Q s') E m s → (∀ a s', I s' → Q s' → keeps_at I E (f a) s') → keeps_at I E (m ≫= f) s.
Proof.
  unfold keeps_at, mbind, se_bind. intros [[Hs HQ] He] Hf. destruct (m s) as [[a|e] s']; [by apply Hf|by split].
Qed.
(** The first half is related to what follows it. *)
Lemma keeps_leads {A B} (R : S → S → Prop) (m : SE S A) (f : A → SE S B) s :
  Leads R m → Holds I E m → I s → (∀ a s', I s' → R s s' → keeps_at I E (f a) s') → keeps_at I E (m ≫= f) s.
Proof.
  intros HR Hm Hs Hf. apply keeps_bind; [by apply Hm|]. intros a s' Heq Hs'. apply Hf; [done|].
  specialize (HR s). by rewrite Heq in HR.
Qed.
Lemma keeps_assoc {A B C} (m : SE S A) (f : A → SE S B) (g : B → SE S C) s :
  keeps_at I E (m ≫= λ a, f a ≫= g) s → keeps_at I E ((m ≫= f) ≫= g) s.
Proof. unfold keeps_at, mbind, se_bind. by destruct (m s) as [[a|e] s']. Qed.
#[export] Instance holds_bind {A B} (m : SE S A) (f : A → SE S B) :
  Holds I E m → (∀ a, Holds I E (f a)) → Holds I E (m ≫= f).
Proof. intros Hm Hf s H. apply keeps_bind; [by apply Hm|]. intros a s' _. apply Hf. Qed.
#[export] Instance holds_when b (m : SE S ()) : Holds I E m → Holds I E (when b m).
Proof. intros Hm. unfold when. destruct b; [exact Hm|apply _]. Qed.
#[export] Instance holds_if {A} (b : bool) (m m' : SE S A) : Holds I E m → Holds I E m' → Holds I E (if b then m else m').
Proof. by destruct b. Qed.
#[export] Instance holds_option {A B} (o : option A) (f : A → SE S B) (m : SE S B) :
  (∀ a, Holds I E (f a)) → Holds I E m → Holds I E (match o with Some a => f a | None => m end).
Proof. destruct o; auto. Qed.
#[export] Instance holds_for_each {A} (f : A → SE S ()) l : (∀ a, Holds I E (f a)) → Holds I E (for_each f l).
Proof. intros Hf. induction l as [|x l IH]; cbn [for_each]; apply _. Qed.
End holds.
