(* ===== verification/PyBytes.v ===== *)
(** * Python [bytes]

    A [bytes] value is a [list byte]: the range of every element is part of
    its type.  This file holds the fixed-width integer codec of [struct]
    (["<I"], ["<Q"], [">I"], ...), the [bytes] methods the tools call
    ([ljust], [find], [split], [startswith], [hex]/[fromhex]) and their
    lemmas. *)

From stdpp Require Import base tactics list list_numbers strings sets.
From Stdlib Require Import Strings.Byte.
From S2P Require Import Prelude.
Open Scope Z_scope.

(** ** Bytes and integers *)

Definition b2z (b : byte) : Z := Z.of_N (Byte.to_N b).
Definition z2b (z : Z) : byte :=
  match Byte.of_N (Z.to_N (z mod 256)) with Some b => b | None => x00 end.

#[export] Instance byte_eq_dec : EqDecision byte := Byte.byte_eq_dec.

(** An ASCII literal, Python's [b'...']. *)
Definition b (s : string) : list byte := String.list_byte_of_string s.

Lemma b2z_range x : 0 ≤ b2z x < 256.
Proof. unfold b2z. pose proof (Byte.to_N_bounded x). lia. Qed.
Lemma z2b_b2z x : z2b (b2z x) = x.
Proof.
  unfold z2b. rewrite Z.mod_small by apply b2z_range.
  unfold b2z. rewrite N2Z.id. by rewrite Byte.of_to_N.
Qed.
Lemma b2z_z2b z : b2z (z2b z) = z mod 256.
Proof.
  unfold z2b. pose proof (Z.mod_pos_bound z 256 ltac:(lia)) as Hr.
  destruct (Byte.of_N (Z.to_N (z mod 256))) as [x|] eqn:E.
  - unfold b2z. apply Byte.to_of_N in E. rewrite E. lia.
  - apply Byte.of_N_None_iff in E. lia.
Qed.
Lemma b2z_inj x y : b2z x = b2z y → x = y.
Proof. intros H. by rewrite <-(z2b_b2z x), <-(z2b_b2z y), H. Qed.

(** ** Fixed-width integers, little and big endian *)

Fixpoint le_bytes (n : nat) (z : Z) : list byte :=
  match n with O => [] | S n => z2b z :: le_bytes n (z / 256) end.
Fixpoint le_Z (l : list byte) : Z :=
  match l with [] => 0 | x :: l => b2z x + 256 * le_Z l end.
Definition be_bytes (n : nat) (z : Z) : list byte := reverse (le_bytes n z).
Definition be_Z (l : list byte) : Z := le_Z (reverse l).

Lemma length_le_bytes n z : length (le_bytes n z) = n.
Proof. revert z. induction n; intros; simpl; auto. Qed.
Lemma zlen_le_bytes n z : zlen (le_bytes n z) = Z.of_nat n.
Proof. unfold zlen. by rewrite length_le_bytes. Qed.

Lemma le_Z_range l : 0 ≤ le_Z l < 2 ^ (8 * zlen l).
Proof.
  induction l as [|x l IH]; simpl; [done|].
  rewrite zlen_cons, Z.mul_add_distr_l, Z.pow_add_r by (unfold zlen; lia).
  change (2 ^ (8 * 1)) with 256. pose proof (b2z_range x). nia.
Qed.

Lemma le_Z_bytes n z : le_Z (le_bytes n z) = z mod 2 ^ (8 * Z.of_nat n).
Proof.
  revert z. induction n as [|n IH]; intros z; [by rewrite Z.mod_1_r|].
  simpl le_bytes. simpl le_Z. rewrite IH, b2z_z2b.
  replace (8 * Z.of_nat (S n)) with (8 + 8 * Z.of_nat n) by lia.
  rewrite Z.pow_add_r by lia. change (2 ^ 8) with 256.
  rewrite Z.rem_mul_r by lia. lia.
Qed.

Lemma le_bytes_Z l n : n = length l → le_bytes n (le_Z l) = l.
Proof.
  intros ->. induction l as [|x l IH]; simpl; [done|].
  pose proof (b2z_range x) as Hr. f_equal.
  - apply b2z_inj. rewrite b2z_z2b, (Z.mul_comm 256), Z.mod_add by lia.
    by apply Z.mod_small.
  - by rewrite (Z.mul_comm 256), Z.div_add, Z.div_small, Z.add_0_l by lia.
Qed.

Lemma le_Z_bytes_id n z : 0 ≤ z < 2 ^ (8 * Z.of_nat n) → le_Z (le_bytes n z) = z.
Proof. intros. rewrite le_Z_bytes. by apply Z.mod_small. Qed.

(** ** [struct.pack] and [struct.unpack_from]

    [pack] raises [struct.error] when the value does not fit its format;
    [unpack] raises it when the buffer has the wrong length. *)

Definition pack_u (n : nat) (z : Z) : res (list byte) :=
  if (0 <=? z) && (z <? 2 ^ (8 * Z.of_nat n)) then Ok (le_bytes n z) else Raise StructError.
Definition pack_I := pack_u 4.
Definition pack_Q := pack_u 8.
Definition pack_B := pack_u 1.

Definition unpack_u (n : nat) (l : list byte) : res Z :=
  if zlen l =? Z.of_nat n then Ok (le_Z l) else Raise StructError.
Definition unpack_I := unpack_u 4.
Definition unpack_Q := unpack_u 8.

(** [struct.unpack_from("<I", buf, off)], with [0 ≤ off]. *)
Definition unpack_from_u (n : nat) (l : list byte) (off : Z) : res Z :=
  unpack_u n (slice off (off + Z.of_nat n) l).
Definition unpack_from_I := unpack_from_u 4.
Definition unpack_from_Q := unpack_from_u 8.

(** ["<II"] and ["<QQ"]. *)
Definition pack_II (x y : Z) : res (list byte) :=
  p ← pack_I x; q ← pack_I y; Ok (p ++ q).
Definition unpack_II (l : list byte) : res (Z * Z) :=
  if zlen l =? 8 then Ok (le_Z (ztake 4 l), le_Z (zdrop 4 l)) else Raise StructError.

Definition unpack_be (n : nat) (l : list byte) (off : Z) : res Z :=
  let w := slice off (off + Z.of_nat n) l in
  if zlen w =? Z.of_nat n then Ok (be_Z w) else Raise StructError.

Lemma pack_u_Ok n z l :
  pack_u n z = Ok l ↔ 0 ≤ z < 2 ^ (8 * Z.of_nat n) ∧ l = le_bytes n z.
Proof.
  unfold pack_u. case_match eqn:E.
  - split; [intros [= <-]|intros [? ->]; done]. split; [lia|done].
  - split; [done|intros [? ->]; lia].
Qed.

Lemma unpack_pack_u n z l : pack_u n z = Ok l → unpack_u n l = Ok z.
Proof.
  rewrite pack_u_Ok. intros [Hz ->]. unfold unpack_u.
  rewrite zlen_le_bytes, Z.eqb_refl. by rewrite le_Z_bytes_id.
Qed.

Lemma pack_unpack_u n z l : unpack_u n l = Ok z → pack_u n z = Ok l.
Proof.
  unfold unpack_u. case_match eqn:E; [|done]. intros [= <-].
  apply pack_u_Ok. pose proof (le_Z_range l) as Hr.
  unfold zlen in *. split; [|by rewrite le_bytes_Z by lia].
  by replace (length l) with n in Hr by lia.
Qed.

Lemma pack_u_length n z l : pack_u n z = Ok l → zlen l = Z.of_nat n.
Proof. rewrite pack_u_Ok. intros [_ ->]. apply zlen_le_bytes. Qed.

(** Reading at the offset where a word was appended gives the word back. *)
Lemma unpack_from_app n z w pre post off :
  pack_u n z = Ok w → off = zlen pre →
  unpack_from_u n (pre ++ w ++ post) off = Ok z.
Proof.
  intros Hp ->. unfold unpack_from_u.
  rewrite slice_app_mid; [by apply unpack_pack_u|done|].
  by rewrite (pack_u_length _ _ _ Hp).
Qed.

(** ** Methods *)

(** [v.ljust(n, fill)]. *)
Definition ljust {A} (n : Z) (fill : A) (l : list A) : list A :=
  l ++ replicate (Z.to_nat (n - zlen l)) fill.

Lemma zlen_ljust {A} n (x : A) l : zlen (ljust n x l) = Z.max n (zlen l).
Proof. unfold ljust. rewrite zlen_app, zlen_replicate. lia. Qed.

Section search.
Context {A : Type} `{EqDecision A}.
Implicit Types p l : list A.

(** [l.startswith(p)]. *)
Fixpoint startswith p l : bool :=
  match p, l with
  | [], _ => true
  | x :: p, y :: l => bool_decide (x = y) && startswith p l
  | _, [] => false
  end.

(** [p in l], the substring test of [bytes] and [str]. *)
Fixpoint contains p l : bool :=
  startswith p l || match l with [] => false | _ :: l => contains p l end.

(** [l.find(p)] as an optional index ([None] is Python's [-1]). *)
Fixpoint find_from (i : Z) p l : option Z :=
  if startswith p l then Some i
  else match l with [] => None | _ :: l => find_from (i + 1) p l end.
Definition find p l : option Z := find_from 0 p l.

Definition endswith p l : bool := startswith (reverse p) (reverse l).

(** [l.split(sep)] for a one-element separator. *)
Fixpoint split1 (sep : A) l : list (list A) :=
  match l with
  | [] => [[]]
  | x :: l =>
      match split1 sep l with
      | [] => [[x]]
      | w :: ws => if decide (x = sep) then [] :: w :: ws else (x :: w) :: ws
      end
  end.

(** [sep.join(ws)] for a one-element separator. *)
Fixpoint join1 (sep : A) (ws : list (list A)) : list A :=
  match ws with
  | [] => []
  | [w] => w
  | w :: ws => w ++ sep :: join1 sep ws
  end.

(** [l.split(sep)[0]]: the part before the first separator. *)
Fixpoint before (sep : A) l : list A :=
  match l with
  | [] => []
  | x :: l => if decide (x = sep) then [] else x :: before sep l
  end.

Lemma startswith_spec p l : startswith p l = true ↔ ∃ k, l = p ++ k.
Proof.
  revert l. induction p as [|x p IH]; intros l; simpl.
  - split; eauto.
  - destruct l as [|y l]; [split; [done|by intros [? ?]]|].
    rewrite andb_true_iff, bool_decide_eq_true, IH. split.
    + intros [-> [k ->]]. eauto.
    + intros [k [= -> ->]]. eauto.
Qed.

Lemma contains_spec p l : contains p l = true ↔ ∃ l1 l2, l = l1 ++ p ++ l2.
Proof.
  induction l as [|x l IH]; simpl; rewrite orb_true_iff, startswith_spec.
  - split.
    + intros [[k Hk]|?]; [|done]. exists [], k. done.
    + intros ([|??] & l2 & H); [|done]. left. eauto.
  - rewrite IH. split.
    + intros [[k ->]|(l1 & l2 & ->)]; [by exists [], k|by exists (x :: l1), l2].
    + intros ([|y l1] & l2 & H); [left; eauto|].
      right. injection H as -> ->. eauto.
Qed.

Lemma split1_not_nil sep l : split1 sep l ≠ [].
Proof. destruct l; simpl; [done|]. repeat case_match; done. Qed.

Lemma join1_split1 sep l : join1 sep (split1 sep l) = l.
Proof.
  induction l as [|x l IH]; simpl; [done|].
  destruct (split1 sep l) as [|w ws] eqn:E; [by apply split1_not_nil in E|].
  destruct (decide (x = sep)) as [->|]; simpl.
  - f_equal. apply IH.
  - destruct ws; simpl in *; congruence.
Qed.

(** Splitting an extended text: the last piece is split on with what follows. *)
Lemma split1_app sep l k :
  split1 sep (l ++ k) = removelast (split1 sep l) ++ split1 sep (List.last (split1 sep l) [] ++ k).
Proof.
  induction l as [|x l IH]; [done|]. cbn [split1 app]. rewrite IH.
  pose proof (split1_not_nil sep l) as Hl. destruct (split1 sep l) as [|w ws]; [done|].
  destruct ws as [|w' ws]; cbn [removelast List.last app].
  - pose proof (split1_not_nil sep (w ++ k)) as Hk. destruct (decide (x = sep)) as [->|Hx]; cbn [app].
    + cbn. destruct (split1 sep (w ++ k)); [done|]. reflexivity.
    + cbn [split1 app removelast List.last]. destruct (split1 sep (w ++ k)); [done|]. by destruct (decide (x = sep)).
  - destruct (decide (x = sep)); reflexivity.
Qed.

Lemma split1_none sep l : sep ∉ l → split1 sep l = [l].
Proof.
  induction l as [|x l IH]; [done|]. intros [Hx Hl]%not_elem_of_cons. cbn [split1].
  rewrite IH by done. by rewrite decide_False.
Qed.
(** A text up to a separator is one piece. *)
Lemma split1_sep sep l k : sep ∉ l → split1 sep (l ++ sep :: k) = l :: split1 sep k.
Proof.
  intros Hl. rewrite split1_app, split1_none by done. cbn [removelast List.last app].
  induction l as [|x l IH]; cbn [app split1].
  - pose proof (split1_not_nil sep k). destruct (split1 sep k); [done|]. by rewrite decide_True.
  - apply not_elem_of_cons in Hl as [Hx Hl]. rewrite IH by done. by rewrite decide_False.
Qed.

Lemma split1_no_sep sep l : Forall (λ w, sep ∉ w) (split1 sep l).
Proof.
  induction l as [|x l IH]; simpl.
  - repeat constructor. set_solver.
  - destruct (split1 sep l) as [|w ws] eqn:E; [by apply split1_not_nil in E|].
    apply Forall_cons in IH as [Hw Hws].
    destruct (decide (x = sep)); repeat constructor; set_solver.
Qed.

Lemma before_app sep l k : sep ∉ l → before sep (l ++ sep :: k) = l.
Proof.
  induction l as [|x l IH]; simpl; intros Hin.
  - by rewrite decide_True.
  - rewrite decide_False by set_solver. f_equal. apply IH. set_solver.
Qed.
Lemma before_id sep l : sep ∉ l → before sep l = l.
Proof.
  induction l as [|x l IH]; simpl; intros Hin; [done|].
  rewrite decide_False by set_solver. f_equal. apply IH. set_solver.
Qed.
Lemma before_not_in sep l : sep ∉ before sep l.
Proof.
  induction l as [|x l IH]; simpl; [set_solver|]. case_decide; set_solver.
Qed.
Lemma before_prefix sep l :
  l = before sep l ∨ ∃ k, l = before sep l ++ sep :: k.
Proof.
  induction l as [|x l IH]; simpl; [by left|].
  destruct (decide (x = sep)) as [->|]; [right; by exists l|].
  destruct IH as [IH|[k IH]]; [left; congruence|right; exists k; simpl; congruence].
Qed.
End search.

#[global] Arguments le_bytes : simpl never.
#[global] Arguments le_Z : simpl never.
#[global] Arguments pack_u : simpl never.
#[global] Arguments unpack_u : simpl never.
#[global] Arguments pack_I : simpl never.
#[global] Arguments pack_Q : simpl never.
#[global] Arguments unpack_I : simpl never.
#[global] Arguments unpack_Q : simpl never.

#[export] Hint Rewrite @zlen_ljust zlen_le_bytes : pylists.
