(* ===== verification/PyStr.v ===== *)
(** * Python [str]

    A [str] is the list of its code points (a [list Z]).  The coercion [u]
    turns an ASCII literal into that list.  This file holds the UTF-8 codec,
    strict and with [errors='replace'], the number parsers and printers
    ([int(s, 0)], [hex], [str]) and the text methods the tools call, with
    their round-trip lemmas. *)

From stdpp Require Import base tactics list list_numbers strings sets.
From Stdlib Require Import Strings.Byte.
From S2P Require Import Prelude PyBytes.
Open Scope Z_scope.

Definition u (s : string) : list Z :=
  map (λ c, Z.of_N (Ascii.N_of_ascii c)) (String.list_ascii_of_string s).
Coercion u : string >-> list.

(** ** UTF-8 *)

Definition surrogate (c : Z) : bool := (0xD800 <=? c) && (c <? 0xE000).
Definition valid_cp (c : Z) : Prop := 0 ≤ c < 0x110000 ∧ surrogate c = false.
#[export] Instance valid_cp_dec c : Decision (valid_cp c).
Proof. unfold valid_cp. apply _. Defined.

Definition utf8_enc (c : Z) : list byte :=
  if c <? 0x80 then [z2b c]
  else if c <? 0x800 then [z2b (0xC0 + c / 64); z2b (0x80 + c mod 64)]
  else if c <? 0x10000 then
    [z2b (0xE0 + c / 4096); z2b (0x80 + c / 64 mod 64); z2b (0x80 + c mod 64)]
  else [z2b (0xF0 + c / 262144); z2b (0x80 + c / 4096 mod 64);
        z2b (0x80 + c / 64 mod 64); z2b (0x80 + c mod 64)].

(** [s.encode()] raises [UnicodeEncodeError] on a surrogate. *)
Definition utf8_encode (s : list Z) : res (list byte) :=
  if bool_decide (Forall valid_cp s) then Ok (concat (map utf8_enc s))
  else Raise UnicodeEncodeError.

(** One decoding step: a code point and the bytes it took, or a malformed
    sequence and the bytes CPython skips ([errors='replace'] writes one
    U+FFFD for them). *)
Inductive utf8_item := UCp (c : Z) (n : nat) | UBad (n : nat).

Definition is_cont (x : Z) : bool := (0x80 <=? x) && (x <? 0xC0).
Definition ok_second3 (x y : Z) : bool :=
  is_cont y && negb ((x =? 0xE0) && (y <? 0xA0)) && negb ((x =? 0xED) && (0xA0 <=? y)).
Definition ok_second4 (x y : Z) : bool :=
  is_cont y && negb ((x =? 0xF0) && (y <? 0x90)) && negb ((x =? 0xF4) && (0x90 <=? y)).

Definition utf8_step (x : Z) (r : list Z) : utf8_item :=
  if x <? 0x80 then UCp x 1
  else if x <? 0xC2 then UBad 1
  else if x <? 0xE0 then
    match r with
    | y :: _ => if is_cont y then UCp ((x - 0xC0) * 64 + (y - 0x80)) 2 else UBad 1
    | [] => UBad 1
    end
  else if x <? 0xF0 then
    match r with
    | y :: r =>
        if ok_second3 x y then
          match r with
          | z :: _ => if is_cont z
                      then UCp ((x - 0xE0) * 4096 + (y - 0x80) * 64 + (z - 0x80)) 3
                      else UBad 2
          | [] => UBad 2
          end
        else UBad 1
    | [] => UBad 1
    end
  else if x <? 0xF5 then
    match r with
    | y :: r =>
        if ok_second4 x y then
          match r with
          | z :: r =>
              if is_cont z then
                match r with
                | w :: _ => if is_cont w
                            then UCp ((x - 0xF0) * 262144 + (y - 0x80) * 4096
                                      + (z - 0x80) * 64 + (w - 0x80)) 4
                            else UBad 3
                | [] => UBad 3
                end
              else UBad 2
          | [] => UBad 2
          end
        else UBad 1
    | [] => UBad 1
    end
  else UBad 1.

(** The decoded items of a buffer, [None] for a malformed sequence; [skip]
    counts the bytes still covered by the previous item. *)
Fixpoint utf8_items (skip : nat) (l : list Z) : list (option Z) :=
  match l with
  | [] => []
  | x :: l =>
      match skip with
      | S k => utf8_items k l
      | O => match utf8_step x l with
             | UCp c n => Some c :: utf8_items (pred n) l
             | UBad n => None :: utf8_items (pred n) l
             end
      end
  end.

(** [bs.decode('utf8')]. *)
Definition utf8_decode (l : list byte) : res (list Z) :=
  opt_or (mapM id (utf8_items 0 (map b2z l))) UnicodeDecodeError.
(** [bs.decode('utf8', 'replace')]. *)
Definition utf8_replace (l : list byte) : list Z :=
  map (default 0xFFFD) (utf8_items 0 (map b2z l)).

(** [bs.decode("ascii")]. *)
Definition ascii_decode (l : list byte) : res (list Z) :=
  if forallb (λ x, b2z x <? 0x80) l then Ok (map b2z l) else Raise UnicodeDecodeError.
(** [bs.decode('latin1')]. *)
Definition latin1_decode (l : list byte) : list Z := map b2z l.
(** [s.encode('ascii')]. *)
Definition ascii_encode (s : list Z) : res (list byte) :=
  if forallb (λ c, (0 <=? c) && (c <? 0x80)) s then Ok (map z2b s) else Raise UnicodeEncodeError.

(** [decide_cmp] rewrites the comparisons of the goal that [lia] settles. *)
Ltac decide_cmp :=
  repeat match goal with
  | |- context [?x <? ?y] =>
      first [rewrite (proj2 (Z.ltb_lt x y)) by lia | rewrite (proj2 (Z.ltb_ge x y)) by lia]
  | |- context [?x <=? ?y] =>
      first [rewrite (proj2 (Z.leb_le x y)) by lia | rewrite (proj2 (Z.leb_gt x y)) by lia]
  | |- context [?x =? ?y] =>
      first [rewrite (proj2 (Z.eqb_eq x y)) by lia | rewrite (proj2 (Z.eqb_neq x y)) by lia]
  end.

Section utf8_lemmas.
Lemma is_cont_true x : 0x80 ≤ x < 0xC0 → is_cont x = true.
Proof. intros. unfold is_cont. by decide_cmp. Qed.

Lemma step1 x r : 0 ≤ x < 0x80 → utf8_step x r = UCp x 1.
Proof. intros. unfold utf8_step. by decide_cmp. Qed.
Lemma step2 x y r :
  0xC2 ≤ x < 0xE0 → 0x80 ≤ y < 0xC0 →
  utf8_step x (y :: r) = UCp ((x - 0xC0) * 64 + (y - 0x80)) 2.
Proof. intros. unfold utf8_step. decide_cmp. by rewrite is_cont_true by lia. Qed.
Lemma step3 x y z r :
  0xE0 ≤ x < 0xF0 → 0x80 ≤ y < 0xC0 → 0x80 ≤ z < 0xC0 →
  (x = 0xE0 → 0xA0 ≤ y) → (x = 0xED → y < 0xA0) →
  utf8_step x (y :: z :: r)
  = UCp ((x - 0xE0) * 4096 + (y - 0x80) * 64 + (z - 0x80)) 3.
Proof.
  intros. unfold utf8_step. decide_cmp.
  replace (ok_second3 x y) with true; [by rewrite is_cont_true by lia|].
  unfold ok_second3. rewrite is_cont_true by lia. lia.
Qed.
Lemma step4 x y z w r :
  0xF0 ≤ x < 0xF5 → 0x80 ≤ y < 0xC0 → 0x80 ≤ z < 0xC0 → 0x80 ≤ w < 0xC0 →
  (x = 0xF0 → 0x90 ≤ y) → (x = 0xF4 → y < 0x90) →
  utf8_step x (y :: z :: w :: r)
  = UCp ((x - 0xF0) * 262144 + (y - 0x80) * 4096 + (z - 0x80) * 64 + (w - 0x80)) 4.
Proof.
  intros. unfold utf8_step. decide_cmp.
  replace (ok_second4 x y) with true; [by rewrite !is_cont_true by lia|].
  unfold ok_second4. rewrite is_cont_true by lia. lia.
Qed.

(** The bytes of one encoded code point decode to it. *)
Lemma utf8_items_enc c l :
  valid_cp c →
  utf8_items 0 (map b2z (utf8_enc c) ++ l) = Some c :: utf8_items 0 l.
Proof.
  unfold valid_cp, surrogate, utf8_enc. intros [Hc Hs].
  pose proof (Z.div_mod c 64 ltac:(lia)). pose proof (Z.mod_pos_bound c 64 ltac:(lia)).
  pose proof (Z.div_mod (c / 64) 64 ltac:(lia)).
  pose proof (Z.mod_pos_bound (c / 64) 64 ltac:(lia)).
  pose proof (Z.div_mod (c / 4096) 64 ltac:(lia)).
  pose proof (Z.mod_pos_bound (c / 4096) 64 ltac:(lia)).
  assert (c / 64 / 64 = c / 4096) as E1 by (rewrite Z.div_div by lia; done).
  assert (c / 4096 / 64 = c / 262144) as E2 by (rewrite Z.div_div by lia; done).
  rewrite E1 in *. rewrite E2 in *.
  set (q := c / 64) in *. set (p := c / 4096) in *. set (o := c / 262144) in *.
  set (r := c mod 64) in *. set (s := q mod 64) in *. set (t := p mod 64) in *.
  clearbody q p o r s t. clear E1 E2.
  destruct (c <? 0x80) eqn:Hb1; [|destruct (c <? 0x800) eqn:Hb2;
    [|destruct (c <? 0x10000) eqn:Hb3]];
    cbn [map app]; rewrite !b2z_z2b, !Z.mod_small by lia; cbn [utf8_items].
  - by rewrite step1 by lia.
  - rewrite step2 by lia. cbn [pred utf8_items]. repeat f_equal; lia.
  - rewrite step3 by lia. cbn [pred utf8_items]. repeat f_equal; lia.
  - rewrite step4 by lia. cbn [pred utf8_items]. repeat f_equal; lia.
Qed.

Lemma utf8_decode_encode s l : utf8_encode s = Ok l → utf8_decode l = Ok s.
Proof.
  unfold utf8_encode, utf8_decode. case_bool_decide as Hs; [|done].
  intros [= <-]. enough (mapM id (utf8_items 0 (map b2z (concat (map utf8_enc s)))) = Some s)
    as -> by done.
  induction Hs as [|c s Hc Hs IH]; [done|].
  cbn [map concat]. rewrite map_app, utf8_items_enc by done.
  cbn. by rewrite IH.
Qed.

Lemma split64 a r : 0 ≤ r < 64 → (a * 64 + r) / 64 = a ∧ (a * 64 + r) mod 64 = r.
Proof.
  intros. rewrite (Z.add_comm (a * 64)), Z.div_add, Z.mod_add by lia.
  rewrite Z.div_small, Z.mod_small by lia. lia.
Qed.

Lemma enc1 x : 0 ≤ x < 0x80 → map b2z (utf8_enc x) = [x].
Proof.
  intros. unfold utf8_enc. rewrite (proj2 (Z.ltb_lt _ _)) by lia. simpl.
  by rewrite b2z_z2b, Z.mod_small by lia.
Qed.
Lemma enc2 x y :
  0xC2 ≤ x < 0xE0 → 0x80 ≤ y < 0xC0 →
  map b2z (utf8_enc ((x - 0xC0) * 64 + (y - 0x80))) = [x; y].
Proof.
  intros. unfold utf8_enc. destruct (split64 (x - 0xC0) (y - 0x80)) as [E1 E2]; [lia|].
  rewrite E1, E2, (proj2 (Z.ltb_ge _ 0x80)), (proj2 (Z.ltb_lt _ 0x800)) by lia.
  simpl. rewrite !b2z_z2b, !Z.mod_small by lia. repeat f_equal; lia.
Qed.
Lemma enc3 x y z :
  0xE0 ≤ x < 0xF0 → 0x80 ≤ y < 0xC0 → 0x80 ≤ z < 0xC0 → (x = 0xE0 → 0xA0 ≤ y) →
  map b2z (utf8_enc ((x - 0xE0) * 4096 + (y - 0x80) * 64 + (z - 0x80))) = [x; y; z].
Proof.
  intros. unfold utf8_enc.
  replace ((x - 0xE0) * 4096 + (y - 0x80) * 64 + (z - 0x80))
    with (((x - 0xE0) * 64 + (y - 0x80)) * 64 + (z - 0x80)) by lia.
  set (c := (_ * 64 + (z - 0x80))) in *.
  destruct (split64 ((x - 0xE0) * 64 + (y - 0x80)) (z - 0x80)) as [E1 E2]; [lia|].
  destruct (split64 (x - 0xE0) (y - 0x80)) as [E3 E4]; [lia|].
  change 4096 with (64 * 64). rewrite <-(Z.div_div c) by lia.
  fold c in E1, E2. rewrite E1, E2, E3, E4. subst c.
  rewrite (proj2 (Z.ltb_ge _ 0x80)), (proj2 (Z.ltb_ge _ 0x800)),
    (proj2 (Z.ltb_lt _ 0x10000)) by lia.
  simpl. rewrite !b2z_z2b, !Z.mod_small by lia. repeat f_equal; lia.
Qed.
Lemma enc4 x y z w :
  0xF0 ≤ x < 0xF5 → 0x80 ≤ y < 0xC0 → 0x80 ≤ z < 0xC0 → 0x80 ≤ w < 0xC0 →
  (x = 0xF0 → 0x90 ≤ y) →
  map b2z (utf8_enc ((x - 0xF0) * 262144 + (y - 0x80) * 4096
                     + (z - 0x80) * 64 + (w - 0x80))) = [x; y; z; w].
Proof.
  intros. unfold utf8_enc.
  replace ((x - 0xF0) * 262144 + (y - 0x80) * 4096 + (z - 0x80) * 64 + (w - 0x80))
    with ((((x - 0xF0) * 64 + (y - 0x80)) * 64 + (z - 0x80)) * 64 + (w - 0x80)) by lia.
  set (c := (_ * 64 + (w - 0x80))) in *.
  destruct (split64 (((x - 0xF0) * 64 + (y - 0x80)) * 64 + (z - 0x80)) (w - 0x80))
    as [E1 E2]; [lia|].
  destruct (split64 ((x - 0xF0) * 64 + (y - 0x80)) (z - 0x80)) as [E3 E4]; [lia|].
  destruct (split64 (x - 0xF0) (y - 0x80)) as [E5 E6]; [lia|].
  change 262144 with (64 * 4096). rewrite <-(Z.div_div c 64 4096) by lia.
  change 4096 with (64 * 64). rewrite <-(Z.div_div c) by lia.
  rewrite <-(Z.div_div (c / 64) 64 64) by lia.
  fold c in E1, E2. rewrite E1, E2, E3, E4, E5, E6. subst c.
  rewrite (proj2 (Z.ltb_ge _ 0x80)), (proj2 (Z.ltb_ge _ 0x800)),
    (proj2 (Z.ltb_ge _ 0x10000)) by lia.
  simpl. rewrite !b2z_z2b, !Z.mod_small by lia. repeat f_equal; lia.
Qed.

(** A well-formed step consumed exactly the encoding of its code point. *)
Lemma utf8_step_enc x r c n :
  0 ≤ x < 256 → utf8_step x r = UCp c n →
  valid_cp c ∧ map b2z (utf8_enc c) = take n (x :: r) ∧ (1 ≤ n)%nat.
Proof.
  unfold utf8_step, ok_second3, ok_second4, is_cont. intros Hx Hstep.
  repeat (case_match; try done); injection Hstep as <- <-;
    (split; [unfold valid_cp, surrogate; lia|split; [|lia]]); cbn [take].
  - apply enc1. lia.
  - apply enc2; lia.
  - apply enc3; lia.
  - apply enc4; lia.
Qed.

Lemma utf8_items_skip n l : utf8_items n l = utf8_items 0 (drop n l).
Proof.
  revert n. induction l as [|x l IH]; intros [|n]; cbn [utf8_items drop]; auto.
Qed.

Lemma utf8_items_sound l s :
  Forall (λ y, 0 ≤ y < 256) l → mapM id (utf8_items 0 l) = Some s →
  Forall valid_cp s ∧ map b2z (concat (map utf8_enc s)) = l.
Proof.
  remember (length l) as n eqn:Hn. revert l s Hn.
  induction (lt_wf n) as [n _ IH]; intros l s Hn Hl Hs; subst n.
  destruct l as [|x l]; cbn [utf8_items] in Hs; [injection Hs as <-; by repeat constructor|].
  apply Forall_cons in Hl as Hxl. destruct Hxl as [Hx Hl'].
  destruct (utf8_step x l) as [c n|n] eqn:Hstep; [|done].
  destruct (utf8_step_enc _ _ _ _ Hx Hstep) as (Hc & Henc & Hn).
  cbn in Hs. apply bind_Some in Hs as (s' & Hs' & [= <-]).
  rewrite utf8_items_skip in Hs'.
  destruct (IH (length (drop (pred n) l))) with (l := drop (pred n) l) (s := s')
    as [Hv He]; [cbn; rewrite length_drop; lia|done|by apply Forall_drop|done|].
  split; [by constructor|].
  cbn [map concat]. rewrite map_app, Henc, He.
  destruct n as [|n]; [lia|]. cbn [pred take app]. f_equal. apply take_drop.
Qed.

Lemma utf8_encode_decode l s : utf8_decode l = Ok s → utf8_encode s = Ok l.
Proof.
  unfold utf8_decode. rewrite opt_or_Ok. intros Hs.
  apply utf8_items_sound in Hs as [Hv He];
    [|apply Forall_fmap, Forall_true; intros; apply b2z_range].
  unfold utf8_encode. rewrite bool_decide_eq_true_2 by done. f_equal.
  revert He. generalize (concat (map utf8_enc s)). clear.
  induction l as [|y l IH]; intros [|x k]; cbn; try done.
  intros [= H1 H2]. f_equal; [by apply b2z_inj|auto].
Qed.
End utf8_lemmas.

(** ** Numbers *)

Definition digit_char (d : Z) : Z := if d <? 10 then 48 + d else 87 + d.
Definition digit_val (c : Z) : option Z :=
  if (48 <=? c) && (c <=? 57) then Some (c - 48)
  else if (97 <=? c) && (c <=? 122) then Some (c - 87)
  else if (65 <=? c) && (c <=? 90) then Some (c - 55)
  else None.

(** Digits of [n] in [base], most significant first. *)
Fixpoint to_digits (fuel : nat) (base n : Z) (acc : list Z) : list Z :=
  match fuel with
  | O => digit_char (n mod base) :: acc
  | S f => if n <? base then digit_char n :: acc
           else to_digits f base (n / base) (digit_char (n mod base) :: acc)
  end.
Definition digits_of (base n : Z) : list Z := to_digits (Z.to_nat (Z.log2 n)) base n [].

(** [str(n)], ["%d" % n]; [hex(n)], ["0x%x" % n], [f"{n:#x}"]. *)
Definition dec (n : Z) : list Z :=
  if n <? 0 then u "-" ++ digits_of 10 (- n) else digits_of 10 n.
Definition hex (n : Z) : list Z :=
  if n <? 0 then u "-0x" ++ digits_of 16 (- n) else u "0x" ++ digits_of 16 n.

(** Digits with single underscores between them; [us]: the previous
    character does not allow an underscore. *)
Fixpoint parse_digits (base acc : Z) (us : bool) (l : list Z) : option Z :=
  match l with
  | [] => if us then None else Some acc
  | c :: l =>
      if c =? 95 then (if us then None else parse_digits base acc true l)
      else match digit_val c with
           | Some d => if d <? base then parse_digits base (acc * base + d) false l else None
           | None => None
           end
  end.

Definition is_space (c : Z) : bool :=
  ((9 <=? c) && (c <=? 13)) || ((28 <=? c) && (c <=? 32)) || (c =? 0x85) || (c =? 0xa0)
  || (c =? 0x1680) || ((0x2000 <=? c) && (c <=? 0x200a)) || (c =? 0x2028) || (c =? 0x2029)
  || (c =? 0x202f) || (c =? 0x205f) || (c =? 0x3000).

Fixpoint dropwhile {A} (f : A → bool) (l : list A) : list A :=
  match l with [] => [] | x :: l' => if f x then dropwhile f l' else l end.
Definition lstrip (s : list Z) : list Z := dropwhile is_space s.
Definition rstrip (s : list Z) : list Z := reverse (dropwhile is_space (reverse s)).
Definition strip (s : list Z) : list Z := rstrip (lstrip s).

(** [int(s, 0)] on ASCII digits: sign, base prefix, underscores; a decimal
    literal has no leading zero unless it is zero. *)
Definition int0_abs (s : list Z) : option Z :=
  match s with
  | 48 :: c :: rest =>
      let base := if (c =? 120) || (c =? 88) then 16
                  else if (c =? 111) || (c =? 79) then 8
                  else if (c =? 98) || (c =? 66) then 2 else 0 in
      if base =? 0 then
        match parse_digits 10 0 true s with Some 0 => Some 0 | _ => None end
      else match rest with [] => None | _ => parse_digits base 0 false rest end
  | _ => parse_digits 10 0 true s
  end.
Definition int0_opt (s : list Z) : option Z :=
  match strip s with
  | 45 :: r => Z.opp <$> int0_abs r
  | 43 :: r => int0_abs r
  | r => int0_abs r
  end.
Definition int0 (s : list Z) : res Z :=
  opt_or (int0_opt s) (ValueError "invalid literal for int() with base 0").

(** [int(s)] and [int(s, 16)] on the digit strings a regular expression
    already matched (no sign, space, prefix or underscore). *)
Definition int_dec (s : list Z) : option Z := parse_digits 10 0 true s.
Definition int_hex (s : list Z) : option Z := parse_digits 16 0 true s.

Fixpoint takewhile {A} (f : A → bool) (l : list A) : list A :=
  match l with [] => [] | x :: l => if f x then x :: takewhile f l else [] end.

(** [int(s)]: surrounding space, a sign, digits with single underscores. *)
Definition int10_opt (s : list Z) : option Z :=
  match strip s with
  | 45 :: r => option_map Z.opp (parse_digits 10 0 true r)
  | 43 :: r => parse_digits 10 0 true r
  | r => parse_digits 10 0 true r
  end.
Definition int10 (s : list Z) : res Z :=
  opt_or (int10_opt s) (ValueError "invalid literal for int() with base 10").

(** ** Text predicates *)
Definition is_digit (c : Z) : bool := (48 <=? c) && (c <=? 57).
Definition is_hexdigit (c : Z) : bool :=
  is_digit c || ((97 <=? c) && (c <=? 102)) || ((65 <=? c) && (c <=? 70)).
Definition is_upper (c : Z) : bool := (65 <=? c) && (c <=? 90).
Definition is_lower (c : Z) : bool := (97 <=? c) && (c <=? 122).
(** [\w] on ASCII text. *)
Definition is_word (c : Z) : bool := is_digit c || is_upper c || is_lower c || (c =? 95).
(** [c.isprintable()] for an ASCII [c]. *)
Definition ascii_printable (c : Z) : bool := (32 <=? c) && (c <? 127).
(** [s.lower()] and [s.upper()] on ASCII text. *)
Definition lower (s : list Z) : list Z := map (λ c, if is_upper c then c + 32 else c) s.
Definition upper (s : list Z) : list Z := map (λ c, if is_lower c then c - 32 else c) s.

(** [v.hex()] and [bytes.fromhex] on whole digit pairs. *)
Definition hex_of_bytes (l : list byte) : list Z :=
  concat (map (λ x, [digit_char (b2z x / 16); digit_char (b2z x mod 16)]) l).
Fixpoint fromhex_opt (s : list Z) : option (list byte) :=
  match s with
  | [] => Some []
  | c :: s' =>
      if is_space c && (c <? 128) then fromhex_opt s'
      else match s' with
           | d :: r =>
               if is_hexdigit c && is_hexdigit d then
                 h ← digit_val c; l ← digit_val d;
                 rest ← fromhex_opt r; Some (z2b (16 * h + l) :: rest)
               else None
           | [] => None
           end
  end.
Definition fromhex (s : list Z) : res (list byte) :=
  opt_or (fromhex_opt s) (ValueError "non-hexadecimal number found in fromhex() arg").

Section number_lemmas.
Lemma digit_val_char d : 0 ≤ d < 36 → digit_val (digit_char d) = Some d.
Proof.
  intros. unfold digit_val, digit_char. destruct (d <? 10) eqn:E; decide_cmp; simpl; f_equal; lia.
Qed.
Lemma digit_char_us d : 0 ≤ d < 36 → (digit_char d =? 95) = false.
Proof. intros. unfold digit_char. destruct (d <? 10) eqn:E; lia. Qed.

Lemma parse_digits_char base acc us d l :
  0 ≤ d < base → base ≤ 36 →
  parse_digits base acc us (digit_char d :: l) = parse_digits base (acc * base + d) false l.
Proof.
  intros. cbn [parse_digits]. rewrite digit_char_us, digit_val_char by lia.
  by rewrite (proj2 (Z.ltb_lt _ _)) by lia.
Qed.

Lemma parse_to_digits base fuel n us acc :
  2 ≤ base ≤ 36 → 0 ≤ n < 2 ^ (Z.of_nat fuel + 1) →
  parse_digits base 0 us (to_digits fuel base n acc) = parse_digits base n false acc.
Proof.
  intros Hb. revert n us acc. induction fuel as [|f IH]; intros n us acc Hn; cbn [to_digits].
  - rewrite (Z.mod_small n) by (change (2 ^ _) with 2 in Hn; lia).
    rewrite parse_digits_char by (change (2 ^ _) with 2 in Hn; lia). f_equal.
  - destruct (n <? base) eqn:E.
    + rewrite parse_digits_char by lia. f_equal.
    + pose proof (Z.div_mod n base). pose proof (Z.mod_pos_bound n base).
      rewrite IH.
      * rewrite parse_digits_char by lia. f_equal. lia.
      * replace (Z.of_nat (S f) + 1) with (1 + (Z.of_nat f + 1)) in Hn by lia.
        rewrite Z.pow_add_r in Hn by lia. change (2 ^ 1) with 2 in Hn.
        split; [apply Z.div_pos; lia|].
        apply Z.div_lt_upper_bound; [lia|]. nia.
Qed.

Lemma parse_digits_of base n us :
  2 ≤ base ≤ 36 → 0 ≤ n → parse_digits base 0 us (digits_of base n) = Some n.
Proof.
  intros. unfold digits_of. rewrite parse_to_digits; [done|done|].
  rewrite Z2Nat.id by apply Z.log2_nonneg. split; [done|].
  destruct (Z.eq_dec n 0) as [->|]; [done|].
  pose proof (Z.log2_spec n). unfold Z.succ in *. lia.
Qed.

Lemma to_digits_head base fuel n acc :
  2 ≤ base ≤ 36 → 0 ≤ n →
  ∃ d l, to_digits fuel base n acc = digit_char d :: l ∧ 0 ≤ d < base ∧
         (0 < n → n < 2 ^ (Z.of_nat fuel + 1) → 0 < d).
Proof.
  intros Hb. revert n acc. induction fuel as [|f IH]; intros n acc Hn; cbn [to_digits].
  - exists (n mod base), acc. pose proof (Z.mod_pos_bound n base).
    split; [done|]. split; [lia|]. change (2 ^ _) with 2. intros. rewrite Z.mod_small; lia.
  - destruct (n <? base) eqn:E.
    + exists n, acc. split; [done|]. lia.
    + destruct (IH (n / base) (digit_char (n mod base) :: acc)) as (d & l & Hd & ? & Hpos).
      { apply Z.div_pos; lia. }
      exists d, l. split; [done|]. split; [done|]. intros _ Hlt. apply Hpos.
      * apply Z.div_str_pos. lia.
      * replace (Z.of_nat (S f) + 1) with (1 + (Z.of_nat f + 1)) in Hlt by lia.
        rewrite Z.pow_add_r in Hlt by lia. change (2 ^ 1) with 2 in Hlt.
        apply Z.div_lt_upper_bound; [lia|]. nia.
Qed.

Lemma digits_of_head base n :
  2 ≤ base ≤ 36 → 0 ≤ n →
  ∃ d l, digits_of base n = digit_char d :: l ∧ 0 ≤ d < base ∧ (0 < n → 0 < d).
Proof.
  intros. destruct (to_digits_head base (Z.to_nat (Z.log2 n)) n [])
    as (d & l & ? & ? & Hpos); [done..|].
  exists d, l. split; [done|]. split; [done|]. intros. apply Hpos; [done|].
  rewrite Z2Nat.id by apply Z.log2_nonneg.
  pose proof (Z.log2_spec n). unfold Z.succ in *. lia.
Qed.

Lemma digits_of_0 base : 2 ≤ base → digits_of base 0 = [48].
Proof.
  intros. unfold digits_of. change (Z.to_nat (Z.log2 0)) with 0%nat.
  unfold to_digits. by rewrite Z.mod_0_l by lia.
Qed.

Lemma to_digits_Forall (P : Z → Prop) base fuel n acc :
  2 ≤ base → 0 ≤ n → (∀ d, 0 ≤ d < base → P (digit_char d)) → Forall P acc →
  Forall P (to_digits fuel base n acc).
Proof.
  intros Hb Hn HP. revert n acc Hn.
  induction fuel as [|f IH]; intros n acc Hn Hacc; cbn [to_digits];
    pose proof (Z.mod_pos_bound n base ltac:(lia)).
  - constructor; auto.
  - destruct (n <? base) eqn:E; [constructor; [apply HP; lia|done]|].
    apply IH; [apply Z.div_pos; lia|]. constructor; auto.
Qed.

Lemma digits_of_Forall (P : Z → Prop) base n :
  2 ≤ base → 0 ≤ n → (∀ d, 0 ≤ d < base → P (digit_char d)) → Forall P (digits_of base n).
Proof. intros. by apply to_digits_Forall. Qed.

Lemma digit_char_space d : 0 ≤ d < 36 → is_space (digit_char d) = false.
Proof. intros. unfold is_space, digit_char. destruct (d <? 10) eqn:E; lia. Qed.

Lemma dropwhile_id {A} (f : A → bool) l : Forall (λ x, f x = false) l → dropwhile f l = l.
Proof. destruct 1 as [|x l Hx]; simpl; [done|by rewrite Hx]. Qed.
Lemma strip_id s : Forall (λ c, is_space c = false) s → strip s = s.
Proof.
  intros. unfold strip, rstrip, lstrip. rewrite (dropwhile_id is_space s) by done.
  rewrite dropwhile_id by by apply Forall_reverse. apply reverse_involutive.
Qed.

Lemma digits_no_space base n :
  2 ≤ base ≤ 36 → 0 ≤ n → Forall (λ c, is_space c = false) (digits_of base n).
Proof. intros. apply digits_of_Forall; [lia|done|]. intros. apply digit_char_space. lia. Qed.

(** [int(str(n), 0) = n] and [int(hex(n), 0) = n]. *)
Lemma int0_dec n : 0 ≤ n → int0 (dec n) = Ok n.
Proof.
  intros Hn. unfold int0, int0_opt, dec. rewrite (proj2 (Z.ltb_ge _ _)) by lia.
  rewrite strip_id by by apply digits_no_space.
  pose proof (parse_digits_of 10 n true ltac:(lia) Hn) as Hp.
  destruct (digits_of_head 10 n) as (d & l & Hd & Hr & Hpos); [lia|done|].
  destruct (Z.eq_dec n 0) as [->|].
  { by rewrite digits_of_0 by lia. }
  rewrite Hd in *. unfold digit_char in *. rewrite (proj2 (Z.ltb_lt _ _)) in * by lia.
  assert (0 < d) by lia.
  assert (d = 1 ∨ d = 2 ∨ d = 3 ∨ d = 4 ∨ d = 5 ∨ d = 6 ∨ d = 7 ∨ d = 8 ∨ d = 9)
    as Hcases by lia.
  destruct_or! Hcases; subst d;
    match goal with |- context [48 + ?k] =>
      let v := eval vm_compute in (48 + k) in change (48 + k) with v in * end;
    cbn -[parse_digits] in *; by rewrite Hp.
Qed.

Lemma int0_hex n : 0 ≤ n → int0 (hex n) = Ok n.
Proof.
  intros Hn. unfold int0, int0_opt, hex. rewrite (proj2 (Z.ltb_ge _ _)) by lia.
  rewrite strip_id.
  2:{ apply Forall_app. split; [repeat constructor|]. by apply digits_no_space. }
  pose proof (parse_digits_of 16 n false ltac:(lia) Hn) as Hp.
  destruct (digits_of_head 16 n) as (d & l & Hd & _); [lia|done|].
  rewrite Hd in *. change (u "0x" ++ digit_char d :: l) with (48 :: 120 :: digit_char d :: l).
  unfold int0_abs. cbn -[parse_digits digit_char]. by rewrite Hp.
Qed.
End number_lemmas.
