(* ===== verification/PyDict.v ===== *)
(** * Python [dict]

    A [dict] keeps its keys in insertion order, so the model is an association
    list with the assignment rule of Python: an existing key is updated in
    place, a new key goes to the end.  [dict_wf] says that no key occurs
    twice; every operation keeps it. *)

From stdpp Require Import base tactics list list_numbers strings sets.
From S2P Require Import Prelude.
Open Scope Z_scope.

Section dict.
Context {K V : Type} `{EqDecision K}.
Implicit Types (d : list (K * V)) (k : K) (v : V).

(** [d.get(k)] *)
Fixpoint dget k d : option V :=
  match d with
  | [] => None
  | (k', v) :: d => if decide (k = k') then Some v else dget k d
  end.

(** [k in d] *)
Definition dmem k d : bool := match dget k d with Some _ => true | None => false end.

(** [d[k] = v] *)
Fixpoint dset k v d : list (K * V) :=
  match d with
  | [] => [(k, v)]
  | (k', v') :: d => if decide (k = k') then (k', v) :: d else (k', v') :: dset k v d
  end.

(** [d.pop(k, None)] *)
Fixpoint dpop k d : list (K * V) :=
  match d with
  | [] => []
  | (k', v') :: d => if decide (k = k') then d else (k', v') :: dpop k d
  end.

Definition dkeys d : list K := map fst d.
Definition dict_wf d : Prop := NoDup (dkeys d).

Lemma dget_dset k k' v d :
  dget k (dset k' v d) = if decide (k = k') then Some v else dget k d.
Proof.
  induction d as [|[k0 v0] d IH]; simpl.
  - done.
  - destruct (decide (k' = k0)) as [->|]; simpl.
    + by destruct (decide (k = k0)).
    + rewrite IH. destruct (decide (k = k0)) as [->|]; [by rewrite decide_False by done|done].
Qed.
Lemma dget_dset_eq k v d : dget k (dset k v d) = Some v.
Proof. by rewrite dget_dset, decide_True. Qed.
Lemma dget_dset_ne k k' v d : k ≠ k' → dget k (dset k' v d) = dget k d.
Proof. intros. by rewrite dget_dset, decide_False. Qed.

Lemma dget_dpop_ne k k' d : k ≠ k' → dget k (dpop k' d) = dget k d.
Proof.
  intros Hk. induction d as [|[k0 v0] d IH]; simpl; [done|].
  destruct (decide (k' = k0)) as [->|]; simpl; [by rewrite decide_False|].
  by destruct (decide (k = k0)).
Qed.

Lemma dget_None k d : dget k d = None ↔ k ∉ dkeys d.
Proof.
  induction d as [|[k0 v0] d IH]; simpl; [set_solver|].
  destruct (decide (k = k0)) as [->|]; [set_solver|]. rewrite IH. set_solver.
Qed.

Lemma dget_dpop_eq k d : dict_wf d → dget k (dpop k d) = None.
Proof.
  unfold dict_wf. induction d as [|[k0 v0] d IH]; simpl; [done|].
  intros [Hk Hd]%NoDup_cons. destruct (decide (k = k0)) as [->|Hne]; simpl.
  - by apply dget_None.
  - rewrite decide_False by done. auto.
Qed.

Lemma dmem_spec k d : dmem k d = true ↔ k ∈ dkeys d.
Proof.
  unfold dmem. destruct (dget k d) eqn:E.
  - split; [intros _|done]. destruct (decide (k ∈ dkeys d)); [done|].
    by apply dget_None in n; rewrite n in E.
  - apply dget_None in E. split; [done|by intros].
Qed.

Lemma dget_In k v d : dget k d = Some v → (k, v) ∈ d.
Proof.
  induction d as [|[k0 v0] d IH]; simpl; [done|].
  destruct (decide (k = k0)) as [->|]; [intros [= ->]; left|].
  intros. right. auto.
Qed.

Lemma dget_wf k v d : dict_wf d → (k, v) ∈ d → dget k d = Some v.
Proof.
  unfold dict_wf. induction d as [|[k0 v0] d IH]; simpl; [set_solver|].
  intros [Hk Hd]%NoDup_cons [[= -> ->]|Hin]%elem_of_cons.
  - by rewrite decide_True.
  - rewrite decide_False; [auto|]. intros ->. apply Hk.
    unfold dkeys. apply list_elem_of_fmap. by exists (k0, v).
Qed.

Lemma dkeys_dset_mem k v d : k ∈ dkeys d → dkeys (dset k v d) = dkeys d.
Proof.
  induction d as [|[k0 v0] d IH]; simpl; [set_solver|].
  destruct (decide (k = k0)) as [->|]; simpl; [done|].
  intros. f_equal. apply IH. set_solver.
Qed.
Lemma dkeys_dset_new k v d : k ∉ dkeys d → dkeys (dset k v d) = dkeys d ++ [k].
Proof.
  induction d as [|[k0 v0] d IH]; simpl; [done|].
  intros. rewrite decide_False by set_solver. simpl. f_equal. apply IH. set_solver.
Qed.

Lemma dict_wf_dset k v d : dict_wf d → dict_wf (dset k v d).
Proof.
  unfold dict_wf. intros Hd. destruct (decide (k ∈ dkeys d)).
  - by rewrite dkeys_dset_mem.
  - rewrite dkeys_dset_new by done. apply NoDup_app. split; [done|].
    split; [set_solver|apply NoDup_singleton].
Qed.

Lemma dkeys_dpop_sub k k' d : k' ∈ dkeys (dpop k d) → k' ∈ dkeys d.
Proof.
  induction d as [|[k0 v0] d IH]; simpl; [done|].
  destruct (decide (k = k0)); simpl; set_solver.
Qed.
Lemma dict_wf_dpop k d : dict_wf d → dict_wf (dpop k d).
Proof.
  unfold dict_wf. induction d as [|[k0 v0] d IH]; simpl; [done|].
  intros [Hk Hd]%NoDup_cons. destruct (decide (k = k0)); simpl; [done|].
  apply NoDup_cons. split; [|auto]. intros ?%dkeys_dpop_sub. done.
Qed.

Lemma dset_new_app k v d : k ∉ dkeys d → dset k v d = d ++ [(k, v)].
Proof.
  induction d as [|[k0 v0] d IH]; simpl; [done|].
  intros. rewrite decide_False by set_solver. f_equal. apply IH. set_solver.
Qed.
Lemma dset_id k v d : dget k d = Some v → dset k v d = d.
Proof.
  induction d as [|[k0 v0] d IH]; simpl; [done|].
  destruct (decide (k = k0)) as [->|]; [by intros [= ->]|].
  intros. f_equal. auto.
Qed.
End dict.

Create HintDb pydict.
#[export] Hint Resolve dict_wf_dset dict_wf_dpop : pydict.
