(* ===== verification/AdtCodec.v ===== *)
(** * The Apple device tree codec of [dt_fixup.py]

    [decode_node] reads the flattened tree an IPSW ships, [encode_node]
    writes the tree the loader is given.  Property values are decoded into
    Python values ([str] for text and for the [u32:]/[u64:]/[<NULL>] forms,
    [bytes] for the rest), so the codec is not an identity: the theorems say
    exactly what one pass preserves. *)

From stdpp Require Import base tactics list list_numbers strings sets.
From Stdlib Require Import Strings.Byte.
From S2P Require Import Prelude PyBytes PyStr PyDict.
Open Scope Z_scope.

(** ** Data *)

(** The value of a property.  The tools only ever store [str] and [bytes];
    the other constructors are the types [parse_prop_entry] rejects. *)
Inductive pval :=
  | VStr (s : list Z)
  | VBytes (l : list byte)
  | VInt (n : Z)
  | VDict
  | VOther.

#[export] Instance pval_eq_dec : EqDecision pval.
Proof. solve_decision. Defined.

Abbreviation props_t := (list (list Z * pval)) (only parsing).

Inductive ADTNode := mkNode (props : props_t) (children : list ADTNode).
Definition props (d : ADTNode) : props_t := match d with mkNode p _ => p end.
Definition children (d : ADTNode) : list ADTNode := match d with mkNode _ c => c end.
Definition empty_node : ADTNode := mkNode [] [].

(** ** Decoding *)

Definition round_up_to_multiple_of_4 (i : Z) : Z := roundup4 i.

(** [s.decode("utf8").split('\x00')[0]]: the whole buffer must be UTF-8, not
    only the part before the NUL. *)
Definition decode_null_terminated_string (s : list byte) : res (list Z) :=
  t ← utf8_decode s; Ok (before 0 t).

Definition is_probably_a_string (s : list byte) : bool :=
  if zlen s =? 0 then false
  else
    let x := split1 x00 s in
    if negb (forallb (λ e, bool_decide (e = [])) (tail x)) then false
    else match ascii_decode s with
         | Raise _ => false
         | Ok t =>
             let d := before 0 t in
             if zlen d <? 3 then false else forallb ascii_printable d
         end.

Definition decode_prop (name : list Z) (prop : list byte) : res pval :=
  if bool_decide (name = u "name") || is_probably_a_string prop then
    s ← decode_null_terminated_string prop; Ok (VStr s)
  else if zlen prop =? 0 then Ok (VStr (u "<NULL>"))
  else if zlen prop =? 4 then
    n ← unpack_I prop; Ok (VStr (u "u32:" ++ hex n))
  else if zlen prop =? 8 then
    n ← unpack_Q prop; Ok (VStr (u "u64:" ++ hex n))
  else Ok (VBytes prop).

(** The property loop.  [size] is [our_size]; the buffer left is returned.  A
    value shorter than its declared length is taken as it is. *)
Fixpoint decode_props (fuel : nat) (n_props : Z) (dt : list byte) (ps : props_t) (size : Z)
  : res (props_t * list byte * Z) :=
  if n_props <=? 0 then Ok (ps, dt, size)
  else match fuel with
       | O => Raise OutOfFuel
       | S fuel =>
           prop_name ← decode_null_terminated_string (slice 0 32 dt);
           raw_len ← unpack_I (slice 32 36 dt);
           let prop_len := round_up_to_multiple_of_4 (Z.land raw_len (Z.lnot 0x80000000)) in
           let prop := slice 36 (36 + prop_len) dt in
           v ← decode_prop prop_name prop;
           decode_props fuel (n_props - 1) (zdrop (36 + prop_len) dt)
             (dset prop_name v ps) (size + (36 + prop_len))
       end.

(** The child loop, for a decoder [dec] of one node. *)
Fixpoint decode_children (dec : list byte → res (ADTNode * Z)) (fuel : nat)
    (n_children : Z) (dt : list byte) (cs : list ADTNode) (size : Z)
  : res (list ADTNode * Z) :=
  if n_children <=? 0 then Ok (cs, size)
  else match fuel with
       | O => Raise OutOfFuel
       | S fuel =>
           '(c, child_sz) ← dec dt;
           decode_children dec fuel (n_children - 1) (zdrop child_sz dt)
             (cs ++ [c]) (size + child_sz)
       end.

Fixpoint decode_node_fuel (fuel : nat) (dt : list byte) : res (ADTNode * Z) :=
  match fuel with
  | O => Raise OutOfFuel
  | S fuel =>
      raise_if zlen dt <? 8 with ValueError "dtree is too small" ;;
      '(n_props, n_children) ← unpack_II (slice 0 8 dt);
      let dt := zdrop 8 dt in
      '(ps, dt, size) ← decode_props (S (length dt)) n_props dt [] 8;
      '(cs, size) ← decode_children (decode_node_fuel fuel) (S (length dt))
                      n_children dt [] size;
      Ok (mkNode ps cs, size)
  end.

(** Every nested call has at least eight bytes less, so the buffer's length
    bounds the nesting depth. *)
Definition decode_node (dt : list byte) : res (ADTNode * Z) :=
  decode_node_fuel (S (length dt)) dt.

(** ** Encoding *)

Definition last_byte (l : list byte) : res byte := opt_or (last l) IndexError.

Definition parse_prop_entry (v : pval) : res (Z * list byte) :=
  match v with
  | VBytes l => Ok (zlen l, ljust (round_up_to_multiple_of_4 (zlen l)) x00 l)
  | VInt _ => Raise (TypeError "int type not specified")
  | VDict => Raise (TypeError "dicts aren't allowed as properties")
  | VOther => Raise (ValueError "not a str")
  | VStr s =>
      if startswith (u "u32:") s then
        n ← int0 (zdrop 4 s); p ← pack_I n; Ok (4, p)
      else if startswith (u "u64:") s then
        n ← int0 (zdrop 4 s); p ← pack_Q n; Ok (8, p)
      else if bool_decide (s = u "<NULL>") then Ok (0, [])
      else
        let strlen := zlen s + 1 in
        let prop_len := round_up_to_multiple_of_4 strlen in
        enc ← utf8_encode s;
        let rv2 := ljust prop_len x00 enc in
        z ← last_byte rv2;
        raise_if negb (bool_decide (z = x00)) with ValueError "Property isn't NULL terminated" ;;
        Ok (strlen, rv2)
  end.

Definition encode_prop_step (outv : list byte) (kv : list Z * pval) : res (list byte) :=
  let '(k, v) := kv in
  raise_if 32 <=? zlen k with ValueError "property name is too long" ;;
  enc ← utf8_encode k;
  let prop_name := ljust 32 x00 enc in
  z ← last_byte prop_name;
  raise_if negb (bool_decide (z = x00)) with ValueError "Property name isn't NULL terminated" ;;
  '(prop_len, prop_val) ← parse_prop_entry v;
  raise_if negb (zlen prop_val mod 4 =? 0)
    with ValueError "Property's value isn't a multiple of 4 bytes long" ;;
  pl ← pack_I prop_len;
  let outv := outv ++ prop_name ++ pl ++ prop_val in
  raise_if negb (zlen outv mod 4 =? 0) with ValueError "Binary stream misaligned at property" ;;
  Ok outv.

Fixpoint encode_node (d : ADTNode) : res (list byte) :=
  match d with
  | mkNode ps cs =>
      h ← pack_II (zlen ps) (zlen cs);
      outv ← res_foldl encode_prop_step h ps;
      res_foldl (λ outv c, e ← encode_node c; Ok (outv ++ e)) outv cs
  end.

Fixpoint ADTNode_nested_ind (P : ADTNode → Prop)
    (H : ∀ ps cs, Forall P cs → P (mkNode ps cs)) (d : ADTNode) : P d :=
  match d with
  | mkNode ps cs =>
      H ps cs ((fix go cs : Forall P cs :=
                  match cs with
                  | [] => Forall_nil_2 P
                  | c :: cs => Forall_cons_2 P c cs (ADTNode_nested_ind P H c) (go cs)
                  end) cs)
  end.

(** A small tree, used by the witnesses. *)
Definition sample_tree : ADTNode :=
  mkNode [(u "name", VStr "device-tree"); (u "compatible", VStr "iphone,d47");
          (u "dram-base", VStr "u64:0x10000000000"); (u "no-rtc", VStr "<NULL>");
          (u "reg", VBytes (replicate 12 xff))]
         [mkNode [(u "name", VStr "cpus"); (u "id", VStr "u32:0x0")] [];
          mkNode [(u "name", VStr "arm-io")]
                 [mkNode [(u "name", VStr "uart0")] []]].

(** ** What one pass preserves

    A property is [stable] when its written form reads back as the same
    value: the name leaves room for its NUL, and the value's text is in the
    form [decode_prop] would choose. *)

Definition stable_value (k : list Z) (v : pval) : bool :=
  match parse_prop_entry v with
  | Ok (n, p) => (0 <=? n) && (n <? 2 ^ 31) && (zlen p =? roundup4 n)
                 && bool_decide (decode_prop k p = Ok v)
  | Raise _ => false
  end.
Definition stable_name (k : list Z) : bool :=
  match utf8_encode k with
  | Ok e => (zlen e <? 32) && bool_decide (0 ∉ k)
  | Raise _ => false
  end.
Fixpoint stable_tree (d : ADTNode) : bool :=
  match d with
  | mkNode ps cs =>
      forallb (λ kv, stable_name kv.1 && stable_value kv.1 kv.2) ps
      && bool_decide (NoDup (dkeys ps))
      && (zlen ps <? 2 ^ 32) && (zlen cs <? 2 ^ 32)
      && forallb stable_tree cs
  end.

(** ** Generic facts about the codec's pieces *)

Lemma utf8_enc_length c : (1 ≤ length (utf8_enc c))%nat.
Proof. unfold utf8_enc. repeat case_match; simpl; lia. Qed.

Lemma utf8_encode_length s e : utf8_encode s = Ok e → zlen s ≤ zlen e.
Proof.
  unfold utf8_encode. case_bool_decide; [|done]. intros [= <-]. unfold zlen.
  induction s as [|c s IH]; simpl; [done|]. rewrite length_app.
  pose proof (utf8_enc_length c). apply Forall_cons in H as [_ H]. specialize (IH H). lia.
Qed.

Lemma utf8_encode_ascii s :
  Forall (λ c, 0 ≤ c < 128) s → utf8_encode s = Ok (map z2b s).
Proof.
  intros Hs. unfold utf8_encode. rewrite bool_decide_eq_true_2.
  2:{ eapply Forall_impl; [done|]. intros c Hc. simpl in Hc. unfold valid_cp, surrogate. lia. }
  f_equal. induction Hs as [|c s Hc Hs IH]; simpl; [done|].
  unfold utf8_enc at 1. rewrite (proj2 (Z.ltb_lt c 0x80)) by lia. simpl. by rewrite IH.
Qed.

Lemma utf8_encode_app s t :
  utf8_encode (s ++ t) = (a ← utf8_encode s; c ← utf8_encode t; Ok (a ++ c)).
Proof.
  unfold utf8_encode.
  destruct (decide (Forall valid_cp s)) as [Hs|Hs];
    destruct (decide (Forall valid_cp t)) as [Ht|Ht].
  - rewrite !bool_decide_eq_true_2 by (rewrite ?Forall_app; done). simpl.
    by rewrite map_app, concat_app.
  - rewrite (bool_decide_eq_false_2 (Forall valid_cp t)) by done.
    rewrite (bool_decide_eq_true_2 (Forall valid_cp s)) by done. simpl.
    rewrite bool_decide_eq_false_2 by (rewrite Forall_app; naive_solver). done.
  - rewrite (bool_decide_eq_false_2 (Forall valid_cp s)) by done. simpl.
    rewrite bool_decide_eq_false_2 by (rewrite Forall_app; naive_solver). done.
  - rewrite (bool_decide_eq_false_2 (Forall valid_cp s)) by done. simpl.
    rewrite bool_decide_eq_false_2 by (rewrite Forall_app; naive_solver). done.
Qed.

Lemma map_z2b_replicate n : map z2b (replicate n 0) = replicate n x00.
Proof. induction n; simpl; [done|by f_equal]. Qed.

Lemma map_b2z_replicate n : map b2z (replicate n x00) = replicate n 0.
Proof. induction n as [|n IH]; simpl; [done|]. by rewrite IH. Qed.

Lemma before_replicate s n : 0 ∉ s → before 0 (s ++ replicate n 0) = s.
Proof.
  intros. destruct n; simpl; [rewrite app_nil_r; by apply before_id|by apply before_app].
Qed.

(** Text followed by NUL padding reads back as the text. *)
Lemma decode_padded s e n :
  utf8_encode s = Ok e → 0 ∉ s →
  decode_null_terminated_string (e ++ replicate n x00) = Ok s.
Proof.
  intros He H0. unfold decode_null_terminated_string.
  assert (utf8_encode (s ++ replicate n 0) = Ok (e ++ replicate n x00)) as Hall.
  { rewrite utf8_encode_app, He. simpl.
    rewrite utf8_encode_ascii, map_z2b_replicate; [done|].
    apply Forall_replicate. lia. }
  rewrite (utf8_decode_encode _ _ Hall). simpl. by rewrite before_replicate.
Qed.

Lemma last_ljust {A} n (x : A) l : zlen l < n → last (ljust n x l) = Some x.
Proof.
  intros H. unfold ljust. replace (Z.to_nat (n - zlen l)) with (S (Z.to_nat (n - zlen l - 1))) by lia.
  rewrite replicate_S_end, app_assoc. apply last_snoc.
Qed.

Lemma decode_props_app fuel n l ps sz :
  0 ≤ n → (Z.to_nat n ≤ fuel)%nat →
  decode_props fuel n l ps sz = decode_props (Z.to_nat n) n l ps sz.
Proof.
  revert n l ps sz. induction fuel as [|f IH]; intros n l ps sz Hn Hf.
  - by replace (Z.to_nat n) with 0%nat by lia.
  - destruct (Z.to_nat n) as [|m] eqn:E; cbn [decode_props].
    + by rewrite (proj2 (Z.leb_le n 0)) by lia.
    + rewrite (proj2 (Z.leb_gt n 0)) by lia.
      repeat (apply bind_ext; intros). rewrite IH by lia.
      by replace (Z.to_nat (n - 1)) with m by lia.
Qed.

(** ** Reading back what was written *)

(** [e] is the image of the property [(k, v)]: the property loop reads it off
    the front of any buffer. *)
Definition prop_reads (k : list Z) (v : pval) (e : list byte) : Prop :=
  36 ≤ zlen e ∧ zlen e mod 4 = 0 ∧
  ∀ fuel n rest ps size, 0 < n →
    decode_props (S fuel) n (e ++ rest) ps size
    = decode_props fuel (n - 1) rest (dset k v ps) (size + zlen e).

Lemma prop_image_reads k v ke n p :
  utf8_encode k = Ok ke → zlen ke < 32 → 0 ∉ k →
  0 ≤ n < 2 ^ 31 → zlen p = roundup4 n → decode_prop k p = Ok v →
  prop_reads k v (ljust 32 x00 ke ++ le_bytes 4 n ++ p).
Proof.
  intros Hke Hlen H0 Hn Hp Hv. pose proof (zlen_nonneg ke).
  pose proof (roundup4_spec n) as [Hr Hm].
  assert (zlen (ljust 32 x00 ke) = 32) as H32 by (rewrite zlen_ljust; lia).
  set (nm := ljust 32 x00 ke) in *. set (w := le_bytes 4 n).
  assert (zlen w = 4) as Hw by done.
  assert (zlen (nm ++ w ++ p) = 36 + roundup4 n) as Hall
    by (autorewrite with pylists; lia).
  split; [lia|]. split; [rewrite Hall, Zplus_mod, Hm; done|].
  assert (decode_null_terminated_string nm = Ok k) as Hnm by exact (decode_padded k ke _ Hke H0).
  assert (unpack_I w = Ok n) as Hn'.
  { apply (unpack_pack_u 4). apply pack_u_Ok.
    split; [change (2 ^ _) with (2 ^ 32); lia|done]. }
  clearbody nm w.
  intros fuel m rest ps size Hm0. cbn [decode_props].
  rewrite (proj2 (Z.leb_gt m 0)) by done. rewrite <-!(assoc_L app).
  replace (slice 0 32 (nm ++ w ++ p ++ rest)) with nm.
  2:{ unfold slice. rewrite zdrop_le_0 by lia. symmetry. by apply ztake_app_exact. }
  replace (slice 32 36 (nm ++ w ++ p ++ rest)) with w.
  2:{ symmetry. apply slice_app_mid; lia. }
  rewrite Hnm, ok_bind, Hn', ok_bind.
  replace (Z.land n (Z.lnot 0x80000000)) with n.
  2:{ rewrite <-Z.ldiff_land. symmetry. apply Z.bits_inj'. intros i Hi.
      rewrite Z.ldiff_spec. change 0x80000000 with (2 ^ 31).
      rewrite Z.pow2_bits_eqb by lia. destruct (31 =? i) eqn:E; [|by rewrite andb_true_r].
      replace i with 31 by lia. rewrite andb_false_r. symmetry.
      destruct (Z.eq_dec n 0) as [->|]; [done|].
      apply Z.bits_above_log2; [lia|]. apply Z.log2_lt_pow2; lia. }
  unfold round_up_to_multiple_of_4.
  replace (slice 36 (36 + roundup4 n) (nm ++ w ++ p ++ rest)) with p.
  2:{ symmetry. rewrite (assoc_L app nm w). apply slice_app_mid; autorewrite with pylists; lia. }
  rewrite Hv. simpl.
  replace (zdrop (36 + roundup4 n) (nm ++ w ++ p ++ rest)) with rest.
  2:{ symmetry. rewrite (assoc_L app w), (assoc_L app nm). apply zdrop_app_exact. lia. }
  by rewrite Hall.
Qed.

Lemma encode_prop_step_stable outv k v :
  zlen outv mod 4 = 0 → stable_name k = true → stable_value k v = true →
  ∃ e, encode_prop_step outv (k, v) = Ok (outv ++ e) ∧ prop_reads k v e.
Proof.
  intros Hout Hk Hv. unfold stable_name in Hk. unfold stable_value in Hv.
  destruct (utf8_encode k) as [ke|] eqn:Hke; [|done].
  destruct (parse_prop_entry v) as [[n p]|] eqn:Hp; [|done].
  rewrite andb_true_iff, bool_decide_eq_true in Hk. destruct Hk as [Hlen H0].
  rewrite !andb_true_iff, bool_decide_eq_true in Hv.
  destruct Hv as [[[Hn1 Hn2] Hpn] Hdec].
  pose proof (prop_image_reads k v ke n p) as Hreads.
  destruct Hreads as (H36 & Hm & Hread); [done|lia|done|lia|lia|done|].
  pose proof (utf8_encode_length _ _ Hke).
  pose proof (roundup4_spec n) as [? Hr4].
  eexists. split; [|split; [exact H36|split; [exact Hm|exact Hread]]].
  unfold encode_prop_step. rewrite (proj2 (Z.leb_gt 32 (zlen k))) by lia.
  rewrite Hke. simpl. unfold last_byte.
  rewrite last_ljust by lia. simpl. rewrite Hp. simpl. replace (zlen p) with (roundup4 n) by lia.
  rewrite Hr4. simpl. unfold pack_I.
  rewrite (proj2 (pack_u_Ok 4 n _)) by (split; [change (2 ^ _) with (2 ^ 32); lia|done]).
  rewrite ok_bind, (zlen_app outv), Zplus_mod, Hout, Hm. done.
Qed.

Lemma encode_props_stable ps outv :
  zlen outv mod 4 = 0 →
  forallb (λ kv, stable_name kv.1 && stable_value kv.1 kv.2) ps = true →
  ∃ e, res_foldl encode_prop_step outv ps = Ok (outv ++ e) ∧ zlen e mod 4 = 0 ∧
    (length ps ≤ length e)%nat ∧ ∀ fuel acc rest size, (length ps ≤ fuel)%nat → NoDup (dkeys (acc ++ ps)) →
      decode_props fuel (zlen ps) (e ++ rest) acc size = Ok (acc ++ ps, rest, size + zlen e).
Proof.
  revert outv. induction ps as [|[k v] ps IH]; intros outv Hout Hst.
  - exists []. rewrite app_nil_r. do 3 (split; [done|]).
    intros fuel acc rest size _ _. rewrite app_nil_r, zlen_nil, Z.add_0_r. by destruct fuel.
  - cbn in Hst. rewrite !andb_true_iff in Hst. destruct Hst as [[Hk Hv] Hps].
    destruct (encode_prop_step_stable outv k v) as (e & He & (H36 & Hm & Hread)); [done..|].
    destruct (IH (outv ++ e)) as (es & Hes & Hms & Hle & Hreads); [|done|].
    { by rewrite zlen_app, Zplus_mod, Hout, Hm. }
    exists (e ++ es). cbn [res_foldl]. rewrite He. simpl. rewrite Hes.
    split; [by rewrite (assoc_L app)|]. split; [by rewrite zlen_app, Zplus_mod, Hms, Hm|].
    split; [unfold zlen in H36; rewrite length_app; simpl; lia|].
    intros [|fuel] acc rest size Hf Hnd; [simpl in Hf; lia|].
    rewrite <-(assoc_L app), Hread by (rewrite zlen_cons; pose proof (zlen_nonneg ps); lia).
    unfold dkeys in Hnd. rewrite map_app in Hnd. cbn in Hnd.
    rewrite dset_new_app.
    2:{ apply NoDup_app in Hnd as (_ & Hd & _). intros Hin. eapply Hd; [exact Hin|left]. }
    rewrite zlen_cons. replace (1 + zlen ps - 1) with (zlen ps) by lia.
    rewrite Hreads.
    + rewrite <-(assoc_L app acc), zlen_app. simpl. do 2 f_equal. lia.
    + simpl in Hf. lia.
    + unfold dkeys. by rewrite !map_app, <-(assoc_L app).
Qed.

(** [e] is the image of the node [d] for the decoder [dec]. *)
Definition node_reads (dec : list byte → res (ADTNode * Z)) (d : ADTNode) (e : list byte) : Prop :=
  ∀ rest, dec (e ++ rest) = Ok (d, zlen e).

Lemma decode_children_reads dec cs es fuel acc rest size :
  Forall2 (node_reads dec) cs es → (length cs ≤ fuel)%nat →
  decode_children dec fuel (zlen cs) (concat es ++ rest) acc size
  = Ok (acc ++ cs, size + zlen (concat es)).
Proof.
  intros H. revert fuel acc size. induction H as [|c e cs es Hc _ IH]; intros fuel acc size Hf.
  - rewrite app_nil_r, zlen_nil, Z.add_0_r. by destruct fuel.
  - destruct fuel as [|fuel]; [simpl in Hf; lia|]. cbn [decode_children].
    rewrite zlen_cons. pose proof (zlen_nonneg cs).
    rewrite (proj2 (Z.leb_gt _ 0)) by lia.
    cbn [concat]. rewrite <-(assoc_L app), Hc. simpl.
    rewrite zdrop_app_exact by done. replace (1 + zlen cs - 1) with (zlen cs) by lia.
    rewrite IH by (simpl in Hf; lia). rewrite <-(assoc_L app acc), zlen_app. simpl.
    do 2 f_equal. lia.
Qed.

(** More fuel does not change a successful decode. *)
Lemma decode_children_mono dec dec' fuel n l acc size r :
  (∀ l r, dec l = Ok r → dec' l = Ok r) →
  decode_children dec fuel n l acc size = Ok r →
  decode_children dec' fuel n l acc size = Ok r.
Proof.
  intros Hd. revert n l acc size. induction fuel as [|f IH]; intros n l acc size;
    cbn [decode_children]; destruct (n <=? 0); try done.
  intros H. simpl_res. rewrite (Hd _ _ Hr), ok_bind. auto.
Qed.
Lemma decode_node_fuel_S fuel l r :
  decode_node_fuel fuel l = Ok r → decode_node_fuel (S fuel) l = Ok r.
Proof.
  revert l r. induction fuel as [|f IH]; intros l r; [done|].
  intros H. cbn [decode_node_fuel] in H. remember (S f) as f' eqn:Hf'.
  cbn [decode_node_fuel]. simpl_res.
  rewrite Hr, ok_bind. cbn beta iota zeta. rewrite Hr0, ok_bind. cbn beta iota zeta.
  erewrite decode_children_mono; [|intros ? ? Hl; subst; by apply IH|exact Hr1].
  done.
Qed.
Lemma decode_node_fuel_mono fuel fuel' l r :
  (fuel ≤ fuel')%nat → decode_node_fuel fuel l = Ok r → decode_node_fuel fuel' l = Ok r.
Proof. induction 1; auto using decode_node_fuel_S. Qed.

(** The facts about one encoded node that the induction carries. *)
Definition encodes (d : ADTNode) (e : list byte) : Prop :=
  encode_node d = Ok e ∧ 8 ≤ zlen e ∧ zlen e mod 4 = 0 ∧
  ∀ fuel, (length e ≤ fuel)%nat → node_reads (decode_node_fuel fuel) d e.

Lemma encode_children_stable cs outv :
  Forall (λ c, stable_tree c = true → ∃ e, encodes c e) cs →
  forallb stable_tree cs = true →
  ∃ es, res_foldl (λ outv c, e ← encode_node c; Ok (outv ++ e)) outv cs
        = Ok (outv ++ concat es) ∧ Forall2 encodes cs es.
Proof.
  intros H. revert outv. induction H as [|c cs Hc _ IH]; intros outv Hst.
  - exists []. simpl. rewrite app_nil_r. by split.
  - cbn in Hst. apply andb_true_iff in Hst as [Hc' Hcs].
    destruct (Hc Hc') as [e He]. destruct (IH (outv ++ e) Hcs) as (es & Hes & Hall).
    exists (e :: es). split; [|by constructor].
    cbn [res_foldl concat]. rewrite (proj1 He), !ok_bind, Hes. by rewrite (assoc_L app).
Qed.

Lemma concat_encodes cs es :
  Forall2 encodes cs es →
  zlen (concat es) mod 4 = 0 ∧ (length cs ≤ length (concat es))%nat ∧
  ∀ fuel, (length (concat es) ≤ fuel)%nat → Forall2 (node_reads (decode_node_fuel fuel)) cs es.
Proof.
  induction 1 as [|c e cs es (_ & H8 & Hm & Hr) _ (Hms & Hl & Hrs)]; [done|].
  cbn [concat]. unfold zlen in *. rewrite !length_app, Nat2Z.inj_add, Zplus_mod, Hm, Hms.
  split; [done|]. split; [simpl; lia|].
  intros fuel Hf. constructor; [apply Hr; lia|apply Hrs; lia].
Qed.

Lemma unpack_pack_II x y l : pack_II x y = Ok l → unpack_II l = Ok (x, y) ∧ zlen l = 8.
Proof.
  unfold pack_II. intros H. simpl_res.
  pose proof (pack_u_length _ _ _ Hr) as H1. pose proof (pack_u_length _ _ _ Hr0) as H2.
  unfold unpack_II. rewrite zlen_app, H1, H2. split; [|done].
  change (Z.of_nat 4 + Z.of_nat 4 =? 8) with true. cbn iota.
  rewrite ztake_app_exact, zdrop_app_exact by done.
  apply pack_u_Ok in Hr as [Hx ->]. apply pack_u_Ok in Hr0 as [Hy ->].
  by rewrite !le_Z_bytes_id.
Qed.

Lemma stable_tree_encodes t : stable_tree t = true → ∃ e, encodes t e.
Proof.
  induction t as [ps cs IH] using ADTNode_nested_ind. intros Hst. cbn in Hst.
  rewrite !andb_true_iff, bool_decide_eq_true in Hst.
  destruct Hst as [[[[Hps Hnd] Hnps] Hncs] Hcs].
  assert (∃ h, pack_II (zlen ps) (zlen cs) = Ok h) as [h Hh].
  { unfold pack_II, pack_I, pack_u. change (2 ^ (8 * Z.of_nat 4)) with (2 ^ 32).
    pose proof (zlen_nonneg ps). pose proof (zlen_nonneg cs).
    rewrite (proj2 (Z.leb_le 0 (zlen ps))), (proj2 (Z.leb_le 0 (zlen cs))) by done.
    rewrite Hnps, Hncs. simpl. eauto. }
  destruct (unpack_pack_II _ _ _ Hh) as [Hun H8].
  destruct (encode_props_stable ps h) as (ep & Hep & Hmp & Hlp & Hreads); [by rewrite H8|done|].
  destruct (encode_children_stable cs (h ++ ep) IH Hcs) as (es & Hes & Hall).
  destruct (concat_encodes _ _ Hall) as (Hmc & Hlc & Hrc).
  pose proof (zlen_nonneg ep). pose proof (zlen_nonneg (concat es)).
  assert (length (h ++ ep ++ concat es) = (8 + (length ep + length (concat es)))%nat) as Hlen.
  { rewrite !length_app. unfold zlen in H8. lia. }
  exists (h ++ ep ++ concat es). repeat split.
  - cbn [encode_node]. rewrite Hh, ok_bind, Hep, ok_bind, Hes. by rewrite (assoc_L app).
  - autorewrite with pylists. lia.
  - rewrite !zlen_app, H8, Zplus_mod, (Zplus_mod (zlen ep)), Hmp, Hmc. done.
  - intros [|fuel] Hf; [lia|]. intros rest. cbn [decode_node_fuel].
    rewrite (proj2 (Z.ltb_ge _ _)) by (autorewrite with pylists; pose proof (zlen_nonneg rest); lia).
    rewrite <-!(assoc_L app).
    replace (slice 0 8 (h ++ ep ++ concat es ++ rest)) with h.
    2:{ unfold slice. rewrite zdrop_le_0 by lia. symmetry. by apply ztake_app_exact. }
    rewrite Hun, ok_bind. cbn beta iota zeta. rewrite zdrop_app_exact by done.
    rewrite Hreads; [|rewrite !length_app; lia|done].
    rewrite ok_bind. cbn beta iota zeta.
    rewrite (decode_children_reads _ cs es); [|apply Hrc; lia|rewrite length_app; lia].
    rewrite ok_bind. cbn beta iota zeta. rewrite !zlen_app, H8. do 2 f_equal. lia.
Qed.

(** ** What re-encoding does to one value *)

(** The text forms [encode_node] gives a meaning of their own. *)
Definition sentinel (s : list Z) : bool :=
  startswith (u "u32:") s || startswith (u "u64:") s || bool_decide (s = u "<NULL>").
(** [decode_prop] takes its text branch. *)
Definition textual (k : list Z) (p : list byte) : bool :=
  bool_decide (k = u "name") || is_probably_a_string p.
(** The value is read as text, and the text is plain ASCII that
    [parse_prop_entry] does not take for one of its own forms. *)
Definition plain_text (p : list byte) : bool :=
  match decode_null_terminated_string p with
  | Ok s => negb (sentinel s) && forallb (λ c, (0 <=? c) && (c <? 128)) s
  | Raise _ => false
  end.

Lemma split1_all_nil w ws :
  forallb (λ e, bool_decide (e = [])) ws = true →
  join1 x00 (w :: ws) = w ++ replicate (length ws) x00.
Proof.
  revert w. induction ws as [|w' ws IH]; intros w H; [by rewrite app_nil_r|].
  cbn in H. apply andb_true_iff in H as [->%bool_decide_eq_true H].
  change (w ++ x00 :: join1 x00 ([] :: ws) = w ++ replicate (length ([] :: ws)) x00).
  by rewrite IH.
Qed.

Lemma split1_replicate (w : list byte) n :
  x00 ∉ w → split1 x00 (w ++ replicate n x00) = w :: replicate n [].
Proof.
  intros Hw. induction w as [|c w IH]; simpl.
  - induction n as [|n IHn]; simpl; [done|]. by rewrite IHn.
  - rewrite IH by set_solver. by rewrite decide_False by set_solver.
Qed.

Lemma ascii_bytes s :
  Forall (λ c, 0 ≤ c < 128) s →
  map b2z (map z2b s) = s ∧ ascii_decode (map z2b s) = Ok s.
Proof.
  intros H. assert (map b2z (map z2b s) = s) as E.
  { induction H as [|c s Hc _ IH]; simpl; [done|]. rewrite b2z_z2b, Z.mod_small by lia.
    by f_equal. }
  split; [done|]. unfold ascii_decode. rewrite E.
  replace (forallb _ _) with true; [done|]. symmetry. apply forallb_forall.
  intros x (c & <- & Hc)%in_map_iff. rewrite b2z_z2b.
  rewrite Forall_forall in H. apply list_elem_of_In in Hc. specialize (H c Hc).
  rewrite Z.mod_small; lia.
Qed.

Lemma z2b_nonzero s : Forall (λ c, 0 ≤ c < 128) s → 0 ∉ s → x00 ∉ map z2b s.
Proof.
  intros Hs H0 (c & Hc & Hin)%list_elem_of_fmap. rewrite Forall_forall in Hs.
  specialize (Hs c Hin). apply H0. replace 0 with c; [done|].
  change 0 with (b2z x00). rewrite Hc, b2z_z2b, Z.mod_small; lia.
Qed.

Lemma is_probably_intro s n :
  Forall (λ c, ascii_printable c = true) s → 3 ≤ zlen s →
  is_probably_a_string (map z2b s ++ replicate n x00) = true.
Proof.
  intros Hs Hlen.
  assert (Forall (λ c, 0 ≤ c < 128) s) as Ha.
  { eapply Forall_impl; [exact Hs|]. unfold ascii_printable. simpl. intros. lia. }
  assert (0 ∉ s) as H0.
  { intros Hin. rewrite Forall_forall in Hs. by apply Hs in Hin. }
  assert (map z2b s ++ replicate n x00 = map z2b (s ++ replicate n 0)) as E
    by by rewrite map_app, map_z2b_replicate.
  assert (Forall (λ c, 0 ≤ c < 128) (s ++ replicate n 0)) as Ha'.
  { apply Forall_app. split; [done|]. apply Forall_replicate. lia. }
  unfold is_probably_a_string.
  rewrite (proj2 (Z.eqb_neq _ 0)).
  2:{ rewrite zlen_app. unfold zlen in *. rewrite length_map. lia. }
  rewrite split1_replicate by by apply z2b_nonzero. cbn [tail].
  replace (forallb _ (replicate n [])) with true by (clear; induction n as [|n IH]; simpl; [done|exact IH]).
  cbn [negb]. rewrite E, (proj2 (ascii_bytes _ Ha')).
  rewrite before_replicate by done. rewrite (proj2 (Z.ltb_ge _ _)) by done.
  apply forallb_forall. intros x Hx%list_elem_of_In. rewrite Forall_forall in Hs. auto.
Qed.

Lemma is_probably_inv p :
  is_probably_a_string p = true →
  ∃ s n, p = map z2b s ++ replicate n x00 ∧ Forall (λ c, ascii_printable c = true) s ∧ 3 ≤ zlen s.
Proof.
  unfold is_probably_a_string. intros H.
  destruct (zlen p =? 0); [done|].
  destruct (split1 x00 p) as [|w ws] eqn:Esp; [by apply split1_not_nil in Esp|].
  cbn [tail] in H. destruct (forallb _ ws) eqn:Hws; [|done]. cbn [negb] in H.
  pose proof (join1_split1 x00 p) as Hp. rewrite Esp, (split1_all_nil w ws Hws) in Hp.
  pose proof (split1_no_sep x00 p) as Hsep. rewrite Esp in Hsep.
  apply Forall_cons in Hsep as [Hw _].
  destruct (ascii_decode p) as [t|] eqn:Ht; [|done].
  unfold ascii_decode in Ht. destruct (forallb _ p); [|done]. injection Ht as <-.
  assert (before 0 (map b2z p) = map b2z w) as Hb.
  { rewrite <-Hp, map_app.
    rewrite map_b2z_replicate.
    apply before_replicate. intros (c & Hc & Hin)%list_elem_of_fmap.
    apply Hw. assert (c = x00) as <- by (apply b2z_inj; by rewrite <-Hc). done. }
  rewrite Hb in H. destruct (zlen (map b2z w) <? 3) eqn:E3; [done|].
  exists (map b2z w), (length ws). split; [|split; [|lia]].
  - rewrite <-Hp. f_equal. rewrite map_map. symmetry. clear. induction w; simpl; [done|].
    rewrite z2b_b2z. by f_equal.
  - apply Forall_forall. intros x Hx. rewrite forallb_forall in H. apply H. by apply list_elem_of_In.
Qed.

Lemma plain_text_spec p s :
  plain_text p = true → decode_null_terminated_string p = Ok s →
  sentinel s = false ∧ Forall (λ c, 0 ≤ c < 128) s ∧ 0 ∉ s.
Proof.
  unfold plain_text. intros H Hd. rewrite Hd in H.
  apply andb_true_iff in H as [Hs Ha]. apply negb_true_iff in Hs. split; [done|]. split.
  - apply Forall_forall. intros c Hc. rewrite forallb_forall in Ha.
    specialize (Ha c (proj1 (list_elem_of_In _ _) Hc)). simpl in Ha. lia.
  - unfold decode_null_terminated_string in Hd. simpl_res. apply before_not_in.
Qed.

Lemma parse_text s :
  sentinel s = false → Forall (λ c, 0 ≤ c < 128) s →
  parse_prop_entry (VStr s)
  = Ok (zlen s + 1, ljust (roundup4 (zlen s + 1)) x00 (map z2b s)).
Proof.
  unfold sentinel. rewrite !orb_false_iff. intros [[H1 H2] H3] Ha.
  unfold parse_prop_entry. rewrite H1, H2, H3, utf8_encode_ascii, ok_bind by done.
  unfold last_byte. rewrite last_ljust.
  2:{ pose proof (roundup4_spec (zlen s + 1)). unfold round_up_to_multiple_of_4, zlen in *.
      rewrite length_map. lia. }
  done.
Qed.

Lemma decode_prop_text k p s :
  textual k p = true → decode_null_terminated_string p = Ok s → decode_prop k p = Ok (VStr s).
Proof.
  unfold textual, decode_prop. intros -> ->. done.
Qed.

Lemma is_probably_text p s :
  is_probably_a_string p = true → decode_null_terminated_string p = Ok s →
  Forall (λ c, ascii_printable c = true) s ∧ 3 ≤ zlen s ∧
  ∃ n, p = map z2b s ++ replicate n x00.
Proof.
  intros (t & n & -> & Ht & Hlen)%is_probably_inv Hd.
  rewrite (decode_padded t) in Hd; [by simplify_eq; eauto| |].
  - apply utf8_encode_ascii. eapply Forall_impl; [exact Ht|]. unfold ascii_printable.
    simpl. intros. lia.
  - intros Hin. rewrite Forall_forall in Ht. by apply Ht in Hin.
Qed.

(** Encoding the text of a textual property and decoding it again gives the
    text back. *)
Lemma reencode_text k p s :
  textual k p = true → plain_text p = true → decode_null_terminated_string p = Ok s →
  decode_prop k (ljust (roundup4 (zlen s + 1)) x00 (map z2b s)) = Ok (VStr s).
Proof.
  intros Ht Hp Hd. destruct (plain_text_spec _ _ Hp Hd) as (_ & Ha & H0).
  apply decode_prop_text.
  - unfold textual in *. apply orb_true_iff in Ht as [Ht|Ht]; [by rewrite Ht|].
    destruct (is_probably_text _ _ Ht Hd) as (Hpr & Hlen & _).
    apply orb_true_iff. right. by apply is_probably_intro.
  - apply decode_padded; [by apply utf8_encode_ascii|done].
Qed.

Lemma int0_hex_prefixed pre n : zlen pre = 4 → 0 ≤ n → int0 (zdrop 4 (pre ++ hex n)) = Ok n.
Proof. intros Hp Hn. rewrite zdrop_app_exact by done. by apply int0_hex. Qed.

Lemma parse_u32 n : 0 ≤ n < 2 ^ 32 →
  parse_prop_entry (VStr (u "u32:" ++ hex n)) = Ok (4, le_bytes 4 n).
Proof.
  intros Hn. unfold parse_prop_entry.
  rewrite (proj2 (startswith_spec (u "u32:") _)) by eauto.
  rewrite int0_hex_prefixed, ok_bind by (done || lia).
  unfold pack_I. by rewrite (proj2 (pack_u_Ok 4 n (le_bytes 4 n))).
Qed.
Lemma parse_u64 n : 0 ≤ n < 2 ^ 64 →
  parse_prop_entry (VStr (u "u64:" ++ hex n)) = Ok (8, le_bytes 8 n).
Proof.
  intros Hn. unfold parse_prop_entry.
  change (startswith (u "u32:") (u "u64:" ++ hex n)) with false. cbn iota.
  rewrite (proj2 (startswith_spec (u "u64:") _)) by eauto.
  rewrite int0_hex_prefixed, ok_bind by (done || lia).
  unfold pack_Q. by rewrite (proj2 (pack_u_Ok 8 n (le_bytes 8 n))).
Qed.

(** A value that is not text keeps its bytes. *)
Lemma reencode_bytes k p v :
  textual k p = false → zlen p mod 4 = 0 → decode_prop k p = Ok v →
  parse_prop_entry v = Ok (zlen p, p).
Proof.
  intros Ht Hm. unfold decode_prop. unfold textual in Ht. rewrite Ht.
  destruct (zlen p =? 0) eqn:E0.
  { intros [= <-]. destruct p; [done|]. rewrite zlen_cons in E0. pose proof (zlen_nonneg p). lia. }
  destruct (zlen p =? 4) eqn:E4.
  { intros H. simpl_res. apply pack_unpack_u, pack_u_Ok in Hr as [Hr ->].
    rewrite parse_u32 by exact Hr. do 2 f_equal. }
  destruct (zlen p =? 8) eqn:E8.
  { intros H. simpl_res. apply pack_unpack_u, pack_u_Ok in Hr as [Hr ->].
    rewrite parse_u64 by exact Hr. do 2 f_equal. }
  intros [= <-]. unfold parse_prop_entry, round_up_to_multiple_of_4, ljust.
  rewrite roundup4_mult by done. rewrite Z.sub_diag. by rewrite app_nil_r.
Qed.

(** ** Termination *)

Lemma utf8_decode_fuel l : decode_null_terminated_string l ≠ Raise OutOfFuel.
Proof.
  unfold decode_null_terminated_string, utf8_decode. by destruct (mapM id _).
Qed.
Lemma unpack_u_fuel n l : unpack_u n l ≠ Raise OutOfFuel.
Proof. unfold unpack_u. by case_match. Qed.
Lemma unpack_II_fuel l : unpack_II l ≠ Raise OutOfFuel.
Proof. unfold unpack_II. by case_match. Qed.
Lemma decode_prop_fuel k p : decode_prop k p ≠ Raise OutOfFuel.
Proof.
  unfold decode_prop. repeat case_match; try done;
    intros [Hx|(? & _ & Hx)]%bind_Raise; try done; revert Hx.
  - apply utf8_decode_fuel.
  - apply unpack_u_fuel.
  - apply unpack_u_fuel.
Qed.

(** The property loop consumes at least 36 bytes a round, so the buffer's
    length bounds its rounds. *)
Lemma decode_props_fuel fuel n l ps sz :
  (length l < fuel)%nat → decode_props fuel n l ps sz ≠ Raise OutOfFuel.
Proof.
  revert n l ps sz. induction fuel as [|f IH]; intros n l ps sz Hf; [lia|].
  cbn [decode_props]. destruct (n <=? 0); [done|].
  intros [H|(k & Hk & [H|(raw & Hraw & [H|(v & Hv & H)]%bind_Raise)]%bind_Raise)]%bind_Raise.
  - by apply utf8_decode_fuel in H.
  - by apply unpack_u_fuel in H.
  - by apply decode_prop_fuel in H.
  - revert H. apply IH. pose proof (zlen_slice 32 36 l ltac:(lia)) as Hs.
    unfold unpack_I, unpack_u in Hraw. destruct (zlen (slice 32 36 l) =? Z.of_nat 4) eqn:E4; [|done].
    pose proof (roundup4_spec (Z.land raw (Z.lnot 2147483648))) as [Hr _].
    assert (0 ≤ Z.land raw (Z.lnot 2147483648)) as Hnn.
    { apply Z.land_nonneg. left. simpl_res. apply le_Z_range. }
    unfold round_up_to_multiple_of_4. rewrite zdrop_drop, length_drop.
    unfold zlen in *.
    generalize dependent (Z.land raw (Z.lnot 2147483648)). intros raw' _ ? ?.
    apply Z.eqb_eq in E4. lia.
Qed.

Lemma decode_props_shrinks fuel n l ps sz ps' l' sz' :
  decode_props fuel n l ps sz = Ok (ps', l', sz') → (length l' ≤ length l)%nat ∧ sz ≤ sz'.
Proof.
  revert n l ps sz. induction fuel as [|f IH]; intros n l ps sz; cbn [decode_props];
    destruct (n <=? 0); try done; try by (intros [= _ <- <-]; lia).
  intros H. simpl_res. apply IH in H as [Hl Hs].
  unfold unpack_I, unpack_u in Hr0. destruct (_ =? Z.of_nat 4); [|done]. simpl_res.
  set (raw := le_Z _) in *.
  pose proof (roundup4_spec (Z.land raw (Z.lnot 2147483648))) as [Hr' _].
  assert (0 ≤ Z.land raw (Z.lnot 2147483648)) as Hnn.
  { apply Z.land_nonneg. left. apply le_Z_range. }
  unfold round_up_to_multiple_of_4 in *. rewrite zdrop_drop, length_drop in Hl. lia.
Qed.

(** A decoder that never runs out of fuel on a buffer of at most [N] bytes and
    reports at least eight bytes for a node. *)
Definition dec_total (N : nat) (dec : list byte → res (ADTNode * Z)) : Prop :=
  ∀ l, (length l ≤ N)%nat → dec l ≠ Raise OutOfFuel ∧
       ∀ c sz, dec l = Ok (c, sz) → 8 ≤ sz ∧ (8 ≤ length l)%nat.

Lemma decode_children_fuel N dec fuel n l cs sz :
  dec_total N dec → (length l ≤ N)%nat → (length l < fuel)%nat →
  decode_children dec fuel n l cs sz ≠ Raise OutOfFuel ∧
  ∀ cs' sz', decode_children dec fuel n l cs sz = Ok (cs', sz') → sz ≤ sz'.
Proof.
  intros Hd. revert n l cs sz. induction fuel as [|f IH]; intros n l cs sz HN Hf; [lia|].
  cbn [decode_children]. destruct (n <=? 0); [split; [done|intros ? ? [= _ <-]; lia]|].
  destruct (Hd l HN) as [Hne Hok]. destruct (dec l) as [[c csz]|e] eqn:El.
  - rewrite ok_bind. cbn beta iota.
    destruct (Hok c csz eq_refl) as [H8 Hl8].
    assert (length (zdrop csz l) < length l)%nat as Hlt
      by (rewrite zdrop_drop, length_drop; lia).
    destruct (IH (n - 1) (zdrop csz l) (cs ++ [c]) (sz + csz)) as [H1 H2]; [lia|lia|].
    split; [done|]. intros ? ? Hc. apply H2 in Hc. lia.
  - split; [|done]. intros [= ->]. done.
Qed.

Lemma decode_node_fuel_total N fuel : (N < fuel)%nat → dec_total N (decode_node_fuel fuel).
Proof.
  revert N. induction fuel as [|f IH]; intros N Hf; [lia|].
  intros l Hl. cbn [decode_node_fuel].
  destruct (zlen l <? 8) eqn:E8; [done|].
  destruct (unpack_II (slice 0 8 l)) as [[np nc]|e] eqn:Eu.
  2:{ split; [|done]. intros [= ->]. by apply unpack_II_fuel in Eu. }
  rewrite ok_bind. cbn beta iota zeta.
  assert (length (zdrop 8 l) = length l - 8)%nat as Hlen by by rewrite zdrop_drop, length_drop.
  destruct (decode_props _ np _ [] 8) as [[[ps l'] sz]|e] eqn:Ep.
  2:{ split; [|done]. intros [= ->]. revert Ep. apply decode_props_fuel. lia. }
  apply decode_props_shrinks in Ep as [Hl' Hsz].
  rewrite ok_bind. cbn beta iota zeta. unfold zlen in E8.
  destruct (decode_children_fuel (N - 1) (decode_node_fuel f) (S (length l')) nc l' [] sz)
    as [H1 H2]; [apply IH; lia|lia|lia|].
  destruct (decode_children _ _ nc l' [] sz) as [[cs sz']|e].
  - split; [done|]. intros ? ? [= _ <-]. specialize (H2 _ _ eq_refl). lia.
  - split; [|done]. intros [= ->]. done.
Qed.

(** ** Properties *)

(** C1: what [encode_node] writes for a stable tree is a whole number of
    words and [decode_node] reads the same tree back from it, with its size,
    whatever bytes follow. *)
Theorem decode_encode t :
  stable_tree t = true →
  ∃ l, encode_node t = Ok l ∧ zlen l mod 4 = 0 ∧
       ∀ rest, decode_node (l ++ rest) = Ok (t, zlen l).
Proof.
  intros (l & He & _ & Hm & Hr)%stable_tree_encodes. exists l. do 2 (split; [done|]).
  intros rest. apply Hr. rewrite length_app. lia.
Qed.

Lemma decode_encode_witness :
  stable_tree sample_tree = true ∧
  ∃ l, encode_node sample_tree = Ok l ∧ zlen l mod 4 = 0 ∧
       ∀ rest, decode_node (l ++ rest) = Ok (sample_tree, zlen l).
Proof.
  split; [vm_compute; reflexivity|].
  apply (decode_encode sample_tree). vm_compute. reflexivity.
Defined.

(** One decode-encode pass over a property value.  A value that is not
    text keeps its bytes and length; a text value is rewritten as the text,
    one NUL and padding, with the length of the text and its NUL; in both
    cases a second pass sees the same value. *)
Theorem reencode_value k p v :
  zlen p mod 4 = 0 → (textual k p = true → plain_text p = true) →
  decode_prop k p = Ok v →
  ∃ n p', parse_prop_entry v = Ok (n, p') ∧ zlen p' = roundup4 n ∧
    decode_prop k p' = Ok v ∧
    if textual k p
    then ∃ s, v = VStr s ∧ n = zlen s + 1 ∧ p' = ljust (roundup4 n) x00 (map z2b s)
    else n = zlen p ∧ p' = p.
Proof.
  intros Hm Hplain Hv. destruct (textual k p) eqn:Ht.
  - specialize (Hplain eq_refl).
    destruct (decode_null_terminated_string p) as [s|e] eqn:Hd.
    2:{ unfold plain_text in Hplain. by rewrite Hd in Hplain. }
    rewrite (decode_prop_text k p s Ht Hd) in Hv. apply Ok_inj in Hv as <-.
    destruct (plain_text_spec p s Hplain Hd) as (Hs & Ha & _).
    exists (zlen s + 1), (ljust (roundup4 (zlen s + 1)) x00 (map z2b s)).
    split; [by apply parse_text|]. split.
    { rewrite zlen_ljust. pose proof (roundup4_spec (zlen s + 1)) as [? _].
      unfold zlen in *. rewrite length_map. lia. }
    split; [by apply (reencode_text k p)|]. by exists s.
  - exists (zlen p), p. split; [by apply (reencode_bytes k)|].
    split; [by rewrite roundup4_mult|]. by split.
Qed.

Lemma reencode_value_witness :
  let p := b "iphone,d47" ++ replicate 6 x00 in
  zlen p mod 4 = 0 ∧
  ∃ n p', parse_prop_entry (VStr "iphone,d47") = Ok (n, p') ∧ zlen p' = roundup4 n ∧
    decode_prop (u "compatible") p' = Ok (VStr "iphone,d47") ∧
    if textual (u "compatible") p
    then ∃ s, VStr "iphone,d47" = VStr s ∧ n = zlen s + 1
              ∧ p' = ljust (roundup4 n) x00 (map z2b s)
    else n = zlen p ∧ p' = p.
Proof.
  intros p. split; [vm_compute; reflexivity|].
  apply (reencode_value (u "compatible") p (VStr "iphone,d47")).
  - vm_compute. reflexivity.
  - intros _. vm_compute. reflexivity.
  - vm_compute. reflexivity.
Defined.

(** a value that fills its property with text and has no NUL comes out one
    byte longer in its length field and four bytes longer in the stream: the
    pass is lossy exactly there. *)
Theorem unterminated_text_grows k p :
  is_probably_a_string p = true → plain_text p = true → x00 ∉ p → zlen p mod 4 = 0 →
  ∃ v, decode_prop k p = Ok v ∧
       parse_prop_entry v = Ok (zlen p + 1, p ++ replicate 4 x00).
Proof.
  intros Hp Hplain H0 Hm.
  destruct (decode_null_terminated_string p) as [s|e] eqn:Hd.
  2:{ unfold plain_text in Hplain. by rewrite Hd in Hplain. }
  exists (VStr s). split.
  { apply decode_prop_text; [|done]. unfold textual. rewrite Hp. apply orb_true_r. }
  destruct (plain_text_spec p s Hplain Hd) as (Hs & Ha & _).
  destruct (is_probably_text p s Hp Hd) as (_ & _ & [|n] & Hpe).
  - rewrite app_nil_r in Hpe. rewrite parse_text by done.
    assert (zlen s = zlen p) as -> by (subst p; unfold zlen; by rewrite length_map).
    assert (roundup4 (zlen p + 1) = zlen p + 4) as ->.
    { pose proof (roundup4_spec (zlen p + 1)) as [? Hm'].
      pose proof (Z.div_mod (zlen p) 4). pose proof (Z.div_mod (roundup4 (zlen p + 1)) 4). lia. }
    do 2 f_equal. unfold ljust. rewrite <-Hpe. f_equal.
    by replace (zlen p + 4 - zlen p) with 4 by lia.
  - exfalso. apply H0. rewrite Hpe. apply elem_of_app. right. left.
Qed.

Lemma unterminated_text_grows_witness :
  let p := b "iphone15" in
  is_probably_a_string p = true ∧
  ∃ v, decode_prop (u "model") p = Ok v ∧
       parse_prop_entry v = Ok (zlen p + 1, p ++ replicate 4 x00).
Proof.
  intros p. split; [vm_compute; reflexivity|].
  apply (unterminated_text_grows (u "model") p).
  - vm_compute. reflexivity.
  - vm_compute. reflexivity.
  - apply (bool_decide_eq_true_1 (x00 ∉ p)). vm_compute. reflexivity.
  - vm_compute. reflexivity.
Defined.

(** [decode_node] terminates on every buffer: it gives a tree or one of
    Python's exceptions, and the size of a tree is at least its header. *)
Theorem decode_node_total l :
  decode_node l ≠ Raise OutOfFuel ∧ ∀ t sz, decode_node l = Ok (t, sz) → 8 ≤ sz.
Proof.
  destruct (decode_node_fuel_total (length l) (S (length l)) ltac:(lia) l ltac:(lia)) as [H1 H2].
  split; [exact H1|]. intros t sz H. by destruct (H2 t sz H).
Qed.
