(* ===== verification/AdtFixups.v ===== *)
(** * The device tree fixups of [dt_fixup.py]

    [fixup] turns the tree of an IPSW into the tree the emulated machine
    boots with.  A Python statement [d['a']['b'].props['k'] = v] is an update
    at a path; a missing child is a [ValueError] and a missing key a
    [KeyError], raised in the order the source evaluates them.  The tree is
    never shared, so the updates are functions on values; the module's global
    options are the fields of [config]. *)

From stdpp Require Import base tactics list list_numbers strings sets.
From Stdlib Require Import Strings.Byte.
From S2P Require Import Prelude PyBytes PyStr PyDict AdtCodec.
Open Scope Z_scope.

(** ** Constants and options *)

Definition SUPPORTED_DRIVERS : list (list byte) :=
  [b "AppleARM"; b "aic"; b "arm-io"; b "uart-1,samsung"].
Definition FREQUENCY : pval := VStr "u32:0x100000".
Definition IBOOT_NAME : list Z := u "qemu-sptm".
Definition DRAM_SIZE : Z := 0x200000000.
Definition AMCC_BANK_STRIDE : Z := 0x100.
Definition AMCC_LOWER_LIMIT_REG : Z := 0x10.
Definition AMCC_UPPER_LIMIT_REG : Z := 0x20.
Definition IOP_REGION_BASE : Z := 0x10010000000.
Definition IOP_REGION_SIZE : Z := 0x100000.
Definition IOP_REGION_STRIDE : Z := 0x1000000.

Definition EMULATED_FEATURES : list (list Z * list (list Z)) :=
  [(u "dcp", [u "arm-io/dcp"; u "arm-io/dart-dcp"; u "arm-io/disp0"; u "arm-io/dcp0-expert";
              u "arm-io/dart-disp0"; u "arm-io/dart-dispgrt"]);
   (u "ans", [u "arm-io/ans"; u "arm-io/sart-ans"]);
   (u "smc", [u "arm-io/smc"]);
   (u "sep", [u "arm-io/sep"; u "arm-io/dart-sep"]);
   (u "spmi", [u "arm-io/nub-spmi0"])].

Record config := Config {
  keep_compat_paths : list (list Z);
  ephemeral_data_blocks : option Z;
  skip_keybag : bool;
  dram_size : Z;
}.

(** ** The node operations of [ADTNode] *)

Definition node_name (c : ADTNode) : res pval :=
  opt_or (dget (u "name") (props c)) (KeyError "name").

(** The index of the first child of that name, as the loops of
    [__getitem__], [__contains__] and [remove_child] find it. *)
Fixpoint find_child (key : list Z) (cs : list ADTNode) : res (option nat) :=
  match cs with
  | [] => Ok None
  | c :: cs =>
      n ← node_name c;
      if bool_decide (n = VStr key) then Ok (Some 0%nat)
      else i ← find_child key cs; Ok (option_map S i)
  end.

Definition child_index (d : ADTNode) (key : list Z) (msg : string) : res nat :=
  i ← find_child key (children d);
  match i with
  | Some i => Ok i
  | None => _ ← node_name d; Raise (ValueError msg)
  end.

Definition getitem (d : ADTNode) (key : list Z) : res ADTNode :=
  i ← child_index d key "key not present in node";
  opt_or (children d !! i) IndexError.

Definition contains_child (key : list Z) (d : ADTNode) : res bool :=
  i ← find_child key (children d); Ok (bool_decide (is_Some i)).

Definition remove_child (key : list Z) (d : ADTNode) : res ADTNode :=
  i ← child_index d key "child not found";
  Ok (mkNode (props d) (delete i (children d))).

(** [f] applied to [d[key]] in place. *)
Definition at_child (key : list Z) (f : ADTNode → res ADTNode) (d : ADTNode) : res ADTNode :=
  i ← child_index d key "key not present in node";
  c ← opt_or (children d !! i) IndexError;
  c' ← f c;
  Ok (mkNode (props d) (<[i := c']> (children d))).

Fixpoint at_path (p : list (list Z)) (f : ADTNode → res ADTNode) (d : ADTNode) : res ADTNode :=
  match p with [] => f d | k :: p => at_child k (at_path p f) d end.
Fixpoint get_path (p : list (list Z)) (d : ADTNode) : res ADTNode :=
  match p with [] => Ok d | k :: p => c ← getitem d k; get_path p c end.

Definition get_prop (k : list Z) (d : ADTNode) : option pval := dget k (props d).
Definition prop (k : list Z) (d : ADTNode) : res pval := opt_or (get_prop k d) (KeyError k).
Definition set_prop (k : list Z) (v : pval) (d : ADTNode) : ADTNode :=
  mkNode (dset k v (props d)) (children d).
Definition pop_prop (k : list Z) (d : ADTNode) : ADTNode :=
  mkNode (dpop k (props d)) (children d).
Definition del_prop (k : list Z) (d : ADTNode) : res ADTNode :=
  _ ← prop k d; Ok (pop_prop k d).
Definition put (p : list (list Z)) (k : list Z) (v : pval) : ADTNode → res ADTNode :=
  at_path p (λ d, Ok (set_prop k v d)).
Definition puts (p : list (list Z)) (kvs : list (list Z * pval)) : ADTNode → res ADTNode :=
  λ d, res_foldl (λ d kv, put p kv.1 kv.2 d) d kvs.

(** A [compatible] value as the bytes the substring tests look at. *)
Definition compat_bytes (v : pval) : res (list byte) :=
  match v with
  | VStr s => utf8_encode s
  | VBytes l => Ok l
  | VInt _ | VDict | VOther => Raise AttributeError
  end.

Definition joins_path (path : list Z) (d : ADTNode) (name : pval) : res (list Z) :=
  match name with
  | VStr n =>
      if negb (bool_decide (path = [])) || negb (bool_decide (get_prop (u "name") d = Some (VStr "device-tree")))
      then Ok (path ++ u "/" ++ n) else Ok n
  | _ => Raise (TypeError "can only concatenate str to str")
  end.

Definition under (rel k : list Z) : bool :=
  bool_decide (rel = k) || startswith (k ++ u "/") rel.
Definition kept (keep : list (list Z)) (path : list Z) : bool :=
  existsb (under (dropwhile (λ c, c =? 47) path)) keep.

(** The part of [del_compat] after its recursive calls. *)
Definition strip_compat (keep : list (list Z)) (path : list Z) (d : ADTNode) : res ADTNode :=
  let rel := dropwhile (λ c, c =? 47) path in
  if kept keep path then Ok d
  else
    d ← match get_prop (u "compatible") d with
        | Some v =>
            compat ← compat_bytes v;
            if existsb (λ x, contains x compat) SUPPORTED_DRIVERS then Ok d
            else Ok (pop_prop (u "compatible") d)
        | None => Ok d
        end;
    if bool_decide (rel = u "arm-io/dispext0") && negb (dmem (u "compatible") (props d))
       && bool_decide (get_prop (u "device_type") d = Some (VStr "ext-display-subsystem"))
    then Ok (pop_prop (u "device_type") d) else Ok d.

Fixpoint del_compat (keep : list (list Z)) (path : list Z) (d : ADTNode) : res ADTNode :=
  match d with
  | mkNode ps cs =>
      cs ← res_map (λ c, n ← node_name c;
                         path' ← joins_path path (mkNode ps []) n;
                         del_compat keep path' c) cs;
      strip_compat keep path (mkNode ps cs)
  end.

Definition drop_exclave_routes : ADTNode → res ADTNode :=
  at_child (u "arm-io") (λ arm,
    Ok (mkNode (props arm)
          (map (λ c, if dmem (u "compatible") (props c)
                     then mkNode (props c) (map (pop_prop (u "routes")) (children c))
                     else c) (children arm)))).

Definition keep_only_pmu (c : ADTNode) : res ADTNode :=
  match get_prop (u "compatible") c with
  | None => Ok c
  | Some v =>
      compat ← compat_bytes v;
      if startswith (b "pmu,spmi") compat then Ok c else Ok (pop_prop (u "compatible") c)
  end.

Definition fixup_spmi (keep : list (list Z)) (d : ADTNode) : res ADTNode :=
  if negb (bool_decide (u "arm-io/nub-spmi0" ∈ keep)) then Ok d
  else
    arm ← getitem d (u "arm-io");
    here ← contains_child (u "nub-spmi0") arm;
    if negb here then Ok d
    else at_path [u "arm-io"; u "nub-spmi0"]
           (λ spmi, cs ← res_map keep_only_pmu (children spmi); Ok (mkNode (props spmi) cs)) d.

(** The DARTs that keep a driver are numbered in order. *)
Definition is_dart (c : ADTNode) : bool :=
  bool_decide (get_prop (u "device_type") c = Some (VStr "dart"))
  && dmem (u "compatible") (props c).
Fixpoint number_darts (dart_id : Z) (cs : list ADTNode) : list ADTNode :=
  match cs with
  | [] => []
  | c :: cs =>
      if is_dart c
      then set_prop (u "dart-id") (VStr (u "u32:" ++ dec dart_id)) c :: number_darts (dart_id + 1) cs
      else c :: number_darts dart_id cs
  end.
Definition fixup_darts : ADTNode → res ADTNode :=
  at_child (u "arm-io") (λ arm, Ok (mkNode (props arm) (number_darts 0 (children arm)))).

Definition fixup_skip_keybag : ADTNode → res ADTNode :=
  put [u "product"] (u "boot-ios-diagnostics") (VStr "u32:1").

(** [re.sub(r'size=\d+', rep, opts)].  [skip] counts the characters still
    covered by the last match. *)
Definition size_match (s : list Z) : option nat :=
  if startswith (u "size=") s then
    match takewhile is_digit (zdrop 5 s) with
    | [] => None
    | ds => Some (5 + length ds)%nat
    end
  else None.
Fixpoint sub_size (rep : list Z) (skip : nat) (s : list Z) : list Z :=
  match s with
  | [] => []
  | c :: s' =>
      match skip with
      | S k => sub_size rep k s'
      | O => match size_match s with
             | Some (S n) => rep ++ sub_size rep n s'
             | _ => c :: sub_size rep 0 s'
             end
      end
  end.

Definition resize_volume (size_blocks : Z) (vol : ADTNode) : ADTNode :=
  match get_prop (u "vol.fs_mntopts") vol with
  | Some (VStr opts) =>
      if contains (u "size=") opts
      then set_prop (u "vol.fs_mntopts") (VStr (sub_size (u "size=" ++ dec size_blocks) 0 opts)) vol
      else vol
  | _ => vol
  end.

(** [eph] is taken after [fstab] was renamed, and renamed itself before its
    children are visited. *)
Definition fixup_ephemeral_data (size_blocks : Z) : ADTNode → res ADTNode :=
  at_child (u "filesystems") (λ fs,
    here ← contains_child (u "fstab-ephemeral-recovery-data") fs;
    raise_if negb here with ValueError "no fstab-ephemeral-recovery-data node to promote" ;;
    fs ← put [u "fstab"] (u "name") (VStr "fstab-disk") fs;
    at_child (u "fstab-ephemeral-recovery-data") (λ eph,
      let eph := set_prop (u "name") (VStr "fstab") eph in
      Ok (mkNode (props eph) (map (resize_volume size_blocks) (children eph)))) fs).

Definition DROP : list (list Z) := [u "xART"; u "Baseband-Data"; u "Update"].
(** [str(v)] of a [bytes] value is its repr, which is in no case in [DROP]. *)
Definition available (v : ADTNode) : bool :=
  match get_prop (u "vol.fs_name") v with
  | Some (VStr s) => negb (bool_decide (s ∈ DROP))
  | _ => true
  end.
Definition drop_entries (tab : ADTNode) : ADTNode :=
  let cs := base.filter (λ v, available v = true) (children tab) in
  let removed := zlen (children tab) - zlen cs in
  let ps := if negb (removed =? 0) && dmem (u "max_fs_entries") (props tab)
            then dset (u "max_fs_entries") (VStr (u "u32:" ++ dec (zlen cs))) (props tab)
            else props tab in
  mkNode ps cs.
Definition fixup_fstab_drop_unavailable (d : ADTNode) : res ADTNode :=
  fs ← getitem d (u "filesystems");
  here ← contains_child (u "fstab") fs;
  if negb here then Ok d
  else at_path [u "filesystems"; u "fstab"] (λ tab, Ok (drop_entries tab)) d.

(** A nub is given a region when it is RTBuddy's and iBoot described none.
    The state threaded through the loops is [slot]. *)
Definition wants_region (nub : ADTNode) : res bool :=
  compat ← match get_prop (u "compatible") nub with
           | None => Ok []
           | Some (VStr s) => Ok s
           | Some (VBytes l) => Ok (utf8_replace l)
           | Some _ => Raise (TypeError "argument is not iterable")
           end;
  Ok (contains (u "rtbuddy") compat
      && match get_prop (u "region-base") nub with
         | None => true
         | Some v => bool_decide (v = VStr "u64:0x0")
         end).
Definition region_base (slot : Z) : Z := IOP_REGION_BASE + slot * IOP_REGION_STRIDE.
Definition give_region (slot : Z) (nub : ADTNode) : ADTNode :=
  let nub := set_prop (u "pre-loaded") (VStr "u32:1") nub in
  let nub := set_prop (u "region-base") (VStr (u "u64:" ++ hex (region_base slot))) nub in
  let nub := set_prop (u "region-size") (VStr (u "u64:" ++ hex IOP_REGION_SIZE)) nub in
  set_prop (u "no-firmware-service") (VStr "<NULL>") nub.
Fixpoint fixup_nubs (slot : Z) (nubs : list ADTNode) : res (Z * list ADTNode) :=
  match nubs with
  | [] => Ok (slot, [])
  | nub :: nubs =>
      w ← wants_region nub;
      '(slot2, nubs2) ← fixup_nubs (if (w : bool) then slot + 1 else slot) nubs;
      Ok (slot2, (if (w : bool) then give_region slot nub else nub) :: nubs2)
  end.
Fixpoint fixup_iop_list (slot : Z) (cs : list ADTNode) : res (Z * list ADTNode) :=
  match cs with
  | [] => Ok (slot, [])
  | c :: cs =>
      if negb (dmem (u "compatible") (props c)) then
        '(slot2, cs2) ← fixup_iop_list slot cs; Ok (slot2, c :: cs2)
      else
        let c := set_prop (u "ignore-gating") (VStr "<NULL>") c in
        '(slot2, nubs) ← fixup_nubs slot (children c);
        '(slot3, cs2) ← fixup_iop_list slot2 cs;
        Ok (slot3, mkNode (props c) nubs :: cs2)
  end.
Definition fixup_iops : ADTNode → res ADTNode :=
  at_child (u "arm-io") (λ arm,
    '(slot, cs) ← fixup_iop_list 0 (children arm); Ok (mkNode (props arm) cs)).

Definition get_platform_name (d : ADTNode) : res (list Z) :=
  arm ← getitem d (u "arm-io");
  compat ← prop (u "compatible") arm;
  text ← match compat with
         | VBytes l => utf8_decode l
         | VStr s => Ok s
         | _ => Raise AttributeError
         end;
  opt_or (split1 44 text !! 1%nat) IndexError.

Definition get_soc_gen (d : ADTNode) : res Z :=
  arm ← getitem d (u "arm-io");
  v ← prop (u "soc-generation") arm;
  match v with
  | VStr [] => Raise IndexError
  | VStr (c :: rest) => if negb (c =? 72) then Ok 0 else int10 rest
  | _ => Ok 0
  end.

Definition unset_region : pval := VBytes (replicate 16 xff).
Definition zero_region : pval := VBytes (replicate 16 x00).
Definition iop_sep_nub : list (list Z) := [u "arm-io"; u "sep"; u "iop-sep-nub"].

(** [platform[1:]] is all hexadecimal digits; empty, [int] raises. *)
Definition chip_id (platform : list Z) (d : ADTNode) : res ADTNode :=
  if startswith (u "t") platform && forallb is_hexdigit (zdrop 1 platform) then
    n ← opt_or (int_hex (zdrop 1 platform)) (ValueError "invalid literal for int() with base 16");
    put [u "chosen"] (u "chip-id") (VStr (u "u32:" ++ hex n)) d
  else Ok d.

Definition fixup_sep (keep : list (list Z)) (d : ADTNode) : res ADTNode :=
  if negb (bool_decide (u "arm-io/sep" ∈ keep)) then
    arm ← getitem d (u "arm-io");
    here ← contains_child (u "sep") arm;
    if (here : bool) then at_child (u "arm-io") (remove_child (u "sep")) d else Ok d
  else
    d ← put iop_sep_nub (u "rom-panic-bytes") (VStr "u32:0x100") d;
    d ← at_path iop_sep_nub (λ nub, Ok (pop_prop (u "function-wait_for_power_gate") nub)) d;
    d ← put iop_sep_nub (u "sepfw-loaded") (VStr "u32:0x1") d;
    d ← put [u "chosen"; u "memory-map"] (u "SEPFW") unset_region d;
    d ← put [u "chosen"] (u "sepfw-load-at-boot") (VStr "u32:0x0") d;
    platform ← get_platform_name d;
    d ← chip_id platform d;
    nub ← get_path iop_sep_nub d;
    here ← contains_child (u "xART") nub;
    if (here : bool) then at_path iop_sep_nub (remove_child (u "xART")) d else Ok d.

Definition fixup_aic (aic : ADTNode) : res ADTNode :=
  match get_prop (u "compatible") aic with
  | None => Raise (ValueError "aic doesn't have a 'compatible' field")
  | Some v =>
      compat ← compat_bytes v;
      if contains (b "aic,2") compat || contains (b "aic,3") compat
      then Ok (set_prop (u "aic-iack-offset") (VStr "u64:0x1000") aic) else Ok aic
  end.

Definition memory_regions : list (list Z) :=
  [u "TXM-ro"; u "TXM-rx"; u "TXM-bx"; u "TXM-rw"; u "TXM-le"; u "TXM-entry"; u "TXM-virt";
   u "TrustCache";
   u "BootKC-rx"; u "BootKC-bx"; u "BootKC-ro"; u "BootKC-rs"; u "BootKC-rw"; u "BootKC-le";
   u "BootKC-virt"; u "BootKC-entry";
   u "DeviceTree";
   u "SPTM-ro"; u "SPTM-rm"; u "SPTM-rx"; u "SPTM-rw"; u "SPTM-le"; u "SPTM-entry"; u "SPTM-virt";
   u "BootArgs"; u "slide";
   u "CL4-rx"; u "CL4-ro"; u "CL4-rw"; u "CL4-le"; u "CL4-dummypage"; u "CL4-entry"; u "CL4-virt";
   u "CL4-dummypage";
   u "RAMDisk"; u "PurpleGfxMem"].
Definition fixup_sptm (d : ADTNode) : res ADTNode :=
  d ← at_path [u "chosen"; u "memory-map"] (λ m,
        let ps := foldl (λ ps i, dset i unset_region ps) (props m) memory_regions in
        Ok (mkNode (dset (u "slide") zero_region ps) (children m))) d;
  at_child (u "arm-io") (remove_child (u "sgx")) d.

(** ** [fixup] *)

(** [len(v)] of a property value. *)
Definition val_len (v : pval) : res Z :=
  match v with
  | VStr s => Ok (zlen s)
  | VBytes l => Ok (zlen l)
  | VDict => Ok 0
  | _ => Raise (TypeError "object has no len()")
  end.

Definition rtc_node : ADTNode :=
  mkNode [(u "name", VStr "rtc"); (u "__placeholder_val", VStr "<NULL>")] [].

Definition fixup_cpu0 : ADTNode → res ADTNode :=
  puts [u "cpus"; u "cpu0"]
    [(u "memory-frequency", FREQUENCY); (u "peripheral-frequency", FREQUENCY);
     (u "fixed-frequency", FREQUENCY); (u "clock-frequency", FREQUENCY);
     (u "timebase-frequency", FREQUENCY)].

Definition fixup_nvram (nvram : list byte) : ADTNode → res ADTNode :=
  puts [u "chosen"]
    [(u "nvram-bank-count", VStr "u32:1"); (u "nvram-current-bank", VStr "u32:1");
     (u "nvram-proxy-data", VBytes nvram);
     (u "nvram-total-size", VStr (u "u32:" ++ dec (zlen nvram)));
     (u "nvram-bank-size", VStr (u "u32:" ++ dec (zlen nvram)))].

Definition fixup_hmac (d : ADTNode) : res ADTNode :=
  nub ← get_path iop_sep_nub d;
  here ← contains_child (u "InvalidateHmac") nub;
  if (here : bool) then
    puts (iop_sep_nub ++ [u "InvalidateHmac"])
      [(u "config", VStr "u32:1"); (u "sio-hmac1-offset", VStr "u64:0");
       (u "sio-hmac1-disable-mask", VStr "u64:0xffffffffffffffff")] d
  else Ok d.

Definition ctrr_props (i : Z) : list (list Z * pval) :=
  [(u "page-size-shift", VStr "u32:0");
   (u "lower-limit-reg-offset",
      VStr (u "u32:" ++ dec (AMCC_BANK_STRIDE * i + AMCC_LOWER_LIMIT_REG)));
   (u "upper-limit-reg-offset",
      VStr (u "u32:" ++ dec (AMCC_BANK_STRIDE * i + AMCC_UPPER_LIMIT_REG)));
   (u "upper-limit-reg-mask", VStr "u32:0xFFFFFFFF");
   (u "lower-limit-reg-mask", VStr "u32:0xFFFFFFFF");
   (u "lock-reg-offset", VStr "u32:0"); (u "lock-reg-mask", VStr "u32:0");
   (u "lock-reg-value", VStr "u32:0"); (u "enable-reg-offset", VStr "u32:0");
   (u "enable-reg-mask", VStr "u32:1"); (u "enable-reg-value", VStr "u32:1");
   (u "write-disable-reg-offset", VStr "u32:0"); (u "write-disable-reg-mask", VStr "u32:1");
   (u "write-disable-reg-value", VStr "u32:1")].

Definition fixup_amcc : ADTNode → res ADTNode :=
  at_path [u "chosen"; u "lock-regs"; u "amcc"] (λ amcc,
    amcc ← puts []
      [(u "aperture-count", VStr "u32:1"); (u "aperture-size", VStr "u32:0x4000");
       (u "plane-count", VStr "u32:1"); (u "plane-stride", VStr "u32:0");
       (u "plane-size", VStr "u32:0x4000"); (u "aperture-phys-addr", VStr "u64:0x220000000");
       (u "cache-status-reg-offset", VStr "u32:0"); (u "cache-status-reg-mask", VStr "u32:0");
       (u "cache-status-reg-value", VStr "u32:0")] amcc;
    res_foldl (λ amcc '(i, ctrr_v), puts [u "amcc-ctrr-" ++ ctrr_v] (ctrr_props i) amcc)
      amcc [(0, u "a"); (1, u "b"); (2, u "c"); (3, u "d")]).

(** The statements of [fixup] up to the call of [del_compat]. *)
Definition fixup_props (cfg : config) (nvram : list byte) (d : ADTNode) : res ADTNode :=
  platform ← get_platform_name d;
  let d := set_prop (u "platform-name") (VStr platform) d in
  soc_gen ← get_soc_gen d;
  d ← put [u "chosen"] (u "dram-base")
        (VStr (if soc_gen <=? 14 then "u64:0x800000000" else "u64:0x10000000000")) d;
  d ← puts [u "chosen"]
        [(u "dram-size", VStr (u "u64:" ++ dec (dram_size cfg)));
         (u "firmware-version", VStr IBOOT_NAME);
         (u "system-firmware-version", VStr IBOOT_NAME)] d;
  d ← put [u "cpus"; u "cpu0"] (u "state") (VStr "running") d;
  chosen ← getitem d (u "chosen");
  seed ← prop (u "random-seed") chosen;
  n ← val_len seed;
  d ← put [u "chosen"] (u "random-seed") (VBytes (replicate (Z.to_nat n) x41)) d;
  d ← put [u "chosen"] (u "kernel-ctrr-to-be-enabled") (VStr "u32:0") d;
  uart ← get_path [u "arm-io"; u "uart0"] d;
  phandle ← prop (u "AAPL,phandle") uart;
  d ← put [u "defaults"] (u "serial-device") phandle d;
  d ← fixup_cpu0 d;
  d ← fixup_nvram nvram d;
  d ← fixup_hmac d;
  d ← at_child (u "arm-io") (remove_child (u "dockchannel-uart")) d;
  let d := if negb (bool_decide (u "arm-io/nub-spmi0" ∈ keep_compat_paths cfg))
           then mkNode (dset (u "no-rtc") (VStr "<NULL>") (props d)) (children d ++ [rtc_node])
           else d in
  d ← put [u "defaults"] (u "vmm-present") (VStr "u32:1") d;
  fixup_amcc d.

(** The passes [fixup] then runs over the tree. *)
Definition fixup_passes (cfg : config) (d : ADTNode) : res ADTNode :=
  let keep := keep_compat_paths cfg in
  d ← del_compat keep [] d;
  d ← fixup_spmi keep d;
  d ← drop_exclave_routes d;
  d ← fixup_darts d;
  d ← fixup_iops d;
  d ← match ephemeral_data_blocks cfg with
      | Some n => fixup_ephemeral_data n d
      | None => Ok d
      end;
  d ← if skip_keybag cfg then fixup_skip_keybag d else Ok d;
  d ← fixup_sep keep d;
  d ← fixup_fstab_drop_unavailable d;
  d ← at_path [u "arm-io"; u "aic"] fixup_aic d;
  d ← fixup_sptm d;
  del_prop (u "secure-root-prefix") d.

Definition fixup (cfg : config) (nvram : list byte) (d : ADTNode) : res ADTNode :=
  chosen ← getitem d (u "chosen");
  raise_if bool_decide (get_prop (u "firmware-version") chosen = Some (VStr IBOOT_NAME))
    with SystemExit "error: this device tree has already been patched by dt_fixup" ;;
  d ← fixup_props cfg nvram d;
  fixup_passes cfg d.

Definition fixup_development_activation (d : ADTNode) : res ADTNode :=
  d ← put [u "chosen"] (u "debug-enabled") (VStr "u32:1") d;
  put [u "product"] (u "allow-hactivation") (VStr "u32:1") d.

(** ** [main] *)

Record args := Args {
  arg_dtree : list byte;
  arg_nvram : list byte;
  arg_enable : list (list Z);
  arg_skip_keybag : bool;
  arg_development_activation : bool;
  arg_ephemeral_data : option (list Z);
  arg_dram : option (list Z);
}.

(** ["24G"], ["512M"], ["64K"] or a plain integer, in any base of [int(s, 0)]. *)
Definition parse_dram (dram : list Z) : res Z :=
  let v := upper (strip dram) in
  c ← opt_or (last v) IndexError;
  let mult := if c =? 71 then Some (Z.shiftl 1 30)
              else if c =? 77 then Some (Z.shiftl 1 20)
              else if c =? 75 then Some (Z.shiftl 1 10) else None in
  match mult with
  | Some m => n ← int0 (ztake (zlen v - 1) v); Ok (n * m)
  | None => int0 v
  end.

(** An option given as the empty text counts as not given. *)
Definition given (o : option (list Z)) : option (list Z) :=
  match o with Some [] => None | o => o end.

Definition config_of (a : args) : res config :=
  dram ← match given (arg_dram a) with Some t => parse_dram t | None => Ok DRAM_SIZE end;
  blocks ← match given (arg_ephemeral_data a) with
           | Some t => n ← int0 t; Ok (Some n) | None => Ok None end;
  keep ← res_map (λ f, opt_or (dget f EMULATED_FEATURES) (SystemExit "invalid choice"))
           (arg_enable a);
  Ok (Config (concat keep) blocks (arg_skip_keybag a) dram).

Definition main (a : args) : res (list byte) :=
  cfg ← config_of a;
  '(dt_root, size) ← decode_node (arg_dtree a);
  d ← fixup cfg (arg_nvram a) dt_root;
  d ← if arg_development_activation a then fixup_development_activation d else Ok d;
  encode_node d.

(** ** The marker that makes [fixup] one-shot

    [marked d]: the tree carries the loader's name, so [fixup] refuses it.
    [SameHead f]: the node operation [f] leaves a node's name and loader name
    alone; [Keeps f]: the tree operation [f] keeps the marker.  Type class
    search composes the instances along the body of [fixup]. *)

Definition marked (d : ADTNode) : Prop :=
  ∃ c, getitem d (u "chosen") = Ok c ∧
       get_prop (u "firmware-version") c = Some (VStr IBOOT_NAME).
Definition same_head (c c' : ADTNode) : Prop :=
  get_prop (u "name") c' = get_prop (u "name") c ∧
  get_prop (u "firmware-version") c' = get_prop (u "firmware-version") c.

Class SameHead (f : ADTNode → res ADTNode) :=
  same_head_pf d d' : f d = Ok d' → same_head d d'.
Class Keeps (f : ADTNode → res ADTNode) :=
  keeps_pf d d' : f d = Ok d' → marked d → marked d'.
Class OtherKey (k : list Z) :=
  other_key : bool_decide (k = u "name") = false ∧ bool_decide (k = u "firmware-version") = false.
#[export] Hint Extern 1 (OtherKey _) => (split; reflexivity) : typeclass_instances.

#[export] Instance same_head_refl : Reflexive same_head.
Proof. intros d. done. Qed.
#[export] Instance same_head_trans : Transitive same_head.
Proof. intros x y z [H1 H2] [H3 H4]. split; congruence. Qed.

Lemma find_child_app key cs cs' xs :
  Forall2 same_head cs cs' →
  ∀ i, find_child key cs = Ok (Some i) → find_child key (cs' ++ xs) = Ok (Some i).
Proof.
  induction 1 as [|c c' cs cs' [Hn _] _ IH]; intros i; cbn [find_child app]; [done|].
  unfold node_name. unfold get_prop in Hn. rewrite Hn.
  destruct (dget (u "name") (props c)) as [n|]; [|done]. cbn [opt_or]. rewrite !ok_bind.
  case_bool_decide; [done|]. intros H'. simpl_res. destruct r as [j|]; [|done].
  rewrite (IH j Hr), ok_bind. by rewrite H'.
Qed.

Lemma child_index_Ok d key msg i :
  child_index d key msg = Ok i ↔ find_child key (children d) = Ok (Some i).
Proof.
  unfold child_index. rewrite bind_Ok. split.
  - intros ([j|] & Hj & H); [by injection H as <-|]. simpl_res.
  - intros H. by exists (Some i).
Qed.

Lemma getitem_Ok d key c :
  getitem d key = Ok c ↔
  ∃ i, find_child key (children d) = Ok (Some i) ∧ children d !! i = Some c.
Proof.
  unfold getitem. rewrite bind_Ok. setoid_rewrite opt_or_Ok.
  by setoid_rewrite child_index_Ok.
Qed.

Lemma at_child_Ok key f d d' :
  at_child key f d = Ok d' →
  ∃ i c c', find_child key (children d) = Ok (Some i) ∧ children d !! i = Some c ∧
            f c = Ok c' ∧ d' = mkNode (props d) (<[i := c']> (children d)).
Proof.
  unfold at_child. rewrite bind_Ok. intros (i & Hi%child_index_Ok & H). simpl_res.
  eauto 10.
Qed.

Lemma marked_Forall2 ps cs ps' cs' xs :
  Forall2 same_head cs cs' → marked (mkNode ps cs) → marked (mkNode ps' (cs' ++ xs)).
Proof.
  intros Hall (c & (i & Hi & Hc)%getitem_Ok & Hfw). cbn [children] in *.
  destruct (Forall2_lookup_l _ _ _ _ _ Hall Hc) as (c' & Hc' & [_ Hfw']).
  exists c'. split; [|congruence]. apply getitem_Ok. exists i. cbn [children]. split.
  - by apply (find_child_app _ _ _ _ Hall).
  - rewrite lookup_app_l; [done|]. by eapply lookup_lt_Some.
Qed.
Lemma marked_same_children d d' :
  Forall2 same_head (children d) (children d') → marked d → marked d'.
Proof.
  destruct d as [ps cs], d' as [ps' cs']. intros H Hm.
  rewrite <-(app_nil_r cs'). by eapply marked_Forall2.
Qed.

Lemma Forall2_same_head_refl cs : Forall2 same_head cs cs.
Proof. induction cs; constructor; done. Qed.

#[export] Instance keeps_at_child key f : SameHead f → Keeps (at_child key f).
Proof.
  intros Hf d d' (i & c & c' & _ & Hc & Hfc & ->)%at_child_Ok.
  apply marked_same_children. cbn [children].
  rewrite <-(list_insert_id (children d) i c Hc) at 1.
  apply Forall2_insert; [apply Forall2_same_head_refl|by eapply Hf].
Qed.
#[export] Instance same_head_at_child key f : SameHead (at_child key f).
Proof. by intros d d' (i & c & c' & _ & Hc & Hfc & ->)%at_child_Ok. Qed.
#[export] Instance same_head_remove key : SameHead (remove_child key).
Proof. intros d d' H. unfold remove_child in H. by simpl_res. Qed.
#[export] Instance same_head_set k v : OtherKey k → SameHead (λ d, Ok (set_prop k v d)).
Proof.
  intros [H1 H2] d d' H. simpl_res. unfold same_head, get_prop, set_prop. cbn [props].
  apply bool_decide_eq_false in H1, H2. by rewrite !dget_dset_ne by done.
Qed.
Lemma same_head_pop k d : OtherKey k → same_head d (pop_prop k d).
Proof.
  intros [H1 H2]. unfold same_head, get_prop, pop_prop. cbn [props].
  apply bool_decide_eq_false in H1, H2. by rewrite !dget_dpop_ne by done.
Qed.
#[export] Instance keeps_put k0 p k v : OtherKey k → Keeps (put (k0 :: p) k v).
Proof.
  intros Hk. unfold put. cbn [at_path]. apply keeps_at_child. revert Hk. destruct p.
  - apply same_head_set.
  - intros _. apply same_head_at_child.
Qed.
#[export] Instance keeps_at_path k0 k1 p f : Keeps (at_path (k0 :: k1 :: p) f).
Proof. cbn [at_path]. apply keeps_at_child, same_head_at_child. Qed.
Lemma keeps_puts k0 p kvs :
  Forall (λ kv, OtherKey kv.1) kvs → Keeps (puts (k0 :: p) kvs).
Proof.
  intros Hk d d' H Hm. unfold puts in H. revert d H Hm.
  induction Hk as [|kv kvs Hkv _ IH]; intros d H Hm; cbn [res_foldl] in H; simpl_res; [done|].
  eapply IH; [exact H|]. eapply keeps_put; [exact Hkv|exact Hr|exact Hm].
Qed.

(** One application of [Keeps] along a chain of successful steps. *)
Ltac keep_step :=
  match goal with
  | M : marked ?d, H : ?f ?d = Ok ?d' |- _ =>
      let N := fresh "M" in
      assert (N : marked d') by (refine (keeps_pf (f := f) d d' H M));
      clear M; rename N into M
  end.

Lemma same_head_strip keep path : SameHead (strip_compat keep path).
Proof.
  intros d d' H. unfold strip_compat in H. destruct (kept keep path); [by simpl_res|].
  simpl_res. transitivity r.
  - clear H. destruct (get_prop (u "compatible") d); [|by simpl_res].
    simpl_res. destruct (existsb _ _); simpl_res; [done|].
    apply (same_head_pop (u "compatible")). apply _.
  - destruct (_ && _); simpl_res; [|done]. apply (same_head_pop (u "device_type")). apply _.
Qed.

Lemma same_head_del_compat keep path : SameHead (del_compat keep path).
Proof.
  intros [ps cs] d1 H. cbn [del_compat] in H. simpl_res.
  apply same_head_strip in H. exact H.
Qed.

#[export] Instance keeps_del_compat keep path : Keeps (del_compat keep path).
Proof.
  intros [ps cs] d' H. cbn [del_compat] in H. simpl_res.
  apply res_map_Ok in Hr. apply marked_same_children.
  replace (children d') with r; cbn [children].
  - eapply Forall2_impl; [exact Hr|]. intros c c' Hc. cbv beta in Hc. simpl_res.
    by eapply same_head_del_compat.
  - unfold strip_compat in H. destruct (kept keep path); [by simpl_res|]. simpl_res.
    assert (children r0 = r) as Hc.
    { destruct (get_prop _ _); simpl_res; [|done]. by destruct (existsb _ _); simpl_res. }
    by destruct (_ && _); simpl_res.
Qed.

Lemma Keeps_id : Keeps (λ d, Ok d).
Proof. intros d d' H. by simpl_res. Qed.

#[export] Instance keeps_drop_routes : Keeps drop_exclave_routes.
Proof. apply keeps_at_child. intros d d' H. by simpl_res. Qed.
#[export] Instance keeps_spmi keep : Keeps (fixup_spmi keep).
Proof.
  intros d d' H M. unfold fixup_spmi in H. destruct (negb _); [by simpl_res|].
  simpl_res. destruct (negb r0); simpl_res; [done|]. by keep_step.
Qed.
#[export] Instance keeps_darts : Keeps fixup_darts.
Proof. apply keeps_at_child. intros d d' H. by simpl_res. Qed.
#[export] Instance keeps_iops : Keeps fixup_iops.
Proof. apply keeps_at_child. intros d d' H. by simpl_res. Qed.
#[export] Instance keeps_ephemeral n : Keeps (fixup_ephemeral_data n).
Proof.
  apply keeps_at_child. intros d d' H. simpl_res. transitivity r0.
  - unfold put in Hr0. cbn [at_path] in Hr0. by apply same_head_at_child in Hr0.
  - by apply same_head_at_child in H.
Qed.
#[export] Instance keeps_keybag : Keeps fixup_skip_keybag.
Proof. apply keeps_put. apply _. Qed.
#[export] Instance keeps_sep keep : Keeps (fixup_sep keep).
Proof.
  intros d d' H M. unfold fixup_sep in H. destruct (negb _).
  - simpl_res. destruct r0; simpl_res; [|done]. by keep_step.
  - simpl_res. unfold chip_id in Hr5.
    do 5 keep_step.
    assert (marked r5) as M' by (destruct (_ && _); simpl_res; [by keep_step|done]).
    clear M. rename M' into M. destruct r7; simpl_res; [by keep_step|done].
Qed.
#[export] Instance keeps_fstab : Keeps fixup_fstab_drop_unavailable.
Proof.
  intros d d' H M. unfold fixup_fstab_drop_unavailable in H. simpl_res.
  destruct (negb r0); simpl_res; [done|]. by keep_step.
Qed.
#[export] Instance keeps_sptm : Keeps fixup_sptm.
Proof. intros d d' H M. unfold fixup_sptm in H. simpl_res. by do 2 keep_step. Qed.
#[export] Instance keeps_del_prop k : Keeps (del_prop k).
Proof. intros d d' H. unfold del_prop in H. simpl_res. by apply marked_same_children, Forall2_same_head_refl. Qed.

Lemma keeps_passes cfg : Keeps (fixup_passes cfg).
Proof.
  intros d d' H M. unfold fixup_passes in H. simpl_res. do 5 keep_step.
  assert (marked r4) as M5 by (destruct (ephemeral_data_blocks cfg); simpl_res; [by keep_step|done]).
  clear M. rename M5 into M.
  assert (marked r5) as M6 by (destruct (skip_keybag cfg); simpl_res; [by keep_step|done]).
  clear M. rename M6 into M. by do 5 keep_step.
Qed.

Lemma find_child_insert key cs i c c' :
  find_child key cs = Ok (Some i) → cs !! i = Some c →
  get_prop (u "name") c' = get_prop (u "name") c →
  find_child key (<[i := c']> cs) = Ok (Some i).
Proof.
  revert i. induction cs as [|c0 cs IH]; intros i Hi Hc Hn; [done|].
  cbn [find_child] in Hi. unfold node_name, get_prop in *.
  destruct i as [|i]; cbn in Hc.
  - injection Hc as ->. change (<[0%nat:=c']> (c :: cs)) with (c' :: cs). cbn [find_child]. unfold node_name. rewrite Hn.
    destruct (dget (u "name") (props c)) as [n|]; [|done]. cbn [opt_or] in *.
    rewrite ok_bind in *. destruct (bool_decide _); [done|].
    apply bind_Ok in Hi as ([j|] & _ & Hj); by injection Hj.
  - change (<[S i:=c']> (c0 :: cs)) with (c0 :: <[i:=c']> cs). cbn [find_child]. unfold node_name.
    destruct (dget (u "name") (props c0)) as [n|]; [|done]. cbn [opt_or] in *.
    rewrite ok_bind in *. destruct (bool_decide _); [by injection Hi|].
    apply bind_Ok in Hi as ([j|] & Hj & Hji); [|done]. injection Hji as ->.
    by rewrite (IH i Hj Hc Hn), ok_bind.
Qed.

Lemma put_marker d d' :
  put [u "chosen"] (u "firmware-version") (VStr IBOOT_NAME) d = Ok d' → marked d'.
Proof.
  intros (i & c & c' & Hi & Hc & Hf & ->)%at_child_Ok. cbn [at_path] in Hf. apply Ok_inj in Hf as <-.
  exists (set_prop (u "firmware-version") (VStr IBOOT_NAME) c). split.
  - apply getitem_Ok. exists i. cbn [children]. split.
    + apply (find_child_insert _ _ _ c); [done|done|].
      unfold get_prop, set_prop. cbn [props]. by apply dget_dset_ne.
    + apply list_lookup_insert_eq. by eapply lookup_lt_Some.
  - unfold get_prop, set_prop. cbn [props]. apply dget_dset_eq.
Qed.

Lemma keeps_cpu0 : Keeps fixup_cpu0.
Proof. apply keeps_puts. repeat (constructor; [split; reflexivity|]). constructor. Qed.
Lemma keeps_nvram nvram : Keeps (fixup_nvram nvram).
Proof. apply keeps_puts. repeat (constructor; [split; reflexivity|]). constructor. Qed.
Lemma keeps_hmac : Keeps fixup_hmac.
Proof.
  intros d d' H M. unfold fixup_hmac in H. simpl_res. destruct r0; simpl_res; [|done].
  revert H M. apply keeps_puts. repeat (constructor; [split; reflexivity|]). constructor.
Qed.
Lemma keeps_amcc : Keeps fixup_amcc.
Proof. apply _. Qed.
#[export] Existing Instances keeps_cpu0 keeps_nvram keeps_hmac keeps_amcc.

Lemma fixup_props_marks cfg nvram d d' : fixup_props cfg nvram d = Ok d' → marked d'.
Proof.
  unfold fixup_props. intros H. simpl_res.
  assert (marked r2) as M.
  { clear -Hr2. unfold puts in Hr2. cbn [res_foldl fst snd] in Hr2. simpl_res.
    apply put_marker in Hr0 as M. by keep_step. }
  do 8 keep_step.
  assert (marked (if negb (bool_decide (u "arm-io/nub-spmi0" ∈ keep_compat_paths cfg))
           then mkNode (dset (u "no-rtc") (VStr "<NULL>") (props r15)) (children r15 ++ [rtc_node])
           else r15)) as M'.
  { destruct (negb _); [|done]. destruct r15 as [ps cs]. eapply marked_Forall2, M.
    apply Forall2_same_head_refl. }
  clear M. rename M' into M. by do 2 keep_step.
Qed.

(** ** Lemmas on the single passes *)

Lemma fixup_nubs_app slot xs ys :
  fixup_nubs slot (xs ++ ys)
  = ('(s, xs') ← fixup_nubs slot xs; '(t, ys') ← fixup_nubs s ys; Ok (t, xs' ++ ys')).
Proof.
  revert slot. induction xs as [|x xs IH]; intros slot; cbn [fixup_nubs app].
  - rewrite ok_bind. cbn beta iota. by destruct (fixup_nubs slot ys) as [[t ys']|].
  - destruct (wants_region x) as [w|]; [|done]. rewrite !ok_bind, IH.
    destruct (fixup_nubs _ xs) as [[s xs']|]; [|done]. cbn.
    by destruct (fixup_nubs s ys) as [[t ys']|].
Qed.

(** The nubs [fixup_iops] looks at, in its order. *)
Definition iop_nubs (cs : list ADTNode) : list ADTNode :=
  concat (map (λ c, if dmem (u "compatible") (props c) then children c else []) cs).

Lemma fixup_iop_list_nubs slot cs slot' cs' :
  fixup_iop_list slot cs = Ok (slot', cs') →
  fixup_nubs slot (iop_nubs cs) = Ok (slot', iop_nubs cs').
Proof.
  revert slot cs'. induction cs as [|c cs IH]; intros slot cs' H; cbn [fixup_iop_list] in H.
  - by simpl_res.
  - unfold iop_nubs. cbn [map concat]. destruct (dmem (u "compatible") (props c)) eqn:Ec; cbn [negb] in H.
    + simpl_res. cbn [map concat]. cbn [set_prop props children] in *.
      rewrite fixup_nubs_app, Hr, ok_bind. cbn beta iota.
      fold (iop_nubs cs). rewrite (IH _ _ Hr0), ok_bind. cbn beta iota.
      unfold iop_nubs. cbn [map concat props children].
      assert (dmem (u "compatible") (dset (u "ignore-gating") (VStr "<NULL>") (props c)) = true) as ->.
      { unfold dmem in *. by rewrite dget_dset_ne. }
      done.
    + simpl_res. cbn [map concat]. rewrite Ec. by apply IH.
Qed.

Lemma fixup_nubs_lookup slot ns slot' ns' i x :
  fixup_nubs slot ns = Ok (slot', ns') → ns !! i = Some x →
  slot ≤ slot' ∧ ∃ w s, wants_region x = Ok w ∧ slot ≤ s ∧ (w = true → s < slot') ∧
    ns' !! i = Some (if (w : bool) then give_region s x else x).
Proof.
  revert slot ns' i. induction ns as [|y ns IH]; intros slot ns' i H Hi; [done|].
  cbn [fixup_nubs] in H. simpl_res.
  assert (∀ s t l l', fixup_nubs s l = Ok (t, l') → s ≤ t) as Hmono.
  { clear. intros s t l. revert s. induction l as [|z l IH]; intros s l' H; cbn [fixup_nubs] in H;
      simpl_res; [lia|]. apply IH in Hr0. destruct r; lia. }
  pose proof (Hmono _ _ _ _ Hr0) as Hle. destruct i as [|i].
  - injection Hi as ->. split; [destruct r; lia|].
    exists r, slot. split; [done|]. split; [lia|]. split; [intros ->; lia|done].
  - destruct (IH _ _ _ Hr0 Hi) as (_ & w & s & Hw & Hs & Hlt & Hl).
    split; [destruct r; lia|]. exists w, s. repeat split; try done. destruct r; lia.
Qed.

Lemma fixup_nubs_ordered slot ns slot' ns' i j x y :
  fixup_nubs slot ns = Ok (slot', ns') → (i < j)%nat → ns !! i = Some x → ns !! j = Some y →
  wants_region x = Ok true → wants_region y = Ok true →
  ∃ s t, ns' !! i = Some (give_region s x) ∧ ns' !! j = Some (give_region t y) ∧
         slot ≤ s ∧ s < t.
Proof.
  revert slot ns' i j. induction ns as [|z ns IH]; intros slot ns' i j H Hij Hi Hj Hx Hy; [done|].
  cbn [fixup_nubs] in H. simpl_res. destruct i as [|i], j as [|j]; try lia.
  - injection Hi as ->. rewrite Hx in Hr. apply Ok_inj in Hr as <-.
    destruct (fixup_nubs_lookup _ _ _ _ _ _ Hr0 Hj) as (_ & w & t & Hw & Ht & _ & Hl).
    rewrite Hy in Hw. apply Ok_inj in Hw as <-. exists slot, t. repeat split; try done; lia.
  - destruct (IH _ _ i j Hr0 ltac:(lia) Hi Hj Hx Hy) as (s & t & H1 & H2 & H3 & H4).
    exists s, t. repeat split; try done. destruct r; lia.
Qed.

Lemma at_child_getitem key f d d' c :
  at_child key f d = Ok d' → getitem d key = Ok c →
  (∀ c', f c = Ok c' → get_prop (u "name") c' = get_prop (u "name") c) →
  ∃ c', f c = Ok c' ∧ getitem d' key = Ok c'.
Proof.
  intros (i & c0 & c' & Hi & Hc & Hf & ->)%at_child_Ok (j & Hj & Hcj)%getitem_Ok Hn.
  rewrite Hi in Hj. injection Hj as <-. rewrite Hc in Hcj. injection Hcj as ->.
  exists c'. split; [done|]. apply getitem_Ok. exists i. cbn [children]. split.
  - apply (find_child_insert _ _ _ c); auto.
  - apply list_lookup_insert_eq. by eapply lookup_lt_Some.
Qed.

Lemma number_darts_ids n cs :
  map (get_prop (u "dart-id")) (base.filter (λ c, is_dart c = true) (number_darts n cs))
  = map (λ i, Some (VStr (u "u32:" ++ dec i)))
        (seqZ n (zlen (base.filter (λ c, is_dart c = true) cs))).
Proof.
  revert n. induction cs as [|c cs IH]; intros n; cbn [number_darts]; [done|].
  destruct (is_dart c) eqn:E.
  - rewrite !filter_cons. rewrite (decide_True (P := is_dart c = true)) by done.
    assert (is_dart (set_prop (u "dart-id") (VStr (u "u32:" ++ dec n)) c) = true) as E'.
    { unfold is_dart, get_prop, dmem, set_prop in *. cbn [props].
      by rewrite !dget_dset_ne by done. }
    rewrite decide_True by done. cbn [map]. rewrite IH, zlen_cons.
    match goal with |- context [seqZ _ (1 + zlen ?l)] => pose proof (zlen_nonneg l) end.
    rewrite (seqZ_cons n) by lia.
    cbn [map]. rewrite (Z.add_1_l (zlen _)), Z.pred_succ.
    f_equal. unfold get_prop, set_prop. cbn [props]. apply dget_dset_eq.
  - rewrite !filter_cons, !(decide_False (P := is_dart c = true)) by by rewrite E. apply IH.
Qed.

(** Every node of the tree, with its path, is under a kept path, has no
    [compatible] left, or names a supported driver. *)
Definition compat_allowed (keep : list (list Z)) (path : list Z) (d : ADTNode) : bool :=
  kept keep path
  || match get_prop (u "compatible") d with
     | None => true
     | Some v => match compat_bytes v with
                 | Ok compat => existsb (λ x, contains x compat) SUPPORTED_DRIVERS
                 | Raise _ => false
                 end
     end.
Fixpoint only_supported (keep : list (list Z)) (path : list Z) (d : ADTNode) : bool :=
  match d with
  | mkNode ps cs =>
      compat_allowed keep path (mkNode ps cs)
      && forallb (λ c, match node_name c ≫= joins_path path (mkNode ps []) with
                       | Ok path' => only_supported keep path' c
                       | Raise _ => false
                       end) cs
  end.

Lemma strip_compat_allowed keep path d d' :
  dict_wf (props d) → strip_compat keep path d = Ok d' →
  compat_allowed keep path d' = true ∧ children d' = children d ∧ same_head d d'.
Proof.
  intros Hwf H. pose proof (same_head_strip _ _ _ _ H) as Hh.
  unfold strip_compat in H. unfold compat_allowed. destruct (kept keep path); [by simpl_res|].
  simpl_res. cbn [orb].
  assert (children r = children d ∧
    match get_prop (u "compatible") r with
    | None => true
    | Some v => match compat_bytes v with
                | Ok compat => existsb (λ x, contains x compat) SUPPORTED_DRIVERS
                | Raise _ => false
                end
    end = true) as [Hc Ha].
  { destruct (get_prop (u "compatible") d) as [v|] eqn:E; simpl_res; [|by rewrite E].
    destruct (existsb (λ x, contains x r0) SUPPORTED_DRIVERS) eqn:Ex; simpl_res;
      [by rewrite E, Hr0|].
    split; [done|]. unfold get_prop, pop_prop. cbn [props]. by rewrite dget_dpop_eq. }
  destruct (_ && _); simpl_res; [|done].
  split; [|done]. unfold get_prop, pop_prop in *. cbn [props]. by rewrite dget_dpop_ne.
Qed.

(** The dictionaries of a tree have no key twice; decoding makes only such. *)
Fixpoint tree_wf (d : ADTNode) : bool :=
  match d with
  | mkNode ps cs => bool_decide (NoDup (dkeys ps)) && forallb tree_wf cs
  end.

Lemma del_compat_only_supported keep d : ∀ path d',
  tree_wf d = true → del_compat keep path d = Ok d' → only_supported keep path d' = true.
Proof.
  induction d as [ps cs IH] using ADTNode_nested_ind. intros path d' Hwf H.
  cbn [tree_wf] in Hwf. apply andb_true_iff in Hwf as [Hps%bool_decide_eq_true Hcs].
  cbn [del_compat] in H. simpl_res.
  destruct (strip_compat_allowed keep path (mkNode ps r) d' Hps H) as (Ha & Hc & [Hn _]).
  destruct d' as [ps' cs']. cbn [children] in Hc. subst cs'.
  cbn [only_supported]. rewrite Ha. cbn [andb]. apply res_map_Ok in Hr.
  clear H Ha Hps. revert Hcs IH. induction Hr as [|c c' cs cs' Hc _ IHl]; intros Hcs IH; [done|].
  cbn [forallb] in *. apply andb_true_iff in Hcs as [Hwc Hcs].
  apply Forall_cons in IH as [IHc IH]. rewrite (IHl Hn Hcs IH), andb_true_r. clear IHl IH.
  cbv beta in Hc. apply bind_Ok in Hc as (n & Hnm & Hc).
  apply bind_Ok in Hc as (path' & Hp & Hc). pose proof (same_head_del_compat _ _ _ _ Hc) as [Hnc _].
  unfold node_name in *. unfold get_prop in Hnc. rewrite Hnc, Hnm, ok_bind.
  assert (joins_path path (mkNode ps' []) n = Ok path') as ->.
  { rewrite <-Hp. unfold joins_path. by replace (get_prop (u "name") (mkNode ps' []))
      with (get_prop (u "name") (mkNode ps [])). }
  by apply (IHc path').
Qed.

(** *** An IPSW tree in small, used by the witnesses *)
Definition named (n : string) (ps : list (list Z * pval)) (cs : list ADTNode) : ADTNode :=
  mkNode ((u "name", VStr n) :: ps) cs.
Definition sample_arm_io : ADTNode :=
  named "arm-io" [(u "compatible", VStr "arm-io,t8140"); (u "soc-generation", VStr "H17")]
    [named "uart0" [(u "AAPL,phandle", VStr "u32:0x41"); (u "compatible", VStr "uart-1,samsung")] [];
     named "aic" [(u "compatible", VStr "aic,3")] [];
     named "dart-dcp" [(u "compatible", VStr "dart,t8110"); (u "device_type", VStr "dart")] [];
     named "dart-sep" [(u "compatible", VStr "dart,t8110"); (u "device_type", VStr "dart")] [];
     named "dart-ave" [(u "compatible", VStr "dart,t8110"); (u "device_type", VStr "dart")] [];
     named "dcp" [(u "compatible", VStr "iop,ascwrap-v6")]
       [named "iop-dcp-nub" [(u "compatible", VStr "iop-nub,rtbuddy-v2"); (u "routes", VStr "u32:0x7")] []];
     named "ans" [(u "compatible", VStr "iop,ascwrap-v6")]
       [named "iop-ans-nub" [(u "compatible", VStr "iop-nub,rtbuddy-v2");
                             (u "region-base", VStr "u64:0x0")] []];
     named "smc" [(u "compatible", VStr "iop,ascwrap-v6")]
       [named "iop-smc-nub" [(u "compatible", VStr "iop-nub,rtbuddy-v2");
                             (u "region-base", VStr "u64:0x30de00000")] []];
     named "sep" [(u "compatible", VStr "iop-sep,ascwrap-v6")]
       [named "iop-sep-nub" [(u "compatible", VStr "iop-nub,sep")]
          [named "InvalidateHmac" [] []; named "xART" [] []]];
     named "sgx" [] []; named "dockchannel-uart" [] []].
Definition sample_ipsw : ADTNode :=
  named "device-tree" [(u "secure-root-prefix", VStr "md"); (u "compatible", VStr "D47AP")]
    [named "chosen" [(u "random-seed", VBytes (replicate 64 x00)); (u "chip-id", VStr "u32:0x0")]
       [named "memory-map" [] [];
        named "lock-regs" []
          [named "amcc" [] [named "amcc-ctrr-a" [] []; named "amcc-ctrr-b" [] [];
                            named "amcc-ctrr-c" [] []; named "amcc-ctrr-d" [] []]]];
     named "cpus" [] [named "cpu0" [] []];
     named "defaults" [] [];
     named "product" [] [];
     named "filesystems" []
       [named "fstab" [(u "max_fs_entries", VStr "u32:0x4")]
          [named "v0" [(u "vol.fs_name", VStr "xART")] []; named "v1" [(u "vol.fs_name", VStr "Data")] [];
           named "v2" [(u "vol.fs_name", VStr "Preboot")] []; named "v3" [(u "vol.fs_name", VStr "Update")] []];
        named "fstab-ephemeral-recovery-data" []
          [named "r0" [(u "vol.fs_mntopts", VStr "rw,size=524288,nobrowse")] []]];
     sample_arm_io].
Definition sample_config : config :=
  Config (concat (map snd EMULATED_FEATURES)) (Some 8388608) true DRAM_SIZE.
Definition sample_fixed : ADTNode :=
  match fixup sample_config (b "nvram") sample_ipsw with Ok d => d | Raise _ => empty_node end.

(** ** Properties *)

(** C23: [fixup] is one-shot.  A tree it produced carries the loader's name
    through every later pass, so a second [fixup], under any options, stops
    with the [SystemExit] that says so instead of failing inside a pass. *)
Theorem fixup_is_one_shot cfg nvram cfg' nvram' d d' :
  fixup cfg nvram d = Ok d' →
  fixup cfg' nvram' d'
  = Raise (SystemExit "error: this device tree has already been patched by dt_fixup").
Proof.
  unfold fixup at 1. intros H. simpl_res. apply fixup_props_marks in Hr0.
  destruct (keeps_passes _ _ _ H Hr0) as (c & Hc & Hfw).
  unfold fixup. rewrite Hc, ok_bind, Hfw. by rewrite bool_decide_eq_true_2.
Qed.

Lemma fixup_is_one_shot_witness :
  fixup sample_config (b "nvram") sample_ipsw = Ok sample_fixed ∧
  fixup (Config [] None false 1) [] sample_fixed
  = Raise (SystemExit "error: this device tree has already been patched by dt_fixup").
Proof.
  assert (H : fixup sample_config (b "nvram") sample_ipsw = Ok sample_fixed)
    by (vm_compute; reflexivity).
  split; [exact H|].
  exact (fixup_is_one_shot sample_config (b "nvram") _ _ sample_ipsw sample_fixed H).
Defined.

(** No two coprocessors share memory.  Every RTBuddy nub without a
    firmware region of its own gets the four properties of a region; the
    regions of two such nubs lie apart, in the order of the nubs; every other
    nub is left as it was. *)
Theorem iop_regions_disjoint d d' arm :
  getitem d (u "arm-io") = Ok arm → fixup_iops d = Ok d' →
  ∃ arm', getitem d' (u "arm-io") = Ok arm' ∧
    (∀ i j x y, (i < j)%nat →
       iop_nubs (children arm) !! i = Some x → iop_nubs (children arm) !! j = Some y →
       wants_region x = Ok true → wants_region y = Ok true →
       ∃ s t, iop_nubs (children arm') !! i = Some (give_region s x) ∧
              iop_nubs (children arm') !! j = Some (give_region t y) ∧
              IOP_REGION_BASE ≤ region_base s ∧
              region_base s + IOP_REGION_SIZE ≤ region_base t) ∧
    (∀ i x, iop_nubs (children arm) !! i = Some x → wants_region x = Ok false →
            iop_nubs (children arm') !! i = Some x).
Proof.
  intros Harm H. destruct (at_child_getitem _ _ _ _ _ H Harm) as (arm' & Hf & Harm').
  { intros c' Hc. by simpl_res. }
  simpl_res. apply fixup_iop_list_nubs in Hr. eexists. split; [exact Harm'|]. cbn [children]. split.
  - intros i j x y Hij Hi Hj Hx Hy.
    destruct (fixup_nubs_ordered _ _ _ _ _ _ _ _ Hr Hij Hi Hj Hx Hy)
      as (s & t & H1 & H2 & Hs & Hst).
    exists s, t. do 2 (split; [done|]).
    unfold region_base, IOP_REGION_BASE, IOP_REGION_SIZE, IOP_REGION_STRIDE. lia.
  - intros i x Hi Hx. destruct (fixup_nubs_lookup _ _ _ _ _ _ Hr Hi) as (_ & w & s & Hw & _ & _ & Hl).
    rewrite Hx in Hw. by apply Ok_inj in Hw as <-.
Qed.

Lemma iop_regions_disjoint_witness :
  ∃ d', fixup_iops sample_ipsw = Ok d' ∧ ∃ arm', getitem d' (u "arm-io") = Ok arm' ∧
    ∃ s t x y, iop_nubs (children arm') !! 0%nat = Some (give_region s x) ∧
               iop_nubs (children arm') !! 1%nat = Some (give_region t y) ∧
               IOP_REGION_BASE ≤ region_base s ∧ region_base s + IOP_REGION_SIZE ≤ region_base t.
Proof.
  eexists. split; [vm_compute; reflexivity|].
  destruct (iop_regions_disjoint sample_ipsw _ sample_arm_io
              ltac:(vm_compute; reflexivity) ltac:(vm_compute; reflexivity))
    as (arm' & Harm & Hdisj & _).
  exists arm'. split; [exact Harm|].
  assert (∃ x, iop_nubs (children sample_arm_io) !! 0%nat = Some x ∧ wants_region x = Ok true)
    as (x & Hx & Hwx) by (eexists; split; [vm_compute; reflexivity|vm_compute; reflexivity]).
  assert (∃ y, iop_nubs (children sample_arm_io) !! 1%nat = Some y ∧ wants_region y = Ok true)
    as (y & Hy & Hwy) by (eexists; split; [vm_compute; reflexivity|vm_compute; reflexivity]).
  destruct (Hdisj 0%nat 1%nat x y ltac:(lia) Hx Hy Hwx Hwy) as (s & t & H).
  exists s, t, x, y. exact H.
Defined.

(** C36: after [del_compat] a driver can bind only to a node under one of the
    kept paths or to a node that names a supported driver: every other node
    of the tree has lost its [compatible]. *)
Theorem del_compat_sound keep path d d' :
  tree_wf d = true → del_compat keep path d = Ok d' → only_supported keep path d' = true.
Proof. apply del_compat_only_supported. Qed.

Lemma del_compat_sound_witness :
  ∃ d', del_compat [u "arm-io/dcp"] [] sample_ipsw = Ok d' ∧
        only_supported [u "arm-io/dcp"] [] d' = true ∧
        only_supported [u "arm-io/dcp"] [] sample_ipsw = false.
Proof.
  eexists. split; [vm_compute; reflexivity|]. split; [|vm_compute; reflexivity].
  apply (del_compat_sound [u "arm-io/dcp"] [] sample_ipsw); vm_compute; reflexivity.
Defined.

(** the DARTs that keep a driver carry the ids [0, 1, 2, ...] in the order
    of the tree, so no two of them share one. *)
Theorem dart_ids_unique d d' arm :
  getitem d (u "arm-io") = Ok arm → fixup_darts d = Ok d' →
  ∃ arm', getitem d' (u "arm-io") = Ok arm' ∧
    let ids := map (get_prop (u "dart-id"))
                 (base.filter (λ c, is_dart c = true) (children arm')) in
    ids = map (λ i, Some (VStr (u "u32:" ++ dec i)))
            (seqZ 0 (zlen (base.filter (λ c, is_dart c = true) (children arm)))) ∧
    NoDup ids.
Proof.
  intros Harm H. destruct (at_child_getitem _ _ _ _ _ H Harm) as (arm' & Hf & Harm').
  { intros c' Hc. by simpl_res. }
  apply Ok_inj in Hf as <-. eexists. split; [exact Harm'|]. cbn [children].
  rewrite number_darts_ids. split; [done|].
  apply NoDup_fmap_2_strong; [|apply NoDup_seqZ].
  intros i j Hi%elem_of_seqZ Hj%elem_of_seqZ Hij. injection Hij as Hij.
  apply (f_equal int0) in Hij. rewrite !int0_dec in Hij by lia. by apply Ok_inj in Hij.
Qed.

Lemma dart_ids_unique_witness :
  ∃ d' arm', fixup_darts sample_ipsw = Ok d' ∧ getitem d' (u "arm-io") = Ok arm' ∧
    NoDup (map (get_prop (u "dart-id")) (base.filter (λ c, is_dart c = true) (children arm'))) ∧
    map (get_prop (u "dart-id")) (base.filter (λ c, is_dart c = true) (children arm'))
    = [Some (VStr "u32:0"); Some (VStr "u32:1"); Some (VStr "u32:2")].
Proof.
  assert (∃ d', fixup_darts sample_ipsw = Ok d') as [d' Hd]
    by (eexists; vm_compute; reflexivity).
  destruct (dart_ids_unique sample_ipsw d' sample_arm_io ltac:(vm_compute; reflexivity) Hd)
    as (arm' & Harm & Hids & Hnd).
  exists d', arm'. split; [exact Hd|]. split; [exact Harm|]. split; [exact Hnd|].
  rewrite Hids. vm_compute. reflexivity.
Defined.

(** the mount table keeps exactly the volumes a disk image can have, its
    [max_fs_entries] counts them when an entry was dropped, no other property
    changes, and a second pass changes nothing. *)
Theorem fstab_entries_available tab :
  let tab' := drop_entries tab in
  children tab' = base.filter (λ v, available v = true) (children tab) ∧
  (∀ k, k ≠ u "max_fs_entries" → get_prop k tab' = get_prop k tab) ∧
  get_prop (u "max_fs_entries") tab'
  = (if bool_decide (Forall (λ v, available v = true) (children tab))
     then get_prop (u "max_fs_entries") tab
     else (λ _, VStr (u "u32:" ++ dec (zlen (children tab')))) <$> get_prop (u "max_fs_entries") tab) ∧
  drop_entries tab' = tab'.
Proof.
  assert (∀ t, base.filter (λ v, available v = true) (children t) = children t →
               drop_entries t = t) as Hfix.
  { intros [ps cs] H. unfold drop_entries. cbn [children props] in *. by rewrite H, Z.sub_diag. }
  cbv zeta. unfold get_prop. rewrite (Hfix (drop_entries tab)).
  2:{ unfold drop_entries. cbn [children]. rewrite list_filter_filter.
      apply list_filter_iff. tauto. }
  unfold drop_entries. cbn [children props].
  set (cs := base.filter _ (children tab)).
  split; [done|]. split; [|split; [|done]].
  - intros k Hk. destruct (_ && _); [by apply dget_dset_ne|done].
  - case_bool_decide as Hall.
    + assert (cs = children tab) as -> by by apply filter_all.
      by rewrite Z.sub_diag.
    + assert (length cs < length (children tab))%nat as Hlt.
      { apply not_Forall_Exists in Hall; [|intros ?; apply _].
        apply Exists_exists in Hall as (v & Hv & Hnv). by apply (length_filter_lt _ _ v). }
      unfold zlen. rewrite (proj2 (Z.eqb_neq _ _)) by lia. cbn [negb andb]. unfold dmem.
      destruct (dget (u "max_fs_entries") (props tab)) eqn:E; [apply dget_dset_eq|done].
Qed.

(** [-dram] accepts a size with its unit: the decimal size followed by [G]
    is that many gigabytes, whatever the size. *)
Theorem parse_dram_gigabytes n :
  0 ≤ n → parse_dram (dec n ++ u "G") = Ok (n * 2 ^ 30).
Proof.
  intros Hn. unfold parse_dram.
  assert (Forall (λ c, is_space c = false) (dec n ++ u "G")) as Hsp.
  { apply Forall_app. split; [|by repeat constructor]. unfold dec.
    rewrite (proj2 (Z.ltb_ge _ _)) by lia. by apply digits_no_space. }
  rewrite strip_id by done.
  assert (upper (dec n ++ u "G") = dec n ++ u "G") as ->.
  { unfold upper. rewrite map_app. f_equal. unfold dec. rewrite (proj2 (Z.ltb_ge _ _)) by lia.
    rewrite <-(list_fmap_id (digits_of 10 n)) at 2. apply list_fmap_ext.
    intros i c Hc. pose proof (digits_of_Forall (λ c, is_lower c = false) 10 n ltac:(lia) Hn) as Hall.
    rewrite Forall_lookup in Hall. rewrite (Hall ltac:(clear; intros; unfold is_lower, digit_char;
      destruct (d <? 10) eqn:E; lia) i c Hc). done. }
  change (u "G") with [71]. rewrite last_snoc. cbn [opt_or]. rewrite ok_bind.
  cbn [Z.eqb Pos.eqb]. rewrite zlen_app.
  change (zlen [71]) with 1. rewrite Z.add_simpl_r, ztake_app_exact by done.
  rewrite int0_dec, ok_bind by done. done.
Qed.

Lemma parse_dram_gigabytes_witness :
  0 ≤ 24 ∧ parse_dram (dec 24 ++ u "G") = Ok (24 * 2 ^ 30).
Proof. split; [lia|]. apply (parse_dram_gigabytes 24). lia. Defined.
