(* ===== verification/DtPatch.v ===== *)
(** * The lossless device tree editor of [tools/dt_patch.py]

    Its codec keeps every property as raw bytes with the high bit of the
    length word ("placeholder"), so that a tree already fixed up survives a
    second pass byte for byte.  A node is mutable in the source and reached
    through [find]; nothing else refers to it, so [find(root, path).set(...)]
    is an update of the tree at a path. *)

From stdpp Require Import base tactics list list_numbers strings sets.
From Stdlib Require Import Strings.Byte.
From S2P Require Import Prelude PyBytes PyStr AdtCodec.
Open Scope Z_scope.

(** ** Data *)

Record DProp := mkProp { pname : list Z; pflags : Z; pval_raw : list byte }.
Inductive DNode := mkDNode (dprops : list DProp) (dchildren : list DNode).
Definition dprops (n : DNode) : list DProp := match n with mkDNode p _ => p end.
Definition dchildren (n : DNode) : list DNode := match n with mkDNode _ c => c end.

#[export] Instance DProp_eq_dec : EqDecision DProp.
Proof. solve_decision. Defined.

(** [v.split(b"\0")[0].decode("utf8", "replace")] *)
Definition field_name (v : list byte) : list Z := utf8_replace (before x00 v).

Fixpoint find_prop (key : list Z) (ps : list DProp) : option DProp :=
  match ps with
  | [] => None
  | p :: ps => if decide (pname p = key) then Some p else find_prop key ps
  end.

Definition name (n : DNode) : option (list Z) :=
  option_map (λ p, field_name (pval_raw p)) (find_prop (u "name") (dprops n)).

Definition get (key : list Z) (n : DNode) : option (list byte) :=
  option_map pval_raw (find_prop key (dprops n)).

Fixpoint set_props (key : list Z) (val : list byte) (ps : list DProp) : list DProp :=
  match ps with
  | [] => [mkProp key 0 val]
  | p :: ps => if decide (pname p = key) then mkProp key (pflags p) val :: ps
               else p :: set_props key val ps
  end.
Definition set (key : list Z) (val : list byte) (n : DNode) : DNode :=
  mkDNode (set_props key val (dprops n)) (dchildren n).

(** The properties left and whether one was there. *)
Fixpoint delete_props (key : list Z) (ps : list DProp) : list DProp * bool :=
  match ps with
  | [] => ([], false)
  | p :: ps => if decide (pname p = key) then (ps, true)
               else let '(ps, ok) := delete_props key ps in (p :: ps, ok)
  end.
Definition delete (key : list Z) (n : DNode) : DNode * bool :=
  let '(ps, ok) := delete_props key (dprops n) in (mkDNode ps (dchildren n), ok).

(** ** The codec *)

Definition roundup4_bits (n : Z) : Z := Z.land (n + 3) (Z.lnot 3).

Fixpoint decode_props_at (fuel : nat) (nprops : Z) (buf : list byte) (off : Z) (ps : list DProp)
  : res (list DProp * Z) :=
  if nprops <=? 0 then Ok (ps, off)
  else match fuel with
       | O => Raise OutOfFuel
       | S fuel =>
           let nm := field_name (slice off (off + 32) buf) in
           raw_len ← unpack_from_I buf (off + 32);
           let flags := Z.land raw_len 0x80000000 in
           let plen := Z.land raw_len (Z.lnot 0x80000000) in
           let val := slice (off + 36) (off + 36 + plen) buf in
           decode_props_at fuel (nprops - 1) buf (off + 36 + roundup4_bits plen)
             (ps ++ [mkProp nm flags val])
       end.

(** The child loop, for a decoder [dec] of the node at an offset. *)
Fixpoint decode_children_at {N} (dec : Z → res (N * Z)) (fuel : nat) (nchild off : Z)
    (cs : list N) : res (list N * Z) :=
  if nchild <=? 0 then Ok (cs, off)
  else match fuel with
       | O => Raise OutOfFuel
       | S fuel => '(c, off) ← dec off;
                   decode_children_at dec fuel (nchild - 1) off (cs ++ [c])
       end.

(** [struct.unpack_from("<II", buf, off)] *)
Definition unpack_from_II (buf : list byte) (off : Z) : res (Z * Z) :=
  unpack_II (slice off (off + 8) buf).

Fixpoint decode_fuel (fuel : nat) (buf : list byte) (off : Z) : res (DNode * Z) :=
  match fuel with
  | O => Raise OutOfFuel
  | S fuel =>
      '(nprops, nchild) ← unpack_from_II buf off;
      '(ps, off) ← decode_props_at (S (length buf)) nprops buf (off + 8) [];
      '(cs, off) ← decode_children_at (decode_fuel fuel buf) (S (length buf)) nchild off [];
      Ok (mkDNode ps cs, off)
  end.
Definition decode (buf : list byte) (off : Z) : res (DNode * Z) :=
  decode_fuel (S (length buf)) buf off.

Definition encode_prop (p : DProp) : res (list byte) :=
  raise_if 32 <=? zlen (pname p) with AssertionError ;;
  nm ← utf8_encode (pname p);
  w ← pack_I (Z.lor (zlen (pval_raw p)) (pflags p));
  Ok (ljust 32 x00 nm ++ w ++ ljust (roundup4_bits (zlen (pval_raw p))) x00 (pval_raw p)).
Fixpoint encode (n : DNode) : res (list byte) :=
  match n with
  | mkDNode ps cs =>
      h ← pack_II (zlen ps) (zlen cs);
      out ← res_foldl (λ out p, e ← encode_prop p; Ok (out ++ e)) h ps;
      res_foldl (λ out c, e ← encode c; Ok (out ++ e)) out cs
  end.

(** ** The command line *)

Definition parse_value (v : list Z) : res (list byte) :=
  if bool_decide (v = u "NULL" ∨ v = u "<NULL>" ∨ v = u "") then Ok []
  else if startswith (u "u32:") v then n ← int0 (zdrop 4 v); pack_I n
  else if startswith (u "u64:") v then n ← int0 (zdrop 4 v); pack_Q n
  else if startswith (u "hex:") v then fromhex (zdrop 4 v)
  else enc ← utf8_encode v; Ok (enc ++ [x00]).

Fixpoint child_index (nm : list Z) (cs : list DNode) : option nat :=
  match cs with
  | [] => None
  | c :: cs => if decide (name c = Some nm) then Some 0%nat
               else option_map S (child_index nm cs)
  end.

(** [find(root, path)], as an update of the node found. *)
Fixpoint at_node (path : list (list Z)) (f : DNode → res DNode) (n : DNode) : res DNode :=
  match path with
  | [] => f n
  | part :: path =>
      match child_index part (dchildren n) with
      | None => Raise (SystemExit "dt_patch: no node")
      | Some i =>
          c ← opt_or (dchildren n !! i) IndexError;
          c' ← at_node path f c;
          Ok (mkDNode (dprops n) (<[i := c']> (dchildren n)))
      end
  end.

(** [s.partition(sep)] and [s.rpartition(sep)], without the separator. *)
Fixpoint partition1 (sep : Z) (s : list Z) : list Z * list Z :=
  match s with
  | [] => ([], [])
  | c :: s => if decide (c = sep) then ([], s)
              else let '(l, r) := partition1 sep s in (c :: l, r)
  end.
Definition rpartition1 (sep : Z) (s : list Z) : list Z * list Z :=
  if bool_decide (sep ∈ s)
  then let '(l, r) := partition1 sep (reverse s) in (reverse r, reverse l)
  else ([], s).

Definition apply_set (root : DNode) (s : list Z) : res DNode :=
  let '(loc, val) := partition1 61 s in
  let '(path, key) := rpartition1 58 loc in
  at_node (split1 47 path) (λ n, v ← parse_value val; Ok (set key v n)) root.
Definition apply_del (root : DNode) (d : list Z) : res DNode :=
  let '(path, key) := rpartition1 58 d in
  at_node (split1 47 path) (λ n, Ok (delete key n).1) root.

Definition main (infile : list byte) (sets dels : list (list Z)) : res (list byte) :=
  '(root, used) ← decode infile 0;
  root ← res_foldl apply_set root sets;
  root ← res_foldl apply_del root dels;
  encode root.

Fixpoint DNode_nested_ind (P : DNode → Prop)
    (H : ∀ ps cs, Forall P cs → P (mkDNode ps cs)) (n : DNode) : P n :=
  match n with
  | mkDNode ps cs =>
      H ps cs ((fix go cs : Forall P cs :=
                  match cs with
                  | [] => Forall_nil_2 P
                  | c :: cs => Forall_cons_2 P c cs (DNode_nested_ind P H c) (go cs)
                  end) cs)
  end.

(** ** Lemmas on the codec *)

Lemma roundup4_bits_eq n : roundup4_bits n = roundup4 n.
Proof. apply land_lnot3. Qed.

Lemma utf8_replace_encode s e : utf8_encode s = Ok e → utf8_replace e = s.
Proof.
  intros H%utf8_decode_encode. unfold utf8_decode in H. simpl_res.
  unfold utf8_replace. revert s H. generalize (utf8_items 0 (map b2z e)).
  induction l as [|[c|] l IH]; intros s H; cbn in H; [by injection H as <-| |done].
  apply bind_Some in H as (s' & Hs' & [= <-]). cbn [map]. by rewrite (IH _ Hs').
Qed.

Lemma utf8_enc_nonzero c : valid_cp c → c ≠ 0 → x00 ∉ utf8_enc c.
Proof.
  unfold valid_cp. intros [Hr _] Hc.
  assert (∀ z, 0 < z < 256 → x00 ≠ z2b z) as Hz.
  { intros z Hz E. apply (f_equal b2z) in E. rewrite b2z_z2b, Z.mod_small in E by lia.
    change (b2z x00) with 0 in E. lia. }
  pose proof (Z.mod_pos_bound c 64 ltac:(lia)).
  pose proof (Z.mod_pos_bound (c / 64) 64 ltac:(lia)).
  pose proof (Z.mod_pos_bound (c / 4096) 64 ltac:(lia)).
  assert (0 ≤ c / 64 ∧ 0 ≤ c / 4096 ∧ 0 ≤ c / 262144) as (? & ? & ?)
    by (repeat split; apply Z.div_pos; lia).
  unfold utf8_enc. repeat case_match; rewrite !elem_of_cons;
    intros Hin; destruct_or! Hin; try by apply elem_of_nil in Hin.
  all: revert Hin; apply Hz.
  all: try lia.
  - assert (c / 64 < 32) by (apply Z.div_lt_upper_bound; lia). lia.
  - assert (c / 4096 < 16) by (apply Z.div_lt_upper_bound; lia). lia.
  - assert (c / 262144 < 5) by (apply Z.div_lt_upper_bound; lia). lia.
Qed.

Lemma utf8_encode_nonzero s e : utf8_encode s = Ok e → 0 ∉ s → x00 ∉ e.
Proof.
  unfold utf8_encode. case_bool_decide as Hv; [|done]. intros [= <-] H0.
  intros Hin. apply list_elem_of_In, in_concat in Hin as (w & Hw & Hin).
  apply in_map_iff in Hw as (c & <- & Hc). apply list_elem_of_In in Hc, Hin.
  rewrite Forall_forall in Hv. revert Hin. apply utf8_enc_nonzero; [auto|]. by intros ->.
Qed.

(** A NUL-padded name field reads back as the name. *)
Lemma field_name_padded s e n :
  utf8_encode s = Ok e → 0 ∉ s → field_name (ljust n x00 e) = s.
Proof.
  intros He H0. unfold field_name, ljust. pose proof (utf8_encode_nonzero _ _ He H0) as Hnz.
  destruct (Z.to_nat (n - zlen e)); cbn [replicate].
  - rewrite app_nil_r, before_id by done. by apply utf8_replace_encode.
  - rewrite before_app by done. by apply utf8_replace_encode.
Qed.

(** ** Well-formed trees: what the format can hold *)

Definition wf_prop (p : DProp) : bool :=
  match utf8_encode (pname p) with
  | Ok e => (zlen e <? 32) && bool_decide (0 ∉ pname p)
            && bool_decide (pflags p = 0 ∨ pflags p = 0x80000000)
            && (zlen (pval_raw p) <? 2 ^ 31)
  | Raise _ => false
  end.
Fixpoint wf_node (n : DNode) : bool :=
  match n with
  | mkDNode ps cs =>
      forallb wf_prop ps && (zlen ps <? 2 ^ 32) && (zlen cs <? 2 ^ 32) && forallb wf_node cs
  end.

Definition prop_read (p : DProp) (e : list byte) : Prop :=
  36 ≤ zlen e ∧
  ∀ fuel n pre rest ps, 0 < n →
    decode_props_at (S fuel) n (pre ++ e ++ rest) (zlen pre) ps
    = decode_props_at fuel (n - 1) (pre ++ e ++ rest) (zlen pre + zlen e) (ps ++ [p]).

Lemma encode_prop_read p : wf_prop p = true → ∃ e, encode_prop p = Ok e ∧ prop_read p e.
Proof.
  destruct p as [nm fl v]. unfold wf_prop, encode_prop. cbn [pname pflags pval_raw].
  destruct (utf8_encode nm) as [ke|] eqn:Hke; [|done].
  rewrite !andb_true_iff, !bool_decide_eq_true. intros [[[Hlen H0] Hfl] Hv].
  pose proof (utf8_encode_length _ _ Hke). pose proof (zlen_nonneg v). pose proof (zlen_nonneg ke).
  destruct (flagged_length (zlen v) fl) as (Hw & Hf & Hl); [lia|done|].
  rewrite (proj2 (Z.leb_gt 32 (zlen nm))) by lia. rewrite ok_bind.
  pose proof (proj2 (pack_u_Ok 4 _ _) (conj Hw eq_refl)) as Hpack.
  unfold pack_I. rewrite Hpack, ok_bind, roundup4_bits_eq.
  eexists. split; [done|].
  pose proof (field_name_padded nm ke 32 Hke H0) as Hname.
  assert (zlen (ljust 32 x00 ke) = 32) as Hl32 by (rewrite zlen_ljust; lia).
  pose proof (pack_u_length _ _ _ Hpack) as Hlw.
  pose proof (roundup4_spec (zlen v)) as [Hr _].
  set (field := ljust 32 x00 ke) in *. set (w := le_bytes 4 (Z.lor (zlen v) fl)) in *.
  set (pv := ljust (roundup4 (zlen v)) x00 v).
  assert (zlen pv = roundup4 (zlen v)) as Hpv by (unfold pv; rewrite zlen_ljust; lia).
  assert (ztake (zlen v) pv = v) as Htake by (unfold pv, ljust; by apply ztake_app_exact).
  clearbody field w pv. unfold prop_read. rewrite !zlen_app, Hl32, Hlw, Hpv.
  split; [change (Z.of_nat 4) with 4; lia|].
  intros fuel n pre rest ps Hn. cbn [decode_props_at]. rewrite (proj2 (Z.leb_gt n 0)) by done.
  rewrite <-!(assoc_L app).
  assert (slice (zlen pre) (zlen pre + 32) (pre ++ field ++ w ++ pv ++ rest) = field) as E1.
  { rewrite <-(Z.add_0_r (zlen pre)) at 1. rewrite slice_app_r by lia.
    by apply slice_app_exact. }
  assert (unpack_from_I (pre ++ field ++ w ++ pv ++ rest) (zlen pre + 32)
          = Ok (Z.lor (zlen v) fl)) as E2.
  { rewrite (assoc_L app pre). apply unpack_from_app; [done|]. rewrite zlen_app. lia. }
  assert (slice (zlen pre + 36) (zlen pre + 36 + zlen v) (pre ++ field ++ w ++ pv ++ rest) = v) as E3.
  { rewrite <-Z.add_assoc, slice_app_r by lia. rewrite (assoc_L app field).
    replace 36 with (zlen (field ++ w) + 0) at 1 by (rewrite zlen_app; lia).
    replace (36 + zlen v) with (zlen (field ++ w) + zlen v) by (rewrite zlen_app; lia).
    rewrite slice_app_r by lia. unfold slice. rewrite zdrop_le_0, Z.sub_0_r by lia.
    rewrite ztake_take, take_app_le by (unfold zlen in *; lia). by rewrite <-ztake_take. }
  rewrite E1, Hname, E2, ok_bind. cbv zeta. rewrite Hf, Hl, E3, roundup4_bits_eq.
  f_equal; lia.
Qed.

Lemma encode_props_read ps h :
  forallb wf_prop ps = true →
  ∃ e, res_foldl (λ out p, e ← encode_prop p; Ok (out ++ e)) h ps = Ok (h ++ e) ∧
    (length ps ≤ length e)%nat ∧
    ∀ fuel pre rest acc, (length ps ≤ fuel)%nat →
      decode_props_at fuel (zlen ps) (pre ++ e ++ rest) (zlen pre) acc
      = Ok (acc ++ ps, zlen pre + zlen e).
Proof.
  revert h. induction ps as [|p ps IH]; intros h Hwf.
  - exists []. rewrite app_nil_r. do 2 (split; [done|]).
    intros fuel pre rest acc _. rewrite app_nil_r, zlen_nil, Z.add_0_r. by destruct fuel.
  - cbn in Hwf. apply andb_true_iff in Hwf as [Hp Hps].
    destruct (encode_prop_read p Hp) as (e & He & H36 & Hread).
    destruct (IH (h ++ e) Hps) as (es & Hes & Hlen & Hreads).
    exists (e ++ es). cbn [res_foldl]. rewrite He, !ok_bind, Hes.
    split; [by rewrite (assoc_L app)|].
    split; [unfold zlen in H36; rewrite length_app; simpl; lia|].
    intros [|fuel] pre rest acc Hf; [simpl in Hf; lia|].
    rewrite <-(assoc_L app), Hread by (rewrite zlen_cons; pose proof (zlen_nonneg ps); lia).
    rewrite zlen_cons. replace (1 + zlen ps - 1) with (zlen ps) by lia.
    rewrite (assoc_L app pre), <-zlen_app, Hreads by (simpl in Hf; lia).
    rewrite <-(assoc_L app acc), !zlen_app. simpl. do 2 f_equal. lia.
Qed.

(** [e] is read back as [n] wherever it lies in the buffer. *)
Definition reads_as {N} (dec : list byte → Z → res (N * Z)) (n : N) (e : list byte) : Prop :=
  ∀ pre rest, dec (pre ++ e ++ rest) (zlen pre) = Ok (n, zlen pre + zlen e).
Definition node_read (fuel : nat) : DNode → list byte → Prop := reads_as (decode_fuel fuel).
Definition encodes (n : DNode) (e : list byte) : Prop :=
  encode n = Ok e ∧ 8 ≤ zlen e ∧ ∀ fuel, (length e ≤ fuel)%nat → node_read fuel n e.

Lemma decode_children_at_read {N} (dec : list byte → Z → res (N * Z)) fuel pre rest cs es acc :
  Forall2 (reads_as dec) cs es → (length cs ≤ fuel)%nat →
  decode_children_at (dec (pre ++ concat es ++ rest)) fuel (zlen cs) (zlen pre) acc
  = Ok (acc ++ cs, zlen pre + zlen (concat es)).
Proof.
  intros H. revert fuel pre acc. induction H as [|c e cs es Hc _ IH]; intros fuel pre acc Hf.
  - rewrite app_nil_r, zlen_nil, Z.add_0_r. by destruct fuel.
  - destruct fuel as [|fuel]; [simpl in Hf; lia|]. cbn [decode_children_at concat].
    rewrite zlen_cons. pose proof (zlen_nonneg cs). rewrite (proj2 (Z.leb_gt _ 0)) by lia.
    rewrite <-(assoc_L app e), Hc, ok_bind. cbn beta iota.
    replace (1 + zlen cs - 1) with (zlen cs) by lia.
    rewrite (assoc_L app pre), <-zlen_app, IH by (simpl in Hf; lia).
    rewrite <-(assoc_L app acc), !zlen_app. simpl. do 2 f_equal. lia.
Qed.

Lemma encode_children_read cs h :
  Forall (λ c, wf_node c = true → ∃ e, encodes c e) cs → forallb wf_node cs = true →
  ∃ es, res_foldl (λ out c, e ← encode c; Ok (out ++ e)) h cs = Ok (h ++ concat es) ∧
        Forall2 encodes cs es ∧ (length cs ≤ length (concat es))%nat.
Proof.
  intros H. revert h. induction H as [|c cs Hc _ IH]; intros h Hwf.
  - exists []. simpl. rewrite app_nil_r. repeat split; constructor.
  - cbn in Hwf. apply andb_true_iff in Hwf as [Hc' Hcs].
    destruct (Hc Hc') as [e He]. destruct (IH (h ++ e) Hcs) as (es & Hes & Hall & Hlen).
    exists (e :: es). cbn [res_foldl concat]. rewrite (proj1 He), !ok_bind, Hes.
    split; [by rewrite (assoc_L app)|]. split; [by constructor|].
    destruct He as (_ & H8 & _). unfold zlen in H8. rewrite length_app. simpl. lia.
Qed.

Lemma encodes_concat cs es fuel :
  Forall2 encodes cs es → (length (concat es) ≤ fuel)%nat → Forall2 (node_read fuel) cs es.
Proof.
  induction 1 as [|c e cs es (_ & _ & Hr) _ IH]; intros Hf; [constructor|].
  cbn [concat] in Hf. rewrite length_app in Hf. constructor; [apply Hr; lia|apply IH; lia].
Qed.

Lemma wf_node_encodes n : wf_node n = true → ∃ e, encodes n e.
Proof.
  induction n as [ps cs IH] using DNode_nested_ind. intros Hwf. cbn in Hwf.
  rewrite !andb_true_iff in Hwf. destruct Hwf as [[[Hps Hnps] Hncs] Hcs].
  assert (∃ h, pack_II (zlen ps) (zlen cs) = Ok h) as [h Hh].
  { unfold pack_II, pack_I, pack_u. change (2 ^ (8 * Z.of_nat 4)) with (2 ^ 32).
    pose proof (zlen_nonneg ps). pose proof (zlen_nonneg cs).
    rewrite (proj2 (Z.leb_le 0 (zlen ps))), (proj2 (Z.leb_le 0 (zlen cs))) by done.
    rewrite Hnps, Hncs. simpl. eauto. }
  destruct (unpack_pack_II _ _ _ Hh) as [Hun H8].
  destruct (encode_props_read ps h Hps) as (ep & Hep & Hlp & Hreads).
  destruct (encode_children_read cs (h ++ ep) IH Hcs) as (es & Hes & Hall & Hlc).
  pose proof (zlen_nonneg ep). pose proof (zlen_nonneg (concat es)).
  exists (h ++ ep ++ concat es). split; [|split].
  - cbn [encode]. rewrite Hh, ok_bind, Hep, ok_bind, Hes. by rewrite (assoc_L app).
  - autorewrite with pylists. lia.
  - assert (length (h ++ ep ++ concat es) = 8 + length ep + length (concat es))%nat as Hlen
      by (rewrite !length_app; unfold zlen in H8; lia).
    intros [|fuel] Hf; [lia|]. intros pre rest. cbn [decode_fuel].
    assert (unpack_from_II (pre ++ (h ++ ep ++ concat es) ++ rest) (zlen pre)
            = Ok (zlen ps, zlen cs)) as ->.
    { unfold unpack_from_II. rewrite <-!(assoc_L app), slice_app_mid by lia. done. }
    rewrite ok_bind. cbn beta iota. rewrite <-!(assoc_L app).
    replace (zlen pre + 8) with (zlen (pre ++ h)) by (rewrite zlen_app; lia).
    rewrite (assoc_L app pre h), Hreads by (rewrite !length_app; lia).
    rewrite ok_bind. cbn beta iota.
    rewrite <-zlen_app, (assoc_L app (pre ++ h)).
    rewrite decode_children_at_read; [|apply encodes_concat; [done|lia]|rewrite !length_app; lia].
    rewrite ok_bind. cbn beta iota. cbn [app]. rewrite !zlen_app. do 2 f_equal. lia.
Qed.

Lemma find_set_props key val ps :
  find_prop key (set_props key val ps)
  = Some (mkProp key (match find_prop key ps with Some p => pflags p | None => 0 end) val).
Proof.
  induction ps as [|p ps IH]; cbn; [by rewrite decide_True|].
  destruct (decide (pname p = key)) as [E|E]; cbn.
  - by rewrite decide_True.
  - by rewrite decide_False, IH.
Qed.
Lemma find_set_props_ne key k val ps :
  k ≠ key → find_prop k (set_props key val ps) = find_prop k ps.
Proof.
  intros Hk. induction ps as [|p ps IH]; cbn; [by rewrite decide_False|].
  destruct (decide (pname p = key)) as [E|E]; cbn.
  - rewrite !decide_False by congruence. done.
  - by rewrite IH.
Qed.

Lemma partition1_app sep l r : sep ∉ l → partition1 sep (l ++ sep :: r) = (l, r).
Proof.
  induction l as [|c l IH]; cbn; intros H; [by rewrite decide_True|].
  rewrite decide_False by set_solver. rewrite IH by set_solver. done.
Qed.
Lemma rpartition1_app sep l r : sep ∉ r → rpartition1 sep (l ++ sep :: r) = (l, r).
Proof.
  intros H. unfold rpartition1. rewrite bool_decide_eq_true_2 by set_solver.
  rewrite reverse_app, reverse_cons, <-(assoc_L app). cbn [app].
  rewrite partition1_app by by rewrite elem_of_reverse.
  by rewrite !reverse_involutive.
Qed.

(** The names of a node's properties, and what is stored under all but one. *)
Lemma delete_props_find key ps :
  NoDup (map pname ps) →
  find_prop key (delete_props key ps).1 = None ∧
  (delete_props key ps).2 = bool_decide (is_Some (find_prop key ps)) ∧
  ∀ k, k ≠ key → find_prop k (delete_props key ps).1 = find_prop k ps.
Proof.
  assert (∀ l, key ∉ map pname l → find_prop key l = None) as Hnone.
  { induction l as [|q l IH]; cbn; [done|]. intros H. rewrite decide_False by set_solver.
    apply IH. set_solver. }
  induction ps as [|p ps IH]; cbn; [done|]. intros [Hp Hnd]%NoDup_cons.
  destruct (decide (pname p = key)) as [<-|E].
  - cbn. split; [by apply Hnone|]. split; [done|].
    intros k Hk. by rewrite decide_False.
  - destruct (IH Hnd) as (H1 & H2 & H3). destruct (delete_props key ps) as [ps' ok]. cbn in *.
    rewrite decide_False by done. split; [done|]. split; [done|].
    intros k Hk. by rewrite (H3 k Hk).
Qed.

Definition sample_node : DNode :=
  mkDNode [mkProp (u "name") 0 (b "device-tree" ++ [x00]);
           mkProp (u "random-seed") 0 (replicate 64 x41)]
    [mkDNode [mkProp (u "name") 0 (b "arm-io" ++ [x00]);
              mkProp (u "quiesced") 0x80000000 []] []].

(** ** Properties *)

(** the codec is lossless.  Every property of a well-formed tree comes
    back with its exact bytes and its placeholder bit, text or not, and the
    node ends where its encoding does. *)
Theorem dt_patch_lossless n :
  wf_node n = true →
  ∃ l, encode n = Ok l ∧ ∀ rest, decode (l ++ rest) 0 = Ok (n, zlen l).
Proof.
  intros (l & He & _ & Hr)%wf_node_encodes. exists l. split; [done|].
  intros rest. apply (Hr (S (length (l ++ rest))) ltac:(rewrite length_app; lia) [] rest).
Qed.

Lemma dt_patch_lossless_witness :
  wf_node sample_node = true ∧
  ∃ l, encode sample_node = Ok l ∧ ∀ rest, decode (l ++ rest) 0 = Ok (sample_node, zlen l).
Proof.
  split; [vm_compute; reflexivity|].
  apply (dt_patch_lossless sample_node). vm_compute. reflexivity.
Defined.

(** [-set PATH:KEY=VALUE] stores the value under that key of that node, at
    the key's place and with its placeholder bit, or as a new last property;
    every other property and every child of the node keeps its bytes. *)
Theorem apply_set_edits_one_property root path key val v :
  61 ∉ path ++ [58] ++ key → 58 ∉ key → parse_value val = Ok v →
  apply_set root (path ++ [58] ++ key ++ [61] ++ val)
  = at_node (split1 47 path) (λ n, Ok (set key v n)) root ∧
  ∀ n, get key (set key v n) = Some v ∧
       dchildren (set key v n) = dchildren n ∧
       (∀ k, k ≠ key → find_prop k (dprops (set key v n)) = find_prop k (dprops n)) ∧
       find_prop key (dprops (set key v n))
       = Some (mkProp key (match find_prop key (dprops n) with Some p => pflags p | None => 0 end) v).
Proof.
  intros H61 H58 Hv. split.
  - unfold apply_set.
    replace (path ++ [58] ++ key ++ [61] ++ val) with ((path ++ [58] ++ key) ++ 61 :: val)
      by by rewrite <-!(assoc_L app).
    rewrite partition1_app by done. cbn [app]. rewrite rpartition1_app by done.
    by rewrite Hv.
  - intros n. unfold get, set. cbn [dprops dchildren]. rewrite find_set_props.
    split; [done|]. split; [done|]. split; [|done].
    intros k Hk. by apply find_set_props_ne.
Qed.

Lemma apply_set_edits_one_property_witness :
  apply_set sample_node (u "arm-io" ++ [58] ++ u "pre-loaded" ++ [61] ++ u "u32:1")
  = at_node [u "arm-io"] (λ n, Ok (set (u "pre-loaded") [x01; x00; x00; x00] n)) sample_node ∧
  is_ok (apply_set sample_node (u "arm-io:pre-loaded=u32:1")) = true.
Proof.
  split; [|vm_compute; reflexivity].
  apply (apply_set_edits_one_property sample_node (u "arm-io") (u "pre-loaded") (u "u32:1")
           [x01; x00; x00; x00]).
  - apply (bool_decide_eq_true_1 (61 ∉ u "arm-io" ++ [58] ++ u "pre-loaded")). vm_compute. reflexivity.
  - apply (bool_decide_eq_true_1 (58 ∉ u "pre-loaded")). vm_compute. reflexivity.
  - vm_compute. reflexivity.
Defined.

(** The encoder checks the length of a name in characters and pads it in
    bytes: a name of seventeen two-byte characters overflows its field, and
    the tree written is not the tree read back. *)
Definition long_name : list Z := replicate 17 0xe9.
Lemma long_utf8_name_overflows :
  ∃ l, encode (mkDNode [mkProp long_name 0 []] []) = Ok l ∧ zlen l = 46 ∧
       decode l 0 ≠ Ok (mkDNode [mkProp long_name 0 []] [], 44).
Proof. eexists. split; [vm_compute; reflexivity|]. split; [done|]. vm_compute. congruence. Qed.
