(* ===== verification/AnsFixup.v ===== *)
(** * The ANS wrapper of [tools/ans/dt_ans_fixup.py]

    The wrapper replaces [fixup_iops] by the original followed by a second
    loop over the nubs, for a [dt_fixup.py] whose skip test looked at the key
    [region-base] only.  The test in the repository looks at the value, and
    the theorem says that the second loop then does nothing. *)

From stdpp Require Import base tactics list list_numbers strings sets.
From Stdlib Require Import Strings.Byte.
From S2P Require Import Prelude PyBytes PyStr PyDict AdtCodec AdtFixups.
Open Scope Z_scope.

(** The loop body for one nub, after the [rtbuddy] and [region-base] tests
    that it shares with [fixup_iops]. *)
Definition ans_nub (nub : ADTNode) : res ADTNode :=
  w ← wants_region nub;
  if negb w then Ok nub
  else if dmem (u "pre-loaded") (props nub)
          && negb (bool_decide (get_prop (u "region-base") nub = Some (VStr "u64:0x0")))
  then Ok nub
  else
    let nub := set_prop (u "pre-loaded") (VStr "u32:1") nub in
    let nub := set_prop (u "region-base") (VStr "u64:0x10010000000") nub in
    let nub := set_prop (u "region-size") (VStr "u64:0x100000") nub in
    Ok (set_prop (u "no-firmware-service") (VStr "<NULL>") nub).

Definition ans_iop (c : ADTNode) : res ADTNode :=
  if negb (dmem (u "compatible") (props c)) then Ok c
  else nubs ← res_map ans_nub (children c); Ok (mkNode (props c) nubs).

Definition ans_pass : ADTNode → res ADTNode :=
  at_child (u "arm-io") (λ arm, cs ← res_map ans_iop (children arm); Ok (mkNode (props arm) cs)).
Definition ans_fixup_iops (d : ADTNode) : res ADTNode := d ← fixup_iops d; ans_pass d.

(** ** Lemmas *)

Lemma region_value_nonzero s : 0 ≤ s → u "u64:" ++ hex (region_base s) ≠ u "u64:0x0".
Proof.
  intros Hs E. change (u "u64:0x0") with (u "u64:" ++ hex 0) in E.
  apply (app_inv_head (u "u64:")), (f_equal int0) in E.
  unfold region_base, IOP_REGION_BASE, IOP_REGION_STRIDE in E.
  rewrite !int0_hex in E by lia. apply Ok_inj in E. lia.
Qed.

Lemma wants_region_given s x w :
  0 ≤ s → wants_region x = Ok w → wants_region (give_region s x) = Ok false.
Proof.
  intros Hs H. unfold wants_region in *. unfold give_region, get_prop, set_prop in *.
  cbn [props] in *. rewrite !(dget_dset_ne (u "compatible")) by done.
  simpl_res. rewrite Hr, ok_bind.
  rewrite (dget_dset_ne (u "region-base") (u "no-firmware-service")),
    (dget_dset_ne (u "region-base") (u "region-size")), dget_dset_eq by done.
  rewrite bool_decide_eq_false_2; [by rewrite andb_false_r|].
  intros E. apply (f_equal (λ v, match v with VStr t => t | _ => [] end)) in E.
  by apply (region_value_nonzero s).
Qed.

Lemma ans_nub_quiet x : wants_region x = Ok false → ans_nub x = Ok x.
Proof. intros H. unfold ans_nub. by rewrite H. Qed.

Lemma fixup_nubs_quiet slot ns slot' ns' :
  0 ≤ slot → fixup_nubs slot ns = Ok (slot', ns') → res_map ans_nub ns' = Ok ns'.
Proof.
  revert slot ns'. induction ns as [|x ns IH]; intros slot ns' Hs H; cbn [fixup_nubs] in H.
  - by simpl_res.
  - simpl_res. cbn [res_map].
    assert (ans_nub (if (r : bool) then give_region slot x else x)
            = Ok (if (r : bool) then give_region slot x else x)) as ->.
    { apply ans_nub_quiet. destruct r; [by eapply wants_region_given|done]. }
    rewrite ok_bind. change ((ys ← res_map ans_nub l; Ok ((if r then give_region slot x else x) :: ys))
      = Ok ((if r then give_region slot x else x) :: l)).
    apply IH in Hr0; [|destruct r; lia]. by rewrite Hr0.
Qed.

Lemma fixup_iop_list_quiet slot cs slot' cs' :
  0 ≤ slot → fixup_iop_list slot cs = Ok (slot', cs') → res_map ans_iop cs' = Ok cs'.
Proof.
  revert slot cs'. induction cs as [|c cs IH]; intros slot cs' Hs H; cbn [fixup_iop_list] in H.
  - by simpl_res.
  - destruct (dmem (u "compatible") (props c)) eqn:Ec; cbn [negb] in H; simpl_res.
    + cbn [children set_prop] in Hr.
      assert (slot ≤ z) as Hle.
      { clear -Hr. revert slot l Hr. induction (children c) as [|y ns IHn]; intros slot l H;
          cbn [fixup_nubs] in H; simpl_res; [lia|]. apply IHn in Hr0. destruct r; lia. }
      apply fixup_nubs_quiet in Hr; [|done].
      apply IH in Hr0; [|lia].
      match goal with |- res_map ans_iop (?c' :: _) = _ =>
        assert (ans_iop c' = Ok c') as Hc' end.
      { unfold ans_iop. cbn [props children set_prop]. rewrite Hr. by destruct (negb _). }
      cbn [res_map]. by rewrite Hc', ok_bind, Hr0.
    + assert (ans_iop c = Ok c) as Hc' by (unfold ans_iop; by rewrite Ec).
      cbn [res_map]. by rewrite Hc', ok_bind, (IH _ _ Hs Hr).
Qed.

(** ** Property *)

(** With the present [fixup_iops] the wrapper is the identity on its
    result: running the tool under [dt_ans_fixup.py] writes the same tree. *)
Theorem ans_wrapper_redundant d : ans_fixup_iops d = fixup_iops d.
Proof.
  unfold ans_fixup_iops. destruct (fixup_iops d) as [d'|e] eqn:H; [|done]. rewrite ok_bind.
  apply at_child_Ok in H as (i & c & c' & Hi & Hc & Hf & ->).
  simpl_res. apply fixup_iop_list_quiet in Hr; [|lia].
  unfold ans_pass, at_child, child_index. cbn [children].
  rewrite (find_child_insert _ _ _ c) by done. rewrite !ok_bind.
  rewrite list_lookup_insert_eq by (by eapply lookup_lt_Some). cbn [opt_or].
  rewrite ok_bind. cbn [children props]. rewrite Hr, !ok_bind.
  by rewrite list_insert_insert_eq.
Qed.
