(* ===== verification/PowerPassthrough.v ===== *)
(** * The power provider generator of [tools/re/power_passthrough_dt.py]

    The tool appends one leaf to [arm-io] and checks its own output against
    the input.  A property is kept as its encoded record, so parsing and
    encoding are inverse without any condition on the values.  The output
    check compares two trees by identity of one node ([node_before is
    original_arm_io]); here the identity is the node's index below the root,
    the only place the source can meet it. *)

From stdpp Require Import base tactics list list_numbers strings sets.
From Stdlib Require Import Strings.Byte.
From S2P Require Import Prelude PyBytes PyStr AdtCodec DtPatch.
Open Scope Z_scope.

(** ** Data *)

Definition PROVIDER_NAME : list Z := u "charger,passthrough".
Definition ARM_IO_NAME : list Z := u "arm-io".

(** [DTError] is a subclass of [ValueError]; [ProviderConflict] is one of
    [DTError] and is told apart by its message. *)
Definition DTError (msg : string) : exn := ValueError msg.
Definition ProviderConflict : exn :=
  DTError "already exists; refusing non-idempotent mutation".

Record Property := mkProperty { prop_name : list Z; prop_raw : list byte }.
Inductive Node := mkNode (properties : list Property) (children : list Node).
Definition properties (n : Node) : list Property := match n with mkNode p _ => p end.
Definition children (n : Node) : list Node := match n with mkNode _ c => c end.

#[export] Instance Property_eq_dec : EqDecision Property.
Proof. solve_decision. Defined.

Fixpoint Node_nested_ind (P : Node → Prop)
    (H : ∀ ps cs, Forall P cs → P (mkNode ps cs)) (n : Node) : P n :=
  match n with
  | mkNode ps cs =>
      H ps cs ((fix go cs : Forall P cs :=
                  match cs with
                  | [] => Forall_nil_2 P
                  | c :: cs => Forall_cons_2 P c cs (Node_nested_ind P H c) (go cs)
                  end) cs)
  end.

(** The equality of the dataclasses: field by field. *)
Fixpoint node_eqb (x y : Node) : bool :=
  match x, y with
  | mkNode ps cs, mkNode qs ds =>
      bool_decide (ps = qs)
      && (fix go cs ds := match cs, ds with
                          | [], [] => true
                          | c :: cs, d :: ds => node_eqb c d && go cs ds
                          | _, _ => false
                          end) cs ds
  end.

Lemma node_eqb_eq x y : node_eqb x y = true ↔ x = y.
Proof.
  revert y. induction x as [ps cs IH] using Node_nested_ind. intros [qs ds]. cbn.
  rewrite andb_true_iff, bool_decide_eq_true.
  assert (∀ ds, (fix go cs ds := match cs, ds with
                          | [], [] => true
                          | c :: cs, d :: ds => node_eqb c d && go cs ds
                          | _, _ => false
                          end) cs ds = true ↔ cs = ds) as Hgo.
  { clear ds. induction IH as [|c cs Hc _ IHl]; intros [|d ds]; try (by split).
    rewrite andb_true_iff, Hc, IHl. split; [by intros [-> ->]|by intros [= -> ->]]. }
  rewrite Hgo. split; [by intros [-> ->]|by intros [= -> ->]].
Qed.
#[export] Instance Node_eq_dec : EqDecision Node.
Proof.
  refine (λ x y, match node_eqb x y as e return node_eqb x y = e → _ with
                 | true => λ E, left _ | false => λ E, right _ end eq_refl).
  - by apply node_eqb_eq.
  - intros H. apply node_eqb_eq in H. congruence.
Defined.

(** ** Decoding *)

Definition get_property (nm : list Z) (n : Node) : option Property :=
  List.find (λ p, bool_decide (prop_name p = nm)) (properties n).

Definition aligned (value : Z) : Z := Z.land (value + 3) (Z.lnot 3).

(** [try: ... except UnicodeDecodeError: raise DTError(msg)] *)
Definition or_dterror {A} (m : res A) (msg : string) : res A :=
  match m with Raise UnicodeDecodeError => Raise (DTError msg) | m => m end.

Definition decode_name (field : list byte) : res (list Z) :=
  match PyBytes.find [x00] field with
  | None => Raise (DTError "property name is not NUL-terminated")
  | Some terminator =>
      or_dterror (ascii_decode (ztake terminator field)) "property name is not ASCII"
  end.

Definition record_length (raw : list byte) (off : Z) : res Z :=
  w ← unpack_from_I raw off; Ok (Z.land w (Z.lnot 0x80000000)).

Definition decode_string_property (raw : list byte) : res (list Z) :=
  raise_if zlen raw <? 36 with DTError "property is truncated" ;;
  length ← record_length raw 32;
  let padded := aligned length in
  raise_if negb (zlen raw =? 36 + padded) with DTError "property has invalid encoded length" ;;
  let value := slice 36 (36 + length) raw in
  raise_if negb (endswith [x00] value) with DTError "property is not a C string" ;;
  or_dterror (utf8_decode (ztake (zlen value - 1) value)) "property is not UTF-8".

Definition node_name (n : Node) : res (list Z) :=
  match get_property (u "name") n with
  | None => Raise (DTError "node has no name property")
  | Some p => decode_string_property (prop_raw p)
  end.

Fixpoint parse_props (fuel : nat) (property_count : Z) (data : list byte) (offset : Z)
    (ps : list Property) : res (list Property * Z) :=
  if property_count <=? 0 then Ok (ps, offset)
  else match fuel with
       | O => Raise OutOfFuel
       | S fuel =>
           raise_if zlen data - offset <? 36 with DTError "truncated property header" ;;
           name ← decode_name (slice offset (offset + 32) data);
           length ← record_length data (offset + 32);
           let stop := offset + 36 + aligned length in
           raise_if zlen data <? stop with DTError "truncated property" ;;
           parse_props fuel (property_count - 1) data stop
             (ps ++ [mkProperty name (slice offset stop data)])
       end.

Fixpoint parse_node_fuel (fuel : nat) (data : list byte) (offset : Z) : res (Node * Z) :=
  match fuel with
  | O => Raise OutOfFuel
  | S fuel =>
      raise_if zlen data - offset <? 8 with DTError "truncated node header" ;;
      '(property_count, child_count) ← unpack_from_II data offset;
      '(ps, offset) ← parse_props (S (length data)) property_count data (offset + 8) [];
      '(cs, offset) ← decode_children_at (parse_node_fuel fuel data) (S (length data))
                        child_count offset [];
      Ok (mkNode ps cs, offset)
  end.
Definition parse_node (data : list byte) (offset : Z) : res (Node * Z) :=
  parse_node_fuel (S (length data)) data offset.

Definition parse_tree (data : list byte) : res Node :=
  '(root, offset) ← parse_node data 0;
  raise_if negb (offset =? zlen data) with DTError "trailing bytes after root node" ;;
  Ok root.

(** ** Encoding *)

Fixpoint encode_node (n : Node) : res (list byte) :=
  match n with
  | mkNode ps cs =>
      h ← pack_II (zlen ps) (zlen cs);
      res_foldl (λ out c, e ← encode_node c; Ok (out ++ e)) (h ++ concat (map prop_raw ps)) cs
  end.

Definition string_property (name value : list Z) : res Property :=
  encoded_name ← (match ascii_encode name with
                  | Raise UnicodeEncodeError => Raise (DTError "non-ASCII property name")
                  | m => m end);
  raise_if 32 <=? zlen encoded_name with DTError "property name too long" ;;
  enc ← utf8_encode value;
  let payload := enc ++ [x00] in
  w ← pack_I (zlen payload);
  Ok (mkProperty name (ljust 32 x00 encoded_name ++ w ++ ljust (aligned (zlen payload)) x00 payload)).

Definition provider_leaf : res Node :=
  p ← string_property (u "name") PROVIDER_NAME;
  q ← string_property (u "device_type") PROVIDER_NAME;
  Ok (mkNode [p; q] []).

(** ** The mutation *)

(** [find_direct_child], with the index of each match. *)
Definition find_direct_child (parent : Node) (name : list Z) : res (list nat) :=
  names ← res_map node_name (children parent);
  Ok (map fst (base.filter (λ p, p.2 = name) (imap (λ i n, (i, n)) names))).

Definition arm_io_index (root : Node) : res nat :=
  matches ← find_direct_child root ARM_IO_NAME;
  match matches with
  | [i] => Ok i
  | _ => Raise (DTError "expected exactly one root child named")
  end.
Definition child_at (n : Node) (i : nat) : res Node := opt_or (children n !! i) IndexError.

Definition reject_existing_provider (arm_io : Node) : res unit :=
  matches ← find_direct_child arm_io PROVIDER_NAME;
  match matches with [] => Ok tt | _ => Raise ProviderConflict end.

Definition add_provider (root : Node) : res Node :=
  i ← arm_io_index root;
  arm_io ← child_at root i;
  _ ← reject_existing_provider arm_io;
  leaf ← provider_leaf;
  Ok (mkNode (properties root)
        (<[i := mkNode (properties arm_io) (children arm_io ++ [leaf])]> (children root))).

(** ** The output check *)

Definition compare_props (before after : Node) : res unit :=
  raise_if negb (bool_decide (properties before = properties after))
    with DTError "existing properties changed" ;; Ok tt.

(** The branch taken at [original_arm_io]. *)
Definition compare_arm_io (before after : Node) : res unit :=
  _ ← compare_props before after;
  raise_if negb (bool_decide (removelast (children after) = children before))
    with DTError "existing children changed" ;;
  match last (children after) with
  | None => Raise (DTError "provider leaf missing")
  | Some leaf =>
      n ← node_name leaf;
      raise_if negb (bool_decide (n = PROVIDER_NAME)) with DTError "provider leaf missing" ;;
      raise_if negb (zlen (children leaf) =? 0) with DTError "provider leaf has children" ;;
      raise_if negb (bool_decide (map prop_name (properties leaf) = [u "name"; u "device_type"]))
        with DTError "provider leaf has properties beyond name and device_type" ;;
      raise_if existsb (λ k, bool_decide (is_Some (get_property k leaf)))
                 [u "compatible"; u "reg"; u "interrupts"]
        with DTError "provider leaf has a hardware property" ;;
      p ← opt_or (get_property (u "device_type") leaf) AttributeError;
      t ← decode_string_property (prop_raw p);
      raise_if negb (bool_decide (t = PROVIDER_NAME)) with DTError "provider device_type changed" ;;
      Ok tt
  end.

(** The pairwise loop over the children, for a comparison of one pair. *)
Definition compare_children (cmp : nat → Node → Node → res unit) : nat → list Node → list Node → res unit :=
  fix go i bs az :=
    match bs, az with
    | x :: bs, y :: az =>
        nx ← node_name x; ny ← node_name y;
        raise_if negb (bool_decide (nx = ny)) with DTError "child order changed" ;;
        _ ← cmp i x y;
        go (S i) bs az
    | _, _ => Ok tt
    end.

(** [arm]: the index of [original_arm_io] below this node, when it is the root. *)
Fixpoint compare (arm : option nat) (before after : Node) : res unit :=
  match before with
  | mkNode ps bs =>
      _ ← compare_props (mkNode ps bs) after;
      raise_if negb (zlen bs =? zlen (children after)) with DTError "existing child count changed" ;;
      compare_children (λ i x y, if decide (arm = Some i) then compare_arm_io x y
                                 else compare None x y) 0 bs (children after)
  end.

Definition assert_output_contract (original output : Node) : res unit :=
  i ← arm_io_index original;
  j ← arm_io_index output;
  output_arm_io ← child_at output j;
  _ ← compare (Some i) original output;
  match reject_existing_provider output_arm_io with
  | Ok _ => Raise (DTError "generated tree did not trigger idempotence conflict")
  | Raise e => if bool_decide (e = ProviderConflict) then Ok tt else Raise e
  end.

Definition generate (source : list byte) : res (list byte) :=
  original ← parse_tree source;
  output ← parse_tree source;
  output ← add_provider output;
  encoded ← encode_node output;
  reparsed ← parse_tree encoded;
  again ← encode_node reparsed;
  raise_if negb (bool_decide (again = encoded))
    with DTError "encoded output did not round-trip byte-for-byte" ;;
  _ ← assert_output_contract original reparsed;
  Ok encoded.

(** ** Records and nodes as the parser accepts them *)

Definition record_ok (p : Property) : Prop :=
  ∃ len, decode_name (slice 0 32 (prop_raw p)) = Ok (prop_name p) ∧
         record_length (prop_raw p) 32 = Ok len ∧ 0 ≤ len ∧
         zlen (prop_raw p) = 36 + aligned len.
Fixpoint node_ok (n : Node) : Prop :=
  match n with
  | mkNode ps cs =>
      Forall record_ok ps ∧ zlen ps < 2 ^ 32 ∧ zlen cs < 2 ^ 32 ∧
      foldr (λ c P, node_ok c ∧ P) True cs
  end.
Lemma foldr_Forall (P : Node → Prop) cs : foldr (λ c Q, P c ∧ Q) True cs ↔ Forall P cs.
Proof.
  induction cs as [|c cs IH]; simpl; [by split|]. rewrite IH. split.
  - intros [? ?]. by constructor.
  - intros H. apply Forall_cons in H. done.
Qed.

Definition raws (ps : list Property) : list byte := concat (map prop_raw ps).

Lemma slice_zdrop {A} a c (l : list A) : 0 ≤ a ≤ c → slice a c l ++ zdrop c l = zdrop a l.
Proof.
  intros Hac. unfold slice. replace (zdrop c l) with (zdrop (c - a) (zdrop a l)).
  - apply ztake_zdrop.
  - rewrite zdrop_zdrop by lia. f_equal. lia.
Qed.
Lemma aligned_spec n : n ≤ aligned n < n + 4.
Proof. unfold aligned. rewrite land_lnot3. apply roundup4_spec. Qed.
Lemma record_length_nonneg raw off len : record_length raw off = Ok len → 0 ≤ len.
Proof.
  unfold record_length. intros H. simpl_res. unfold unpack_from_I, unpack_from_u, unpack_u in Hr.
  simpl_res. apply Z.land_nonneg. left. apply le_Z_range.
Qed.

(** A window read inside a slice is the same window of the buffer. *)
Lemma parse_props_inv fuel n data off ps ps' off' :
  0 ≤ off → parse_props fuel n data off ps = Ok (ps', off') →
  ∃ new, ps' = ps ++ new ∧ zlen new = Z.max 0 n ∧ Forall record_ok new ∧
         off' = off + zlen (raws new) ∧ zdrop off data = raws new ++ zdrop off' data.
Proof.
  revert n off ps. induction fuel as [|f IH]; intros n off ps Hoff H; cbn [parse_props] in H;
    destruct (n <=? 0) eqn:En; try done.
  1,2: simpl_res; exists []; rewrite app_nil_r; unfold raws; cbn [map concat];
    rewrite !zlen_nil, ?Z.add_0_r; split; [done|]; split; [lia|]; split; [apply Forall_nil_2|];
    split; [done|done].
  simpl_res. pose proof (record_length_nonneg _ _ _ Hr0) as Hlen.
  pose proof (aligned_spec r0) as Hal.
  apply IH in H as (new & -> & Hnew & Hok & -> & Hz); [|lia].
  set (raw := slice off (off + 36 + aligned r0) data) in *.
  assert (zlen raw = 36 + aligned r0) as Hraw by (unfold raw; rewrite zlen_slice; lia).
  exists (mkProperty r raw :: new). rewrite <-(assoc_L app). split; [done|].
  split; [rewrite zlen_cons; lia|]. split.
  { constructor; [|done]. exists r0. cbn [prop_raw prop_name]. rewrite Hraw.
    unfold raw. unfold record_length, unpack_from_I, unpack_from_u in *.
    replace (off + 36 + aligned r0) with (off + (36 + aligned r0)) by lia.
    change (Z.of_nat 4) with 4 in *.
    rewrite !slice_slice by lia. rewrite Z.add_0_r, Hr.
    split; [done|]. rewrite <-Hr0. split; [|lia].
    do 2 f_equal. f_equal. lia. }
  unfold raws in *. cbn [map concat prop_raw]. rewrite zlen_app, Hraw. split; [lia|].
  rewrite <-(assoc_L app). rewrite <-Hz. symmetry. unfold raw. apply slice_zdrop. lia.
Qed.

Definition parsed (data : list byte) (off : Z) (n : Node) (off' : Z) : Prop :=
  node_ok n ∧ ∃ e, encode_node n = Ok e ∧ off' = off + zlen e ∧ 8 ≤ zlen e ∧
                   zdrop off data = e ++ zdrop off' data ∧ off' ≤ zlen data.

Lemma encode_children_app cs h :
  res_foldl (λ out c, e ← encode_node c; Ok (out ++ e)) h cs
  = (e ← res_foldl (λ out c, e ← encode_node c; Ok (out ++ e)) [] cs; Ok (h ++ e)).
Proof.
  revert h. induction cs as [|c cs IH]; intros h; cbn [res_foldl].
  - rewrite ok_bind. by rewrite app_nil_r.
  - rewrite !bind_assoc. apply bind_ext. intros e. rewrite !ok_bind, app_nil_l, IH, (IH e).
    rewrite bind_assoc. apply bind_ext. intros e'. by rewrite ok_bind, (assoc_L app).
Qed.

Lemma parse_children_inv data dec fuel n off cs cs' off' :
  (∀ off c off', 0 ≤ off → dec off = Ok (c, off') → parsed data off c off') →
  0 ≤ off → off ≤ zlen data → decode_children_at dec fuel n off cs = Ok (cs', off') →
  ∃ new es, cs' = cs ++ new ∧ zlen new = Z.max 0 n ∧ Forall node_ok new ∧
    res_foldl (λ out c, e ← encode_node c; Ok (out ++ e)) [] new = Ok es ∧
    off' = off + zlen es ∧ zdrop off data = es ++ zdrop off' data ∧ off' ≤ zlen data.
Proof.
  intros Hdec. revert n off cs. induction fuel as [|f IH]; intros n off cs Hoff Hle H;
    cbn [decode_children_at] in H; destruct (n <=? 0) eqn:En; try done.
  1,2: simpl_res; exists [], []; rewrite app_nil_r, !zlen_nil, ?Z.add_0_r; split; [done|];
       split; [lia|]; split; [apply Forall_nil_2|]; done.
  simpl_res. apply Hdec in Hr as (Hok & e & He & -> & H8 & Hz & Hle'); [|done].
  apply IH in H as (new & es & -> & Hnew & Hoks & Hes & -> & Hzs & Hle''); [|lia|lia].
  exists (n0 :: new), (e ++ es). rewrite <-(assoc_L app). split; [done|].
  split; [rewrite zlen_cons; lia|]. split; [by constructor|]. split.
  { cbn [res_foldl]. rewrite He, !ok_bind, app_nil_l, encode_children_app, Hes. done. }
  rewrite zlen_app. split; [lia|]. split; [|done].
  rewrite Hz, Hzs. by rewrite (assoc_L app).
Qed.

Lemma pack_unpack_II x y l :
  unpack_II l = Ok (x, y) → pack_II x y = Ok l ∧ 0 ≤ x < 2 ^ 32 ∧ 0 ≤ y < 2 ^ 32 ∧ zlen l = 8.
Proof.
  unfold unpack_II. intros H. simpl_res.
  assert (zlen (ztake 4 l) = 4 ∧ zlen (zdrop 4 l) = 4) as [H1 H2]
    by (rewrite zlen_ztake, zlen_zdrop; lia).
  pose proof (le_Z_range (ztake 4 l)) as Hx. pose proof (le_Z_range (zdrop 4 l)) as Hy.
  rewrite H1 in Hx. rewrite H2 in Hy. change (2 ^ (8 * 4)) with (2 ^ 32) in *.
  split; [|by repeat split; try lia].
  unfold pack_II, pack_I. rewrite (proj2 (pack_u_Ok 4 _ _) (conj Hx eq_refl)), ok_bind.
  rewrite (proj2 (pack_u_Ok 4 _ _) (conj Hy eq_refl)), ok_bind.
  rewrite !le_bytes_Z by (unfold zlen in *; lia). by rewrite ztake_zdrop.
Qed.

Lemma parse_node_parsed fuel data off n off' :
  0 ≤ off → parse_node_fuel fuel data off = Ok (n, off') → parsed data off n off'.
Proof.
  revert off n off'. induction fuel as [|f IH]; intros off n off' Hoff H; [done|].
  cbn [parse_node_fuel] in H. simpl_res.
  unfold unpack_from_II in Hr. apply pack_unpack_II in Hr as (Hh & Hnp & Hnc & H8).
  apply parse_props_inv in Hr0 as (new & -> & Hnew & Hok & -> & Hz); [|lia].
  cbn [app] in *. pose proof (zlen_nonneg (raws new)).
  assert (off + 8 + zlen (raws new) ≤ zlen data) as Hle.
  { apply (f_equal zlen) in Hz. rewrite zlen_app, !zlen_zdrop in Hz. lia. }
  eapply parse_children_inv in Hr1 as (cs & es & -> & Hcs & Hoks & Hes & -> & Hzs & Hle');
    [|intros; by apply IH|lia|done].
  cbn [app]. pose proof (zlen_nonneg es). split.
  - cbn [node_ok]. rewrite foldr_Forall. repeat split; [done|lia|lia|done].
  - exists (slice off (off + 8) data ++ raws new ++ es). split.
    { cbn [encode_node]. rewrite Hnew, Hcs, !Z.max_r by lia. rewrite Hh, ok_bind.
      rewrite encode_children_app. rewrite Hes, ok_bind. by rewrite (assoc_L app). }
    rewrite !zlen_app, H8. repeat split; try lia.
    rewrite <-!(assoc_L app). replace (off + (8 + (zlen (raws new) + zlen es)))
      with (off + 8 + zlen (raws new) + zlen es) by lia.
    rewrite <-Hzs, <-Hz. symmetry. apply slice_zdrop. lia.
Qed.

Lemma parse_props_raws fuel pre rest ps acc :
  Forall record_ok ps → (length ps ≤ fuel)%nat →
  parse_props fuel (zlen ps) (pre ++ raws ps ++ rest) (zlen pre) acc
  = Ok (acc ++ ps, zlen pre + zlen (raws ps)).
Proof.
  intros H. revert fuel pre acc. induction H as [|p ps Hp _ IH]; intros fuel pre acc Hf.
  - unfold raws. cbn [map concat]. rewrite app_nil_r, zlen_nil, Z.add_0_r. by destruct fuel.
  - destruct fuel as [|fuel]; [simpl in Hf; lia|].
    destruct p as [nm raw], Hp as (len & Hnm & Hlen & Hnn & Hraw).
    cbn [prop_name prop_raw] in *. pose proof (aligned_spec len).
    unfold raws. cbn [map concat prop_raw]. fold (raws ps). cbn [parse_props].
    rewrite zlen_cons. pose proof (zlen_nonneg ps). rewrite (proj2 (Z.leb_gt _ 0)) by lia.
    set (data := pre ++ (raw ++ raws ps) ++ rest).
    assert (zlen data = zlen pre + zlen raw + zlen (raws ps) + zlen rest) as Hd
      by (unfold data; rewrite !zlen_app; lia).
    pose proof (zlen_nonneg (raws ps)). pose proof (zlen_nonneg rest).
    rewrite (proj2 (Z.ltb_ge _ _)) by lia.
    assert (∀ a c, 0 ≤ a → c ≤ zlen raw → slice (zlen pre + a) (zlen pre + c) data = slice a c raw) as Hs.
    { intros a c Ha Hc. unfold data. rewrite slice_app_r by done. unfold slice.
      rewrite !ztake_take, !zdrop_drop, <-(assoc_L app).
      destruct (decide (c <= a)); [by replace (Z.to_nat (c - a)) with 0%nat by lia|].
      rewrite drop_app_le by (unfold zlen in *; lia).
      rewrite take_app_le; [done|]. rewrite length_drop. unfold zlen in *. lia. }
    rewrite <-(Z.add_0_r (zlen pre)) at 1. rewrite Hs, Hnm, ok_bind by lia.
    assert (record_length data (zlen pre + 32) = Ok len) as ->.
    { rewrite <-Hlen. unfold record_length, unpack_from_I, unpack_from_u.
      change (Z.of_nat 4) with 4. rewrite <-Z.add_assoc, Hs by lia. done. }
    rewrite ok_bind. cbv zeta. rewrite (proj2 (Z.ltb_ge _ _)) by lia.
    rewrite <-(Z.add_0_r (zlen pre)) at 2. rewrite <-!Z.add_assoc, Hs by lia.
    unfold slice. rewrite zdrop_le_0, ztake_ge by lia.
    replace (zlen pre + (36 + aligned len)) with (zlen (pre ++ raw)) by (rewrite zlen_app; lia).
    replace (1 + zlen ps - 1) with (zlen ps) by lia.
    unfold data. rewrite <-(assoc_L app raw), (assoc_L app pre), IH by (simpl in Hf; lia).
    rewrite <-(assoc_L app acc), !zlen_app. simpl. do 2 f_equal. lia.
Qed.

Lemma length_raws ps : Forall record_ok ps → (length ps ≤ length (raws ps))%nat.
Proof.
  unfold raws. induction 1 as [|p ps (len & _ & _ & H0 & Hraw) _ IH]; [done|].
  cbn [map concat length]. rewrite length_app. pose proof (aligned_spec len).
  unfold zlen in Hraw. lia.
Qed.

Definition encodes (n : Node) (e : list byte) : Prop :=
  encode_node n = Ok e ∧ 8 ≤ zlen e ∧
  ∀ fuel, (length e ≤ fuel)%nat → reads_as (parse_node_fuel fuel) n e.

Lemma encode_children_encodes cs :
  Forall (λ c, ∃ e, encodes c e) cs →
  ∃ es, res_foldl (λ out c, e ← encode_node c; Ok (out ++ e)) [] cs = Ok (concat es) ∧
        Forall2 encodes cs es ∧ (length cs ≤ length (concat es))%nat.
Proof.
  induction 1 as [|c cs [e He] _ (es & Hes & Hall & Hlen)].
  - exists []. by repeat split.
  - exists (e :: es). cbn [res_foldl concat]. rewrite (proj1 He), !ok_bind, app_nil_l.
    rewrite encode_children_app, Hes. split; [done|]. split; [by constructor|].
    destruct He as (_ & H8 & _). unfold zlen in H8. rewrite length_app. simpl. lia.
Qed.

Lemma node_ok_encodes n : node_ok n → ∃ e, encodes n e.
Proof.
  induction n as [ps cs IH] using Node_nested_ind. cbn [node_ok]. rewrite foldr_Forall.
  intros (Hps & Hnps & Hncs & Hcs).
  destruct (encode_children_encodes cs) as (es & Hes & Hall & Hlc).
  { rewrite Forall_forall in *. auto. }
  pose proof (zlen_nonneg ps). pose proof (zlen_nonneg cs).
  assert (∃ h, pack_II (zlen ps) (zlen cs) = Ok h) as [h Hh].
  { unfold pack_II, pack_I.
    rewrite (proj2 (pack_u_Ok 4 (zlen ps) _)), ok_bind by (split; [by split|done]).
    rewrite (proj2 (pack_u_Ok 4 (zlen cs) _)), ok_bind by (split; [by split|done]). eauto. }
  destruct (unpack_pack_II _ _ _ Hh) as [Hun H8].
  pose proof (length_raws ps Hps) as Hlr. pose proof (zlen_nonneg (raws ps)).
  exists (h ++ raws ps ++ concat es). split; [|split].
  - cbn [encode_node]. rewrite Hh, ok_bind, encode_children_app, Hes, ok_bind.
    by rewrite (assoc_L app).
  - autorewrite with pylists. pose proof (zlen_nonneg (concat es)). lia.
  - assert (length (h ++ raws ps ++ concat es) = 8 + length (raws ps) + length (concat es))%nat as Hlen
      by (rewrite !length_app; unfold zlen in H8; lia).
    intros [|fuel] Hf; [lia|]. intros pre rest. cbn [parse_node_fuel].
    rewrite (proj2 (Z.ltb_ge _ _)).
    2:{ rewrite !zlen_app. pose proof (zlen_nonneg (concat es)). pose proof (zlen_nonneg rest). lia. }
    assert (unpack_from_II (pre ++ (h ++ raws ps ++ concat es) ++ rest) (zlen pre)
            = Ok (zlen ps, zlen cs)) as ->.
    { unfold unpack_from_II. rewrite <-!(assoc_L app), slice_app_mid by lia. done. }
    rewrite ok_bind. cbn beta iota. rewrite <-!(assoc_L app).
    replace (zlen pre + 8) with (zlen (pre ++ h)) by (rewrite zlen_app; lia).
    rewrite (assoc_L app pre h), parse_props_raws by (done || (rewrite !length_app; lia)).
    rewrite ok_bind. cbn beta iota.
    rewrite <-zlen_app, (assoc_L app (pre ++ h)).
    rewrite decode_children_at_read; [| |rewrite !length_app; lia].
    + rewrite ok_bind. cbn beta iota. cbn [app]. rewrite !zlen_app. do 2 f_equal. lia.
    + assert (length (concat es) ≤ fuel)%nat as Hfe by lia. clear -Hall Hfe.
      induction Hall as [|c e cs es (_ & _ & Hr) _ IH]; [constructor|].
      cbn [concat] in Hfe. rewrite length_app in Hfe.
      constructor; [apply Hr; lia|apply IH; lia].
Qed.

(** ** The generated tree *)

(** Every node below this one has a readable name, as the comparison reads
    them all. *)
Fixpoint all_named (n : Node) : bool :=
  match n with mkNode _ cs => forallb (λ c, is_ok (node_name c) && all_named c) cs end.

Fixpoint node_size (n : Node) : Z :=
  match n with mkNode ps cs => 8 + zlen (raws ps) + foldr (λ c s, node_size c + s) 0 cs end.
Definition sizes (cs : list Node) : Z := foldr (λ c s, node_size c + s) 0 cs.

Lemma encode_node_size n : ∀ e, encode_node n = Ok e → zlen e = node_size n.
Proof.
  induction n as [ps cs IH] using Node_nested_ind. intros e H. cbn [encode_node node_size] in *.
  simpl_res. apply unpack_pack_II in Hr as [_ H8].
  rewrite encode_children_app in H. simpl_res. rewrite !zlen_app, H8. fold (raws ps). fold (sizes cs).
  enough (zlen r0 = sizes cs) by lia. revert r0 Hr. clear -IH.
  induction IH as [|c cs Hc _ IHl]; intros r0 H; cbn [res_foldl] in H; simpl_res; [done|].
  rewrite encode_children_app in H. simpl_res. rewrite app_nil_l, zlen_app. cbn [sizes foldr].
  by rewrite (Hc _ Hr0), (IHl _ Hr).
Qed.

Lemma sizes_app cs ds : sizes (cs ++ ds) = sizes cs + sizes ds.
Proof. unfold sizes. induction cs as [|c cs IH]; [done|]. cbn [app foldr]. rewrite IH. lia. Qed.
Lemma sizes_insert cs i c c' :
  cs !! i = Some c → sizes (<[i := c']> cs) = sizes cs + node_size c' - node_size c.
Proof.
  revert i. induction cs as [|x cs IH]; intros [|i] H; try done.
  - injection H as ->. unfold sizes. cbn. lia.
  - change (<[S i:=c']> (x :: cs)) with (x :: <[i:=c']> cs). unfold sizes in *. cbn [foldr].
    rewrite (IH i H). lia.
Qed.

Lemma res_map_insert {A B} (f : A → res B) l i x y :
  l !! i = Some x → f y = f x → res_map f (<[i := y]> l) = res_map f l.
Proof.
  revert i. induction l as [|z l IH]; intros [|i] H Hf; try done.
  - injection H as ->. cbn. by rewrite Hf.
  - change (<[S i:=y]> (z :: l)) with (z :: <[i:=y]> l). cbn [res_map]. by rewrite (IH i H Hf).
Qed.

Definition leaf : Node := match provider_leaf with Ok n => n | Raise _ => mkNode [] [] end.
Lemma provider_leaf_Ok : provider_leaf = Ok leaf.
Proof. vm_compute. reflexivity. Qed.
Lemma leaf_ok : node_ok leaf.
Proof.
  vm_compute provider_leaf. unfold leaf. vm_compute provider_leaf. cbn [node_ok foldr].
  split; [|split; [done|split; [done|done]]].
  repeat constructor; exists 20; (split; [vm_compute; reflexivity|]);
    (split; [vm_compute; reflexivity|]); (split; [lia|vm_compute; reflexivity]).
Qed.

Section generated.
Context (root arm : Node) (i : nat).
Hypothesis Hi : arm_io_index root = Ok i.
Hypothesis Harm : children root !! i = Some arm.
Hypothesis Hnew : reject_existing_provider arm = Ok tt.

Definition arm' : Node := mkNode (properties arm) (children arm ++ [leaf]).
Definition root' : Node := mkNode (properties root) (<[i := arm']> (children root)).

Lemma add_provider_Ok : add_provider root = Ok root'.
Proof.
  unfold add_provider, child_at. rewrite Hi, ok_bind, Harm. cbn [opt_or].
  by rewrite ok_bind, Hnew, ok_bind, provider_leaf_Ok.
Qed.

Lemma root'_index : arm_io_index root' = Ok i.
Proof.
  rewrite <-Hi. unfold arm_io_index, find_direct_child, root'. cbn [children].
  by rewrite (res_map_insert node_name _ _ arm).
Qed.
Lemma root'_child : child_at root' i = Ok arm'.
Proof.
  unfold child_at, root'. cbn [children].
  rewrite list_lookup_insert_eq; [done|]. by eapply lookup_lt_Some.
Qed.

Lemma arm'_rejected : reject_existing_provider arm' = Raise ProviderConflict.
Proof using Hnew.
  unfold reject_existing_provider, find_direct_child in *. unfold arm'. cbn [children].
  destruct (res_map node_name (children arm)) as [names|] eqn:E; [|done].
  rewrite res_map_app, E, ok_bind. cbn [res_map].
  assert (node_name leaf = Ok PROVIDER_NAME) as -> by (vm_compute; reflexivity).
  rewrite !ok_bind. rewrite imap_app, filter_app, map_app. cbn [imap].
  rewrite filter_cons_True by done. cbn [map].
  by destruct (map fst _).
Qed.

Lemma root'_conflict : add_provider root' = Raise ProviderConflict.
Proof using Hi Harm Hnew.
  unfold add_provider. by rewrite root'_index, ok_bind, root'_child, ok_bind, arm'_rejected.
Qed.

Lemma compare_same n : all_named n = true → compare None n n = Ok tt.
Proof.
  clear. induction n as [ps cs IH] using Node_nested_ind. intros Hn. cbn [compare all_named] in *.
  unfold compare_props. rewrite bool_decide_eq_true_2 by done. cbn [negb]. rewrite ok_bind.
  cbn [children]. rewrite Z.eqb_refl. cbn [negb].
  generalize 0%nat. revert Hn. induction IH as [|c cs Hc _ IHl]; intros Hn k; [done|].
  cbn [forallb] in Hn. rewrite !andb_true_iff in Hn. destruct Hn as [[Hnm Hc'] Hcs].
  cbn [compare_children]. destruct (node_name c) as [nm|]; [|done]. rewrite !ok_bind.
  rewrite bool_decide_eq_true_2 by done. cbn [negb]. rewrite decide_False by done.
  by rewrite (Hc Hc'), ok_bind, IHl.
Qed.

Lemma compare_arm : compare_arm_io arm arm' = Ok tt.
Proof.
  unfold compare_arm_io, compare_props, arm'. cbn [properties children].
  rewrite (bool_decide_eq_true_2 (properties arm = properties arm)) by done.
  cbn [negb]. rewrite ok_bind, removelast_last, last_snoc.
  rewrite (bool_decide_eq_true_2 (children arm = children arm)) by done. cbn [negb].
  vm_compute. reflexivity.
Qed.

Lemma compare_root : all_named root = true → compare (Some i) root root' = Ok tt.
Proof using Harm.
  clear Hi Hnew. unfold root'. destruct root as [ps cs]. cbn [children properties] in *. intros Hn.
  cbn [compare all_named] in *. unfold compare_props. cbn [properties children].
  rewrite bool_decide_eq_true_2 by done. cbn [negb]. rewrite ok_bind.
  unfold zlen. rewrite length_insert, Z.eqb_refl. cbn [negb].
  assert (∀ k j, (∀ m, m < length cs → Some i = Some (m + k)%nat → m = j)%nat →
            i = (j + k)%nat → cs !! j = Some arm →
            compare_children (λ i0 x y, if decide (Some i = Some i0) then compare_arm_io x y
                                        else compare None x y) k cs (<[j := arm']> cs) = Ok tt) as Hgo.
  2:{ apply (Hgo 0%nat i); [intros m _ [= ->]; lia|lia|done]. }
  clear Harm. induction cs as [|c cs IH]; intros k j Hm Hij Hj; [done|].
  cbn [forallb] in Hn. rewrite !andb_true_iff in Hn. destruct Hn as [[Hnm Hc'] Hcs].
  destruct j as [|j].
  - injection Hj as ->. change (<[0%nat:=arm']> (arm :: cs)) with (arm' :: cs).
    cbn [compare_children]. change (node_name arm') with (node_name arm).
    destruct (node_name arm) as [nm|]; [|done]. rewrite !ok_bind.
    rewrite bool_decide_eq_true_2 by done. cbn [negb].
    rewrite decide_True by (f_equal; lia). rewrite compare_arm, ok_bind.
    clear IH Hm. assert (i < S k)%nat as Hlt by lia. revert Hlt. generalize (S k).
    induction cs as [|c cs IH]; intros m Hlt; [done|].
    cbn [forallb] in Hcs. rewrite !andb_true_iff in Hcs. destruct Hcs as [[Hnm' Hc''] Hcs].
    cbn [compare_children]. destruct (node_name c) as [nm'|]; [|done]. rewrite !ok_bind.
    rewrite bool_decide_eq_true_2 by done. cbn [negb].
    rewrite decide_False by (intros [= ->]; lia). rewrite (compare_same c Hc''), ok_bind.
    apply IH; [done|lia].
  - change (<[S j:=arm']> (c :: cs)) with (c :: <[j:=arm']> cs). cbn [compare_children].
    destruct (node_name c) as [nm|]; [|done]. rewrite !ok_bind.
    rewrite bool_decide_eq_true_2 by done. cbn [negb].
    rewrite decide_False by (intros [= ->]; lia). rewrite (compare_same c Hc'), ok_bind.
    apply IH; [done| |lia|done]. intros m Hlt [= E]. lia.
Qed.

Lemma contract_holds : all_named root = true → assert_output_contract root root' = Ok tt.
Proof using Hi Harm Hnew.
  intros Hn. unfold assert_output_contract.
  rewrite Hi, ok_bind, root'_index, ok_bind, root'_child, ok_bind, compare_root, ok_bind by done.
  rewrite arm'_rejected. by rewrite bool_decide_eq_true_2.
Qed.

Lemma root'_ok : node_ok root → zlen (children arm) < 2 ^ 32 - 1 → node_ok root'.
Proof using Harm.
  clear Hi Hnew. unfold root', arm'. destruct root as [ps cs]. cbn [node_ok properties children] in *.
  rewrite !foldr_Forall. intros (Hps & Hnp & Hnc & Hcs) Hlen.
  repeat split; [done|done| |].
  - unfold zlen in *. by rewrite length_insert.
  - apply Forall_insert; [done|]. rewrite Forall_lookup in Hcs. specialize (Hcs i arm Harm).
    destruct arm as [aps acs]. cbn [node_ok properties children] in *.
    rewrite foldr_Forall in *. destruct Hcs as (? & ? & ? & ?).
    repeat split; [done|done|rewrite zlen_app; change (zlen [leaf]) with 1; lia|].
    apply Forall_app. split; [done|]. apply Forall_singleton, leaf_ok.
Qed.

Lemma root'_size : node_size root' = node_size root + 120.
Proof using Harm.
  clear Hi Hnew. unfold root', arm'. destruct root as [ps cs]. cbn [node_size properties children] in *.
  fold (sizes cs). fold (sizes (<[i := mkNode (properties arm) (children arm ++ [leaf])]> cs)).
  rewrite (sizes_insert _ _ _ _ Harm). destruct arm as [aps acs].
  cbn [node_size properties children]. fold (sizes acs). fold (sizes (acs ++ [leaf])).
  rewrite sizes_app. assert (sizes [leaf] = 120) as -> by (vm_compute; reflexivity). lia.
Qed.
End generated.

Definition sample_source : list byte :=
  match string_property (u "name") (u "device-tree"), string_property (u "name") ARM_IO_NAME,
        string_property (u "name") (u "uart0") with
  | Ok p, Ok q, Ok r =>
      match encode_node (mkNode [p] [mkNode [q] [mkNode [r] []]]) with Ok l => l | _ => [] end
  | _, _, _ => []
  end.

(** ** Properties *)

(** The parser is lossless: a tree it accepts is encoded to the very bytes
    it was read from, whatever the names, lengths, flags and padding. *)
Theorem parse_tree_lossless data root :
  parse_tree data = Ok root → encode_node root = Ok data.
Proof.
  unfold parse_tree. intros H. simpl_res.
  apply parse_node_parsed in Hr as (_ & e & He & Ho & _ & Hz & _); [|lia].
  assert (z = zlen data) as Hzz by lia.
  rewrite (zdrop_le_0 0), (zdrop_ge z), app_nil_r in Hz by lia. by subst e.
Qed.

Lemma parse_tree_lossless_witness :
  ∃ root, parse_tree sample_source = Ok root ∧ encode_node root = Ok sample_source.
Proof.
  eexists. split; [vm_compute; reflexivity|].
  apply parse_tree_lossless. vm_compute. reflexivity.
Defined.

(** on a tree with one [arm-io], no provider and readable names, [generate]
    succeeds (every one of its own output checks passes), the output parses to
    the input tree with the provider leaf as the last child of [arm-io], it is
    120 bytes longer, and a second run on it is refused as a conflict. *)
Theorem generate_spec source root i arm :
  parse_tree source = Ok root → arm_io_index root = Ok i → children root !! i = Some arm →
  reject_existing_provider arm = Ok tt → all_named root = true →
  zlen (children arm) < 2 ^ 32 - 1 →
  ∃ out, generate source = Ok out ∧ zlen out = zlen source + 120 ∧
    parse_tree out
    = Ok (mkNode (properties root)
            (<[i := mkNode (properties arm) (children arm ++ [leaf])]> (children root))) ∧
    generate out = Raise ProviderConflict.
Proof.
  intros Hp Hi Harm Hnew Hnamed Hlen.
  assert (node_ok root ∧ encode_node root = Ok source) as [Hok Henc].
  { pose proof Hp as H. unfold parse_tree in H. simpl_res.
    apply parse_node_parsed in Hr as (Hn & e & He & Ho & _ & Hz & _); [|lia].
    assert (z = zlen source) as Hzz by lia.
    rewrite (zdrop_le_0 0), (zdrop_ge z), app_nil_r in Hz by lia. by subst e. }
  destruct (node_ok_encodes (root' root arm i)) as (out & Hout & H8 & Hread).
  { by apply root'_ok. }
  assert (parse_tree out = Ok (root' root arm i)) as Hpo.
  { unfold parse_tree, parse_node.
    pose proof (Hread (S (length out)) ltac:(lia) [] []) as Hr.
    rewrite app_nil_r in Hr. cbn [app] in Hr. change (zlen []) with 0 in Hr.
    rewrite Hr, ok_bind. cbn beta iota. by rewrite Z.add_0_l, Z.eqb_refl. }
  exists out. split; [|split; [|split; [done|]]].
  - unfold generate. rewrite Hp, !ok_bind. rewrite (add_provider_Ok root arm i) by done.
    rewrite ok_bind, Hout, ok_bind, Hpo, ok_bind, Hout, ok_bind.
    rewrite bool_decide_eq_true_2 by done. cbn [negb].
    by rewrite contract_holds.
  - rewrite (encode_node_size _ _ Hout), (root'_size root arm i Harm).
    by rewrite (encode_node_size _ _ Henc).
  - unfold generate. rewrite Hpo, !ok_bind. by rewrite (root'_conflict root arm i).
Qed.

Lemma generate_spec_witness :
  ∃ root i arm out, parse_tree sample_source = Ok root ∧ arm_io_index root = Ok i ∧
    children root !! i = Some arm ∧ generate sample_source = Ok out ∧
    zlen out = zlen sample_source + 120 ∧ generate out = Raise ProviderConflict.
Proof.
  assert (∃ root, parse_tree sample_source = Ok root ∧ arm_io_index root = Ok 0%nat ∧
          ∃ arm, children root !! 0%nat = Some arm ∧ reject_existing_provider arm = Ok tt ∧
                 all_named root = true ∧ zlen (children arm) = 1)
    as (root & Hp & Hi & arm & Ha & Hr & Hn & Hl).
  { eexists. split; [vm_compute; reflexivity|]. split; [vm_compute; reflexivity|].
    eexists. split; [vm_compute; reflexivity|]. repeat split; vm_compute; reflexivity. }
  destruct (generate_spec sample_source root 0%nat arm Hp Hi Ha Hr Hn ltac:(lia))
    as (out & Hg & Hlen & _ & Hc).
  exists root, 0%nat, arm, out. repeat split; assumption.
Defined.
