(* ===== verification/DcpEmu.v ===== *)
(** * The switch emulator of [tools/re/dcp_dtable.py]

    The tool finds which callback names a kernel accepts by interpreting the
    compiled dispatcher for every candidate name.  The disassembler
    (capstone) is the parameter [disasm]: it gives the mnemonic and operand
    text of one instruction; everything the interpreter does with that text,
    operand parsing included, is modelled.  The instruction cache of the
    source returns what [disasm] returned, as the image never changes, so it
    has no counterpart here. *)

From stdpp Require Import base tactics list list_numbers strings sets.
From Stdlib Require Import Strings.Byte.
From S2P Require Import Prelude PyBytes PyStr.
Open Scope Z_scope.

(** ** The image *)

Definition BASE : Z := 0xFFFFFFF007004000.
Definition M64 : Z := Z.shiftl 1 64 - 1.
Definition TOP : Z := 0xFFFFFFF00917D328.
Definition TOP_NAMEREG : Z := 2.

(** [l[a:c]] with Python's meaning of negative bounds. *)
Definition pybound {A} (l : list A) (i : Z) : Z :=
  if i <? 0 then Z.max 0 (i + zlen l) else i.
Definition pyslice {A} (a c : Z) (l : list A) : list A := slice (pybound l a) (pybound l c) l.

Definition window (d : list byte) (va n : Z) : list byte := pyslice (va - BASE) (va - BASE + n) d.
Definition u32 (d : list byte) (va : Z) : res Z := unpack_I (window d va 4).
Definition u64 (d : list byte) (va : Z) : res Z := unpack_Q (window d va 8).

Definition sx (v bits : Z) : Z :=
  let v := Z.land v (Z.shiftl 1 bits - 1) in
  if negb (Z.land v (Z.shiftl 1 (bits - 1)) =? 0) then v - Z.shiftl 1 bits else v.
(** ["<i"]: the two's complement reading of the same four bytes. *)
Definition s32 (d : list byte) (va : Z) : res Z := n ← unpack_I (window d va 4); Ok (sx n 32).

(** A chained-fixup word becomes the address it names. *)
Definition rebase (v : Z) : Z :=
  if Z.shiftr v 32 =? 0xFFFFFFF0 then v
  else if negb (Z.shiftr v 63 =? 0) then BASE + Z.land v 0xFFFFFFFF else v.

(** ** The machine state *)

Record cpu := Cpu { regs : list Z; fn : bool; fz : bool; fc : bool; fv : bool }.

(** [r[int(name[1:])]]: the index as Python resolves it. *)
Definition reg_index (name : list Z) : res nat :=
  n ← int10 (zdrop 1 name);
  if (0 <=? n) && (n <? 32) then Ok (Z.to_nat n)
  else if (-32 <=? n) && (n <? 0) then Ok (Z.to_nat (n + 32)) else Raise IndexError.
Definition is_zero_reg (name : list Z) : bool := bool_decide (name = u "xzr" ∨ name = u "wzr").

(** [name[0]]; the operand pieces are never empty when the text has one. *)
Definition head0 (name : list Z) : res Z := opt_or (head name) IndexError.

Definition rd (s : cpu) (name : list Z) : res Z :=
  let name := lower name in
  if is_zero_reg name then Ok 0
  else
    n ← reg_index name;
    v ← opt_or (regs s !! n) IndexError;
    h ← head0 name;
    Ok (if h =? 119 then Z.land v 0xFFFFFFFF else v).

Definition wr (s : cpu) (name : list Z) (val : Z) : res cpu :=
  let name := lower name in
  if is_zero_reg name then Ok s
  else
    n ← reg_index name;
    h ← head0 name;
    let val := if h =? 119 then Z.land val 0xFFFFFFFF else Z.land val M64 in
    Ok (Cpu (<[n := val]> (regs s)) (fn s) (fz s) (fc s) (fv s)).

(** NZCV of [a - b] or [a + b] at a width, with the result. *)
Definition bit (x i : Z) : bool := negb (Z.land (Z.shiftr x i) 1 =? 0).
Definition flags (s : cpu) (a b bits : Z) (sub : bool) : Z * cpu :=
  let m := Z.shiftl 1 bits - 1 in
  let a := Z.land a m in
  let b := Z.land b m in
  let '(res, c, v) :=
    if sub then
      let res := Z.land (a - b) m in
      (res, b <=? a, bit (Z.land (Z.lxor a b) (Z.lxor a res)) (bits - 1))
    else
      let full := a + b in
      let res := Z.land full m in
      (res, m <? full, bit (Z.land (Z.lnot (Z.lxor a b)) (Z.lxor a res)) (bits - 1)) in
  (res, Cpu (regs s) (bit res (bits - 1)) (res =? 0) c v).

Definition cond (s : cpu) (cc : list Z) : res bool :=
  let '(n, z, c, v) := (fn s, fz s, fc s, fv s) in
  let table :=
    [(u "eq", z); (u "ne", negb z); (u "hs", c); (u "cs", c); (u "lo", negb c); (u "cc", negb c);
     (u "mi", n); (u "pl", negb n); (u "vs", v); (u "vc", negb v);
     (u "hi", c && negb z); (u "ls", negb c || z);
     (u "ge", Bool.eqb n v); (u "lt", negb (Bool.eqb n v));
     (u "gt", negb z && Bool.eqb n v); (u "le", z || negb (Bool.eqb n v));
     (u "al", true); (u "nv", true)] in
  match List.find (λ p, bool_decide (p.1 = cc)) table with
  | Some p => Ok p.2
  | None => Raise (KeyError cc)
  end.

(** ** Operand text *)

Definition operands (op_str : list Z) : list (list Z) := map strip (split1 44 op_str).
Definition op (ops : list (list Z)) (i : nat) : res (list Z) := opt_or (ops !! i) IndexError.
(** [int(t[1:], 0)], for an operand ["#imm"]. *)
Definition imm (t : list Z) : res Z := int0 (zdrop 1 t).
Definition is_imm (t : list Z) : bool := startswith (u "#") t.
Definition imm_or_reg (s : cpu) (t : list Z) : res Z := if is_imm t then imm t else rd s t.
(** [int(t.split("#")[1], 0)], the amount of a shift such as ["lsl #3"]. *)
Definition amount (t : list Z) : res Z := p ← op (split1 35 t) 1; int0 p.
Definition amount_or0 (t : list Z) : res Z := if contains (u "#") t then amount t else Ok 0.
Definition shl (a n : Z) : res Z :=
  raise_if n <? 0 with ValueError "negative shift count" ;; Ok (Z.shiftl a n).
Definition shr (a n : Z) : res Z :=
  raise_if n <? 0 with ValueError "negative shift count" ;; Ok (Z.shiftr a n).
Definition is_w (t : list Z) : res bool := c ← head0 t; Ok ((c =? 119) || (c =? 87)).

(** The shift and extension pieces of an arithmetic operand. *)
Definition arith_mod (b : Z) (r : list Z) : res Z :=
  if contains (u "lsl") r then n ← amount r; t ← shl b n; Ok (Z.land t M64)
  else if contains (u "uxtw") r then n ← amount_or0 r; shl (Z.land b 0xFFFFFFFF) n
  else if contains (u "sxtw") r then n ← amount_or0 r; t ← shl (sx b 32) n; Ok (Z.land t M64)
  else Ok b.
Definition index_mod (idx : Z) (r : list Z) : res Z :=
  if contains (u "lsl") r then n ← amount r; shl idx n
  else if contains (u "uxtw") r then n ← amount_or0 r; shl (Z.land idx 0xFFFFFFFF) n
  else if contains (u "sxtw") r then n ← amount_or0 r; shl (sx idx 32) n
  else Ok idx.

(** [txt.index("[")] and [txt.rindex("]")]; absent, [ValueError]. *)
Definition first_at (c : Z) (t : list Z) : res Z :=
  opt_or (PyBytes.find [c] t) (ValueError "substring not found").
Definition last_at (c : Z) (t : list Z) : res Z :=
  i ← first_at c (reverse t); Ok (zlen t - 1 - i).
Definition mem (s : cpu) (ops : list (list Z)) : res (Z * Z) :=
  let txt := join1 44 ops in
  i ← first_at 91 txt; j ← last_at 93 txt;
  let parts := operands (slice (i + 1) j txt) in
  p0 ← op parts 0; base ← rd s p0;
  idx ← match parts !! 1%nat with
        | None => Ok 0
        | Some p => if is_imm p then imm p
                    else idx ← rd s p; res_foldl index_mod idx (drop 2 parts)
        end;
  Ok (base, Z.land idx M64).

(** ** The interpreter *)

Inductive outcome := Next (s : cpu) (pc : Z) | Ret (v : Z).

Definition among (m : list Z) (l : list string) : bool := existsb (λ x, bool_decide (m = u x)) l.
Definition mn_is (m : list Z) (x : string) : bool := bool_decide (m = u x).

Section interpreter.
Variable d : list byte.
(** One instruction: its mnemonic and operand text; [None]: no instruction. *)
Variable disasm : list byte → Z → option (list Z * list Z).

Definition insn (va : Z) : res (list Z * list Z) :=
  opt_or (disasm (window d va 4) va) StopIteration.

Definition exec_arith (s : cpu) (m : list Z) (ops : list (list Z)) : res cpu :=
  let compares := among m ["cmp"; "cmn"] in
  let k := if compares then 0%nat else 1%nat in
  dst ← (if compares then Ok None else t ← op ops 0; Ok (Some t));
  a_s ← op ops k; b_s ← op ops (S k);
  w ← is_w (match dst with Some (c :: t) => c :: t | _ => a_s end);
  let bits := if (w : bool) then 32 else 64 in
  a ← rd s a_s;
  b ← imm_or_reg s b_s;
  b ← res_foldl arith_mod b (drop (S (S k)) ops);
  let sub := among m ["sub"; "subs"; "cmp"] in
  let '(res, s) :=
    if among m ["adds"; "subs"; "cmp"; "cmn"] then flags s a b bits sub
    else (Z.land (if sub then a - b else a + b) (Z.shiftl 1 bits - 1), s) in
  match dst with Some (c :: t) => wr s (c :: t) res | _ => Ok s end.

Definition exec_logic (s : cpu) (m : list Z) (ops : list (list Z)) : res cpu :=
  o1 ← op ops 1; a ← rd s o1; o2 ← op ops 2; b ← imm_or_reg s o2; o0 ← op ops 0;
  wr s o0 (if mn_is m "and" then Z.land a b else if mn_is m "orr" then Z.lor a b else Z.lxor a b).

Definition exec_movk (s : cpu) (ops : list (list Z)) : res cpu :=
  sh ← match ops !! 2%nat with
       | Some t => if contains (u "lsl") t then amount t else Ok 0
       | None => Ok 0
       end;
  o0 ← op ops 0; cur ← rd s o0; o1 ← op ops 1; i ← imm o1;
  mask ← shl 0xFFFF sh; v ← shl i sh;
  wr s o0 (Z.lor (Z.land cur (Z.lnot mask)) v).

Definition exec_ccmp (s : cpu) (ops : list (list Z)) : res cpu :=
  o3 ← op ops 3; c ← cond s o3;
  if (c : bool) then
    o1 ← op ops 1; b ← imm_or_reg s o1; o0 ← op ops 0; a ← rd s o0; w ← is_w o0;
    Ok (flags s a b (if (w : bool) then 32 else 64) true).2
  else
    o2 ← op ops 2; f ← imm o2;
    Ok (Cpu (regs s) (bit f 3) (bit f 2) (bit f 1) (bit f 0)).

Definition exec_ldr (s : cpu) (m : list Z) (ops : list (list Z)) : res cpu :=
  '(base, idx) ← mem s (drop 1 ops);
  o0 ← op ops 0; c ← head0 o0;
  v ← (if mn_is m "ldrsw" then v ← s32 d (base + idx); Ok (Z.land v M64)
       else if (c =? 120) || (c =? 88) then u64 d (base + idx) else u32 d (base + idx));
  wr s o0 v.

(** The instructions that only write registers and flags; [None]: another. *)
Definition exec_data (s : cpu) (m : list Z) (ops : list (list Z)) : option (res cpu) :=
  if among m ["bti"; "nop"; "pacibsp"; "autibsp"; "paciza"; "xpacd"; "dmb"; "hint";
              "pacia"; "pacda"; "autda"; "autia"] then Some (Ok s)
  else if mn_is m "mov" then
    Some (src ← op ops 1; v ← imm_or_reg s src; o0 ← op ops 0; wr s o0 v)
  else if mn_is m "movz" then
    Some (o1 ← op ops 1; v ← imm o1; o0 ← op ops 0; wr s o0 v)
  else if mn_is m "movk" then Some (exec_movk s ops)
  else if among m ["add"; "sub"; "adds"; "subs"; "cmp"; "cmn"] then Some (exec_arith s m ops)
  else if among m ["and"; "orr"; "eor"] then Some (exec_logic s m ops)
  else if among m ["lsr"; "lsl"] then
    Some (o1 ← op ops 1; a ← rd s o1; o2 ← op ops 2; n ← imm_or_reg s o2;
          v ← (if mn_is m "lsr" then shr a n else shl a n); o0 ← op ops 0; wr s o0 v)
  else if mn_is m "csel" then
    Some (o3 ← op ops 3; c ← cond s o3; o ← op ops (if (c : bool) then 1 else 2);
          v ← rd s o; o0 ← op ops 0; wr s o0 v)
  else if mn_is m "csneg" then
    Some (o3 ← op ops 3; c ← cond s o3; o ← op ops (if (c : bool) then 1 else 2); v ← rd s o;
          o0 ← op ops 0; wr s o0 (if (c : bool) then v else Z.land (- v) M64))
  else if mn_is m "cset" then
    Some (o1 ← op ops 1; c ← cond s o1; o0 ← op ops 0; wr s o0 (if (c : bool) then 1 else 0))
  else if mn_is m "ccmp" then Some (exec_ccmp s ops)
  else if among m ["adrp"; "adr"] then
    Some (o1 ← op ops 1; v ← imm o1; o0 ← op ops 0; wr s o0 v)
  else if among m ["ldrsw"; "ldr"] then Some (exec_ldr s m ops)
  else None.

(** Where a branch goes, [None] for the next instruction. *)
Definition exec_branch (s : cpu) (m : list Z) (ops : list (list Z)) : option (res (option Z)) :=
  if mn_is m "b" then Some (o0 ← op ops 0; t ← imm o0; Ok (Some t))
  else if startswith (u "b.") m || startswith (u "bc.") m then
    Some (c ← cond s (tail (dropwhile (λ x, negb (x =? 46)) m));
          if (c : bool) then o0 ← op ops 0; t ← imm o0; Ok (Some t) else Ok None)
  else if among m ["cbz"; "cbnz"] then
    Some (o0 ← op ops 0; v ← rd s o0;
          if Bool.eqb (v =? 0) (mn_is m "cbz") then o1 ← op ops 1; t ← imm o1; Ok (Some t) else Ok None)
  else if among m ["tbz"; "tbnz"] then
    Some (o0 ← op ops 0; v ← rd s o0; o1 ← op ops 1; i ← imm o1; w ← shr v i;
          if Bool.eqb (Z.land w 1 =? 0) (mn_is m "tbz")
          then o2 ← op ops 2; t ← imm o2; Ok (Some t) else Ok None)
  else if mn_is m "br" then Some (o0 ← op ops 0; t ← rd s o0; Ok (Some t))
  else if among m ["braa"; "brab"] then
    Some (o0 ← op ops 0; t ← rd s o0; Ok (Some (rebase t)))
  else None.

Definition step (s : cpu) (pc : Z) : res outcome :=
  '(m, op_str) ← insn pc;
  let ops := operands op_str in
  match exec_data s m ops with
  | Some r => s' ← r; Ok (Next s' (pc + 4))
  | None =>
      match exec_branch s m ops with
      | Some r => t ← r; Ok (Next s (default (pc + 4) t))
      | None =>
          if among m ["ret"; "retab"] then r0 ← opt_or (regs s !! 0%nat) IndexError; Ok (Ret (rebase r0))
          else Raise NotImplementedError
      end
  end.

Fixpoint run_from (limit : nat) (s : cpu) (pc : Z) : res Z :=
  match limit with
  | O => Raise (RuntimeError "no ret within the limit")
  | S limit =>
      o ← step s pc;
      match o with
      | Ret v => Ok v
      | Next s pc => run_from limit s pc
      end
  end.

Definition start (namereg : nat) (name : Z) : cpu :=
  Cpu (<[namereg := name]> (replicate 32 0)) false false false false.
Definition run (entry : Z) (namereg : nat) (name : Z) (limit : nat) : res Z :=
  run_from limit (start namereg name) entry.

(** ** The signature reader and the enumeration *)

Fixpoint sig_from (n : nat) (va : Z) (in_len out_len : option Z) : res (option Z * option Z) :=
  match n with
  | O => Ok (in_len, out_len)
  | S n =>
      match insn va with
      | Raise StopIteration => Ok (in_len, out_len)
      | Raise e => Raise e
      | Ok (m, op_str) =>
          '(in_len, out_len) ←
            (if mn_is m "cmp" then
               match operands op_str with
               | [o0; o1] =>
                   if is_imm o1 then
                     if bool_decide (o0 = u "w3") && bool_decide (in_len = None)
                     then v ← imm o1; Ok (Some v, out_len)
                     else if bool_decide (o0 = u "w5") && bool_decide (out_len = None)
                     then v ← imm o1; Ok (in_len, Some v)
                     else Ok (in_len, out_len)
                   else Ok (in_len, out_len)
               | _ => Ok (in_len, out_len)
               end
             else Ok (in_len, out_len));
          if among m ["bl"; "blraa"; "blraaz"] then Ok (in_len, out_len)
          else sig_from n (va + 4) in_len out_len
      end
  end.
Definition sig (handler : Z) : res (option Z * option Z) := sig_from 48 handler None None.

(** ["%s%03d"] for [0 ≤ n < 1000]. *)
Definition dname (letter : list Z) (n : Z) : list Z :=
  letter ++ [48 + n / 100; 48 + n / 10 mod 10; 48 + n mod 10].

(** The handlers found, in the order of the names; a name whose emulation
    raises, or gives zero, is passed over. *)
Definition try_name (entry : Z) (namereg : nat) (letter : list Z) (n : Z)
  : res (option (list Z * Z)) :=
  enc ← utf8_encode (dname letter n);
  val ← unpack_be 4 enc 0;
  if negb (zlen enc =? 4) then Raise StructError
  else match run entry namereg val 400 with
       | Ok h => Ok (if h =? 0 then None else Some (dname letter n, h))
       | Raise _ => Ok None
       end.
Definition enumerate (entry : Z) (namereg : nat) (letter : list Z) : res (list (list Z * Z)) :=
  found ← res_map (try_name entry namereg letter) (seqZ 0 1000);
  Ok (concat (map (λ o, match o with Some p => [p] | None => [] end) found)).
Definition main (entry : Z) (namereg : nat) (letter : list Z)
  : res (list (list Z * Z * (option Z * option Z))) :=
  found ← enumerate entry namereg letter;
  res_map (λ '(nm, h), s ← sig h; Ok (nm, h, s)) found.
End interpreter.

(** ** Flags and comparisons *)

Definition signed (bits x : Z) : Z := if 2 ^ (bits - 1) <=? x then x - 2 ^ bits else x.

Lemma bit_testbit x i : 0 ≤ i → bit x i = Z.testbit x i.
Proof.
  intros Hi. unfold bit. change 1 with (Z.ones 1). rewrite Z.land_ones by lia.
  change (2 ^ 1) with 2. rewrite <-Z.bit0_mod, Z.shiftr_spec, Z.add_0_l by lia. by destruct (Z.testbit x i).
Qed.

Lemma testbit_top k x : 0 ≤ k → 0 ≤ x < 2 * 2 ^ k → Z.testbit x k = (2 ^ k <=? x).
Proof.
  intros Hk Hx. destruct (2 ^ k <=? x) eqn:E.
  - apply Z.testbit_true; [done|]. assert (x / 2 ^ k = 1) as ->; [|done].
    symmetry. apply (Z.div_unique _ _ _ (x - 2 ^ k)); lia.
  - apply Z.testbit_false; [done|]. by rewrite Z.div_small by lia.
Qed.

(** The eight facts about [cmp a, b] that the conditions test. *)
Record cmp_facts (s : cpu) (lt_u eq lt_s : bool) : Prop := CmpFacts {
  is_eq : cond s (u "eq") = Ok eq;
  is_ne : cond s (u "ne") = Ok (negb eq);
  is_hs : cond s (u "hs") = Ok (negb lt_u);
  is_lo : cond s (u "lo") = Ok lt_u;
  is_hi : cond s (u "hi") = Ok (negb lt_u && negb eq);
  is_ls : cond s (u "ls") = Ok (lt_u || eq);
  is_ge : cond s (u "ge") = Ok (negb lt_s);
  is_lt : cond s (u "lt") = Ok lt_s;
  is_gt : cond s (u "gt") = Ok (negb lt_s && negb eq);
  is_le : cond s (u "le") = Ok (lt_s || eq);
}.

Lemma cmp_facts_intro s lt_u eq lt_s :
  fz s = eq → fc s = negb lt_u → negb (Bool.eqb (fn s) (fv s)) = lt_s →
  cmp_facts s lt_u eq lt_s.
Proof.
  intros <- Hc <-. split; cbn -[Bool.eqb]; rewrite ?Hc; f_equal;
    repeat match goal with |- context [negb (negb ?x)] => rewrite (negb_involutive x) end;
    try done; try apply andb_comm; try apply orb_comm.
Qed.

Lemma flags_sub_eq s a b bits :
  0 < bits →
  let ua := a mod 2 ^ bits in
  let ub := b mod 2 ^ bits in
  let r := (ua - ub) mod 2 ^ bits in
  let top x := 2 ^ (bits - 1) <=? x in
  flags s a b bits true
  = (r, Cpu (regs s) (top r) (r =? 0) (ub <=? ua)
          (xorb (top ua) (top ub) && xorb (top ua) (top r))).
Proof.
  intros Hb. cbv zeta. unfold flags.
  rewrite Z.shiftl_1_l, Z.sub_1_r, <-Z.ones_equiv.
  rewrite !Z.land_ones by lia.
  assert (2 ^ bits = 2 * 2 ^ (bits - 1)) as Hp by (rewrite <-Z.pow_succ_r by lia; f_equal; lia).
  pose proof (Z.pow_pos_nonneg 2 (bits - 1)).
  pose proof (Z.mod_pos_bound a (2 ^ bits) ltac:(lia)).
  pose proof (Z.mod_pos_bound b (2 ^ bits) ltac:(lia)).
  pose proof (Z.mod_pos_bound (a mod 2 ^ bits - b mod 2 ^ bits) (2 ^ bits) ltac:(lia)).
  rewrite !bit_testbit, Z.land_spec, !Z.lxor_spec by lia.
  by rewrite !testbit_top by lia.
Qed.

(** ** Registers *)

Definition regs_ok (s : cpu) : Prop :=
  length (regs s) = 32%nat ∧ Forall (λ r, 0 ≤ r < 2 ^ 64) (regs s).

Lemma wr_ok s name val s' : regs_ok s → wr s name val = Ok s' → regs_ok s'.
Proof.
  intros [Hlen Hall] H. unfold wr in H. destruct (is_zero_reg _); simpl_res; [done|].
  cbn [regs]. split; [cbn; by rewrite length_insert|].
  cbn. apply Forall_insert; [done|].
  destruct (r0 =? 119); cbv zeta.
  - change 0xFFFFFFFF with (Z.ones 32). rewrite Z.land_ones by lia.
    pose proof (Z.mod_pos_bound val (2 ^ 32) ltac:(lia)). lia.
  - unfold M64. rewrite Z.shiftl_1_l, Z.sub_1_r, <-Z.ones_equiv, Z.land_ones by lia.
    apply Z.mod_pos_bound. lia.
Qed.
Lemma flags_regs s a b bits sub : regs (flags s a b bits sub).2 = regs s.
Proof. unfold flags. by destruct sub. Qed.
Lemma same_regs s s' : regs s' = regs s → regs_ok s → regs_ok s'.
Proof. unfold regs_ok. by intros ->. Qed.

Create HintDb emu.
#[export] Hint Resolve wr_ok same_regs : emu.

Lemma exec_arith_ok s m ops s' : regs_ok s → exec_arith s m ops = Ok s' → regs_ok s'.
Proof.
  intros Hs H. unfold exec_arith in H. simpl_res.
  destruct (among m ["adds"; "subs"; "cmp"; "cmn"]).
  - pose proof (flags_regs s r3 r5 (if (r2 : bool) then 32 else 64)
                  (among m ["sub"; "subs"; "cmp"])) as Hf.
    destruct (flags s r3 r5 _ _) as [res s1]. cbn in Hf.
    destruct r as [[|c t]|]; simpl_res; eauto with emu.
  - destruct r as [[|c t]|]; simpl_res; eauto with emu.
Qed.

Lemma exec_data_ok d s m ops s' :
  regs_ok s → exec_data d s m ops = Some (Ok s') → regs_ok s'.
Proof.
  intros Hs H. unfold exec_data in H.
  repeat match type of H with
         | (if ?c then Some ?r else _) = _ =>
             destruct c; [injection H as H|]
         end; try done; try by (injection H as <-).
  all: unfold exec_movk, exec_logic, exec_ccmp, exec_ldr in *;
    try (eapply exec_arith_ok; eassumption); try (simpl_res; by eauto with emu).
  - by subst.
  - simpl_res. destruct r0; simpl_res; (eapply same_regs; [|exact Hs]); [apply flags_regs|done].
Qed.

Lemma step_ok d disasm s pc s' pc' :
  regs_ok s → step d disasm s pc = Ok (Next s' pc') → regs_ok s'.
Proof.
  intros Hs H. unfold step in H. simpl_res.
  destruct (exec_data d s l (operands l0)) as [r|] eqn:E.
  - simpl_res. injection H as -> _. by eapply exec_data_ok.
  - destruct (exec_branch _ _ _) as [r|]; [simpl_res; by injection H as -> _|].
    destruct (among _ _); simpl_res. discriminate H.
Qed.

(** A dispatcher in four instructions: [cmp w2, #5; b.eq +8; mov x0, #0; ret],
    then [adr x0, table; ret] at the branch target. *)
Definition toy_image : list byte := replicate 32 x00.
Definition toy_disasm (_ : list byte) (va : Z) : option (list Z * list Z) :=
  let k := va - BASE in
  if k =? 0 then Some (u "cmp", u "w2, #5")
  else if k =? 4 then Some (u "b.hs", u "#0xfffffff007004010")
  else if k =? 8 then Some (u "mov", u "x0, xzr")
  else if k =? 12 then Some (u "ret", u "")
  else if k =? 16 then Some (u "add", u "x0, x0, w2, uxtw #3")
  else if k =? 20 then Some (u "ret", u "")
  else None.

(** ** Properties *)

(** after [cmp a, b] at any width every condition of the interpreter is
    the comparison it stands for: [hs], [lo], [hi], [ls] compare the operands
    as unsigned numbers of that width and [ge], [lt], [gt], [le] as signed
    ones, whatever the operands; the registers are untouched. *)
Theorem cmp_conditions s a b bits :
  0 < bits →
  let s' := (flags s a b bits true).2 in
  let ua := a mod 2 ^ bits in
  let ub := b mod 2 ^ bits in
  regs s' = regs s ∧
  cmp_facts s' (ua <? ub) (ua =? ub) (signed bits ua <? signed bits ub).
Proof.
  intros Hb. cbv zeta. split; [apply flags_regs|]. rewrite flags_sub_eq by done. cbn [snd].
  assert (2 ^ bits = 2 * 2 ^ (bits - 1)) as Hp by (rewrite <-Z.pow_succ_r by lia; f_equal; lia).
  pose proof (Z.pow_pos_nonneg 2 (bits - 1)).
  pose proof (Z.mod_pos_bound a (2 ^ bits) ltac:(lia)).
  pose proof (Z.mod_pos_bound b (2 ^ bits) ltac:(lia)).
  set (ua := a mod 2 ^ bits) in *. set (ub := b mod 2 ^ bits) in *. clearbody ua ub.
  assert ((ua - ub) mod 2 ^ bits = if ub <=? ua then ua - ub else ua - ub + 2 ^ bits) as ->.
  { destruct (ub <=? ua) eqn:E; [apply Z.mod_small; lia|].
    symmetry. apply (Z.mod_unique_pos _ _ (-1)); lia. }
  unfold signed. rewrite Hp. set (P := 2 ^ (bits - 1)) in *. clearbody P.
  apply cmp_facts_intro; cbn [fz fc fn fv].
  - destruct (ub <=? ua) eqn:E; lia.
  - lia.
  - destruct (ub <=? ua) eqn:E, (P <=? ua) eqn:Ea, (P <=? ub) eqn:Eb; cbn [xorb negb andb];
      match goal with |- context [P <=? ?x] => destruct (P <=? x) eqn:Er end; cbn; lia.
Qed.

Lemma cmp_conditions_witness :
  0 < 32 ∧ cmp_facts (flags (start 2 5) 0xFFFFFFFF 1 32 true).2 false false true.
Proof. split; [lia|]. exact (proj2 (cmp_conditions (start 2 5) 0xFFFFFFFF 1 32 ltac:(lia))). Defined.

(** C40: every register holds a 64-bit value at every step of a run that begins
    with one, whatever the disassembler reports and the image holds. *)
Theorem registers_stay_64bit d disasm s pc s' pc' :
  regs_ok s → step d disasm s pc = Ok (Next s' pc') → regs_ok s'.
Proof. apply step_ok. Qed.

Lemma registers_stay_64bit_witness :
  ∃ s', step toy_image toy_disasm (start 2 7) (BASE + 16) = Ok (Next s' (BASE + 20)) ∧
        regs_ok s' ∧ run toy_image toy_disasm BASE 2 7 400 = Ok 56.
Proof.
  eexists. split; [vm_compute; reflexivity|]. split; [|vm_compute; reflexivity].
  apply (registers_stay_64bit toy_image toy_disasm (start 2 7) (BASE + 16) _ (BASE + 20)).
  - split; [reflexivity|]. cbn. repeat (constructor; [lia|]). constructor.
  - vm_compute. reflexivity.
Defined.

(** [rebase] maps a marked fixup word to the address of its file offset and
    leaves addresses alone, so applying it twice changes nothing more. *)
Theorem rebase_spec v :
  0 ≤ v < 2 ^ 64 → Z.land v 0xFFFFFFFF < 2 ^ 32 - 0x7004000 →
  rebase v = (if (2 ^ 63 <=? v) && negb (v / 2 ^ 32 =? 0xFFFFFFF0)
              then BASE + v mod 2 ^ 32 else v) ∧
  rebase (rebase v) = rebase v.
Proof.
  intros Hv Hoff.
  assert (Z.land v 0xFFFFFFFF = v mod 2 ^ 32) as Hl.
  { change 0xFFFFFFFF with (Z.ones 32). apply Z.land_ones. lia. }
  assert (∀ w, Z.shiftr w 32 = w / 2 ^ 32) as Hs by (intros; apply Z.shiftr_div_pow2; lia).
  assert (Z.shiftr v 63 = if 2 ^ 63 <=? v then 1 else 0) as H63.
  { rewrite Z.shiftr_div_pow2 by lia. destruct (2 ^ 63 <=? v) eqn:E.
    - symmetry. apply (Z.div_unique _ _ _ (v - 2 ^ 63)); lia.
    - apply Z.div_small. lia. }
  assert (rebase v = (if (2 ^ 63 <=? v) && negb (v / 2 ^ 32 =? 0xFFFFFFF0)
              then BASE + v mod 2 ^ 32 else v)) as Hr.
  { unfold rebase. rewrite Hs, Hl, H63.
    by destruct (v / 2 ^ 32 =? 0xFFFFFFF0), (2 ^ 63 <=? v). }
  split; [exact Hr|].
  destruct ((2 ^ 63 <=? v) && negb (v / 2 ^ 32 =? 0xFFFFFFF0)) eqn:E; [|by rewrite !Hr].
  rewrite Hr. unfold rebase. rewrite Hs.
  assert ((BASE + v mod 2 ^ 32) / 2 ^ 32 = 0xFFFFFFF0) as ->; [|done].
  symmetry. pose proof (Z.mod_pos_bound v (2 ^ 32) ltac:(lia)).
  apply (Z.div_unique _ _ _ (0x7004000 + v mod 2 ^ 32)); unfold BASE; lia.
Qed.

Lemma rebase_spec_witness :
  0 ≤ 0x80110000030cc538 < 2 ^ 64 ∧ rebase 0x80110000030cc538 = 0xfffffff00a0d0538 ∧
  rebase (rebase 0x80110000030cc538) = rebase 0x80110000030cc538.
Proof.
  split; [lia|]. split; [vm_compute; reflexivity|].
  apply (rebase_spec 0x80110000030cc538); [lia|vm_compute; reflexivity].
Defined.
