(* ===== verification/Sha256.v ===== *)
(** * SHA-256

    Python's [hashlib.sha256], which the patching tools use to pin the files
    and code pages they edit: FIPS 180-4 on 32-bit words kept in [Z]. *)

From stdpp Require Import base tactics list list_numbers strings.
From Stdlib Require Import Strings.Byte.
From S2P Require Import Prelude PyBytes PyStr.
Open Scope Z_scope.

Module Sha256.

Definition M32 : Z := 0xFFFFFFFF.
Definition add32 (x y : Z) : Z := Z.land (x + y) M32.
Definition rotr (x n : Z) : Z := Z.lor (Z.shiftr x n) (Z.land (Z.shiftl x (32 - n)) M32).
Definition xor3 (x y z : Z) : Z := Z.lxor x (Z.lxor y z).

Definition big0 (x : Z) : Z := xor3 (rotr x 2) (rotr x 13) (rotr x 22).
Definition big1 (x : Z) : Z := xor3 (rotr x 6) (rotr x 11) (rotr x 25).
Definition small0 (x : Z) : Z := xor3 (rotr x 7) (rotr x 18) (Z.shiftr x 3).
Definition small1 (x : Z) : Z := xor3 (rotr x 17) (rotr x 19) (Z.shiftr x 10).
Definition choose (x y z : Z) : Z := Z.lxor (Z.land x y) (Z.land (Z.lxor x M32) z).
Definition majority (x y z : Z) : Z := xor3 (Z.land x y) (Z.land x z) (Z.land y z).

(** The constants are the first 32 fractional bits of the cube roots of the
    first 64 primes and of the square roots of the first eight. *)
Definition is_prime (n : Z) : bool := forallb (λ d, negb (n mod d =? 0)) (seqZ 2 (n - 2)).
Definition primes : list Z := filter (λ n, is_prime n = true) (seqZ 2 310).
(** The integer cube root below [2 ^ bits], by bits from the top. *)
Fixpoint cube_root (bits : nat) (x n : Z) : Z :=
  match bits with
  | O => x
  | S bits => let y := x + 2 ^ Z.of_nat bits in cube_root bits (if y * y * y <=? n then y else x) n
  end.
Definition round_constants : list Z :=
  Eval vm_compute in map (λ p, Z.land (cube_root 36 0 (p * 2 ^ 96)) M32) primes.
Definition square_root_words : list Z :=
  Eval vm_compute in map (λ p, Z.land (Z.sqrt (p * 2 ^ 64)) M32) (take 8 primes).

Record state := State { sa : Z; sb : Z; sc : Z; sd : Z; se : Z; sf : Z; sg : Z; sh : Z }.
Definition initial : state :=
  let w i := nth i square_root_words 0 in
  State (w 0%nat) (w 1%nat) (w 2%nat) (w 3%nat) (w 4%nat) (w 5%nat) (w 6%nat) (w 7%nat).

Definition round (s : state) (k w : Z) : state :=
  let t1 := add32 (sh s) (add32 (big1 (se s)) (add32 (choose (se s) (sf s) (sg s)) (add32 k w))) in
  let t2 := add32 (big0 (sa s)) (majority (sa s) (sb s) (sc s)) in
  State (add32 t1 t2) (sa s) (sb s) (sc s) (add32 (sd s) t1) (se s) (sf s) (sg s).

(** The next sixteen schedule words: the first one leaves, a new one enters. *)
Definition next_words (ws : list Z) : list Z :=
  match ws with
  | w0 :: w1 :: _ =>
      tail ws ++ [add32 (small1 (nth 14 ws 0)) (add32 (nth 9 ws 0) (add32 (small0 w1) w0))]
  | _ => ws
  end.
Fixpoint rounds (ks : list Z) (ws : list Z) (s : state) : state :=
  match ks with
  | [] => s
  | k :: ks => rounds ks (next_words ws) (round s k (nth 0 ws 0))
  end.
Definition add_state (x y : state) : state :=
  State (add32 (sa x) (sa y)) (add32 (sb x) (sb y)) (add32 (sc x) (sc y)) (add32 (sd x) (sd y))
        (add32 (se x) (se y)) (add32 (sf x) (sf y)) (add32 (sg x) (sg y)) (add32 (sh x) (sh y)).

(** The big-endian words of a block. *)
Fixpoint words (n : nat) (l : list byte) : list Z :=
  match n with O => [] | S n => be_Z (ztake 4 l) :: words n (zdrop 4 l) end.
Fixpoint blocks (n : nat) (l : list byte) (s : state) : state :=
  match n with
  | O => s
  | S n => blocks n (zdrop 64 l) (add_state s (rounds round_constants (words 16 (ztake 64 l)) s))
  end.

Definition pad (l : list byte) : list byte :=
  l ++ x80 :: replicate (Z.to_nat ((55 - zlen l) mod 64)) x00 ++ be_bytes 8 (8 * zlen l).
Definition digest (s : state) : list byte :=
  concat (map (be_bytes 4) [sa s; sb s; sc s; sd s; se s; sf s; sg s; sh s]).
Definition sha256 (l : list byte) : list byte :=
  digest (blocks (Z.to_nat (zlen (pad l) / 64)) (pad l) initial).

Lemma zlen_be_bytes n z : zlen (be_bytes n z) = Z.of_nat n.
Proof. unfold zlen, be_bytes. by rewrite length_reverse, length_le_bytes. Qed.
Lemma zlen_digest l : zlen (sha256 l) = 32.
Proof.
  unfold sha256, digest. cbn [map concat]. rewrite !zlen_app, !zlen_be_bytes. reflexivity.
Qed.

(** The padded message is a whole number of blocks. *)
Lemma zlen_pad l : zlen (pad l) mod 64 = 0.
Proof.
  unfold pad. rewrite zlen_app, zlen_cons, zlen_app, zlen_replicate, zlen_be_bytes.
  pose proof (Z.mod_pos_bound (55 - zlen l) 64). rewrite Z2Nat.id by lia.
  pose proof (Z.div_mod (55 - zlen l) 64).
  replace (zlen l + (1 + ((55 - zlen l) mod 64 + Z.of_nat 8))) with ((1 - (55 - zlen l) / 64) * 64) by lia.
  apply Z.mod_mul. lia.
Qed.

(** The published vectors: the empty message, one block, two blocks. *)
Example sha256_empty : hex_of_bytes (sha256 []) =
  u "e3b0c44298fc1c149afbf4c8996fb92427ae41e4649b934ca495991b7852b855".
Proof. vm_compute. reflexivity. Qed.
Example sha256_abc : hex_of_bytes (sha256 (b "abc")) =
  u "ba7816bf8f01cfea414140de5dae2223b00361a396177a9cb410ff61f20015ad".
Proof. vm_compute. reflexivity. Qed.
Example sha256_two_blocks :
  hex_of_bytes (sha256 (b "abcdbcdecdefdefgefghfghighijhijkijkljklmklmnlmnomnopnopq")) =
  u "248d6a61d20638b8e5c026930c3e6039a33ce45964ff2167f6ecedd419db06c1".
Proof. vm_compute. reflexivity. Qed.

End Sha256.

(** [hashlib.sha256(l).digest()] and [.hexdigest()]. *)
Definition sha256 (l : list byte) : list byte := Sha256.sha256 l.
Definition sha256_hex (l : list byte) : list Z := hex_of_bytes (sha256 l).
Lemma zlen_sha256 l : zlen (sha256 l) = 32.
Proof. apply Sha256.zlen_digest. Qed.

#[global] Arguments sha256 : simpl never.
