(* ===== verification/TrustCache.v ===== *)
(** * Trust caches: [build_tc.py] and [tools/rootfs/merge_tc.py]

    [make_trustcache] turns a list of hexadecimal code directory hashes into a
    version 1 module; [load] reads a module of version 1 or 2 and [merge]
    joins modules into one sorted module without duplicate hashes.  [sorted]
    and [list.sort] are stable insertion here: both are stable sorts by the
    same key, so the result is the same list. *)

From stdpp Require Import base tactics list list_numbers sorting strings sets.
From Stdlib Require Import Strings.Byte.
From S2P Require Import Prelude PyBytes PyStr.
Open Scope Z_scope.

(** ** The order of [str] and [bytes] *)

Fixpoint lex_leb (x y : list Z) : bool :=
  match x, y with
  | [], _ => true
  | _ :: _, [] => false
  | a :: x, c :: y => (a <? c) || ((a =? c) && lex_leb x y)
  end.
Definition codes (l : list byte) : list Z := map b2z l.

Section sort.
Context {A : Type} (key : A → list Z).
Fixpoint insert_by (x : A) (l : list A) : list A :=
  match l with
  | [] => [x]
  | y :: l => if lex_leb (key x) (key y) then x :: y :: l else y :: insert_by x l
  end.
Definition sort_by (l : list A) : list A := foldr insert_by [] l.
End sort.

(** ** [build_tc.py] *)

(** The line ends of [str.splitlines]; a carriage return and a newline end one
    line together. *)
Definition is_line_end (c : Z) : bool :=
  ((10 <=? c) && (c <=? 13)) || ((28 <=? c) && (c <=? 30))
  || (c =? 0x85) || (c =? 0x2028) || (c =? 0x2029).
Fixpoint splitlines_from (cur s : list Z) : list (list Z) :=
  match s with
  | [] => match cur with [] => [] | _ => [reverse cur] end
  | c :: s =>
      if c =? 13 then
        reverse cur :: splitlines_from [] (match s with 10 :: s' => s' | _ => s end)
      else if is_line_end c then reverse cur :: splitlines_from [] s
      else splitlines_from (c :: cur) s
  end.
Definition splitlines (s : list Z) : list (list Z) := splitlines_from [] s.

Definition tc_entry (h : list Z) : res (list byte) :=
  cdhash ← fromhex h; Ok (cdhash ++ [x02; x00]).

Definition make_trustcache (i : list Z) : res (list byte) :=
  let hashes := sort_by id (splitlines i) in
  raise_if negb (forallb (λ h, zlen h =? 40) hashes) with AssertionError ;;
  version ← pack_I 1;
  n ← pack_I (zlen hashes);
  entries ← res_map tc_entry hashes;
  Ok (version ++ replicate 16 x41 ++ n ++ concat entries).

(** ** [merge_tc.py] *)

Definition HDR_size : Z := 24.

Fixpoint chunks (n : nat) (len : Z) (l : list byte) : list (list byte) :=
  match n with O => [] | S n => ztake len l :: chunks n len (zdrop len l) end.

Definition load (data : list byte) : res (Z * list byte * list (list byte)) :=
  version ← unpack_from_I data 0;
  n ← unpack_from_I data 20;
  let uuid := slice 4 20 data in
  elen ← (if version =? 2 then Ok 24 else if version =? 1 then Ok 22
          else Raise (SystemExit "unsupported trust cache version"));
  raise_if negb (zlen data =? HDR_size + n * elen) with SystemExit "size mismatch" ;;
  let entries := chunks (Z.to_nat n) elen (zdrop HDR_size data) in
  Ok (version, uuid, if elen =? 22 then map (λ e, e ++ [x00; x00]) entries else entries).

Definition hash_of (e : list byte) : list byte := ztake 20 e.

(** The state of the loops of [main]. *)
Record merge_state := MergeState {
  all_entries : list (list byte);
  seen : list (list byte);
  uuid0 : option (list byte);
}.
Definition add_entry (s : merge_state) (e : list byte) : merge_state :=
  let h := hash_of e in
  if bool_decide (h ∈ seen s) then s
  else MergeState (all_entries s ++ [e]) (h :: seen s) (uuid0 s).
Definition add_module (s : merge_state) (data : list byte) : res merge_state :=
  '(version, uuid, entries) ← load data;
  let s := match uuid0 s with
           | None => MergeState (all_entries s) (seen s) (Some uuid) | Some _ => s end in
  Ok (foldl add_entry s entries).

Definition merge (inputs : list (list byte)) : res (list byte) :=
  match inputs with
  | [] => Raise (SystemExit "usage: merge_tc.py out.bin in1.bin [in2.bin ...]")
  | _ =>
      s ← res_foldl add_module (MergeState [] [] None) inputs;
      let entries := sort_by (λ e, codes (hash_of e)) (all_entries s) in
      version ← pack_I 2;
      n ← pack_I (zlen entries);
      uuid ← opt_or (uuid0 s) (TypeError "argument for 's' must be a bytes object");
      Ok (version ++ uuid ++ n ++ concat entries)
  end.


(** ** The order is total, and sorting sorts *)

Lemma lex_leb_cons a x c y :
  lex_leb (a :: x) (c :: y) = true ↔ a < c ∨ a = c ∧ lex_leb x y = true.
Proof. cbn. rewrite orb_true_iff, andb_true_iff, Z.ltb_lt, Z.eqb_eq. done. Qed.

Lemma lex_leb_total x y : lex_leb x y = true ∨ lex_leb y x = true.
Proof.
  revert y. induction x as [|a x IH]; intros [|c y]; auto.
  rewrite !lex_leb_cons. destruct (IH y); destruct (Z.lt_total a c) as [?|[->|?]]; auto.
Qed.
Lemma lex_leb_trans x y z :
  lex_leb x y = true → lex_leb y z = true → lex_leb x z = true.
Proof.
  revert y z. induction x as [|a x IH]; intros [|c y] [|e z]; try done.
  rewrite !lex_leb_cons. intros [?|[-> ?]] [?|[-> ?]]; [left; lia|left; lia|by left|].
  right. eauto.
Qed.
Lemma lex_leb_antisym x y : lex_leb x y = true → lex_leb y x = true → x = y.
Proof.
  revert y. induction x as [|a x IH]; intros [|c y]; try done.
  rewrite !lex_leb_cons. intros [?|[-> ?]] [?|[? ?]]; try lia. f_equal. auto.
Qed.
Lemma codes_inj x y : codes x = codes y → x = y.
Proof.
  revert y. induction x as [|a x IH]; intros [|c y]; try done. cbn. intros [= H1 H2].
  f_equal; [by apply b2z_inj|by apply IH].
Qed.

Section sort_lemmas.
Context {A : Type} (key : A → list Z).
Definition key_le (x y : A) : Prop := lex_leb (key x) (key y) = true.

Lemma insert_by_perm x l : insert_by key x l ≡ₚ x :: l.
Proof.
  induction l as [|y l IH]; cbn; [done|]. destruct (lex_leb _ _); [done|].
  rewrite IH. apply Permutation_swap.
Qed.
Lemma sort_by_perm l : sort_by key l ≡ₚ l.
Proof. induction l as [|x l IH]; cbn; [done|]. by rewrite insert_by_perm, IH. Qed.

Lemma insert_by_sorted x l :
  StronglySorted key_le l → StronglySorted key_le (insert_by key x l).
Proof.
  induction 1 as [|y l Hl IH Hy]; cbn; [repeat constructor|].
  destruct (lex_leb (key x) (key y)) eqn:E.
  - constructor; [by constructor|]. constructor; [done|].
    eapply Forall_impl; [exact Hy|]. intros z. by apply lex_leb_trans.
  - constructor; [done|]. rewrite insert_by_perm. constructor; [|done].
    unfold key_le. destruct (lex_leb_total (key y) (key x)); congruence.
Qed.
Lemma sort_by_sorted l : StronglySorted key_le (sort_by key l).
Proof. induction l as [|x l IH]; cbn; [constructor|by apply insert_by_sorted]. Qed.
End sort_lemmas.

(** Sorting commutes with a map that keeps the order of the keys. *)
Lemma sort_by_map {A B} (f : A → B) (k : A → list Z) (k' : B → list Z) l :
  (∀ x y, x ∈ l → y ∈ l → lex_leb (k' (f x)) (k' (f y)) = lex_leb (k x) (k y)) →
  sort_by k' (map f l) = map f (sort_by k l).
Proof.
  intros H. induction l as [|x l IH]; [done|].
  change (insert_by k' (f x) (sort_by k' (map f l)) = map f (insert_by k x (sort_by k l))).
  rewrite IH by (intros; apply H; by right).
  assert (∀ y, y ∈ sort_by k l → lex_leb (k' (f x)) (k' (f y)) = lex_leb (k x) (k y)) as Hx.
  { intros y Hy. rewrite sort_by_perm in Hy. apply H; [by left|by right]. }
  clear H IH. induction (sort_by k l) as [|y m IH]; [done|]. cbn.
  rewrite Hx by by left. destruct (lex_leb (k x) (k y)); [done|].
  cbn. f_equal. apply IH. intros z Hz. apply Hx. by right.
Qed.

(** ** Modules *)

Lemma chunks_concat n len l :
  0 ≤ len → zlen l = Z.of_nat n * len →
  concat (chunks n len l) = l ∧ length (chunks n len l) = n ∧
  Forall (λ e, zlen e = len) (chunks n len l).
Proof.
  intros Hlen. revert l. induction n as [|n IH]; intros l Hl; cbn [chunks concat].
  - destruct l; [done|]. rewrite zlen_cons in Hl. pose proof (zlen_nonneg l). lia.
  - destruct (IH (zdrop len l)) as (H1 & H2 & H3); [rewrite zlen_zdrop; lia|].
    rewrite H1, ztake_zdrop. split; [done|]. split; [cbn; by rewrite H2|].
    constructor; [rewrite zlen_ztake; lia|done].
Qed.
Lemma chunks_of_concat es len :
  Forall (λ e : list byte, zlen e = len) es → chunks (length es) len (concat es) = es.
Proof.
  induction 1 as [|e es He _ IH]; [done|]. cbn [length chunks concat].
  by rewrite ztake_app_exact, zdrop_app_exact, IH.
Qed.
Lemma zlen_concat es len : Forall (λ e : list byte, zlen e = len) es → zlen (concat es) = zlen es * len.
Proof.
  induction 1 as [|e es He _ IH]; [done|]. cbn [concat]. rewrite zlen_app, zlen_cons. lia.
Qed.

(** What is written under a header is what [load] reads. *)
Lemma load_module version uuid es len vb nb :
  version = 2 ∧ len = 24 ∨ version = 1 ∧ len = 22 →
  pack_I version = Ok vb → pack_I (zlen es) = Ok nb → zlen uuid = 16 →
  Forall (λ e : list byte, zlen e = len) es →
  load (vb ++ uuid ++ nb ++ concat es)
  = Ok (version, uuid, if len =? 22 then map (λ e, e ++ [x00; x00]) es else es).
Proof.
  intros Hv Hvb Hnb Hu Hes.
  pose proof (pack_u_length _ _ _ Hvb) as Hlv. pose proof (pack_u_length _ _ _ Hnb) as Hln.
  unfold load.
  assert (unpack_from_I (vb ++ uuid ++ nb ++ concat es) 0 = Ok version) as ->
    by (apply (unpack_from_app 4 version vb []); done).
  assert (unpack_from_I (vb ++ uuid ++ nb ++ concat es) 20 = Ok (zlen es)) as ->.
  { rewrite (assoc_L app vb). apply unpack_from_app; [done|]. rewrite zlen_app. lia. }
  rewrite !ok_bind.
  assert ((if version =? 2 then Ok 24 else if version =? 1 then Ok 22
           else Raise (SystemExit "unsupported trust cache version")) = Ok len) as ->
    by (by destruct Hv as [[-> ->]|[-> ->]]).
  rewrite ok_bind. rewrite !zlen_app, Hlv, Hln, Hu, (zlen_concat es len) by done.
  change (Z.of_nat 4 + (16 + (Z.of_nat 4 + zlen es * len))) with (4 + (16 + (4 + zlen es * len))).
  replace (4 + (16 + (4 + zlen es * len)) =? HDR_size + zlen es * len) with true
    by (unfold HDR_size; lia).
  cbn [negb]. rewrite slice_app_mid by lia.
  assert (zdrop HDR_size (vb ++ uuid ++ nb ++ concat es) = concat es) as ->.
  { rewrite (assoc_L app uuid), (assoc_L app vb). apply zdrop_app_exact.
    rewrite !zlen_app, Hlv, Hln, Hu. done. }
  unfold zlen. by rewrite Nat2Z.id, chunks_of_concat.
Qed.

Lemma load_entries data version uuid es :
  load data = Ok (version, uuid, es) →
  zlen uuid = 16 ∧ Forall (λ e, zlen e = 24) es ∧ zlen es < 2 ^ 32.
Proof.
  unfold load. intros H. simpl_res.
  assert (0 ≤ r0 < 2 ^ 32) as Hr0'.
  { unfold unpack_from_I, unpack_from_u, unpack_u in Hr0. simpl_res.
    pose proof (le_Z_range (slice 20 (20 + Z.of_nat 4) data)) as Hle.
    apply Z.eqb_eq in Hif0. rewrite Hif0 in Hle. exact Hle. }
  assert (r1 = 24 ∨ r1 = 22) as He.
  { clear -Hr1. destruct (version =? 2); [simpl_res; by left|].
    destruct (version =? 1); simpl_res. by right. }
  assert (zlen data = HDR_size + r0 * r1) as Hlen by lia. unfold HDR_size in *.
  assert (zlen (zdrop 24 data) = Z.of_nat (Z.to_nat r0) * r1) as Hd
    by (rewrite zlen_zdrop; nia).
  destruct (chunks_concat (Z.to_nat r0) r1 (zdrop 24 data)) as (_ & Hn & Hf); [lia|done|].
  split; [rewrite zlen_slice; nia|].
  destruct (r1 =? 22) eqn:E.
  - split; [|unfold zlen; rewrite length_map, Hn; lia].
    apply Forall_fmap. eapply Forall_impl; [exact Hf|]. cbn. intros e Hle. rewrite zlen_app.
    change (zlen [x00; x00]) with 2. lia.
  - split; [|unfold zlen; rewrite Hn; lia]. eapply Forall_impl; [exact Hf|]. cbn. lia.
Qed.

(** ** Merging *)

Definition hfind (h : list byte) (l : list (list byte)) : option (list byte) :=
  List.find (λ e, bool_decide (hash_of e = h)) l.

Lemma hfind_app h l k :
  hfind h (l ++ k) = match hfind h l with Some e => Some e | None => hfind h k end.
Proof. unfold hfind. induction l as [|x l IH]; cbn; [done|]. by destruct (bool_decide _). Qed.
Lemma hfind_Some h l e : hfind h l = Some e → e ∈ l ∧ hash_of e = h.
Proof.
  intros H. apply find_some in H as [Hin Hh]. split; [by apply list_elem_of_In|].
  by apply bool_decide_eq_true in Hh.
Qed.
Lemma hfind_None h l : hfind h l = None ↔ h ∉ map hash_of l.
Proof.
  unfold hfind. induction l as [|x l IH]; cbn; [set_solver|].
  case_bool_decide; [set_solver|]. rewrite IH. set_solver.
Qed.

(** The entries kept so far are the first of each hash among those read. *)
Definition merged (s : merge_state) (es : list (list byte)) : Prop :=
  NoDup (map hash_of (all_entries s)) ∧
  (∀ h, h ∈ seen s ↔ h ∈ map hash_of (all_entries s)) ∧
  (∀ h, hfind h (all_entries s) = hfind h es).

Lemma merged_add s es e : merged s es → merged (add_entry s e) (es ++ [e]).
Proof.
  intros (Hnd & Hseen & Hf). unfold add_entry. case_bool_decide as Hin.
  - split; [done|]. split; [done|]. intros h. rewrite hfind_app, <-Hf.
    destruct (hfind h (all_entries s)) as [e'|] eqn:E; [done|].
    cbn. case_bool_decide as Hh; [|done]. subst h.
    apply hfind_None in E. by apply Hseen in Hin.
  - unfold merged. cbn [all_entries seen]. split; [|split].
    + rewrite map_app. apply NoDup_app. split; [done|]. split; [|apply NoDup_singleton].
      intros x Hx Hx'. cbn [map] in Hx'. apply list_elem_of_singleton in Hx' as ->. by apply Hin, Hseen.
    + intros h. rewrite map_app, elem_of_app, elem_of_cons, Hseen. cbn [map].
      rewrite list_elem_of_singleton. tauto.
    + intros h. by rewrite !hfind_app, Hf.
Qed.
Lemma merged_add_all l s es : merged s es → merged (foldl add_entry s l) (es ++ l).
Proof.
  revert s es. induction l as [|e l IH]; intros s es H; cbn; [by rewrite app_nil_r|].
  apply (merged_add _ _ e) in H. apply IH in H. by rewrite <-(assoc_L app) in H.
Qed.

Definition entries_of (m : Z * list byte * list (list byte)) : list (list byte) := m.2.

Lemma add_modules_merged inputs s es s' :
  merged s es → Forall (λ e : list byte, zlen e = 24) es →
  (∀ v, uuid0 s = Some v → zlen v = 16) →
  res_foldl add_module s inputs = Ok s' →
  ∃ mods, res_map load inputs = Ok mods ∧
    merged s' (es ++ concat (map entries_of mods)) ∧
    Forall (λ e : list byte, zlen e = 24) (es ++ concat (map entries_of mods)) ∧
    (∀ v, uuid0 s' = Some v → zlen v = 16).
Proof.
  revert s es. induction inputs as [|d inputs IH]; intros s es Hm Hl Hu H.
  - cbn in H. simpl_res. exists []. cbn. by rewrite app_nil_r.
  - cbn [res_foldl] in H. simpl_res. unfold add_module in Hr. simpl_res.
    pose proof (load_entries _ _ _ _ Hr0) as (Hul & Hes & _).
    set (s0 := match uuid0 s with
               | Some _ => s
               | None => MergeState (all_entries s) (seen s) (Some l0)
               end) in *.
    assert (merged s0 es ∧ ∀ v, uuid0 s0 = Some v → zlen v = 16) as [Hm0 Hu0].
    { unfold s0. destruct (uuid0 s) eqn:E; [by rewrite E|].
      split; [done|]. cbn. by intros v [= <-]. }
    assert (uuid0 (foldl add_entry s0 l) = uuid0 s0) as Huu.
    { clear. generalize s0. induction l as [|e l IH]; intros t; cbn; [done|]. rewrite IH.
      unfold add_entry. by case_bool_decide. }
    destruct (IH (foldl add_entry s0 l) (es ++ l)) as (mods & Hmods & H1 & H2 & H3).
    + by apply merged_add_all.
    + by apply Forall_app.
    + by rewrite Huu.
    + done.
    + exists ((z, l0, l) :: mods). cbn [res_map]. rewrite Hr0, ok_bind, Hmods.
      cbn [map concat entries_of snd]. by rewrite (assoc_L app).
Qed.

Definition sample_module (version : Z) (es : list (list byte)) : list byte :=
  le_bytes 4 version ++ replicate 16 x41 ++ le_bytes 4 (zlen es) ++ concat es.
Definition sample_tc_inputs : list (list byte) :=
  [sample_module 1 [replicate 20 x33 ++ [x02; x00]; replicate 20 x11 ++ [x02; x00]];
   sample_module 2 [replicate 20 x22 ++ [x02; x00; x05; x00]; replicate 20 x33 ++ [x02; x01; x07; x00]]].

(** ** Properties *)

(** C35: merging trust caches.  The output is a version 2 module whose entries
    are strictly ascending by hash, and an entry is in it exactly when it is
    the first one of its hash in the inputs, taken in order; a version 1 entry
    is carried with a zero constraint category. *)
Theorem merge_sorted_first_wins inputs out :
  merge inputs = Ok out →
  ∃ mods uuid entries,
    res_map load inputs = Ok mods ∧ load out = Ok (2, uuid, entries) ∧
    StronglySorted (λ e e', lex_leb (codes (hash_of e)) (codes (hash_of e')) = true) entries ∧
    NoDup (map hash_of entries) ∧
    ∀ e, e ∈ entries ↔ hfind (hash_of e) (concat (map entries_of mods)) = Some e.
Proof.
  unfold merge. destruct inputs as [|d inputs]; [done|]. intros H. simpl_res.
  destruct (add_modules_merged (d :: inputs) (MergeState [] [] None) [] r)
    as (mods & Hmods & (Hnd & _ & Hfind) & Hlen & Hu); [|constructor|done|done|].
  { split; [constructor|]. split; [intros h; cbn; set_solver|done]. }
  set (entries := sort_by (λ e, codes (hash_of e)) (all_entries r)) in *.
  assert (entries ≡ₚ all_entries r) as Hperm by apply sort_by_perm.
  cbn [app] in *.
  assert (∀ e, e ∈ all_entries r ↔ hfind (hash_of e) (concat (map entries_of mods)) = Some e) as Hmem.
  { intros e. rewrite <-Hfind. split; [|by intros [? _]%hfind_Some].
    intros Hin. clear -Hnd Hin. induction (all_entries r) as [|x l IH]; [set_solver|].
    cbn in Hnd. apply NoDup_cons in Hnd as [Hx Hnd]. unfold hfind. cbn.
    apply elem_of_cons in Hin as [->|Hin]; [by rewrite bool_decide_eq_true_2|].
    rewrite bool_decide_eq_false_2; [by apply IH|]. intros E. apply Hx. rewrite E.
    apply list_elem_of_fmap. by exists e. }
  exists mods, r2, entries. split; [done|]. split; [|split; [apply sort_by_sorted|split]].
  - apply (load_module 2 r2 entries 24); [by left|done|done|by apply Hu|].
    rewrite Hperm. apply Forall_forall. intros e He. apply Hmem, hfind_Some in He as [He _].
    rewrite Forall_forall in Hlen. by apply Hlen.
  - by rewrite Hperm.
  - intros e. by rewrite Hperm.
Qed.

Lemma merge_sorted_first_wins_witness :
  ∃ out, merge sample_tc_inputs = Ok out ∧
    (∃ mods uuid entries, res_map load sample_tc_inputs = Ok mods ∧ load out = Ok (2, uuid, entries) ∧
      NoDup (map hash_of entries)) ∧ zlen out = 24 + 3 * 24.
Proof.
  assert (∃ out, merge sample_tc_inputs = Ok out ∧ zlen out = 24 + 3 * 24) as (out & Hout & Hlen).
  { eexists. split; [vm_compute; reflexivity|]. vm_compute. reflexivity. }
  exists out. split; [exact Hout|]. split; [|exact Hlen].
  destruct (merge_sorted_first_wins sample_tc_inputs out Hout)
    as (mods & uuid & entries & H1 & H2 & _ & H3 & _).
  exists mods, uuid, entries. repeat split; assumption.
Defined.

(** ** Hash lists *)

Lemma digit_char_mono d e : 0 ≤ d < 16 → 0 ≤ e < 16 →
  (digit_char d <? digit_char e) = (d <? e) ∧ (digit_char d =? digit_char e) = (d =? e).
Proof.
  intros. unfold digit_char. destruct (d <? 10) eqn:?, (e <? 10) eqn:?; lia.
Qed.

Lemma digit_char_hex d : 0 ≤ d < 16 →
  is_hexdigit (digit_char d) = true ∧ is_space (digit_char d) = false ∧
  is_line_end (digit_char d) = false ∧ (digit_char d =? 13) = false.
Proof.
  intros. unfold is_hexdigit, is_digit, is_space, is_line_end, digit_char.
  destruct (d <? 10) eqn:?; lia.
Qed.

Lemma byte_nibbles (x : byte) : 0 ≤ b2z x / 16 < 16 ∧ 0 ≤ b2z x mod 16 < 16.
Proof.
  pose proof (b2z_range x). split; [|by apply Z.mod_pos_bound].
  split; [apply Z.div_pos; lia|apply Z.div_lt_upper_bound; lia].
Qed.

Lemma fromhex_hex l : fromhex (hex_of_bytes l) = Ok l.
Proof.
  unfold fromhex. apply opt_or_Ok. unfold hex_of_bytes.
  induction l as [|x l IH]; [done|].
  destruct (byte_nibbles x) as [Hh Hl].
  cbn [map concat app]. cbn [fromhex_opt].
  destruct (digit_char_hex _ Hh) as (Hx & Hsp & _). destruct (digit_char_hex _ Hl) as (Hx' & _).
  rewrite Hsp, Hx, Hx'. cbn [andb]. rewrite !digit_val_char by lia. cbn.
  rewrite IH. cbn. do 2 f_equal. rewrite <-Z.div_mod by lia. apply z2b_b2z.
Qed.

Lemma lex_hex x y : lex_leb (hex_of_bytes x) (hex_of_bytes y) = lex_leb (codes x) (codes y).
Proof.
  revert y. induction x as [|a x IH]; intros [|c y]; try done.
  destruct (byte_nibbles a) as [Ha Ha'], (byte_nibbles c) as [Hc Hc'].
  unfold hex_of_bytes in *. cbn [map concat app codes lex_leb].
  destruct (digit_char_mono _ _ Ha Hc) as [-> ->], (digit_char_mono _ _ Ha' Hc') as [-> ->].
  rewrite IH. unfold codes. set (t := lex_leb _ _).
  pose proof (Z.div_mod (b2z a) 16). pose proof (Z.div_mod (b2z c) 16).
  destruct t; lia.
Qed.

Lemma zlen_hex l : zlen (hex_of_bytes l) = 2 * zlen l.
Proof.
  unfold hex_of_bytes. induction l as [|x l IH]; [done|].
  cbn [map concat app]. rewrite !zlen_cons, IH. lia.
Qed.

Lemma splitlines_line w cur rest :
  Forall (λ c, is_line_end c = false ∧ (c =? 13) = false) w →
  splitlines_from cur (w ++ 10 :: rest) = (reverse cur ++ w) :: splitlines_from [] rest.
Proof.
  intros H. revert cur. induction H as [|c w [Hc Hr] _ IH]; intros cur; cbn [app splitlines_from].
  - by rewrite app_nil_r.
  - rewrite Hr, Hc, IH, reverse_cons. by rewrite <-(assoc_L app).
Qed.

(** The hash list file: one lower-case hash a line. *)
Definition hash_lines (hs : list (list byte)) : list Z :=
  concat (map (λ h, hex_of_bytes h ++ [10]) hs).

Lemma splitlines_hashes hs : splitlines (hash_lines hs) = map hex_of_bytes hs.
Proof.
  unfold splitlines, hash_lines. induction hs as [|h hs IH]; [done|].
  cbn [map concat]. rewrite <-(assoc_L app). cbn [app].
  rewrite splitlines_line; [by rewrite IH|].
  unfold hex_of_bytes. clear. induction h as [|x h IH]; cbn [map concat app]; [constructor|].
  destruct (byte_nibbles x) as [Hh Hl].
  destruct (digit_char_hex _ Hh) as (_ & _ & ? & ?), (digit_char_hex _ Hl) as (_ & _ & ? & ?).
  by repeat constructor.
Qed.

(** a hash list becomes a trust cache with exactly those hashes, ascending,
    each with hash type 2 and no flags, and [merge_tc.py] reads it back. *)
Theorem make_trustcache_loads hs :
  Forall (λ h, zlen h = 20) hs → zlen hs < 2 ^ 32 →
  ∃ tc, make_trustcache (hash_lines hs) = Ok tc ∧
    load tc = Ok (1, replicate 16 x41, map (λ h, h ++ [x02; x00; x00; x00]) (sort_by codes hs)) ∧
    sort_by codes hs ≡ₚ hs ∧
    StronglySorted (λ x y, lex_leb (codes x) (codes y) = true) (sort_by codes hs).
Proof.
  intros Hhs Hn. unfold make_trustcache. rewrite splitlines_hashes.
  rewrite (sort_by_map hex_of_bytes codes id) by (intros; apply lex_hex).
  pose proof (sort_by_perm codes hs) as Hperm.
  pose proof (sort_by_sorted codes hs) as Hsorted.
  set (ss := sort_by codes hs) in *. rewrite <-Hperm in Hhs.
  assert (zlen ss = zlen hs) as Hlen by (unfold zlen; by rewrite Hperm).
  assert (forallb (λ h, zlen h =? 40) (map hex_of_bytes ss) = true) as ->.
  { apply forallb_forall. intros h (x & <- & Hx)%in_map_iff. rewrite zlen_hex.
    rewrite Forall_forall in Hhs. rewrite Hhs by by apply list_elem_of_In. done. }
  cbn [negb]. unfold pack_I. pose proof (zlen_nonneg hs).
  rewrite (proj2 (pack_u_Ok 4 1 _)) by (split; [lia|done]). rewrite ok_bind.
  assert (zlen (map hex_of_bytes ss) = zlen hs) as -> by (unfold zlen; by rewrite length_map, Hperm).
  rewrite (proj2 (pack_u_Ok 4 (zlen hs) _)) by (split; [change (2 ^ _) with (2 ^ 32); lia|done]).
  rewrite ok_bind.
  assert (res_map tc_entry (map hex_of_bytes ss) = Ok (map (λ h, h ++ [x02; x00]) ss)) as ->.
  { clear. induction ss as [|h ss IH]; [done|]. cbn [map res_map].
    assert (tc_entry (hex_of_bytes h) = Ok (h ++ [x02; x00])) as ->
      by (unfold tc_entry; by rewrite fromhex_hex).
    by rewrite ok_bind, IH. }
  rewrite ok_bind. eexists. split; [done|]. split; [|by split].
  erewrite (load_module 1 _ _ 22).
  - cbn [Z.eqb Pos.eqb]. do 2 f_equal. rewrite map_map. apply map_ext. intros h.
    by rewrite <-(assoc_L app).
  - by right.
  - done.
  - assert (zlen (map (λ h, h ++ [x02; x00]) ss) = zlen hs) as ->
      by (unfold zlen; by rewrite length_map, Hperm).
    apply pack_u_Ok. split; [|done]. change (2 ^ _) with (2 ^ 32). lia.
  - done.
  - apply Forall_fmap. eapply Forall_impl; [exact Hhs|]. cbn. intros h Hh. rewrite zlen_app, Hh. done.
Qed.

Lemma make_trustcache_loads_witness :
  ∃ tc, make_trustcache (hash_lines [replicate 20 xbb; replicate 20 x0a]) = Ok tc ∧
    load tc = Ok (1, replicate 16 x41,
                  [replicate 20 x0a ++ [x02; x00; x00; x00]; replicate 20 xbb ++ [x02; x00; x00; x00]]).
Proof.
  destruct (make_trustcache_loads [replicate 20 xbb; replicate 20 x0a]) as (tc & H1 & H2 & _).
  - repeat (constructor; [reflexivity|]). constructor.
  - reflexivity.
  - exists tc. split; [exact H1|]. rewrite H2. vm_compute. reflexivity.
Defined.

(** The lines are sorted as text: with mixed-case digits the entries are not
    in the order of their hashes. *)
Lemma mixed_case_unsorted :
  ∃ tc uuid entries,
    make_trustcache (replicate 40 66 ++ [10] ++ replicate 40 97 ++ [10]) = Ok tc ∧
    load tc = Ok (1, uuid, entries) ∧
    map hash_of entries = [replicate 20 xbb; replicate 20 xaa].
Proof. do 3 eexists. repeat split; vm_compute; reflexivity. Qed.
