(* ===== verification/Kcdata.v ===== *)
(** * RAM dump readers: [tools/oskcdata.py] and [tools/bplist_carve.py]

    [scan] finds the kcdata buffer magics in a file read in chunks, [walk]
    follows the items of one buffer and [render] picks what is printed about
    it.  A printed line is kept as its item name and values ([line]); the text
    formatting of [print] is left out.  [carve] recovers a binary property
    list of unknown length from its trailer; [plistlib] is a parameter. *)

From stdpp Require Import base tactics list list_numbers strings sets.
From Stdlib Require Import Strings.Byte.
From S2P Require Import Prelude PyBytes PyStr PyDict AdtCodec DtPatch DcpEmu.
Open Scope Z_scope.

(** ** Constants *)

Definition MAGICS : list (Z * string) :=
  [(0x53A20900, "OS_REASON"%string); (0xDEADF157, "CRASHINFO"%string);
   (0x59A25807, "STACKSHOT"%string); (0xDE17A59A, "DELTA_STACKSHOT"%string)].

Definition ITEM : list (Z * string) :=
  [(0x00000000, "INVALID"%string); (0x00000001, "STRING_DESC"%string);
   (0x00000002, "UINT32_DESC"%string); (0x00000003, "UINT64_DESC"%string);
   (0xF19158ED, "BUFFER_END"%string);
   (0x00000036, "KCDATA_TYPE_PID"%string); (0x00000037, "KCDATA_TYPE_PROCNAME"%string);
   (0x00000038, "KCDATA_TYPE_NESTED_KCDATA"%string);
   (0x1001, "EXIT_REASON_SNAPSHOT"%string); (0x1002, "EXIT_REASON_USER_DESC"%string);
   (0x1003, "EXIT_REASON_USER_PAYLOAD"%string); (0x1004, "EXIT_REASON_CODESIGNING_INFO"%string);
   (0x1005, "EXIT_REASON_WORKLOOP_ID"%string); (0x1006, "EXIT_REASON_DISPATCH_QUEUE_NO"%string);
   (0x0805, "TASK_CRASHINFO_PID"%string); (0x0809, "TASK_CRASHINFO_PROC_NAME"%string);
   (0x080B, "TASK_CRASHINFO_PROC_STARTTIME"%string);
   (0x080E, "TASK_CRASHINFO_EXCEPTION_CODES"%string);
   (0x080F, "TASK_CRASHINFO_PROC_PATH"%string);
   (0x081A, "TASK_CRASHINFO_CRASHED_THREADID"%string);
   (0x0838, "TASK_CRASHINFO_EXCEPTION_TYPE"%string)].

Definition KCDATA_TYPE_BUFFER_END : Z := 0xF19158ED.
Definition KCDATA_TYPE_PID : Z := 0x36.
Definition KCDATA_TYPE_PROCNAME : Z := 0x37.
Definition KCDATA_TYPE_NESTED_KCDATA : Z := 0x38.
Definition TASK_CRASHINFO_PID : Z := 0x805.
Definition TASK_CRASHINFO_PROC_NAME : Z := 0x809.
Definition TASK_CRASHINFO_PROC_PATH : Z := 0x80F.

(** ** Scanning *)

(** The loop [k = data.find(p, s); s = k + 1]: every position of [p]. *)
Fixpoint occurrences (i : Z) (p l : list byte) : list Z :=
  (if startswith p l then [i] else [])
  ++ match l with [] => [] | _ :: l => occurrences (i + 1) p l end.

Definition pats : list (list byte * string) := map (λ m, (le_bytes 4 m.1, m.2)) MAGICS.

(** [data[-n:]] *)
Definition last_n {A} (n : Z) (l : list A) : list A := zdrop (zlen l - n) l.

Fixpoint scan_chunks (prev : list byte) (base : Z) (bufs : list (list byte)) : list (Z * string) :=
  match bufs with
  | [] => []
  | buf :: bufs =>
      let data := prev ++ buf in
      concat (map (λ pn, map (λ k, (base - zlen prev + k, pn.2)) (occurrences 0 pn.1 data)) pats)
      ++ scan_chunks (last_n 8 data) (base + zlen buf) bufs
  end.
(** The successive results of [f.read(n)] up to the empty one. *)
Fixpoint reads (fuel : nat) (n : Z) (file : list byte) : list (list byte) :=
  match fuel, file with
  | S fuel, _ :: _ => ztake n file :: reads fuel n (zdrop n file)
  | _, _ => []
  end.
Definition scan (file : list byte) : list (Z * string) :=
  scan_chunks [] 0 (reads (length file) (Z.shiftl 1 26) file).

(** ** Walking *)

Definition unpack_from_IIQ (buf : list byte) (off : Z) : res (Z * Z * Z) :=
  t ← unpack_from_I buf off; sz ← unpack_from_I buf (off + 4); fl ← unpack_from_Q buf (off + 8);
  Ok (t, sz, fl).

Fixpoint walk (limit : nat) (buf : list byte) (pos : Z) : res (list (Z * Z * list byte)) :=
  match limit with
  | O => Ok []
  | S limit =>
      if zlen buf <? pos + 16 then Ok []
      else
        '(t, sz, fl) ← unpack_from_IIQ buf pos;
        if (Z.shiftl 1 20 <? sz) || (zlen buf <? pos + 16 + sz) then Ok []
        else
          let item := (t, sz, slice (pos + 16) (pos + 16 + sz) buf) in
          if t =? KCDATA_TYPE_BUFFER_END then Ok [item]
          else rest ← walk limit buf (Z.land (pos + 16 + sz + 3) (Z.lnot 3)); Ok (item :: rest)
  end.

(** ** What is printed *)

Inductive line :=
  | LReason (name : list Z) (ns code flags : Z)
  | LPid (name : list Z) (pid : Z)
  | LCodes (name : list Z) (code subcode : Z)
  | LTime (name : list Z) (secs usecs : Z)
  | LNumber (name : list Z) (n : Z)
  | LNested (name nested : list Z) (sz : Z)
  | LText (name txt : list Z).

Definition named_or_hex (table : list (Z * string)) (t : Z) : list Z :=
  match dget t table with Some s => u s | None => hex t end.
(** [bytes.decode("ascii", "replace")] *)
Definition ascii_replace (l : list byte) : list Z :=
  map (λ x, if b2z x <? 128 then b2z x else 0xFFFD) l.
Definition texty (c : byte) : bool :=
  let c := b2z c in (c =? 0) || (c =? 9) || (c =? 10) || ((32 <=? c) && (c <? 127)).

Definition render_item (t sz : Z) (data : list byte) : res (list line) :=
  let name := named_or_hex ITEM t in
  if (t =? 0x1001) && (20 <=? sz) then
    ns ← unpack_from_I data 0; code ← unpack_from_Q data 4; fl ← unpack_from_Q data 12;
    Ok [LReason name ns code fl]
  else if ((t =? KCDATA_TYPE_PID) || (t =? TASK_CRASHINFO_PID)) && (4 <=? sz) then
    pid ← unpack_from_I data 0; Ok [LPid name (sx pid 32)]
  else if (t =? 0x80e) && (16 <=? sz) then
    x ← unpack_from_Q data 0; y ← unpack_from_Q data 8; Ok [LCodes name x y]
  else if (t =? 0x80b) && (16 <=? sz) then
    x ← unpack_from_Q data 0; y ← unpack_from_Q data 8; Ok [LTime name x y]
  else if (t =? 0x838) && (4 <=? sz) then
    n ← unpack_from_I data 0; Ok [LNumber name n]
  else if (t =? KCDATA_TYPE_NESTED_KCDATA) && (16 <=? sz) then
    n ← unpack_from_I data 0; Ok [LNested name (named_or_hex MAGICS n) sz]
  else if ((t =? KCDATA_TYPE_PROCNAME) || (t =? TASK_CRASHINFO_PROC_NAME)
           || (t =? TASK_CRASHINFO_PROC_PATH) || (t =? 0x1002))
          && negb (sz =? 0) && forallb texty (ztake (Z.min sz 64) data) then
    let txt := ascii_replace (before x00 data) in
    let txt := map (λ c, if c =? 10 then 32 else c) txt in
    Ok (match txt with [] => [] | _ => [LText name (ztake 500 txt)] end)
  else Ok [].

(** [None]: nothing interesting, [render] returns [False]. *)
Definition render (file : list byte) (off : Z) : res (option (list line)) :=
  let buf := slice off (off + Z.shiftl 1 16) file in
  items ← walk 512 buf 0;
  ls ← res_map (λ '(t, sz, data), render_item t sz data) items;
  Ok (match concat ls with [] => None | l => Some l end).

(** One file of [main]: the blobs printed, with their offsets and tags. *)
Definition report (file : list byte) : res (list (Z * string * list line)) :=
  rs ← res_map (λ '(off, tag), r ← render file off;
                  Ok (match r with Some l => [(off, tag, l)] | None => [] end)) (scan file);
  Ok (concat rs).

(** ** [bplist_carve.py] *)

Definition MAGIC : list byte := b "bplist00".

Definition try_end (buf : list byte) (start stop : Z) : bool :=
  if stop - start <? 40 then false
  else
    let t := pyslice (stop - 32) stop buf in
    if negb (bool_decide (ztake 5 t = replicate 5 x00)) then false
    else match znth 6 t, znth 7 t, unpack_be 8 t 8, unpack_be 8 t 16, unpack_be 8 t 24 with
         | Some o, Some r, Ok num, Ok top, Ok table =>
             let off_size := b2z o in
             let ref_size := b2z r in
             if negb ((1 <=? off_size) && (off_size <=? 8))
                || negb ((1 <=? ref_size) && (ref_size <=? 8)) then false
             else if (num =? 0) || (Z.shiftl 1 22 <? num) || (num <=? top) then false
             else if (table <? 8) || negb (start + table + num * off_size =? stop - 32) then false
             else true
         | _, _, _, _, _ => false
         end.

Section carve.
Context {obj : Type} (plist_load : list byte → option obj) (repr : obj → list Z).

(** The loop over candidate ends, [n] of them from [stop] on. *)
Fixpoint carve_from (n : nat) (buf : list byte) (start stop : Z) : option (obj * Z) :=
  match n with
  | O => None
  | S n =>
      match (if try_end buf start stop then plist_load (slice start stop buf) else None) with
      | Some o => Some (o, stop - start)
      | None => carve_from n buf start (stop + 1)
      end
  end.
Definition carve (buf : list byte) (start window : Z) : option (obj * Z) :=
  let limit := Z.min (zlen buf) (start + window) in
  carve_from (Z.to_nat (limit - (start + 40))) buf start (start + 40).

(** [main]'s loop over the magics found; [found] are printed so far. *)
Fixpoint carve_all (buf : list byte) (window : Z) (grep : list Z) (starts : list Z) (left : Z)
  : list (Z * Z * obj) :=
  match starts with
  | [] => []
  | k :: starts =>
      if left <=? 0 then []
      else match carve buf k window with
           | None => carve_all buf window grep starts left
           | Some (o, n) =>
               if negb (bool_decide (grep = [])) && negb (contains grep (repr o))
               then carve_all buf window grep starts left
               else (k, n, o) :: carve_all buf window grep starts (left - 1)
           end
  end.
Definition carve_main (dump : list byte) (near : option Z) (window mx : Z) (grep : list Z)
  : list (Z * Z * obj) :=
  let '(buf, base) := match near with
                      | Some at_ => let lo := Z.max 0 (at_ - window) in
                                   (slice lo (lo + window * 2) dump, lo)
                      | None => (dump, 0)
                      end in
  map (λ '(k, n, o), (base + k, n, o))
    (carve_all buf window grep (occurrences 0 MAGIC buf) mx).
End carve.

(** ** Every magic is found *)

Definition occurs (p l : list byte) (o : Z) : Prop :=
  0 ≤ o ∧ ∃ r, zdrop o l = p ++ r.

Lemma occurs_bound p l o : p ≠ [] → occurs p l o → o + zlen p ≤ zlen l.
Proof.
  intros Hp [Ho [r Hr]]. apply (f_equal zlen) in Hr. rewrite zlen_zdrop, zlen_app in Hr.
  pose proof (zlen_nonneg r). assert (0 < zlen p); [|lia].
  destruct p; [done|]. rewrite zlen_cons. pose proof (zlen_nonneg p). lia.
Qed.

Lemma occurrences_spec p l : p ≠ [] → ∀ i k, k ∈ occurrences i p l ↔ occurs p l (k - i).
Proof.
  intros Hp. induction l as [|x l IH]; intros i k; cbn [occurrences]; rewrite elem_of_app.
  - split.
    + intros [H|H]; [|set_solver]. destruct p; [done|cbn in H; set_solver].
    + intros [_ [r Hr]]. cbn in Hr. by destruct p.
  - rewrite IH. unfold occurs. split.
    + intros [H|[H0 [r Hr]]].
      * destruct (startswith p (x :: l)) eqn:E; [|set_solver].
        apply list_elem_of_singleton in H as ->. apply startswith_spec in E as [r Hr].
        split; [lia|]. exists r. by rewrite zdrop_le_0 by lia.
      * split; [lia|]. exists r. rewrite <-Hr. cbn [zdrop].
        rewrite (proj2 (Z.leb_gt _ _)) by lia. f_equal. lia.
    + intros [H0 [r Hr]]. destruct (decide (k = i)) as [->|Hne].
      * left. rewrite zdrop_le_0 in Hr by lia.
        rewrite (proj2 (startswith_spec p (x :: l))) by eauto. set_solver.
      * right. split; [lia|]. exists r. rewrite <-Hr. cbn [zdrop].
        rewrite (proj2 (Z.leb_gt _ _)) by lia. f_equal. lia.
Qed.

Lemma occurs_app_l p l k o : p ≠ [] → o + zlen p ≤ zlen l → occurs p (l ++ k) o ↔ occurs p l o.
Proof.
  intros Hp Hle. unfold occurs. split; intros [Ho [r Hr]]; split; try done.
  - exists (ztake (zlen l - o - zlen p) r). apply (f_equal (ztake (zlen l - o))) in Hr.
    rewrite ztake_take, zdrop_drop in Hr. rewrite drop_app_le in Hr by (unfold zlen in *; lia).
    rewrite take_app_le, take_ge in Hr by (rewrite ?length_drop; unfold zlen in *; lia).
    rewrite zdrop_drop, Hr, !ztake_take, take_app_ge by (unfold zlen in *; lia).
    f_equal. f_equal. unfold zlen in *. lia.
  - exists (r ++ k). rewrite (assoc_L app), <-Hr, !zdrop_drop.
    apply drop_app_le. unfold zlen in *. pose proof (length_app p). lia.
Qed.
Lemma occurs_app_r p pre l o : zlen pre ≤ o → occurs p (pre ++ l) o ↔ occurs p l (o - zlen pre).
Proof.
  intros Hle. unfold occurs. pose proof (zlen_nonneg pre).
  assert (zdrop o (pre ++ l) = zdrop (o - zlen pre) l) as ->.
  { rewrite !zdrop_drop, drop_app_ge by (unfold zlen in *; lia). f_equal. unfold zlen in *. lia. }
  split; intros [? ?]; split; auto; lia.
Qed.

Lemma pats_length pn : pn ∈ pats → zlen pn.1 = 4 ∧ pn.1 ≠ [].
Proof.
  intros (m & -> & _)%list_elem_of_fmap. cbn [fst]. rewrite zlen_le_bytes. split; [done|].
  intros E. apply (f_equal length) in E. by rewrite length_le_bytes in E.
Qed.

(** After the bytes [pre], with their last bytes in [prev], the rest of the
    scan yields the magics that start in [prev] or later. *)
Lemma scan_chunks_spec bufs pre keep prev o tag :
  pre = keep ++ prev → (3 ≤ zlen prev ∨ keep = []) →
  Forall (λ buf, buf ≠ []) bufs → bufs ≠ [] →
  (o, tag) ∈ scan_chunks prev (zlen pre) bufs ↔
  ∃ pn, pn ∈ pats ∧ tag = pn.2 ∧ zlen keep ≤ o ∧ occurs pn.1 (pre ++ concat bufs) o.
Proof.
  revert pre keep prev. induction bufs as [|buf bufs IH]; intros pre keep prev Hpre Hprev Hne Hnil;
    [done|]. clear Hnil. apply Forall_cons in Hne as [Hbuf Hne].
  cbn [scan_chunks concat]. set (data := prev ++ buf). rewrite elem_of_app.
  assert (0 < zlen buf) as Hb by (destruct buf; [done|rewrite zlen_cons; pose proof (zlen_nonneg buf); lia]).
  pose proof (zlen_nonneg prev). pose proof (zlen_nonneg keep).
  assert (zlen pre - zlen prev = zlen keep) as Hk by (subst pre; rewrite zlen_app; lia).
  assert ((o, tag) ∈ concat (map (λ pn, map (λ k, (zlen pre - zlen prev + k, pn.2))
             (occurrences 0 pn.1 data)) pats) ↔
          ∃ pn, pn ∈ pats ∧ tag = pn.2 ∧ zlen keep ≤ o ∧ occurs pn.1 (keep ++ data) o) as Hhere.
  { rewrite Hk. rewrite list_elem_of_In, in_concat. split.
    - intros (x & (pn & <- & Hpn)%in_map_iff & (k & [= <- <-] & Hin)%in_map_iff).
      apply list_elem_of_In in Hpn, Hin. destruct (pats_length _ Hpn) as [_ Hp].
      apply (occurrences_spec _ _ Hp) in Hin. exists pn.
      rewrite occurs_app_r; [|destruct Hin; lia]. split; [done|]. split; [done|].
      split; [destruct Hin; lia|]. replace (zlen keep + k - zlen keep) with (k - 0) by lia. done.
    - intros (pn & Hpn & -> & Hle & Ho). destruct (pats_length _ Hpn) as [_ Hp].
      apply occurs_app_r in Ho; [|done].
      exists (map (λ k, (zlen keep + k, pn.2)) (occurrences 0 pn.1 data)). split.
      + apply in_map_iff. exists pn. split; [done|]. by apply list_elem_of_In.
      + apply in_map_iff. exists (o - zlen keep). split; [f_equal; lia|].
        apply list_elem_of_In, occurrences_spec; [done|]. by rewrite Z.sub_0_r. }
  assert (pre ++ buf = keep ++ data) as Hpd by (subst pre data; by rewrite (assoc_L app)).
  rewrite Hhere. destruct bufs as [|buf' bufs].
  - cbn [scan_chunks concat]. rewrite app_nil_r, Hpd.
    split; [intros [H'|H']; [done|by apply elem_of_nil in H']|by left].
  - assert (zlen pre + zlen buf = zlen (pre ++ buf)) as -> by by rewrite zlen_app.
    set (n := zlen data - 8).
    rewrite (IH (pre ++ buf) (keep ++ ztake n data) (last_n 8 data)).
    + rewrite (assoc_L app pre), Hpd.
      assert (zlen (keep ++ ztake n data) = zlen keep + Z.max 0 n) as Hkn.
      { rewrite zlen_app, zlen_ztake. pose proof (zlen_nonneg data).
        unfold n. lia. }
      rewrite Hkn. split.
      * intros [(pn & Hpn & -> & Hle & Ho)|(pn & Hpn & -> & Hle & Ho)]; exists pn;
          destruct (pats_length _ Hpn) as [H4 Hp]; do 2 (split; [done|]).
        -- split; [done|]. apply occurs_app_l; [done|by apply occurs_bound|done].
        -- split; [lia|done].
      * intros (pn & Hpn & -> & Hle & Ho). destruct (pats_length _ Hpn) as [H4 Hp].
        destruct (decide (o + 4 <= zlen (keep ++ data))) as [Hin|Hin].
        -- left. exists pn. do 3 (split; [done|]).
           by apply (occurs_app_l _ _ (concat (buf' :: bufs))); [|lia|].
        -- right. exists pn. do 2 (split; [done|]). split; [|done].
           rewrite zlen_app in Hin. unfold n. lia.
    + rewrite Hpd, <-(assoc_L app). f_equal. symmetry. unfold last_n, n. apply ztake_zdrop.
    + unfold last_n. rewrite zlen_zdrop. pose proof (zlen_nonneg data).
      destruct (decide (3 <= zlen data)); [left; lia|]. right.
      unfold data in *. rewrite zlen_app in *. destruct Hprev as [?| ->]; [lia|].
      rewrite ztake_le_0 by (unfold n; rewrite zlen_app; lia). done.
    + done.
    + done.
Qed.

Lemma reads_concat fuel n file :
  0 < n → (length file ≤ fuel)%nat →
  concat (reads fuel n file) = file ∧ Forall (λ buf, buf ≠ []) (reads fuel n file).
Proof.
  intros Hn. revert file. induction fuel as [|f IH]; intros file Hf.
  - destruct file; [|simpl in Hf; lia]. split; [done|constructor].
  - destruct file as [|x file]; [split; [done|constructor]|]. cbn [reads concat].
    destruct (IH (zdrop n (x :: file))) as [H1 H2].
    { rewrite zdrop_drop, length_drop. simpl in *. lia. }
    rewrite H1, ztake_zdrop. split; [done|]. constructor; [|done].
    cbn [ztake]. by rewrite (proj2 (Z.leb_gt _ _)) by lia.
Qed.

(** ** Walking never fails *)

Lemma unpack_from_total n l off :
  0 ≤ off → off + Z.of_nat n ≤ zlen l → ∃ z, unpack_from_u n l off = Ok z.
Proof.
  intros Ho Hle. unfold unpack_from_u, unpack_u. rewrite zlen_slice by done.
  rewrite (proj2 (Z.eqb_eq _ _)) by lia. eauto.
Qed.
Ltac unpack_ok :=
  match goal with
  | |- context [unpack_from_I ?l ?o] =>
      let z := fresh "z" in let H := fresh "Hz" in
      destruct (unpack_from_total 4 l o) as [z H]; [lia|lia|];
      change (unpack_from_u 4 l o) with (unpack_from_I l o) in H; rewrite H, ok_bind
  | |- context [unpack_from_Q ?l ?o] =>
      let z := fresh "z" in let H := fresh "Hz" in
      destruct (unpack_from_total 8 l o) as [z H]; [lia|lia|];
      change (unpack_from_u 8 l o) with (unpack_from_Q l o) in H; rewrite H, ok_bind
  end.

Definition item_ok (it : Z * Z * list byte) : Prop :=
  let '(t, sz, data) := it in zlen data = sz ∧ sz ≤ 2 ^ 20.

Lemma unpack_from_I_range l off z : unpack_from_I l off = Ok z → 0 ≤ z < 2 ^ 32.
Proof.
  unfold unpack_from_I, unpack_from_u, unpack_u. intros H. simpl_res. apply Z.eqb_eq in Hif.
  pose proof (le_Z_range (slice off (off + Z.of_nat 4) l)) as Hr. by rewrite Hif in Hr.
Qed.

Lemma walk_total limit buf pos :
  0 ≤ pos →
  ∃ items, walk limit buf pos = Ok items ∧ Forall item_ok items ∧ (length items ≤ limit)%nat.
Proof.
  revert pos. induction limit as [|limit IH]; intros pos Hpos; cbn [walk].
  - exists []. repeat split; [constructor|done].
  - destruct (zlen buf <? pos + 16) eqn:E; [exists []; repeat split; [constructor|simpl; lia]|].
    unfold unpack_from_IIQ. repeat unpack_ok. rewrite ok_bind. cbn beta iota.
    apply unpack_from_I_range in Hz0.
    destruct ((Z.shiftl 1 20 <? z0) || (zlen buf <? pos + 16 + z0)) eqn:E2;
      [exists []; repeat split; [constructor|simpl; lia]|].
    apply orb_false_iff in E2 as [E2 E3]. change (Z.shiftl 1 20) with (2 ^ 20) in E2.
    assert (item_ok (z, z0, slice (pos + 16) (pos + 16 + z0) buf)) as Hit.
    { split; [rewrite zlen_slice by lia; lia|lia]. }
    destruct (z =? KCDATA_TYPE_BUFFER_END).
    + eexists. split; [done|]. split; [by apply Forall_singleton|simpl; lia].
    + rewrite land_lnot3. pose proof (roundup4_spec (pos + 16 + z0)) as [Hr _].
      destruct (IH (roundup4 (pos + 16 + z0))) as (items & -> & Hall & Hlen); [lia|].
      rewrite ok_bind. eexists. split; [done|]. split; [by constructor|simpl; lia].
Qed.

Lemma render_item_total t sz data : item_ok (t, sz, data) → ∃ l, render_item t sz data = Ok l.
Proof.
  intros [Hlen _]. unfold render_item. cbv zeta.
  repeat match goal with
         | |- ∃ l, (if ?c then _ else _) = Ok l => destruct c eqn:?
         end;
    repeat match goal with H : _ && _ = true |- _ => apply andb_true_iff in H as [? ?] end;
    repeat unpack_ok; eauto.
Qed.

Lemma res_map_total {A B} (f : A → res B) (P : A → Prop) l :
  Forall P l → (∀ x, P x → ∃ y, f x = Ok y) → ∃ k, res_map f l = Ok k.
Proof.
  intros H Hf. induction H as [|x l Hx _ [k Hk]]; [by exists []|].
  destruct (Hf x Hx) as [y Hy]. cbn [res_map]. rewrite Hy, ok_bind, Hk. eauto.
Qed.

Lemma render_total file off : 0 ≤ off → ∃ r, render file off = Ok r.
Proof.
  intros Ho. unfold render.
  destruct (walk_total 512 (slice off (off + Z.shiftl 1 16) file) 0) as (items & -> & Hall & _); [done|].
  rewrite ok_bind.
  destruct (res_map_total (λ '(t, sz, data), render_item t sz data) item_ok items Hall) as [k ->];
    [|rewrite ok_bind; eauto].
  intros [[t sz] data]. apply render_item_total.
Qed.

(** ** Writing a chain of items *)

Definition item_bytes (t fl : Z) (data : list byte) : list byte :=
  le_bytes 4 t ++ le_bytes 4 (zlen data) ++ le_bytes 8 fl
  ++ ljust (roundup4 (zlen data)) x00 data.
Definition chain_bytes (items : list (Z * Z * list byte)) : list byte :=
  concat (map (λ '(t, fl, data), item_bytes t fl data) items).

Lemma walk_item limit pre t fl data rest :
  zlen pre mod 4 = 0 → 0 ≤ t < 2 ^ 32 → 0 ≤ fl < 2 ^ 64 → zlen data ≤ 2 ^ 20 →
  let buf := pre ++ item_bytes t fl data ++ rest in
  let item := (t, zlen data, data) in
  walk (S limit) buf (zlen pre)
  = if t =? KCDATA_TYPE_BUFFER_END then Ok [item]
    else more ← walk limit buf (zlen (pre ++ item_bytes t fl data)); Ok (item :: more).
Proof.
  intros Hm Ht Hfl Hd. cbv zeta. pose proof (zlen_nonneg data).
  pose proof (roundup4_spec (zlen data)) as [Hr Hr4].
  set (pd := ljust (roundup4 (zlen data)) x00 data).
  assert (zlen pd = roundup4 (zlen data)) as Hpd by (unfold pd; rewrite zlen_ljust; lia).
  assert (zlen (item_bytes t fl data) = 16 + roundup4 (zlen data)) as Hib.
  { unfold item_bytes. fold pd. rewrite !zlen_app, !zlen_le_bytes, Hpd. lia. }
  set (buf := pre ++ item_bytes t fl data ++ rest).
  assert (zlen buf = zlen pre + 16 + roundup4 (zlen data) + zlen rest) as Hbuf
    by (unfold buf; rewrite !zlen_app, Hib; lia).
  pose proof (zlen_nonneg rest). cbn [walk].
  rewrite (proj2 (Z.ltb_ge _ _)) by lia.
  assert (buf = pre ++ le_bytes 4 t ++ (le_bytes 4 (zlen data) ++ le_bytes 8 fl ++ pd ++ rest)) as E1
    by (unfold buf, item_bytes; by rewrite <-!(assoc_L app)).
  unfold unpack_from_IIQ.
  assert (unpack_from_I buf (zlen pre) = Ok t) as ->.
  { rewrite E1. apply unpack_from_app; [|done]. by apply pack_u_Ok. }
  assert (unpack_from_I buf (zlen pre + 4) = Ok (zlen data)) as ->.
  { rewrite E1, (assoc_L app pre). apply unpack_from_app.
    - apply pack_u_Ok. split; [change (2 ^ _) with (2 ^ 32); lia|done].
    - by rewrite zlen_app, zlen_le_bytes. }
  assert (unpack_from_Q buf (zlen pre + 8) = Ok fl) as ->.
  { assert (buf = (pre ++ le_bytes 4 t ++ le_bytes 4 (zlen data)) ++ le_bytes 8 fl ++ (pd ++ rest))
      as -> by (rewrite E1; by rewrite <-!(assoc_L app)).
    apply unpack_from_app; [by apply pack_u_Ok|].
    rewrite !zlen_app, !zlen_le_bytes. lia. }
  rewrite !ok_bind. cbn beta iota.
  rewrite (proj2 (Z.ltb_ge (Z.shiftl 1 20) _)) by done.
  rewrite (proj2 (Z.ltb_ge (zlen buf) _)) by lia. cbn [orb].
  assert (slice (zlen pre + 16) (zlen pre + 16 + zlen data) buf = data) as ->.
  { assert (buf = (pre ++ le_bytes 4 t ++ le_bytes 4 (zlen data) ++ le_bytes 8 fl) ++ data
        ++ (replicate (Z.to_nat (roundup4 (zlen data) - zlen data)) x00 ++ rest))
      as -> by (rewrite E1; unfold pd, ljust; by rewrite <-!(assoc_L app)).
    apply slice_app_mid;
      rewrite !zlen_app, !zlen_le_bytes; lia. }
  destruct (t =? KCDATA_TYPE_BUFFER_END); [done|].
  rewrite land_lnot3. do 2 f_equal. rewrite zlen_app, Hib.
  pose proof (roundup4_spec (zlen pre + 16 + zlen data)) as [? Hx].
  pose proof (Z.div_mod (zlen pre) 4). pose proof (Z.div_mod (roundup4 (zlen data)) 4).
  pose proof (Z.div_mod (roundup4 (zlen pre + 16 + zlen data)) 4). lia.
Qed.

Lemma item_bytes_aligned t fl data : zlen (item_bytes t fl data) mod 4 = 0.
Proof.
  unfold item_bytes. rewrite !zlen_app, !zlen_le_bytes, zlen_ljust.
  pose proof (roundup4_spec (zlen data)) as [Hr Hr4]. rewrite Z.max_l by lia.
  replace (Z.of_nat 4 + (Z.of_nat 4 + (Z.of_nat 8 + roundup4 (zlen data))))
    with (roundup4 (zlen data) + 4 * 4) by lia.
  by rewrite Z.mod_add.
Qed.

(** ** Properties *)

(** [scan] reports a magic at an offset exactly when its four bytes are
    there, wherever the file is cut into reads. *)
Theorem scan_complete file o tag :
  (o, tag) ∈ scan file ↔ ∃ pn, pn ∈ pats ∧ tag = pn.2 ∧ occurs pn.1 file o.
Proof.
  unfold scan. destruct (reads_concat (length file) (Z.shiftl 1 26) file) as [Hc Hne]; [reflexivity|lia|].
  destruct (decide (reads (length file) (Z.shiftl 1 26) file = [])) as [E|E].
  - rewrite E in *. cbn in Hc. subst file. cbn. split; [intros H; by apply elem_of_nil in H|].
    intros (pn & Hpn & _ & Ho). destruct (pats_length _ Hpn) as [H4 Hp].
    apply occurs_bound in Ho as Hb; [|done]. rewrite H4 in Hb. destruct Ho as [Ho _].
    rewrite zlen_nil in Hb. lia.
  - rewrite (scan_chunks_spec _ [] [] []); [|done|by right|done|done].
    cbn [app]. rewrite Hc. change (zlen []) with 0. split.
    + intros (pn & ? & ? & _ & ?). eauto.
    + intros (pn & ? & ? & Ho). exists pn. split; [done|]. split; [done|]. split; [apply Ho|done].
Qed.

(** Reading a dump never fails: for every file, every blob found is walked
    and rendered without an exception, since the length tests come before
    each fixed-width read. *)
Theorem report_total file : ∃ r, report file = Ok r.
Proof.
  unfold report.
  destruct (res_map_total (λ '(off, tag), r ← render file off;
              Ok (match r with Some l => [(off, tag, l)] | None => [] end))
              (λ ot : Z * string, 0 ≤ ot.1) (scan file)) as [k ->]; [| |rewrite ok_bind; eauto].
  - apply Forall_forall. intros [o tag] Hin.
    unfold scan in Hin. destruct (reads_concat (length file) (Z.shiftl 1 26) file) as [Hc Hne]; [reflexivity|lia|].
    destruct (decide (reads (length file) (Z.shiftl 1 26) file = [])) as [E|E].
    + rewrite E in Hin. by apply elem_of_nil in Hin.
    + apply (scan_chunks_spec _ [] [] []) in Hin as (pn & _ & _ & Ho & _);
        [exact Ho|done|by right|done|done].
  - intros [o tag] Ho. cbn in Ho. destruct (render_total file o Ho) as [r ->].
    rewrite ok_bind. eauto.
Qed.

(** walking a well-formed chain gives its items, in order, up to and with
    the end marker, wherever the chain lies and whatever follows it. *)
Theorem walk_chain items limit pre fl rest :
  Forall (λ '(t, f, data), 0 ≤ t < 2 ^ 32 ∧ t ≠ KCDATA_TYPE_BUFFER_END ∧ 0 ≤ f < 2 ^ 64
                           ∧ zlen data ≤ 2 ^ 20) items →
  zlen pre mod 4 = 0 → 0 ≤ fl < 2 ^ 64 → (length items < limit)%nat →
  walk limit (pre ++ chain_bytes items ++ item_bytes KCDATA_TYPE_BUFFER_END fl [] ++ rest) (zlen pre)
  = Ok (map (λ '(t, f, data), (t, zlen data, data)) items ++ [(KCDATA_TYPE_BUFFER_END, 0, [])]).
Proof.
  intros H. revert limit pre. induction H as [|[[t f] data] items (Ht & Hne & Hf & Hd) _ IH];
    intros [|limit] pre Hm Hfl Hlen; try (simpl in Hlen; lia).
  - cbn [chain_bytes map concat app]. rewrite walk_item; [done|done|done|done|done].
  - unfold chain_bytes. cbn [map concat]. fold (chain_bytes items).
    rewrite <-(assoc_L app (item_bytes t f data)). rewrite walk_item by done.
    rewrite (proj2 (Z.eqb_neq _ _)) by done.
    rewrite (assoc_L app pre), IH; [done| |done|simpl in Hlen; lia].
    by rewrite zlen_app, Zplus_mod, Hm, item_bytes_aligned.
Qed.

Lemma walk_chain_witness :
  walk 512 ([] ++ chain_bytes [(0x53A20900, 0, []); (0x1002, 0, b "boom" ++ [x00])]
            ++ item_bytes KCDATA_TYPE_BUFFER_END 0 [] ++ [xff]) 0
  = Ok [(0x53A20900, 0, []); (0x1002, 5, b "boom" ++ [x00]); (KCDATA_TYPE_BUFFER_END, 0, [])].
Proof.
  apply (walk_chain [(0x53A20900, 0, []); (0x1002, 0, b "boom" ++ [x00])] 512 [] 0 [xff]).
  - repeat (constructor; [vm_compute; repeat split; congruence|]). constructor.
  - reflexivity.
  - lia.
  - vm_compute. lia.
Defined.

(** A magic in the last bytes of one read is found again with the next one. *)
Lemma scan_reports_twice :
  scan_chunks [] 0 [replicate 4 x00 ++ le_bytes 4 0x53A20900; [x00]]
  = [(4, "OS_REASON"%string); (4, "OS_REASON"%string)].
Proof. vm_compute. reflexivity. Qed.

(** [carve] returns the first end, after the smallest possible list, whose
    trailer fits and whose bytes parse; it never looks at the end of the
    buffer itself, so a list that ends with the dump is not recovered. *)
Theorem carve_first_end {obj} (plist_load : list byte → option obj) buf start window o n :
  carve plist_load buf start window = Some (o, n) ↔
  (40 ≤ n ∧ start + n < zlen buf ∧ n < window ∧
   try_end buf start (start + n) = true ∧ plist_load (slice start (start + n) buf) = Some o ∧
   ∀ m, 40 ≤ m < n → try_end buf start (start + m) = true →
        plist_load (slice start (start + m) buf) = None).
Proof.
  unfold carve. set (limit := Z.min (zlen buf) (start + window)).
  assert (∀ k stop, start + 40 ≤ stop →
    carve_from plist_load k buf start stop = Some (o, n) ↔
    stop ≤ start + n < stop + Z.of_nat k ∧ try_end buf start (start + n) = true ∧
    plist_load (slice start (start + n) buf) = Some o ∧
    ∀ m, stop ≤ start + m < start + n → try_end buf start (start + m) = true →
         plist_load (slice start (start + m) buf) = None) as Hfrom.
  { induction k as [|k IH]; intros stop Hstop; cbn [carve_from].
    - split; [done|]. intros (? & _). lia.
    - destruct (if try_end buf start stop then plist_load (slice start stop buf) else None)
        as [o'|] eqn:E.
      + split.
        * intros [= -> <-]. replace (start + (stop - start)) with stop by lia.
          destruct (try_end buf start stop); [|done]. repeat split; try done; lia.
        * intros (Hn & Ht & Hp & Hmin). destruct (decide (start + n = stop)) as [<-|Hne].
          { rewrite Ht, Hp in E. injection E as <-. repeat f_equal. lia. }
          specialize (Hmin (stop - start)). replace (start + (stop - start)) with stop in Hmin by lia.
          destruct (try_end buf start stop); [|done]. rewrite Hmin in E; [done|lia|done].
      + rewrite IH by lia. split; intros (Hn & Ht & Hp & Hmin); repeat split; try done; try lia.
        * intros m Hm Htm. destruct (decide (start + m = stop)) as [Hms|Hne].
          { rewrite Hms in *. by rewrite Htm in E. }
          apply Hmin; [lia|done].
        * destruct (decide (start + n = stop)) as [Hns|Hne]; [|lia].
          rewrite <-Hns, Ht, Hp in E. done.
        * intros m Hm. apply Hmin. lia. }
  rewrite Hfrom by lia. split.
  - intros (Hn & Ht & Hp & Hmin). repeat split; try done; try lia.
    intros m Hm. apply Hmin. lia.
  - intros (H40 & Hz & Hw & Ht & Hp & Hmin). repeat split; try done; try lia.
    intros m Hm. apply Hmin. lia.
Qed.
