(* ===== verification/CodeSign.v ===== *)
(** * Code page signatures: [tools/input/prepare_display_policy.py] and
      [tools/input/prepare_guarded_cache_patch.py]

    Both tools edit code pages of a shared cache and replace the pages' hashes
    in the CodeDirectory of its signature.  Copying the ramdisk, mounting it
    and running the sibling tools is left out. *)

From stdpp Require Import base tactics list list_numbers sorting strings sets.
From Stdlib Require Import Strings.Byte.
From S2P Require Import Prelude PyBytes PyStr PyDict Sha256 TrustCache.
Open Scope Z_scope.

(** ** Constants *)

Definition ADDRESS : Z := 0x1847AE2E4.
Definition OFFSET : Z := 0x43AE2E4.
Definition EXPECTED : list byte :=
  [x0a; xe4; x4e; x39; x06; x80; x80; x52; xea; x00; x10; x37; xea; x4f; x70; xb2].
Definition REPLACEMENT : list byte := [x1f; x20; x03; xd5].
Definition PAGE_SIZE : Z := 16384.
Definition SUPERBLOB_MAGIC : Z := 0xFADE0CC0.
Definition CODEDIRECTORY_MAGIC : Z := 0xFADE0C02.
Definition CSSLOT_CODEDIRECTORY : Z := 0.
(** The sizes of [">III"], [">II"] and [">9I4BI"]. *)
Definition SUPERBLOB_HEADER_size : Z := 12.
Definition SUPERBLOB_INDEX_size : Z := 8.
Definition CODEDIRECTORY_HEADER_size : Z := 44.

(** ** The CodeDirectory *)

(** The loop over the index: slots and their offsets, without duplicates. *)
Fixpoint read_slots (n : nat) (signature : list byte) (pos : Z) (slots : list (Z * Z))
  : res (list (Z * Z)) :=
  match n with
  | O => Ok slots
  | S n =>
      slot ← unpack_be 4 signature pos; offset ← unpack_be 4 signature (pos + 4);
      raise_if dmem slot slots with ValueError "duplicate SuperBlob slot" ;;
      read_slots n signature (pos + SUPERBLOB_INDEX_size) (dset slot offset slots)
  end.

(** The fields of the header that are used. *)
Record cd_header := CdHeader {
  cd_magic : Z; cd_length : Z; cd_flags : Z; hash_offset : Z; code_slots : Z; code_limit : Z;
  hash_size : Z; hash_type : Z; page_shift : Z;
}.
Definition read_cd_header (signature : list byte) (o : Z) : res cd_header :=
  magic ← unpack_be 4 signature o;
  length ← unpack_be 4 signature (o + 4);
  flags ← unpack_be 4 signature (o + 12);
  hash_off ← unpack_be 4 signature (o + 16);
  slots ← unpack_be 4 signature (o + 28);
  limit ← unpack_be 4 signature (o + 32);
  hsize ← unpack_be 1 signature (o + 36);
  htype ← unpack_be 1 signature (o + 37);
  shift ← unpack_be 1 signature (o + 39);
  Ok (CdHeader magic length flags hash_off slots limit hsize htype shift).

Definition locate_code_directory (signature : list byte) (page_index required_code_end : Z)
  : res (Z * cd_header) :=
  raise_if zlen signature <? SUPERBLOB_HEADER_size
    with ValueError "signature is too short for a SuperBlob header" ;;
  magic ← unpack_be 4 signature 0;
  length ← unpack_be 4 signature 4;
  count ← unpack_be 4 signature 8;
  raise_if negb (magic =? SUPERBLOB_MAGIC) with ValueError "unsupported signature SuperBlob magic" ;;
  raise_if (length <? SUPERBLOB_HEADER_size) || (zlen signature <? length)
    with ValueError "invalid declared SuperBlob length" ;;
  let index_end := SUPERBLOB_HEADER_size + count * SUPERBLOB_INDEX_size in
  raise_if length <? index_end with ValueError "truncated SuperBlob index" ;;
  slots ← read_slots (Z.to_nat count) signature SUPERBLOB_HEADER_size [];
  cd_offset ← opt_or (dget CSSLOT_CODEDIRECTORY slots)
                (ValueError "SuperBlob has no primary CodeDirectory");
  raise_if cd_offset <? index_end with ValueError "CodeDirectory overlaps the SuperBlob index" ;;
  raise_if length <? cd_offset + CODEDIRECTORY_HEADER_size
    with ValueError "truncated CodeDirectory header" ;;
  h ← read_cd_header signature cd_offset;
  raise_if negb (cd_magic h =? CODEDIRECTORY_MAGIC)
    with ValueError "primary SuperBlob slot is not a CodeDirectory" ;;
  raise_if (cd_length h <? CODEDIRECTORY_HEADER_size) || (length <? cd_offset + cd_length h)
    with ValueError "truncated CodeDirectory" ;;
  raise_if negb ((cd_flags h =? 2) && (hash_type h =? 2) && (hash_size h =? 32) && (page_shift h =? 14))
    with ValueError "requires existing ad-hoc SHA-256/16 KiB CodeDirectory" ;;
  raise_if code_limit h <? required_code_end
    with ValueError "target instructions are outside the CodeDirectory code limit" ;;
  raise_if code_slots h <=? page_index
    with ValueError "target code page is outside the CodeDirectory hash table" ;;
  let hashes_end := hash_offset h + code_slots h * hash_size h in
  raise_if (hash_offset h <? CODEDIRECTORY_HEADER_size) || (cd_length h <? hashes_end)
    with ValueError "invalid CodeDirectory code-hash table" ;;
  Ok (cd_offset, h).

Definition parse_code_directory (signature : list byte) (page_index required_code_end : Z)
  : res (list byte * Z * Z) :=
  '(cd_offset, h) ← locate_code_directory signature page_index required_code_end;
  let slot_offset := hash_offset h + page_index * hash_size h in
  Ok (slice cd_offset (cd_offset + cd_length h) signature, cd_offset, slot_offset).

(** ** Pages *)

Definition patch_code_page (source : list byte) : res (list byte * list byte) :=
  raise_if negb (zlen source =? PAGE_SIZE) with ValueError "target code page is truncated" ;;
  let page_offset := OFFSET mod PAGE_SIZE in
  let original := slice page_offset (page_offset + zlen EXPECTED) source in
  raise_if negb (bool_decide (original = EXPECTED))
    with ValueError "unsupported cache; expected 24A5430a QuartzCore allocation instructions" ;;
  Ok (original, zsplice (page_offset + 8) REPLACEMENT source).

(** [parser.error(str(error))] in the handlers of both [main]s. *)
Definition parser_error {A} (m : res A) : res A :=
  match m with
  | Raise (ValueError s) | Raise (TypeError s) => Raise (SystemExit s)
  | Raise (KeyError _) => Raise (SystemExit "missing key")
  | m => m
  end.

Definition rehash_code_page (signature : list byte) (page_index : Z)
    (source_page patched_page : list byte) (required_code_end : Z)
  : res (list byte * Z * Z * list byte * list byte) :=
  '(cd, cd_offset, slot_offset) ← parse_code_directory signature page_index required_code_end;
  let old_hash := slice slot_offset (slot_offset + 32) cd in
  raise_if negb (bool_decide (old_hash = sha256 source_page))
    with ValueError "source code page does not match its signature" ;;
  let new_hash := sha256 patched_page in
  Ok (zsplice slot_offset new_hash cd, cd_offset, slot_offset, old_hash, new_hash).

(** [main] of [prepare_display_policy.py], up to the first file it writes: the
    header, the instruction bytes before, the hashes, the offset of the hash
    in the cache and the new CodeDirectory hash. *)
Record policy := Policy {
  policy_header : list byte; policy_before : list byte; policy_after : list byte;
  policy_old_hash : list byte; policy_new_hash : list byte; policy_hash_offset : Z;
  policy_cdhash : list Z;
}.
Definition display_policy (cache : list byte) : res policy :=
  let header := slice 0 4096 cache in
  raise_if (zlen header <? 0x38) || negb (startswith (b "dyld") header)
    with SystemExit "unsupported cache header" ;;
  signature_offset ← unpack_from_Q header 0x28;
  signature_size ← unpack_from_Q header 0x30;
  raise_if (zlen cache <? signature_offset) || (zlen cache - signature_offset <? signature_size)
    with SystemExit "signature range is outside the shared cache" ;;
  let signature := slice signature_offset (signature_offset + signature_size) cache in
  raise_if negb (zlen signature =? signature_size) with SystemExit "truncated shared-cache signature" ;;
  let page_index := OFFSET / PAGE_SIZE in
  let source_page := slice (page_index * PAGE_SIZE) (page_index * PAGE_SIZE + PAGE_SIZE) cache in
  '(original, page) ← parser_error (patch_code_page source_page);
  '(cd, cd_offset, slot_offset, old_hash, new_hash) ←
     parser_error (rehash_code_page signature page_index source_page page (OFFSET + zlen EXPECTED));
  Ok (Policy header original (ztake 8 original ++ REPLACEMENT ++ zdrop 12 original)
        old_hash new_hash (signature_offset + cd_offset + slot_offset)
        (ztake 40 (sha256_hex cd))).

(** ** Reviewed edits *)

Record edit_item := EditItem { item_offset : list Z + Z; item_before : list Z; item_after : list Z }.
(** [purpose]: [None] when the key is absent or not a string. *)
Record edit_spec := EditSpec {
  cache_name : list Z; purpose : option (list Z); spec_edits : list edit_item
}.
Record edit := Edit { offset : Z; before : list byte; after : list byte }.

(** [re.fullmatch(r'dyld_shared_cache_arm64e(?:\.\d{2})?', name)] *)
Definition cache_name_ok (name : list Z) : bool :=
  let p := u "dyld_shared_cache_arm64e" in
  startswith p name
  && match zdrop (zlen p) name with
     | [] => true
     | [46; c; e] => is_digit c && is_digit e
     | _ => false
     end.

Definition reviewed_edit (source : list byte) (item : edit_item) : res edit :=
  o ← match item_offset item with inl s => int0 s | inr n => Ok n end;
  bef ← fromhex (item_before item);
  aft ← fromhex (item_after item);
  raise_if (o <? 4096) || bool_decide (bef = []) || negb (zlen bef =? zlen aft)
    with ValueError "edits require equal nonempty lengths after the cache header" ;;
  raise_if (PAGE_SIZE <? zlen bef) || negb (o / PAGE_SIZE =? (o + zlen bef - 1) / PAGE_SIZE)
    with ValueError "each edit must fit in one code page" ;;
  raise_if negb (bool_decide (slice o (o + zlen bef) source = bef))
    with ValueError "preimage mismatch" ;;
  raise_if bool_decide (bef = aft) with ValueError "no-op edit" ;;
  Ok (Edit o bef aft).

(** The order of the tuples [(offset, before, after)]: [-1] ends [before]. *)
Definition edit_key (e : edit) : list Z := offset e :: codes (before e) ++ [-1] ++ codes (after e).

Fixpoint no_overlap (edits : list edit) : bool :=
  match edits with
  | l :: ((r :: _) as rest) => (offset l + zlen (before l) <=? offset r) && no_overlap rest
  | _ => true
  end.

Definition reviewed_edits (spec : edit_spec) (source : list byte) : res (list edit) :=
  raise_if negb (cache_name_ok (cache_name spec)) with ValueError "unsupported cache filename" ;;
  raise_if match purpose spec with None => true | Some p => bool_decide (strip p = []) end
    with ValueError "a reviewed purpose is required" ;;
  edits ← res_map (reviewed_edit source) (spec_edits spec);
  raise_if bool_decide (edits = []) || (32 <? zlen edits)
    with ValueError "requires 1..32 reviewed edits" ;;
  let edits := sort_by edit_key edits in
  raise_if negb (no_overlap edits) with ValueError "overlapping edits" ;;
  Ok edits.

(** ** The payloads of [prepare_guarded_cache_patch.py] *)

Definition apply_in_page (page_index : Z) (page : list byte) (e : edit) : list byte :=
  if offset e / PAGE_SIZE =? page_index then zsplice (offset e mod PAGE_SIZE) (after e) page else page.

(** [sorted({offset // PAGE_SIZE ...})] of edits sorted by offset. *)
Fixpoint edited_pages (edits : list edit) : list Z :=
  match edits with
  | [] => []
  | e :: edits =>
      let p := offset e / PAGE_SIZE in
      match edited_pages edits with
      | q :: ps => if p =? q then q :: ps else p :: q :: ps
      | [] => [p]
      end
  end.

Definition rehash_edited_page (cache signature : list byte) (edits : list edit)
    (base : Z) (st : list byte * list edit) (page_index : Z) : res (list byte * list edit) :=
  let '(cd, payloads) := st in
  let original := slice (page_index * PAGE_SIZE) (page_index * PAGE_SIZE + PAGE_SIZE) cache in
  raise_if negb (zlen original =? PAGE_SIZE) with ValueError "truncated code page" ;;
  '(cd0, cd_offset0, slot) ← parse_code_directory signature page_index 0;
  let old_hash := slice slot (slot + 32) cd in
  raise_if negb (bool_decide (sha256 original = old_hash))
    with ValueError "original page fails signature hash" ;;
  let changed := foldl (apply_in_page page_index) original edits in
  let new_hash := sha256 changed in
  Ok (zsplice slot new_hash cd, payloads ++ [Edit (base + slot) old_hash new_hash]).

Definition guarded_payloads (cache : list byte) (spec : edit_spec)
  : res (list edit * list edit * list Z) :=
  let header := slice 0 4096 cache in
  raise_if negb (zlen header =? 4096) || negb (startswith (b "dyld") header)
    with SystemExit "unsupported shared-cache header" ;;
  signature_offset ← unpack_from_Q header 0x28;
  signature_size ← unpack_from_Q header 0x30;
  raise_if zlen cache <? signature_offset + signature_size
    with SystemExit "signature extends beyond cache" ;;
  let signature := slice signature_offset (signature_offset + signature_size) cache in
  '(edits, cd, hash_edits) ← parser_error (
    edits ← reviewed_edits spec cache;
    '(cd, cd_offset, slot0) ← parse_code_directory signature 0
        (foldr (λ e m, Z.max (offset e + zlen (before e)) m) 0 edits);
    '(cd, hash_edits) ← res_foldl (rehash_edited_page cache signature edits (signature_offset + cd_offset))
        (cd, []) (edited_pages edits);
    Ok (edits, cd, hash_edits));
  Ok (edits, hash_edits, ztake 40 (sha256_hex cd)).

(** ** The located CodeDirectory *)

Lemma unpack_be_Ok n l o z :
  0 ≤ o → (0 < n)%nat → unpack_be n l o = Ok z → o + Z.of_nat n ≤ zlen l ∧ 0 ≤ z.
Proof.
  intros Ho Hn H. unfold unpack_be in H. simpl_res. unfold be_Z.
  destruct (le_Z_range (reverse (slice o (o + Z.of_nat n) l))) as [? _].
  apply Z.eqb_eq in Hif. rewrite zlen_slice in Hif by done.
  lia.
Qed.
Lemma unpack_be_total n l o : 0 ≤ o → o + Z.of_nat n ≤ zlen l → ∃ z, unpack_be n l o = Ok z ∧ 0 ≤ z.
Proof.
  intros Ho Hl. unfold unpack_be. rewrite zlen_slice by done.
  replace (Z.max 0 (Z.min (o + Z.of_nat n - o) (zlen l - o))) with (Z.of_nat n) by lia.
  rewrite Z.eqb_refl. eexists. split; [done|]. apply le_Z_range.
Qed.
Lemma unpack_be_zsplice n i k l o :
  0 ≤ i → i + zlen k ≤ zlen l → 0 ≤ o → (o + Z.of_nat n ≤ i ∨ i + zlen k ≤ o) →
  unpack_be n (zsplice i k l) o = unpack_be n l o.
Proof. intros. unfold unpack_be. by rewrite slice_zsplice_ne by done. Qed.

Definition is_ValueError (e : exn) : bool := match e with ValueError _ => true | _ => false end.

(** [only_value_errors m P]: [m] returns with [P] or raises [ValueError]. *)
Definition ok_or_ValueError {A} (m : res A) (P : A → Prop) : Prop :=
  match m with Ok a => P a | Raise e => is_ValueError e = true end.

Lemma ok_or_bind {A B} (m : res A) (f : A → res B) (P : A → Prop) (Q : B → Prop) :
  ok_or_ValueError m P → (∀ a, P a → ok_or_ValueError (f a) Q) → ok_or_ValueError (m ≫= f) Q.
Proof. destruct m; simpl; auto. Qed.
Lemma ok_or_raise {A} (c : bool) s (m : res A) (P : A → Prop) :
  (c = false → ok_or_ValueError m P) → ok_or_ValueError (if c then Raise (ValueError s) else m) P.
Proof. destruct c; simpl; auto. Qed.
Lemma ok_or_unpack n l o :
  0 ≤ o → o + Z.of_nat n ≤ zlen l → ok_or_ValueError (unpack_be n l o) (λ z, 0 ≤ z ∧ unpack_be n l o = Ok z).
Proof. intros Ho Hl. destruct (unpack_be_total n l o Ho Hl) as (z & -> & ?). simpl. done. Qed.

Lemma dset_Forall {A} (P : Z → A → Prop) k v d :
  P k v → Forall (λ e, P e.1 e.2) d → Forall (λ e, P e.1 e.2) (dset k v d).
Proof.
  intros Hp. induction 1 as [|[k' v'] d Hx Hd IH]; cbn [dset]; [by repeat constructor|].
  destruct (decide (k = k')) as [->|]; by constructor.
Qed.

Lemma read_slots_ok n signature pos slots :
  0 ≤ pos → pos + Z.of_nat n * 8 ≤ zlen signature → Forall (λ e, 0 ≤ e.2) slots →
  ok_or_ValueError (read_slots n signature pos slots) (Forall (λ e, 0 ≤ e.2)).
Proof.
  revert pos slots. induction n as [|n IH]; intros pos slots Hp Hl Hs; cbn [read_slots]; [done|].
  eapply ok_or_bind; [apply ok_or_unpack; lia|]. intros s [? _].
  eapply ok_or_bind; [apply ok_or_unpack; lia|]. intros o [? _].
  apply ok_or_raise. intros _. unfold SUPERBLOB_INDEX_size. apply IH; [lia|lia|].
  by apply (dset_Forall (λ _ v, 0 ≤ v)).
Qed.

(** What [locate_code_directory] has checked when it returns. *)
Definition located (signature : list byte) (page_index : Z) (r : Z * cd_header) : Prop :=
  let '(o, h) := r in
  12 ≤ o ∧ 44 ≤ cd_length h ∧ o + cd_length h ≤ zlen signature
  ∧ (∃ n, unpack_be 4 signature 4 = Ok n ∧ o + cd_length h ≤ n ≤ zlen signature)
  ∧ page_index < code_slots h ∧ hash_size h = 32
  ∧ 44 ≤ hash_offset h ∧ hash_offset h + code_slots h * 32 ≤ cd_length h.

Lemma read_cd_header_ok signature o :
  0 ≤ o → o + 44 ≤ zlen signature → ok_or_ValueError (read_cd_header signature o) (λ _, True).
Proof.
  intros Ho Hl. unfold read_cd_header.
  repeat (eapply ok_or_bind; [apply ok_or_unpack; lia|]; intros ? [? ?]). done.
Qed.

Lemma locate_code_directory_ok signature page_index rce :
  ok_or_ValueError (locate_code_directory signature page_index rce) (located signature page_index).
Proof.
  unfold locate_code_directory, SUPERBLOB_HEADER_size, SUPERBLOB_INDEX_size, CODEDIRECTORY_HEADER_size.
  apply ok_or_raise. intros Hl.
  eapply ok_or_bind; [apply ok_or_unpack; lia|]. intros magic [_ _].
  eapply ok_or_bind; [apply ok_or_unpack; lia|]. intros len [Hlen0 Hlen].
  eapply ok_or_bind; [apply ok_or_unpack; lia|]. intros count [Hc0 Hc].
  apply ok_or_raise. intros _. apply ok_or_raise. intros Hl1. apply ok_or_raise. intros Hl2.
  eapply ok_or_bind; [apply read_slots_ok; [lia|lia|constructor]|]. intros slots Hs.
  destruct (dget CSSLOT_CODEDIRECTORY slots) as [o|] eqn:Ho; [|done]. cbn.
  apply dget_In in Ho. pose proof (proj1 (Forall_forall _ _) Hs _ Ho) as Ho0. cbn in Ho0.
  apply ok_or_raise. intros Hl3. apply ok_or_raise. intros Hl4.
  eapply ok_or_bind; [apply read_cd_header_ok; lia|]. intros h _.
  do 6 (apply ok_or_raise; intros ?). cbn.
  assert (hash_size h = 32) as Hh by lia. rewrite Hh in *.
  repeat split; try lia. exists len. split; [done|lia].
Qed.

Lemma locate_spec signature page_index rce r :
  locate_code_directory signature page_index rce = Ok r → located signature page_index r.
Proof. intros H. pose proof (locate_code_directory_ok signature page_index rce) as Hok. by rewrite H in Hok. Qed.

(** Whatever bytes the signature holds, [parse_code_directory] either
    raises [ValueError] (never a [struct.error], [KeyError] or [IndexError])
    or returns a CodeDirectory that is a window of the signature inside the
    declared SuperBlob length, together with the offset of a full 32-byte hash
    slot that lies behind the CodeDirectory's header and inside it. *)
Theorem parse_code_directory_bounds signature page_index rce :
  0 ≤ page_index →
  match parse_code_directory signature page_index rce with
  | Raise e => ∃ msg, e = ValueError msg
  | Ok (cd, cd_offset, slot_offset) =>
      cd = slice cd_offset (cd_offset + zlen cd) signature
      ∧ (∃ n, unpack_be 4 signature 4 = Ok n ∧ cd_offset + zlen cd ≤ n ≤ zlen signature)
      ∧ 12 ≤ cd_offset ∧ 44 ≤ slot_offset ∧ slot_offset + 32 ≤ zlen cd
  end.
Proof.
  intros Hp. unfold parse_code_directory.
  pose proof (locate_code_directory_ok signature page_index rce) as H.
  destruct (locate_code_directory signature page_index rce) as [[o h]|e]; cbn in *.
  - destruct H as (Ho & Hl & Hs & (n & Hn & Hn') & Hpi & Hh & Hho & Hhe).
    rewrite Hh. rewrite zlen_slice by lia.
    replace (Z.max 0 _) with (cd_length h) by lia. repeat split; [|lia|lia|nia].
    exists n. split; [done|lia].
  - destruct e; try done. eauto.
Qed.

(** ** Replacing one hash slot *)

Section splice.
Context (i : Z) (k signature : list byte).
Hypothesis (Hi : 0 ≤ i) (Hk : i + zlen k ≤ zlen signature).

Lemma read_slots_zsplice n pos slots :
  0 ≤ pos → pos + Z.of_nat n * 8 ≤ i →
  read_slots n (zsplice i k signature) pos slots = read_slots n signature pos slots.
Proof.
  revert pos slots. induction n as [|n IH]; intros pos slots Hp Hn; cbn [read_slots]; [done|].
  rewrite !unpack_be_zsplice by lia.
  apply bind_ext. intros s. apply bind_ext. intros o. rewrite IH; [done|..]; unfold SUPERBLOB_INDEX_size; lia.
Qed.

Lemma read_cd_header_zsplice o :
  0 ≤ o → o + 44 ≤ i → read_cd_header (zsplice i k signature) o = read_cd_header signature o.
Proof. intros. unfold read_cd_header. by rewrite !unpack_be_zsplice by lia. Qed.

(** A splice behind the CodeDirectory's header does not move it. *)
Lemma locate_zsplice page_index rce o h :
  locate_code_directory signature page_index rce = Ok (o, h) → o + 44 ≤ i →
  locate_code_directory (zsplice i k signature) page_index rce = Ok (o, h).
Proof.
  intros H Ho. rewrite <-H. unfold locate_code_directory in H. simpl_res.
  unfold SUPERBLOB_HEADER_size, SUPERBLOB_INDEX_size in *.
  unfold locate_code_directory, SUPERBLOB_HEADER_size, SUPERBLOB_INDEX_size.
  assert (0 ≤ r1) by (eapply unpack_be_Ok in Hr1; lia).
  rewrite zlen_zsplice by done. rewrite !unpack_be_zsplice by lia.
  rewrite Hr, Hr0, Hr1. cbn [mbind res_bind]. rewrite read_slots_zsplice by lia.
  rewrite Hr2. cbn [mbind res_bind]. rewrite Hr3. cbn [opt_or mbind res_bind].
  by rewrite read_cd_header_zsplice by lia.
Qed.
End splice.

Lemma locate_unique signature p q r r' x y :
  locate_code_directory signature p r = Ok x → locate_code_directory signature q r' = Ok y → x = y.
Proof.
  intros Hx Hy. unfold locate_code_directory in *. simpl_res. congruence.
Qed.

Lemma parse_Ok signature q rce cd o slot :
  parse_code_directory signature q rce = Ok (cd, o, slot) →
  ∃ h, locate_code_directory signature q rce = Ok (o, h)
       ∧ cd = slice o (o + cd_length h) signature ∧ slot = hash_offset h + q * hash_size h.
Proof. unfold parse_code_directory. intros H. simpl_res. eauto. Qed.

Lemma located_window signature page_index o h :
  0 ≤ page_index → located signature page_index (o, h) →
  0 ≤ o ∧ zlen (slice o (o + cd_length h) signature) = cd_length h
  ∧ o + cd_length h ≤ zlen signature
  ∧ 44 ≤ hash_offset h + page_index * hash_size h
  ∧ hash_offset h + page_index * hash_size h + 32 ≤ cd_length h.
Proof.
  intros Hp (Ho & Hl & Hs & _ & Hpi & Hh & Hho & Hhe). rewrite zlen_slice by lia. rewrite Hh. nia.
Qed.

(** C24: Re-signing a page is exact and reversible.  When [rehash_code_page]
    returns, the hashes it reports are the digests of the two pages; splicing
    the CodeDirectory it built into the signature gives a signature of the
    same length for which the tool accepts the patched page as the source, and
    undoing the edit with it restores the old signature byte for byte; and the
    slot of every other page is the one that was there. *)
Theorem rehash_code_page_reversible signature page_index source_page patched_page rce
    cd cd_offset slot_offset old_hash new_hash
    (Hp : 0 ≤ page_index)
    (H : rehash_code_page signature page_index source_page patched_page rce
         = Ok (cd, cd_offset, slot_offset, old_hash, new_hash)) :
  let signature' := zsplice cd_offset cd signature in
  old_hash = sha256 source_page ∧ new_hash = sha256 patched_page
  ∧ zlen signature' = zlen signature
  ∧ (∃ cd0, rehash_code_page signature' page_index patched_page source_page rce
            = Ok (cd0, cd_offset, slot_offset, new_hash, old_hash)
            ∧ zsplice cd_offset cd0 signature' = signature)
  ∧ (∀ q slot cd0, 0 ≤ q → q ≠ page_index →
       parse_code_directory signature q 0 = Ok (cd0, cd_offset, slot) →
       slice slot (slot + 32) cd = slice slot (slot + 32) cd0).
Proof.
  unfold rehash_code_page, parse_code_directory in H. simpl_res. rename c into h.
  pose proof (locate_spec _ _ _ _ Hr0) as Hloc.
  destruct (located_window _ _ _ _ Hp Hloc) as (Ho & Hw & Hws & Hs1 & Hs2).
  set (so := hash_offset h + page_index * hash_size h) in *.
  set (cd := slice cd_offset (cd_offset + cd_length h) signature) in *.
  set (new := sha256 patched_page).
  assert (zlen new = 32) as Hnew by apply zlen_sha256.
  assert (zsplice cd_offset (zsplice so new cd) signature = zsplice (cd_offset + so) new signature) as Hsig
    by (apply zsplice_slice; lia).
  apply negb_false_iff, bool_decide_eq_true in Hif. cbn zeta. rewrite Hsig.
  split; [done|]. split; [done|]. split; [apply zlen_zsplice; lia|]. split.
  - exists cd. split; [|unfold cd].
    + unfold rehash_code_page, parse_code_directory.
      rewrite (locate_zsplice (cd_offset + so) new signature ltac:(lia) ltac:(lia) _ _ _ _ Hr0) by lia. cbn [mbind res_bind].
      fold so. rewrite slice_zsplice_mid by lia. fold cd.
      replace (cd_offset + so - cd_offset) with so by lia.
      assert (slice so (so + 32) (zsplice so new cd) = new) as ->.
      { rewrite <-Hnew at 1. apply slice_zsplice; lia. }
      rewrite bool_decide_true by done. cbn [negb]. rewrite <-Hif.
      assert (zsplice so (slice so (so + 32) cd) (zsplice so new cd) = cd) as ->; [|done].
      rewrite <-Hnew at 1. apply zsplice_undo; lia.
    + rewrite <-Hsig. rewrite <-(zlen_zsplice so new cd) in Hw by lia. rewrite <-Hw.
      apply zsplice_undo; lia.
  - intros q slot cd0 Hq Hne Hq'. apply parse_Ok in Hq' as (h' & Hr1 & -> & ->).
    pose proof (locate_unique _ _ _ _ _ _ _ Hr0 Hr1) as [= <-].
    pose proof (proj1 (proj2 (proj2 (proj2 (proj2 (proj2 Hloc)))))) as Hh. unfold so in *. rewrite Hh in *.
    pose proof (locate_spec _ _ _ _ Hr1) as Hloc'.
    destruct (located_window _ _ _ _ Hq Hloc') as (_ & _ & _ & Hq1 & Hq2). rewrite Hh in *.
    fold cd. apply slice_zsplice_ne; lia.
Qed.

(** A signature of two pages. *)
Definition sample_page (x : byte) : list byte := replicate 40 x.
Definition sample_signature : list byte :=
  concat (map (be_bytes 4) [SUPERBLOB_MAGIC; 128; 1; 0; 20; CODEDIRECTORY_MAGIC; 108; 0x20400; 2; 44; 0; 0; 2; 32768])
  ++ [x20; x02; x00; x0e] ++ be_bytes 4 0
  ++ sha256 (sample_page x01) ++ sha256 (sample_page x02).

Lemma parse_code_directory_bounds_witness :
  match parse_code_directory sample_signature 1 0 with
  | Raise e => ∃ msg, e = ValueError msg
  | Ok (cd, cd_offset, slot_offset) =>
      cd = slice cd_offset (cd_offset + zlen cd) sample_signature
      ∧ (∃ n, unpack_be 4 sample_signature 4 = Ok n ∧ cd_offset + zlen cd ≤ n ≤ zlen sample_signature)
      ∧ 12 ≤ cd_offset ∧ 44 ≤ slot_offset ∧ slot_offset + 32 ≤ zlen cd
  end ∧ is_ok (parse_code_directory sample_signature 1 0) = true.
Proof. split; [apply (parse_code_directory_bounds sample_signature 1 0); lia|by vm_compute]. Defined.

Lemma rehash_code_page_reversible_witness :
  ∃ cd, let sig' := zsplice 20 cd sample_signature in
  rehash_code_page sample_signature 1 (sample_page x02) (sample_page x03) 0
  = Ok (cd, 20, 76, sha256 (sample_page x02), sha256 (sample_page x03))
  ∧ zlen sig' = zlen sample_signature.
Proof.
  eexists. cbn zeta. split; [vm_compute; reflexivity|].
  eapply (rehash_code_page_reversible sample_signature 1 (sample_page x02) (sample_page x03) 0
           _ 20 76 _ _ ltac:(lia)).
  vm_compute; reflexivity.
Defined.

(** ** Reviewed edits *)

(** What the review has established about an edit of [source]. *)
Definition reviewed (source : list byte) (e : edit) : Prop :=
  4096 ≤ offset e ∧ (0 < zlen (before e) ∧ zlen (before e) = zlen (after e)) ∧ before e ≠ after e
  ∧ slice (offset e) (offset e + zlen (before e)) source = before e
  ∧ offset e / PAGE_SIZE = (offset e + zlen (before e) - 1) / PAGE_SIZE.

Definition edit_before (l r : edit) : Prop := offset l + zlen (before l) ≤ offset r.

Lemma zlen_pos {A} (l : list A) : l ≠ [] → 0 < zlen l.
Proof. destruct l; [done|]. rewrite zlen_cons. pose proof (zlen_nonneg l). lia. Qed.

Lemma reviewed_edit_ok source item e : reviewed_edit source item = Ok e → reviewed source e.
Proof.
  unfold reviewed_edit. intros H. simpl_res.
  apply orb_false_iff in Hif as [[Ho Hb%bool_decide_eq_false]%orb_false_iff Hl%negb_false_iff].
  apply orb_false_iff in Hif0 as [Hs Hp%negb_false_iff].
  apply negb_false_iff, bool_decide_eq_true in Hif1. apply bool_decide_eq_false in Hif2.
  pose proof (zlen_pos _ Hb). unfold reviewed. cbn. repeat split; try done; lia.
Qed.

Lemma reviewed_inside source e : reviewed source e → offset e + zlen (before e) ≤ zlen source.
Proof.
  intros (Ho & [Hl _] & _ & Hs & _). apply (f_equal zlen) in Hs. rewrite zlen_slice in Hs by lia. lia.
Qed.

#[export] Instance edit_before_trans : Transitive edit_before.
Proof. unfold edit_before. intros x y z Hxy Hyz. pose proof (zlen_nonneg (before y)). lia. Qed.

Lemma no_overlap_sorted edits : no_overlap edits = true → StronglySorted edit_before edits.
Proof.
  intros Hn. apply Sorted_StronglySorted; [exact _|].
  induction edits as [|l [|r edits] IH]; [constructor|repeat constructor|].
  cbn [no_overlap] in Hn. apply andb_true_iff in Hn as [Hlr Hn].
  constructor; [by apply IH|]. constructor. unfold edit_before. lia.
Qed.

Lemma reviewed_edits_ok spec source edits :
  reviewed_edits spec source = Ok edits →
  (∃ es, Forall2 (λ item e, reviewed_edit source item = Ok e) (spec_edits spec) es ∧ edits ≡ₚ es)
  ∧ Forall (reviewed source) edits ∧ StronglySorted edit_before edits ∧ 1 ≤ zlen edits ≤ 32.
Proof.
  unfold reviewed_edits. intros H. simpl_res.
  apply orb_false_iff in Hif1 as [Hne%bool_decide_eq_false Hlen]. apply negb_false_iff in Hif2.
  pose proof (zlen_pos _ Hne). pose proof (proj1 (res_map_Ok _ _ _) Hr) as Hall.
  pose proof (sort_by_perm edit_key r) as Hp.
  assert (zlen (sort_by edit_key r) = zlen r) as Hz by (unfold zlen; by rewrite Hp).
  split; [eauto|]. split; [|split; [by apply no_overlap_sorted|lia]].
  rewrite Hp. clear -Hall. induction Hall as [|item e items es He _ IH]; constructor; [|done].
  by eapply reviewed_edit_ok.
Qed.

(** ** The edited cache *)

(** All the edits written to the cache, in order. *)
Definition apply_edits (edits : list edit) (source : list byte) : list byte :=
  foldl (λ c e, zsplice (offset e) (after e) c) source edits.
(** Page [p] of a cache. *)
Definition page (p : Z) (c : list byte) : list byte := slice (p * PAGE_SIZE) (p * PAGE_SIZE + PAGE_SIZE) c.

Definition in_page (n : Z) (e : edit) : Prop :=
  0 ≤ offset e ∧ 0 < zlen (after e) ∧ offset e + zlen (after e) ≤ n
  ∧ offset e / PAGE_SIZE = (offset e + zlen (after e) - 1) / PAGE_SIZE.

Lemma reviewed_in_page source e : reviewed source e → in_page (zlen source) e.
Proof.
  intros He. pose proof (reviewed_inside _ _ He). destruct He as (? & (? & Hl) & _ & _ & ?).
  unfold in_page. rewrite <-Hl. repeat split; try done; lia.
Qed.

Lemma page_offset o k p :
  0 ≤ o → 0 < k → o / PAGE_SIZE = (o + k - 1) / PAGE_SIZE →
  (o / PAGE_SIZE = p → p * PAGE_SIZE ≤ o ∧ o + k ≤ p * PAGE_SIZE + PAGE_SIZE
                       ∧ o mod PAGE_SIZE = o - p * PAGE_SIZE)
  ∧ (o / PAGE_SIZE ≠ p → p * PAGE_SIZE + PAGE_SIZE ≤ o ∨ o + k ≤ p * PAGE_SIZE).
Proof.
  unfold PAGE_SIZE. intros Ho Hk Hd.
  pose proof (Z.div_mod o 16384). pose proof (Z.mod_pos_bound o 16384).
  pose proof (Z.div_mod (o + k - 1) 16384). pose proof (Z.mod_pos_bound (o + k - 1) 16384). lia.
Qed.

Lemma apply_in_page_spec p c e :
  0 ≤ p → in_page (zlen c) e → p * PAGE_SIZE + PAGE_SIZE ≤ zlen c →
  page p (zsplice (offset e) (after e) c) = apply_in_page p (page p c) e.
Proof.
  intros Hp (Ho & Hl & He & Hd) Hc. destruct (page_offset _ _ p Ho Hl Hd) as [H1 H2].
  assert (0 ≤ p * PAGE_SIZE) by (unfold PAGE_SIZE; lia). unfold page, apply_in_page.
  destruct (offset e / PAGE_SIZE =? p) eqn:E.
  - destruct H1 as (? & ? & ->); [lia|]. apply slice_zsplice_mid; lia.
  - apply slice_zsplice_ne; lia.
Qed.

(** Editing a page is editing the cache and reading the page. *)
Lemma apply_edits_page p edits c :
  0 ≤ p → Forall (in_page (zlen c)) edits → p * PAGE_SIZE + PAGE_SIZE ≤ zlen c →
  page p (apply_edits edits c) = foldl (apply_in_page p) (page p c) edits
  ∧ zlen (apply_edits edits c) = zlen c.
Proof.
  intros Hp. revert c. induction edits as [|e edits IH]; intros c He Hc; [done|].
  unfold apply_edits. cbn [foldl]. fold (apply_edits edits (zsplice (offset e) (after e) c)).
  apply Forall_cons in He as [He Hes]. rewrite <-apply_in_page_spec by done.
  assert (zlen (zsplice (offset e) (after e) c) = zlen c) as Hz
    by (destruct He as (? & ? & ? & ?); by apply zlen_zsplice).
  destruct (IH (zsplice (offset e) (after e) c)) as [-> ->]; by rewrite ?Hz.
Qed.

Lemma edited_pages_spec edits p : p ∈ edited_pages edits ↔ ∃ e, e ∈ edits ∧ offset e / PAGE_SIZE = p.
Proof.
  induction edits as [|e edits IH]; cbn [edited_pages]; [set_solver|].
  transitivity (p = offset e / PAGE_SIZE ∨ p ∈ edited_pages edits).
  - destruct (edited_pages edits) as [|q ps]; [set_solver|].
    destruct (_ =? q) eqn:E; [|set_solver]. apply Z.eqb_eq in E. set_solver.
  - rewrite IH. set_solver.
Qed.

(** For sorted edits the list is [sorted(set(...))]: strictly increasing. *)
Lemma edited_pages_sorted edits :
  StronglySorted edit_before edits → StronglySorted Z.lt (edited_pages edits).
Proof.
  induction 1 as [|e edits Hs IH He]; cbn [edited_pages]; [constructor|].
  assert (Forall (λ p, offset e / PAGE_SIZE ≤ p) (edited_pages edits)) as Hle.
  { apply Forall_forall. intros p (e' & He' & <-)%edited_pages_spec.
    apply (proj1 (Forall_forall _ _) He) in He'. unfold edit_before in He'.
    apply Z.div_le_mono; [done|]. pose proof (zlen_nonneg (before e)). lia. }
  destruct (edited_pages edits) as [|q ps]; [repeat constructor|].
  destruct (_ =? q) eqn:E; [done|]. apply Z.eqb_neq in E. constructor; [done|].
  apply Forall_cons in Hle as [Hq Hps]. inversion IH as [|? ? ? Hqs]; subst.
  constructor; [lia|]. eapply Forall_impl; [exact Hqs|]. cbn. lia.
Qed.

Lemma zlen_apply_edits edits c : Forall (in_page (zlen c)) edits → zlen (apply_edits edits c) = zlen c.
Proof.
  revert c. induction edits as [|e edits IH]; intros c He; [done|].
  apply Forall_cons in He as [(? & ? & ? & ?) Hes].
  assert (zlen (zsplice (offset e) (after e) c) = zlen c) as Hz by (by apply zlen_zsplice).
  etransitivity; [apply IH; by rewrite Hz|done].
Qed.

Lemma apply_edits_other p edits c :
  0 ≤ p → Forall (in_page (zlen c)) edits → p ∉ edited_pages edits → page p (apply_edits edits c) = page p c.
Proof.
  intros Hp. revert c. induction edits as [|e edits IH]; intros c He Hn; [done|].
  apply Forall_cons in He as [(Ho & Hl & Hb & Hd) Hes].
  assert (zlen (zsplice (offset e) (after e) c) = zlen c) as Hz by (by apply zlen_zsplice).
  transitivity (page p (zsplice (offset e) (after e) c)).
  { apply IH; [by rewrite Hz|]. rewrite edited_pages_spec in *. set_solver. }
  destruct (page_offset _ _ p Ho Hl Hd) as [_ H2]. unfold page.
  apply slice_zsplice_ne; [done|done|unfold PAGE_SIZE; lia|].
  destruct H2; [|lia|lia]. intros Heq. apply Hn, edited_pages_spec. set_solver.
Qed.

Section guarded.
Context (cache signature : list byte) (edits : list edit) (base : Z).
Hypothesis (He : Forall (in_page (zlen cache)) edits).

Definition signs (p : Z) (h : edit) : Prop :=
  before h = sha256 (page p cache) ∧ after h = sha256 (page p (apply_edits edits cache)).

Lemma rehash_edited_page_signs cd hs p st :
  0 ≤ p → rehash_edited_page cache signature edits base (cd, hs) p = Ok st →
  ∃ h, st.2 = hs ++ [h] ∧ signs p h.
Proof.
  intros Hp H. unfold rehash_edited_page in H. simpl_res.
  apply negb_false_iff in Hif, Hif0. apply bool_decide_eq_true in Hif0.
  eexists. split; [reflexivity|]. split; cbn; [by rewrite <-Hif0|].
  assert (p * PAGE_SIZE + PAGE_SIZE ≤ zlen cache) as Hc.
  { apply Z.eqb_eq in Hif. unfold PAGE_SIZE in *. rewrite zlen_slice in Hif by lia. lia. }
  by destruct (apply_edits_page p edits cache Hp He Hc) as [-> _].
Qed.

Lemma rehash_edited_pages_sign ps cd hs st :
  Forall (λ p, 0 ≤ p) ps →
  res_foldl (rehash_edited_page cache signature edits base) (cd, hs) ps = Ok st →
  ∃ hs', st.2 = hs ++ hs' ∧ Forall2 signs ps hs'.
Proof.
  revert cd hs. induction ps as [|p ps IH]; intros cd hs Hps H; cbn in H.
  - simpl_res. exists []. by rewrite app_nil_r.
  - apply Forall_cons in Hps as [Hp Hps]. apply bind_Ok in H as ([cd1 hs1] & H1 & H2).
    apply rehash_edited_page_signs in H1 as (h & Hh & Hs); [|done]. cbn in Hh. subst hs1.
    apply IH in H2 as (hs' & -> & Hall); [|done]. exists (h :: hs'). split; [|by constructor].
    by rewrite <-app_assoc.
Qed.
End guarded.

Lemma parser_error_Ok {A} (m : res A) a : parser_error m = Ok a → m = Ok a.
Proof. destruct m as [|[]]; done. Qed.

(** The payload of a guarded cache patch is consistent.  When the tool
    accepts a spec, its edits are the spec's items in offset order, without
    overlap and between 1 and 32; each replaces bytes the cache holds by as
    many different ones inside one code page behind the header; and the hash
    edits are, for the edited pages in increasing order, the digest of the
    page in the cache and the digest of the same page of the cache with every
    edit applied.  A page with no hash edit is not changed by the edits. *)
Theorem guarded_payloads_sound cache spec edits hash_edits cdhash
    (H : guarded_payloads cache spec = Ok (edits, hash_edits, cdhash)) :
  (∃ es, Forall2 (λ item e, reviewed_edit cache item = Ok e) (spec_edits spec) es ∧ edits ≡ₚ es)
  ∧ Forall (reviewed cache) edits ∧ StronglySorted edit_before edits ∧ 1 ≤ zlen edits ≤ 32
  ∧ StronglySorted Z.lt (edited_pages edits)
  ∧ Forall2 (λ p h, before h = sha256 (page p cache)
                    ∧ after h = sha256 (page p (apply_edits edits cache)))
      (edited_pages edits) hash_edits
  ∧ (∀ p, 0 ≤ p → p ∉ edited_pages edits → page p (apply_edits edits cache) = page p cache).
Proof.
  unfold guarded_payloads in H. simpl_res.
  match goal with Hp : parser_error _ = _ |- _ => apply parser_error_Ok in Hp end. simpl_res.
  match goal with Hp : reviewed_edits _ _ = _ |- _ =>
    apply reviewed_edits_ok in Hp as (Hes & Hrev & Hsort & Hlen) end.
  match goal with Hp : res_foldl _ _ _ = _ |- _ => rename Hp into Hfold end.
  assert (Forall (in_page (zlen cache)) edits) as Hin
    by (eapply Forall_impl; [exact Hrev|apply reviewed_in_page]).
  assert (Forall (λ p, 0 ≤ p) (edited_pages edits)) as Hps.
  { apply Forall_forall. intros p (e & He & <-)%edited_pages_spec.
    apply (proj1 (Forall_forall _ _) Hin) in He as [? _]. apply Z.div_pos; [done|]. unfold PAGE_SIZE. lia. }
  split; [done|]. split; [done|]. split; [done|]. split; [done|].
  split; [by apply edited_pages_sorted|]. split.
  - eapply rehash_edited_pages_sign in Hfold as (hs & Hh & Hall); [|exact Hin|exact Hps].
    cbn in Hh. by subst hs.
  - intros p Hp Hn. by apply apply_edits_other.
Qed.

(** A cache of one code page and its signature, and a spec with two edits. *)
Definition sample_cache_page : list byte :=
  ljust 16384 x00 (b "dyld_v1  arm64e" ++ replicate 25 x00 ++ le_bytes 8 16384 ++ le_bytes 8 96).
Definition sample_cache : list byte :=
  sample_cache_page
  ++ concat (map (be_bytes 4) [SUPERBLOB_MAGIC; 96; 1; 0; 20; CODEDIRECTORY_MAGIC; 76; 0x20400; 2; 44; 0; 0; 1; 16384])
  ++ [x20; x02; x00; x0e] ++ be_bytes 4 0 ++ sha256 sample_cache_page.
Definition sample_spec : edit_spec :=
  EditSpec (u "dyld_shared_cache_arm64e.01") (Some (u "return 1"))
    [EditItem (inl (u "0x138a")) (u "00") (u "07"); EditItem (inr 5000) (u "0000") (u "0102")].

Lemma guarded_payloads_sound_witness :
  ∃ edits hash_edits cdhash,
    guarded_payloads sample_cache sample_spec = Ok (edits, hash_edits, cdhash)
    ∧ map offset edits = [5000; 5002] ∧ map offset hash_edits = [16448]
    ∧ StronglySorted edit_before edits.
Proof.
  eexists _, _, _. split; [vm_compute; reflexivity|]. split; [reflexivity|]. split; [reflexivity|].
  eapply (guarded_payloads_sound sample_cache sample_spec _ _ _
            ltac:(vm_compute; reflexivity)).
Defined.
