(* ===== verification/KernelPatch.v ===== *)
(** * Guarded kernelcache and executable patches

    [tools/re/rtc_pv_patch.py] (the wall-clock leaf), [tools/re/smp_pv_patch.py]
    (the virtual CPU adapter), [tools/re/patch_powerd_virtual_battery.py], and
    the two readers of move pairs and pointer arrays, [tools/re/fourcc_scan.py]
    and [tools/re/kptr.py].  Writing the output file and running [codesign] is
    left out. *)

From stdpp Require Import base tactics list list_numbers strings.
From Stdlib Require Import Strings.Byte.
From S2P Require Import Prelude PyBytes PyStr PyDict DcpEmu Sha256 TrustCache CodeSign.
Open Scope Z_scope.

(** ** [rtc_pv_patch.py] *)

Definition BASE : Z := 0xFFFFFFF007004000.
Definition GET_GMT_TIME_OF_DAY : Z := 0xFFFFFFF0085CDFD0.
Definition TARGET_UUID : list byte :=
  [x16; xff; x5b; xb5; xe0; x4d; x6d; xd5; x50; xf2; xc6; x62; x3c; xf1; x9a; x56].
Definition ORIGINAL_SHA256 : list Z :=
  u "dc0f5b6a6fa848053c301949c8376c216c6223c047203b93e408a93d3440f906".
Definition MACHO_64_MAGIC : Z := 0xFEEDFACF.
Definition LC_UUID : Z := 0x1B.

Definition ORIGINAL_WORDS : list Z :=
  [0xD503237F; 0xD100C3FF; 0xA9014FF4; 0xA9027BFD; 0x910083FD; 0xAA0203F4; 0xAA0103F3; 0x528003C8;
   0xF90007E8; 0x90FF5D60].
Definition BTI_C : Z := 0xD503245F.
Definition NANOSECONDS_PER_SECOND : Z := 1000000000.
Definition PATCH_WORDS : list Z :=
  [BTI_C; 0xD538FF23; 0xD2994004; 0xF2A77344; 0x9AC40865; 0x9B048CA3; 0xF9000025; 0xB9000043;
   0x52800000; 0xD65F03C0].

Definition pack_words (words : list Z) : res (list byte) :=
  ws ← res_map pack_I words; Ok (concat ws).

(** Module constants, [pack_words] of literals. *)
Definition bytes_of (m : res (list byte)) : list byte := match m with Ok l => l | Raise _ => [] end.
Definition ORIGINAL_BYTES : list byte := bytes_of (pack_words ORIGINAL_WORDS).
Definition PATCH_BYTES : list byte := bytes_of (pack_words PATCH_WORDS).
Definition PATCH_OFFSET : Z := GET_GMT_TIME_OF_DAY - BASE.

Definition validate_patch_words (words : list Z) : res unit :=
  raise_if negb (zlen words =? zlen ORIGINAL_WORDS)
    with ValueError "RTC PV patch length does not cover its guarded entry" ;;
  w ← opt_or (words !! 0%nat) IndexError;
  raise_if negb (w =? BTI_C) with ValueError "RTC PV patch must begin with a BTI c landing pad" ;;
  Ok tt.

Definition decode_mov_wide (word : Z) : Z * Z :=
  (Z.land (Z.shiftr word 5) 0xffff, Z.land (Z.shiftr word 21) 3).

Definition emulate_patched_get (epoch_ns : Z) : res (Z * Z * Z) :=
  w2 ← opt_or (PATCH_WORDS !! 2%nat) IndexError;
  w3 ← opt_or (PATCH_WORDS !! 3%nat) IndexError;
  let '(low, low_hw) := decode_mov_wide w2 in
  let '(high, high_hw) := decode_mov_wide w3 in
  let divisor := Z.lor (Z.shiftl low (16 * low_hw)) (Z.shiftl high (16 * high_hw)) in
  let seconds := epoch_ns / divisor in
  let nanoseconds := epoch_ns mod divisor in
  status_word ← opt_or (PATCH_WORDS !! 8%nat) IndexError;
  raise_if negb (Z.land status_word 0xFFE0001F =? 0x52800000)
    with ValueError "RTC status instruction is not MOVZ W0" ;;
  let '(status, status_hw) := decode_mov_wide status_word in
  Ok (seconds, nanoseconds, Z.shiftl status (16 * status_hw)).

(** The loop over the load commands. *)
Fixpoint find_uuid (ncmds : nat) (data : list byte) (stop cursor : Z) : res (list byte) :=
  match ncmds with
  | O => Raise (ValueError "Mach-O has no LC_UUID")
  | S ncmds =>
      raise_if stop <? cursor + 8 with ValueError "truncated Mach-O load command" ;;
      command ← unpack_from_I data cursor; size ← unpack_from_I data (cursor + 4);
      raise_if (size <? 8) || (stop <? cursor + size) with ValueError "invalid Mach-O load command size" ;;
      if command =? LC_UUID then
        raise_if negb (size =? 24) with ValueError "invalid LC_UUID size" ;;
        Ok (slice (cursor + 8) (cursor + 24) data)
      else find_uuid ncmds data stop (cursor + size)
  end.

Definition macho_uuid (data : list byte) : res (list byte) :=
  raise_if zlen data <? 32 with ValueError "file is too short for a mach_header_64" ;;
  magic ← unpack_from_I data 0; ncmds ← unpack_from_I data 16; sizeofcmds ← unpack_from_I data 20;
  raise_if negb (magic =? MACHO_64_MAGIC) with ValueError "not a little-endian 64-bit Mach-O" ;;
  let stop := 32 + sizeofcmds in
  raise_if zlen data <? stop with ValueError "Mach-O load commands extend past end of file" ;;
  find_uuid (Z.to_nat ncmds) data stop 32.

Definition validate_input (data : list byte) : res (list Z) :=
  uuid ← macho_uuid data;
  raise_if negb (bool_decide (uuid = TARGET_UUID))
    with ValueError "unsupported kernelcache UUID (expected iPhone17,3 24A5430a)" ;;
  raise_if zlen data <? PATCH_OFFSET + zlen ORIGINAL_BYTES
    with ValueError "kernelcache is too short for AppleARMPE::getGMTTimeOfDay" ;;
  let observed := slice PATCH_OFFSET (PATCH_OFFSET + zlen ORIGINAL_BYTES) data in
  raise_if negb (bool_decide (observed = ORIGINAL_BYTES))
    with ValueError "AppleARMPE::getGMTTimeOfDay guard mismatch" ;;
  Ok (sha256_hex data).

Definition patch_image (data : list byte) : res (list byte * list Z) :=
  _ ← validate_patch_words PATCH_WORDS;
  source_sha ← validate_input data;
  Ok (zsplice PATCH_OFFSET PATCH_BYTES data, source_sha).

(** ** [smp_pv_patch.py] *)

Definition branch (src dst : Z) : Z := Z.lor 0x14000000 (Z.land ((dst - src) / 4) 0x3FFFFFF).

Definition put (data : list byte) (p : Z * list Z) : res (list byte) :=
  encoded ← pack_words p.2;
  Ok (zsplice (p.1 - BASE) encoded data).

(** The [put] calls of [main]. *)
Definition smp_puts : list (Z * list Z) :=
  [(0xFFFFFFF00B2F8194, [0xD2800000]);
   (0xFFFFFFF00B2F8314, [branch 0xFFFFFFF00B2F8314 0xFFFFFFF00B2F8344]);
   (0xFFFFFFF00B2F8950, [0xD503245F; 0xB4000041; 0xF900003F; 0xD65F03C0]);
   (0xFFFFFFF00B2F898C, [0xD503245F; 0xB4000042; 0xF900005F; 0xD65F03C0]);
   (0xFFFFFFF00AC61804, [0xD518FFE1; branch 0xFFFFFFF00AC61808 0xFFFFFFF00AC61834]);
   (0xFFFFFFF00AC61844, [0xD65F03C0])].

Definition smp_patch (data : list byte) : res (list byte) :=
  raise_if negb (bool_decide (sha256_hex data = ORIGINAL_SHA256))
    with SystemExit "unsupported kernelcache: expected iPhone17,3 24A5430a" ;;
  res_foldl put data smp_puts.

(** ** [patch_powerd_virtual_battery.py] *)

Definition POWERD_OFFSET : Z := 0x4e98.
Definition POWERD_SHA256 : list Z :=
  u "31254642770ac63ce22a55a5717246cf2289297f478f7ab753d15b6f88436268".
Definition BEFORE : list byte := bytes_of (fromhex (u "fc000036a80500b0089941f9021140f9")).
Definition AFTER : list byte := bytes_of (fromhex (u "fc000036e89a41f9280800b4021140f9")).

Definition powerd_patch (data : list byte) : res (list byte) :=
  raise_if negb (bool_decide (sha256_hex data = POWERD_SHA256))
           || negb (bool_decide (ztake 4 data = [xcf; xfa; xed; xfe]))
           || negb (bool_decide (slice POWERD_OFFSET (POWERD_OFFSET + zlen BEFORE) data = BEFORE))
    with SystemExit "source is not the reviewed 24A5430a powerd image" ;;
  Ok (zsplice POWERD_OFFSET AFTER data).

(** ** [fourcc_scan.py] *)

Definition DCP_TEXT_LO : Z := 0xFFFFFFF00A0B2080.
Definition DCP_TEXT_HI : Z := 0xFFFFFFF00A0DC230.

Definition mov_fields (word : Z) : Z * Z := (Z.land word 0x1F, Z.land (Z.shiftr word 5) 0xFFFF).
Definition movz_w (word : Z) : option (Z * Z) :=
  if Z.land word 0xFFE00000 =? 0x52800000 then Some (mov_fields word) else None.
Definition movk_w_lsl16 (word : Z) : option (Z * Z) :=
  if Z.land word 0xFFE00000 =? 0x72A00000 then Some (mov_fields word) else None.

Definition name_of (val : Z) : list Z := latin1_decode (be_bytes 4 val).

(** [str.isdigit] on a Latin-1 character: the superscripts count. *)
Definition isdigit (c : Z) : bool := is_digit c || (c =? 0xB2) || (c =? 0xB3) || (c =? 0xB9).
Definition plausible (name letters : list Z) : bool :=
  match name with
  | c0 :: c1 :: c2 :: c3 :: _ => bool_decide (c0 ∈ letters) && isdigit c1 && isdigit c2 && isdigit c3
  | _ => false
  end.

(** The inner loop: the first MOVK of [rd] among the words of the window. *)
Fixpoint movk_of (rd : Z) (words : list Z) : option Z :=
  match words with
  | [] => None
  | w :: words =>
      match movk_w_lsl16 w with
      | Some (rd', hi16) => if rd' =? rd then Some hi16 else movk_of rd words
      | None => movk_of rd words
      end
  end.

(** What the word [w] contributes, [rest] being the words behind it. *)
Definition pair_at (letters : list Z) (window w : Z) (rest : list Z) : option (list Z) :=
  match movz_w w with
  | None => None
  | Some (rd, lo16) =>
      match movk_of rd (ztake window rest) with
      | None => None
      | Some hi16 =>
          let val := Z.lor (Z.shiftl hi16 16) lo16 in
          if plausible (name_of val) letters then Some (name_of val)
          else
            let nm2 := name_of (Z.land (- val) 0xFFFFFFFF) in
            if plausible nm2 letters then Some (nm2 ++ u "+") else None
      end
  end.

(** [hits.setdefault(nm, []).append(a)]. *)
Definition add_hit (hits : list (list Z * list Z)) (nm : list Z) (a : Z) : list (list Z * list Z) :=
  dset nm (match dget nm hits with Some l => l | None => [] end ++ [a]) hits.

Fixpoint scan_words (letters : list Z) (window a : Z) (words : list Z) (hits : list (list Z * list Z))
  : list (list Z * list Z) :=
  match words with
  | [] => hits
  | w :: rest =>
      scan_words letters window (a + 4) rest
        (match pair_at letters window w rest with Some nm => add_hit hits nm a | None => hits end)
  end.

Fixpoint words32 (n : nat) (l : list byte) : list Z :=
  match n with O => [] | S n => le_Z (ztake 4 l) :: words32 n (zdrop 4 l) end.

(** The rows printed: name, value, addresses. *)
Definition fourcc_main (data : list byte) (lo hi : Z) (letters : list Z) (window : Z)
  : res (list (list Z * Z * list Z)) :=
  let '(lo, hi) := if lo =? 0 then (BASE, BASE + zlen data) else (lo, hi) in
  let text := pyslice (lo - BASE) (hi - BASE) data in
  let hits := scan_words letters window lo (words32 (Z.to_nat (zlen text / 4)) text) [] in
  res_map (λ h, e ← utf8_encode (ztake 4 h.1);
                v ← (if zlen e =? 4 then Ok (be_Z e) else Raise StructError);
                Ok (h.1, v, h.2))
    (sort_by fst hits).

(** ** [kptr.py]: the entry's address, raw word and target, for [n] entries. *)
Definition kptr (d : list byte) (va : Z) (n : nat) : res (list (Z * Z * Z)) :=
  res_map (λ i, let a := va + Z.of_nat i * 8 in
                raw ← unpack_Q (pyslice (a - BASE) (a - BASE + 8) d);
                Ok (a, raw, BASE + Z.land raw 0xFFFFFFFF))
    (seq 0 n).

(** ** The patched clock leaf *)

(** The leaf written over [getGMTTimeOfDay], emulated from its own
    instruction words, splits any host time into whole seconds and the
    nanoseconds below one second, and returns the status zero. *)
Theorem emulate_patched_get_spec epoch_ns :
  ∃ s ns, emulate_patched_get epoch_ns = Ok (s, ns, 0)
  ∧ epoch_ns = s * NANOSECONDS_PER_SECOND + ns ∧ 0 ≤ ns < NANOSECONDS_PER_SECOND.
Proof.
  exists (epoch_ns / NANOSECONDS_PER_SECOND), (epoch_ns mod NANOSECONDS_PER_SECOND).
  split; [reflexivity|]. unfold NANOSECONDS_PER_SECOND.
  pose proof (Z.div_mod epoch_ns 1000000000). pose proof (Z.mod_pos_bound epoch_ns 1000000000). lia.
Qed.

(** ** The Mach-O walk and the guarded patch *)

Lemma unpack_from_in_bounds n l o :
  0 ≤ o → o + Z.of_nat n ≤ zlen l →
  ok_or_ValueError (unpack_from_u n l o) (λ z, 0 ≤ z ∧ unpack_from_u n l o = Ok z).
Proof.
  intros Ho Hl. unfold unpack_from_u, unpack_u. rewrite zlen_slice by done.
  replace (Z.max 0 (Z.min (o + Z.of_nat n - o) (zlen l - o))) with (Z.of_nat n) by lia.
  rewrite Z.eqb_refl. split; [|done]. apply le_Z_range.
Qed.

(** The header and the commands of a window end before [stop]. *)
Lemma find_uuid_ok ncmds data stop cursor :
  0 ≤ cursor → stop ≤ zlen data →
  ok_or_ValueError (find_uuid ncmds data stop cursor)
    (λ uuid, zlen uuid = 16 ∧ ∃ o, cursor ≤ o ∧ o + 24 ≤ stop ∧ uuid = slice (o + 8) (o + 24) data).
Proof.
  revert cursor. induction ncmds as [|n IH]; intros cursor Hc Hs; cbn [find_uuid]; [done|].
  apply ok_or_raise. intros H8.
  eapply ok_or_bind; [apply unpack_from_in_bounds; lia|]. intros command [_ _].
  eapply ok_or_bind; [apply unpack_from_in_bounds; lia|]. intros size [_ _].
  apply ok_or_raise. intros Hsz. destruct (command =? LC_UUID).
  - apply ok_or_raise. intros H24. cbn. split; [rewrite zlen_slice; lia|].
    exists cursor. repeat split; lia.
  - specialize (IH (cursor + size)).
    destruct (find_uuid n data stop (cursor + size)); cbn in *; [|apply IH; lia].
    destruct IH as (Hl & o & ? & ? & ->); [lia|lia|]. split; [done|]. exists o. repeat split; lia.
Qed.

Lemma macho_uuid_ok data :
  ok_or_ValueError (macho_uuid data)
    (λ uuid, zlen uuid = 16 ∧ ∃ o, 32 ≤ o ∧ o + 24 ≤ zlen data ∧ uuid = slice (o + 8) (o + 24) data).
Proof.
  unfold macho_uuid. apply ok_or_raise. intros Hl.
  eapply ok_or_bind; [apply (unpack_from_in_bounds 4); lia|]. intros magic [_ _].
  eapply ok_or_bind; [apply (unpack_from_in_bounds 4); lia|]. intros ncmds [_ _].
  eapply ok_or_bind; [apply (unpack_from_in_bounds 4); lia|]. intros size [Hz _].
  apply ok_or_raise. intros _. apply ok_or_raise. intros Hs.
  pose proof (find_uuid_ok (Z.to_nat ncmds) data (32 + size) 32 ltac:(lia) ltac:(lia)) as H.
  destruct (find_uuid _ _ _ _); cbn in *; [|done].
  destruct H as (? & o & ? & ? & ?). split; [done|]. exists o. repeat split; lia || done.
Qed.

Lemma validate_input_ok data :
  ok_or_ValueError (validate_input data)
    (λ sha, sha = sha256_hex data ∧ PATCH_OFFSET + 40 ≤ zlen data
            ∧ slice PATCH_OFFSET (PATCH_OFFSET + 40) data = ORIGINAL_BYTES).
Proof.
  unfold validate_input. eapply ok_or_bind; [apply macho_uuid_ok|]. intros uuid _.
  change (zlen ORIGINAL_BYTES) with 40.
  apply ok_or_raise. intros _. apply ok_or_raise. intros Hl. apply ok_or_raise. intros Hb.
  cbn [ok_or_ValueError]. apply negb_false_iff, bool_decide_eq_true in Hb. repeat split; [lia|done].
Qed.

(** The clock patch is guarded, local and one-shot.  Whatever the input,
    [patch_image] raises only [ValueError] or returns an image of the same
    length that differs from the input in exactly the forty guarded bytes,
    which held the original entry and now hold the leaf, with the input's
    SHA-256; and the result is refused as an input. *)
Theorem patch_image_local data :
  match patch_image data with
  | Raise e => ∃ msg, e = ValueError msg
  | Ok (out, sha) =>
      sha = sha256_hex data ∧ zlen out = zlen data
      ∧ slice PATCH_OFFSET (PATCH_OFFSET + 40) data = ORIGINAL_BYTES
      ∧ slice PATCH_OFFSET (PATCH_OFFSET + 40) out = PATCH_BYTES
      ∧ (∀ i, 0 ≤ i → (i < PATCH_OFFSET ∨ PATCH_OFFSET + 40 ≤ i) → znth i out = znth i data)
      ∧ (∃ msg, patch_image out = Raise (ValueError msg))
  end.
Proof.
  assert (zlen PATCH_BYTES = 40) as H40 by reflexivity.
  assert (0 ≤ PATCH_OFFSET) as Hpos by (unfold PATCH_OFFSET, GET_GMT_TIME_OF_DAY, BASE; lia).
  unfold patch_image. change (validate_patch_words PATCH_WORDS) with (Ok tt). rewrite !ok_bind.
  pose proof (validate_input_ok data) as H. destruct (validate_input data) as [sha|e]; cbn [mbind res_bind].
  2: { cbn in H. destruct e; try done. eauto. }
  destruct H as (-> & Hl & Ho). split; [done|].
  assert (slice PATCH_OFFSET (PATCH_OFFSET + 40) (zsplice PATCH_OFFSET PATCH_BYTES data) = PATCH_BYTES) as Hs
    by (rewrite <-H40; apply slice_zsplice; lia).
  split; [apply zlen_zsplice; lia|]. split; [done|]. split; [done|].
  split; [intros i Hi Hd; apply znth_zsplice_ne; lia|].
  pose proof (validate_input_ok (zsplice PATCH_OFFSET PATCH_BYTES data)) as H'.
  destruct (validate_input _) as [sha'|e]; cbn [mbind res_bind].
  - destruct H' as (_ & _ & Hbad). rewrite Hs in Hbad. discriminate Hbad.
  - cbn in H'. destruct e; try done. eauto.
Qed.

(** ** A kernelcache that is accepted *)

Lemma unpack_from_app_l n l k o :
  0 ≤ o → o + Z.of_nat n ≤ zlen l → unpack_from_u n (l ++ k) o = unpack_from_u n l o.
Proof. intros. unfold unpack_from_u. by rewrite slice_app_l by lia. Qed.

(** Only the header and the commands are read. *)
Lemma find_uuid_app ncmds l k stop cursor uuid :
  0 ≤ cursor → stop ≤ zlen l → find_uuid ncmds l stop cursor = Ok uuid →
  find_uuid ncmds (l ++ k) stop cursor = Ok uuid.
Proof.
  revert cursor. induction ncmds as [|n IH]; intros cursor Hc Hs H; cbn [find_uuid] in *; [done|].
  simpl_res. unfold unpack_from_I in *. rewrite !unpack_from_app_l by lia. rewrite Hr, Hr0, !ok_bind.
  rewrite Hif0. destruct (r =? LC_UUID); [|apply IH; [lia|done|done]].
  destruct (negb (r0 =? 24)) eqn:E; [done|]. rewrite slice_app_l by lia. done.
Qed.
Lemma macho_uuid_app l k uuid : macho_uuid l = Ok uuid → macho_uuid (l ++ k) = Ok uuid.
Proof.
  unfold macho_uuid. intros H. simpl_res. pose proof (zlen_nonneg k). rewrite zlen_app.
  unfold unpack_from_I in *. rewrite !unpack_from_app_l by lia. rewrite Hr, Hr0, Hr1, !ok_bind, Hif0.
  replace (zlen l + zlen k <? 32) with false by lia. replace (zlen l + zlen k <? 32 + r1) with false by lia.
  apply find_uuid_app; [lia|lia|done].
Qed.

Definition sample_macho : list byte :=
  concat (map (le_bytes 4) [MACHO_64_MAGIC; 0x100000C; 0; 12; 2; 40; 0; 0; 0x19; 16; 0; 0; LC_UUID; 24])
  ++ TARGET_UUID.
(** The header, zeros up to the patch offset, the original entry. *)
Definition sample_kernelcache : list byte :=
  sample_macho ++ replicate (Z.to_nat (PATCH_OFFSET - zlen sample_macho)) x00 ++ ORIGINAL_BYTES.

Lemma sample_kernelcache_accepted : is_ok (patch_image sample_kernelcache) = true.
Proof.
  unfold patch_image. change (validate_patch_words PATCH_WORDS) with (Ok tt). rewrite ok_bind.
  assert (zlen sample_macho = 72) as Hm by reflexivity.
  assert (0 ≤ PATCH_OFFSET - 72) as Hp by (unfold PATCH_OFFSET, GET_GMT_TIME_OF_DAY, BASE; lia).
  set (zeros := replicate (Z.to_nat (PATCH_OFFSET - zlen sample_macho)) x00).
  assert (zlen zeros = PATCH_OFFSET - 72) as Hz.
  { unfold zeros. rewrite zlen_replicate, Hm. by apply Z2Nat.id. }
  assert (macho_uuid sample_macho = Ok TARGET_UUID) as Hu by (vm_compute; reflexivity).
  unfold validate_input, sample_kernelcache. fold zeros. clearbody zeros.
  rewrite (macho_uuid_app _ _ _ Hu), ok_bind, bool_decide_true by done.
  cbn [negb]. rewrite app_assoc.
  assert (zlen ((sample_macho ++ zeros) ++ ORIGINAL_BYTES) = PATCH_OFFSET + zlen ORIGINAL_BYTES) as Hl
    by (rewrite !zlen_app; lia).
  rewrite Hl. rewrite Z.ltb_irrefl.
  rewrite <-(app_nil_r ((sample_macho ++ zeros) ++ ORIGINAL_BYTES)), <-app_assoc.
  rewrite slice_app_mid by (rewrite zlen_app; lia). rewrite bool_decide_true by done. reflexivity.
Qed.

(** ** The virtual CPU adapter *)

(** Where an A64 [b] at [src] goes: the low 26 bits are a signed word offset. *)
Definition branch_target (src w : Z) : Z := src + 4 * sx w 26.

Lemma sx_26 w : sx w 26 = if 2 ^ 25 <=? w mod 2 ^ 26 then w mod 2 ^ 26 - 2 ^ 26 else w mod 2 ^ 26.
Proof.
  unfold sx. rewrite !Z.shiftl_mul_pow2, !Z.mul_1_l by lia.
  change (2 ^ 26 - 1) with (Z.ones 26). rewrite Z.land_ones by lia.
  change (2 ^ (26 - 1)) with (Z.shiftl (Z.ones 1) 25). rewrite land_high_mask by lia.
  pose proof (Z.mod_pos_bound w (2 ^ 26) ltac:(lia)) as Hr. set (m := w mod 2 ^ 26) in *.
  destruct (2 ^ 25 <=? m) eqn:E.
  - replace (m / 2 ^ 25) with 1 by (apply (Z.div_unique m (2 ^ 25) 1 (m - 2 ^ 25)); lia). done.
  - rewrite Z.div_small by lia. done.
Qed.

(** [branch src dst] is an unconditional branch (opcode bits [000101]) that
    goes to [dst], for every word-aligned distance of less than 128 MiB. *)
Theorem branch_reaches src dst :
  (dst - src) mod 4 = 0 → - 2 ^ 27 ≤ dst - src < 2 ^ 27 →
  Z.shiftr (branch src dst) 26 = 5 ∧ branch_target src (branch src dst) = dst.
Proof.
  intros Hm Hd. unfold branch, branch_target.
  change 0x3FFFFFF with (Z.ones 26). rewrite Z.land_ones by lia.
  pose proof (Z.mod_pos_bound ((dst - src) / 4) (2 ^ 26) ltac:(lia)) as Hr.
  pose proof (Z.div_mod (dst - src) 4 ltac:(lia)) as Hq.
  set (k := (dst - src) / 4) in *. change 0x14000000 with (5 * 2 ^ 26).
  rewrite lor_high_low by lia. split.
  - rewrite Z.shiftr_div_pow2 by lia. rewrite Z.div_add_l by lia. rewrite Z.div_small by lia. lia.
  - rewrite sx_26. rewrite (Z.add_comm (5 * 2 ^ 26)), Z.mod_add, Z.mod_mod by lia.
    pose proof (Z.div_mod k (2 ^ 26) ltac:(lia)) as Hk.
    assert (k / 2 ^ 26 = 0 ∨ k / 2 ^ 26 = -1) as [Hz|Hz] by lia;
      rewrite Hz in Hk; destruct (2 ^ 25 <=? k mod 2 ^ 26) eqn:E; lia.
Qed.

Lemma branch_reaches_witness :
  (0xFFFFFFF00AC61834 - 0xFFFFFFF00AC61808) mod 4 = 0
  ∧ branch_target 0xFFFFFFF00AC61808 (branch 0xFFFFFFF00AC61808 0xFFFFFFF00AC61834) = 0xFFFFFFF00AC61834.
Proof. split; [reflexivity|]. apply branch_reaches; [reflexivity|lia]. Defined.

(** The bytes of a put and the window they fill. *)
Definition put_bytes (p : Z * list Z) : list byte := bytes_of (pack_words p.2).
Definition put_lo (p : Z * list Z) : Z := p.1 - BASE.
Definition put_hi (p : Z * list Z) : Z := put_lo p + zlen (put_bytes p).
Definition put_ok (n : Z) (p : Z * list Z) : Prop :=
  is_ok (pack_words p.2) = true ∧ 0 ≤ put_lo p ∧ put_hi p ≤ n.
Definition put_apart (p q : Z * list Z) : Prop := put_hi p ≤ put_lo q ∨ put_hi q ≤ put_lo p.

Lemma puts_spec ps data :
  Forall (put_ok (zlen data)) ps → ForallOrdPairs put_apart ps →
  ∃ out, res_foldl put data ps = Ok out ∧ zlen out = zlen data
  ∧ Forall (λ p, slice (put_lo p) (put_hi p) out = put_bytes p) ps
  ∧ (∀ a c, 0 ≤ a → Forall (λ p, c ≤ put_lo p ∨ put_hi p ≤ a) ps → slice a c out = slice a c data).
Proof.
  intros Hok Hap. revert data Hok. induction Hap as [|p ps Hp Hps IH]; intros data Hok; cbn [res_foldl].
  { eauto. }
  apply Forall_cons in Hok as [(Hpk & Hlo & Hhi) Hok].
  destruct (pack_words p.2) as [e|] eqn:Epk; [|done].
  assert (put_bytes p = e) as He by (unfold put_bytes; by rewrite Epk).
  assert (put data p = Ok (zsplice (put_lo p) e data)) as -> by (unfold put; by rewrite Epk).
  rewrite ok_bind.
  unfold put_hi in Hhi. rewrite He in Hhi.
  pose proof (zlen_zsplice (put_lo p) e data Hlo Hhi) as Hz.
  destruct (IH (zsplice (put_lo p) e data)) as (out & Hf & Hl & Hw & Ho); [by rewrite Hz|].
  exists out. split; [done|]. split; [lia|]. split.
  - constructor; [|done]. rewrite Ho; [|done|].
    + unfold put_hi. rewrite He. by apply slice_zsplice.
    + eapply Forall_impl; [exact Hp|]. intros q [?|?]; [left|right]; lia.
  - intros a c Ha [Hd Hds]%Forall_cons. rewrite Ho by done.
    unfold put_hi in Hd. rewrite He in Hd. apply slice_zsplice_ne; lia.
Qed.

Definition put_apartb (p q : Z * list Z) : bool := (put_hi p <=? put_lo q) || (put_hi q <=? put_lo p).
Fixpoint all_apart (ps : list (Z * list Z)) : bool :=
  match ps with [] => true | p :: ps => forallb (put_apartb p) ps && all_apart ps end.
Lemma all_apart_spec ps : all_apart ps = true → ForallOrdPairs put_apart ps.
Proof.
  induction ps as [|p ps IH]; cbn; [constructor|]. intros [H1 H2]%andb_true_iff. constructor; [|by apply IH].
  rewrite forallb_forall in H1. apply Forall_forall. intros q Hq. apply list_elem_of_In in Hq. apply H1 in Hq.
  unfold put_apartb in Hq. unfold put_apart. lia.
Qed.

Definition put_okb (n : Z) (p : Z * list Z) : bool :=
  is_ok (pack_words p.2) && (0 <=? put_lo p) && (put_hi p <=? n).
Lemma put_okb_spec n m ps : m ≤ n → forallb (put_okb m) ps = true → Forall (put_ok n) ps.
Proof.
  intros Hm H. rewrite forallb_forall in H. apply Forall_forall. intros p Hp.
  apply list_elem_of_In, H in Hp. unfold put_okb in Hp. unfold put_ok.
  destruct (is_ok _); [|done]. split; [done|lia].
Qed.

(** On a kernelcache long enough for the highest patched address, the
    adapter's six patches succeed and keep the length; afterwards every one of
    them is in place (no later patch overwrites an earlier one), the two
    branches go to the addresses they were written for, and every window of
    the image that meets no patch is unchanged. *)
Theorem smp_puts_local data :
  0x42F499C ≤ zlen data →
  ∃ out, res_foldl put data smp_puts = Ok out ∧ zlen out = zlen data
  ∧ Forall (λ p, slice (put_lo p) (put_hi p) out = put_bytes p) smp_puts
  ∧ (∀ a c, 0 ≤ a → Forall (λ p, c ≤ put_lo p ∨ put_hi p ≤ a) smp_puts → slice a c out = slice a c data).
Proof.
  intros Hl. apply puts_spec; [|apply all_apart_spec; vm_compute; reflexivity].
  eapply put_okb_spec; [exact Hl|]. vm_compute. reflexivity.
Qed.

Lemma smp_puts_local_witness :
  let data := replicate (Z.to_nat 0x42F499C) x00 in
  ∃ out, res_foldl put data smp_puts = Ok out ∧ zlen out = 0x42F499C.
Proof.
  intros data. assert (zlen data = 0x42F499C) as Hl by (unfold data; rewrite zlen_replicate; by apply Z2Nat.id).
  clearbody data. destruct (smp_puts_local data) as (out & Hout & Hz & _); [by rewrite Hl|].
  exists out. split; [exact Hout|]. by rewrite Hz.
Defined.

(** ** Move pairs *)

(** The A64 encodings the scanner looks for. *)
Definition movz_enc (rd imm : Z) : Z := 0x52800000 + imm * 32 + rd.
Definition movk_enc (rd imm : Z) : Z := 0x72A00000 + imm * 32 + rd.

Lemma mov_decode opc rd imm :
  0 ≤ rd < 32 → 0 ≤ imm < 65536 → opc mod 2 ^ 21 = 0 → 0 ≤ opc < 2 ^ 32 →
  Z.land (opc + imm * 32 + rd) 0xFFE00000 = opc ∧ mov_fields (opc + imm * 32 + rd) = (rd, imm).
Proof.
  intros Hr Hi Ho Ho'. pose proof (Z.div_mod opc (2 ^ 21) ltac:(lia)) as Hq. rewrite Ho in Hq.
  set (q := opc / 2 ^ 21) in *. assert (0 ≤ q < 2 ^ 11) as Hq' by lia.
  assert ((opc + imm * 32 + rd) / 2 ^ 21 = q) as Hd
    by (symmetry; apply (Z.div_unique _ _ q (imm * 32 + rd)); lia).
  split.
  - change 0xFFE00000 with (Z.shiftl (Z.ones 11) 21). rewrite land_high_mask, Hd by lia.
    rewrite Z.mod_small by lia. lia.
  - unfold mov_fields. change 0x1F with (Z.ones 5). change 0xFFFF with (Z.ones 16).
    rewrite !Z.land_ones, Z.shiftr_div_pow2 by lia. f_equal.
    + symmetry. apply (Z.mod_unique _ _ (q * 65536 + imm)); lia.
    + assert ((opc + imm * 32 + rd) / 2 ^ 5 = q * 65536 + imm) as ->
        by (symmetry; apply (Z.div_unique _ _ _ rd); lia).
      symmetry. apply (Z.mod_unique _ _ q); lia.
Qed.
Lemma movz_w_enc rd imm : 0 ≤ rd < 32 → 0 ≤ imm < 65536 → movz_w (movz_enc rd imm) = Some (rd, imm).
Proof.
  intros Hr Hi. unfold movz_w, movz_enc. by destruct (mov_decode 0x52800000 rd imm Hr Hi) as [-> ->].
Qed.
Lemma movk_w_enc rd imm : 0 ≤ rd < 32 → 0 ≤ imm < 65536 → movk_w_lsl16 (movk_enc rd imm) = Some (rd, imm).
Proof.
  intros Hr Hi. unfold movk_w_lsl16, movk_enc. by destruct (mov_decode 0x72A00000 rd imm Hr Hi) as [-> ->].
Qed.

(** [w] is no MOVK of [rd]. *)
Definition not_movk (rd w : Z) : Prop := ∀ imm, movk_w_lsl16 w ≠ Some (rd, imm).

Lemma movk_of_skip rd mid rest :
  Forall (not_movk rd) mid → movk_of rd (mid ++ rest) = movk_of rd rest.
Proof.
  induction 1 as [|w mid Hw Hmid IH]; cbn; [done|].
  destruct (movk_w_lsl16 w) as [[rd' hi]|] eqn:E; [|done].
  destruct (rd' =? rd) eqn:Er; [|done]. apply Z.eqb_eq in Er. subst. by destruct (Hw hi).
Qed.

(** The names found, word by word. *)
Fixpoint finds (letters : list Z) (window a : Z) (words : list Z) : list (list Z * Z) :=
  match words with
  | [] => []
  | w :: rest =>
      match pair_at letters window w rest with Some nm => [(nm, a)] | None => [] end
      ++ finds letters window (a + 4) rest
  end.

(** The dictionary groups the finds by name and keeps their order. *)
Lemma scan_words_groups letters window a words hits nm :
  dget nm (scan_words letters window a words hits)
  = match dget nm hits, map snd (base.filter (λ f, f.1 = nm) (finds letters window a words)) with
    | None, [] => None
    | None, l => Some l
    | Some l0, l => Some (l0 ++ l)
    end.
Proof.
  revert a hits. induction words as [|w rest IH]; intros a hits; cbn [scan_words finds].
  { cbn. destruct (dget nm hits); [by rewrite app_nil_r|done]. }
  rewrite IH. destruct (pair_at letters window w rest) as [nm'|]; [|done].
  rewrite filter_app, map_app. unfold add_hit. rewrite dget_dset, filter_cons.
  destruct (decide (nm = nm')) as [<-|Hne]; cbn.
  - rewrite decide_True by done. cbn. destruct (dget nm hits); [by rewrite <-app_assoc|done].
  - rewrite decide_False by done. done.
Qed.

Lemma finds_at letters window a pre w rest nm :
  pair_at letters window w rest = Some nm →
  (nm, a + 4 * zlen pre) ∈ finds letters window a (pre ++ w :: rest).
Proof.
  intros Hp. revert a. induction pre as [|x pre IH]; intros a; cbn [app finds].
  - rewrite Hp. rewrite (zlen_nil (A:=Z)), Z.mul_0_r, Z.add_0_r. apply elem_of_app; left; by apply list_elem_of_singleton.
  - rewrite zlen_cons. replace (a + 4 * (1 + zlen pre)) with (a + 4 + 4 * zlen pre) by lia.
    apply elem_of_app. right. apply IH.
Qed.

(** The scanner misses no name.  Wherever the text holds the two moves that
    build a plausible name in one register, the MOVK at most [window] words
    behind its MOVZ with no other MOVK of that register between them, the
    table lists the address of the MOVZ under that name. *)
Theorem fourcc_finds_names letters window a pre rd v mid post :
  0 ≤ rd < 32 → 0 ≤ v < 2 ^ 32 → plausible (name_of v) letters = true →
  Forall (not_movk rd) mid → zlen mid < window →
  ∃ addrs,
    dget (name_of v)
      (scan_words letters window a
         (pre ++ movz_enc rd (v mod 65536) :: mid ++ movk_enc rd (v / 65536) :: post) []) = Some addrs
    ∧ a + 4 * zlen pre ∈ addrs.
Proof.
  intros Hr Hv Hp Hm Hw.
  pose proof (Z.div_mod v 65536 ltac:(lia)). pose proof (Z.mod_pos_bound v 65536 ltac:(lia)).
  assert (0 ≤ v / 65536 < 65536) as Hhi by lia.
  assert (pair_at letters window (movz_enc rd (v mod 65536)) (mid ++ movk_enc rd (v / 65536) :: post)
          = Some (name_of v)) as Hpair.
  { unfold pair_at. rewrite movz_w_enc by lia.
    rewrite ztake_take, take_app_ge by (unfold zlen in Hw; lia). rewrite movk_of_skip by done.
    destruct (Z.to_nat window - length mid)%nat eqn:E; [unfold zlen in Hw; lia|]. cbn [take movk_of].
    rewrite movk_w_enc, Z.eqb_refl by lia. cbv zeta.
    rewrite Z.shiftl_mul_pow2 by lia.
    assert (Z.lor (v / 65536 * 2 ^ 16) (v mod 65536) = v) as Hval by (rewrite lor_high_low by lia; lia).
    by rewrite Hval, Hp. }
  pose proof (finds_at _ _ a pre _ _ _ Hpair) as Hin. rewrite scan_words_groups. cbn [dget].
  set (fs := finds _ _ _ _) in *.
  assert (a + 4 * zlen pre ∈ map snd (base.filter (λ f, f.1 = name_of v) fs)) as Hmem.
  { apply list_elem_of_fmap. eexists (_, _). split; [reflexivity|]. by apply list_elem_of_filter. }
  destruct (map snd _) as [|x l]; [by apply elem_of_nil in Hmem|]. eauto.
Qed.

Lemma fourcc_finds_names_witness :
  0 ≤ 8 < 32
  ∧ ∃ addrs,
      dget (u "D400")
        (scan_words (u "AD") 6 DCP_TEXT_LO
           ([0xD503201F] ++ movz_enc 8 (0x44343030 mod 65536) :: [0xD503201F]
            ++ movk_enc 8 (0x44343030 / 65536) :: []) []) = Some addrs
      ∧ DCP_TEXT_LO + 4 * 1 ∈ addrs.
Proof.
  split; [lia|].
  apply (fourcc_finds_names (u "AD") 6 DCP_TEXT_LO [0xD503201F] 8 0x44343030 [0xD503201F] []);
    [lia|lia|reflexivity| |reflexivity].
  repeat constructor. intros imm. vm_compute. discriminate.
Defined.

(** [isdigit] accepts a superscript; the row of such a name cannot be printed:
    its UTF-8 encoding has more than four bytes. *)
Lemma superscript_name_raises :
  fourcc_main (le_bytes 4 (movz_enc 0 0x3132) ++ le_bytes 4 (movk_enc 0 0x41B2)) BASE (BASE + 8) (u "AD") 6
  = Raise StructError.
Proof. vm_compute. reflexivity. Qed.
