(* ===== verification/Relay.v ===== *)
(** * The input relay: [tools/input/relay.py]

    QEMU's captured mouse states become packets of the guest's UART protocol:
    consecutive motion states are coalesced, press and release transitions are
    kept, and one packet at a time is in flight.  [enqueue] is the queue;
    [iterate] is one pass of the [while True] loop, its inputs being what the
    events file and the socket deliver.  [clock n] is the [n]th reading of
    [time.monotonic()], in microseconds, and [loads] is [json.loads] on one line; opening files
    and sockets is left out. *)

From stdpp Require Import base tactics list list_numbers strings.
From Stdlib Require Import Strings.Byte.
From S2P Require Import Prelude PyBytes PyStr.
Open Scope Z_scope.

(** ** The queue *)

(** A JSON value as the checks of [enqueue] see it. *)
Inductive pyval := PyBool (b : bool) | PyInt (z : Z) | PyOther.
(** [event.get('down')], [event.get('x')], [event.get('y')]. *)
Record event := Event { ev_down : pyval; ev_x : pyval; ev_y : pyval }.
Record touch := Touch { down : bool; tx : Z; ty : Z; observed : Z; edge : bool }.

Definition coordinate (v : pyval) : option Z :=
  match v with PyInt z => if (0 <=? z) && (z <=? 32767) then Some z else None | _ => None end.

Definition record_of (e : event) (now : Z) : res touch :=
  match ev_down e, coordinate (ev_x e), coordinate (ev_y e) with
  | PyBool d, Some x, Some y => Ok (Touch d x y now true)
  | _, _, _ => Raise (ValueError "invalid QEMU touch state")
  end.
Definition no_edge (t : touch) : touch := Touch (down t) (tx t) (ty t) (observed t) false.

(** [queue] holds the oldest record first; [queue[-1]] is its last. *)
Definition enqueue (queue : list touch) (e : event) (now : Z) : res (list touch) :=
  record ← record_of e now;
  let full := RuntimeError "input queue exceeded 64 button transitions" in
  match last queue with
  | Some l =>
      if bool_decide (down l = down record) && negb (edge l) then
        Ok (removelast queue ++ [no_edge record])
      else
        raise_if 64 <=? zlen queue with full ;;
        Ok (queue ++ [if bool_decide (down l = down record) then no_edge record else record])
  | None => Ok (queue ++ [record])
  end.

(** ** The loop *)

Inductive backend := Direct | Recap.
(** The mode options; coordinates as pairs. *)
Record options := Options {
  o_home : bool; o_ping : bool; o_ping_count : Z; o_release : option (Z * Z);
  o_tap : option (Z * Z); o_swipe : option (Z * Z * (Z * Z)); o_backend : backend;
  o_ack_timeout : option Z; o_replay : bool;
}.
(** A packet's record: kind, [down], coordinates. *)
Record packet := Packet { pk_kind : Z; pk_down : bool; pk_x : Z; pk_y : Z }.
Record sent_packet := SentPacket { sp_packet : packet; sp_sequence : Z; sp_observed : Z; sp_sent : Z }.
(** The lines of the log. *)
Inductive log_line :=
  | LSent (p : sent_packet)
  | LAck (p : sent_packet) (success : bool) (now : Z).

Record relay := Relay {
  r_queue : list touch; r_partial : list Z; r_replies : list byte; r_sequence : Z;
  r_pending : option sent_packet; r_swipe : list packet; r_home : list bool;
  r_tick : nat; r_wire : list byte; r_log : list log_line;
}.

(** [round(n / d)], for [0 < d]: to nearest, ties to even.  The quotients of
    the swipe are multiples of 1/20 far below 2^53, so the float division is
    exact on ties. *)
Definition round_div (n d : Z) : Z :=
  let q := n / d in let r := n mod d in
  if 2 * r <? d then q else if d <? 2 * r then q + 1 else if Z.even q then q else q + 1.

Definition swipe_at (x1 y1 x2 y2 i : Z) : packet :=
  Packet 82 true (round_div (20 * x1 + (x2 - x1) * i) 20) (round_div (20 * y1 + (y2 - y1) * i) 20).
Definition swipe_steps (x1 y1 x2 y2 : Z) : list packet :=
  map (swipe_at x1 y1 x2 y2) (seqZ 0 21)
  ++ [Packet 82 false x2 y2].

Definition some {A} (o : option A) : bool := match o with Some _ => true | None => false end.
Definition bounded (v : Z) : bool := (0 <=? v) && (v <=? 32767).
Definition bounded2 (p : Z * Z) : bool := bounded p.1 && bounded p.2.

(** The argument checks of [main] and its effective deadline. *)
Definition second : Z := 1000000.
Definition ack_timeout (o : options) : Z :=
  match o_ack_timeout o with
  | Some t => t
  | None => (if some (o_tap o) || some (o_swipe o) then 30 else 10) * second
  end.
Definition check_args (o : options) : res unit :=
  raise_if negb ((0 <? ack_timeout o) && (ack_timeout o <=? 120 * second))
    with SystemExit "--ack-timeout must be in (0, 120] seconds" ;;
  raise_if (o_ping_count o <? 1) || (negb (o_ping_count o =? 1) && negb (o_ping o))
    with SystemExit "--ping-count must be positive and used with --ping" ;;
  raise_if negb (match o_release o, o_tap o, o_swipe o with
                 | Some p, _, _ | None, Some p, _ => bounded2 p
                 | None, None, Some (p, q) => bounded2 p && bounded2 q
                 | None, None, None => true
                 end)
    with SystemExit "touch coordinates must be 0..32767" ;;
  match o_swipe o with
  | Some (p, q) => raise_if bool_decide (p = q) with SystemExit "swipe endpoints must differ" ;; Ok tt
  | None => Ok tt
  end.

(** The state before the first pass; [millis] is [int(time.time() * 1000)]. *)
Definition tap_steps (o : options) : list bool :=
  match o_backend o with Recap => replicate 9 true ++ [false] | Direct => [false] end.
Definition home_steps (o : options) : list bool :=
  if some (o_tap o) then tap_steps o
  else if o_home o then [true; false]
  else if o_ping o then replicate (Z.to_nat (o_ping_count o)) false
  else if some (o_release o) then [false] else [].
Definition initial (o : options) (millis : Z) : relay :=
  Relay [] [] [] millis None
    (match o_swipe o with Some ((x1, y1), (x2, y2)) => swipe_steps x1 y1 x2 y2 | None => [] end)
    (home_steps o) 0 [x0a] [].

(** [re.search(rb'DVM_INPUT_ACK (\d+) ([01])', line)]: the number and the flag. *)
Definition ack_here (l : list byte) : option (Z * bool) :=
  let p := b "DVM_INPUT_ACK " in
  if startswith p l then
    let r := zdrop (zlen p) l in
    let ds := takewhile (λ c, is_digit (b2z c)) r in
    match zdrop (zlen ds) r with
    | x20 :: c :: _ =>
        if (bool_decide (c = x30) || bool_decide (c = x31)) then
          option_map (λ n, (n, bool_decide (c = x31))) (int_dec (map b2z ds))
        else None
    | _ => None
    end
  else None.
Fixpoint ack_search (l : list byte) : option (Z * bool) :=
  match ack_here l with
  | Some a => Some a
  | None => match l with [] => None | _ :: l => ack_search l end
  end.

(** ['DVMINPUT1 %d %s %d %d %d\n']. *)
Definition packet_text (seqno : Z) (p : packet) : list Z :=
  u "DVMINPUT1 " ++ dec seqno ++ [32; pk_kind p; 32] ++ dec (if pk_down p then 1 else 0)
  ++ [32] ++ dec (pk_x p) ++ [32] ++ dec (pk_y p) ++ [10].

Record input := Input { i_text : list Z; i_uart : option (list byte) }.
Inductive status := Running (s : relay) | Returned (s : relay).

Section loop.
Variable clock : nat → Z.
Variable loads : list Z → res event.
Variable o : options.

Definition with_queue (s : relay) (q : list touch) (t : nat) : relay :=
  Relay q (r_partial s) (r_replies s) (r_sequence s) (r_pending s) (r_swipe s) (r_home s) t
    (r_wire s) (r_log s).
Definition enqueue_line (s : relay) (line : list Z) : res relay :=
  e ← loads line;
  q ← enqueue (r_queue s) e (clock (r_tick s));
  Ok (with_queue s q (S (r_tick s))).

(** [partial += events.read()], [split], [pop] and the loop over the lines. *)
Definition feed (s : relay) (text : list Z) : res relay :=
  let lines := split1 10 (r_partial s ++ text) in
  let s := Relay (r_queue s) (List.last lines []) (r_replies s) (r_sequence s) (r_pending s)
             (r_swipe s) (r_home s) (r_tick s) (r_wire s) (r_log s) in
  res_foldl enqueue_line s (removelast lines).

(** One reply line. *)
Definition reply_line (s : relay) (line : list byte) : res relay :=
  match ack_search line, r_pending s with
  | Some (n, ok), Some p =>
      if n =? sp_sequence p then
        let now := clock (r_tick s) in
        let s := Relay (r_queue s) (r_partial s) (r_replies s) (r_sequence s) (r_pending s)
                   (r_swipe s) (r_home s) (S (r_tick s)) (r_wire s) (r_log s ++ [LAck p ok now]) in
        raise_if negb ok with RuntimeError "guest could not construct input event" ;;
        Ok (Relay (r_queue s) (r_partial s) (r_replies s) (r_sequence s) None
              (r_swipe s) (r_home s) (r_tick s) (r_wire s) (r_log s))
      else Ok s
  | _, _ => Ok s
  end.

Definition with_replies (s : relay) (l : list byte) : relay :=
  Relay (r_queue s) (r_partial s) l (r_sequence s) (r_pending s) (r_swipe s) (r_home s) (r_tick s)
    (r_wire s) (r_log s).
Definition last_bytes (n : Z) (l : list byte) : list byte := zdrop (zlen l - n) l.
(** [while b'\n' in replies], one line at a time; then the cut to 64 KiB. *)
Definition receive (s : relay) (data : list byte) : res relay :=
  raise_if bool_decide (data = []) with RuntimeError "guest UART disconnected" ;;
  let lines := split1 x0a (r_replies s ++ data) in
  s ← res_foldl reply_line s (removelast lines);
  Ok (with_replies s (last_bytes 65536 (List.last lines []))).

(** The next record: its packet and observation time, and the state without it. *)
Inductive choice := Send (p : packet) (obs : Z) (s : relay) | Done | Idle.
Definition touch_packet (t : touch) : packet :=
  Packet (match o_backend o with Recap => 82 | Direct => 84 end) (down t) (tx t) (ty t).
Definition home_packet (d : bool) : packet :=
  let '(x, y) := match o_release o, o_tap o with
                 | Some p, _ | None, Some p => p | None, None => (0, 0) end in
  Packet (if o_home o then 72
          else if some (o_tap o) then match o_backend o with Recap => 82 | Direct => 80 end
          else if some (o_release o) then 84 else 83) d x y.
Definition one_shot : bool :=
  o_home o || o_ping o || some (o_release o) || some (o_tap o) || some (o_swipe o).
Definition choose (s : relay) : choice :=
  match r_swipe s, r_home s, r_queue s with
  | p :: ps, _, _ =>
      Send p (clock (r_tick s))
        (Relay (r_queue s) (r_partial s) (r_replies s) (r_sequence s) (r_pending s) ps (r_home s)
           (S (r_tick s)) (r_wire s) (r_log s))
  | [], d :: ds, _ =>
      Send (home_packet d) (clock (r_tick s))
        (Relay (r_queue s) (r_partial s) (r_replies s) (r_sequence s) (r_pending s) [] ds
           (S (r_tick s)) (r_wire s) (r_log s))
  | [], [], t :: ts =>
      Send (touch_packet t) (observed t)
        (Relay ts (r_partial s) (r_replies s) (r_sequence s) (r_pending s) [] [] (r_tick s) (r_wire s) (r_log s))
  | [], [], [] => if one_shot then Done else Idle
  end.

Definition send (p : packet) (obs : Z) (s : relay) : res relay :=
  let n := r_sequence s + 1 in
  let sp := SentPacket p n obs (clock (r_tick s)) in
  text ← utf8_encode (packet_text n p);
  Ok (Relay (r_queue s) (r_partial s) (r_replies s) n (Some sp) (r_swipe s) (r_home s) (S (r_tick s))
        (r_wire s ++ text) (r_log s ++ [LSent sp])).

(** One pass of the loop. *)
Definition iterate (s : relay) (i : input) : res status :=
  s ← feed s (i_text i);
  s ← match i_uart i with Some data => receive s data | None => Ok s end;
  match r_pending s with
  | Some p =>
      raise_if ack_timeout o <? clock (r_tick s) - sp_sent p with RuntimeError "native input ACK timed out" ;;
      Ok (Running (Relay (r_queue s) (r_partial s) (r_replies s) (r_sequence s) (r_pending s)
                     (r_swipe s) (r_home s) (S (r_tick s)) (r_wire s) (r_log s)))
  | None =>
      match choose s with
      | Send p obs s => s ← send p obs s; Ok (Running s)
      | Done => Ok (Returned s)
      | Idle => Ok (Running s)
      end
  end.

(** The whole run over a finite input. *)
Fixpoint run_loop (s : relay) (inputs : list input) : res status :=
  match inputs with
  | [] => Ok (Running s)
  | i :: inputs =>
      st ← iterate s i;
      match st with Running s => run_loop s inputs | Returned s => Ok (Returned s) end
  end.
End loop.

(** [main], with what the loop reads. *)
Definition relay_main (clock : nat → Z) (loads : list Z → res event) (o : options) (millis : Z)
    (inputs : list input) : res status :=
  _ ← check_args o; run_loop clock loads o (initial o millis) inputs.

(** ** Coalescing

    The reference: the runs of equal [down], each kept as its first record and,
    when it is longer, its last. *)

Definition pos3 : Type := bool * Z * Z.
Definition pos_of (t : touch) : pos3 := (down t, tx t, ty t).
Definition is_down (p : pos3) : bool := p.1.1.

Fixpoint runs (l : list pos3) : list (list pos3) :=
  match l with
  | [] => []
  | x :: l =>
      match runs l with
      | (y :: r) :: rs => if bool_decide (is_down x = is_down y) then (x :: y :: r) :: rs else [x] :: (y :: r) :: rs
      | rs => [x] :: rs
      end
  end.
Definition ends (r : list pos3) : list pos3 :=
  match r with [] => [] | [x] => [x] | x :: r => [x; List.last r x] end.
Definition coalesce (l : list pos3) : list pos3 := concat (map ends (runs l)).

(** Appending a record extends the last run or starts one. *)
Lemma runs_snoc l e :
  (l = [] ∧ runs (l ++ [e]) = [[e]])
  ∨ ∃ rs x r, runs l = rs ++ [x :: r]
      ∧ runs (l ++ [e]) = if bool_decide (is_down x = is_down e) then rs ++ [(x :: r) ++ [e]]
                          else (rs ++ [x :: r]) ++ [[e]].
Proof.
  induction l as [|a l IH]; [by left|]. right. cbn [app runs].
  destruct IH as [[-> _]|(rs & x & r & -> & ->)].
  - exists [], a, []. split; [done|]. cbn. by destruct (bool_decide _).
  - destruct (bool_decide (is_down x = is_down e)) eqn:Ee.
    + destruct rs as [|[|y q] rs]; cbn [app].
      * destruct (bool_decide (is_down a = is_down x)) eqn:Ea.
        -- exists [], a, (x :: r). apply bool_decide_eq_true in Ea. by rewrite Ea, Ee.
        -- exists [[a]], x, r. by rewrite Ee.
      * exists ([a] :: [] :: rs), x, r. by rewrite Ee.
      * destruct (bool_decide (is_down a = is_down y)) eqn:Ea.
        -- exists ((a :: y :: q) :: rs), x, r. by rewrite Ee.
        -- exists ([a] :: (y :: q) :: rs), x, r. by rewrite Ee.
    + destruct rs as [|[|y q] rs]; cbn [app].
      * destruct (bool_decide (is_down a = is_down x)) eqn:Ea.
        -- exists [], a, (x :: r). apply bool_decide_eq_true in Ea. by rewrite Ea, Ee.
        -- exists [[a]], x, r. by rewrite Ee.
      * exists ([a] :: [] :: rs), x, r. by rewrite Ee.
      * destruct (bool_decide (is_down a = is_down y)) eqn:Ea.
        -- exists ((a :: y :: q) :: rs), x, r. by rewrite Ee.
        -- exists ([a] :: (y :: q) :: rs), x, r. by rewrite Ee.
Qed.

(** What the queue knows about the records it was given. *)
Definition queue_inv (l : list pos3) (q : list touch) : Prop :=
  match l with
  | [] => q = []
  | _ => ∃ rs x r t q', runs l = rs ++ [x :: r] ∧ q = q' ++ [t] ∧ map pos_of q = coalesce l
         ∧ down t = is_down x ∧ edge t = bool_decide (r = []) ∧ map pos_of q' = concat (map ends rs) ++ (if bool_decide (r = []) then [] else [x])
  end.

Definition ev_pos (e : event) : option pos3 :=
  match record_of e 0 with Ok t => Some (pos_of t) | Raise _ => None end.

Lemma record_of_cases e now :
  (∃ t, record_of e now = Ok t ∧ ev_pos e = Some (pos_of t) ∧ edge t = true)
  ∨ (record_of e now = Raise (ValueError "invalid QEMU touch state") ∧ ev_pos e = None).
Proof. unfold ev_pos, record_of. repeat case_match; eauto. Qed.

Lemma coalesce_snoc_runs l rs r : runs l = rs ++ [r] → coalesce l = concat (map ends rs) ++ ends r.
Proof. intros H. unfold coalesce. rewrite H, map_app, concat_app. cbn. by rewrite app_nil_r. Qed.
Lemma ends_snoc x r e : ends ((x :: r) ++ [e]) = [x; e].
Proof.
  assert (∀ l, l ≠ [] → ends (x :: l) = [x; List.last l x]) as Hl by (by intros []).
  cbn [app]. rewrite Hl by (by destruct r). by rewrite List.last_last.
Qed.

(** One step of the queue follows one step of the reference. *)
Lemma enqueue_inv l q e now t :
  queue_inv l q → record_of e now = Ok t →
  match enqueue q e now with
  | Ok q' => queue_inv (l ++ [pos_of t]) q'
  | Raise x => x = RuntimeError "input queue exceeded 64 button transitions" ∧ 64 ≤ zlen q
               ∧ zlen (coalesce (l ++ [pos_of t])) = zlen q + 1
  end.
Proof.
  intros Hq Ht. assert (edge t = true) as Hedge.
  { destruct (record_of_cases e now) as [(t' & H & _ & He)|[H _]]; [|congruence]. by rewrite H in Ht; injection Ht as <-. }
  unfold enqueue. rewrite Ht, ok_bind. destruct (runs_snoc l (pos_of t)) as [[-> Hr]|(rs & x & r & Hl & Hr)].
  - cbn in Hq. subst q. cbn. exists [], (pos_of t), [], t, []. by rewrite Hedge.
  - assert (l ≠ []) as Hne by (intros ->; by destruct rs).
    destruct l as [|l0 l]; [done|]. cbn [queue_inv] in Hq.
    destruct Hq as (rs' & x' & r' & lt & q' & Hl' & -> & Hpos & Hd & He & Hp).
    rewrite Hl in Hl'. apply app_inj_tail in Hl' as [<- [= <- <-]].
    rewrite last_snoc, Hd. change (is_down (pos_of t)) with (down t) in Hr.
    pose proof (coalesce_snoc_runs _ _ _ Hl) as Hc. set (q := q' ++ [lt]) in *.
    assert (∀ c, map pos_of (q ++ [c]) = coalesce (l0 :: l) ++ [pos_of c]) as Hq
      by (intros c; by rewrite map_app, Hpos).
    destruct (bool_decide (is_down x = down t)) eqn:Ed.
    + apply coalesce_snoc_runs in Hr as Hc'. rewrite ends_snoc in Hc'. cbn [andb].
      destruct (bool_decide (r = [])) eqn:Er.
      * apply bool_decide_eq_true in Er as ->. rewrite He. cbn [negb].
        assert (coalesce ((l0 :: l) ++ [pos_of t]) = coalesce (l0 :: l) ++ [pos_of t]) as Hs
          by (by rewrite Hc', Hc, <-app_assoc).
        destruct (64 <=? zlen q) eqn:E64.
        -- split; [done|]. split; [lia|]. rewrite Hs, <-Hpos. unfold zlen. rewrite length_app, length_map. cbn. lia.
        -- exists rs, x, [pos_of t], (no_edge t), q. apply bool_decide_eq_true in Ed.
           split; [done|]. split; [done|]. split; [by rewrite Hq|]. split; [done|]. split; [done|].
           rewrite Hpos, Hc. done.
      * rewrite He. cbn [negb]. unfold q. rewrite removelast_last.
        exists rs, x, (r ++ [pos_of t]), (no_edge t), q'. apply bool_decide_eq_true in Ed.
        assert (bool_decide (r ++ [pos_of t] = []) = false) as -> by (apply bool_decide_eq_false; by destruct r).
        split; [done|]. split; [done|]. split; [|done].
        rewrite map_app, Hp, Hc', <-app_assoc. done.
    + apply coalesce_snoc_runs in Hr as Hc'. rewrite map_app, concat_app in Hc'. cbn [map concat] in Hc'.
      rewrite app_nil_r, <-Hc in Hc'. cbn [andb].
      destruct (64 <=? zlen q) eqn:E64.
      * split; [done|]. split; [lia|]. rewrite Hc', <-Hpos. unfold zlen. rewrite length_app, length_map. cbn. lia.
      * exists (rs ++ [x :: r]), (pos_of t), [], t, q. rewrite Hedge.
        split; [done|]. split; [done|]. split; [by rewrite Hq|]. split; [done|]. split; [done|].
        rewrite Hpos, Hc, map_app, concat_app. cbn [map concat]. by rewrite !app_nil_r.
Qed.

Lemma queue_inv_coalesce l q : queue_inv l q → map pos_of q = coalesce l.
Proof. destruct l; cbn [queue_inv]; [by intros ->|]. by intros (? & ? & ? & ? & ? & _ & _ & H & _). Qed.

(** The queue never holds more than 64 records. *)
Lemma enqueue_bound q e now q' : zlen q ≤ 64 → enqueue q e now = Ok q' → zlen q' ≤ 64.
Proof.
  intros Hq H. unfold enqueue in H. simpl_res. destruct (last q) as [l|] eqn:El.
  - assert (∃ k, q = k ++ [l]) as [k ->] by (apply last_Some in El as [k ->]; eauto).
    destruct (_ && _); simpl_res.
    + rewrite removelast_last. rewrite zlen_app in *. by rewrite zlen_cons, zlen_nil in *.
    + rewrite zlen_app. rewrite zlen_cons, (zlen_nil (A:=touch)). lia.
  - apply last_None in El. subst. by simpl_res.
Qed.

Lemma enqueue_all_inv before ts q evs :
  Forall2 (λ en t, ev_pos en.1 = Some t) before ts → queue_inv ts q → zlen q ≤ 64 →
  match res_foldl (λ q en, enqueue q en.1 en.2) q evs with
  | Ok q => ∃ ts, Forall2 (λ en t, ev_pos en.1 = Some t) (before ++ evs) ts ∧ map pos_of q = coalesce ts ∧ zlen q ≤ 64
  | Raise e =>
      (e = ValueError "invalid QEMU touch state" ∧ ∃ en, en ∈ before ++ evs ∧ ev_pos en.1 = None)
      ∨ (e = RuntimeError "input queue exceeded 64 button transitions"
         ∧ ∃ before' ts rest, before ++ evs = before' ++ rest
             ∧ Forall2 (λ en t, ev_pos en.1 = Some t) before' ts ∧ 64 < zlen (coalesce ts))
  end.
Proof.
  revert before ts q. induction evs as [|[e now] evs IH]; intros before ts q Hb Hq Hn; cbn [res_foldl].
  { rewrite app_nil_r. exists ts. split; [done|]. split; [by apply queue_inv_coalesce|done]. }
  destruct (record_of_cases e now) as [(t & Ht & He & _)|[Hbad He]].
  - pose proof (enqueue_inv ts q e now t Hq Ht) as Hstep. cbn [fst snd].
    destruct (enqueue q e now) as [q'|x] eqn:Eq; cbn [mbind res_bind].
    + specialize (IH (before ++ [(e, now)]) (ts ++ [pos_of t]) q').
      rewrite <-app_assoc in IH. apply IH; [|done|by eapply enqueue_bound].
      apply Forall2_app; [done|]. by repeat constructor.
    + right. destruct Hstep as (-> & H64 & Hc). split; [done|].
      exists (before ++ [(e, now)]), (ts ++ [pos_of t]), evs. rewrite <-app_assoc.
      split; [done|]. split; [|lia]. apply Forall2_app; [done|]. by repeat constructor.
  - unfold enqueue. cbn [fst snd]. rewrite Hbad. cbn [mbind res_bind]. left. split; [done|].
    exists (e, now). split; [|done]. apply elem_of_app. right. apply list_elem_of_here.
Qed.

(** C25: The queue loses no button transition.  Feeding any sequence of mouse
    states to an empty queue, one at a time, either stops at a malformed state
    with [ValueError], or gives exactly the reference coalescing of the states
    (every press or release run by its first state and its last), at most 64
    of them, or raises the documented [RuntimeError] because the coalescing of
    the states so far has more than 64. *)
Theorem enqueue_coalesces evs :
  match res_foldl (λ q en, enqueue q en.1 en.2) [] evs with
  | Ok q => ∃ ts, Forall2 (λ en t, ev_pos en.1 = Some t) evs ts ∧ map pos_of q = coalesce ts ∧ zlen q ≤ 64
  | Raise e =>
      (e = ValueError "invalid QEMU touch state" ∧ ∃ en, en ∈ evs ∧ ev_pos en.1 = None)
      ∨ (e = RuntimeError "input queue exceeded 64 button transitions"
         ∧ ∃ before ts rest, evs = before ++ rest ∧ Forall2 (λ en t, ev_pos en.1 = Some t) before ts
                             ∧ 64 < zlen (coalesce ts))
  end.
Proof.
  apply (enqueue_all_inv [] [] [] evs); [constructor|done|done].
Qed.

(** ** One packet at a time *)

(** The logs of the protocol: sequence numbers count up by one, a packet is
    sent only when none is in flight, and only an acknowledgement of success
    ends its flight. *)
Inductive protocol (n0 : Z) : list log_line → Z → option sent_packet → Prop :=
  | protocol_start : protocol n0 [] n0 None
  | protocol_send log n sp :
      protocol n0 log n None → sp_sequence sp = n + 1 → protocol n0 (log ++ [LSent sp]) (n + 1) (Some sp)
  | protocol_ack log n sp now :
      protocol n0 log n (Some sp) → protocol n0 (log ++ [LAck sp true now]) n None.

(** What a log line put on the wire. *)
Definition wire_of (l : log_line) : list byte :=
  match l with
  | LSent sp => match utf8_encode (packet_text (sp_sequence sp) (sp_packet sp)) with Ok t => t | Raise _ => [] end
  | LAck _ _ _ => []
  end.

Definition relay_inv (n0 : Z) (s : relay) : Prop :=
  protocol n0 (r_log s) (r_sequence s) (r_pending s)
  ∧ r_wire s = [x0a] ++ concat (map wire_of (r_log s)).

Section loop_inv.
Context (clock : nat → Z) (loads : list Z → res event) (o : options) (n0 : Z).

Lemma feed_inv s text s' : relay_inv n0 s → feed clock loads s text = Ok s' → relay_inv n0 s'.
Proof.
  intros Hs. unfold feed. apply (res_foldl_inv (relay_inv n0)); [|exact Hs].
  intros c line c' Hc H. unfold enqueue_line in H. simpl_res. exact Hc.
Qed.

Lemma reply_line_inv s line s' : relay_inv n0 s → reply_line clock s line = Ok s' → relay_inv n0 s'.
Proof.
  intros [Hp Hw] H. unfold reply_line in H.
  destruct (ack_search line) as [[n ok]|]; [|by simpl_res].
  destruct (r_pending s) as [p|] eqn:Ep; [|by simpl_res; split; rewrite ?Ep].
  destruct (n =? sp_sequence p); [|by simpl_res; split; rewrite ?Ep].
  simpl_res. apply negb_false_iff in Hif. rewrite Hif. split; cbn.
  - by apply protocol_ack.
  - rewrite Hw, map_app, concat_app. cbn. by rewrite !app_nil_r.
Qed.

Lemma receive_inv s data s' : relay_inv n0 s → receive clock s data = Ok s' → relay_inv n0 s'.
Proof.
  intros Hs H. unfold receive in H. simpl_res. cbn.
  by eapply (res_foldl_inv (relay_inv n0) _ _ _ _ (reply_line_inv)) in Hr.
Qed.

Lemma send_inv p obs s s' :
  relay_inv n0 s → r_pending s = None → send clock p obs s = Ok s' → relay_inv n0 s'.
Proof.
  intros [Hp Hw] Hn H. unfold send in H. simpl_res. rewrite Hn in Hp. split; cbn.
  - by apply protocol_send.
  - rewrite map_app, concat_app, Hw. cbn [map concat wire_of sp_sequence sp_packet]. rewrite Hr. rewrite app_nil_r. reflexivity.
Qed.

Lemma choose_send s p obs s' :
  relay_inv n0 s → choose clock o s = Send p obs s' → relay_inv n0 s' ∧ r_pending s' = r_pending s.
Proof.
  intros [Hp Hw] H. unfold choose in H.
  repeat case_match; try discriminate; injection H as <- <- <-; done.
Qed.

Definition state_of (st : status) : relay := match st with Running s | Returned s => s end.

Lemma iterate_inv s i st : relay_inv n0 s → iterate clock loads o s i = Ok st → relay_inv n0 (state_of st).
Proof.
  intros Hs H. unfold iterate in H. apply bind_Ok in H as (s1 & H1 & H).
  apply feed_inv in H1; [|done]. apply bind_Ok in H as (s2 & H2 & H).
  assert (relay_inv n0 s2) as Hs2.
  { destruct (i_uart i); [by eapply receive_inv|]. by simpl_res. }
  destruct (r_pending s2) as [p|] eqn:Ep.
  - simpl_res. destruct Hs2 as [Hp Hw]. by split; cbn; rewrite <-?Ep.
  - destruct (choose clock o s2) as [p obs s3| |] eqn:Ec; [|by simpl_res..].
    apply choose_send in Ec as [Hs3 Hp3]; [|done]. apply bind_Ok in H as (s4 & H4 & H). simpl_res.
    eapply send_inv in H4; [done|done|congruence].
Qed.

Lemma run_loop_inv s inputs st :
  relay_inv n0 s → run_loop clock loads o s inputs = Ok st → relay_inv n0 (state_of st).
Proof.
  revert s. induction inputs as [|i inputs IH]; intros s Hs H; cbn [run_loop] in H; [by simpl_res|].
  apply bind_Ok in H as (st1 & H1 & H). apply iterate_inv in H1; [|done].
  destruct st1; [by eapply IH|by simpl_res].
Qed.
End loop_inv.

(** The relay never has two packets in flight and never repeats one.  In
    every state the loop reaches, whatever the events file, the socket and the
    clock deliver, the log is a log of the protocol, starting from the number
    the run chose; and the bytes written to the guest are a newline and the
    logged packets' texts, each once, in order. *)
Theorem relay_one_in_flight clock loads o millis inputs st :
  relay_main clock loads o millis inputs = Ok st →
  let s := state_of st in
  protocol millis (r_log s) (r_sequence s) (r_pending s)
  ∧ r_wire s = [x0a] ++ concat (map wire_of (r_log s)).
Proof.
  intros H. unfold relay_main in H. simpl_res.
  apply (run_loop_inv clock loads o millis) in H; [done|]. split; [constructor|done].
Qed.

(** A ping run: the ping, its acknowledgement, the end. *)
Definition ping_options : options := Options false true 1 None None None Direct None false.
Lemma relay_one_in_flight_witness :
  ∃ st,
    relay_main Z.of_nat (λ _, Raise JSONDecodeError) ping_options 41
      [Input [] None; Input [] (Some (b "noise" ++ [x0a] ++ b "DVM_INPUT_ACK 4")); Input [] (Some (b "2 1" ++ [x0a]))]
    = Ok (Returned st)
    ∧ r_wire st = x0a :: b "DVMINPUT1 42 S 0 0 0" ++ [x0a]
    ∧ protocol 41 (r_log st) (r_sequence st) (r_pending st).
Proof.
  eexists. split; [vm_compute; reflexivity|]. split; [vm_compute; reflexivity|].
  refine (proj1 (relay_one_in_flight Z.of_nat (λ _, Raise JSONDecodeError) ping_options 41
    [Input [] None; Input [] (Some (b "noise" ++ [x0a] ++ b "DVM_INPUT_ACK 4")); Input [] (Some (b "2 1" ++ [x0a]))]
    (Returned _) _)).
  vm_compute. reflexivity.
Defined.

(** ** The swipe *)

Lemma round_div_between n d lo hi : 0 < d → lo * d ≤ n ≤ hi * d → lo ≤ round_div n d ≤ hi.
Proof.
  intros Hd Hn. unfold round_div. pose proof (Z.div_mod n d ltac:(lia)). pose proof (Z.mod_pos_bound n d Hd).
  assert (lo ≤ n / d) by (apply Z.div_le_lower_bound; lia).
  assert (n / d ≤ hi) by (apply Z.div_le_upper_bound; lia).
  assert (n / d = hi → n mod d = 0) by nia. repeat case_match; lia.
Qed.
Lemma round_div_exact n d : 0 < d → round_div (n * d) d = n.
Proof. intros Hd. pose proof (round_div_between (n * d) d n n Hd). lia. Qed.

Lemma swipe_coordinate a c i :
  0 ≤ i < 21 → Z.min a c ≤ round_div (20 * a + (c - a) * i) 20 ≤ Z.max a c.
Proof. intros Hi. apply round_div_between; nia. Qed.

(** A swipe is 21 touches and a lift, from the first endpoint to the
    second, and no intermediate coordinate leaves the segment's bounding box:
    endpoints inside the digitizer's range give packets inside it. *)
Theorem swipe_steps_inside x1 y1 x2 y2 :
  Forall (λ p, Z.min x1 x2 ≤ pk_x p ≤ Z.max x1 x2 ∧ Z.min y1 y2 ≤ pk_y p ≤ Z.max y1 y2)
    (swipe_steps x1 y1 x2 y2)
  ∧ zlen (swipe_steps x1 y1 x2 y2) = 22
  ∧ znth 0 (swipe_steps x1 y1 x2 y2) = Some (Packet 82 true x1 y1)
  ∧ znth 20 (swipe_steps x1 y1 x2 y2) = Some (Packet 82 true x2 y2)
  ∧ znth 21 (swipe_steps x1 y1 x2 y2) = Some (Packet 82 false x2 y2).
Proof.
  split; [|split; [reflexivity|split; [|split; [|reflexivity]]]].
  - unfold swipe_steps. apply Forall_app. split; [|repeat constructor; cbn; lia].
    apply Forall_fmap, Forall_forall. intros i Hi%elem_of_seqZ. cbn. split; apply swipe_coordinate; lia.
  - transitivity (Some (swipe_at x1 y1 x2 y2 0)); [reflexivity|]. unfold swipe_at.
    replace (20 * x1 + (x2 - x1) * 0) with (x1 * 20) by lia. replace (20 * y1 + (y2 - y1) * 0) with (y1 * 20) by lia.
    by rewrite !round_div_exact.
  - transitivity (Some (swipe_at x1 y1 x2 y2 20)); [reflexivity|]. unfold swipe_at.
    replace (20 * x1 + (x2 - x1) * 20) with (x2 * 20) by lia. replace (20 * y1 + (y2 - y1) * 20) with (y2 * 20) by lia.
    by rewrite !round_div_exact.
Qed.
