(* ===== verification/Checkpoint.v ===== *)
(** * Checkpoints: [tools/checkpoint_common.py], [tools/create_checkpoint.py],
      [tools/restore_checkpoint.py]

    A checkpoint pairs a migration stream with an immutable disk; restoring it
    rewrites the captured command line for a new process, reads the monitor's
    text and judges what the guest did.  Texts are code points, command lines
    and paths are texts.  [resolve] is [Path.resolve], [files] the regular
    files of the host.  Regular expressions are read on ASCII digits and
    letters.  The two programs themselves are [Capture] and [Restore]. *)

From stdpp Require Import base tactics list list_numbers strings.
From Stdlib Require Import Strings.Byte.
From S2P Require Import Prelude PyBytes PyStr PyDict Sha256 TrustCache.
Open Scope Z_scope.

Abbreviation text := (list Z).

(** [SAFE_TAG.fullmatch]. *)
Definition safe_tag (tag : text) : bool :=
  (1 <=? zlen tag) && (zlen tag <=? 64)
  && forallb (λ c, is_word c || (c =? 46) || (c =? 45)) tag.

(** ** The disk chain *)

Record chain_entry := ChainEntry {
  ce_path : text; ce_format : text; ce_virtual_size : Z; ce_bytes : Z; ce_sha256 : text;
}.
(** An entry of [qemu-img info --backing-chain --output=json]. *)
Record img_info := ImgInfo { ii_filename : text; ii_format : text; ii_virtual_size : Z }.

Section host.
Variable resolve : text → text.
Variable files : text → option (list byte).

Definition chain_entry_of (e : img_info) : res chain_entry :=
  let path := resolve (ii_filename e) in
  match files path with
  | None => Raise (RuntimeError "backing-chain member is not a file")
  | Some data => Ok (ChainEntry path (ii_format e) (ii_virtual_size e) (zlen data) (sha256_hex data))
  end.

(** [info] is what [json.loads] made of the tool's output; [None]: no list. *)
Definition qcow2_backing_chain (info : option (list img_info)) (disk : text) : res (list chain_entry) :=
  match info with
  | None | Some [] => Raise (RuntimeError "qemu-img returned an empty or invalid backing chain")
  | Some info =>
      chain ← res_map chain_entry_of info;
      match chain with
      | [] => Raise IndexError
      | e :: _ =>
          raise_if negb (bool_decide (ce_path e = resolve disk))
            with RuntimeError "qemu-img backing chain does not begin with selected disk" ;;
          Ok chain
      end
  end.

Definition verify_entry (_ : unit) (e : chain_entry) : res unit :=
  match files (ce_path e) with
  | None => Raise (RuntimeError "disk-chain member missing or resized")
  | Some data =>
      raise_if negb (zlen data =? ce_bytes e) with RuntimeError "disk-chain member missing or resized" ;;
      raise_if negb (bool_decide (sha256_hex data = ce_sha256 e))
        with RuntimeError "disk-chain member hash mismatch" ;;
      Ok tt
  end.
Definition verify_backing_chain (chain : list chain_entry) : res unit :=
  raise_if bool_decide (chain = []) with RuntimeError "checkpoint manifest has no backing chain" ;;
  res_foldl verify_entry tt chain.

(** ** The command line *)

Definition value_options : list text := map u ["-bootkc"; "-dtree"; "-tc"; "-ramdisk"; "-sptm"; "-txm"].
Fixpoint input_files_from (argv : list text) : list text :=
  match argv with
  | a :: ((v :: argv') as rest) =>
      if bool_decide (a ∈ value_options) then resolve v :: input_files_from argv' else input_files_from rest
  | _ => []
  end.
Definition qemu_input_files (argv : list text) : list text := input_files_from (tail argv).

(** [",".join]. *)
Definition join_commas (parts : list text) : text := join1 44 parts.
Fixpoint replace_file (parts : list text) (old new : text) : option (res (list text)) :=
  match parts with
  | [] => None
  | p :: parts =>
      if startswith (u "file=") p then
        Some (if bool_decide (resolve (zdrop 5 p) = resolve old) then Ok ((u "file=" ++ new) :: parts)
              else Raise (RuntimeError "ANS drive in captured argv is not the expected disk"))
      else match replace_file parts old new with
           | Some r => Some (ps ← r; Ok (p :: ps))
           | None => None
           end
  end.
Definition replace_drive_file (spec old new : text) : res text :=
  let parts := split1 44 spec in
  if bool_decide (u "id=ans" ∈ parts) then
    match replace_file parts old new with
    | Some r => ps ← r; Ok (join_commas ps)
    | None => Raise (RuntimeError "captured ANS -drive has no file= component")
    end
  else Ok spec.

(** [{source[n + 1].removeprefix("chardev:") ...}]. *)
Fixpoint serial_devices (source : list text) : list text :=
  match source with
  | a :: ((v :: _) as rest) =>
      if bool_decide (a = u "-serial") && startswith (u "chardev:") v
      then zdrop 8 v :: serial_devices rest else serial_devices rest
  | _ => []
  end.

(** The endpoints of the new process. *)
Record endpoints := Endpoints {
  source_disk : text; restore_disk : text; ep_monitor : text; ep_serial : text; ep_uart : text;
  ep_state : text; gdb_port : option Z;
}.
Definition monitor_spec (ep : endpoints) : text := u "unix:" ++ ep_monitor ep ++ u ",server,nowait".

Record argv_state := ArgvState { av_out : list text; saw_monitor : bool; saw_drive : bool; saw_serial : bool }.
Definition push (s : argv_state) (args : list text) : argv_state :=
  ArgvState (av_out s ++ args) (saw_monitor s) (saw_drive s) (saw_serial s).

Definition rewrite_chardev (ep : endpoints) (devices : list text) (spec : text) : option text :=
  let parts := split1 44 spec in
  if bool_decide (List.hd [] parts = u "socket")
     && existsb (λ d, bool_decide (u "id=" ++ d ∈ parts)) devices then
    let parts := List.filter (λ p, negb (startswith (u "path=") p) && negb (startswith (u "logfile=") p)) parts in
    Some (join_commas (parts ++ [u "path=" ++ ep_uart ep; u "logfile=" ++ ep_serial ep]))
  else None.

Definition dropped_options : list text := map u ["-incoming"; "-gdb"; "-pidfile"; "-qmp"].

(** The [while] loop; every pass consumes one or two arguments. *)
Fixpoint restore_from (ep : endpoints) (devices : list text) (source : list text) (s : argv_state)
  : res argv_state :=
  match source with
  | [] => Ok s
  | arg :: rest =>
      match rest with
      | v :: rest' =>
          if bool_decide (arg ∈ dropped_options) then restore_from ep devices rest' s
          else if bool_decide (arg = u "-monitor") then
            restore_from ep devices rest'
              (ArgvState (av_out s ++ [arg; monitor_spec ep]) true (saw_drive s) (saw_serial s))
          else if bool_decide (arg = u "-drive") then
            rewritten ← replace_drive_file v (source_disk ep) (restore_disk ep);
            restore_from ep devices rest'
              (ArgvState (av_out s ++ [arg; rewritten]) (saw_monitor s)
                 (saw_drive s || negb (bool_decide (rewritten = v))) (saw_serial s))
          else if bool_decide (arg = u "-chardev") then
            match rewrite_chardev ep devices v with
            | Some spec =>
                restore_from ep devices rest'
                  (ArgvState (av_out s ++ [arg; spec]) (saw_monitor s) (saw_drive s) true)
            | None => restore_from ep devices rest' (push s [arg; v])
            end
          else if bool_decide (arg = u "-serial") then
            if startswith (u "file:") v then
              restore_from ep devices rest'
                (ArgvState (av_out s ++ [arg; u "file:" ++ ep_serial ep]) (saw_monitor s) (saw_drive s) true)
            else restore_from ep devices rest' (push s [arg; v])
          else if bool_decide (arg = u "-daemonize") then restore_from ep devices rest s
          else restore_from ep devices rest (push s [arg])
      | [] => Ok (if bool_decide (arg = u "-daemonize") then s else push s [arg])
      end
  end.

Definition restore_argv (source : list text) (ep : endpoints) : res (list text) :=
  match source with
  | [] => Raise IndexError
  | head :: rest =>
      s ← restore_from ep (serial_devices source) rest (ArgvState [head] false false false);
      raise_if negb (saw_drive s) with RuntimeError "captured argv did not contain the selected ANS disk" ;;
      let out := if saw_monitor s then av_out s else av_out s ++ [u "-monitor"; monitor_spec ep] in
      raise_if negb (saw_serial s) with RuntimeError "captured argv has no rewritable serial logfile" ;;
      let out := if bool_decide (u "-S" ∈ out) then out else out ++ [u "-S"] in
      let out := match gdb_port ep with Some p => out ++ [u "-gdb"; u "tcp::" ++ dec p] | None => out end in
      Ok (out ++ [u "-incoming"; u "file:" ++ ep_state ep])
  end.
End host.

(** ** The monitor's text *)

(** [_read_prompt] over the chunks the socket delivers (an empty one: closed);
    the result: the bytes read and the chunks left. *)
Definition at_prompt (data : list byte) : bool :=
  endswith (b "(qemu)") (reverse (dropwhile (λ c, is_space (b2z c)) (reverse data))).
Fixpoint read_prompt (chunks : list (list byte)) (data : list byte) : list byte * list (list byte) :=
  if at_prompt data then (data, chunks)
  else match chunks with
       | [] | [] :: _ => (data, chunks)
       | c :: chunks => read_prompt chunks (data ++ c)
       end.

(** What [command] makes of the raw reply. *)
Definition reply_text (raw : text) : text :=
  let lines := splitlines (List.filter (λ c, negb (c =? 13)) raw) in
  strip (join1 10 (List.filter
    (λ l, negb (contains (27 :: u "[") l || bool_decide (strip l = u "(qemu)"))) lines)).
Definition hmp_reply (chunks : list (list byte)) : text :=
  let '(_, chunks) := read_prompt chunks [] in
  reply_text (utf8_replace (read_prompt chunks []).1).

(** The digits at the head of a text, and what follows them. *)
Definition span (f : Z → bool) (s : text) : text * text := (takewhile f s, dropwhile f s).

(** [^\s*\* CPU #(\d+):] on one line. *)
Definition starred_cpu (line : text) : option Z :=
  let l := lstrip line in
  if startswith (u "* CPU #") l then
    match span is_digit (zdrop 7 l) with
    | (ds, 58 :: _) => int_dec ds
    | _ => None
    end
  else None.
Definition selected_cpu_index (cpus : text) : res Z :=
  match omap starred_cpu (split1 10 cpus) with
  | [n] => Ok n
  | _ => Raise (RuntimeError "expected one selected CPU in HMP info cpus")
  end.

(** [re.search(r"\bNAME=([0-9a-fA-F]+)\b")]; [prev] is the character before. *)
Fixpoint hex_field (name : text) (prev : bool) (s : text) : option text :=
  let here :=
    if negb prev && startswith name s then
      match span is_hexdigit (zdrop (zlen name) s) with
      | ([], _) => None
      | (ds, c :: _) => if is_word c then None else Some ds
      | (ds, []) => Some ds
      end
    else None in
  match here, s with
  | Some ds, _ => Some ds
  | None, [] => None
  | None, c :: s => hex_field name (is_word c) s
  end.
Definition parse_pc (registers : text) : res text :=
  match hex_field (u "PC=") false registers with
  | Some ds => Ok (lower ds)
  | None => Raise (RuntimeError "HMP register output did not contain PC")
  end.

(** [\bb\s+#?0x([0-9a-fA-F]+)\b]. *)
Fixpoint branch_operand (prev : bool) (s : text) : option text :=
  let here :=
    match s with
    | 98 :: ((c :: _) as r) =>
        if negb prev && is_space c then
          let r := lstrip r in
          let r := match r with 35 :: r => r | _ => r end in
          if startswith (u "0x") r then
            match span is_hexdigit (zdrop 2 r) with
            | ([], _) => None
            | (ds, c :: _) => if is_word c then None else Some ds
            | (ds, []) => Some ds
            end
          else None
        else None
    | _ => None
    end in
  match here, s with
  | Some ds, _ => Some ds
  | None, [] => None
  | None, c :: s => branch_operand (is_word c) s
  end.

(** [(?<![0-9a-fA-Fx])0x([0-9a-fA-F]{2})(?![0-9a-fA-F])], all matches. *)
Fixpoint octets_from (skip : nat) (prev : bool) (s : text) : list Z :=
  match s with
  | [] => []
  | c :: r =>
      let prev' := is_hexdigit c || (c =? 120) in
      match skip with
      | S k => octets_from k prev' r
      | O =>
          match s with
          | 48 :: 120 :: a :: d :: rest =>
              if negb prev && is_hexdigit a && is_hexdigit d
                 && negb (match rest with x :: _ => is_hexdigit x | [] => false end) then
                match int_hex [a; d] with
                | Some v => v :: octets_from 3 prev' r
                | None => octets_from 0 prev' r
                end
              else octets_from 0 prev' r
          | _ => octets_from 0 prev' r
          end
      end
  end.

(** The text before the first two NULs, without NULs at its ends. *)
Fixpoint before2 (s : text) : text :=
  match s with
  | 0 :: 0 :: _ => []
  | c :: s => c :: before2 s
  | [] => []
  end.
Definition strip_nul (s : text) : text :=
  reverse (dropwhile (λ c, c =? 0) (reverse (dropwhile (λ c, c =? 0) s))).

(** [sptm_panic_message], in the monad of the caller, whose monitor it asks. *)
Definition sptm_panic_message {M} `{MRet M, MBind M} (lift : ∀ A, res A → M A) (command : text → M text)
    (registers : text) : M text :=
  pcs ← lift _ (parse_pc registers);
  pc ← lift _ (opt_or (int_hex pcs) (ValueError "int"));
  match hex_field (u "X03=") false registers with
  | None => mret []
  | Some x3s =>
      instruction ← command (u "x/1i " ++ hex pc);
      match branch_operand false instruction with
      | None => mret []
      | Some ts =>
          target ← lift _ (opt_or (int_hex ts) (ValueError "int"));
          if negb ((target =? pc) || (target =? pc - 4)) then mret []
          else
            x3 ← lift _ (opt_or (int_hex x3s) (ValueError "int"));
            raw ← command (u "x/256xb " ++ hex x3);
            let chars := map (λ v, if ascii_printable v then v else 0) (octets_from 0 false raw) in
            mret (strip (strip_nul (before2 chars)))
      end
  end.

(** [(?m)^0x([0-9a-fA-F]{16})\s]; the newline behind a line counts as space. *)
Definition clock_line (line : text) (newline : bool) : option Z :=
  if startswith (u "0x") line && (zlen (ztake 16 (zdrop 2 line)) =? 16)
     && forallb is_hexdigit (ztake 16 (zdrop 2 line))
     && match zdrop 18 line with c :: _ => is_space c | [] => newline end
  then int_hex (ztake 16 (zdrop 2 line)) else None.
Fixpoint clock_values (lines : list text) : list Z :=
  match lines with
  | [] => []
  | [l] => match clock_line l false with Some v => [v] | None => [] end
  | l :: lines => match clock_line l true with Some v => [v] | None => [] end ++ clock_values lines
  end.
Definition serial_hex_clock_bounds (t : text) : option (Z * Z) :=
  match clock_values (split1 10 t) with
  | [] => None
  | v :: vs => Some (v, List.last vs v)
  end.

(** [(?im)^(?:Migration\s+)?Status:\s*([a-z-]+)\s*$]. *)
Definition is_status_char (c : Z) : bool := is_lower c || is_upper c || (c =? 45).
Definition status_here (s : text) : option text :=
  if startswith (u "status:") (lower (ztake 7 s)) then
    match span is_status_char (lstrip (zdrop 7 s)) with
    | ([], _) => None
    | (w, r) =>
        let '(sp, r') := span is_space r in
        if bool_decide (10 ∈ sp) || bool_decide (r' = []) then Some (lower w) else None
    end
  else None.
Definition status_line (s : text) : option text :=
  match (if startswith (u "migration") (lower (ztake 9 s)) then
           match span is_space (zdrop 9 s) with
           | ([], _) => None
           | (_, r) => status_here r
           end
         else None) with
  | Some w => Some w
  | None => status_here s
  end.
Fixpoint migration_search (start : bool) (s : text) : text :=
  match (if start then status_line s else None), s with
  | Some w, _ => w
  | None, [] => []
  | None, c :: s => migration_search (c =? 10) s
  end.
Definition parse_migration_status (s : text) : text := migration_search true s.

(** ** The command line of a running process

    Strings stay bytes: [surrogateescape] decoding is injective. *)

(** [take_string]: the bytes up to the next NUL, and what follows it. *)
Fixpoint take_string (raw : list byte) : option (list byte * list byte) :=
  match raw with
  | [] => None
  | x00 :: raw => Some ([], raw)
  | c :: raw => match take_string raw with Some (v, r) => Some (c :: v, r) | None => None end
  end.
Definition take_or_raise (raw : list byte) : res (list byte * list byte) :=
  opt_or (take_string raw) (RuntimeError "unterminated kern.procargs2 string").
Definition skip_nuls (raw : list byte) : list byte := dropwhile (λ c, bool_decide (c = x00)) raw.

Fixpoint take_strings (n : nat) (raw : list byte) : res (list (list byte) * list byte) :=
  match n with
  | O => Ok ([], raw)
  | S n => '(v, raw) ← take_or_raise raw; '(vs, raw) ← take_strings n raw; Ok (v :: vs, raw)
  end.

(** [key, value = item.split(b"=", 1)], for an item that holds a [=]. *)
Definition env_item (item : list byte) : option (list byte * list byte) :=
  if contains [x3d] item then Some (before x3d item, zdrop (zlen (before x3d item) + 1) item) else None.

Fixpoint take_env (fuel : nat) (raw : list byte) (env : list (list byte * list byte))
  : res (list (list byte * list byte)) :=
  match fuel with
  | O => Raise OutOfFuel
  | S fuel =>
      match raw with
      | [] => Ok env
      | _ =>
          '(item, raw) ← take_or_raise raw;
          if bool_decide (item = []) then Ok env
          else take_env fuel raw (match env_item item with Some (k, v) => dset k v env | None => env end)
      end
  end.

(** ["=i"]: the signed count. *)
Definition signed32 (n : Z) : Z := if 2 ^ 31 <=? n then n - 2 ^ 32 else n.

(** The [kern.procargs2] buffer; every string takes a byte, so its length
    bounds the loop over the environment. *)
Definition parse_procargs2 (raw : list byte)
  : res (list (list byte) * list (list byte * list byte)) :=
  raise_if zlen raw <? 4 with RuntimeError "kern.procargs2 returned a short buffer" ;;
  n ← unpack_from_I raw 0;
  let argc := signed32 n in
  '(_, raw') ← take_or_raise (zdrop 4 raw);
  '(argv, raw') ← take_strings (Z.to_nat argc) (skip_nuls raw');
  env ← take_env (S (length raw)) (skip_nuls raw') [];
  Ok (argv, env).

(** The [/proc] files of the other hosts. *)
Definition parse_proc (cmdline environ : list byte) : list (list byte) * list (list byte * list byte) :=
  (List.filter (λ x, negb (bool_decide (x = []))) (split1 x00 cmdline),
   foldl (λ d x, match env_item x with Some (k, v) => dset k v d | None => d end) []
     (split1 x00 environ)).

(** ** [create_checkpoint.py]: the marker's line and the ownership checks *)

(** The bounds of the line around a match at [start, stop). *)
Fixpoint rfind_newline (i : Z) (s : text) (found : Z) (stop : Z) : Z :=
  match s with
  | [] => found
  | c :: s => if stop <=? i then found else rfind_newline (i + 1) s (if c =? 10 then i else found) stop
  end.
Definition marker_line (serial_text : text) (start stop : Z) : text :=
  let line_start := rfind_newline 0 serial_text (-1) start + 1 in
  let line_end := match find [10] (zdrop stop serial_text) with
                  | Some k => stop + k | None => zlen serial_text end in
  slice line_start line_end serial_text.

Definition model_env (d : list (text * text)) : list (text * text) :=
  List.filter (λ kv, startswith (u "DARWIN_") kv.1 || startswith (u "GXFSTAT_") kv.1) d.

(** Equality of dicts: the same value under every key. *)
Definition dict_eqb (d d' : list (text * text)) : bool :=
  forallb (λ kv, bool_decide (dget kv.1 d' = dget kv.1 d)) d
  && forallb (λ kv, bool_decide (dget kv.1 d = dget kv.1 d')) d'.

(** [Path(p).name] and the checks before the first monitor command. *)
Definition path_name (p : text) : text := List.last (List.filter (λ w, negb (bool_decide (w = []))) (split1 47 p)) [].
Definition check_source (resolve : text → text) (live_argv argv : list text)
    (live_environ environ : list (text * text)) (monitor disk : text) : res unit :=
  raise_if bool_decide (live_argv = [])
           || negb (contains (u "qemu-system-aarch64") (path_name (List.hd [] live_argv)))
    with RuntimeError "pid is not qemu-system-aarch64" ;;
  raise_if negb (bool_decide (live_argv = argv))
    with RuntimeError "live QEMU argv differs from the recorded launch manifest" ;;
  raise_if negb (dict_eqb (model_env live_environ) environ)
    with RuntimeError "live QEMU Darwin-model environment differs from the launch manifest" ;;
  let monitor_paths := map (λ i, resolve (before 44 (zdrop 5 i))) (List.filter (startswith (u "unix:")) argv) in
  let disk_paths := concat (map (λ i,
    let parts := split1 44 i in
    if bool_decide (u "id=ans" ∈ parts)
    then map (λ p, resolve (zdrop 5 p)) (List.filter (startswith (u "file=")) parts) else []) argv) in
  raise_if negb (bool_decide (monitor ∈ monitor_paths)) with RuntimeError "pid does not own monitor" ;;
  raise_if negb (bool_decide (disk ∈ disk_paths)) with RuntimeError "pid does not use disk" ;;
  Ok tt.

(** ** [restore_checkpoint.py] *)

Definition BOOT_PATTERNS : list text :=
  map u ["Darwin Kernel Version"; "Darwin Bootstrapper Version"; "launchd[1]"].

(** [key.partition("=")] on the options; the key pattern
    [(?:DARWIN_|GXFSTAT_)[A-Za-z0-9_]+]. *)
Definition model_key (key : text) : bool :=
  let ok p := startswith p key && (zlen p <? zlen key) && forallb is_word (zdrop (zlen p) key) in
  ok (u "DARWIN_") || ok (u "GXFSTAT_").
Definition model_env_override (d : list (text * text)) (item : text) : res (list (text * text)) :=
  let key := before 61 item in
  raise_if bool_decide (61 ∉ item) || negb (model_key key)
    with ValueError "--model-env requires a DARWIN_/GXFSTAT_ KEY=VALUE" ;;
  Ok (dset key (zdrop (zlen key + 1) item) d).
Definition parse_model_env_overrides (values : list text) : res (list (text * text)) :=
  res_foldl model_env_override [] values.

(** [manifest.get("source_cpu_index")]: absent, an integer, or something else;
    [inventory]: the text of the CPU inventory, when the manifest names one. *)
Inductive cpu_field := CpuAbsent | CpuInt (z : Z) | CpuOther.
Definition checkpoint_source_cpu (field : cpu_field) (inventory : option text) : res Z :=
  index ← match field with
          | CpuAbsent => match inventory with
                         | Some t => n ← selected_cpu_index t; Ok (CpuInt n)
                         | None => Ok (CpuInt 0)
                         end
          | f => Ok f
          end;
  match index with
  | CpuInt n => raise_if n <? 0 with RuntimeError "invalid source CPU index" ;; Ok n
  | _ => Raise (RuntimeError "invalid source CPU index")
  end.

(** A response read while [activate_paused_disks] waits for command [index]. *)
Record qmp_response := QmpResponse { qr_id : option Z; qr_error : bool; qr_return : bool }.
Fixpoint await_response (index : Z) (responses : list qmp_response) : res (list qmp_response) :=
  match responses with
  | [] => Raise (RuntimeError "QMP closed before block activation")
  | r :: responses =>
      if negb (bool_decide (qr_id r = Some index)) then await_response index responses
      else
        raise_if qr_error r with RuntimeError "QMP error" ;;
        raise_if negb (qr_return r) with RuntimeError "invalid QMP response" ;;
        Ok responses
  end.
(** [greeting]: whether the first line holds ["QMP"]. *)
Definition activate_paused_disks (greeting : bool) (responses : list qmp_response) : res unit :=
  raise_if negb greeting with RuntimeError "invalid QMP greeting" ;;
  rs ← await_response 0 responses;
  _ ← await_response 1 rs;
  Ok tt.

(** The environment of the new process. *)
Definition restore_env (host saved overrides : list (text * text)) : list (text * text) :=
  let env := List.filter (λ kv, negb (startswith (u "DARWIN_") kv.1) && negb (startswith (u "GXFSTAT_") kv.1)) host in
  let env := foldl (λ d kv, dset kv.1 kv.2 d) env saved in
  foldl (λ d kv, dset kv.1 kv.2 d) env overrides.

(** The serial scan: chunks as they appear, a tail of 32 bytes carried over. *)
Fixpoint serial_scan (tail_ : list byte) (chunks : list (list byte)) : bool :=
  match chunks with
  | [] => false
  | c :: chunks =>
      let scan := tail_ ++ c in
      contains (b "panic(cpu") scan || serial_scan (zdrop (zlen scan - 32) scan) chunks
  end.

(** Line-anchored counts; a line's own newline counts as the space behind it. *)
Definition count_lines (f : text → bool → bool) (t : text) : Z :=
  let fix go lines := match lines with
                      | [] => 0
                      | [l] => if f l false then 1 else 0
                      | l :: lines => (if f l true then 1 else 0) + go lines
                      end in
  go (split1 10 t).
(** [needle] in the line, followed by a space or the newline. *)
Fixpoint then_space (needle : text) (line : text) (newline : bool) : bool :=
  (startswith needle line
   && match zdrop (zlen needle) line with c :: _ => is_space c | [] => newline end)
  || match line with [] => false | _ :: line => then_space needle line newline end.
Fixpoint then_later (p q line : text) : bool :=
  (startswith p line && contains q (zdrop (zlen p) line))
  || match line with [] => false | _ :: line => then_later p q line end.

Record traffic := Traffic {
  ans_reads : Z; ans_writes : Z; sks_replies : Z; dcp_messages : Z; iomfb_messages : Z;
}.
Definition count_traffic (qemu_text : text) : traffic :=
  Traffic
    (count_lines (λ l nl, startswith (u "ans(") l && then_space (u "): READ") (zdrop 4 l) nl) qemu_text)
    (count_lines (λ l nl, startswith (u "ans(") l && then_space (u "): WRITE") (zdrop 4 l) nl) qemu_text)
    (count_lines (λ l _, startswith (u "sep(") l && then_later (u "): sks code ") (u " replied with ") (zdrop 4 l)) qemu_text)
    (count_lines (λ l _, startswith (u "dcp:") l || startswith (u "afk(") l) qemu_text)
    (count_lines (λ l _, startswith (u "iomfb:") l) qemu_text).

Record acceptance := Acceptance {
  different_qemu_process : bool; exact_pc_before_resume : bool; execution_progressed : bool;
  no_repeated_boot_banner : bool; no_xnu_panic : bool; no_sptm_panic : bool;
  post_resume_serial_activity : bool; serial_clock_continued : bool;
  ans_read_and_write_traffic : bool; sks_completed_request : bool; dcp_and_iomfb_traffic : bool;
}.
Record observation := Observation {
  ob_pid : Z; ob_source_pid : Z; ob_restored_pc : text; ob_source_pc : text; ob_after_pc : text;
  ob_sptm_panic : text; ob_serial : list byte; ob_qemu : list byte; ob_source_clock : option Z;
}.
Definition first_panic (serial_text : text) : text :=
  List.hd [] (List.filter (contains (u "panic(cpu")) (splitlines serial_text)).
Definition judge (ob : observation) : acceptance :=
  let serial_text := utf8_replace (ob_serial ob) in
  let t := count_traffic (utf8_replace (ob_qemu ob)) in
  Acceptance
    (negb (ob_pid ob =? ob_source_pid ob))
    (bool_decide (ob_restored_pc ob = ob_source_pc ob))
    (negb (bool_decide (ob_after_pc ob = ob_restored_pc ob)))
    (negb (existsb (λ p, contains p serial_text) BOOT_PATTERNS))
    (bool_decide (first_panic serial_text = []))
    (bool_decide (ob_sptm_panic ob = []))
    (negb (bool_decide (ob_serial ob = [])))
    (match ob_source_clock ob, serial_hex_clock_bounds serial_text with
     | Some s, Some (f, l) => (s <=? f) && (f <=? l)
     | _, _ => false
     end)
    (negb (ans_reads t =? 0) && negb (ans_writes t =? 0))
    (negb (sks_replies t =? 0))
    (negb (dcp_messages t =? 0) && negb (iomfb_messages t =? 0)).

(** The command line that is started: the rewritten one with the chosen
    emulator, display and monitor socket. *)
Fixpoint set_display (display : text) (argv : list text) : res (list text) :=
  match argv with
  | [] => Raise (ValueError "list.index")
  | a :: rest =>
      if bool_decide (a = u "-display") then
        match rest with [] => Raise IndexError | _ :: rest => Ok (a :: display :: rest) end
      else r ← set_display display rest; Ok (a :: r)
  end.
Definition launch_argv (resolve : text → text) (source : list text) (ep : endpoints) (qemu : text)
    (display : option text) (leave_paused : bool) (qmp : text) : res (list text) :=
  argv ← restore_argv resolve source ep;
  let argv := match argv with [] => [] | _ :: rest => qemu :: rest end in
  argv ← match display with
         | None => Ok argv
         | Some d => if bool_decide (u "-display" ∈ argv) then set_display d argv
                     else Ok (argv ++ [u "-display"; d])
         end;
  Ok (if leave_paused then argv ++ [u "-qmp"; u "unix:" ++ qmp ++ u ",server=on,wait=off"] else argv).

(** ** The rewritten command line *)

(** Evaluates the tests on closed texts. *)
Ltac eval_bd :=
  repeat match goal with
  | |- context [bool_decide ?P] =>
      let r := eval vm_compute in (bool_decide P) in
      match r with
      | true => change (bool_decide P) with true
      | false => change (bool_decide P) with false
      end
  end; cbv iota.

Section argv.
Context (resolve : text → text) (ep : endpoints) (devices : list text).

(** The command line as the loop reads it: options whose value it handles,
    with the value, and single arguments. *)
Definition paired (a : text) : bool :=
  bool_decide (a ∈ map u ["-incoming"; "-gdb"; "-pidfile"; "-qmp"])
  || bool_decide (a ∈ [u "-monitor"; u "-drive"; u "-chardev"; u "-serial"]).
Fixpoint groups (source : list text) : list (list text) :=
  match source with
  | [] => []
  | a :: rest =>
      match rest with
      | [] => [[a]]
      | v :: rest' => if paired a then [a; v] :: groups rest' else [a] :: groups rest
      end
  end.

(** What the loop makes of a group. *)
Definition rewrite_group (g : list text) : res (list text) :=
  match g with
  | [a; v] =>
      if bool_decide (a ∈ dropped_options) then Ok []
      else if bool_decide (a = u "-monitor") then Ok [a; monitor_spec ep]
      else if bool_decide (a = u "-drive") then
        v ← replace_drive_file resolve v (source_disk ep) (restore_disk ep); Ok [a; v]
      else if bool_decide (a = u "-chardev") then
        Ok [a; match rewrite_chardev ep devices v with Some spec => spec | None => v end]
      else Ok [a; if startswith (u "file:") v then u "file:" ++ ep_serial ep else v]
  | [a] => Ok (if bool_decide (a = u "-daemonize") then [] else [a])
  | _ => Ok g
  end.
Definition is_option (name : string) (g : list text) : bool :=
  match g with [a; _] => bool_decide (a = u name) | _ => false end.
(** The group is the disk's drive, and its serial's endpoint. *)
Definition drive_changed (g : list text) : bool :=
  is_option "-drive" g && negb (bool_decide (rewrite_group g = Ok g)).
Definition serial_changed (g : list text) : bool :=
  match g with
  | [a; v] => (bool_decide (a = u "-chardev") && match rewrite_chardev ep devices v with Some _ => true | None => false end)
              || (bool_decide (a = u "-serial") && startswith (u "file:") v)
  | _ => false
  end.

Definition after_groups (s : argv_state) (gs : list (list text)) (out : list (list text)) : argv_state :=
  ArgvState (av_out s ++ concat out) (saw_monitor s || existsb (is_option "-monitor") gs)
    (saw_drive s || existsb drive_changed gs) (saw_serial s || existsb serial_changed gs).

Ltac finish_group :=
  cbn [mbind res_bind]; f_equal;
  unfold push, after_groups, existsb, is_option, drive_changed, serial_changed; eval_bd;
  cbn [concat app andb orb negb is_option]; eval_bd; cbn [andb];
  rewrite ?orb_false_r, ?orb_true_r, ?app_nil_r; try done; match goal with s : argv_state |- _ => by destruct s end.

(** One group of the loop. *)
Lemma restore_pair a v rest s :
  paired a = true →
  restore_from resolve ep devices (a :: v :: rest) s
  = (g ← rewrite_group [a; v]; restore_from resolve ep devices rest (after_groups s [[a; v]] [g])).
Proof.
  unfold paired. change (map u _) with dropped_options. intros [Hd%bool_decide_eq_true|Ho%bool_decide_eq_true]%orb_true_iff.
  - cbn [restore_from]. unfold rewrite_group, after_groups.
    apply list_elem_of_In in Hd. cbn [dropped_options map In] in Hd.
    destruct Hd as [<-|[<-|[<-|[<-|[]]]]]; eval_bd; finish_group.
  - apply list_elem_of_In in Ho. cbn [In] in Ho.
    destruct Ho as [<-|[<-|[<-|[<-|[]]]]]; cbn [restore_from]; unfold rewrite_group at 1; eval_bd.
    + finish_group.
    + destruct (replace_drive_file resolve v _ _) as [w|e] eqn:Ew; cbn [mbind res_bind]; [|done].
      f_equal. unfold after_groups, existsb, is_option, drive_changed, serial_changed, rewrite_group. eval_bd.
      cbn [concat app andb orb negb is_option]. eval_bd. rewrite Ew. cbn [mbind res_bind andb].
      rewrite !orb_false_r. do 3 f_equal. apply bool_decide_ext. split; [by intros ->|by intros [= ->]].
    + destruct (rewrite_chardev ep devices v) as [w|] eqn:Ew; cbn [mbind res_bind]; f_equal;
        unfold push, after_groups, existsb, is_option, drive_changed, serial_changed; eval_bd;
        cbn [concat app andb orb negb is_option]; eval_bd; rewrite Ew; cbn [andb];
        by rewrite ?orb_false_r, ?orb_true_r.
    + destruct (startswith (u "file:") v) eqn:Ew; cbn [mbind res_bind]; f_equal;
        unfold push, after_groups, existsb, is_option, drive_changed, serial_changed; eval_bd;
        cbn [concat app andb orb negb is_option]; eval_bd; rewrite ?Ew; cbn [andb];
        by rewrite ?orb_false_r, ?orb_true_r.
Qed.

Lemma bool_decide_notin (a x : text) (l : list text) :
  bool_decide (a ∈ l) = false → x ∈ l → bool_decide (a = x) = false.
Proof.
  intros Hl%bool_decide_eq_false Hx. apply bool_decide_eq_false. intros ->. done.
Qed.

Lemma restore_single a v rest s :
  paired a = false →
  restore_from resolve ep devices (a :: v :: rest) s
  = (g ← rewrite_group [a]; restore_from resolve ep devices (v :: rest) (after_groups s [[a]] [g])).
Proof.
  unfold paired. change (map u _) with dropped_options. intros [Hd Ho]%orb_false_iff.
  cbn [restore_from]. fold restore_from. rewrite Hd.
  rewrite !(bool_decide_notin _ _ _ Ho) by (apply list_elem_of_In; cbn [In]; tauto).
  unfold rewrite_group, after_groups, drive_changed, is_option, serial_changed, existsb, push.
  cbn [mbind res_bind concat app andb orb]. rewrite !orb_false_r.
  destruct (bool_decide (a = u "-daemonize")); rewrite app_nil_r; by destruct s.
Qed.

Lemma after_groups_app s gs out gs' out' :
  after_groups (after_groups s gs out) gs' out' = after_groups s (gs ++ gs') (out ++ out').
Proof. unfold after_groups. cbn. by rewrite !existsb_app, concat_app, app_assoc, !orb_assoc. Qed.

Lemma groups_cons a v rest :
  groups (a :: v :: rest) = if paired a then [a; v] :: groups rest else [a] :: groups (v :: rest).
Proof. done. Qed.
Lemma res_map_cons {A B} (f : A → res B) x l :
  res_map f (x :: l) = (y ← f x; ys ← res_map f l; Ok (y :: ys)).
Proof. done. Qed.

(** The loop is a map over the groups. *)
Lemma restore_from_groups n source s :
  (length source ≤ n)%nat →
  restore_from resolve ep devices source s
  = (out ← res_map rewrite_group (groups source); Ok (after_groups s (groups source) out)).
Proof.
  revert source s. induction n as [|n IH]; intros source s Hn.
  - destruct source; [|cbn in Hn; lia]. cbn. unfold after_groups. cbn.
    rewrite app_nil_r, !orb_false_r. by destruct s.
  - destruct source as [|a [|v rest]].
    + cbn. unfold after_groups. cbn. rewrite app_nil_r, !orb_false_r. by destruct s.
    + cbn. unfold after_groups. cbn. rewrite !orb_false_r, app_nil_r.
      destruct (bool_decide _); cbn; [rewrite app_nil_r; by destruct s|done].
    + rewrite groups_cons. cbn [length] in Hn. destruct (paired a) eqn:Ep.
      * rewrite restore_pair by done. rewrite res_map_cons, bind_assoc. apply bind_ext. intros g.
        rewrite IH by lia. rewrite !bind_assoc. apply bind_ext. intros out. rewrite !ok_bind.
        by rewrite after_groups_app.
      * rewrite restore_single by done. rewrite res_map_cons, bind_assoc. apply bind_ext. intros g.
        rewrite IH by (cbn; lia). rewrite !bind_assoc. apply bind_ext. intros out. rewrite !ok_bind.
        by rewrite after_groups_app.
Qed.
End argv.

Lemma replace_file_spec resolve parts old new r :
  replace_file resolve parts old new = Some (Ok r) →
  ∃ p f q, parts = p ++ f :: q ∧ Forall (λ x, startswith (u "file=") x = false) p
    ∧ startswith (u "file=") f = true ∧ resolve (zdrop 5 f) = resolve old
    ∧ r = p ++ (u "file=" ++ new) :: q.
Proof.
  revert r. induction parts as [|x parts IH]; intros r H; cbn [replace_file] in H; [done|].
  destruct (startswith (u "file=") x) eqn:Ex.
  - destruct (bool_decide _) eqn:Eb; [|done]. injection H as <-. apply bool_decide_eq_true in Eb.
    exists [], x, parts. repeat split; [constructor|done|done].
  - destruct (replace_file resolve parts old new) as [[r'|]|] eqn:E; try done.
    cbn [mbind res_bind] in H. injection H as <-. destruct (IH r' eq_refl) as (p & f & q & -> & Hp & Hf & Hr & ->).
    exists (x :: p), f, q. repeat split; try done. by constructor.
Qed.

(** *** What a group is to become

    The abstract specification of the rewriting, group by group. *)

(** The rewritten disk: only the first [file=] part of the spec changes, and it
    named the captured disk. *)
Definition disk_moved (resolve : text → text) (ep : endpoints) (v w : text) : Prop :=
  ∃ p f q, split1 44 v = p ++ f :: q ∧ Forall (λ x, startswith (u "file=") x = false) p ∧ startswith (u "file=") f = true
    ∧ resolve (zdrop 5 f) = resolve (source_disk ep)
    ∧ w = join_commas (p ++ (u "file=" ++ restore_disk ep) :: q).
(** The spec of a socket a serial port of the command line is connected to; it
    keeps its parts but the path and the log file, which are the new ones. *)
Definition serial_backend (argv : list text) (v : text) : Prop :=
  head (split1 44 v) = Some (u "socket")
  ∧ ∃ i device, argv !! i = Some (u "-serial") ∧ argv !! S i = Some (u "chardev:" ++ device)
      ∧ u "id=" ++ device ∈ split1 44 v.
Definition host_part (part : text) : bool := startswith (u "path=") part || startswith (u "logfile=") part.
Definition backend_moved (ep : endpoints) (v w : text) : Prop :=
  w = join_commas (List.filter (λ part, negb (host_part part)) (split1 44 v) ++ [u "path=" ++ ep_uart ep; u "logfile=" ++ ep_serial ep]).

Inductive restored (resolve : text → text) (ep : endpoints) (argv : list text) : list text → list text → Prop :=
  | rs_dropped a v : a ∈ map u ["-incoming"; "-gdb"; "-pidfile"; "-qmp"] → restored resolve ep argv [a; v] []
  | rs_daemonize : restored resolve ep argv [u "-daemonize"] []
  | rs_monitor v :
      restored resolve ep argv [u "-monitor"; v] [u "-monitor"; u "unix:" ++ ep_monitor ep ++ u ",server,nowait"]
  | rs_disk v w :
      u "id=ans" ∈ split1 44 v → disk_moved resolve ep v w → restored resolve ep argv [u "-drive"; v] [u "-drive"; w]
  | rs_drive v : u "id=ans" ∉ split1 44 v → restored resolve ep argv [u "-drive"; v] [u "-drive"; v]
  | rs_backend v w :
      serial_backend argv v → backend_moved ep v w → restored resolve ep argv [u "-chardev"; v] [u "-chardev"; w]
  | rs_chardev v : ¬ serial_backend argv v → restored resolve ep argv [u "-chardev"; v] [u "-chardev"; v]
  | rs_log v :
      startswith (u "file:") v = true → restored resolve ep argv [u "-serial"; v] [u "-serial"; u "file:" ++ ep_serial ep]
  | rs_serial v : startswith (u "file:") v = false → restored resolve ep argv [u "-serial"; v] [u "-serial"; v]
  | rs_same a : a ≠ u "-daemonize" → restored resolve ep argv [a] [a].

Lemma serial_devices_spec argv d :
  d ∈ serial_devices argv ↔ ∃ i : nat, argv !! i = Some (u "-serial") ∧ argv !! S i = Some (u "chardev:" ++ d).
Proof.
  induction argv as [|a [|v rest] IH]; [split; [by intros ?%elem_of_nil|by intros (i & [=] & _)]| |].
  { split; [by intros ?%elem_of_nil|]. by intros ([|i] & _ & [=]). }
  assert (d ∈ serial_devices (a :: v :: rest) ↔ a = u "-serial" ∧ v = u "chardev:" ++ d ∨ d ∈ serial_devices (v :: rest)) as ->.
  { change (serial_devices (a :: v :: rest)) with (if bool_decide (a = u "-serial") && startswith (u "chardev:") v
      then zdrop 8 v :: serial_devices (v :: rest) else serial_devices (v :: rest)).
    case_bool_decide as Ha; cbn [andb]; [|naive_solver]. destruct (startswith (u "chardev:") v) eqn:Ev.
    - apply startswith_spec in Ev as [r ->]. rewrite zdrop_app_exact by done. rewrite elem_of_cons.
      split; [intros [->|?]; auto|]. intros [[_ E]|?]; [|auto]. left. by apply app_inv_head in E.
    - split; [auto|]. intros [[_ ->]|?]; [|done]. rewrite (proj2 (startswith_spec _ _)) in Ev; [done|by exists d]. }
  rewrite IH. split.
  - intros [[-> ->]|(i & H1 & H2)]; [by exists O|by exists (S i)].
  - intros ([|i] & H1 & H2); [left; by injection H1 as ->; injection H2 as ->|right; by exists i].
Qed.
Lemma rewrite_chardev_spec ep argv v :
  match rewrite_chardev ep (serial_devices argv) v with
  | Some w => serial_backend argv v ∧ backend_moved ep v w
  | None => ¬ serial_backend argv v
  end.
Proof.
  unfold rewrite_chardev. assert (List.hd [] (split1 44 v) = u "socket" ↔ head (split1 44 v) = Some (u "socket")) as Hhd.
  { destruct (split1 44 v); [done|]. cbn. split; [by intros ->|by intros [= ->]]. }
  assert (existsb (λ d, bool_decide (u "id=" ++ d ∈ split1 44 v)) (serial_devices argv) = true
    ↔ ∃ i d, argv !! i = Some (u "-serial") ∧ argv !! S i = Some (u "chardev:" ++ d) ∧ u "id=" ++ d ∈ split1 44 v) as Hex.
  { rewrite existsb_exists. split.
    - intros (d & Hd%list_elem_of_In & Hin%bool_decide_eq_true). apply serial_devices_spec in Hd as (i & H1 & H2). eauto.
    - intros (i & d & H1 & H2 & Hin). exists d. split; [|by apply bool_decide_eq_true]. apply list_elem_of_In, serial_devices_spec. eauto. }
  assert (serial_backend argv v ↔ List.hd [] (split1 44 v) = u "socket"
    ∧ existsb (λ d, bool_decide (u "id=" ++ d ∈ split1 44 v)) (serial_devices argv) = true) as Hb.
  { unfold serial_backend. by rewrite Hhd, Hex. }
  cbv zeta. case_bool_decide as Hs; cbn [andb]; [|by intros [? _]%Hb].
  destruct (existsb _ _) eqn:E; [|by intros [_ ?]%Hb]. split; [by apply Hb|]. unfold backend_moved. do 2 f_equal.
  apply List.filter_ext. intros part. cbv beta. unfold host_part. by destruct (startswith (u "path=") part).
Qed.
Lemma groups_shape l g : g ∈ groups l → (∃ a, g = [a]) ∨ ∃ a v, g = [a; v] ∧ paired a = true.
Proof.
  assert (∀ n l, (length l ≤ n)%nat → g ∈ groups l → (∃ a, g = [a]) ∨ ∃ a v, g = [a; v] ∧ paired a = true) as Hn; [|by apply (Hn (length l))].
  clear l. induction n as [|n IH]; intros [|a [|v rest]] Hl; cbn [length] in Hl; try lia; [by intros ?%elem_of_nil..| |].
  { intros ->%list_elem_of_singleton. eauto. }
  rewrite groups_cons. destruct (paired a) eqn:Ep; rewrite elem_of_cons; (intros [->|Hin]; [eauto|]);
    (eapply IH; [|exact Hin]); cbn; lia.
Qed.
Lemma groups_concat l : concat (groups l) = l.
Proof.
  assert (∀ n l, (length l ≤ n)%nat → concat (groups l) = l) as Hn; [|by apply (Hn (length l))].
  clear l. induction n as [|n IH]; intros [|a [|v rest]] Hl; cbn [length] in Hl; try lia; [done..|].
  rewrite groups_cons. destruct (paired a); cbn [concat app]; rewrite IH by (cbn; lia); done.
Qed.
Lemma rewrite_group_restored resolve ep argv l g g' :
  g ∈ groups l → rewrite_group resolve ep (serial_devices argv) g = Ok g' → restored resolve ep argv g g'.
Proof.
  intros [[a ->]|(a & v & -> & Hp)]%groups_shape H; unfold rewrite_group in H.
  { injection H as <-. case_bool_decide as Ha; [subst a; apply rs_daemonize|by apply rs_same]. }
  case_bool_decide as Hd; [injection H as <-; by apply rs_dropped|].
  case_bool_decide as Hm; [subst a; injection H as <-; apply rs_monitor|].
  case_bool_decide as Hr; [subst a|].
  { apply bind_Ok in H as (w & Hw & [= <-]). unfold replace_drive_file in Hw. case_bool_decide as Hans.
    - destruct (replace_file _ _ _ _) as [m|] eqn:Em; [|done]. simpl_res.
      apply replace_file_spec in Em as (p & f & q & Hq & Hf & Hf' & Hrs & ->). apply rs_disk; [done|]. by exists p, f, q.
    - injection Hw as <-. by apply rs_drive. }
  case_bool_decide as Hc; [subst a|].
  { injection H as <-. pose proof (rewrite_chardev_spec ep argv v) as Hv.
    destruct (rewrite_chardev _ _ v) as [w|]; [by apply rs_backend; apply Hv|by apply rs_chardev]. }
  assert (a = u "-serial") as ->.
  { unfold paired in Hp. change (map u _) with dropped_options in Hp. rewrite bool_decide_false in Hp by done.
    apply bool_decide_eq_true in Hp. rewrite !elem_of_cons, elem_of_nil in Hp. tauto. }
  destruct (startswith (u "file:") v) eqn:E; injection H as <-; [by apply rs_log|by apply rs_serial].
Qed.

Lemma res_map_elem {A B} (f : A → res B) l k x :
  res_map f l = Ok k → x ∈ l → ∃ y, f x = Ok y ∧ y ∈ k.
Proof.
  intros H%res_map_Ok Hx. apply list_elem_of_lookup in Hx as [i Hi].
  eapply Forall2_lookup_l in H as (y & Hy & Hf); [|exact Hi]. exists y. split; [done|].
  by eapply list_elem_of_lookup_2.
Qed.

(** A group that counts as the disk's drive, and one that counts as its serial. *)
Lemma drive_redirected resolve ep devices argv gs out :
  Forall2 (λ g g', rewrite_group resolve ep devices g = Ok g') gs out → Forall2 (restored resolve ep argv) gs out →
  existsb (drive_changed resolve ep devices) gs = true →
  ∃ i v w, gs !! i = Some [u "-drive"; v] ∧ out !! i = Some [u "-drive"; w]
    ∧ u "id=ans" ∈ split1 44 v ∧ disk_moved resolve ep v w ∧ w ≠ v.
Proof.
  intros Hw Hr (g & Hg%list_elem_of_In & Hd)%existsb_exists. apply list_elem_of_lookup in Hg as [i Hi].
  destruct (Forall2_lookup_l _ _ _ _ _ Hw Hi) as (g' & Hi' & Hgg). pose proof (Forall2_lookup_lr _ _ _ _ _ _ Hr Hi Hi') as Hrs.
  apply andb_true_iff in Hd as [Ho Hd]. destruct g as [|a [|v [|]]]; try done. apply bool_decide_eq_true in Ho as ->.
  apply negb_true_iff, bool_decide_eq_false in Hd. rewrite Hgg in Hd.
  inversion Hrs as [? ? Hin| | |? w Hans Hm| | | | | |]; subst; [apply (bool_decide_pack _) in Hin; by vm_compute in Hin| |done].
  exists i, v, w. split_and!; try done. by intros ->.
Qed.
Lemma serial_redirected ep argv gs :
  existsb (serial_changed ep (serial_devices argv)) gs = true →
  ∃ a v, [a; v] ∈ gs ∧ (a = u "-serial" ∧ startswith (u "file:") v = true ∨ a = u "-chardev" ∧ serial_backend argv v).
Proof.
  intros (g & Hg%list_elem_of_In & Hs)%existsb_exists. destruct g as [|a [|v [|]]]; try done. exists a, v. split; [done|].
  cbn [serial_changed] in Hs. apply orb_true_iff in Hs as [Hs|Hs]; apply andb_true_iff in Hs as [->%bool_decide_eq_true Hs]; [right|by left].
  split; [done|]. pose proof (rewrite_chardev_spec ep argv v) as Hv. destruct (rewrite_chardev _ _ _); [apply Hv|done].
Qed.

(** C34: A restore rewrites only the host side of the captured command line.
    The captured arguments are read as groups, in order and all of them; each
    becomes what the specification [restored] says, by itself: an old incoming
    stream, debugger port, pid file or QMP socket and [-daemonize] go; a
    monitor, a serial log file and the socket behind a serial port get the new
    endpoints (the other parts of that socket's spec stay); in a drive's spec
    with [id=ans] the first [file=] part, which named the captured disk, names the
    restored child; everything else, the guest's machine, CPU, firmware,
    arguments, other drives and sockets, is copied.  Around them come the
    emulator first, then a monitor and [-S] if there is none, the debugger port
    if one is asked for, and the incoming stream, always last.  A result exists
    only if the ANS drive's spec and a serial endpoint were rewritten. *)
Theorem restore_argv_spec resolve head rest ep out :
  restore_argv resolve (head :: rest) ep = Ok out →
  ∃ gs, concat (groups rest) = rest
  ∧ Forall2 (restored resolve ep (head :: rest)) (groups rest) gs
  ∧ (let body := [head] ++ concat gs
                 ++ (if existsb (is_option "-monitor") (groups rest) then []
                     else [u "-monitor"; u "unix:" ++ ep_monitor ep ++ u ",server,nowait"]) in
     out = body ++ (if bool_decide (u "-S" ∈ body) then [] else [u "-S"])
           ++ match gdb_port ep with Some p => [u "-gdb"; u "tcp::" ++ dec p] | None => [] end
           ++ [u "-incoming"; u "file:" ++ ep_state ep])
  ∧ (∃ i v w, groups rest !! i = Some [u "-drive"; v] ∧ gs !! i = Some [u "-drive"; w]
       ∧ u "id=ans" ∈ split1 44 v ∧ disk_moved resolve ep v w ∧ w ≠ v)
  ∧ (∃ a v, [a; v] ∈ groups rest
       ∧ (a = u "-serial" ∧ startswith (u "file:") v = true ∨ a = u "-chardev" ∧ serial_backend (head :: rest) v)).
Proof.
  intros H. unfold restore_argv in H. set (devices := serial_devices (head :: rest)) in H.
  rewrite (restore_from_groups resolve ep devices (length rest)) in H by lia.
  apply bind_Ok in H as (s & Hs & H). apply bind_Ok in Hs as (gs & Hgs & [= <-]).
  cbn [after_groups saw_drive saw_serial saw_monitor av_out orb] in H. simpl_res.
  apply negb_false_iff in Hif, Hif0. apply res_map_Ok in Hgs.
  assert (Forall2 (restored resolve ep (head :: rest)) (groups rest) gs) as Hrs.
  { apply Forall2_same_length_lookup_2; [by eapply Forall2_length|]. intros i g g' Hi Hi'.
    eapply rewrite_group_restored; [by eapply list_elem_of_lookup_2|]. eapply Forall2_lookup_lr in Hgs; [|exact Hi|exact Hi']. exact Hgs. }
  exists gs. split; [apply groups_concat|]. split; [exact Hrs|]. split; [|split].
  - cbv zeta. unfold monitor_spec. destruct (existsb (is_option "-monitor") (groups rest));
      destruct (gdb_port ep); rewrite ?app_nil_r; destruct (bool_decide _); cbn [app];
      rewrite <-?app_assoc, ?app_nil_l; cbn [app]; rewrite ?app_nil_r; done.
  - by eapply drive_redirected.
  - by apply (serial_redirected ep).
Qed.

Definition sample_argv : list text :=
  map u ["qemu-system-aarch64"; "-M"; "darwin"; "-monitor"; "unix:/tmp/a.sock,server,nowait"; "-daemonize";
         "-drive"; "if=none,id=ans,file=/d/old.qcow2,format=qcow2"; "-serial"; "file:/tmp/old.log"; "-qmp";
         "unix:/tmp/q.sock"].
Definition sample_endpoints : endpoints :=
  Endpoints (u "/d/old.qcow2") (u "/d/new.qcow2") (u "/tmp/m.sock") (u "/tmp/s.log") (u "/tmp/u.sock")
    (u "/d/vmstate.bin") None.
Lemma restore_argv_spec_witness :
  ∃ out gs, restore_argv id sample_argv sample_endpoints = Ok out
  ∧ out = map u ["qemu-system-aarch64"; "-M"; "darwin"; "-monitor"; "unix:/tmp/m.sock,server,nowait"; "-drive";
                 "if=none,id=ans,file=/d/new.qcow2,format=qcow2"; "-serial"; "file:/tmp/s.log"; "-S"; "-incoming";
                 "file:/d/vmstate.bin"]
  ∧ Forall2 (restored id sample_endpoints sample_argv) (groups (tail sample_argv)) gs.
Proof.
  destruct (restore_argv_spec id (u "qemu-system-aarch64") (tail sample_argv) sample_endpoints _
              ltac:(vm_compute; reflexivity)) as (gs & _ & Hgs & _).
  eexists _, gs. split; [vm_compute; reflexivity|]. split; [vm_compute; reflexivity|exact Hgs].
Defined.

(** ** The panic scan *)

Section scan.
Context (p : list byte) (Hp : zlen p ≤ 33).

Lemma contains_app_l l k : contains p l = true → contains p (l ++ k) = true.
Proof. rewrite !contains_spec. intros (l1 & l2 & ->). exists l1, (l2 ++ k). by rewrite <-!app_assoc. Qed.
Lemma contains_app_r l k : contains p k = true → contains p (l ++ k) = true.
Proof. rewrite !contains_spec. intros (l1 & l2 & ->). exists (l ++ l1), l2. by rewrite <-!app_assoc. Qed.

(** A new occurrence begins in the last 32 bytes. *)
Lemma contains_tail s r :
  contains p s = false → contains p (s ++ r) = contains p (zdrop (zlen s - 32) s ++ r).
Proof.
  intros Hs. set (n := zlen s - 32). destruct (contains p (zdrop n s ++ r)) eqn:E.
  - rewrite <-(ztake_zdrop n s), <-app_assoc. by apply contains_app_r.
  - apply not_true_is_false. intros H. apply contains_spec in H as (l1 & l2 & H).
    destruct (Z_lt_le_dec (zlen l1) n) as [Hl|Hl].
    + assert (∃ k, s = l1 ++ p ++ k) as [k Hk].
      { exists (drop (length (l1 ++ p)) s). rewrite app_assoc.
        rewrite <-(take_drop (length (l1 ++ p)) s) at 1. f_equal.
        apply (f_equal (take (length (l1 ++ p)))) in H. rewrite app_assoc, take_app_length in H.
        etransitivity; [|exact H]. rewrite take_app_le; [done|].
        unfold n, zlen in *. rewrite length_app. lia. }
      assert (contains p s = true) as Ht by (apply contains_spec; eauto). congruence.
    + assert (contains p (zdrop n s ++ r) = true) as Ht; [|congruence].
      apply contains_spec. exists (zdrop n l1), l2.
      rewrite <-(ztake_zdrop n s), <-app_assoc in H. rewrite <-(ztake_zdrop n l1), <-app_assoc in H.
      assert (length (ztake n s) = length (ztake n l1)) as Hz.
      { apply Nat2Z.inj. change (zlen (ztake n s) = zlen (ztake n l1)). rewrite !zlen_ztake.
        pose proof (zlen_nonneg l1). pose proof (zlen_nonneg s). unfold n in *. lia. }
      apply app_inj_1 in H as [_ H]; [exact H|exact Hz].
Qed.
End scan.

Lemma serial_scan_from t chunks :
  contains (b "panic(cpu") t = false →
  serial_scan t chunks = contains (b "panic(cpu") (t ++ concat chunks).
Proof.
  revert t. induction chunks as [|c chunks IH]; intros t Ht; cbn [serial_scan concat].
  { by rewrite app_nil_r. }
  destruct (contains (b "panic(cpu") (t ++ c)) eqn:Ec; cbn [orb].
  - symmetry. rewrite app_assoc. by apply contains_app_l.
  - rewrite IH.
    + rewrite app_assoc. symmetry. apply contains_tail; [|done]. vm_compute. discriminate.
    + apply not_true_is_false. intros H. apply (contains_app_r _ (ztake (zlen (t ++ c) - 32) (t ++ c))) in H.
      rewrite ztake_zdrop in H. congruence.
Qed.

(** The observer misses no kernel panic.  However the serial output is cut
    into the chunks it happens to read, the scan that keeps only the last 32
    bytes stops with a panic exactly when the marker occurs in the whole
    output. *)
Theorem serial_scan_complete chunks :
  serial_scan [] chunks = contains (b "panic(cpu") (concat chunks).
Proof. by apply serial_scan_from. Qed.

(** ** The pinned disk chain *)

Lemma hex_of_bytes_inj l k : hex_of_bytes l = hex_of_bytes k → l = k.
Proof. intros H. pose proof (fromhex_hex l) as Hl. rewrite H, fromhex_hex in Hl. by injection Hl. Qed.

Lemma verify_entry_Ok files e :
  verify_entry files tt e = Ok tt
  ↔ ∃ data, files (ce_path e) = Some data ∧ zlen data = ce_bytes e ∧ sha256_hex data = ce_sha256 e.
Proof.
  unfold verify_entry. destruct (files (ce_path e)) as [data|]; [|split; [done|by intros (? & ? & _)]].
  destruct (zlen data =? ce_bytes e) eqn:El; cbn [negb]; [|split; [done|intros (? & [= <-] & ? & _); lia]].
  destruct (bool_decide (sha256_hex data = ce_sha256 e)) eqn:Eb; cbn [negb].
  - apply bool_decide_eq_true in Eb. split; [|done]. exists data. repeat split; [lia|done].
  - apply bool_decide_eq_false in Eb. split; [done|]. by intros (? & [= <-] & _ & ?).
Qed.
Lemma verify_entries files chain :
  res_foldl (verify_entry files) tt chain = Ok tt
  ↔ Forall (λ e, ∃ data, files (ce_path e) = Some data ∧ zlen data = ce_bytes e ∧ sha256_hex data = ce_sha256 e) chain.
Proof.
  induction chain as [|e chain IH]; [by cbn|]. rewrite Forall_cons, <-IH, <-verify_entry_Ok.
  change (res_foldl (verify_entry files) tt (e :: chain))
    with (c ← verify_entry files tt e; res_foldl (verify_entry files) c chain).
  destruct (verify_entry files tt e) as [[]|]; cbn [mbind res_bind]; [tauto|]. split; [done|by intros [? _]].
Qed.

Lemma backing_chain_recorded resolve files info disk chain :
  qcow2_backing_chain resolve files info disk = Ok chain →
  chain ≠ [] ∧ (ce_path <$> head chain) = Some (resolve disk)
  ∧ Forall (λ e, ∃ data, files (ce_path e) = Some data ∧ ce_bytes e = zlen data ∧ ce_sha256 e = sha256_hex data) chain.
Proof.
  intros H. unfold qcow2_backing_chain in H. destruct info as [[|i info]|]; [done| |done].
  simpl_res. destruct r as [|e r]; [done|]. destruct (bool_decide _) eqn:E; [|done]. apply bool_decide_eq_true in E.
  simpl_res. split; [done|]. split; [by cbn; rewrite E|].
  apply res_map_Ok in Hr. clear -Hr. induction Hr as [|? ? ? ? He _ IH]; constructor; [|done].
  unfold chain_entry_of in He. destruct (files _) as [data|] eqn:E; [|done]. simpl_res. eauto.
Qed.

(** A captured disk chain verifies exactly on files that are the captured
    ones up to SHA-256: for a chain [qcow2_backing_chain] recorded from the
    host's files, a later verification succeeds if and only if every member
    still exists with the length and digest of the file that was captured. *)
Theorem backing_chain_pinned resolve files files' info disk chain :
  qcow2_backing_chain resolve files info disk = Ok chain →
  verify_backing_chain files' chain = Ok tt
  ↔ Forall (λ e, ∃ data data', files (ce_path e) = Some data ∧ files' (ce_path e) = Some data'
                   ∧ zlen data' = zlen data ∧ sha256 data' = sha256 data) chain.
Proof.
  intros (Hne & _ & Hc)%backing_chain_recorded.
  unfold verify_backing_chain. rewrite bool_decide_false by done. rewrite verify_entries.
  clear -Hc. induction Hc as [|e chain (data & Hd & Hb & Hs) _ IH]; [by split|].
  rewrite !Forall_cons, IH. apply and_iff_compat_r. rewrite Hb, Hs. split.
  - intros (data' & ? & ? & Hsha). exists data, data'. repeat split; try done. by apply hex_of_bytes_inj.
  - intros (d & data' & ? & ? & ? & Hsha). assert (d = data) as -> by congruence.
    exists data'. repeat split; try done. unfold sha256_hex. by rewrite Hsha.
Qed.

Definition sample_files (p : text) : option (list byte) :=
  if bool_decide (p = u "/d/top.qcow2") then Some (b "QFI child")
  else if bool_decide (p = u "/d/base.dmg") then Some (b "base") else None.
Lemma backing_chain_pinned_witness :
  ∃ chain,
    qcow2_backing_chain id sample_files
      (Some [ImgInfo (u "/d/top.qcow2") (u "qcow2") 4096; ImgInfo (u "/d/base.dmg") (u "raw") 4096]) (u "/d/top.qcow2")
    = Ok chain
    ∧ verify_backing_chain sample_files chain = Ok tt.
Proof.
  eexists. split; [vm_compute; reflexivity|].
  eapply (backing_chain_pinned id sample_files sample_files
            (Some [ImgInfo (u "/d/top.qcow2") (u "qcow2") 4096; ImgInfo (u "/d/base.dmg") (u "raw") 4096])
            (u "/d/top.qcow2")); [vm_compute; reflexivity|].
  repeat constructor; eexists _, _; repeat split; vm_compute; reflexivity.
Defined.

(** ** The process arguments *)

Lemma take_string_app v r : x00 ∉ v → take_string (v ++ x00 :: r) = Some (v, r).
Proof.
  induction v as [|c v IH]; intros Hv; [done|]. rewrite not_elem_of_cons in Hv. destruct Hv as [Hc Hv].
  cbn [app take_string]. rewrite IH by done. destruct c; done.
Qed.
Definition cstrings (vs : list (list byte)) : list byte := concat (map (λ v, v ++ [x00]) vs).
Lemma take_strings_app vs r :
  Forall (λ v, x00 ∉ v) vs → take_strings (length vs) (cstrings vs ++ r) = Ok (vs, r).
Proof.
  induction 1 as [|v vs Hv _ IH]; [done|]. cbn [length take_strings]. unfold cstrings in *. cbn [map concat].
  rewrite <-!app_assoc. cbn [app]. unfold take_or_raise. rewrite take_string_app by done. cbn [opt_or].
  rewrite ok_bind. cbv beta iota. rewrite IH. done.
Qed.
Lemma skip_nuls_app k l : (∀ c, head l = Some c → c ≠ x00) → skip_nuls (replicate k x00 ++ l) = l.
Proof.
  intros Hl. induction k as [|k IH]; [|exact IH]. cbn. destruct l as [|c l]; [done|].
  cbn. rewrite bool_decide_false; [done|]. by apply Hl.
Qed.

(** A string that starts with a byte other than NUL is not skipped. *)
Lemma skip_nuls_cons c l : c ≠ x00 → skip_nuls (c :: l) = c :: l.
Proof. intros Hc. cbn. by rewrite bool_decide_false. Qed.

(** An environment entry as the kernel writes it. *)
Definition env_bytes (kv : list byte * list byte) : list byte := kv.1 ++ x3d :: kv.2.
Definition env_ok (kv : list byte * list byte) : Prop := x00 ∉ env_bytes kv ∧ x3d ∉ kv.1.

Lemma env_item_bytes kv : env_ok kv → env_item (env_bytes kv) = Some kv.
Proof.
  intros [_ Hk]. destruct kv as [k v]. unfold env_item, env_bytes. cbn [fst snd] in *.
  assert (contains [x3d] (k ++ x3d :: v) = true) as -> by (apply contains_spec; by exists k, v).
  rewrite before_app by done. do 2 f_equal.
  change (k ++ x3d :: v) with (k ++ [x3d] ++ v). rewrite app_assoc. apply zdrop_app_exact.
  by rewrite zlen_app.
Qed.

Lemma take_env_cons fuel raw env :
  raw ≠ [] →
  take_env (S fuel) raw env
  = ('(item, raw) ← take_or_raise raw;
     if bool_decide (item = []) then Ok env
     else take_env fuel raw (match env_item item with Some (k, v) => dset k v env | None => env end)).
Proof. by destruct raw. Qed.

Lemma take_env_app fuel env d r :
  Forall env_ok env → (length env < fuel)%nat →
  take_env fuel (cstrings (map env_bytes env) ++ x00 :: r) d = Ok (foldl (λ d kv, dset kv.1 kv.2 d) d env).
Proof.
  intros He. revert fuel d. induction He as [|kv env Hkv _ IH]; intros fuel d Hf.
  - destruct fuel as [|fuel]; [lia|]. done.
  - destruct fuel as [|fuel]; [cbn in Hf; lia|]. cbn [length] in Hf.
    unfold cstrings in *. cbn [map concat]. rewrite <-!app_assoc.
    assert (env_bytes kv ≠ []) as Hne by (unfold env_bytes; by destruct kv.1).
    rewrite take_env_cons by (by destruct (env_bytes kv)). unfold take_or_raise.
    cbn [app]. rewrite take_string_app by apply Hkv. cbn [opt_or]. rewrite ok_bind. cbv beta iota.
    rewrite bool_decide_false by done. rewrite env_item_bytes by done.
    destruct kv as [k v]. rewrite IH by lia. done.
Qed.

Lemma foldl_dset_new {K V} `{EqDecision K} (env d : list (K * V)) :
  NoDup (dkeys (d ++ env)) → foldl (λ d kv, dset kv.1 kv.2 d) d env = d ++ env.
Proof.
  revert d. induction env as [|[k v] env IH]; intros d Hn; cbn [foldl]; [by rewrite app_nil_r|].
  cbn [fst snd]. rewrite dset_new_app.
  - rewrite IH; [by rewrite <-app_assoc|]. by rewrite <-app_assoc.
  - unfold dkeys in *. rewrite map_app in Hn. apply NoDup_app in Hn as (_ & Hn & _).
    intros Hk. eapply Hn; [exact Hk|]. by left.
Qed.

(** Every reader consumes its input. *)
Lemma take_string_length l v r : take_string l = Some (v, r) → (length r < length l)%nat.
Proof.
  revert v r. induction l as [|x l IH]; intros v r H; [done|]. cbn [take_string] in H.
  destruct (take_string l) as [[v' r']|] eqn:E.
  - specialize (IH _ _ eq_refl). destruct x; injection H as <- <-; cbn; lia.
  - destruct x; try done. injection H as <- <-. cbn. lia.
Qed.
Lemma take_or_raise_cases l :
  (∃ v r, take_or_raise l = Ok (v, r) ∧ (length r < length l)%nat)
  ∨ (∃ msg, take_or_raise l = Raise (RuntimeError msg)).
Proof.
  unfold take_or_raise. destruct (take_string l) as [[v r]|] eqn:E; [left|right; eauto].
  exists v, r. split; [done|by eapply take_string_length].
Qed.
Lemma take_strings_cases n l :
  (∃ vs r, take_strings n l = Ok (vs, r) ∧ (length r ≤ length l)%nat)
  ∨ (∃ msg, take_strings n l = Raise (RuntimeError msg)).
Proof.
  revert l. induction n as [|n IH]; intros l; cbn [take_strings]; [left; eauto|].
  destruct (take_or_raise_cases l) as [(v & r & -> & Hr)|[msg ->]]; [|right; by exists msg].
  rewrite ok_bind. destruct (IH r) as [(vs & r' & -> & Hr')|[msg ->]]; [left|right; by exists msg].
  rewrite ok_bind. eexists _, _. split; [done|lia].
Qed.
Lemma skip_nuls_length l : (length (skip_nuls l) ≤ length l)%nat.
Proof. induction l as [|c l IH]; cbn; [lia|]. destruct (bool_decide _); cbn; [unfold skip_nuls in IH|]; lia. Qed.

Lemma take_env_fuel fuel raw env : (length raw < fuel)%nat → take_env fuel raw env ≠ Raise OutOfFuel.
Proof.
  revert raw env. induction fuel as [|fuel IH]; intros raw env Hf; [lia|].
  destruct (decide (raw = [])) as [->|Hne]; [done|]. rewrite take_env_cons by done.
  destruct (take_or_raise_cases raw) as [(v & r & -> & Hr)|[msg ->]]; [|done].
  rewrite ok_bind. destruct (bool_decide (v = [])); [done|]. apply IH. lia.
Qed.

Lemma parse_procargs2_fuel raw : parse_procargs2 raw ≠ Raise OutOfFuel.
Proof.
  unfold parse_procargs2, unpack_from_I, unpack_from_u, unpack_u.
  destruct (zlen raw <? 4); [done|]. destruct (_ =? _); [rewrite ok_bind|done].
  destruct (take_or_raise_cases (zdrop 4 raw)) as [(v & r & -> & Hr)|[msg ->]]; [rewrite ok_bind|done].
  cbv zeta beta iota. set (argc := Z.to_nat _).
  destruct (take_strings_cases argc (skip_nuls r)) as [(vs & r' & -> & Hr')|[msg ->]]; [rewrite ok_bind|done].
  pose proof (skip_nuls_length r). pose proof (skip_nuls_length r').
  assert (length (zdrop 4 raw) ≤ length raw)%nat by (rewrite zdrop_drop, length_drop; lia).
  pose proof (take_env_fuel (S (length raw)) (skip_nuls r') [] ltac:(lia)) as Hf.
  destruct (take_env _ _ _) as [env|e]; [done|]. intros [= ->]. done.
Qed.

(** The [kern.procargs2] layout: the count, the path, padding, the arguments,
    padding, the environment, an empty string, anything. *)
Definition procargs2 (path : list byte) (pad1 : nat) (argv : list (list byte)) (pad2 : nat)
    (env : list (list byte * list byte)) (rest : list byte) : list byte :=
  le_bytes 4 (zlen argv) ++ path ++ x00 :: replicate pad1 x00 ++ cstrings argv
  ++ replicate pad2 x00 ++ cstrings (map env_bytes env) ++ x00 :: rest.

Lemma parse_header n l :
  0 ≤ n < 2 ^ 31 →
  parse_procargs2 (le_bytes 4 n ++ l)
  = ('(_, raw') ← take_or_raise l;
     '(argv, raw') ← take_strings (Z.to_nat n) (skip_nuls raw');
     env ← take_env (S (length (le_bytes 4 n ++ l))) (skip_nuls raw') [];
     Ok (argv, env)).
Proof.
  intros Hn. unfold parse_procargs2. pose proof (zlen_nonneg l).
  rewrite (proj2 (Z.ltb_ge _ _)) by (rewrite zlen_app, zlen_le_bytes; lia).
  assert (unpack_from_I (le_bytes 4 n ++ l) 0 = Ok n) as ->.
  { apply (unpack_from_app 4 n (le_bytes 4 n) [] l 0); [|done].
    apply pack_u_Ok. split; [|done]. change (2 ^ (8 * Z.of_nat 4)) with (2 ^ 32). lia. }
  rewrite ok_bind, zdrop_app_exact by (by rewrite zlen_le_bytes).
  unfold signed32. by replace (2 ^ 31 <=? n) with false by lia.
Qed.

(** The first byte of a list of strings whose first is not empty. *)
Lemma cstrings_head vs l c :
  Forall (λ v, x00 ∉ v) vs → List.hd [] vs ≠ [] → head (cstrings vs ++ l) = Some c → c ≠ x00.
Proof.
  intros Hvs Hhd. destruct vs as [|[|a v] vs]; try done. apply Forall_cons in Hvs as [Hv _].
  cbn. intros [= <-] ->. apply Hv, list_elem_of_here.
Qed.

(** The process-argument parser reads the kernel's layout back.  For NUL-free
    strings, a first argument that is not empty and a non-empty environment
    with distinct keys, whatever the padding and whatever follows, parsing
    gives exactly the arguments and the environment; and on any bytes at all
    the parser returns or raises, within its bound on the loop. *)
Theorem parse_procargs2_roundtrip path pad1 argv pad2 env rest
    (Hpath : x00 ∉ path) (Hargv : Forall (λ v, x00 ∉ v) argv) (Hhd : List.hd [] argv ≠ [])
    (Hlen : zlen argv < 2 ^ 31) (Henv : Forall env_ok env) (Hkeys : NoDup (map fst env)) (Hne : env ≠ []) :
  parse_procargs2 (procargs2 path pad1 argv pad2 env rest) = Ok (argv, env)
  ∧ (∀ raw, parse_procargs2 raw ≠ Raise OutOfFuel).
Proof.
  split; [|apply parse_procargs2_fuel]. unfold procargs2. pose proof (zlen_nonneg argv).
  rewrite parse_header by lia. unfold take_or_raise. rewrite take_string_app by done. cbn [opt_or]. rewrite ok_bind.
  rewrite skip_nuls_app by (intros c; by apply cstrings_head).
  replace (Z.to_nat (zlen argv)) with (length argv) by (unfold zlen; lia). rewrite take_strings_app by done. rewrite ok_bind.
  assert (Forall (λ v, x00 ∉ v) (map env_bytes env)) as Hz.
  { apply Forall_fmap. eapply Forall_impl; [exact Henv|]. by intros kv []. }
  rewrite skip_nuls_app.
  2: { intros c. apply cstrings_head; [done|]. destruct env as [|[[|k0 k] v] env]; done. }
  rewrite take_env_app; [by rewrite (foldl_dset_new env [])|done|].
  rewrite !length_app. unfold cstrings. assert (∀ (l : list (list byte)), length l ≤ length (concat (map (λ v, v ++ [x00]) l)))%nat as Hcl.
  { clear. induction l as [|v l IH]; cbn; [lia|]. rewrite !length_app. cbn. lia. }
  pose proof (Hcl (map env_bytes env)) as Hc. rewrite length_map in Hc. cbn [length]. rewrite !length_app. lia.
Qed.

Lemma parse_procargs2_roundtrip_witness :
  parse_procargs2 (procargs2 (b "/usr/bin/qemu") 3 [b "qemu"; []; b "-S"] 2
                     [(b "A", b "1=2"); (b "DARWIN_X", [])] (b "ptr_munge="))
  = Ok ([b "qemu"; []; b "-S"], [(b "A", b "1=2"); (b "DARWIN_X", [])]).
Proof.
  apply parse_procargs2_roundtrip;
    [apply (bool_decide_unpack _); vm_compute; exact I|repeat constructor; apply (bool_decide_unpack _); vm_compute; exact I
    |discriminate|reflexivity| |apply (bool_decide_unpack _); vm_compute; exact I|discriminate].
  repeat constructor; apply (bool_decide_unpack _); vm_compute; exact I.
Defined.
