(* ===== verification/Capture.v ===== *)
(** * Capturing a checkpoint: [main] of [tools/create_checkpoint.py]

    The source QEMU answers the monitor and is polled; both are scripts of what
    happens next, with the milliseconds it takes.  A monitor whose script is
    used up refuses the connection, a process whose script is used up is gone.
    What the tool reads from the host before and after the source runs is a
    record of observations; what it does is a list of actions, the answer of
    the monitor included.  The files are those of the time after the source
    has exited, when nobody writes them. *)

From stdpp Require Import base tactics list strings.
From Stdlib Require Import Strings.Byte.
From S2P Require Import Prelude PyState PyBytes PyStr PyDict Sha256 Checkpoint.
Open Scope Z_scope.

Abbreviation env_t := (list (text * text)).

(** [json.dump]'s object, field by field. *)
Record pinned := Pinned { pin_path : text; pin_bytes : Z; pin_sha256 : text }.
Record guest_marker := GuestMarker { mk_match : text; mk_line : text; mk_offset : Z }.
Record manifest := Manifest {
  m_tag : text; m_source_pid : Z; m_source_pc : text; m_cpu : cpu_field; m_marker : option guest_marker;
  m_clock_last : option Z; m_serial : pinned; m_argv : list text; m_env : env_t;
  m_inputs : list (text * (text * Z)); m_vmstate : pinned; m_disk : pinned; m_chain : list chain_entry;
  m_cpus : text;
}.

Inductive act :=
  | Probe (running : bool)
  | MakeOut (path : text)
  | Monitor (command : text) (reply : option text)
  | Evidence (name content : text)
  | Chmod (path : text) (mode : Z)
  | WriteManifest (path : text) (m : manifest).
Record host := Host { clock : Z; replies : list (N * option text); alive : list bool; acts : list act }.
Abbreviation CM := (SE host).

Definition note (a : act) : CM () := update (λ h, Host (clock h) (replies h) (alive h) (acts h ++ [a])).
Definition sleep (ms : Z) : CM () := update (λ h, Host (clock h + ms) (replies h) (alive h) (acts h)).
(** [HMP.command]. *)
Definition hmp (command : text) : CM text :=
  r ← gets (λ h, default (0%N, None) (head (replies h)));
  _ ← update (λ h, Host (clock h + Z.of_N r.1) (tail (replies h)) (alive h) (acts h));
  _ ← note (Monitor command r.2);
  lift (opt_or r.2 OSError).
(** [pid_alive]. *)
Definition pid_alive : CM bool :=
  a ← gets (λ h, default false (head (alive h)));
  _ ← update (λ h, Host (clock h) (replies h) (tail (alive h)) (acts h));
  _ ← note (Probe a);
  mret a.
(** [wait_pid_exit]: a pass takes 100 ms. *)
Fixpoint exit_from (fuel : nat) (deadline : Z) : CM bool :=
  now ← gets clock;
  if now <? deadline then
    match fuel with
    | O => raise OutOfFuel
    | S fuel => a ← pid_alive; if negb a then mret true else _ ← sleep 100; exit_from fuel deadline
    end
  else a ← pid_alive; mret (negb a).
Definition wait_pid_exit (ms : Z) : CM bool := now ← gets clock; exit_from (Z.to_nat (ms / 100 + 1)) (now + ms).

(** Text mode: [\r\n] and [\r] are read as [\n]. *)
Fixpoint universal_newlines (s : text) : text :=
  match s with
  | [] => []
  | 13 :: ((10 :: _) as s) => universal_newlines s
  | c :: s => (if c =? 13 then 10 else c) :: universal_newlines s
  end.

(** What the run reads: the pid file, the first liveness probe, the process'
    arguments and environment, the launch manifest (format, argv, env), whether
    the disk verifier can be run, the creation of the output directory, [ps],
    the serial log at the stop, the migration analysis, [qemu-img check] and
    [qemu-img info]; then the files after the exit. *)
Record observed := Observed {
  o_pid : res Z;
  o_live : res (list text * env_t);
  o_launch : res (text * list text * env_t);
  o_img_ok : bool;
  o_mkdir : res ();
  o_rss : res Z;
  o_serial : res (list byte);
  o_analyzed : option text;
  o_check : res text;
  o_info : res (option (list img_info));
  o_files : text → option (list byte);
}.

Section main.
Variable o : observed.
Variable resolve : text → text.
(** [re.finditer(regex, text, re.MULTILINE)]: the bounds of the matches. *)
Variable finditer : text → text → list (Z * Z).
(** The options, paths resolved; [out] is the output directory. *)
Context (tag out monitor disk serial_log marker_regex : text) (timeout : Z).

Definition state_path : text := out ++ u "/vmstate.bin".
Definition evidence_path (name : string) : text := out ++ u "/evidence/" ++ u name.
Definition evidence (name : string) (content : text) : CM () := note (Evidence (evidence_path name) content).

(** Up to the first action: the process is the one that was launched. *)
Definition own_source : CM (Z * list text * env_t) :=
  if negb (safe_tag tag) then raise (SystemExit "--tag must use 1-64 letters, digits, dots, underscores or dashes")
  else
    pid ← lift (o_pid o);
    running ← pid_alive;
    if negb running then raise (RuntimeError "source QEMU pid is not alive")
    else
      '(live_argv, live_environ) ← lift (o_live o);
      '(format, argv, environ) ← lift (o_launch o);
      if negb (bool_decide (format = u "darwin-vm-qemu-launch-v1"))
      then raise (RuntimeError "unsupported launch manifest format")
      else
        _ ← lift (check_source resolve live_argv argv live_environ environ monitor disk);
        if negb (o_img_ok o) then raise (RuntimeError "build the checkpoint disk verifier first")
        else mret (pid, argv, environ).

(** The stop and the inventory: the selected CPU and its program counter. *)
Definition freeze : CM (text * Z) :=
  _ ← hmp (u "stop");
  status ← hmp (u "info status");
  if negb (contains (u "paused") status) then raise (RuntimeError "QEMU did not pause")
  else
    registers ← hmp (u "info registers");
    pc ← lift (parse_pc registers);
    _ ← evidence "pre-checkpoint-registers.txt" (registers ++ [10]);
    qtree ← hmp (u "info qtree"); _ ← evidence "qtree.txt" (qtree ++ [10]);
    mtree ← hmp (u "info mtree"); _ ← evidence "mtree.txt" (mtree ++ [10]);
    cpus ← hmp (u "info cpus");
    cpu ← lift (selected_cpu_index cpus);
    _ ← evidence "cpus.txt" (cpus ++ [10]);
    block ← hmp (u "info block"); _ ← evidence "block.txt" (block ++ [10]);
    mret (pc, cpu).

(** The last match of the marker and its line. *)
Definition find_marker : CM (option guest_marker * option Z) :=
  bytes ← lift (o_serial o);
  let serial_text := universal_newlines (utf8_replace bytes) in
  let clock_last := snd <$> serial_hex_clock_bounds serial_text in
  if bool_decide (marker_regex = []) then mret (None, clock_last)
  else
    match last (finditer marker_regex serial_text) with
    | None => raise (RuntimeError "the requested guest marker is absent from the serial log")
    | Some (start, stop) =>
        let m := GuestMarker (slice start stop serial_text) (marker_line serial_text start stop) start in
        _ ← evidence "guest-marker.txt" (mk_line m ++ [10]);
        mret (Some m, clock_last)
    end.

(** The polling of the migration: a pass takes half a second. *)
Fixpoint migrate_from (fuel : nat) (deadline : Z) : CM text :=
  now ← gets clock;
  if now <? deadline then
    match fuel with
    | O => raise OutOfFuel
    | S fuel =>
        running ← pid_alive;
        if negb running then raise (RuntimeError "source QEMU exited during migration")
        else
          migration ← hmp (u "info migrate -a");
          let status := parse_migration_status migration in
          if bool_decide (status = u "completed") then mret migration
          else if bool_decide (status = u "failed") || bool_decide (status = u "cancelled")
          then raise (RuntimeError "migration")
          else _ ← sleep 500; migrate_from fuel deadline
    end
  else raise (RuntimeError "migration did not finish before --timeout").
Definition migrate : CM () :=
  flush ← hmp (u "qemu-io ans " ++ [34] ++ u "flush" ++ [34]);
  _ ← evidence "block-flush.txt" (flush ++ [10]);
  _ ← hmp (u "migrate_set_parameter max-bandwidth 0");
  _ ← hmp (u "migrate -d file:" ++ state_path);
  now ← gets clock;
  migration ← migrate_from (Z.to_nat (timeout / 500 + 1)) (now + timeout);
  evidence "migration-status.txt" (migration ++ [10]).

(** The source is asked to quit once the stream is there, and its disk is frozen
    once it has (modes 0600 and 0444). *)
Definition retire : CM () :=
  match o_files o state_path with
  | None => raise (RuntimeError "migration reported completion but the state file is missing/short")
  | Some bytes =>
      if zlen bytes <? 4096
      then raise (RuntimeError "migration reported completion but the state file is missing/short")
      else
        _ ← note (Chmod state_path 0x180);
        _ ← hmp (u "quit");
        exited ← wait_pid_exit 30000;
        if negb exited then raise (RuntimeError "source QEMU pid did not exit after HMP quit")
        else note (Chmod disk 0x124)
  end.

(** The hashes of the files QEMU was started on. *)
Definition pin (path : text) : res pinned :=
  bytes ← opt_or (o_files o path) OSError; Ok (Pinned path (zlen bytes) (sha256_hex bytes)).
Definition qemu_inputs (argv : list text) : list (text * (text * Z)) :=
  foldl (λ d path, match o_files o path with
                   | Some bytes => dset path (sha256_hex bytes, zlen bytes) d
                   | None => d
                   end) [] (resolve (List.hd [] argv) :: qemu_input_files resolve argv).
Definition check_disk : CM (list chain_entry) :=
  _ ← match o_analyzed o with Some text => evidence "migration-description.txt" text | None => mret () end;
  check ← lift (o_check o);
  _ ← evidence "disk-check.txt" check;
  info ← lift (o_info o);
  chain ← lift (qcow2_backing_chain resolve (o_files o) info disk);
  match chain with
  | e :: _ :: _ =>
      if bool_decide (ce_format e = u "qcow2") then mret chain
      else raise (RuntimeError "checkpoint disk is not a qcow2 child overlay")
  | _ => raise (RuntimeError "checkpoint disk is not a qcow2 child overlay")
  end.
Definition manifest_of (pid : Z) (pc : text) (cpu : Z) (marker : option guest_marker) (clock_last : option Z)
    (argv : list text) (environ : env_t) (chain : list chain_entry) : res manifest :=
  serial ← pin serial_log;
  state ← pin state_path;
  bytes ← opt_or (o_files o disk) OSError;
  Ok (Manifest tag pid pc (CpuInt cpu) marker clock_last serial argv (model_env environ) (qemu_inputs argv) state
        (Pinned disk (zlen bytes) (default [] (ce_sha256 <$> head chain))) chain (evidence_path "cpus.txt")).

Definition main : CM manifest :=
  '(pid, argv, environ) ← own_source;
  _ ← lift (o_mkdir o);
  _ ← note (MakeOut out);
  _ ← lift (o_rss o);
  '(pc, cpu) ← freeze;
  '(marker, clock_last) ← find_marker;
  _ ← migrate;
  _ ← retire;
  chain ← check_disk;
  m ← lift (manifest_of pid pc cpu marker clock_last argv environ chain);
  _ ← note (WriteManifest (out ++ u "/manifest.json") m);
  mret m.
End main.

(** ** The life cycle of a capture

    The abstract specification.  The source is stopped once, only read while it
    is paused, migrated, and asked to quit after the monitor has reported the
    migration completed; its disk is frozen after it was seen gone, and the
    manifest is written last.  It is never resumed. *)

Inductive life := Untouched | Alive | Made | Paused | Migrating | Complete | Private | Quitting | Gone | Frozen | Recorded.
Inductive kind := KStop | KRead | KMigrate | KPoll | KQuit | KOther.
Definition read_commands : list text :=
  map u ["info status"; "info registers"; "info qtree"; "info mtree"; "info cpus"; "info block";
         "migrate_set_parameter max-bandwidth 0"]
  ++ [u "qemu-io ans " ++ [34] ++ u "flush" ++ [34]].
Definition completed (reply : option text) : bool :=
  match reply with Some t => bool_decide (parse_migration_status t = u "completed") | None => false end.

Section cycle.
(** The output directory and the source's disk. *)
Variables out disk : text.
Definition kind_of (command : text) : kind :=
  if bool_decide (command = u "stop") then KStop
  else if bool_decide (command = u "quit") then KQuit
  else if bool_decide (command = u "info migrate -a") then KPoll
  else if bool_decide (command ∈ read_commands) then KRead
  else if bool_decide (command = u "migrate -d file:" ++ out ++ u "/vmstate.bin") then KMigrate
  else KOther.
Definition only_if {A} (b : bool) (x : A) : option A := if b then Some x else None.
Definition life_step (l : life) (a : act) : option life :=
  match l, a with
  | Untouched, Probe running => Some (if running then Alive else Untouched)
  | Alive, MakeOut path => only_if (bool_decide (path = out)) Made
  | Made, Monitor c _ => match kind_of c with KStop => Some Paused | _ => None end
  | Paused, Monitor c _ => match kind_of c with KRead => Some Paused | KMigrate => Some Migrating | _ => None end
  | (Paused | Complete | Frozen), Evidence path _ => only_if (startswith (out ++ u "/evidence/") path) l
  | Migrating, Probe _ => Some Migrating
  | Migrating, Monitor c r =>
      match kind_of c with KPoll => Some (if completed r then Complete else Migrating) | _ => None end
  | Complete, Chmod path mode => only_if (bool_decide ((path, mode) = (out ++ u "/vmstate.bin", 0x180))) Private
  | Private, Monitor c _ => match kind_of c with KQuit => Some Quitting | _ => None end
  | Quitting, Probe running => Some (if running then Quitting else Gone)
  | Gone, Chmod path mode => only_if (bool_decide ((path, mode) = (disk, 0x124))) Frozen
  | Frozen, WriteManifest path _ => only_if (bool_decide (path = out ++ u "/manifest.json")) Recorded
  | _, _ => None
  end.
Fixpoint accepts (l : life) (t : list act) : option life :=
  match t with [] => Some l | a :: t => l ← life_step l a; accepts l t end.
Lemma capture_accepts_app l t t' : accepts l (t ++ t') = l ← accepts l t; accepts l t'.
Proof. revert l. induction t as [|a t IH]; intros l; cbn; [done|]. by destruct (life_step l a); cbn. Qed.

(** The run has come to [l]. *)
Definition at_life (l : life) (h : host) : Prop := accepts Untouched (acts h) = Some l.
(** A run that has not recorded anything; one that has touched nothing. *)
Definition short (_ : exn) (h : host) : Prop := ∃ l, at_life l h ∧ l ≠ Recorded.
Definition begun (l : life) : bool := match l with Untouched | Alive => false | _ => true end.
Definition harmless (_ : exn) (h : host) : Prop := ∃ l, at_life l h ∧ begun l = false.

Lemma starts_evidence name : startswith (out ++ u "/evidence/") (evidence_path out name) = true.
Proof. apply startswith_spec. exists (u name). unfold evidence_path. by rewrite <-app_assoc. Qed.

Lemma evidence_step l name c : l ∈ [Paused; Complete; Frozen] → life_step l (Evidence (evidence_path out name) c) = Some l.
Proof.
  rewrite !elem_of_cons, elem_of_nil. intros [->|[->|[->|[]]]]; cbn [life_step]; by rewrite starts_evidence.
Qed.

Section rules.
Context {A : Type} (Q : A → host → Prop).

Lemma capture_note l l' a (k : () → CM A) h :
  at_life l h → life_step l a = Some l' → (∀ h', at_life l' h' → wp (k ()) Q short h') → wp (note a ≫= k) Q short h.
Proof.
  intros Hl Hs Hk. apply wp_bind, wp_update, Hk. unfold at_life in *. cbn. by rewrite capture_accepts_app, Hl; cbn; rewrite Hs.
Qed.
Lemma capture_raise l e h : at_life l h → l ≠ Recorded → wp (raise e) Q short h.
Proof. intros Hl Hr. apply wp_raise. by exists l. Qed.
Lemma capture_lift {B} l (m : res B) (k : B → CM A) h :
  at_life l h → l ≠ Recorded → (∀ b, wp (k b) Q short h) → wp (lift m ≫= k) Q short h.
Proof. intros Hl Hr Hk. apply wp_bind, wp_lift; [intros b _; apply Hk|intros e _; by exists l]. Qed.
Lemma wp_evidence l name text (k : () → CM A) h :
  at_life l h → l ∈ [Paused; Complete; Frozen] →
  (∀ h', at_life l h' → wp (k ()) Q short h') → wp (evidence out name text ≫= k) Q short h.
Proof.
  intros Hl He. eapply capture_note; [done|]. by apply evidence_step.
Qed.
Lemma note_last l l' a h : at_life l h → life_step l a = Some l' → wp (note a) (λ _, at_life l') short h.
Proof. intros Hl Hs. apply wp_update. unfold at_life in *. cbn [acts]. rewrite capture_accepts_app, Hl. cbn. by rewrite Hs. Qed.
Lemma evidence_last l name text h :
  at_life l h → l ∈ [Paused; Complete; Frozen] → wp (evidence out name text) (λ _, at_life l) short h.
Proof. intros Hl He. eapply note_last; [done|]. by apply evidence_step. Qed.
(** A monitor command, whatever it answers. *)
Lemma capture_hmp l c (l' : option text → life) (k : text → CM A) h :
  at_life l h → (∀ r, life_step l (Monitor c r) = Some (l' r)) → (∀ r, l' r ≠ Recorded) →
  (∀ t h', at_life (l' (Some t)) h' → wp (k t) Q short h') → wp (hmp c ≫= k) Q short h.
Proof.
  intros Hl Hs Hne Hk. apply wp_bind. unfold hmp. apply wp_bind, wp_gets.
  set (r := default (0%N, None) (head (replies h))).
  apply wp_bind, wp_update, wp_bind, wp_update.
  assert (at_life (l' r.2) (Host (clock h + Z.of_N r.1) (tail (replies h)) (alive h) (acts h ++ [Monitor c r.2]))) as Hl'.
  { unfold at_life in *. cbn. by rewrite capture_accepts_app, Hl; cbn; rewrite Hs. }
  apply wp_lift.
  - intros t Ht. apply Hk. destruct r.2; [|done]. injection Ht as <-. exact Hl'.
  - intros e _. by eexists.
Qed.
Lemma wp_alive l (l' : bool → life) (k : bool → CM A) h :
  at_life l h → (∀ running, life_step l (Probe running) = Some (l' running)) →
  (∀ running h', at_life (l' running) h' → wp (k running) Q short h') → wp (pid_alive ≫= k) Q short h.
Proof.
  intros Hl Hs Hk. apply wp_bind. unfold pid_alive. apply wp_bind, wp_gets, wp_bind, wp_update, wp_bind, wp_update, wp_ret.
  apply Hk. unfold at_life in *. cbn. by rewrite capture_accepts_app, Hl; cbn; rewrite Hs.
Qed.
End rules.

(** The rules for the commands at hand. *)
Ltac step_lift := eapply capture_lift; [eassumption|discriminate|intros ?].
Ltac step_hmp := eapply (capture_hmp _ _ _ (λ _, _)); [eassumption|intros ?; reflexivity|discriminate|intros ? ? ?].
Ltac step_evidence := eapply wp_evidence; [eassumption|by repeat constructor|intros ? ?].
Ltac step_note := eapply capture_note; [eassumption|by cbn [life_step]; rewrite bool_decide_true|intros ? ?].

Section lifecycle.
Variable o : observed.
Variable resolve : text → text.
Variable finditer : text → text → list (Z * Z).
Context (tag monitor serial_log marker_regex : text) (timeout : Z).

(** The source is the process that was launched: an emulator with the recorded
    command line and the recorded variables of the model, which has the
    monitor among its sockets and the disk among its ANS drives. *)
Definition model_key (k : text) : bool := startswith (u "DARWIN_") k || startswith (u "GXFSTAT_") k.
Record launched : Prop := Launched {
  l_tag : safe_tag tag = true;
  l_verifier : o_img_ok o = true;
  l_process : ∃ argv live_environ environ,
    o_live o = Ok (argv, live_environ) ∧ o_launch o = Ok (u "darwin-vm-qemu-launch-v1", argv, environ)
    ∧ (∃ path, head argv = Some path ∧ contains (u "qemu-system-aarch64") (path_name path) = true)
    ∧ (∀ k, dget k environ = if model_key k then dget k live_environ else None)
    ∧ (∃ socket, u "unix:" ++ socket ∈ argv ∧ resolve (before 44 socket) = monitor)
    ∧ (∃ drive file, drive ∈ argv ∧ u "id=ans" ∈ split1 44 drive ∧ u "file=" ++ file ∈ split1 44 drive ∧ resolve file = disk);
}.
Lemma dget_filter f k (d : env_t) : dget k (List.filter (λ kv, f kv.1) d) = if f k then dget k d else None.
Proof.
  induction d as [|[k' v] d IH]; cbn; [by case_match|].
  destruct (f k') eqn:E; cbn; [|rewrite IH]; (destruct (decide (k = k')) as [->|]; [by rewrite E|done]).
Qed.
Lemma dget_model_env k (d : env_t) : dget k (model_env d) = if model_key k then dget k d else None.
Proof. exact (dget_filter model_key k d). Qed.
Lemma dict_eqb_dget (d d' : env_t) : dict_eqb d d' = true → ∀ k, dget k d' = dget k d.
Proof.
  unfold dict_eqb. rewrite andb_true_iff, !forallb_forall. intros [H H'] k.
  destruct (dget k d) as [v|] eqn:E; [|destruct (dget k d') as [v|] eqn:E'; [|done]].
  - apply dget_In in E as Hin. apply list_elem_of_In, H, bool_decide_eq_true in Hin. exact (eq_trans Hin E).
  - apply dget_In in E' as Hin. apply list_elem_of_In, H', bool_decide_eq_true in Hin. exact (eq_trans (eq_sym E') (eq_trans (eq_sym Hin) E)).
Qed.
Lemma check_source_launched live_argv argv live_environ environ :
  safe_tag tag = true → o_img_ok o = true → o_live o = Ok (live_argv, live_environ) →
  o_launch o = Ok (u "darwin-vm-qemu-launch-v1", argv, environ) →
  check_source resolve live_argv argv live_environ environ monitor disk = Ok tt → launched.
Proof.
  intros Ht Hi Hl Hm H. unfold check_source in H. destruct (_ || _) eqn:E0 in H; [done|].
  destruct (bool_decide (live_argv = argv)) eqn:E1; cbn [negb] in H; [|done]. apply bool_decide_eq_true in E1 as ->.
  destruct (dict_eqb _ _) eqn:E2; cbn [negb] in H; [|done]. cbv zeta in H.
  destruct (bool_decide (monitor ∈ _)) eqn:E3; cbn [negb] in H; [|done].
  destruct (bool_decide (disk ∈ _)) eqn:E4; cbn [negb] in H; [|done].
  apply orb_false_iff in E0 as [E0 E0']. apply bool_decide_eq_false in E0. apply negb_false_iff in E0'.
  apply bool_decide_eq_true in E3, E4. constructor; [done..|]. exists argv, live_environ, environ. do 2 (split; [done|]).
  split; [destruct argv as [|path argv]; [done|by exists path]|].
  split; [intros k; rewrite <-dget_model_env; by apply dict_eqb_dget|]. split.
  - apply list_elem_of_In, in_map_iff in E3 as (i & Hi' & [Hin (r & ->)%startswith_spec]%filter_In). rewrite zdrop_app_exact in Hi' by done.
    exists r. split; [by apply list_elem_of_In|exact Hi'].
  - apply list_elem_of_In, in_concat in E4 as (l & (i & <- & Hin)%in_map_iff & Hd).
    destruct (bool_decide _) eqn:E in Hd; [|done]. apply bool_decide_eq_true in E.
    apply in_map_iff in Hd as (q & Hq & [Hp (r & ->)%startswith_spec]%filter_In). rewrite zdrop_app_exact in Hq by done. exists i, r.
    repeat split; [by apply list_elem_of_In|done|by apply list_elem_of_In|exact Hq].
Qed.
Lemma own_source_spec h :
  at_life Untouched h → wp (own_source o resolve tag monitor disk) (λ _ h, at_life Alive h ∧ launched) harmless h.
Proof.
  intros Hl. unfold own_source. destruct (safe_tag tag) eqn:Ht; cbn [negb]; [|apply wp_raise; by exists Untouched].
  apply wp_bind, wp_lift; [intros pid _|by exists Untouched]. unfold pid_alive.
  apply wp_bind, wp_bind, wp_gets, wp_bind, wp_update, wp_bind, wp_update, wp_ret.
  set (running := default false _). set (h1 := Host _ _ _ _).
  assert (at_life (if running then Alive else Untouched) h1) as H1 by (unfold at_life in *; cbn; by rewrite capture_accepts_app, Hl).
  destruct running; cbn [negb]; [|apply wp_raise; by exists Untouched]. clearbody h1.
  assert (∀ e, harmless e h1) as Hh by (intros e; by exists Alive).
  apply wp_bind, wp_lift; [intros [live_argv live_environ] Hlive|done]. apply wp_bind, wp_lift; [intros [[format argv] environ] Hm|done].
  destruct (bool_decide (format = _)) eqn:Ef; cbn [negb]; [|by apply wp_raise]. apply bool_decide_eq_true in Ef as ->.
  apply wp_bind, wp_lift; [intros [] Hc|done]. destruct (o_img_ok o) eqn:Hi; cbn [negb]; [|by apply wp_raise].
  apply wp_ret. split; [done|by eapply check_source_launched].
Qed.
Lemma freeze_spec h : at_life Made h → wp (freeze out) (λ _, at_life Paused) short h.
Proof.
  intros Hl. unfold freeze. step_hmp. step_hmp. destruct (negb _); [by eapply capture_raise|].
  step_hmp. step_lift. step_evidence. step_hmp. step_evidence. step_hmp. step_evidence. step_hmp. step_lift. step_evidence.
  step_hmp. step_evidence. by apply wp_ret.
Qed.
Lemma find_marker_spec h :
  at_life Paused h → wp (find_marker o finditer out marker_regex) (λ _, at_life Paused) short h.
Proof.
  intros Hl. unfold find_marker. step_lift. destruct (bool_decide _); [by apply wp_ret|].
  destruct (last _) as [[start stop]|]; [|by eapply capture_raise]. step_evidence. by apply wp_ret.
Qed.
Lemma migrate_from_spec fuel deadline h :
  at_life Migrating h → wp (migrate_from fuel deadline) (λ _, at_life Complete) short h.
Proof.
  revert h. induction fuel as [|fuel IH]; intros h Hl; cbn [migrate_from]; apply wp_bind, wp_gets;
    (destruct (_ <? _); [|by eapply capture_raise]); [by eapply capture_raise|].
  eapply (wp_alive _ _ (λ _, Migrating)); [done|done|]. intros running h1 H1. destruct (negb running); [by eapply capture_raise|].
  eapply (capture_hmp _ _ _ (λ r, if completed r then Complete else Migrating)); [done|done|by intros r; destruct (completed r)|].
  intros t h2 H2. cbn [completed] in H2. cbv zeta. destruct (bool_decide _); [by apply wp_ret|].
  destruct (_ || _); [by eapply capture_raise|]. apply wp_bind, wp_update. by apply IH.
Qed.
Lemma migrate_kind r : life_step Paused (Monitor (u "migrate -d file:" ++ state_path out) r) = Some Migrating.
Proof.
  enough (kind_of (u "migrate -d file:" ++ state_path out) = KMigrate) as H by (cbn [life_step]; by rewrite H).
  unfold kind_of. do 3 (rewrite bool_decide_false by done).
  rewrite bool_decide_false by (unfold read_commands; cbn [map app]; rewrite !elem_of_cons, elem_of_nil; by intuition discriminate).
  by rewrite bool_decide_true.
Qed.
Lemma migrate_spec h : at_life Paused h → wp (migrate out timeout) (λ _, at_life Complete) short h.
Proof.
  intros Hl. unfold migrate. step_hmp. step_evidence. step_hmp.
  eapply (capture_hmp _ _ _ (λ _, Migrating)); [done|apply migrate_kind|done|]. intros reply hm Hm.
  apply wp_bind, wp_gets. eapply wp_then; [by apply migrate_from_spec|]. intros final hc Hc.
  apply evidence_last; [done|by repeat constructor].
Qed.
Lemma exit_spec fuel deadline h :
  at_life Quitting h → wp (exit_from fuel deadline) (λ exited h', if exited then at_life Gone h' else at_life Quitting h') short h.
Proof.
  revert h. induction fuel as [|fuel IH]; intros h Hl; cbn [exit_from]; apply wp_bind, wp_gets;
    (destruct (_ <? _); [try by eapply capture_raise|]);
    (eapply (wp_alive _ _ (λ running, if running then Quitting else Gone)); [done|done|]; intros [] h1 H1; cbn [negb]);
    try by apply wp_ret.
  apply wp_bind, wp_update. by apply IH.
Qed.
Lemma retire_spec h : at_life Complete h → wp (retire o out disk) (λ _, at_life Frozen) short h.
Proof.
  intros Hl. unfold retire. destruct (o_files o _) as [bytes|]; [|by eapply capture_raise].
  destruct (_ <? _); [by eapply capture_raise|]. step_note. step_hmp. unfold wait_pid_exit.
  eapply wp_then; [apply wp_bind, wp_gets; by apply exit_spec|]. intros [] hg Hg; cbn in Hg; cbn [negb]; [|by eapply capture_raise].
  eapply note_last; [done|]. cbn [life_step]. by rewrite bool_decide_true.
Qed.
Lemma check_disk_spec h : at_life Frozen h → wp (check_disk o resolve out disk) (λ _, at_life Frozen) short h.
Proof.
  intros Hl. unfold check_disk. eapply (wp_then _ _ (λ _, at_life Frozen)).
  { destruct (o_analyzed o); [|by apply wp_ret]. apply evidence_last; [done|by repeat constructor]. }
  intros _ hc Hc. cbv beta in Hc. step_lift. step_evidence. step_lift.
  eapply capture_lift; [eassumption|discriminate|intros chain].
  destruct chain as [|e [|e' chain]]; [by eapply capture_raise..|].
  destruct (bool_decide _); [by apply wp_ret|by eapply capture_raise].
Qed.

Lemma after_own_source pid argv environ h :
  at_life Alive h →
  wp (_ ← lift (o_mkdir o);
      _ ← note (MakeOut out);
      _ ← lift (o_rss o);
      '(pc, cpu) ← freeze out;
      '(marker, clock_last) ← find_marker o finditer out marker_regex;
      _ ← migrate out timeout;
      _ ← retire o out disk;
      chain ← check_disk o resolve out disk;
      m ← lift (manifest_of o resolve tag out disk serial_log pid pc cpu marker clock_last argv environ chain);
      _ ← note (WriteManifest (out ++ u "/manifest.json") m);
      mret m)
    (λ m h, at_life Recorded h ∧ last (acts h) = Some (WriteManifest (out ++ u "/manifest.json") m)) short h.
Proof.
  intros H1. step_lift. step_note. step_lift.
  eapply wp_then; [by apply freeze_spec|]. intros [pc cpu] h2 H2.
  eapply wp_then; [by apply find_marker_spec|]. intros [marker clock_last] h3 H3.
  eapply wp_then; [by apply migrate_spec|]. intros [] h4 H4.
  eapply wp_then; [by apply retire_spec|]. intros [] h5 H5.
  eapply wp_then; [by apply check_disk_spec|]. intros chain h6 H6.
  eapply capture_lift; [exact H6|discriminate|]. intros m.
  apply wp_bind, wp_update, wp_ret. unfold at_life in *. cbn [acts]. rewrite capture_accepts_app, H6. cbn [accepts life_step mbind option_bind].
  rewrite bool_decide_true by done. split; [done|]. by rewrite last_snoc.
Qed.

(** C7: a capture follows its life cycle, whatever the monitor, the process and
    the host's files do.  Nothing is touched unless the process was seen alive
    and is the launched one (its command line, its variables of the model, its
    monitor and its disk); only then is the output directory made and the
    source stopped.  It is only read while paused, migrated to the state file of
    that directory, never resumed, and asked to quit only after the monitor
    reported the migration completed and the state file was made private; its
    own disk is frozen after it was seen gone; and the manifest is written into
    the directory exactly when the run returns it, as the last action. *)
Theorem capture_lifecycle now rs al :
  match main o resolve finditer tag out monitor disk serial_log marker_regex timeout (Host now rs al []) with
  | (Ok m, h) =>
      accepts Untouched (acts h) = Some Recorded ∧ launched ∧ last (acts h) = Some (WriteManifest (out ++ u "/manifest.json") m)
  | (Raise _, h) => ∃ l, accepts Untouched (acts h) = Some l ∧ l ≠ Recorded ∧ (begun l = true → launched)
  end.
Proof.
  enough (wp (main o resolve finditer tag out monitor disk serial_log marker_regex timeout)
    (λ m h, at_life Recorded h ∧ launched ∧ last (acts h) = Some (WriteManifest (out ++ u "/manifest.json") m))
    (λ _ h, ∃ l, at_life l h ∧ l ≠ Recorded ∧ (begun l = true → launched)) (Host now rs al [])) as H.
  { unfold wp in H. by destruct (main _ _ _ _ _ _ _ _ _ _ _) as [[m|e] h]. }
  unfold main. apply wp_bind. eapply wp_mono; [by apply own_source_spec| |].
  - intros [[pid argv] environ] h1 [H1 Hok]. eapply wp_mono; [by apply after_own_source| |].
    + intros m h [Hm Hl]. done.
    + intros e h (l & Hl & Hr). by exists l.
  - intros e h (l & Hl & Hb). exists l. split; [done|]. rewrite Hb. by destruct l.
Qed.

(** *** The waits end *)

Definition python (e : exn) : Prop := e ≠ OutOfFuel.
Lemma time_hmp c h : clock h ≤ clock (hmp c h).2.
Proof. unfold hmp, mbind, se_bind, gets, update, note, lift. destruct (head (replies h)) as [[n [t|]]|]; cbn; lia. Qed.
Lemma migrate_ends fuel deadline h :
  deadline - clock h ≤ 500 * Z.of_nat fuel → (migrate_from fuel deadline h).1 ≠ Raise OutOfFuel.
Proof.
  revert h. induction fuel as [|fuel IH]; intros h Hf; cbn [migrate_from]; unfold mbind at 1, se_bind at 1, gets at 1.
  { destruct (Z.ltb_spec (clock h) deadline); [lia|done]. }
  destruct (Z.ltb_spec (clock h) deadline) as [Hlt|]; [|done].
  unfold mbind at 1, se_bind at 1. destruct (pid_alive h) as [[running|e] h1] eqn:Ea; [|by unfold pid_alive in Ea].
  assert (clock h1 = clock h) as Hc by (unfold pid_alive in Ea; by injection Ea as <- <-).
  destruct (negb running); [done|]. unfold mbind at 1, se_bind at 1.
  pose proof (time_hmp (u "info migrate -a") h1) as Ht. destruct (hmp _ h1) as [[t|e] h2] eqn:Eh.
  - cbv zeta. destruct (bool_decide _); [done|]. destruct (_ || _); [done|].
    unfold mbind, se_bind, sleep, update. apply IH. cbn [clock snd] in *. lia.
  - unfold hmp, mbind, se_bind, gets, update, note, lift in Eh. destruct (head (replies h1)) as [[n [t|]]|]; by injection Eh as <- _.
Qed.
Lemma exit_ends fuel deadline h :
  deadline - clock h ≤ 100 * Z.of_nat fuel → (exit_from fuel deadline h).1 ≠ Raise OutOfFuel.
Proof.
  revert h. induction fuel as [|fuel IH]; intros h Hf; cbn [exit_from]; unfold mbind at 1, se_bind at 1, gets at 1.
  { destruct (Z.ltb_spec (clock h) deadline); [lia|done]. }
  destruct (Z.ltb_spec (clock h) deadline) as [Hlt|]; [|done].
  unfold mbind at 1, se_bind at 1. destruct (pid_alive h) as [[running|e] h1] eqn:Ea; [|by unfold pid_alive in Ea].
  assert (clock h1 = clock h) as Hc by (unfold pid_alive in Ea; by injection Ea as <- <-).
  destruct (negb running); [done|]. unfold mbind at 1, se_bind at 1, sleep, update. apply IH. cbn [clock]. lia.
Qed.
(** The fuel of [migrate] and of [wait_pid_exit] covers their time. *)
Lemma fuel_covers pass time : 0 < pass → time ≤ pass * Z.of_nat (Z.to_nat (time / pass + 1)).
Proof.
  intros Hp. pose proof (Z.div_mod time pass ltac:(lia)). pose proof (Z.mod_pos_bound time pass Hp).
  destruct (decide (0 ≤ time)); [rewrite Z2Nat.id by (pose proof (Z.div_pos time pass); lia); lia|].
  pose proof (Nat2Z.is_nonneg (Z.to_nat (time / pass + 1))). nia.
Qed.
End lifecycle.
End cycle.

(** ** What a returned manifest says

    Every digest in it is that of a file that was there at the end of the run,
    and its command line and CPU are usable. *)
Section recorded.
Variable o : observed.
Variable resolve : text → text.
Variable finditer : text → text → list (Z * Z).
Context (tag out monitor disk serial_log marker_regex : text) (timeout : Z).

Record faithful (m : manifest) : Prop := Faithful {
  f_argv : m_argv m ≠ [];
  f_cpu : ∃ cpu, m_cpu m = CpuInt cpu ∧ 0 ≤ cpu;
  f_inputs : m_inputs m = qemu_inputs o resolve (m_argv m);
  f_vmstate : pin o (state_path out) = Ok (m_vmstate m);
  f_disk : pin_path (m_disk m) = disk ∧ is_Some (o_files o disk)
           ∧ pin_sha256 (m_disk m) = default [] (ce_sha256 <$> head (m_chain m));
  f_chain : ∃ info, qcow2_backing_chain resolve (o_files o) info disk = Ok (m_chain m);
}.

Abbreviation yields m Q := (∀ h : host, wp m Q (λ _ _, True) h).
Lemma wp_any {A} (r : CM A) h : wp r (λ _ _, True) (λ _ _, True) h.
Proof. unfold wp. by destruct (r h) as [[]]. Qed.
Lemma wp_next {A B} (r : CM A) (k : A → CM B) Q :
  (∀ x, yields (k x) Q) → yields (r ≫= k) Q.
Proof. intros Hk h. apply wp_bind. eapply wp_mono; [apply wp_any|intros x h' _; apply Hk|done]. Qed.
Lemma wp_know {A B} (r : CM A) (k : A → CM B) (P : A → Prop) Q :
  yields r (λ x _, P x) → (∀ x, P x → yields (k x) Q) → yields (r ≫= k) Q.
Proof. intros Hr Hk h. apply wp_bind. eapply wp_mono; [apply Hr|intros x h' Hx; by apply Hk|done]. Qed.
Lemma wp_lifted {A} (r : res A) : yields (lift r) (λ x _, r = Ok x).
Proof. intros h. by apply wp_lift. Qed.

Lemma own_source_argv : yields (own_source o resolve tag monitor disk) (λ x _, x.1.2 ≠ []).
Proof.
  intros h. unfold own_source. destruct (negb _); [by apply wp_raise|]. revert h. apply wp_next. intros pid. apply wp_next.
  intros running. destruct (negb running); [by intros h|]. apply wp_next. intros [live_argv live_environ].
  apply wp_next. intros [[format argv] environ]. destruct (negb _); [by intros h|].
  eapply wp_know; [apply wp_lifted|]. intros [] Hs. destruct (negb _); intros h; [done|]. apply wp_ret. cbn. intros ->.
  unfold check_source in Hs. destruct (bool_decide (live_argv = [])) eqn:E; [done|]. cbn [orb] in Hs.
  destruct (negb (contains _ _)); [done|]. apply bool_decide_eq_false in E.
  by rewrite bool_decide_false in Hs.
Qed.
Lemma parse_digits_nonneg base acc us l n :
  0 ≤ base → 0 ≤ acc → parse_digits base acc us l = Some n → 0 ≤ n.
Proof.
  intros Hb. revert acc us. induction l as [|c l IH]; intros acc us Ha H; cbn [parse_digits] in H.
  { destruct us; [done|]. by injection H as <-. }
  destruct (c =? 95); [destruct us; [done|by eapply IH]|].
  destruct (digit_val c) as [d|] eqn:Ed; [|done]. destruct (d <? base); [|done]. eapply IH; [|exact H].
  assert (0 ≤ d) by (unfold digit_val in Ed; repeat case_match; simplify_eq; lia). nia.
Qed.
Lemma selected_nonneg cpus cpu : selected_cpu_index cpus = Ok cpu → 0 ≤ cpu.
Proof.
  unfold selected_cpu_index. destruct (omap _ _) as [|n []] eqn:E; try done. intros [= <-].
  assert (n ∈ omap starred_cpu (split1 10 cpus)) as (l & _ & Hn)%list_elem_of_omap by (rewrite E; by left).
  unfold starred_cpu in Hn. destruct (startswith _ _); [|done]. destruct (span _ _) as [ds [|c r]]; [done|].
  repeat case_match; try done. by apply parse_digits_nonneg in Hn.
Qed.
Lemma freeze_cpu : yields (freeze out) (λ x _, 0 ≤ x.2).
Proof.
  unfold freeze. do 2 (apply wp_next; intros ?). destruct (negb _); [by intros h|].
  do 8 (apply wp_next; intros ?). eapply wp_know; [apply wp_lifted|]. intros cpu Hc.
  do 3 (apply wp_next; intros ?). intros h. apply wp_ret. exact (selected_nonneg _ _ Hc).
Qed.
Lemma check_disk_chain :
  yields (check_disk o resolve out disk) (λ chain _, ∃ info, qcow2_backing_chain resolve (o_files o) info disk = Ok chain).
Proof.
  unfold check_disk. do 3 (apply wp_next; intros ?). apply wp_next. intros info.
  eapply wp_know; [apply wp_lifted|]. intros [|e [|e' chain]] Hc; [by intros h..|].
  destruct (bool_decide _); intros h; [|done]. apply wp_ret. by exists info.
Qed.
Lemma main_faithful :
  yields (main o resolve finditer tag out monitor disk serial_log marker_regex timeout) (λ m _, faithful m).
Proof.
  unfold main. eapply wp_know; [apply own_source_argv|]. intros [[pid argv] environ] Hargv.
  do 3 (apply wp_next; intros ?). eapply wp_know; [apply freeze_cpu|]. intros [pc cpu] Hcpu.
  apply wp_next. intros [marker clock_last]. do 2 (apply wp_next; intros ?).
  eapply wp_know; [apply check_disk_chain|]. intros chain Hchain.
  eapply wp_know; [apply wp_lifted|]. intros m Hm. apply wp_next. intros [] h. apply wp_ret.
  unfold manifest_of in Hm. simpl_res. cbn in *. constructor; cbn; eauto.
Qed.
End recorded.

(** ** A run *)

Definition sample_argv : list text :=
  map u ["/bin/qemu-system-aarch64"; "-drive"; "file=/d/top.qcow2,id=ans"; "-monitor"; "unix:/m,server"; "-serial"; "file:/s.log"].
Definition sample_host_files (p : text) : option (list byte) :=
  if bool_decide (p = u "/c/vmstate.bin") then Some (replicate 4096 x2a)
  else if bool_decide (p = u "/bin/qemu-system-aarch64") then Some (b "ELF")
  else if bool_decide (p = u "/s.log") then Some (b "0x0000000000000010 up")
  else sample_files p.
Definition sample_observed : observed :=
  Observed (Ok 42) (Ok (sample_argv, [(u "HOME", u "/"); (u "DARWIN_A", u "1")]))
    (Ok (u "darwin-vm-qemu-launch-v1", sample_argv, [(u "DARWIN_A", u "1")])) true (Ok ()) (Ok 100)
    (Ok (b "0x0000000000000010 up")) None (Ok (u "No errors"))
    (Ok (Some [ImgInfo (u "/d/top.qcow2") (u "qcow2") 4096; ImgInfo (u "/d/base.dmg") (u "raw") 4096])) sample_host_files.
Definition sample_script : list (N * option text) :=
  map (λ s, (5%N, Some (u s)))
    [""; "VM status: paused"; "PC=0100 X03=0"; ""; ""; "* CPU #1: thread_id=1"; ""; ""; ""; "";
     "Migration status: active"; "Migration status: completed"; ""].
Abbreviation sample_capture script regex :=
  (main sample_observed id (λ _ _, []) (u "t1") (u "/c") (u "/m") (u "/d/top.qcow2") (u "/s.log") regex 600000
    (Host 0 script [true; true; true; true; false] [])).

(** The capture of a healthy guest is recorded. *)
Example sample_recorded :
  ∃ m, (sample_capture sample_script []).1 = Ok m ∧ m_cpu m = CpuInt 1 ∧ m_source_pc m = u "0100" ∧ m_clock_last m = Some 16.
Proof. eexists. by vm_compute. Qed.

(** A marker that is absent is noticed after the stop: the guest is left paused. *)
Example absent_marker_leaves_paused :
  (sample_capture sample_script (u "launchd")).1
  = Raise (RuntimeError "the requested guest marker is absent from the serial log")
  ∧ accepts (u "/c") (u "/d/top.qcow2") Untouched (acts (sample_capture sample_script (u "launchd")).2) = Some Paused.
Proof. by vm_compute. Qed.
