(* ===== verification/Restore.v ===== *)
(** * Restoring a checkpoint: [main] of [tools/restore_checkpoint.py]

    As in [Capture], the monitor and the child process are scripts of what
    happens next, with the milliseconds it takes: the monitor's answers, what
    [proc.poll] and [proc.wait] give, the polls for the monitor's socket, and a
    tick per pass of the observation loop ([ps] and the serial log's growth).
    A monitor whose script is used up refuses the connection; a process whose
    polls are used up still runs.  An exit that was noticed is remembered, as
    [subprocess] does.  What a run does is a list of actions, with the
    monitor's answers. *)

From stdpp Require Import base tactics list strings sets.
From Stdlib Require Import Strings.Byte.
From S2P Require Import Prelude PyState PyBytes PyStr PyDict Sha256 Checkpoint Capture.
Open Scope Z_scope.

(** ** The host *)

(** The report's findings. *)
Record report := Report {
  rp_restored_pc : text; rp_after_pc : text; rp_first_panic : text; rp_sptm_panic : text;
  rp_peak_rss : Z; rp_ended_on_panic : bool; rp_acceptance : acceptance;
}.
Inductive act :=
  | MakeOut (path : text)
  | CreateChild (backing child : text)
  | WriteLaunch (argv : list text) (env : env_t)
  | Start (argv : list text) (env : env_t)
  | PidFile (pid : Z)
  | Monitor (command : text) (reply : option text)
  | Registers (name content : text)
  | ActivateDisks
  | WriteReport (r : report)
  | Terminate
  | Kill
  | Exited (status : Z).
(** What [ps] prints ([None]: it fails) and what the log has grown by. *)
Record tick := Tick { tk_ps : N * option text; tk_read : N * list byte }.
Record host := Host {
  clock : Z;
  replies : list (N * option text);
  polls : list (option Z);
  waits : list (option Z);
  appears : list bool;
  ticks : list tick;
  proc : option (option Z);
  acts : list act;
}.
Abbreviation RM := (SE host).

Definition note (a : act) : RM () := update (λ h,
  Host (clock h) (replies h) (polls h) (waits h) (appears h) (ticks h) (proc h) (acts h ++ [a])).
Definition pass_time (ms : Z) : RM () := update (λ h,
  Host (clock h + ms) (replies h) (polls h) (waits h) (appears h) (ticks h) (proc h) (acts h)).
Definition set_proc (p : option (option Z)) : RM () := update (λ h,
  Host (clock h) (replies h) (polls h) (waits h) (appears h) (ticks h) p (acts h)).
(** [HMP.command]. *)
Definition hmp (command : text) : RM text :=
  r ← gets (λ h, default (0%N, None) (head (replies h)));
  _ ← update (λ h, Host (clock h) (tail (replies h)) (polls h) (waits h) (appears h) (ticks h) (proc h) (acts h));
  _ ← pass_time (Z.of_N r.1);
  _ ← note (Monitor command r.2);
  lift (opt_or r.2 OSError).
Definition exited (status : Z) : RM () := _ ← note (Exited status); set_proc (Some (Some status)).
(** [proc.poll()]. *)
Definition poll : RM (option Z) :=
  known ← gets (λ h, mjoin (proc h));
  match known with
  | Some status => mret (Some status)
  | None =>
      p ← gets (λ h, mjoin (head (polls h)));
      _ ← update (λ h, Host (clock h) (replies h) (tail (polls h)) (waits h) (appears h) (ticks h) (proc h) (acts h));
      match p with Some status => _ ← exited status; mret (Some status) | None => mret None end
  end.
(** [proc.wait(timeout=10)]: whether the process exited in time. *)
Definition wait : RM bool :=
  known ← gets (λ h, mjoin (proc h));
  match known with
  | Some _ => mret true
  | None =>
      w ← gets (λ h, mjoin (head (waits h)));
      _ ← update (λ h, Host (clock h) (replies h) (polls h) (tail (waits h)) (appears h) (ticks h) (proc h) (acts h));
      match w with Some status => _ ← exited status; mret true | None => mret false end
  end.
(** [wait_for_path]: a pass takes 100 ms. *)
Fixpoint path_from (fuel : nat) (deadline : Z) : RM () :=
  now ← gets clock;
  if now <? deadline then
    match fuel with
    | O => raise OutOfFuel
    | S fuel =>
        there ← gets (λ h, default false (head (appears h)));
        _ ← update (λ h, Host (clock h) (replies h) (polls h) (waits h) (tail (appears h)) (ticks h) (proc h) (acts h));
        if (there : bool) then mret () else _ ← pass_time 100; path_from fuel deadline
    end
  else raise (RuntimeError "timed out waiting").
Definition wait_for_path (ms : Z) : RM () :=
  now ← gets clock; path_from (Z.to_nat (ms / 100 + 1)) (now + ms).

(** What the run reads of the host: the manifest (its format and its fields),
    the CPU inventory it names, the files and the disk's mode, the sockets that
    are there already; the creation of the output directory and of the child
    disk, the environment, the start of the process and the pid file; the QMP
    connection; the sizes before the observation and the logs after it. *)
Record observed := Observed {
  v_manifest : res (text * manifest);
  v_inventory : res (option text);
  v_files : text → option (list byte);
  v_mode : Z;
  v_taken : bool;
  v_mkdir : res ();
  v_create : res ();
  v_environ : env_t;
  v_popen : res Z;
  v_pid_file : res ();
  v_qmp : option (bool * list qmp_response);
  v_serial_before : Z;
  v_stderr_before : Z;
  v_serial : option (list byte);
  v_stderr : option (list byte);
}.
(** The command line; [a_out] and the socket paths are resolved. *)
Record arguments := Arguments {
  a_tag : text; a_gdb_port : option Z; a_observe : Z; a_paused : bool; a_qemu : option text;
  a_model_env : list text; a_display : option text;
  a_out : text; a_monitor : text; a_uart : text; a_qmp : text;
}.

Section main.
Variable o : observed.
Variable a : arguments.
Variable resolve : text → text.

(** ** Verification, before anything is created *)

Definition hash_is (path sha : text) (msg : string) : res () :=
  bytes ← opt_or (v_files o path) OSError;
  raise_if negb (bool_decide (sha256_hex bytes = sha)) with RuntimeError msg ;;
  Ok ().
Definition verify_input (source_qemu : text) (_ : ()) (input : text * (text * Z)) : res () :=
  if bool_decide (a_qemu a ≠ None) && bool_decide (resolve input.1 = source_qemu) then Ok ()
  else match v_files o input.1 with
       | Some bytes =>
           raise_if negb (bool_decide (sha256_hex bytes = input.2.1)) with RuntimeError "QEMU input differs from checkpoint source" ;;
           Ok ()
       | None => Raise (RuntimeError "QEMU input differs from checkpoint source")
       end.
Definition source_qemu (m : manifest) : text := resolve (List.hd [] (m_argv m)).
Definition chosen_qemu (m : manifest) : text := default (source_qemu m) (resolve <$> a_qemu a).
Definition verify_qemu (m : manifest) : res () :=
  raise_if bool_decide (m_argv m = []) with IndexError ;;
  bytes ← opt_or (v_files o (chosen_qemu m)) OSError;
  raise_if bool_decide (a_qemu a = None)
           && match dget (source_qemu m) (m_inputs m) with
              | Some (sha, _) => negb (bool_decide (sha = [])) && negb (bool_decide (sha256_hex bytes = sha))
              | None => false
              end
    with RuntimeError "QEMU binary differs from the checkpoint source" ;;
  res_foldl (verify_input (source_qemu m)) () (m_inputs m).
Definition verify_manifest (m : manifest) : res () :=
  _ ← hash_is (pin_path (m_vmstate m)) (pin_sha256 (m_vmstate m)) "VM-state hash mismatch";
  _ ← hash_is (pin_path (m_disk m)) (pin_sha256 (m_disk m)) "immutable checkpoint disk hash mismatch";
  raise_if negb (Z.land (v_mode o) 0x92 =? 0) with RuntimeError "checkpoint disk has regained write permission" ;;
  verify_backing_chain (v_files o) (m_chain m).
(** The options, the manifest's own fields, the files, the sockets, the binary:
    the manifest, the source CPU and the overrides of the environment. *)
Definition verify : res (manifest * Z * env_t) :=
  overrides ← match parse_model_env_overrides (a_model_env a) with
              | Raise (ValueError msg) => Raise (SystemExit msg)
              | r => r
              end;
  raise_if negb (safe_tag (a_tag a))
    with SystemExit "--tag must use 1-64 letters, digits, dots, underscores or dashes" ;;
  raise_if a_observe a <? 0 with SystemExit "--observe-seconds must be non-negative" ;;
  '(format, m) ← v_manifest o;
  raise_if negb (bool_decide (format = u "darwin-vm-external-checkpoint-v1"))
    with RuntimeError "unsupported checkpoint manifest format" ;;
  inventory ← match m_cpu m with CpuAbsent => v_inventory o | _ => Ok None end;
  cpu ← checkpoint_source_cpu (m_cpu m) inventory;
  _ ← verify_manifest m;
  raise_if v_taken o with RuntimeError "refusing to reuse existing socket path" ;;
  _ ← verify_qemu m;
  Ok (m, cpu, overrides).

(** ** The child process *)

Definition child_disk : text := a_out a ++ u "/disk.qcow2".
Definition endpoints_of (m : manifest) : endpoints :=
  Endpoints (pin_path (m_disk m)) child_disk (a_monitor a) (a_out a ++ u "/serial.log") (a_uart a)
    (pin_path (m_vmstate m)) (a_gdb_port a).
Definition launch (m : manifest) (overrides : env_t) : RM Z :=
  _ ← lift (v_mkdir o);
  _ ← note (MakeOut (a_out a));
  _ ← lift (v_create o);
  _ ← note (CreateChild (pin_path (m_disk m)) child_disk);
  argv ← lift (launch_argv resolve (m_argv m) (endpoints_of m) (chosen_qemu m) (a_display a) (a_paused a) (a_qmp a));
  let env := restore_env (v_environ o) (m_env m) overrides in
  _ ← note (WriteLaunch argv (model_env env));
  pid ← lift (v_popen o);
  _ ← note (Start argv env);
  _ ← set_proc (Some None);
  _ ← lift (v_pid_file o);
  _ ← note (PidFile pid);
  mret pid.

(** The polling of the incoming migration: a pass takes 200 ms. *)
Fixpoint incoming_from (fuel : nat) (deadline : Z) : RM () :=
  match fuel with
  | O => raise OutOfFuel
  | S fuel =>
      p ← poll;
      match p with
      | Some _ => raise (RuntimeError "restored QEMU exited")
      | None =>
          status ← hmp (u "info status");
          migration ← hmp (u "info migrate -a");
          let m := parse_migration_status migration in
          if contains (u "paused") status && bool_decide (m = u "completed") then mret ()
          else if bool_decide (m = u "failed") || bool_decide (m = u "cancelled") then raise (RuntimeError "migration")
          else
            now ← gets clock;
            if deadline <=? now
            then raise (RuntimeError "restored QEMU did not finish incoming migration in the paused state")
            else _ ← pass_time 200; incoming_from fuel deadline
      end
  end.
(** The witness CPU, its program counter, and in paused mode the disks. *)
Definition check_arrival (m : manifest) (cpu : Z) : RM text :=
  _ ← hmp (u "cpu " ++ dec cpu);
  cpus ← hmp (u "info cpus");
  selected ← lift (selected_cpu_index cpus);
  if negb (selected =? cpu) then raise (RuntimeError "restored VM does not have the source witness CPU")
  else
    registers ← hmp (u "info registers");
    restored_pc ← lift (parse_pc registers);
    _ ← note (Registers (u "pre-resume-registers.txt") (registers ++ [10]));
    if negb (bool_decide (restored_pc = m_source_pc m)) then raise (RuntimeError "restored PC != checkpoint PC")
    else if a_paused a then
      '(greeting, responses) ← lift (opt_or (v_qmp o) OSError);
      _ ← lift (activate_paused_disks greeting responses);
      _ ← note ActivateDisks;
      status ← hmp (u "info status");
      advanced ← (if negb (contains (u "paused") status) then mret true
                  else registers ← hmp (u "info registers"); pc ← lift (parse_pc registers);
                       mret (negb (bool_decide (pc = restored_pc))));
      if (advanced : bool) then raise (RuntimeError "guest advanced during paused block activation") else mret restored_pc
    else mret restored_pc.

(** The observation: whether a panic was seen, and the peak of [ps]. *)
Definition last_32 (l : list byte) : list byte := zdrop (zlen l - 32) l.
Definition rss_of (reply : text) (peak : Z) : res Z :=
  if bool_decide (strip reply = []) then Ok peak else n ← int10 (strip reply); Ok (Z.max peak n).
Fixpoint observe_from (fuel : nat) (deadline : Z) (tail_ : list byte) (peak : Z) : RM (bool * Z) :=
  now ← gets clock;
  if now <? deadline then
    match fuel with
    | O => raise OutOfFuel
    | S fuel =>
        p ← poll;
        match p with
        | Some _ => raise (RuntimeError "restored QEMU exited")
        | None =>
            t ← gets (λ h, default (Tick (0%N, Some []) (0%N, [])) (head (ticks h)));
            _ ← update (λ h, Host (clock h) (replies h) (polls h) (waits h) (appears h) (tail (ticks h)) (proc h) (acts h));
            _ ← pass_time (Z.of_N (tk_ps t).1);
            reply ← lift (opt_or (tk_ps t).2 (RuntimeError "CalledProcessError"));
            peak ← lift (rss_of reply peak);
            _ ← pass_time (Z.of_N (tk_read t).1);
            let scan := tail_ ++ (tk_read t).2 in
            if negb (bool_decide ((tk_read t).2 = [])) && contains (b "panic(cpu") scan then mret (true, peak)
            else
              let tail_ := if bool_decide ((tk_read t).2 = []) then tail_ else last_32 scan in
              now ← gets clock;
              if deadline - now <? 0 then raise (ValueError "sleep length must be non-negative")
              else _ ← pass_time (Z.min 500 (deadline - now)); observe_from fuel deadline tail_ peak
        end
    end
  else mret (false, peak).
Definition observe_ms : Z := if a_paused a then 0 else a_observe a * 1000.
Definition observe : RM (bool * Z) :=
  now ← gets clock; observe_from (Z.to_nat (observe_ms / 500 + 2)) (now + observe_ms) [] 0.

(** The verdict on a stopped guest. *)
Definition assess (m : manifest) (pid : Z) (restored_pc : text) (seen : bool * Z) : RM report :=
  _ ← hmp (u "stop");
  after ← hmp (u "info registers");
  after_pc ← lift (parse_pc after);
  sptm ← sptm_panic_message (λ _, lift) hmp after;
  _ ← note (Registers (u "post-observation-registers.txt") (after ++ [10]));
  let serial := zdrop (v_serial_before o) (default [] (v_serial o)) in
  let qemu := zdrop (v_stderr_before o) (default [] (v_stderr o)) in
  mret (Report restored_pc after_pc (first_panic (utf8_replace serial)) sptm seen.2 seen.1
          (judge (Observation pid (m_source_pid m) restored_pc (m_source_pc m) after_pc sptm serial qemu (m_clock_last m)))).
Definition panicked (r : report) : bool :=
  negb (bool_decide (rp_first_panic r = [])) || negb (bool_decide (rp_sptm_panic r = [])).

(** The body of the [try]: its exit code. *)
Definition attend (m : manifest) (cpu pid : Z) : RM Z :=
  _ ← wait_for_path 120000;
  now ← gets clock;
  _ ← incoming_from 601 (now + 120000);
  restored_pc ← check_arrival m cpu;
  _ ← (if a_paused a then mret [] else hmp (u "cont"));
  seen ← observe;
  r ← assess m pid restored_pc seen;
  _ ← note (WriteReport r);
  if panicked r then
    _ ← hmp (u "quit");
    gone ← wait;
    if (gone : bool) then mret 1
    else
      _ ← note Terminate;
      gone ← wait;
      if (gone : bool) then mret 1 else raise (RuntimeError "TimeoutExpired")
  else
    _ ← (if a_paused a then mret [] else hmp (u "cont"));
    mret 0.

(** [except Exception]: the child is reaped. *)
Definition reap : RM () :=
  p ← poll;
  match p with
  | Some _ => mret ()
  | None =>
      _ ← (λ h, match hmp (u "quit") h with
                | (Ok _, h) => (Ok (), h)
                | (Raise _, h) => note Terminate h
                end);
      gone ← wait;
      if (gone : bool) then mret () else _ ← note Kill; exited (-9)
  end.
Definition guarded {A} (body : RM A) : RM A := λ h,
  match body h with
  | (Ok r, h) => (Ok r, h)
  | (Raise e, h) => (_ ← reap; raise e) h
  end.
Definition main : RM Z :=
  '(m, cpu, overrides) ← lift verify;
  pid ← launch m overrides;
  guarded (attend m cpu pid).
End main.

(** ** The life cycle of a restore

    The abstract specification.  [Loading]: the child runs and is polled, with
    whether its last status was paused; [Selected]: the inventory names the
    witness CPU; [Matched]: its program counter is the checkpoint's.  Only a
    matched guest is resumed, and only when it is not to be left paused. *)

Inductive stage :=
  | Fresh | Made | Cloned | Filed (argv : list text) | Born
  | Loading (paused : bool) | Arrived | Selected | Matched | Resumed | Halted | Reported (panic : bool) | Left
  | Ending | Gone.
(** The child exists, was not seen to exit, and the [try] has begun. *)
Definition watched (s : stage) : bool :=
  match s with Fresh | Made | Cloned | Filed _ | Born | Gone => false | _ => true end.
Inductive kind := KQuit | KStatus | KMigrate | KCpu | KCpus | KRegisters | KCont | KStop | KExamine | KOther.

Section automaton.
Context (m : manifest) (cpu : Z) (paused : bool).

Definition kind_of (command : text) : kind :=
  if bool_decide (command = u "quit") then KQuit
  else if bool_decide (command = u "info status") then KStatus
  else if bool_decide (command = u "info migrate -a") then KMigrate
  else if bool_decide (command = u "info cpus") then KCpus
  else if bool_decide (command = u "info registers") then KRegisters
  else if bool_decide (command = u "cont") then KCont
  else if bool_decide (command = u "stop") then KStop
  else if startswith (u "x/") command then KExamine
  else if bool_decide (command = u "cpu " ++ dec cpu) then KCpu
  else KOther.
Definition says_paused (reply : option text) : bool :=
  match reply with Some t => contains (u "paused") t | None => false end.
Definition selects (reply : option text) : bool :=
  match reply with Some t => match selected_cpu_index t with Ok n => n =? cpu | _ => false end | None => false end.
Definition matches (reply : option text) : bool :=
  match reply with Some t => match parse_pc t with Ok pc => bool_decide (pc = m_source_pc m) | _ => false end | None => false end.
Definition on_command (s : stage) (k : kind) (reply : option text) : option stage :=
  match s, k with
  | Loading _, KStatus => Some (Loading (says_paused reply))
  | Loading ready, KMigrate => Some (if ready && completed reply then Arrived else Loading false)
  | Arrived, KCpu => Some Arrived
  | Arrived, KCpus => Some (if selects reply then Selected else Arrived)
  | Selected, KRegisters => Some (if matches reply then Matched else Selected)
  | Matched, (KStatus | KRegisters) => if paused then Some Matched else None
  | Matched, KCont => if paused then None else Some Resumed
  | Matched, KStop => if paused then Some Halted else None
  | Resumed, KStop => Some Halted
  | Halted, (KRegisters | KExamine) => Some Halted
  | Reported false, KCont => if paused then None else Some Left
  | _, _ => None
  end.
Definition stage_step (s : stage) (a : act) : option stage :=
  match s, a with
  | Fresh, MakeOut _ => Some Made
  | Made, CreateChild backing _ => if bool_decide (backing = pin_path (m_disk m)) then Some Cloned else None
  | Cloned, WriteLaunch argv _ => Some (Filed argv)
  | Filed argv, Start argv' _ => if bool_decide (argv' = argv) then Some Born else None
  | Born, PidFile _ => Some (Loading false)
  | (Selected | Matched | Halted), Registers _ _ => Some s
  | Matched, ActivateDisks => if paused then Some Matched else None
  | Halted, WriteReport r => Some (Reported (panicked r))
  | Ending, (Terminate | Kill) => Some Ending
  | _, Exited _ => if watched s then Some Gone else None
  | _, Monitor c reply =>
      match kind_of c with
      | KQuit => if watched s then Some Ending else None
      | k => on_command s k reply
      end
  | _, _ => None
  end.
Fixpoint accepts (s : stage) (t : list act) : option stage :=
  match t with [] => Some s | a :: t => s ← stage_step s a; accepts s t end.
Lemma restore_accepts_app s t t' : accepts s (t ++ t') = s ← accepts s t; accepts s t'.
Proof. revert s. induction t as [|a t IH]; intros s; cbn; [done|]. by destruct (stage_step s a); cbn. Qed.

(** The run has come to [s]; what is known of the child agrees. *)
Definition known (s : stage) (p : option (option Z)) : Prop :=
  match s with
  | Fresh | Made | Cloned | Filed _ => p = None
  | Gone => ∃ status, p = Some (Some status)
  | _ => p = Some None
  end.
Definition at_stage (s : stage) (h : host) : Prop := accepts Fresh (acts h) = Some s ∧ known s (proc h).
(** A body of the [try], before the child is reaped. *)
Definition loose (_ : exn) (h : host) : Prop := ∃ s, at_stage s h ∧ (watched s = true ∨ s = Gone).

Lemma known_watched s p : watched s = true → known s p → p = Some None.
Proof. by destruct s. Qed.
Lemma watched_known s : watched s = true → known s (Some None).
Proof. by destruct s. Qed.

Section rules.
Context {A : Type} (Q : A → host → Prop).

(** An action that starts nothing and ends nothing. *)
Lemma restore_note E s s' a (k : () → RM A) h :
  at_stage s h → stage_step s a = Some s' → (∀ p, known s p → known s' p) →
  (∀ h', at_stage s' h' → wp (k ()) Q E h') → wp (note a ≫= k) Q E h.
Proof.
  intros [Ha Hk] Hs Hp Hw. apply wp_bind, wp_update, Hw. split; cbn; [by rewrite restore_accepts_app, Ha; cbn; rewrite Hs|auto].
Qed.
Lemma restore_raise s e h : at_stage s h → watched s = true ∨ s = Gone → wp (raise e) Q loose h.
Proof. intros Hl Hr. apply wp_raise. by exists s. Qed.
Lemma restore_lift {B} s (r : res B) (k : B → RM A) h :
  at_stage s h → watched s = true → (∀ b, r = Ok b → wp (k b) Q loose h) → wp (lift r ≫= k) Q loose h.
Proof. intros Hl Hr Hk. apply wp_bind, wp_lift; [intros c Hb; by apply Hk|intros e _; exists s; auto]. Qed.
Lemma hmp_spec s c (s' : option text → stage) h :
  at_stage s h → watched s = true → (∀ r, stage_step s (Monitor c r) = Some (s' r)) → (∀ r, watched (s' r) = true) →
  wp (hmp c) (λ t, at_stage (s' (Some t))) (λ _, at_stage (s' None)) h.
Proof.
  intros [Ha Hk] Hw Hs Hne. unfold hmp. apply wp_bind, wp_gets.
  set (r := default (0%N, None) (head (replies h))).
  apply wp_bind, wp_update, wp_bind, wp_update, wp_bind, wp_update.
  match goal with |- wp _ _ _ ?h' => assert (at_stage (s' r.2) h') as Hl' end.
  { split; cbn; [by rewrite restore_accepts_app, Ha; cbn; rewrite Hs|].
    apply known_watched in Hk; [|done]. rewrite Hk. by apply watched_known. }
  apply wp_lift; destruct r.2; [by intros t [= <-]|done..].
Qed.
Lemma restore_hmp s c (s' : option text → stage) (k : text → RM A) h :
  at_stage s h → watched s = true → (∀ r, stage_step s (Monitor c r) = Some (s' r)) → (∀ r, watched (s' r) = true) →
  (∀ t h', at_stage (s' (Some t)) h' → wp (k t) Q loose h') → wp (hmp c ≫= k) Q loose h.
Proof.
  intros Hl Hw Hs Hne Hq. apply wp_bind. eapply wp_mono; [by eapply hmp_spec|done|].
  intros e h' H. eexists. split; [exact H|auto].
Qed.
End rules.

Lemma at_gone h s status h' :
  at_stage s h → watched s = true → acts h' = acts h ++ [Exited status] → proc h' = Some (Some status) → at_stage Gone h'.
Proof.
  intros [Ha _] Hw Hh Hp. split; [|rewrite Hp; by eexists]. rewrite Hh, restore_accepts_app, Ha. cbn. by destruct s.
Qed.
Lemma restore_poll E s h :
  at_stage s h → watched s = true ∨ s = Gone →
  wp poll (λ p h', match p with Some _ => at_stage Gone h' | None => at_stage s h' ∧ watched s = true end) E h.
Proof.
  intros Hl Hw. unfold poll. apply wp_bind, wp_gets. destruct (mjoin (proc h)) as [status|] eqn:Ep.
  { apply wp_ret. destruct Hw as [Hw| ->]; [|done]. destruct Hl as [_ Hk].
    apply known_watched in Hk; [|done]. by rewrite Hk in Ep. }
  assert (watched s = true) as Hs.
  { destruct Hw as [| ->]; [done|]. destruct Hl as [_ [st Hk]]. by rewrite Hk in Ep. }
  apply wp_bind, wp_gets, wp_bind, wp_update. destruct (mjoin (head (polls h))) as [status|].
  - unfold exited, note, set_proc. do 2 apply wp_bind. apply wp_update, wp_update, wp_ret. by eapply at_gone.
  - apply wp_ret. by split.
Qed.
Lemma restore_wait E s h :
  at_stage s h → watched s = true ∨ s = Gone →
  wp wait (λ gone h', if (gone : bool) then at_stage Gone h' else at_stage s h' ∧ watched s = true) E h.
Proof.
  intros Hl Hw. unfold wait. apply wp_bind, wp_gets. destruct (mjoin (proc h)) as [status|] eqn:Ep.
  { apply wp_ret. destruct Hw as [Hw| ->]; [|done]. destruct Hl as [_ Hk].
    apply known_watched in Hk; [|done]. by rewrite Hk in Ep. }
  assert (watched s = true) as Hs.
  { destruct Hw as [| ->]; [done|]. destruct Hl as [_ [st Hk]]. by rewrite Hk in Ep. }
  apply wp_bind, wp_gets, wp_bind, wp_update. destruct (mjoin (head (waits h))) as [status|].
  - unfold exited, note, set_proc. do 2 apply wp_bind. apply wp_update, wp_update, wp_ret. by eapply at_gone.
  - apply wp_ret. by split.
Qed.
End automaton.

(** The rules for the commands at hand. *)
Ltac step_hmp f t H := eapply (restore_hmp _ _ _ _ _ _ f); [eassumption|reflexivity|intros ?; reflexivity|
  intros []; cbn; repeat case_match; done|intros t ? H].
Ltac step_note := eapply restore_note; [eassumption|reflexivity|done|intros ? ?].
Ltac fails := eapply restore_raise; [eassumption|by auto].

Section lifecycle.
Variable o : observed.
Variable a : arguments.
Variable resolve : text → text.
Context (m : manifest) (cpu : Z) (paused : bool) (Hpaused : a_paused a = paused).
Abbreviation at_ := (at_stage m cpu paused).
Abbreviation loose_ := (loose m cpu paused).

Lemma path_spec E s fuel deadline h :
  at_ s h → (∀ e h', at_ s h' → E e h') → wp (path_from fuel deadline) (λ _, at_ s) E h.
Proof.
  intros Hl HE. revert h Hl. induction fuel as [|fuel IH]; intros h Hl; cbn [path_from]; apply wp_bind, wp_gets;
    (destruct (_ <? _); [|apply wp_raise; auto]); [apply wp_raise; auto|].
  apply wp_bind, wp_gets, wp_bind, wp_update. destruct (default _ _); [by apply wp_ret|].
  apply wp_bind, wp_update. by apply IH.
Qed.
Lemma incoming_spec fuel deadline ready h :
  at_ (Loading ready) h → wp (incoming_from fuel deadline) (λ _, at_ Arrived) loose_ h.
Proof.
  revert ready h. induction fuel as [|fuel IH]; intros ready h Hl; cbn [incoming_from]; [fails|].
  eapply wp_then; [eapply restore_poll; [exact Hl|by left]|]. intros [status|] h1 H1; cbn in H1; [fails|].
  destruct H1 as [H1 _].
  step_hmp (λ r, Loading (says_paused r)) status H2.
  step_hmp (λ r, if says_paused (Some status) && completed r then Arrived else Loading false) migration H3.
  cbn [says_paused completed] in H3. cbv zeta. destruct (_ && _); [by apply wp_ret|]. destruct (_ || _); [fails|].
  apply wp_bind, wp_gets. destruct (_ <=? _); [fails|]. apply wp_bind, wp_update. by eapply IH.
Qed.
Lemma select_step r : stage_step m cpu paused Arrived (Monitor (u "cpu " ++ dec cpu) r) = Some Arrived.
Proof. cbn. unfold kind_of. by rewrite (bool_decide_true (u "cpu " ++ dec cpu = u "cpu " ++ dec cpu)). Qed.
Lemma check_arrival_spec h : at_ Arrived h → wp (check_arrival o a m cpu) (λ _, at_ Matched) loose_ h.
Proof.
  intros Hl. unfold check_arrival.
  eapply (restore_hmp _ _ _ _ _ _ (λ _, Arrived)); [exact Hl|done|exact select_step|done|]. intros _ h0 H0.
  step_hmp (λ r, if selects cpu r then Selected else Arrived) cpus H1.
  eapply restore_lift; [exact H1|by destruct (selects _ _)|]. intros n Hn. cbn [selects] in H1. rewrite Hn in H1.
  destruct (n =? cpu); cbn [negb]; [|fails].
  step_hmp (λ r, if matches m r then Matched else Selected) registers H2.
  eapply restore_lift; [exact H2|by destruct (matches _ _)|]. intros pc Hpc. cbn [matches] in H2. rewrite Hpc in H2.
  eapply (restore_note _ _ _ _ _ _ (if bool_decide (pc = m_source_pc m) then Matched else Selected)); [exact H2|by destruct (bool_decide _)|by destruct (bool_decide _)|].
  intros h3 H3. destruct (bool_decide (pc = _)); cbn [negb]; [|fails].
  rewrite Hpaused. destruct paused; [|by apply wp_ret].
  eapply restore_lift; [eassumption|done|intros [greeting responses] _].
  eapply restore_lift; [eassumption|done|intros [] _]. step_note.
  step_hmp (λ _ : option text, Matched) status H5.
  eapply (wp_then _ _ (λ _, at_stage m cpu true Matched)).
  { destruct (negb _); [by apply wp_ret|]. step_hmp (λ _ : option text, Matched) again H6.
    eapply restore_lift; [eassumption|done|intros pc' _]. by apply wp_ret. }
  intros [] h7 H7; cbn in H7; [fails|by apply wp_ret].
Qed.
Lemma observe_spec s fuel deadline tail_ peak h :
  at_ s h → watched s = true → wp (observe_from fuel deadline tail_ peak) (λ _, at_ s) loose_ h.
Proof.
  intros Hl Hs. revert tail_ peak h Hl. induction fuel as [|fuel IH]; intros tail_ peak h Hl; cbn [observe_from]; apply wp_bind, wp_gets;
    (destruct (_ <? _); [|by apply wp_ret]); [fails|].
  eapply wp_then; [eapply restore_poll; [exact Hl|by left]|]. intros [status|] h1 H1; cbn in H1; [fails|]. destruct H1 as [H1 _].
  apply wp_bind, wp_gets, wp_bind, wp_update, wp_bind, wp_update.
  eapply (restore_lift _ _ _ _ s); [exact H1|done|intros reply _].
  eapply (restore_lift _ _ _ _ s); [exact H1|done|intros peak' _].
  apply wp_bind, wp_update. cbv zeta. destruct (_ && _); [by apply wp_ret|].
  apply wp_bind, wp_gets. destruct (_ <? 0); [fails|]. apply wp_bind, wp_update. by apply IH.
Qed.
Lemma panic_message_spec registers (Q : text → host → Prop) h :
  at_ Halted h → (∀ t h', at_ Halted h' → Q t h') → wp (sptm_panic_message (λ _, lift) hmp registers) Q loose_ h.
Proof.
  intros Hl HQ. unfold sptm_panic_message.
  eapply restore_lift; [eassumption|done|intros pcs _]. eapply restore_lift; [eassumption|done|intros pc _].
  destruct (hex_field _ _ _); [|by apply wp_ret, HQ]. step_hmp (λ _ : option text, Halted) instruction H1.
  destruct (branch_operand _ _); [|by apply wp_ret, HQ]. eapply restore_lift; [eassumption|done|intros target _].
  destruct (negb _); [by apply wp_ret, HQ|]. eapply restore_lift; [eassumption|done|intros x3 _].
  step_hmp (λ _ : option text, Halted) raw H2. by apply wp_ret, HQ.
Qed.
Lemma assess_spec s pid restored_pc seen h :
  at_ s h → s = (if paused then Matched else Resumed) → wp (assess o m pid restored_pc seen) (λ _, at_ Halted) loose_ h.
Proof.
  intros Hl Hs. unfold assess.
  eapply (restore_hmp _ _ _ _ _ _ (λ _, Halted)); [exact Hl|by rewrite Hs; destruct paused|by rewrite Hs; destruct paused|done|].
  intros _ h1 H1. step_hmp (λ _ : option text, Halted) after H2.
  eapply restore_lift; [eassumption|done|intros after_pc _].
  eapply wp_then; [apply (panic_message_spec _ (λ _, at_ Halted)); [exact H2|done]|]. intros sptm h3 H3. cbn beta in H3.
  step_note. by apply wp_ret.
Qed.
(** What a restore leaves when it returns. *)
Definition returned (code : Z) (h : host) : Prop :=
  (code = 0 ∧ at_ (if paused then Reported false else Left) h) ∨ (code = 1 ∧ at_ Gone h).
Lemma quit_spec h : at_ (Reported true) h →
  wp (_ ← hmp (u "quit"); gone ← wait;
      if (gone : bool) then mret 1
      else _ ← note Terminate; gone ← wait; if (gone : bool) then mret 1 else raise (RuntimeError "TimeoutExpired"))
    returned loose_ h.
Proof.
  intros Hl. step_hmp (λ _ : option text, Ending) reply H1.
  eapply wp_then; [eapply restore_wait; [exact H1|by left]|]. intros [] h2 H2; cbn in H2; [apply wp_ret; by right|].
  destruct H2 as [H2 _]. step_note.
  eapply wp_then; [eapply restore_wait; [eassumption|by left]|]. intros [] h3 H3; cbn in H3; [apply wp_ret; by right|].
  destruct H3 as [H3 _]. fails.
Qed.
Lemma attend_spec pid h : at_ (Loading false) h → wp (attend o a m cpu pid) returned loose_ h.
Proof.
  intros Hl. unfold attend, wait_for_path.
  eapply wp_then; [apply wp_bind, wp_gets, (path_spec _ (Loading false)); [exact Hl|]|].
  { intros e h' H. exists (Loading false). auto. }
  intros [] h1 H1. apply wp_bind, wp_gets.
  eapply wp_then; [by eapply incoming_spec|]. intros [] h2 H2.
  eapply wp_then; [by apply check_arrival_spec|]. intros pc h3 H3.
  eapply (wp_then _ _ (λ _, at_ (if paused then Matched else Resumed))).
  { rewrite Hpaused. destruct paused; [by apply wp_ret|].
    eapply wp_mono; [by apply (hmp_spec m cpu false Matched _ (λ _, Resumed))|done|]. intros e h' H. exists Resumed. auto. }
  intros _ h4 H4. eapply wp_then; [apply wp_bind, wp_gets, observe_spec; [exact H4|by destruct paused]|]. intros seen h5 H5.
  cbv beta in H5. eapply wp_then; [by eapply (assess_spec (if paused then Matched else Resumed))|]. intros r h6 H6. cbv beta in H6.
  eapply (restore_note _ _ _ _ _ _ (Reported (panicked r))); [exact H6|done|done|]. intros h7 H7.
  destruct (panicked r); [by apply quit_spec|]. rewrite Hpaused.
  destruct paused eqn:E; [apply wp_bind, wp_ret, wp_ret; left; by rewrite E|].
  step_hmp (λ _ : option text, Left) reply H8. apply wp_ret. left. by rewrite E.
Qed.
(** The [except] clause reaps the child whatever had happened. *)
Lemma reap_spec e h : loose_ e h → wp reap (λ _, at_ Gone) (λ _ _, False) h.
Proof.
  intros (s & Hl & Hs). unfold reap. eapply wp_then; [by eapply restore_poll|].
  intros [status|] h1 H1; cbn in H1; [by apply wp_ret|]. destruct H1 as [H1 Hw].
  assert (loose_ e h1) as Hloose by (exists s; auto).
  eapply (wp_then _ _ (λ _, at_ Ending)).
  { pose proof (hmp_spec m cpu paused s (u "quit") (λ _, Ending) h1 H1 Hw) as Hq.
    assert (∀ r, stage_step m cpu paused s (Monitor (u "quit") r) = Some Ending) as Hs1 by (intros r; by destruct s).
    specialize (Hq Hs1 (λ _, eq_refl)). unfold wp in *.
    destruct (hmp (u "quit") h1) as [[t|e'] h2]; [exact Hq|].
    apply (wp_update _ (λ _, at_ Ending) (λ _ _, False)). destruct Hq as [Ha Hk]. split; [|done]. cbn. by rewrite restore_accepts_app, Ha. }
  intros [] h2 H2. cbv beta in H2. eapply wp_then; [eapply restore_wait; [exact H2|by left]|]. intros [] h3 H3; cbn in H3; [by apply wp_ret|].
  destruct H3 as [H3 _]. step_note.
  apply wp_bind, wp_update, wp_update. by eapply at_gone.
Qed.
Lemma guarded_spec {A} (body : RM A) Q h :
  wp body Q loose_ h → wp (guarded body) Q (λ _, at_ Gone) h.
Proof.
  unfold wp, guarded. destruct (body h) as [[r|e] h1]; [done|]. intros Hl%reap_spec. unfold wp in Hl.
  unfold mbind, se_bind. by destruct (reap h1) as [[[]|e'] h2].
Qed.
(** A run that leaves no child behind, but one whose pid could not be written. *)
Definition settled (h : host) : Prop :=
  ∃ s, at_ s h ∧ match s with Fresh | Made | Cloned | Filed _ | Gone => True | Born => v_pid_file o ≠ Ok () | _ => False end.
Lemma launch_spec overrides h :
  at_ Fresh h → wp (launch o a resolve m overrides) (λ _, at_ (Loading false)) (λ _, settled) h.
Proof.
  assert (∀ A B s (r : res A) (k : A → RM B) Q h, at_ s h →
    (∀ e, r = Raise e → match s with Fresh | Made | Cloned | Filed _ | Gone => True | Born => v_pid_file o ≠ Ok () | _ => False end) →
    (∀ x, wp (k x) Q (λ _, settled) h) → wp (lift r ≫= k) Q (λ _, settled) h) as step_lift.
  { intros A B s r k Q h' Hl Hs Hk. apply wp_bind, wp_lift; [intros x _; apply Hk|].
    intros e He. exists s. split; [done|by eapply Hs]. }
  intros Hl. unfold launch.
  eapply step_lift; [exact Hl|done|intros []]. step_note.
  eapply step_lift; [eassumption|done|intros []].
  eapply (restore_note _ _ _ _ _ _ Cloned); [eassumption|cbn; by rewrite bool_decide_true|done|]. intros h2 H2.
  eapply step_lift; [exact H2|done|intros argv]. cbv zeta. step_note.
  eapply step_lift; [eassumption|done|intros pid].
  unfold note at 1, set_proc. apply wp_bind, wp_update, wp_bind, wp_update.
  match goal with |- wp _ _ _ ?h' => assert (at_ Born h') as Hb end.
  { destruct H0 as [Ha _]. split; [|done]. cbn. rewrite restore_accepts_app, Ha. cbn. by rewrite bool_decide_true. }
  eapply step_lift; [exact Hb|by intros e ->|intros []]. step_note. by apply wp_ret.
Qed.
End lifecycle.

(** C8: a restore follows its life cycle, whatever the files, the monitor and the
    child do.  When the verification of the checkpoint fails nothing is created.
    Otherwise the child is started once, on a clone of the checkpoint's disk; the
    guest is resumed only after the monitor reported it paused and its migration
    completed, the witness CPU selected and the program counter that of the
    checkpoint, and never when it is to be left paused.  Code 0 leaves a running
    child whose report shows no panic; code 1 leaves none; and a failure leaves
    none either, unless the pid file could not be written. *)
Theorem restore_lifecycle o a resolve now rs ps ws aps ts :
  let h0 := Host now rs ps ws aps ts None [] in
  match verify o a resolve, main o a resolve h0 with
  | Raise e, result => result = (Raise e, h0)
  | Ok (m, cpu, _), (Ok code, h) =>
      (code = 0 ∧ accepts m cpu (a_paused a) Fresh (acts h) = Some (if a_paused a then Reported false else Left) ∧ proc h = Some None)
      ∨ (code = 1 ∧ accepts m cpu (a_paused a) Fresh (acts h) = Some Gone)
  | Ok (m, cpu, _), (Raise _, h) =>
      ∃ s, accepts m cpu (a_paused a) Fresh (acts h) = Some s
        ∧ match s with
          | Fresh | Made | Cloned | Filed _ => proc h = None
          | Born => v_pid_file o ≠ Ok ()
          | Gone => True
          | _ => False
          end
  end.
Proof.
  intros h0. unfold main. unfold mbind at 1, se_bind, lift at 1.
  destruct (verify o a resolve) as [[[m cpu] overrides]|e]; [|done].
  enough (wp (pid ← launch o a resolve m overrides; guarded (attend o a m cpu pid))
    (returned m cpu (a_paused a)) (λ _, settled o m cpu (a_paused a)) h0) as H.
  { unfold wp in H. destruct ((launch o a resolve m overrides ≫= _) h0) as [[code|e] h].
    - destruct H as [[-> [Ha Hk]]|[-> [Ha _]]]; [left|by right]. split; [done|]. split; [done|]. by destruct (a_paused a).
    - destruct H as (s & [Ha Hk] & Hs). exists s. split; [done|]. by destruct s. }
  eapply wp_then; [by apply launch_spec|]. intros pid h1 H1.
  eapply wp_mono; [apply guarded_spec, attend_spec; [done|exact H1]|done|].
  intros e h H. by exists Gone.
Qed.
(** ** The waits end *)

Definition python (e : exn) : Prop := e ≠ OutOfFuel.
Abbreviation Ends := (Holds (λ _ : host, True) python).
Definition later (h h' : host) : Prop := clock h ≤ clock h'.
#[local] Instance later_refl : Reflexive later. Proof. intros h. unfold later. lia. Qed.
#[local] Instance later_trans : Transitive later. Proof. intros h1 h2 h3. unfold later. lia. Qed.

Lemma ends_lift {A} (r : res A) : r ≠ Raise OutOfFuel → Ends (lift r).
Proof. intros H. apply holds_lift. intros e -> [= ->]. done. Qed.
Lemma watch_update f : Ends (update f).
Proof. by apply holds_update. Qed.
Lemma watch_raise {A} e : e ≠ OutOfFuel → Ends (raise (A:=A) e).
Proof. intros H. by apply holds_raise. Qed.
#[local] Hint Extern 1 (Holds _ _ (update _)) => apply watch_update : typeclass_instances.
#[local] Hint Extern 1 (Holds _ _ (note _)) => apply watch_update : typeclass_instances.
#[local] Hint Extern 1 (Holds _ _ (pass_time _)) => apply watch_update : typeclass_instances.
#[local] Hint Extern 1 (Holds _ _ (set_proc _)) => apply watch_update : typeclass_instances.
#[local] Hint Extern 1 (Holds _ _ (raise _)) => apply watch_raise; discriminate : typeclass_instances.
Lemma opt_or_ends {A} (x : option A) e : e ≠ OutOfFuel → opt_or x e ≠ Raise OutOfFuel.
Proof. destruct x; cbn; congruence. Qed.
#[local] Hint Extern 1 (Holds _ _ (lift (opt_or _ _))) => apply ends_lift, opt_or_ends; discriminate : typeclass_instances.

#[local] Instance hmp_ends c : Ends (hmp c). Proof. unfold hmp. apply _. Qed.
#[local] Instance poll_ends : Ends poll.
Proof. unfold poll, exited. apply holds_bind; [apply _|]. intros []; apply _. Qed.
#[local] Instance wait_ends : Ends wait.
Proof. unfold wait, exited. apply holds_bind; [apply _|]. intros []; apply _. Qed.
#[local] Instance pc_ends t : Ends (lift (parse_pc t)).
Proof. apply ends_lift. unfold parse_pc. by destruct (hex_field _ _ _). Qed.
#[local] Instance selected_ends t : Ends (lift (selected_cpu_index t)).
Proof. apply ends_lift. unfold selected_cpu_index. by destruct (omap _ _) as [|? []]. Qed.
Lemma await_response_ends i rs : await_response i rs ≠ Raise OutOfFuel.
Proof. induction rs as [|r rs IH]; cbn; [done|]. by repeat case_match. Qed.
#[local] Instance activate_ends g rs : Ends (lift (activate_paused_disks g rs)).
Proof.
  apply ends_lift. unfold activate_paused_disks. destruct (negb g); [done|].
  pose proof (await_response_ends 0 rs). destruct (await_response 0 rs) as [rs'|e]; cbn; [|congruence].
  pose proof (await_response_ends 1 rs'). destruct (await_response 1 rs') as [rs2|e]; cbn; congruence.
Qed.
#[local] Instance rss_ends t peak : Ends (lift (rss_of t peak)).
Proof.
  apply ends_lift. unfold rss_of, int10. destruct (bool_decide _); [done|]. by destruct (int10_opt _).
Qed.
#[local] Instance panic_message_ends registers : Ends (sptm_panic_message (λ _, lift) hmp registers).
Proof.
  unfold sptm_panic_message. apply holds_bind; [apply _|]. intros pcs. apply holds_bind; [apply _|]. intros pc. apply _.
Qed.
#[local] Instance hmp_later c : Leads later (hmp c).
Proof.
  intros h. unfold hmp, mbind, se_bind, gets, update, pass_time, note, lift, later.
  destruct (head (replies h)) as [[n [t|]]|]; cbn; lia.
Qed.
#[local] Instance poll_later : Leads later poll.
Proof.
  intros h. unfold poll, exited, mbind, se_bind, gets, update, note, set_proc, later.
  destruct (mjoin (proc h)); cbn; [lia|]. by destruct (mjoin (head (polls h))).
Qed.
Abbreviation ends_at := (keeps_at (λ _ : host, True) python).
Ltac then_later := apply (keeps_leads _ _ later); [apply _|apply _|done|intros ? ? _ ?].

Lemma path_ends fuel deadline h : deadline - clock h ≤ 100 * Z.of_nat fuel → ends_at (path_from fuel deadline) h.
Proof.
  revert h. induction fuel as [|fuel IH]; intros h Hf; cbn [path_from]; apply keeps_gets;
    destruct (Z.ltb_spec (clock h) deadline); [lia|by apply watch_raise| |by apply watch_raise].
  apply keeps_gets. eapply keeps_ok; [reflexivity|]. destruct (default _ _); [done|].
  eapply keeps_ok; [reflexivity|]. apply IH. cbn [clock]. lia.
Qed.
Lemma incoming_ends fuel deadline h :
  deadline - clock h ≤ 200 * Z.of_nat fuel → ends_at (incoming_from (S fuel) deadline) h.
Proof.
  revert h. induction fuel as [|fuel IH]; intros h Hf; cbn [incoming_from]; then_later.
  all: destruct a; [by apply watch_raise|]; then_later; then_later; cbv zeta; destruct (_ && _); [done|];
    (destruct (_ || _); [by apply watch_raise|]); apply keeps_gets; unfold later in *.
  - rewrite (proj2 (Z.leb_le _ _)) by lia. by apply watch_raise.
  - destruct (deadline <=? _); [by apply watch_raise|]. eapply keeps_ok; [reflexivity|]. apply IH. cbn [clock]. lia.
Qed.
Lemma observe_ends fuel deadline t peak h :
  deadline - clock h ≤ 500 * Z.of_nat fuel → ends_at (observe_from fuel deadline t peak) h.
Proof.
  revert t peak h. induction fuel as [|fuel IH]; intros t peak h Hf; cbn [observe_from]; apply keeps_gets;
    destruct (Z.ltb_spec (clock h) deadline); [lia|done| |done].
  then_later. destruct a; [by apply watch_raise|]. unfold later in *. apply keeps_gets.
  eapply keeps_ok; [reflexivity|]. eapply keeps_ok; [reflexivity|].
  apply keeps_bind; [by apply (ends_lift _ (opt_or_ends _ (RuntimeError _) ltac:(discriminate)))|]. intros reply h1 [= _ <-] _.
  apply keeps_bind; [by apply rss_ends|]. intros peak' h2 [= _ <-] _.
  eapply keeps_ok; [reflexivity|]. cbv zeta. destruct (_ && _); [done|]. apply keeps_gets.
  cbn [clock]. destruct (Z.ltb_spec (deadline - (clock s' + Z.of_N (tk_ps (default (Tick (0%N, Some []) (0%N, [])) (head (ticks s')))).1 + Z.of_N (tk_read (default (Tick (0%N, Some []) (0%N, [])) (head (ticks s')))).1)) 0) as [|Hle]; [by apply watch_raise|].
  eapply keeps_ok; [reflexivity|]. apply IH. cbn [clock]. lia.
Qed.
#[local] Instance wait_for_path_ends ms : Ends (wait_for_path ms).
Proof.
  intros h _. unfold wait_for_path. apply keeps_gets, path_ends. pose proof (fuel_covers 100 ms eq_refl). lia.
Qed.
Section body.
Context (o : observed) (a : arguments) (m : manifest) (cpu : Z).

#[local] Instance incoming_from_ends : Ends (now ← gets clock; incoming_from 601 (now + 120000)).
Proof. intros h _. apply keeps_gets, incoming_ends. lia. Qed.
#[local] Instance observe_all_ends : Ends (observe a).
Proof.
  intros h _. unfold observe. apply keeps_gets, observe_ends.
  pose proof (fuel_covers 500 (observe_ms a) eq_refl). lia.
Qed.
#[local] Instance check_arrival_ends : Ends (check_arrival o a m cpu).
Proof.
  unfold check_arrival. do 3 (apply holds_bind; [apply _|intros ?]). apply holds_if; [apply _|].
  do 3 (apply holds_bind; [apply _|intros ?]). apply holds_if; [apply _|]. apply holds_if; [|apply _].
  apply holds_bind; [apply _|intros []]. do 3 (apply holds_bind; [apply _|intros ?]). apply _.
Qed.
#[local] Instance assess_ends pid pc seen : Ends (assess o m pid pc seen).
Proof. unfold assess. do 3 (apply holds_bind; [apply _|intros ?]). apply holds_bind; [apply _|intros ?]. apply _. Qed.
#[local] Instance reap_ends : Ends reap.
Proof.
  unfold reap, exited. apply holds_bind; [apply _|]. intros [status|]; [apply _|].
  apply holds_bind; [|intros _; apply holds_bind; [apply _|intros gone; apply holds_if; apply _]].
  intros h _. pose proof (holds (I := λ _, True) (E := python) (m := hmp (u "quit")) h I) as [_ H].
  unfold keeps_at. by destruct (hmp (u "quit") h) as [[t|e] h'].
Qed.

(** C10: watching over the child ends, whatever the monitor, the child and the
    clock do: the wait for the monitor's socket, the polls of the incoming
    migration, the observation and the reaping are all within the passes their
    deadlines leave them. *)
Theorem watch_ends pid h : (guarded (attend o a m cpu pid) h).1 ≠ Raise OutOfFuel.
Proof.
  assert (Ends (attend o a m cpu pid)) as Hattend.
  { unfold attend. apply holds_bind; [apply _|intros []].
    intros h1 _. apply keeps_gets, keeps_bind; [apply incoming_ends; lia|]. intros [] h2 _ _.
    match goal with |- ends_at ?r _ => enough (Ends r) as Hr by by apply Hr end.
    apply holds_bind; [apply _|intros pc]. apply holds_bind; [apply _|intros _]. apply holds_bind; [apply _|intros seen].
    apply holds_bind; [apply _|intros r]. apply _. }
  unfold guarded. destruct (Hattend h I) as [_ Ha]. destruct (attend o a m cpu pid h) as [[code|e] h1]; [done|].
  assert (Ends (_ ← reap; raise (A:=Z) e)) as Hr by (apply holds_bind; [apply _|intros ?; by apply watch_raise]).
  destruct (Hr h1 I) as [_ He]. cbn in He |- *. destruct ((reap ≫= _) h1) as [[code|e'] h2]; [done|]. by intros [= ->].
Qed.
End body.
(** ** What was captured is accepted *)

Lemma dset_elem {K V} `{EqDecision K} (k k' : K) (v v' : V) d :
  (k', v') ∈ dset k v d → (k' = k ∧ v' = v) ∨ (k', v') ∈ d.
Proof.
  induction d as [|[k0 v0] d IH]; cbn; [set_solver|].
  destruct (decide (k = k0)); rewrite !elem_of_cons; naive_solver.
Qed.
(** The hashes in the manifest are those of the files. *)
Lemma qemu_inputs_pinned co resolve argv name sha n :
  (name, (sha, n)) ∈ qemu_inputs co resolve argv → ∃ bytes, o_files co name = Some bytes ∧ sha = sha256_hex bytes.
Proof.
  unfold qemu_inputs. generalize (resolve (List.hd [] argv) :: qemu_input_files resolve argv). intros paths.
  assert (∀ d, (name, (sha, n)) ∈ foldl (λ d path, match o_files co path with
                   | Some bytes => dset path (sha256_hex bytes, zlen bytes) d
                   | None => d end) d paths →
    (name, (sha, n)) ∈ d ∨ ∃ bytes, o_files co name = Some bytes ∧ sha = sha256_hex bytes) as Hgo.
  { induction paths as [|p paths IH]; intros d Hin; cbn in Hin; [by left|].
    apply IH in Hin as [Hin|Hin]; [|by right]. destruct (o_files co p) as [bytes|] eqn:Ep; [|by left].
    apply dset_elem in Hin as [[-> [= -> ->]]|Hin]; [right; by exists bytes|by left]. }
  intros Hin. apply Hgo in Hin as [Hin|Hin]; [set_solver|done].
Qed.

Section accepted.
Variable co : Capture.observed.
Variable v : observed.
Variable a : arguments.
Variable resolve : text → text.
Hypothesis Hkept : ∀ p bytes, o_files co p = Some bytes → v_files v p = Some bytes.

Lemma hash_is_pinned p pin_ : pin co p = Ok pin_ → ∀ msg, hash_is v (pin_path pin_) (pin_sha256 pin_) msg = Ok ().
Proof.
  unfold pin. intros H msg. simpl_res. unfold hash_is. cbn. rewrite (Hkept _ _ Hr). cbn. by rewrite bool_decide_true.
Qed.
Lemma verify_inputs_pinned argv :
  a_qemu a = None → res_foldl (verify_input v a resolve (resolve (List.hd [] argv))) () (qemu_inputs co resolve argv) = Ok ().
Proof.
  intros Hq. assert (∀ l, (∀ name sha n, (name, (sha, n)) ∈ l → ∃ bytes, o_files co name = Some bytes ∧ sha = sha256_hex bytes) →
    res_foldl (verify_input v a resolve (resolve (List.hd [] argv))) () l = Ok ()) as Hgo.
  { induction l as [|[name [sha n]] l IH]; intros Hl; [done|].
    change (res_foldl ?f () (?x :: l)) with (c ← f () x; res_foldl f c l).
    assert (verify_input v a resolve (resolve (List.hd [] argv)) () (name, (sha, n)) = Ok ()) as ->.
    { destruct (Hl name sha n) as (bytes & Hb & ->); [by left|]. unfold verify_input.
      rewrite Hq, (bool_decide_false (None ≠ None)) by congruence. cbn. by rewrite (Hkept _ _ Hb), bool_decide_true. }
    rewrite ok_bind. apply IH. intros. eapply Hl. by right. }
  apply Hgo. intros name sha n. apply qemu_inputs_pinned.
Qed.
Lemma verify_qemu_pinned m :
  m_argv m ≠ [] → m_inputs m = qemu_inputs co resolve (m_argv m) → is_Some (o_files co (source_qemu resolve m)) →
  a_qemu a = None → verify_qemu v a resolve m = Ok ().
Proof.
  intros Hargv Hin [bytes Hb] Hq. unfold verify_qemu, chosen_qemu. rewrite Hq, bool_decide_false by done. cbn [fmap option_fmap option_map default].
  change (default (source_qemu resolve m) None) with (source_qemu resolve m).
  rewrite (Hkept _ _ Hb). cbn [opt_or]. rewrite ok_bind, Hin.
  destruct (dget _ _) as [[sha n]|] eqn:Ed; [|by rewrite andb_false_r; apply verify_inputs_pinned].
  apply dget_In, qemu_inputs_pinned in Ed as (bytes' & Hb' & ->).
  assert (bytes' = bytes) as -> by congruence.
  rewrite (bool_decide_true (sha256_hex bytes = sha256_hex bytes)) by done. cbn. rewrite !andb_false_r. by apply verify_inputs_pinned.
Qed.
Lemma verify_manifest_pinned out disk m :
  faithful co resolve out disk m → resolve disk = disk → Z.land (v_mode v) 0x92 = 0 → verify_manifest v m = Ok ().
Proof.
  intros [_ _ _ Hvm (Hp & [bytes Hb] & Hd) (info & Hc)] Hr Hm. unfold verify_manifest.
  assert (state_path out = pin_path (m_vmstate m)) as Hpath by (unfold pin in Hvm; simpl_res; by rewrite <-Hvm).
  rewrite (hash_is_pinned _ _ Hvm), ok_bind.
  apply backing_chain_recorded in Hc as (Hne & Hhd & Hall). destruct (m_chain m) as [|e chain] eqn:Ec; [done|].
  cbn in Hhd, Hd. injection Hhd as Hhd. rewrite Hr in Hhd.
  apply Forall_cons in Hall as [(data & Hdata & Hlen & Hsha) Hall]. assert (data = bytes) as -> by congruence.
  unfold hash_is. rewrite Hp, (Hkept _ _ Hb). cbn [opt_or]. rewrite ok_bind, bool_decide_true by congruence. cbn [negb]. rewrite ok_bind, Hm. cbn [negb Z.eqb].
  unfold verify_backing_chain. rewrite bool_decide_false by done. apply verify_entries.
  apply Forall_cons. split; [exists bytes; rewrite Hhd; auto|].
  eapply Forall_impl; [exact Hall|]. cbn. intros e' (data' & Hd' & ? & ?). exists data'. auto.
Qed.
End accepted.

(** C9: what a capture records, a restore accepts.  For every run of the capture
    that returned a manifest, whatever the source did, the verification of that
    manifest succeeds and gives the captured CPU, as long as the files hashed
    then are unchanged, the disk still has no write permission, the emulator is
    still the file that ran, no socket of that name is there and the options
    are well formed. *)
Theorem checkpoint_accepted co resolve finditer tag out monitor disk serial_log marker_regex timeout h m h' v a overrides
    (Hrun : Capture.main co resolve finditer tag out monitor disk serial_log marker_regex timeout h = (Ok m, h'))
    (Hresolve : resolve disk = disk) (Hqemu : is_Some (o_files co (source_qemu resolve m)))
    (Hmanifest : v_manifest v = Ok (u "darwin-vm-external-checkpoint-v1", m))
    (Hkept : ∀ p bytes, o_files co p = Some bytes → v_files v p = Some bytes)
    (Hmode : Z.land (v_mode v) 0x92 = 0) (Hfree : v_taken v = false)
    (Htag : safe_tag (a_tag a) = true) (Hobserve : 0 ≤ a_observe a) (Hoverride : a_qemu a = None)
    (Henv : parse_model_env_overrides (a_model_env a) = Ok overrides) :
  ∃ cpu, m_cpu m = CpuInt cpu ∧ verify v a resolve = Ok (m, cpu, overrides).
Proof.
  pose proof (main_faithful co resolve finditer tag out monitor disk serial_log marker_regex timeout h) as Hf.
  unfold wp in Hf. rewrite Hrun in Hf. pose proof Hf as [Hargv (cpu & Hcpu & Hge) Hin _ _ _].
  exists cpu. split; [done|]. unfold verify. rewrite Henv, ok_bind, Htag, (proj2 (Z.ltb_ge _ _) Hobserve). cbn [negb].
  rewrite Hmanifest, ok_bind. cbv beta iota. rewrite bool_decide_true by done. cbn [negb]. rewrite Hcpu, ok_bind.
  assert (checkpoint_source_cpu (CpuInt cpu) None = Ok cpu) as ->.
  { cbn. by rewrite (proj2 (Z.ltb_ge _ _) Hge). }
  rewrite ok_bind, (verify_manifest_pinned _ _ _ Hkept out disk) by done. rewrite ok_bind, Hfree.
  by rewrite (verify_qemu_pinned _ _ _ _ Hkept).
Qed.

Definition sample_view (pid_file : res ()) (m : manifest) : observed :=
  Observed (Ok (u "darwin-vm-external-checkpoint-v1", m)) (Ok None) sample_host_files 0x8124 false (Ok ()) (Ok ())
    [(u "HOME", u "/")] (Ok 77) pid_file None 0 0 (Some (b "0x0000000000000020 on")) None.
Definition sample_arguments : arguments :=
  Arguments (u "r1") None 1 false None [u "DARWIN_B=2"] None (u "/r") (u "/r.sock") (u "/r.uart") (u "/r.qmp").

Lemma checkpoint_accepted_witness :
  ∃ m cpu, verify (sample_view (Ok ()) m) sample_arguments id = Ok (m, cpu, [(u "DARWIN_B", u "2")]).
Proof.
  assert (match sample_capture sample_script [] with
          | (Ok m, _) => bool_decide (is_Some (sample_host_files (source_qemu id m))) | _ => false end = true) as H
    by (vm_compute; reflexivity).
  destruct (sample_capture sample_script []) as [[m|e] h'] eqn:Hrun; [|discriminate H].
  apply bool_decide_eq_true in H as Hqemu.
  exists m. eapply checkpoint_accepted in Hrun as (cpu & _ & Hv);
    [exists cpu; exact Hv|reflexivity|exact Hqemu|reflexivity|done
    |reflexivity|reflexivity|reflexivity|vm_compute; discriminate|reflexivity|vm_compute; reflexivity].
Defined.

(** A healthy guest is left running; its report shows what the observation saw. *)
Definition sample_answers : list (N * option text) :=
  map (λ s, (5%N, Some (u s)))
    ["VM status: running"; "Migration status: active"; "VM status: paused (inmigrate)"; "Migration status: completed"; "";
     "* CPU #1: thread_id=1"; "PC=0100 X03=0"; ""; ""; "PC=0200"; ""].
Definition sample_restore (pid_file : res ()) (ts : list tick) : res Z * host :=
  match (sample_capture sample_script []).1 with
  | Ok m => main (sample_view pid_file m) sample_arguments id (Host 0 sample_answers [] [Some 0] [false; true] ts None [])
  | Raise e => (Raise e, Host 0 [] [] [] [] [] None [])
  end.
Definition ended (r : res Z * host) : res Z * option (option Z) * list (text * option Z) :=
  (r.1, proc r.2,
   omap (λ x, match x with
              | Monitor c _ => if bool_decide (c ∈ [u "cont"; u "quit"; u "stop"]) then Some (c, None) else None
              | Exited status => Some (u "exited", Some status)
              | WriteReport _ => Some (u "report", None)
              | _ => None
              end) (acts r.2)).
Example sample_restored :
  ended (sample_restore (Ok ()) [])
  = (Ok 0, Some None, [(u "cont", None); (u "stop", None); (u "report", None); (u "cont", None)]).
Proof. vm_compute. reflexivity. Qed.

(** A reading that ends after the deadline makes the last [time.sleep] raise:
    a healthy guest is asked to quit and no report is written. *)
Example late_reading_ends_the_guest :
  ended (sample_restore (Ok ()) [Tick (0%N, Some []) (0%N, []); Tick (600%N, Some (u "2048")) (0%N, [])])
  = (Raise (ValueError "sleep length must be non-negative"), Some (Some 0),
     [(u "cont", None); (u "quit", None); (u "exited", Some 0)]).
Proof. vm_compute. reflexivity. Qed.

(** The pid file is written before the [try]: when that fails the child runs on. *)
Example unwritten_pid_file_leaves_the_child :
  ended (sample_restore (Raise OSError) []) = (Raise OSError, Some None, []).
Proof. vm_compute. reflexivity. Qed.
