(* ===== verification/PageWalk.v ===== *)
(** * Frozen memory: [tools/re/warm_boot_postmortem.py]

    The reader of a paused guest: physical memory from the dumped regions,
    kernel memory through the monitor's translation (with a page cache), user
    memory through the process' own translation tables, the scan for process
    objects and the walk over a process' threads and frames.  [answer page] is
    the monitor's reply to [gva2gpa]. *)

From stdpp Require Import base tactics list list_numbers strings.
From Stdlib Require Import Strings.Byte.
From S2P Require Import Prelude PyState PyBytes PyStr PyDict Sha256 TrustCache CodeSign.
Open Scope Z_scope.

(** ** [Memory.physical] *)

(** [self.maps]: the base address and bytes of each dumped region. *)
Definition maps_t : Type := list (Z * list byte).

Fixpoint physical (maps : maps_t) (address size : Z) : res (list byte) :=
  match maps with
  | [] => Raise (ValueError "physical range absent")
  | (base, data) :: maps =>
      if (base <=? address) && (address + size <=? base + zlen data)
      then Ok (slice (address - base) (address - base + size) data)
      else physical maps address size
  end.

(** ** [Memory.kernel] *)

(** [re.search(r'gpa: 0x([0-9a-f]+)', answer)]. *)
Definition lower_hex (c : Z) : bool := is_digit c || ((97 <=? c) && (c <=? 102)).
Fixpoint gpa_search (s : list Z) : option Z :=
  match (if startswith (u "gpa: 0x") s then
           match takewhile lower_hex (zdrop 7 s) with [] => None | ds => int_hex ds end
         else None), s with
  | Some v, _ => Some v
  | None, [] => None
  | None, _ :: s => gpa_search s
  end.

Section kernel.
Variable maps : maps_t.
Variable answer : Z → list Z.

(** The cached translation of a page: the result and the cache after it. *)
Definition page_of (pages : list (Z * Z)) (page : Z) : res Z * list (Z * Z) :=
  match dget page pages with
  | Some pa => (Ok pa, pages)
  | None =>
      match gpa_search (answer page) with
      | Some pa => (Ok pa, dset page pa pages)
      | None => (Raise (ValueError "kernel translation failed"), pages)
      end
  end.

(** The [while] loop, [va = address + len(output)]; each pass reads at least
    one byte, so [size] passes are enough. *)
Fixpoint kernel_from (fuel : nat) (pages : list (Z * Z)) (va left_ : Z) : res (list byte) * list (Z * Z) :=
  if left_ <=? 0 then (Ok [], pages)
  else match fuel with
  | O => (Raise OutOfFuel, pages)
  | S fuel =>
      let page := Z.land va (Z.lnot 0x3fff) in
      let '(m, pages) := page_of pages page in
      match m with
      | Raise e => (Raise e, pages)
      | Ok base =>
          let count := Z.min left_ (0x4000 - Z.land va 0x3fff) in
          match physical maps (base + Z.land va 0x3fff) count with
          | Raise e => (Raise e, pages)
          | Ok chunk =>
              let '(rest, pages) := kernel_from fuel pages (va + zlen chunk) (left_ - zlen chunk) in
              ((out ← rest; Ok (chunk ++ out)), pages)
          end
      end
  end.
Definition kernel (pages : list (Z * Z)) (address size : Z) : res (list byte) * list (Z * Z) :=
  kernel_from (Z.to_nat size) pages address size.
End kernel.

(** ** [Memory.user] *)

(** The [for] loop over the levels: the physical address and the bytes left in
    its block or page. *)
Fixpoint walk_levels (maps : maps_t) (levels : list (Z * Z)) (table va : Z) : res (Z * Z) :=
  match levels with
  | [] => Raise (ValueError "no level left")
  | (level, shift) :: levels =>
      let index := Z.land (Z.shiftr va shift) (if level =? 1 then 0x7f else 0x7ff) in
      raw ← physical maps (table + index * 8) 8;
      let entry := le_Z raw in
      raise_if (Z.land entry 1 =? 0) || ((level =? 3) && negb (Z.land entry 3 =? 3))
        with ValueError "unmapped user address" ;;
      if (Z.land entry 3 =? 1) || (level =? 3) then
        let mask := Z.shiftl 1 shift - 1 in
        Ok (Z.lor (Z.land (Z.land entry 0x0000ffffffffc000) (Z.lnot mask)) (Z.land va mask),
            Z.shiftl 1 shift - Z.land va mask)
      else walk_levels maps levels (Z.land entry 0x0000ffffffffc000) va
  end.
Definition LEVELS : list (Z * Z) := [(1, 36); (2, 25); (3, 14)].
Definition translate (maps : maps_t) (root va : Z) : res (Z * Z) :=
  walk_levels maps LEVELS (Z.land root 0x0000fffffffffc00) va.

Fixpoint user_from (fuel : nat) (maps : maps_t) (root va left_ : Z) : res (list byte) :=
  if left_ <=? 0 then Ok []
  else match fuel with
  | O => Raise OutOfFuel
  | S fuel =>
      '(pa, room) ← translate maps root va;
      chunk ← physical maps pa (Z.min left_ room);
      out ← user_from fuel maps root (va + zlen chunk) (left_ - zlen chunk);
      Ok (chunk ++ out)
  end.
Definition user (maps : maps_t) (root address size : Z) : res (list byte) :=
  raise_if negb ((0 <=? address) && (address <? Z.shiftl 1 43))
    with ValueError "user address outside supported geometry" ;;
  user_from (Z.to_nat size) maps root address size.

(** ** [Memory.candidates] *)

Definition u64 (raw : list byte) (offset : Z) : res Z := unpack_from_Q raw offset.

(** Every occurrence of the name, also overlapping ones. *)
Fixpoint found_at (i : Z) (p l : list byte) : list Z :=
  (if startswith p l then [i] else []) ++ match l with [] => [] | _ :: l => found_at (i + 1) p l end.

Definition plausible_proc (raw : list byte) : res bool :=
  next_proc ← u64 raw 0;
  if (next_proc =? 0) || (Z.shiftr next_proc 48 =? 0xffff) then
    prev ← u64 raw 8;
    if Z.shiftr prev 48 =? 0xffff then
      map_ ← u64 raw 0x790; Ok (Z.shiftr map_ 48 =? 0xffff)
    else Ok false
  else Ok false.
Definition candidate (base : Z) (data : list byte) (at_ : Z) : res (list (Z * list byte)) :=
  let offset := at_ - 0x55c in
  if (0 <=? offset) && (offset mod 8 =? 0) && (offset + 0x800 <=? zlen data) then
    let raw := slice offset (offset + 0x800) data in
    ok ← plausible_proc raw;
    Ok (if ok : bool then [(base + offset, raw)] else [])
  else Ok [].
Definition candidates (maps : maps_t) (name : list byte) : res (list (Z * list byte)) :=
  cs ← res_map (λ m, cs ← res_map (candidate m.1 m.2) (found_at 0 (name ++ [x00]) m.2); Ok (concat cs)) maps;
  Ok (concat cs).

(** ** [inspect]

    Reads of kernel memory thread the page cache; a raised exception keeps it. *)

Abbreviation K := (SE (list (Z * Z))).
(** [try: m except ValueError as error: h]. *)
Definition catch_ValueError {A} (m : K A) (h : string → K A) : K A := λ pages,
  match m pages with
  | (Raise (ValueError msg), pages) => h msg pages
  | r => r
  end.

Record thread_state := ThreadState { ts_pc : Z; ts_lr : Z; ts_sp : Z; ts_registers : list Z }.
Record thread_row := ThreadRow {
  tr_thread : Z; tr_wait_event : Z; tr_continuation : Z; tr_kernel_stack : Z; tr_cthread_self : Z;
  tr_state : option thread_state; tr_frames : list Z; tr_error : option string;
}.
Record process_info := ProcessInfo {
  pi_name : list byte; pi_pid : Z; pi_proc_pa : Z; pi_map : Z; pi_root : Z; pi_threads : list thread_row;
}.

Section inspect.
Variable maps : maps_t.
Variable answer : Z → list Z.

Definition kread (address size : Z) : K (list byte) := λ pages, kernel maps answer pages address size.

(** The frame walk: the return addresses read, and the error that ended it. *)
Fixpoint frames_from (n : nat) (root fp : Z) (seen : list Z) : list Z * option string :=
  match n with
  | O => ([], None)
  | S n =>
      if (fp =? 0) || negb (Z.land fp 7 =? 0) || bool_decide (fp ∈ seen) then ([], None)
      else
        match (frame ← user maps root fp 16; parent ← u64 frame 0; ret ← u64 frame 8; Ok (parent, ret)) with
        | Raise (ValueError msg) => ([], Some msg)
        | Raise _ => ([], None)
        | Ok (parent, ret) =>
            let here := Z.land ret 0xffffffffffff in
            if parent <=? fp then ([here], None)
            else let '(fs, e) := frames_from n root parent (fp :: seen) in (here :: fs, e)
        end
  end.

(** The saved user state: [None] with the error when it cannot be read. *)
Definition saved_state (saved : Z) : K (option (thread_state * Z) * option string) :=
  catch_ValueError
    (state ← kread saved 0x110;
     if negb (le_Z (ztake 4 state) =? 0x15) then lift (Raise (ValueError "unsupported saved-state flavor"))
     else lift (
       pc ← u64 state 0x108; lr ← u64 state 0xf8; sp ← u64 state 0x100;
       registers ← res_map (λ i, u64 state (8 + i * 8)) (seqZ 0 29);
       fp ← u64 state 0xf0;
       Ok (Some (ThreadState pc lr sp registers, fp), None)))
    (λ msg, mret (None, Some msg)).

Definition thread_row_of (root address : Z) (data : list byte) : K thread_row :=
  saved ← lift (u64 data 0x110);
  wait_event ← lift (u64 data 0x18);
  continuation ← lift (u64 data 0xe0);
  kernel_stack ← lift (u64 data 0xf0);
  cthread_self ← lift (u64 data 0x140);
  '(st, err) ← saved_state saved;
  let '(frames, err) := match st with
                        | Some (_, fp) => frames_from 48 root fp []
                        | None => ([], err) end in
  mret (ThreadRow address wait_event continuation kernel_stack cthread_self (option_map fst st) frames err).

Fixpoint threads_from (n : nat) (root address : Z) (seen : list Z) : K (list thread_row) :=
  match n with
  | O => mret []
  | S n =>
      if (address =? 0) || bool_decide (address ∈ seen) then mret []
      else
        data ← kread address 0x440;
        tag ← lift (u64 data 0x1a0);
        if negb (tag =? 0x2010002030100000) then mret []
        else
          row ← thread_row_of root address data;
          next ← lift (u64 data 0x408);
          rows ← threads_from n root next (address :: seen);
          mret (row :: rows)
  end.

Definition inspect (name : list byte) (pa : Z) (raw : list byte) : K process_info :=
  vmmap ← lift (u64 raw 0x790);
  pmap_word ← kread (vmmap + 0x58) 8; pmap ← lift (u64 pmap_word 0);
  root_word ← kread (pmap + 8) 8; root ← lift (u64 root_word 0);
  address ← lift (u64 raw 0x7b8);
  rows ← threads_from 256 root address [];
  pid ← lift (unpack_from_I raw 0x60);
  mret (ProcessInfo name pid pa vmmap root rows).

(** [main]: every candidate of every name, a failed one with its error. *)
Fixpoint inspect_all (name : list byte) (cs : list (Z * list byte)) : K (list (process_info + Z * string)) :=
  match cs with
  | [] => mret []
  | (pa, raw) :: cs =>
      r ← catch_ValueError (p ← inspect name pa raw; mret (inl p)) (λ msg, mret (inr (pa, msg)));
      rs ← inspect_all name cs;
      mret (r :: rs)
  end.
Fixpoint postmortem (names : list (list byte)) : K (list (process_info + Z * string)) :=
  match names with
  | [] => mret []
  | n :: names =>
      cs ← lift (candidates maps n);
      rs ← inspect_all n cs;
      rest ← postmortem names;
      mret (rs ++ rest)
  end.
End inspect.

(** ** [resolve_slide] *)

(** The mappings of a cache file: address, size and file offset. *)
Definition cache_mappings (data : list byte) : res (list (Z * Z * Z)) :=
  off ← unpack_from_I data 0x10; count ← unpack_from_I data 0x14;
  res_map (λ i, va ← unpack_from_Q data (off + i * 32); size ← unpack_from_Q data (off + i * 32 + 8);
                fileoff ← unpack_from_Q data (off + i * 32 + 16); Ok (va, size, fileoff))
    (seqZ 0 count).
Record slide_hit := SlideHit { sh_runtime : Z; sh_static : Z; sh_slide : Z; sh_file : list Z; sh_offset : Z }.
Definition slide_hits (file : list Z) (data : list byte) (address offset : Z) : res (list slide_hit) :=
  ms ← cache_mappings data;
  Ok (concat (map (λ '(va, size, fileoff),
    if (fileoff <=? offset) && (offset <? fileoff + size) then
      let static := va + offset - fileoff in
      let slide := address - static in
      if (0 <=? slide) && (slide <=? 0x20000000) && (slide mod 0x4000 =? 0)
      then [SlideHit address static slide file offset] else []
    else []) ms)).

(** The first frame inside the shared region. *)
Definition slide_address (p : process_info) : res Z :=
  opt_or (List.find (λ a, (0x180000000 <=? a) && (a <? 0x340000000)) (concat (map tr_frames (pi_threads p))))
    StopIteration.

(** [caches]: the files matched by the glob, in order, without the side files. *)
Definition resolve_slide (maps : maps_t) (p : process_info) (caches : list (list Z * list byte)) : res slide_hit :=
  address ← slide_address p;
  pattern ← user maps (pi_root p) address 64;
  hits ← res_map (λ c, hs ← res_map (slide_hits c.1 c.2 address) (found_at 0 pattern c.2); Ok (concat hs)) caches;
  match concat hits with
  | [h] => Ok h
  | _ => Raise (ValueError "expected unique shared-cache slide")
  end.

(** ** Translation *)

(** The byte [x] is at the physical address [pa] of some dumped region. *)
Definition holds (maps : maps_t) (pa : Z) (x : byte) : Prop :=
  ∃ base data, (base, data) ∈ maps ∧ base ≤ pa ∧ znth (pa - base) data = Some x.

Lemma physical_spec maps pa n :
  0 ≤ n → ok_or_ValueError (physical maps pa n)
    (λ l, zlen l = n ∧ ∀ i x, 0 ≤ i < n → znth i l = Some x → holds maps (pa + i) x).
Proof.
  intros Hn. induction maps as [|[base data] maps IH]; cbn [physical]; [done|].
  destruct ((base <=? pa) && (pa + n <=? base + zlen data)) eqn:E.
  - cbn. split; [rewrite zlen_slice; lia|]. intros i x Hi Hx.
    rewrite znth_slice in Hx by lia. exists base, data. split; [apply list_elem_of_here|]. split; [lia|].
    rewrite <-Hx. f_equal. lia.
  - destruct (physical maps pa n); cbn in *; [|done]. destruct IH as [Hl IH]. split; [done|].
    intros i x Hi Hx. destruct (IH i x Hi Hx) as (b' & d & Hin & ?). exists b', d.
    split; [apply elem_of_cons; by right|done].
Qed.

(** The room in a smaller block is smaller. *)
Lemma room_mono va s s' : 0 ≤ s' ≤ s → 2 ^ s' - va mod 2 ^ s' ≤ 2 ^ s - va mod 2 ^ s.
Proof.
  intros Hs. assert (2 ^ s = 2 ^ s' * 2 ^ (s - s')) as Hp by (rewrite <-Z.pow_add_r by lia; f_equal; lia).
  pose proof (Z.pow_pos_nonneg 2 s' ltac:(lia) ltac:(lia)). pose proof (Z.pow_pos_nonneg 2 (s - s') ltac:(lia) ltac:(lia)).
  rewrite Hp. rewrite Z.rem_mul_r by lia. pose proof (Z.mod_pos_bound (va / 2 ^ s') (2 ^ (s - s')) ltac:(lia)). nia.
Qed.
Lemma shift_room va k s :
  0 ≤ s → 0 ≤ k < 2 ^ s - va mod 2 ^ s →
  Z.shiftr (va + k) s = Z.shiftr va s ∧ (va + k) mod 2 ^ s = va mod 2 ^ s + k.
Proof.
  intros Hs Hk. rewrite !Z.shiftr_div_pow2 by done.
  pose proof (Z.pow_pos_nonneg 2 s ltac:(lia) Hs). pose proof (Z.div_mod va (2 ^ s) ltac:(lia)).
  pose proof (Z.mod_pos_bound va (2 ^ s) ltac:(lia)). split; symmetry.
  - apply (Z.div_unique _ _ _ (va mod 2 ^ s + k)); lia.
  - apply (Z.mod_unique _ _ (va / 2 ^ s)); lia.
Qed.

Lemma mask_ones s : 0 ≤ s → Z.shiftl 1 s - 1 = Z.ones s.
Proof. intros. rewrite Z.shiftl_mul_pow2, Z.mul_1_l, Z.ones_equiv by done. lia. Qed.
Lemma block_address x va s :
  0 ≤ s → Z.lor (Z.land x (Z.lnot (Z.ones s))) (Z.land va (Z.ones s)) = x / 2 ^ s * 2 ^ s + va mod 2 ^ s.
Proof.
  intros Hs. rewrite Z.land_ones, <-Z.ldiff_land, Z.ldiff_ones_r by done.
  rewrite Z.shiftl_mul_pow2, Z.shiftr_div_pow2 by done. apply lor_high_low; [done|].
  apply Z.mod_pos_bound. by apply Z.pow_pos_nonneg.
Qed.

(** The levels' shifts fall from [s]. *)
Fixpoint falling (s : Z) (levels : list (Z * Z)) : Prop :=
  match levels with [] => True | (_, s') :: levels => 0 ≤ s' ≤ s ∧ falling s' levels end.

Lemma walk_levels_next maps levels s table va pa room :
  falling s levels → walk_levels maps levels table va = Ok (pa, room) →
  0 < room ≤ 2 ^ s - va mod 2 ^ s
  ∧ ∀ k, 0 ≤ k < room → walk_levels maps levels table (va + k) = Ok (pa + k, room - k).
Proof.
  revert s table. induction levels as [|[level s'] levels IH]; intros s table Hf H; [done|].
  cbn [walk_levels falling] in *. destruct Hf as [Hs Hf]. pose proof (room_mono va s s' Hs) as Hroom.
  apply bind_Ok in H as (raw & Hraw & H).
  set (bad := _ || _) in H. destruct bad eqn:Ebad; [done|]. unfold bad in Ebad.
  rewrite mask_ones in * by lia. destruct ((Z.land (le_Z raw) 3 =? 1) || (level =? 3)) eqn:Eleaf.
  - injection H as <- <-. rewrite block_address, Z.land_ones, Z.shiftl_mul_pow2, Z.mul_1_l by lia.
    pose proof (Z.mod_pos_bound va (2 ^ s') ltac:(apply Z.pow_pos_nonneg; lia)).
    split; [lia|]. intros k Hk. destruct (shift_room va k s' ltac:(lia) ltac:(lia)) as [Hsh Hmod].
    rewrite Hsh, Hraw, ok_bind, Ebad. rewrite Eleaf.
    rewrite block_address, Z.land_ones by lia. rewrite Hmod.
    do 2 f_equal; lia.
  - apply IH with (s := s') in H as [Hr Hk]; [|done]. split; [lia|]. intros k Hk'.
    destruct (shift_room va k s' ltac:(lia) ltac:(lia)) as [Hsh _].
    rewrite Hsh, Hraw, ok_bind, Ebad, Eleaf. by apply Hk.
Qed.

Lemma translate_next maps root va pa room :
  translate maps root va = Ok (pa, room) →
  0 < room ∧ ∀ k, 0 ≤ k < room → translate maps root (va + k) = Ok (pa + k, room - k).
Proof.
  intros H. apply (walk_levels_next maps LEVELS 36) in H as [Hr Hk]; [|cbn; lia]. split; [lia|exact Hk].
Qed.

Lemma walk_levels_ok maps levels table va :
  falling 64 levels →
  ok_or_ValueError (walk_levels maps levels table va) (λ r, 0 < r.2).
Proof.
  generalize 64 as s. revert table. induction levels as [|[level s'] levels IH]; intros table s Hf; [done|].
  cbn [walk_levels falling] in *. destruct Hf as [Hs Hf].
  eapply ok_or_bind; [apply physical_spec; lia|]. intros raw _. apply ok_or_raise. intros _.
  destruct (_ || _); [|by eapply IH]. cbn. rewrite mask_ones by lia.
  rewrite Z.land_ones, Z.shiftl_mul_pow2, Z.mul_1_l by lia.
  pose proof (Z.mod_pos_bound va (2 ^ s') ltac:(apply Z.pow_pos_nonneg; lia)). lia.
Qed.

Lemma user_from_ok fuel maps root va n :
  0 ≤ n → n ≤ Z.of_nat fuel →
  ok_or_ValueError (user_from fuel maps root va n)
    (λ out, zlen out = n ∧ ∀ i x, 0 ≤ i < n → znth i out = Some x →
       ∃ pa room, translate maps root (va + i) = Ok (pa, room) ∧ holds maps pa x).
Proof.
  revert va n. induction fuel as [|fuel IH]; intros va n Hn Hf; cbn [user_from].
  { replace (n <=? 0) with true by lia. cbn. split; [by rewrite zlen_nil; lia|]. intros. lia. }
  destruct (n <=? 0) eqn:En; [cbn; split; [by rewrite zlen_nil; lia|]; intros; lia|].
  pose proof (walk_levels_ok maps LEVELS (Z.land root 0x0000fffffffffc00) va ltac:(cbn; lia)) as Hw.
  fold (translate maps root va) in Hw.
  destruct (translate maps root va) as [[pa room]|e] eqn:Et; [|exact Hw]. cbn in Hw. rewrite ok_bind.
  pose proof (translate_next _ _ _ _ _ Et) as [_ Hnext]. cbv beta iota.
  pose proof (physical_spec maps pa (Z.min n room) ltac:(lia)) as Hph.
  destruct (physical maps pa (Z.min n room)) as [chunk|e]; [|exact Hph]. destruct Hph as [Hlc Hch].
  rewrite ok_bind, Hlc. specialize (IH (va + Z.min n room) (n - Z.min n room) ltac:(lia) ltac:(lia)).
  destruct (user_from fuel maps root _ _) as [out|e]; [|exact IH]. destruct IH as [Hlo Hout]. rewrite ok_bind. cbn.
  split; [rewrite zlen_app; lia|]. intros i x Hi Hx.
  destruct (Z_lt_le_dec i (Z.min n room)) as [Hlt|Hge].
  - exists (pa + i), (room - i). split; [apply Hnext; lia|]. apply Hch; [lia|].
    rewrite znth_lookup in * by lia. rewrite lookup_app_l in Hx by (unfold zlen in Hlc; lia). done.
  - replace (va + i) with (va + Z.min n room + (i - Z.min n room)) by lia. apply Hout; [lia|].
    rewrite znth_lookup in * by lia. rewrite lookup_app_r in Hx by (unfold zlen in Hlc; lia).
    rewrite <-Hx. f_equal. unfold zlen in Hlc. lia.
Qed.

(** A user read is the translation, byte by byte.  Whatever the dump and
    the tables hold, [Memory.user] ends: it raises [ValueError] or returns
    exactly [size] bytes, and the byte at every offset is the one the dump
    holds at the physical address the tables give for that very virtual
    address, also where the read crosses pages and blocks. *)
Theorem user_reads_translation maps root address size :
  0 ≤ size →
  match user maps root address size with
  | Raise e => ∃ msg, e = ValueError msg
  | Ok out =>
      zlen out = size
      ∧ ∀ i x, 0 ≤ i < size → znth i out = Some x →
          ∃ pa room, translate maps root (address + i) = Ok (pa, room) ∧ holds maps pa x
  end.
Proof.
  intros Hs. unfold user. destruct (negb _); [eauto|].
  pose proof (user_from_ok (Z.to_nat size) maps root address size Hs ltac:(lia)) as H.
  destruct (user_from _ _ _ _ _) as [out|e]; [exact H|]. destruct e; try done. eauto.
Qed.

(** A dump with one table of each level and two pages; the read crosses them. *)
Definition word_at (i v n : Z) : list byte :=
  replicate (Z.to_nat (8 * i)) x00 ++ le_bytes 8 v ++ replicate (Z.to_nat (8 * (n - i - 1))) x00.
Definition sample_maps : maps_t :=
  [(0x10000, word_at 0 0x14003 2); (0x14000, word_at 1 0x18003 4); (0x18000, le_bytes 8 0x20003 ++ le_bytes 8 0x30003);
   (0x20000, replicate (Z.to_nat 0x4000) x61); (0x30000, b "page two")].
Lemma user_reads_translation_witness :
  0 ≤ 6 ∧ user sample_maps 0x10000 (2 ^ 25 + 0x3ffe) 6 = Ok (b "aapage")
  ∧ ∃ pa room, translate sample_maps 0x10000 (2 ^ 25 + 0x3ffe + 2) = Ok (pa, room) ∧ holds sample_maps pa x70.
Proof.
  split; [lia|]. split; [vm_compute; reflexivity|].
  pose proof (user_reads_translation sample_maps 0x10000 (2 ^ 25 + 0x3ffe) 6 ltac:(lia)) as H.
  assert (user sample_maps 0x10000 (2 ^ 25 + 0x3ffe) 6 = Ok (b "aapage")) as E by (vm_compute; reflexivity).
  rewrite E in H. destruct H as [_ H]. apply (H 2 x70); [lia|reflexivity].
Defined.

(** ** The page cache *)

Section cache.
Context (maps : maps_t) (answer : Z → list Z).

(** Every cached translation is the one the monitor gives. *)
Definition cache_ok (pages : list (Z * Z)) : Prop :=
  ∀ page pa, dget page pages = Some pa → gpa_search (answer page) = Some pa.

Lemma page_of_ok pages page :
  cache_ok pages →
  (page_of answer pages page).1 = opt_or (gpa_search (answer page)) (ValueError "kernel translation failed")
  ∧ cache_ok (page_of answer pages page).2.
Proof.
  intros Hc. unfold page_of. destruct (dget page pages) as [pa|] eqn:E.
  - by rewrite (Hc _ _ E).
  - destruct (gpa_search (answer page)) as [pa|] eqn:Eg; [|done]. split; [done|].
    intros p q. cbn. rewrite dget_dset. destruct (decide (p = page)) as [->|]; [congruence|apply Hc].
Qed.

Lemma kernel_from_cache fuel pages pages' va n :
  cache_ok pages → cache_ok pages' →
  (kernel_from maps answer fuel pages va n).1 = (kernel_from maps answer fuel pages' va n).1
  ∧ cache_ok (kernel_from maps answer fuel pages va n).2.
Proof.
  revert pages pages' va n. induction fuel as [|fuel IH]; intros pages pages' va n Hc Hc'; cbn [kernel_from];
    destruct (n <=? 0); try done.
  destruct (page_of_ok pages (Z.land va (Z.lnot 0x3fff)) Hc) as [H1 H2].
  destruct (page_of_ok pages' (Z.land va (Z.lnot 0x3fff)) Hc') as [H1' H2'].
  destruct (page_of answer pages _) as [m p]; destruct (page_of answer pages' _) as [m' p']; cbn [fst snd] in *; subst m m'.
  destruct (opt_or _ _) as [base|e]; [|done]. destruct (physical _ _ _) as [chunk|e]; [|done].
  specialize (IH p p' (va + zlen chunk) (n - zlen chunk) H2 H2').
  destruct (kernel_from maps answer fuel p _ _) as [r q]; destruct (kernel_from maps answer fuel p' _ _) as [r' q'].
  cbn [fst snd] in *. destruct IH as [-> IH]. done.
Qed.
End cache.

(** The page cache is invisible.  Starting from the empty cache, after any
    sequence of kernel reads (failed ones included) a further read gives what
    it would give with a fresh reader: the bytes or the [ValueError]. *)
Theorem kernel_cache_transparent maps answer reads address size :
  let pages := foldl (λ pages r, (kernel maps answer pages r.1 r.2).2) [] reads in
  (kernel maps answer pages address size).1 = (kernel maps answer [] address size).1.
Proof.
  intros pages. apply kernel_from_cache; [|done]. unfold pages. clear.
  assert (∀ pages, cache_ok answer pages →
            cache_ok answer (foldl (λ pages r, (kernel maps answer pages r.1 r.2).2) pages reads)) as H.
  { induction reads as [|r reads IH]; intros pages Hc; [done|]. cbn [foldl]. apply IH.
    by apply (kernel_from_cache _ _ _ pages pages). }
  by apply H.
Qed.
