(* ===== verification/Serial.v ===== *)
(** * The serial console driver: [tools/serial.py]

    A console is a script of what the socket's next [recv] calls give, each
    with the time the call takes; when the script is used up the guest stays
    silent.  Times are milliseconds.  Sent bytes, the log file and standard
    output accumulate in the console state.  The user's regular expressions are
    predicates on text ([re.search(...) is not None]), and the host's [cksum]
    program is a parameter of the upload. *)

From stdpp Require Import base tactics list sets strings.
From Stdlib Require Import Strings.Byte.
From S2P Require Import Prelude PyState PyBytes PyStr.
Open Scope Z_scope.

(** ** The console *)

(** What one [s.recv(65536)] gives; [Got []] is the end of the stream. *)
Inductive recv :=
  | Got (chunk : list byte)
  | Blocking
  | Gone.
Record console := Console {
  now : Z;
  script : list (N * recv);
  sent : list byte;
  log : list Z;
  out : list Z;
}.

(** Operations on the console that can raise. *)
Abbreviation M := (SE console).
Definition sys_exit {A} (msg : string) : M A := lift (Raise (SystemExit msg)).

Definition sleep (ms : Z) (c : console) : console :=
  Console (now c + ms) (script c) (sent c) (log c) (out c).
Definition log_write (text : list Z) (c : console) : console :=
  Console (now c) (script c) (sent c) (log c ++ text) (out c).
Definition print (text : list Z) (c : console) : console :=
  Console (now c) (script c) (sent c) (log c) (out c ++ text).
(** [s.sendall(bytes((byte,)))]. *)
Definition sendall (x : byte) (c : console) : console :=
  Console (now c) (script c) (sent c ++ [x]) (log c) (out c).
Definition recv_next (c : console) : recv * console :=
  match script c with
  | [] => (Blocking, c)
  | (dt, r) :: rest => (r, Console (now c + Z.of_N dt) rest (sent c) (log c) (out c))
  end.

(** Passes of a receive loop before [deadline]: each consumes a scripted
    answer or sleeps 20 ms. *)
Definition fuel_for (deadline : Z) (c : console) : nat :=
  (length (script c) + Z.to_nat (deadline - now c) + 1)%nat.

(** ** Lines of output *)

Definition newline : byte := x0a.
(** [line.decode('utf-8', 'replace').rstrip('\r')]. *)
Definition line_text (line : list byte) : list Z :=
  reverse (dropwhile (Z.eqb 13) (reverse (utf8_replace line))).

Section output.
Variable drop_re : option (list Z → bool).

Definition dropped (text : list Z) : bool := match drop_re with Some f => f text | None => false end.

(** The [while b'\n' in buf] loop over the complete lines; the texts shown. *)
Fixpoint emit_lines (echo : bool) (lines : list (list byte)) (c : console) : list (list Z) * console :=
  match lines with
  | [] => ([], c)
  | line :: lines =>
      let text := line_text line in
      let c := log_write (text ++ [10]) c in
      if dropped text then emit_lines echo lines c
      else
        let c := if echo then print (text ++ [10]) c else c in
        let '(shown, c) := emit_lines echo lines c in (text :: shown, c)
  end.
Definition complete_lines (buf : list byte) : list (list byte) * list byte :=
  let ws := split1 newline buf in (removelast ws, List.last ws []).
Definition emit (echo : bool) (buf : list byte) (c : console) : list (list Z) * list byte * console :=
  let '(lines, rest) := complete_lines buf in
  let '(shown, c) := emit_lines echo lines c in (shown, rest, c).

(** What is left of the last line when a loop ends. *)
Definition emit_rest (echo : bool) (buf : list byte) (c : console) : list (list Z) * console :=
  match buf with
  | [] => ([], c)
  | _ =>
      let text := utf8_replace buf in
      let c := log_write text c in
      if dropped text then ([], c) else ([text], if echo then print text c else c)
  end.

(** ** [drain] *)

Fixpoint drain_from (fuel : nat) (deadline idle last : Z) (echo : bool) (buf : list byte) (c : console)
    : option (list (list Z) * list byte * console) :=
  if now c <? deadline then
    match fuel with
    | O => None
    | S fuel =>
        let '(r, c) := recv_next c in
        let go last buf c :=
          let '(shown, buf, c) := emit echo buf c in
          '(shown', buf, c) ← drain_from fuel deadline idle last echo buf c;
          Some (shown ++ shown', buf, c) in
        match r with
        | Got [] => go last buf c
        | Got chunk => go (now c) (buf ++ chunk) c
        | Blocking => if idle <? now c - last then Some ([], buf, c) else go last buf (sleep 20 c)
        | Gone => Some ([], buf, c)
        end
    end
  else Some ([], buf, c).
Definition drain (secs idle : Z) (echo : bool) : M (list (list Z)) := λ c,
  match drain_from (fuel_for (now c + secs) c) (now c + secs) idle (now c) echo [] c with
  | None => (Raise OutOfFuel, c)
  | Some (shown, buf, c) => let '(shown', c) := emit_rest echo buf c in (Ok (shown ++ shown'), c)
  end.

(** ** [wait_for_text] and [wait_for_markers]

    The two loops are one, up to what they look for: [note] updates what has
    been seen from the last 16384 characters, [enough] ends the loop. *)

Definition last_16384 (s : list Z) : list Z := zdrop (zlen s - 16384) s.

Section wait.
Context {S : Type} (note : list Z → S → S) (enough : S → bool).

Fixpoint wait_from (fuel : nat) (deadline : Z) (echo : bool) (line_buf : list byte) (text_buf : list Z) (seen : S)
    (c : console) : option (bool * console) :=
  if now c <? deadline then
    match fuel with
    | O => None
    | Datatypes.S fuel =>
        let '(r, c) := recv_next c in
        match r with
        | Blocking => wait_from fuel deadline echo line_buf text_buf seen (sleep 20 c)
        | Gone | Got [] => Some (false, c)
        | Got chunk =>
            let text_buf := last_16384 (text_buf ++ utf8_replace chunk) in
            let seen := note text_buf seen in
            let '(_, line_buf, c) := emit echo (line_buf ++ chunk) c in
            if enough seen then Some (true, (emit_rest echo line_buf c).2)
            else wait_from fuel deadline echo line_buf text_buf seen c
        end
    end
  else Some (false, (emit_rest echo line_buf c).2).
Definition wait_loop (secs : Z) (seen : S) : M bool := λ c,
  match wait_from (fuel_for (now c + secs) c) (now c + secs) true [] [] seen c with
  | None => (Raise OutOfFuel, c)
  | Some (found, c) => (Ok found, c)
  end.
End wait.

Definition wait_for_text (pattern : list Z → bool) (secs : Z) : M bool :=
  wait_loop (λ text (_ : bool), pattern text) id secs false.

(** [re.compile(re.escape(marker)).search(text)]. *)
Definition escaped (marker text : list Z) : bool := contains marker text.
Definition wanted (markers : list (list Z)) : list (list Z) := remove_dups markers.
Definition note_markers (wanted : list (list Z)) (text : list Z) (seen : list (list Z)) : list (list Z) :=
  filter (λ m, m ∈ seen ∨ escaped m text = true) wanted.
Definition wait_for_markers (markers : list (list Z)) (secs : Z) : M bool :=
  wait_loop (note_markers (wanted markers)) (λ seen, zlen seen =? zlen (wanted markers)) secs [].

(** ** Sending *)

Fixpoint send_paced (data : list byte) (char_delay : Z) (c : console) : console :=
  match data with
  | [] => c
  | x :: data =>
      let c := sendall x c in
      send_paced data char_delay (if char_delay =? 0 then c else sleep char_delay c)
  end.
Definition paced (data : list byte) (char_delay : Z) : M () := λ c, (Ok (), send_paced data char_delay c).

Definition wait_for_prompt (prompt_re : list Z → bool) (timeout char_delay : Z) : M bool :=
  _ ← (λ c, (Ok (), sleep 50 c)) : M ();
  _ ← paced [newline; newline] char_delay;
  found ← wait_for_text prompt_re timeout;
  if negb found then mret false
  else _ ← drain 500 100 false; mret true.

(** A command line behind its guard. *)
Definition guarded (command : list Z) : res (list byte) :=
  bs ← utf8_encode command; Ok (b ": :; " ++ bs ++ [newline]).
Definition send_command (command : list Z) (char_delay : Z) : M () :=
  wire ← lift (guarded command); paced wire char_delay.
Definition send_command_batch (commands : list (list Z)) (char_delay : Z) : M () :=
  wires ← lift (res_map guarded commands); paced (concat wires) char_delay.
End output.

(** ** [upload] *)

Definition roots : list (list Z) :=
  [u "/private/var/.dvm-data-seed/"; u "/private/var/hardware/.dvm-data-seed/"].
Definition remote_path_is_safe (path : list Z) : bool :=
  existsb (λ root, startswith root path && negb (bool_decide (path = root))) roots
  && negb (bool_decide (u ".." ∈ split1 47 path)).

(** [os.path.dirname]: up to the last slash, without trailing slashes unless
    nothing else is left. *)
Definition dirname (p : list Z) : list Z :=
  let head := reverse (dropwhile (λ c, negb (c =? 47)) (reverse p)) in
  if forallb (Z.eqb 47) head then head else reverse (dropwhile (Z.eqb 47) (reverse head)).

(** [base64.b64encode(blob).decode('ascii')]. *)
Definition b64char (v : Z) : Z :=
  if v <? 26 then 65 + v else if v <? 52 then 71 + v else if v <? 62 then v - 4 else if v =? 62 then 43 else 47.
Fixpoint b64encode (l : list byte) : list Z :=
  match l with
  | [] => []
  | [x] => [b64char (b2z x / 4); b64char (b2z x mod 4 * 16); 61; 61]
  | [x; y] => [b64char (b2z x / 4); b64char (b2z x mod 4 * 16 + b2z y / 16); b64char (b2z y mod 16 * 4); 61]
  | x :: y :: z :: l =>
      [b64char (b2z x / 4); b64char (b2z x mod 4 * 16 + b2z y / 16);
       b64char (b2z y mod 16 * 4 + b2z z / 64); b64char (b2z z mod 64)] ++ b64encode l
  end.

(** ['%06d' % n]. *)
Definition dec6 (n : Z) : list Z := let d := dec n in replicate (Z.to_nat (6 - zlen d)) 48 ++ d.
Definition part_path (part_dir : list Z) (number : Z) : list Z := part_dir ++ u "/" ++ dec6 number.
(** [": :; printf '%s' '' > part; /bin/cksum part\n"] for the first part. *)
Definition overhead_line (part_dir : list Z) : list Z :=
  let part := part_path part_dir 1 in
  u ": :; printf '%s' '' > " ++ part ++ u "; /bin/cksum " ++ part ++ [10].
Definition chunk_bytes_of (line_overhead : Z) : Z := Z.min 120 ((252 - line_overhead) / 4 * 4).
(** [enumerate(range(0, len(encoded), chunk_bytes), 1)] with the slices. *)
Definition numbered_chunks (n : Z) (encoded : list Z) : list (Z * list Z) :=
  map (λ i, (i + 1, slice (i * n) (i * n + n) encoded)) (seqZ 0 ((zlen encoded + n - 1) / n)).
Definition chunk_command (part_dir : list Z) (p : Z * list Z) : list Z :=
  u "printf '%s' '" ++ p.2 ++ u "' > " ++ part_path part_dir p.1 ++ u "; /bin/cksum " ++ part_path part_dir p.1.
Definition chunk_marker (part_dir sum : list Z) (p : Z * list Z) : list Z :=
  sum ++ u " " ++ dec (zlen p.2) ++ u " " ++ part_path part_dir p.1.

Record args_t := Args {
  prompt_re : list Z → bool; drop_re : option (list Z → bool);
  secs : Z; idle : Z; prompt_timeout : Z; echo_timeout : Z; char_delay : Z; upload_batch : Z;
}.

Section upload.
Variable args : args_t.
Variable cksum : list byte → option (list Z).

Let prompt : M bool := wait_for_prompt (drop_re args) (prompt_re args) (prompt_timeout args) (char_delay args).

(** The retry loop of [checked] and [checked_batch]: [send], wait for the
    witness, and after a witness read on; [n] attempts. *)
Fixpoint attempt (n : nat) (send : M ()) (witness : M bool) (after : M ()) (no_prompt no_witness : string) : M () :=
  match n with
  | O => sys_exit no_witness
  | S n =>
      let last := bool_decide (n = O) in
      ready ← prompt;
      if negb ready then
        (if last then sys_exit no_prompt else attempt n send witness after no_prompt no_witness)
      else
        _ ← send;
        found ← witness;
        if found : bool then after
        else
          _ ← (if last then mret ()
               else _ ← paced [x03; newline] (char_delay args);
                    _ ← drain (drop_re args) 500 200 false; mret ());
          attempt n send witness after no_prompt no_witness
  end.

Definition checked (command marker : list Z) (final : bool) (attempts : nat) : M () :=
  attempt attempts (send_command command (char_delay args))
    (wait_for_text (drop_re args) (escaped marker) (echo_timeout args))
    (_ ← drain (drop_re args) (if final then secs args else 100) (if final then idle args else 50) true; mret ())
    "serial: shell prompt did not arrive before upload command"
    "serial: upload completion marker did not arrive".

Definition checked_batch (entries : list (list Z * list Z)) (attempts : nat) : M () :=
  attempt attempts (send_command_batch (map fst entries) (char_delay args))
    (wait_for_markers (drop_re args) (map snd entries) (echo_timeout args))
    (_ ← drain (drop_re args) 100 50 true; mret ())
    "serial: shell prompt did not arrive before upload batch"
    "serial: upload batch completion markers did not all arrive".

(** The chunk loop. *)
Fixpoint write_parts (part_dir : list Z) (parts : list (Z * list Z)) (entries : list (list Z * list Z)) : M () :=
  match parts with
  | [] => match entries with [] => mret () | _ => checked_batch entries 8 end
  | p :: parts =>
      sum ← lift (bs ← ascii_encode p.2;
                  opt_or (cksum bs) (SystemExit "serial: cannot calculate chunk cksum"));
      let entries := entries ++ [(chunk_command part_dir p, chunk_marker part_dir sum p)] in
      if zlen entries =? upload_batch args
      then _ ← checked_batch entries 8; write_parts part_dir parts []
      else write_parts part_dir parts entries
  end.

Definition setup_commands (remote_path : list Z) : list (list Z * list Z) :=
  let encoded_path := remote_path ++ u ".b64" in
  let part_dir := dirname remote_path ++ u "/.upload-parts" in
  [(u "mkdir -p " ++ dirname remote_path ++ u " " ++ part_dir ++ u "; echo DVM_UPLOAD_SETUP_DIR_RC=$?",
    u "DVM_UPLOAD_SETUP_DIR_RC=0");
   (u "/bin/rm -f " ++ remote_path ++ u " " ++ encoded_path ++ u "; echo DVM_UPLOAD_SETUP_TARGET_RC=$?",
    u "DVM_UPLOAD_SETUP_TARGET_RC=0");
   (u "/bin/rm -f " ++ encoded_path ++ u ".part.*" ++ u " " ++ part_dir ++ u "/*" ++ u "; echo DVM_UPLOAD_SETUP_RC=$?",
    u "DVM_UPLOAD_SETUP_RC=0")].

Definition verify_commands (remote_path : list Z) (size : Z) (sum : list Z) : list (list Z * list Z) :=
  let encoded_path := remote_path ++ u ".b64" in
  let part_glob := dirname remote_path ++ u "/.upload-parts" ++ u "/*" in
  [(u "/bin/cat " ++ part_glob ++ u " > " ++ encoded_path ++ u "; echo DVM_UPLOAD_JOIN_RC=$?",
    u "DVM_UPLOAD_JOIN_RC=0");
   (u "/bin/base64 -d " ++ encoded_path ++ u " > " ++ remote_path ++ u "; echo DVM_UPLOAD_DECODE_RC=$?",
    u "DVM_UPLOAD_DECODE_RC=0");
   (u "test " ++ [34] ++ u "$(wc -c < " ++ remote_path ++ u ")" ++ [34] ++ u " -eq " ++ dec size
      ++ u "; echo DVM_UPLOAD_SIZE_RC=$?",
    u "DVM_UPLOAD_SIZE_RC=0");
   (u "set -- $(cksum " ++ remote_path ++ u "); test " ++ [34] ++ u "$1" ++ [34] ++ u " = " ++ sum
      ++ u "; echo DVM_UPLOAD_CKSUM_RC=$?",
    u "DVM_UPLOAD_CKSUM_RC=0")].

Definition final_command (remote_path : list Z) (size : Z) : list Z * list Z :=
  let part_dir := dirname remote_path ++ u "/.upload-parts" in
  (u "/bin/rm -f " ++ remote_path ++ u ".b64" ++ u " " ++ part_dir ++ u "/*" ++ u "; /bin/rmdir " ++ part_dir
     ++ u "; echo DVM_UPLOAD_FINAL_RC=$? DVM_UPLOAD_BYTES=" ++ dec size,
   u "DVM_UPLOAD_FINAL_RC=0 DVM_UPLOAD_BYTES=" ++ dec size).

Fixpoint checked_all (commands : list (list Z * list Z)) : M () :=
  match commands with
  | [] => mret ()
  | (command, marker) :: commands => _ ← checked command marker false 3; checked_all commands
  end.

(** [source] is the local file ([None]: it cannot be read), [file_cksum] the
    host's checksum of it. *)
Definition upload (source : option (list byte)) (file_cksum : option (list Z)) (remote_path : list Z) : M () :=
  if negb (remote_path_is_safe remote_path) then
    sys_exit "serial: upload target must be in a supported .dvm-data-seed namespace"
  else
    blob ← lift (opt_or source (SystemExit "serial: cannot read upload source"));
    let part_dir := dirname remote_path ++ u "/.upload-parts" in
    _ ← checked_all (setup_commands remote_path);
    let encoded := b64encode blob in
    line ← lift (ascii_encode (overhead_line part_dir));
    let chunk_bytes := chunk_bytes_of (zlen line) in
    if chunk_bytes <=? 0 then sys_exit "serial: upload target leaves no room for a safe chunk line"
    else
      _ ← write_parts part_dir (numbered_chunks chunk_bytes encoded) [];
      sum ← lift (opt_or file_cksum (SystemExit "serial: cannot calculate host cksum"));
      _ ← checked_all (verify_commands remote_path (zlen blob) sum);
      let '(command, witness) := final_command remote_path (zlen blob) in
      checked command witness true 3.

(** ** [main] after the options are parsed *)

Definition converse (command : list Z) (no_handshake : bool) (no_prompt no_echo : string) : M () :=
  if no_handshake then bs ← lift (utf8_encode command); paced (bs ++ [newline]) (char_delay args)
  else
    ready ← prompt;
    if negb ready then sys_exit no_prompt
    else
      _ ← send_command command (char_delay args);
      echoed ← wait_for_text (drop_re args) (escaped command) (echo_timeout args);
      if negb echoed then sys_exit no_echo else mret ().

(** [[l.rstrip('\n') for l in f if l.strip() and not l.startswith('#')]]. *)
Definition script_commands (lines : list (list Z)) : list (list Z) :=
  map (λ l, reverse (dropwhile (Z.eqb 10) (reverse l)))
    (filter (λ l, strip l ≠ [] ∧ startswith (u "#") l = false) lines).

Fixpoint run_script (no_handshake : bool) (cmds : list (list Z)) : M () :=
  match cmds with
  | [] => mret ()
  | c :: cmds =>
      _ ← (λ k, (Ok (), print (u "--- " ++ c ++ [10]) k)) : M ();
      _ ← converse c no_handshake "serial: shell prompt did not arrive before: " "serial: command echo did not match: ";
      _ ← drain (drop_re args) (secs args) (idle args) true;
      run_script no_handshake cmds
  end.

Inductive action :=
  | Read
  | Send (arg : list Z)
  | Script (lines : list (list Z))
  | Upload (source : option (list byte)) (file_cksum : option (list Z)) (remote_path : list Z).

Definition run_action (a : action) (no_handshake : bool) : M () :=
  match a with
  | Read => _ ← drain (drop_re args) (secs args) (idle args) true; mret ()
  | Send arg =>
      _ ← drain (drop_re args) 300 200 false;
      _ ← converse arg no_handshake "serial: shell prompt did not arrive; command not sent"
            "serial: command echo did not match; refusing to trust result";
      _ ← drain (drop_re args) (secs args) (idle args) true; mret ()
  | Script lines => _ ← drain (drop_re args) 300 200 false; run_script no_handshake (script_commands lines)
  | Upload source file_cksum remote_path =>
      if no_handshake then sys_exit "serial: upload requires the shell handshake"
      else if bool_decide (remote_path = []) then sys_exit "serial: upload requires --remote-path"
      else _ ← drain (drop_re args) 300 200 false; upload source file_cksum remote_path
  end.
End upload.

(** ** Output: what the log gets *)

(** The bytes and the text of the answers a run consumed. *)
Definition bytes_of (r : recv) : list byte := match r with Got l => l | _ => [] end.
Definition received (rs : list (N * recv)) : list byte := concat (map (λ r, bytes_of r.2) rs).
Definition heard (rs : list (N * recv)) : list Z := concat (map (λ r, utf8_replace (bytes_of r.2)) rs).

(** The log of complete lines, and of a whole output. *)
Definition lines_log (lines : list (list byte)) : list Z := concat (map (λ l, line_text l ++ [10]) lines).
Definition log_of (bs : list byte) : list Z :=
  lines_log (complete_lines bs).1 ++ utf8_replace (complete_lines bs).2.

Lemma lines_log_app l k : lines_log (l ++ k) = lines_log l ++ lines_log k.
Proof. unfold lines_log. by rewrite map_app, concat_app. Qed.

Lemma complete_lines_app l k :
  complete_lines (l ++ k)
  = ((complete_lines l).1 ++ (complete_lines ((complete_lines l).2 ++ k)).1, (complete_lines ((complete_lines l).2 ++ k)).2).
Proof.
  unfold complete_lines. cbn [fst snd]. rewrite split1_app.
  set (s := split1 newline (List.last _ _ ++ k)). pose proof (split1_not_nil newline (List.last (split1 newline l) [] ++ k)) as Hs.
  fold s in Hs. rewrite removelast_app by done. f_equal.
  destruct (exists_last Hs) as (s' & x & ->). by rewrite app_assoc, !last_last.
Qed.

(** What output never touches. *)
Lemma emit_lines_spec f echo lines c :
  let c' := (emit_lines f echo lines c).2 in
  now c' = now c ∧ script c' = script c ∧ sent c' = sent c ∧ log c' = log c ++ lines_log lines.
Proof.
  revert c. induction lines as [|l lines IH]; intros c; cbn [emit_lines].
  { cbn. by rewrite app_nil_r. }
  cbv zeta. destruct (dropped f (line_text l)).
  - specialize (IH (log_write (line_text l ++ [10]) c)). cbv zeta in IH. destruct IH as (-> & -> & -> & ->). cbn.
    by rewrite <-app_assoc.
  - set (c1 := if echo then _ else _). specialize (IH c1). cbv zeta in IH.
    destruct (emit_lines f echo lines c1) as [shown c2]. cbn [snd] in *. destruct IH as (-> & -> & -> & ->).
    unfold c1. destruct echo; cbn; by rewrite <-app_assoc.
Qed.

Lemma emit_spec f echo buf c :
  let '(_, rest, c') := emit f echo buf c in
  rest = (complete_lines buf).2 ∧ now c' = now c ∧ script c' = script c ∧ sent c' = sent c
  ∧ log c' = log c ++ lines_log (complete_lines buf).1.
Proof.
  unfold emit. destruct (complete_lines buf) as [lines rest].
  pose proof (emit_lines_spec f echo lines c) as H. destruct (emit_lines f echo lines c) as [shown c']. by cbn in *.
Qed.

Lemma emit_rest_spec f echo buf c :
  let c' := (emit_rest f echo buf c).2 in
  now c' = now c ∧ script c' = script c ∧ sent c' = sent c ∧ log c' = log c ++ utf8_replace buf.
Proof.
  destruct buf as [|x buf]; [cbn; by rewrite app_nil_r|]. unfold emit_rest.
  destruct (dropped f _); [done|]. by destruct echo.
Qed.

(** One [recv] consumes the head of the script, if any. *)
Lemma recv_next_spec c r c' :
  recv_next c = (r, c') →
  sent c' = sent c ∧ log c' = log c ∧ now c ≤ now c'
  ∧ ((script c = [] ∧ r = Blocking ∧ c' = c) ∨ ∃ dt, script c = (dt, r) :: script c').
Proof.
  unfold recv_next. destruct (script c) as [|[dt r'] rest] eqn:E; intros [= <- <-]; cbn.
  - split_and!; try done. by left.
  - split_and!; try done; [lia|]. eauto.
Qed.

Lemma complete_lines_rest l : complete_lines (complete_lines l).2 = ([], (complete_lines l).2).
Proof.
  pose proof (complete_lines_app l []) as H. rewrite !app_nil_r in H.
  destruct (complete_lines l) as [ls r]. cbn [fst snd] in *. destruct (complete_lines r) as [ls' r'].
  injection H as H1 <-. f_equal. rewrite <-(app_nil_r ls) in H1 at 1. by apply app_inv_head in H1.
Qed.

Lemma received_cons dt r rs : received ((dt, r) :: rs) = bytes_of r ++ received rs.
Proof. done. Qed.

(** [c'] comes after [c]: the answers consumed, the complete lines of the
    buffer and these answers logged, nothing sent. *)
Definition logged (buf buf' : list byte) (consumed : list (N * recv)) (c c' : console) : Prop :=
  script c = consumed ++ script c' ∧ sent c' = sent c
  ∧ log c' = log c ++ lines_log (complete_lines (buf ++ received consumed)).1
  ∧ buf' = (complete_lines (buf ++ received consumed)).2.

Lemma logged_refl buf c : complete_lines buf = ([], buf) → logged buf buf [] c c.
Proof. intros H. unfold logged. rewrite app_nil_r, H. cbn. by rewrite app_nil_r. Qed.

Lemma logged_trans buf1 buf2 buf3 l1 l2 c1 c2 c3 :
  logged buf1 buf2 l1 c1 c2 → logged buf2 buf3 l2 c2 c3 → logged buf1 buf3 (l1 ++ l2) c1 c3.
Proof.
  intros (Hs1 & Hw1 & Hl1 & Hb1) (Hs2 & Hw2 & Hl2 & Hb2). unfold logged, received in *.
  rewrite map_app, concat_app, app_assoc, complete_lines_app. cbn [fst snd]. rewrite <-Hb1. split_and!.
  - by rewrite Hs1, Hs2, app_assoc.
  - congruence.
  - by rewrite Hl2, Hl1, lines_log_app, app_assoc.
  - done.
Qed.

(** What a loop has left: answers, and milliseconds before the deadline. *)
Definition left_over (deadline : Z) (c : console) : nat := (length (script c) + Z.to_nat (deadline - now c))%nat.

(** One pass of a receive loop that goes on: the answer's bytes join the
    buffer, and less is left. *)
Lemma logged_emit f echo buf r (slept : bool) c c1 c2 :
  recv_next c = (r, c1) → complete_lines buf = ([], buf) →
  emit f echo (buf ++ bytes_of r) (if slept then sleep 20 c1 else c1) = c2 →
  ∃ l, logged buf (snd (fst c2)) l c (snd c2)
       ∧ ∀ deadline, now c < deadline → slept = true ∨ r ≠ Blocking →
           (left_over deadline (snd c2) < left_over deadline c)%nat.
Proof.
  intros Hr Hb <-. apply recv_next_spec in Hr as (Hw & Hlog & Hnow & Hs).
  pose proof (emit_spec f echo (buf ++ bytes_of r) (if slept then sleep 20 c1 else c1)) as He.
  destruct (emit f echo _ _) as [[shown rest] c3]. destruct He as (-> & Hn3 & Hs3 & Hw3 & Hl3). cbn [fst snd] in *.
  assert (script c3 = script c1 ∧ sent c3 = sent c1 ∧ now c1 ≤ now c3 ∧ (slept = true → now c1 + 20 ≤ now c3)
          ∧ log c3 = log c1 ++ lines_log (complete_lines (buf ++ bytes_of r)).1) as (Es & Ew & En & En' & El)
    by (destruct slept; cbn in *; split_and!; try done; lia).
  unfold left_over, logged. rewrite Es, Ew, El, Hw, Hlog. destruct Hs as [(Hnil & -> & ->)|[dt' Hs]].
  - exists []. split; [split_and!; try done|]. intros d Hd [Hsl|]; [|done]. specialize (En' Hsl). lia.
  - exists [(dt', r)]. unfold received. cbn [map concat snd]. rewrite app_nil_r. split; [split_and!; done|].
    intros d Hd _. rewrite Hs. cbn [length]. lia.
Qed.

Lemma logged_rest buf buf' l c c' : logged buf buf' l c c' → complete_lines buf' = ([], buf').
Proof. intros (_ & _ & _ & ->). apply complete_lines_rest. Qed.

Lemma logged_last buf r c c1 :
  recv_next c = (r, c1) → complete_lines buf = ([], buf) → bytes_of r = [] → ∃ l, logged buf buf l c c1.
Proof.
  intros Hr Hb Hn. pose proof (logged_emit None false buf r false c c1 _ Hr Hb eq_refl) as (l & Hl & _).
  rewrite Hn, app_nil_r in Hl. unfold emit in Hl. rewrite Hb in Hl. cbn in Hl. by exists l.
Qed.

Lemma drain_from_spec f fuel deadline idle last echo buf c :
  complete_lines buf = ([], buf) → (left_over deadline c ≤ fuel)%nat →
  ∃ shown buf' c' l, drain_from f fuel deadline idle last echo buf c = Some (shown, buf', c') ∧ logged buf buf' l c c'.
Proof.
  revert last buf c. induction fuel as [|fuel IH]; intros last buf c Hb Hf; cbn [drain_from].
  all: destruct (now c <? deadline) eqn:Hd; [|by exists [], buf, c, []; split; [done|apply logged_refl]].
  { unfold left_over in Hf. lia. }
  destruct (recv_next c) as [r c1] eqn:Hr.
  assert (∀ slept last, slept = true ∨ r ≠ Blocking →
    ∃ shown buf' c' l,
      (let '(shown, buf, c) := emit f echo (buf ++ bytes_of r) (if slept : bool then sleep 20 c1 else c1) in
       '(shown', buf, c) ← drain_from f fuel deadline idle last echo buf c; Some (shown ++ shown', buf, c))
      = Some (shown, buf', c') ∧ logged buf buf' l c c') as Hgo.
  { intros slept last' Hsl. destruct (logged_emit f echo buf r slept c c1 _ Hr Hb eq_refl) as (l & Hl & Hm).
    destruct (emit f echo _ _) as [[shown rest] c2]. cbn [fst snd] in *. specialize (Hm deadline ltac:(lia) Hsl).
    destruct (IH last' rest c2 (logged_rest _ _ _ _ _ Hl) ltac:(lia)) as (shown' & buf' & c' & l' & -> & Hl').
    exists (shown ++ shown'), buf', c', (l ++ l'). split; [done|]. by apply (logged_trans _ rest _ _ _ _ c2). }
  destruct r as [[|x chunk]| |].
  - specialize (Hgo false last). cbn [bytes_of] in Hgo. rewrite app_nil_r in Hgo. apply Hgo. by right.
  - apply (Hgo false). by right.
  - destruct (idle <? now c1 - last).
    + destruct (logged_last buf Blocking c c1 Hr Hb eq_refl) as [l Hl]. by exists [], buf, c1, l.
    + specialize (Hgo true last). cbn [bytes_of] in Hgo. rewrite app_nil_r in Hgo. apply Hgo. by left.
  - destruct (logged_last buf Gone c c1 Hr Hb eq_refl) as [l Hl]. by exists [], buf, c1, l.
Qed.

Lemma log_of_logged buf' l c c' : logged [] buf' l c c' → log c' ++ utf8_replace buf' = log c ++ log_of (received l).
Proof. intros (_ & _ & -> & ->). unfold log_of. by rewrite app_assoc. Qed.

Lemma heard_app l k : heard (l ++ k) = heard l ++ heard k.
Proof. unfold heard. by rewrite map_app, concat_app. Qed.

(** What one pass consumed was heard: its answer, or silence. *)
Lemma recv_heard c r c1 l :
  recv_next c = (r, c1) → script c = l ++ script c1 → heard l = utf8_replace (bytes_of r).
Proof.
  intros Hr Hl. apply recv_next_spec in Hr as (_ & _ & _ & [(Hnil & -> & ->)|[dt Hs]]).
  - rewrite Hnil in Hl. by destruct l.
  - rewrite Hs in Hl. change ((dt, r) :: script c1) with ([(dt, r)] ++ script c1) in Hl.
    apply app_inv_tail in Hl as <-. unfold heard. cbn [map concat snd]. by rewrite app_nil_r.
Qed.

Lemma emit_script f echo buf c : script (emit f echo buf c).2 = script c.
Proof.
  pose proof (emit_spec f echo buf c) as H. destruct (emit f echo buf c) as [[? ?] c']. by destruct H as (_ & _ & H & _).
Qed.

Section wait_spec.
Context {S : Type} (note : list Z → S → S) (enough : S → bool) (P : S → list Z → Prop).
(** [P seen h]: what [seen] claims about the text heard. *)
Hypothesis note_sound : ∀ text seen h, P seen h → (∃ pre, h = pre ++ text) → P (note text seen) h.
Hypothesis P_mono : ∀ seen h k, P seen h → P seen (h ++ k).

Lemma wait_from_spec f fuel deadline echo buf text_buf seen h c :
  complete_lines buf = ([], buf) → (left_over deadline c ≤ fuel)%nat → P seen h → (∃ pre, h = pre ++ text_buf) →
  ∃ found c' l buf', wait_from f note enough fuel deadline echo buf text_buf seen c = Some (found, c')
    ∧ script c = l ++ script c' ∧ sent c' = sent c
    ∧ (found = true → (∃ seen', enough seen' = true ∧ P seen' (h ++ heard l))
                      ∧ ∃ c2, logged buf buf' l c c2 ∧ log c' = log c2 ++ utf8_replace buf').
Proof using note_sound P_mono.
  revert buf text_buf seen h c. induction fuel as [|fuel IH]; intros buf text_buf seen h c Hb Hf HP Ht; cbn [wait_from].
  all: pose proof (emit_rest_spec f echo buf c) as (_ & Es & Ew & _).
  all: destruct (now c <? deadline) eqn:Hd; [|by exists false, (emit_rest f echo buf c).2, [], []].
  { unfold left_over in Hf. lia. }
  destruct (recv_next c) as [r c1] eqn:Hr.
  destruct r as [[|x chunk]| |].
  1, 4: destruct (logged_last buf _ c c1 Hr Hb eq_refl) as (l & Hs & Hw & _); by exists false, c1, l, [].
  - set (chunk' := x :: chunk) in *. set (t := last_16384 _).
    destruct (logged_emit f echo buf (Got chunk') false c c1 _ Hr Hb eq_refl) as (l & Hl & Hm).
    cbn [bytes_of] in Hl, Hm.
    assert (heard l = utf8_replace chunk') as Hh.
    { apply (recv_heard _ _ _ _ Hr). destruct Hl as (Hl & _). by rewrite emit_script in Hl. }
    assert (∃ pre, h ++ heard l = pre ++ t) as Ht'.
    { destruct Ht as [pre ->]. rewrite Hh. unfold t, last_16384.
      set (w := text_buf ++ utf8_replace chunk'). exists (pre ++ ztake (zlen w - 16384) w).
      rewrite <-(app_assoc pre (ztake _ _)), ztake_zdrop. unfold w. by rewrite app_assoc. }
    pose proof (note_sound t seen _ (P_mono _ _ (heard l) HP) Ht') as HP'.
    destruct (emit f echo (buf ++ chunk') c1) as [[shown rest] c2]. cbn [fst snd] in *.
    specialize (Hm deadline ltac:(lia) ltac:(by right)).
    destruct (enough (note t seen)) eqn:En.
    + pose proof (emit_rest_spec f echo rest c2) as (_ & Es2 & Ew2 & El2).
      exists true, (emit_rest f echo rest c2).2, l, rest. pose proof Hl as (Hs & Hw & _).
      split_and!; [done|congruence|congruence|]. intros _. split; [by exists (note t seen)|by exists c2].
    + destruct (IH rest t (note t seen) (h ++ heard l) c2 (logged_rest _ _ _ _ _ Hl) ltac:(lia) HP' Ht')
        as (found & c' & l' & buf' & -> & Hs' & Hw' & Hfound).
      pose proof Hl as (Hs & Hw & _). exists found, c', (l ++ l'), buf'.
      split_and!; [done|by rewrite Hs, Hs', app_assoc|congruence|]. intros Hf'.
      destruct (Hfound Hf') as [(seen' & He & HP2) (c3 & Hl3 & Hlog)]. split.
      * exists seen'. by rewrite heard_app, app_assoc.
      * exists c3. split; [by apply (logged_trans _ rest _ _ _ _ c2)|done].
  - destruct (logged_emit f echo buf Blocking true c c1 _ Hr Hb eq_refl) as (l & Hl & Hm).
    cbn [bytes_of] in Hl, Hm. rewrite app_nil_r in Hl, Hm. unfold emit in Hl, Hm. rewrite Hb in Hl, Hm. cbn [emit_lines fst snd] in Hl, Hm.
    specialize (Hm deadline ltac:(lia) ltac:(by left)).
    destruct (IH buf text_buf seen (h ++ heard l) (sleep 20 c1) Hb ltac:(lia) (P_mono _ _ _ HP))
      as (found & c' & l' & buf' & -> & Hs' & Hw' & Hfound).
    { rewrite (recv_heard _ _ _ _ Hr (proj1 Hl)). cbn. by rewrite app_nil_r. }
    pose proof Hl as (Hs & Hw & _). cbn in Hs', Hw'. exists found, c', (l ++ l'), buf'.
    split_and!; [done|by rewrite Hs; cbn; rewrite Hs', app_assoc|by rewrite Hw', <-Hw|]. intros Hf'.
    destruct (Hfound Hf') as [(seen' & He & HP2) (c3 & Hl3 & Hlog)]. split.
    + exists seen'. by rewrite heard_app, app_assoc.
    + exists c3. split; [by apply (logged_trans _ buf _ _ _ _ (sleep 20 c1))|done].
Qed.
End wait_spec.

(** ** A small program logic

    [runs m Q]: [m] ends, and when it returns [a] the bytes it sent and the
    text it heard satisfy [Q a]. *)

Definition runs {A} (m : M A) (Q : A → list byte → list Z → Prop) : Prop :=
  ∀ c, match m c with
       | (Raise e, _) => e ≠ OutOfFuel
       | (Ok a, c') => ∃ l w, script c = l ++ script c' ∧ sent c' = sent c ++ w ∧ Q a w (heard l)
       end.
Definition frames {A} (m : M A) : Prop := runs m (λ _ _ _, True).

Lemma runs_mono {A} (m : M A) (Q R : A → list byte → list Z → Prop) :
  runs m Q → (∀ a w h, Q a w h → R a w h) → runs m R.
Proof.
  intros Hm HQ c. specialize (Hm c). destruct (m c) as [[a|e] c']; [|done].
  destruct Hm as (l & w & ? & ? & ?). exists l, w. auto.
Qed.
Lemma runs_ret {A} (a : A) (Q : A → list byte → list Z → Prop) : Q a [] [] → runs (mret a) Q.
Proof. intros HQ c. exists [], []. by rewrite app_nil_r. Qed.
Lemma runs_lift {A} (m : res A) (Q : A → list byte → list Z → Prop) :
  m ≠ Raise OutOfFuel → (∀ a, m = Ok a → Q a [] []) → runs (lift m) Q.
Proof.
  intros Hm HQ c. unfold lift. destruct m as [a|e]; [|by intros ->]. exists [], []. rewrite app_nil_r. auto.
Qed.
Lemma runs_exit {A} msg (Q : A → list byte → list Z → Prop) : runs (sys_exit msg) Q.
Proof. by apply runs_lift. Qed.
Lemma runs_bind {A B} (m : M A) (f : A → M B) Q1 (Q2 : A → B → list byte → list Z → Prop) R :
  runs m Q1 → (∀ a, runs (f a) (Q2 a)) →
  (∀ a b w1 h1 w2 h2, Q1 a w1 h1 → Q2 a b w2 h2 → R b (w1 ++ w2) (h1 ++ h2)) →
  runs (m ≫= f) R.
Proof.
  intros Hm Hf HR c. unfold mbind, se_bind. specialize (Hm c). destruct (m c) as [[a|e] c1]; [|done].
  destruct Hm as (l1 & w1 & Hs1 & Hw1 & H1). specialize (Hf a c1). destruct (f a c1) as [[x|e] c2]; [|done].
  destruct Hf as (l2 & w2 & Hs2 & Hw2 & H2). exists (l1 ++ l2), (w1 ++ w2). rewrite heard_app. split_and!; [| |eauto].
  - by rewrite Hs1, Hs2, app_assoc.
  - by rewrite Hw2, Hw1, app_assoc.
Qed.

(** Claims that stay true when more is sent and heard around. *)
Class Stable (P : list byte → list Z → Prop) :=
  stable w h w1 w2 h1 h2 : P w h → P (w1 ++ w ++ w2) (h1 ++ h ++ h2).
Lemma stable_l P `{!Stable P} w h w1 h1 : P w h → P (w1 ++ w) (h1 ++ h).
Proof. intros H. pose proof (stable w h w1 [] h1 [] H) as H'. by rewrite !app_nil_r in H'. Qed.
Lemma stable_r P `{!Stable P} w h w2 h2 : P w h → P (w ++ w2) (h ++ h2).
Proof. exact (stable w h [] w2 [] h2). Qed.

Lemma runs_seq {A B} (m : M A) (f : A → M B) P Q `{!Stable P, !Stable Q} :
  runs m (λ _, P) → (∀ a, runs (f a) (λ _, Q)) → runs (m ≫= f) (λ _ w h, P w h ∧ Q w h).
Proof.
  intros Hm Hf. apply (runs_bind m f (λ _, P) (λ _ _, Q)); [done|done|]. intros.
  split; [by apply stable_r|by apply stable_l].
Qed.
Lemma runs_then {A B} (m : M A) (f : A → M B) Q `{!Stable Q} :
  frames m → (∀ a, runs (f a) (λ _, Q)) → runs (m ≫= f) (λ _, Q).
Proof. intros Hm Hf. apply (runs_bind m f (λ _ _ _, True) (λ _ _, Q)); [done|done|]. intros. by apply stable_l. Qed.
(** A value read on the way: what follows may rely on what is known of it. *)
Lemma runs_ex {A B} (m : M A) (f : A → M B) (F : A → Prop) (Q : A → list byte → list Z → Prop) `{!∀ a, Stable (Q a)} :
  runs m (λ a _ _, F a) → (∀ a, F a → runs (f a) (λ _, Q a)) → runs (m ≫= f) (λ _ w h, ∃ a, F a ∧ Q a w h).
Proof.
  intros Hm Hf c. unfold mbind, se_bind. specialize (Hm c). destruct (m c) as [[a|e] c1]; [|done].
  destruct Hm as (l1 & w1 & Hs1 & Hw1 & H1). specialize (Hf a H1 c1). destruct (f a c1) as [[x|e] c2]; [|done].
  destruct Hf as (l2 & w2 & Hs2 & Hw2 & H2). exists (l1 ++ l2), (w1 ++ w2). rewrite heard_app. split_and!.
  - by rewrite Hs1, Hs2, app_assoc.
  - by rewrite Hw2, Hw1, app_assoc.
  - exists a. split; [done|]. by apply stable_l.
Qed.

Lemma runs_frames {A} (m : M A) Q : runs m Q → frames m.
Proof. intros H. apply (runs_mono m Q); [exact H|]. intros. exact I. Qed.
Lemma frames_bind {A B} (m : M A) (f : A → M B) : frames m → (∀ a, frames (f a)) → frames (m ≫= f).
Proof. intros Hm Hf. apply (runs_bind m f (λ _ _ _, True) (λ _ _ _ _, True)); [exact Hm|exact Hf|]. intros. exact I. Qed.

Lemma contains_mid {A} `{EqDecision A} (p l l1 l2 : list A) : contains p l = true → contains p (l1 ++ l ++ l2) = true.
Proof.
  rewrite !contains_spec. intros (x & y & ->). exists (l1 ++ x), (y ++ l2). by rewrite <-!app_assoc.
Qed.
#[export] Instance true_stable : Stable (λ _ _, True).
Proof. done. Qed.
#[export] Instance and_stable P Q `{!Stable P, !Stable Q} : Stable (λ w h, P w h ∧ Q w h).
Proof. intros w h w1 w2 h1 h2 [HP HQ]. split; by apply stable. Qed.
#[export] Instance sent_stable x : Stable (λ w _, contains x w = true).
Proof. intros w h w1 w2 h1 h2. apply contains_mid. Qed.
#[export] Instance heard_stable x : Stable (λ _ h, contains x h = true).
Proof. intros w h w1 w2 h1 h2. apply contains_mid. Qed.
#[export] Instance all_stable {A} (P : A → list byte → list Z → Prop) (xs : list A) :
  (∀ x, Stable (P x)) → Stable (λ w h, ∀ x, x ∈ xs → P x w h).
Proof. intros HP w h w1 w2 h1 h2 H x Hx. apply (HP x). by apply H. Qed.
#[export] Instance ex_stable {A} (P : A → list byte → list Z → Prop) :
  (∀ x, Stable (P x)) → Stable (λ w h, ∃ x, P x w h).
Proof. intros HP w h w1 w2 h1 h2 [x H]. exists x. by apply (HP x). Qed.
#[export] Instance const_stable (R : Prop) : Stable (λ _ _, R).
Proof. by intros w h w1 w2 h1 h2. Qed.

(** ** The operations in the logic *)

Lemma complete_lines_nil : complete_lines [] = ([], []).
Proof. done. Qed.

Lemma left_over_fuel deadline c : (left_over deadline c ≤ fuel_for deadline c)%nat.
Proof. unfold left_over, fuel_for. lia. Qed.

Lemma drain_spec f secs idle echo c :
  ∃ shown l c', drain f secs idle echo c = (Ok shown, c')
    ∧ script c = l ++ script c' ∧ sent c' = sent c ∧ log c' = log c ++ log_of (received l).
Proof.
  destruct (drain_from_spec f _ (now c + secs) idle (now c) echo [] c complete_lines_nil (left_over_fuel _ _))
    as (shown & buf & c1 & l & E & Hl).
  unfold drain. rewrite E. pose proof (emit_rest_spec f echo buf c1) as (_ & Es & Ew & El).
  destruct (emit_rest f echo buf c1) as [shown' c2]. cbn [snd] in *.
  exists (shown ++ shown'), l, c2. split; [done|]. rewrite Es, Ew, El, (log_of_logged _ _ _ _ Hl).
  by destruct Hl as (Hs & Hw & _).
Qed.

Lemma drain_frames f secs idle echo : frames (drain f secs idle echo).
Proof.
  intros c. destruct (drain_spec f secs idle echo c) as (shown & l & c' & -> & Hs & Hw & _).
  exists l, []. by rewrite app_nil_r.
Qed.

Lemma send_paced_spec data d c :
  script (send_paced data d c) = script c ∧ sent (send_paced data d c) = sent c ++ data
  ∧ log (send_paced data d c) = log c.
Proof.
  revert c. induction data as [|x data IH]; intros c; cbn [send_paced]; [by rewrite app_nil_r|].
  specialize (IH (if d =? 0 then sendall x c else sleep d (sendall x c))). destruct IH as (-> & -> & ->).
  destruct (d =? 0); cbn; by rewrite <-app_assoc.
Qed.
Lemma paced_runs data d : runs (paced data d) (λ _ w _, w = data).
Proof.
  intros c. cbn. destruct (send_paced_spec data d c) as (-> & -> & _). by exists [], data.
Qed.

Lemma wait_loop_runs {S} f note enough (P : S → list Z → Prop) secs seen :
  (∀ text seen h, P seen h → (∃ pre, h = pre ++ text) → P (note text seen) h) →
  (∀ seen h k, P seen h → P seen (h ++ k)) → P seen [] →
  runs (wait_loop f note enough secs seen)
    (λ found _ h, found = true → ∃ seen', enough seen' = true ∧ P seen' h).
Proof.
  intros Hn Hm HP c. unfold wait_loop.
  destruct (wait_from_spec note enough P Hn Hm f _ (now c + secs) true [] [] seen [] c complete_lines_nil
              (left_over_fuel _ _) HP (ex_intro _ [] eq_refl)) as (found & c' & l & buf & -> & Hs & Hw & Hf).
  exists l, []. rewrite app_nil_r. split_and!; [done|done|]. intros ->. by apply Hf.
Qed.

Lemma contains_suffix {A} `{EqDecision A} (p h pre text : list A) :
  h = pre ++ text → contains p text = true → contains p h = true.
Proof. intros ->. rewrite <-(app_nil_r text) at 2. apply contains_mid. Qed.

Lemma wait_for_text_runs f marker secs :
  runs (wait_for_text f (escaped marker) secs) (λ found _ h, found = true → contains marker h = true).
Proof.
  eapply runs_mono; [apply (wait_loop_runs _ _ _ (λ seen h, seen = true → contains marker h = true))|]; try done.
  - intros text seen h _ [pre Hh] Ht. by eapply contains_suffix.
  - intros seen h k H Hs. pose proof (contains_mid marker h [] k). auto.
  - cbn. intros found _ h H Hf. by destruct (H Hf) as (seen & Hs & HP); apply HP.
Qed.
Lemma wait_frames f pattern secs : frames (wait_for_text f pattern secs).
Proof. eapply runs_frames, (wait_loop_runs _ _ _ (λ _ _, True)); done. Qed.

Lemma wait_for_markers_runs f markers secs :
  runs (wait_for_markers f markers secs)
    (λ found _ h, found = true → ∀ m, m ∈ markers → contains m h = true).
Proof.
  set (P := λ (seen : list (list Z)) h, seen ⊆+ wanted markers ∧ ∀ m, m ∈ seen → contains m h = true).
  eapply runs_mono; [apply (wait_loop_runs _ _ _ P)|]; unfold P.
  - intros text seen h [_ H] [pre Hh]. split; [apply sublist_submseteq, sublist_filter|].
    intros m Hm. apply list_elem_of_filter in Hm as [[Hm|Hm] _]; [by apply H|by eapply contains_suffix].
  - intros seen h k [Hs H]. split; [done|]. intros m Hm. apply (contains_mid m h [] k). by apply H.
  - split; [apply submseteq_nil_l|]. intros m Hm. by apply not_elem_of_nil in Hm.
  - cbn. intros found _ h H Hf m Hm. destruct (H Hf) as (seen & Hlen & Hs & Hseen).
    apply Hseen. assert (seen ≡ₚ wanted markers) as ->.
    { apply submseteq_length_Permutation; [done|]. unfold zlen in Hlen. lia. }
    unfold wanted. by apply elem_of_remove_dups.
Qed.

Lemma prompt_frames f re t d : frames (wait_for_prompt f re t d).
Proof.
  unfold wait_for_prompt. apply frames_bind; [intros c; exists [], []; by rewrite app_nil_r|intros _].
  apply frames_bind; [eapply runs_frames, paced_runs|intros _]. apply frames_bind; [apply wait_frames|intros []].
  - apply frames_bind; [apply drain_frames|]. intros _. by apply runs_ret.
  - by apply runs_ret.
Qed.

(** ** The upload *)

(** The command was sent behind its guard and the marker was heard. *)
Definition witnessed (e : list Z * list Z) (w : list byte) (h : list Z) : Prop :=
  (∃ wire, guarded e.1 = Ok wire ∧ contains wire w = true) ∧ contains e.2 h = true.
#[export] Instance witnessed_stable e : Stable (witnessed e).
Proof. unfold witnessed. apply _. Qed.

Lemma utf8_encode_fuel s : utf8_encode s ≠ Raise OutOfFuel.
Proof. unfold utf8_encode. by case_bool_decide. Qed.
Lemma ascii_encode_fuel s : ascii_encode s ≠ Raise OutOfFuel.
Proof. unfold ascii_encode. by case_match. Qed.
Lemma guarded_fuel s : guarded s ≠ Raise OutOfFuel.
Proof. unfold guarded. pose proof (utf8_encode_fuel s). by destruct (utf8_encode s). Qed.
Lemma guarded_all_fuel l : res_map guarded l ≠ Raise OutOfFuel.
Proof.
  induction l as [|s l IH]; [done|]. intros H. change (res_map guarded (s :: l)) with
    (y ← guarded s; ys ← res_map guarded l; Ok (y :: ys)) in H.
  apply bind_Raise in H as [H|(y & _ & H)]; [by apply guarded_fuel in H|].
  by apply bind_Raise in H as [H|(ys & _ & [=])].
Qed.

Lemma contains_refl {A} `{EqDecision A} (l : list A) : contains l l = true.
Proof. apply contains_spec. exists [], []. by rewrite app_nil_r. Qed.

Lemma send_command_runs command d :
  runs (send_command command d) (λ _ w _, ∃ wire, guarded command = Ok wire ∧ contains wire w = true).
Proof.
  eapply runs_bind.
  - apply (runs_lift _ (λ wire _ _, guarded command = Ok wire)); [apply guarded_fuel|done].
  - intros wire. apply paced_runs.
  - cbn. intros wire _ w1 _ w2 _ Hw ->. exists wire. split; [done|].
    pose proof (contains_mid wire wire w1 [] (contains_refl wire)) as H. by rewrite app_nil_r in H.
Qed.
Lemma send_batch_runs commands d :
  runs (send_command_batch commands d)
    (λ _ w _, ∀ c, c ∈ commands → ∃ wire, guarded c = Ok wire ∧ contains wire w = true).
Proof.
  eapply runs_bind.
  - apply (runs_lift _ (λ wires _ _, res_map guarded commands = Ok wires)); [apply guarded_all_fuel|done].
  - intros wires. apply paced_runs.
  - cbn. intros wires _ w1 _ w2 _ Hw ->. apply res_map_Ok in Hw. intros c Hc.
    apply list_elem_of_lookup in Hc as [i Hi]. destruct (Forall2_lookup_l _ _ _ _ _ Hw Hi) as (wire & Hwi & Hg).
    exists wire. split; [done|]. apply contains_spec. apply take_drop_middle in Hwi as <-.
    rewrite concat_app. cbn. eexists (w1 ++ _), _. by rewrite <-app_assoc.
Qed.

Section upload_spec.
Variable args : args_t.
Variable cksum : list byte → option (list Z).

Lemma attempt_runs n send witness after m1 m2 (Ps Pw : list byte → list Z → Prop) `{!Stable Ps, !Stable Pw} :
  runs send (λ _, Ps) → runs witness (λ found w h, found = true → Pw w h) → frames after →
  runs (attempt args n send witness after m1 m2) (λ _ w h, Ps w h ∧ Pw w h).
Proof.
  intros Hs Hw Ha. induction n as [|n IH]; cbn [attempt]; [apply runs_exit|].
  apply runs_then; [apply _|apply prompt_frames|]. intros []; cbn [negb]; [|case_bool_decide; [apply runs_exit|done]].
  assert (frames (if bool_decide (n = 0%nat) then mret ()
            else _ ← paced [x03; newline] (char_delay args);
                 _ ← drain (drop_re args) 500 200 false; mret ())) as Hrecover.
  { case_bool_decide; [by apply runs_ret|]. apply frames_bind; [eapply runs_frames, paced_runs|]. intros _.
    apply frames_bind; [apply drain_frames|]. intros _. by apply runs_ret. }
  eapply (runs_bind send _ (λ _, Ps) (λ _ _ w h, (Ps w h ∧ Pw w h) ∨ Pw w h)); [done| |].
  - intros _. eapply (runs_bind witness _ _ (λ found _ w h, found = true ∨ Ps w h ∧ Pw w h)); [done| |].
    + intros []; [eapply runs_mono; [done|]; by left|].
      eapply runs_mono; [apply (runs_then _ _ (λ w h, Ps w h ∧ Pw w h)); [apply Hrecover|intros _; exact IH]|]. by right.
    + cbn. intros found _ w1 h1 w2 h2 HPw [->|[HPs H]]; [right; apply stable_r; auto|].
      left. split; by apply stable_l.
  - cbn. intros _ _ w1 h1 w2 h2 HPs [[H1 H2]|H]; split; try by apply stable_l. by apply stable_r.
Qed.

Lemma checked_runs command marker final n :
  runs (checked args command marker final n) (λ _, witnessed (command, marker)).
Proof.
  apply (attempt_runs _ _ _ _ _ _ (λ w _, ∃ wire, guarded command = Ok wire ∧ contains wire w = true)
           (λ _ h, contains marker h = true)).
  - apply send_command_runs.
  - apply wait_for_text_runs.
  - apply frames_bind; [apply drain_frames|]. intros _. by apply runs_ret.
Qed.

Lemma checked_batch_runs entries n :
  runs (checked_batch args entries n) (λ _ w h, ∀ e, e ∈ entries → witnessed e w h).
Proof.
  eapply runs_mono.
  - apply (attempt_runs _ _ _ _ _ _
             (λ w _, ∀ c, c ∈ map fst entries → ∃ wire, guarded c = Ok wire ∧ contains wire w = true)
             (λ _ h, ∀ m, m ∈ map snd entries → contains m h = true)).
    + apply send_batch_runs.
    + apply wait_for_markers_runs.
    + apply frames_bind; [apply drain_frames|]. intros _. by apply runs_ret.
  - cbn. intros _ w h [Hc Hm] e He.
    split; [apply Hc|apply Hm]; apply list_elem_of_fmap; by exists e.
Qed.

Lemma checked_all_runs commands :
  runs (checked_all args commands) (λ _ w h, ∀ e, e ∈ commands → witnessed e w h).
Proof.
  induction commands as [|[c m] commands IH]; cbn [checked_all].
  { apply runs_ret. intros e He. by apply not_elem_of_nil in He. }
  eapply runs_mono; [apply (runs_seq _ _ (witnessed (c, m)) (λ w h, ∀ e, e ∈ commands → witnessed e w h))|].
  - apply checked_runs.
  - intros _. exact IH.
  - cbn. intros _ w h [H1 H2] e He. apply elem_of_cons in He as [->|He]; auto.
Qed.

(** A part was checked: its command was sent and its own checksum heard. *)
Definition part_witnessed (part_dir : list Z) (p : Z * list Z) (w : list byte) (h : list Z) : Prop :=
  ∃ bs sum, ascii_encode p.2 = Ok bs ∧ cksum bs = Some sum
            ∧ witnessed (chunk_command part_dir p, chunk_marker part_dir sum p) w h.
#[export] Instance part_witnessed_stable part_dir p : Stable (part_witnessed part_dir p).
Proof. unfold part_witnessed. apply _. Qed.

Lemma write_parts_runs part_dir parts entries :
  runs (write_parts args cksum part_dir parts entries)
    (λ _ w h, (∀ e, e ∈ entries → witnessed e w h) ∧ ∀ p, p ∈ parts → part_witnessed part_dir p w h).
Proof.
  revert entries. induction parts as [|p parts IH]; intros entries; cbn [write_parts].
  { eapply runs_mono with (Q := λ _ w h, ∀ e, e ∈ entries → witnessed e w h).
    - destruct entries; [|apply checked_batch_runs]. apply runs_ret. intros e He. by apply not_elem_of_nil in He.
    - intros _ w h H. split; [done|]. intros p Hp. by apply not_elem_of_nil in Hp. }
  set (Pin := λ sum, ∃ bs, ascii_encode p.2 = Ok bs ∧ cksum bs = Some sum).
  eapply (runs_bind _ _ (λ sum _ _, Pin sum)
            (λ sum _ w h, (∀ e, e ∈ entries ++ [(chunk_command part_dir p, chunk_marker part_dir sum p)] → witnessed e w h)
                          ∧ ∀ p, p ∈ parts → part_witnessed part_dir p w h)).
  - apply runs_lift.
    + intros H. apply bind_Raise in H as [H|(bs & _ & H)]; [by apply ascii_encode_fuel in H|]. by destruct (cksum bs).
    + intros sum H. apply bind_Ok in H as (bs & Hbs & H). exists bs. split; [done|]. by destruct (cksum bs); simplify_eq/=.
  - intros sum. set (entries' := entries ++ _). destruct (_ =? _).
    + apply (runs_seq _ _ (λ w h, ∀ e, e ∈ entries' → witnessed e w h)
               (λ w h, ∀ p, p ∈ parts → part_witnessed part_dir p w h)); [apply checked_batch_runs|].
      intros _. eapply runs_mono; [apply IH|]. by intros _ w h [_ H].
    + apply IH.
  - cbn. intros sum _ w1 h1 w2 h2 (bs & Hbs & Hsum) [He Hp]. split.
    + intros e He'. apply stable_l; [apply _|]. apply He, elem_of_app. by left.
    + intros q Hq. apply stable_l; [apply _|]. apply elem_of_cons in Hq as [->|Hq]; [|auto].
      exists bs, sum. split_and!; [done|done|]. apply He, elem_of_app. right. by apply list_elem_of_here.
Qed.
End upload_spec.

Lemma opt_or_runs {A} (o : option A) msg : runs (lift (opt_or o (SystemExit msg))) (λ a _ _, o = Some a).
Proof. apply runs_lift; [by destruct o|]. intros a. by destruct o; intros [= ->]. Qed.

(** C2: No upload is accepted unseen.  [upload] always ends; it exits with an
    error, or it was given a readable file and the console it leaves is the
    one it got after some answers, and then, among what was sent and heard in
    between, every setup and verification command, and for every chunk of the
    file's base64 text the command that writes and checksums it, was sent
    behind its guard and its witness was heard: the byte count, the joined and
    decoded file's checksum and each chunk's own checksum as the host computes
    it.  A retried, lost or bisected line never stands for an accepted one. *)
Theorem upload_witnessed args cksum source file_cksum remote_path c :
  match upload args cksum source file_cksum remote_path c with
  | (Raise e, _) => e ≠ OutOfFuel
  | (Ok _, c') =>
      let part_dir := dirname remote_path ++ u "/.upload-parts" in
      ∃ blob sum line answers wire,
        remote_path_is_safe remote_path = true
        ∧ source = Some blob ∧ file_cksum = Some sum ∧ ascii_encode (overhead_line part_dir) = Ok line
        ∧ script c = answers ++ script c' ∧ sent c' = sent c ++ wire
        ∧ (∀ e, e ∈ setup_commands remote_path ++ verify_commands remote_path (zlen blob) sum
                    ++ [final_command remote_path (zlen blob)] → witnessed e wire (heard answers))
        ∧ (∀ p, p ∈ numbered_chunks (chunk_bytes_of (zlen line)) (b64encode blob) →
             part_witnessed cksum part_dir p wire (heard answers))
  end.
Proof.
  set (part_dir := dirname remote_path ++ u "/.upload-parts").
  assert (runs (upload args cksum source file_cksum remote_path) (λ _ w h,
    remote_path_is_safe remote_path = true ∧ ∃ blob : list byte, source = Some blob
    ∧ (∀ e, e ∈ setup_commands remote_path → witnessed e w h)
    ∧ ∃ line : list byte, ascii_encode (overhead_line part_dir) = Ok line
    ∧ (∀ p, p ∈ numbered_chunks (chunk_bytes_of (zlen line)) (b64encode blob) → part_witnessed cksum part_dir p w h)
    ∧ ∃ sum : list Z, file_cksum = Some sum
    ∧ (∀ e, e ∈ verify_commands remote_path (zlen blob) sum → witnessed e w h)
    ∧ witnessed (final_command remote_path (zlen blob)) w h)) as H.
  { unfold upload. destruct (remote_path_is_safe remote_path); cbn [negb]; [|apply runs_exit].
    eapply runs_mono; [|intros a w h H; split; [done|exact H]].
    apply (runs_ex _ _ (λ blob, source = Some blob)); [apply _|apply opt_or_runs|]. intros blob _. cbv zeta. fold part_dir.
    apply runs_seq; [apply _..|apply checked_all_runs|]. intros _.
    apply (runs_ex _ _ (λ line, ascii_encode (overhead_line part_dir) = Ok line)); [apply _| |].
    { apply runs_lift; [apply ascii_encode_fuel|done]. }
    intros line _. destruct (_ <=? 0); [apply runs_exit|].
    apply runs_seq; [apply _..| |].
    { eapply runs_mono; [apply write_parts_runs|]. by intros _ w h [_ H]. }
    intros _. apply (runs_ex _ _ (λ sum, file_cksum = Some sum)); [apply _|apply opt_or_runs|]. intros sum _.
    apply runs_seq; [apply _..|apply checked_all_runs|]. intros _.
    destruct (final_command remote_path (zlen blob)) as [command witness]. apply checked_runs. }
  specialize (H c). destruct (upload _ _ _ _ _ c) as [[[]|e] c']; [|done].
  destruct H as (l & w & Hs & Hw & Hsafe & blob & Hb & Hsetup & line & Hline & Hparts & sum & Hsum & Hverify & Hfinal).
  exists blob, sum, line, l, w. split_and!; try done. intros e. rewrite !elem_of_app, list_elem_of_singleton.
  intros [He|[He| ->]]; auto.
Qed.

(** ** The transmitted lines *)

Lemma to_digits_length base fuel n acc k :
  2 ≤ base → 0 ≤ n < base ^ k → 1 ≤ k → n < 2 ^ Z.of_nat fuel * base → 
  zlen (to_digits fuel base n acc) ≤ k + zlen acc.
Proof.
  revert n acc k. induction fuel as [|fuel IH]; intros n acc k Hb Hn Hk Hf; cbn [to_digits].
  { rewrite zlen_cons. lia. }
  destruct (n <? base) eqn:E; [rewrite zlen_cons; lia|].
  assert (2 ≤ k) as Hk2.
  { destruct (decide (k = 1)) as [->|]; [|lia]. rewrite Z.pow_1_r in Hn. lia. }
  assert (base ^ k = base * base ^ (k - 1)) as Hpow.
  { rewrite <-Z.pow_succ_r by lia. f_equal. lia. }
  etrans; [apply (IH _ _ (k - 1)); try lia|rewrite zlen_cons; lia].
  - split; [apply Z.div_pos; lia|]. apply Z.div_lt_upper_bound; lia.
  - apply Z.div_lt_upper_bound; [lia|]. rewrite Nat2Z.inj_succ, Z.pow_succ_r in Hf by lia. nia.
Qed.

Lemma zlen_dec6 n : 0 ≤ n < 1000000 → zlen (dec6 n) = 6.
Proof.
  intros Hn. unfold dec6. rewrite zlen_app, zlen_replicate. assert (zlen (dec n) ≤ 6); [|lia].
  unfold dec. rewrite (proj2 (Z.ltb_ge n 0)) by lia. unfold digits_of.
  assert (n < 2 ^ Z.of_nat (Z.to_nat (Z.log2 n)) * 10) as Hf.
  { rewrite Z2Nat.id by apply Z.log2_nonneg. destruct (decide (n = 0)) as [->|]; [done|].
    pose proof (Z.log2_spec n ltac:(lia)) as [_ H]. rewrite Z.pow_succ_r in H by apply Z.log2_nonneg. lia. }
  pose proof (to_digits_length 10 _ n [] 6 ltac:(lia) ltac:(lia) ltac:(lia) Hf) as H. rewrite zlen_nil in H. lia.
Qed.

Definition ascii (c : Z) : Prop := 0 ≤ c < 0x80.
#[export] Instance ascii_dec c : Decision (ascii c).
Proof. unfold ascii. apply _. Defined.
Ltac ascii_literal := match goal with |- Forall ascii (u _) => apply (bool_decide_unpack _); vm_compute; exact I end.
Lemma utf8_ascii s : Forall ascii s → utf8_encode s = Ok (map z2b s).
Proof.
  intros Hs. unfold utf8_encode. rewrite bool_decide_true.
  - f_equal. induction Hs as [|c s Hc Hs IH]; [done|]. cbn [map concat]. rewrite IH. unfold utf8_enc, ascii in *.
    by rewrite (proj2 (Z.ltb_lt c 0x80)) by lia.
  - eapply Forall_impl; [exact Hs|]. intros c Hc. unfold ascii, valid_cp, surrogate in *. lia.
Qed.
Lemma ascii_encode_Ok s bs : ascii_encode s = Ok bs → Forall ascii s ∧ zlen bs = zlen s.
Proof.
  unfold ascii_encode. destruct (forallb _ s) eqn:E; intros [= <-]. split.
  - apply Forall_forall. intros c Hc. apply list_elem_of_In in Hc.
    apply (proj1 (forallb_forall _ _) E) in Hc. unfold ascii. lia.
  - unfold zlen. by rewrite length_map.
Qed.

Lemma ascii_dec6 n : 0 ≤ n → Forall ascii (dec6 n).
Proof.
  intros Hn. apply Forall_app. split; [apply Forall_replicate; unfold ascii; lia|].
  unfold dec. rewrite (proj2 (Z.ltb_ge n 0)) by lia. apply digits_of_Forall; [lia|lia|].
  intros d Hd. unfold ascii, digit_char. destruct (d <? 10) eqn:E; lia.
Qed.

(** The base64 alphabet: no quote, no space, no shell metacharacter. *)
Definition base64_char (c : Z) : bool :=
  is_digit c || is_upper c || is_lower c || (c =? 43) || (c =? 47) || (c =? 61).
Lemma b64char_ok v : 0 ≤ v < 64 → base64_char (b64char v) = true.
Proof.
  intros Hv. unfold b64char, base64_char, is_digit, is_upper, is_lower.
  repeat match goal with |- context [if ?x then _ else _] => destruct x eqn:? end; lia.
Qed.
Lemma b64encode_ok l : Forall (λ c, base64_char c = true) (b64encode l).
Proof.
  revert l. fix IH 1. intros [|x [|y [|z l]]]; cbn [b64encode]; [constructor|..].
  all: pose proof (b2z_range x); try pose proof (b2z_range y); try pose proof (b2z_range z).
  all: repeat (apply Forall_cons; split); try done.
  all: try (apply b64char_ok; Z.div_mod_to_equations; lia).
Qed.

Lemma chunks_prefix n (s : list Z) k :
  0 < n → concat (map (λ i, slice (i * n) (i * n + n) s) (seqZ 0 (Z.of_nat k))) = ztake (Z.of_nat k * n) s.
Proof.
  intros Hn. induction k as [|k IH]; [by rewrite ztake_le_0|].
  rewrite seqZ_S, map_app, concat_app, IH. cbn. rewrite app_nil_r. unfold slice.
  replace (Z.of_nat k * n + n - Z.of_nat k * n) with n by lia.
  rewrite !ztake_take, zdrop_drop. rewrite take_take_drop. f_equal. lia.
Qed.
Lemma numbered_chunks_concat n (s : list Z) : 0 < n → concat (map snd (numbered_chunks n s)) = s.
Proof.
  intros Hn. unfold numbered_chunks. rewrite map_map. cbn. pose proof (zlen_nonneg s).
  assert (0 ≤ (zlen s + n - 1) / n) as Hq by (apply Z.div_pos; lia).
  rewrite <-(Z2Nat.id _ Hq), chunks_prefix by done. apply ztake_ge. rewrite Z2Nat.id by done.
  pose proof (Z.mul_succ_div_gt (zlen s + n - 1) n Hn). lia.
Qed.

Lemma zlen_map {A B} (f : A → B) (l : list A) : zlen (map f l) = zlen l.
Proof. unfold zlen. by rewrite length_map. Qed.

(** The lengths of literal texts. *)
Ltac zlen_literals :=
  repeat match goal with
  | H : context [zlen (u ?s)] |- _ => let v := eval vm_compute in (zlen (u s)) in change (zlen (u s)) with v in H
  | |- context [zlen (u ?s)] => let v := eval vm_compute in (zlen (u s)) in change (zlen (u s)) with v
  end.

(** A chunk's line is the empty line of the first part and the chunk. *)
Lemma chunk_line part_dir line number chunk :
  ascii_encode (overhead_line part_dir) = Ok line → 0 ≤ number < 1000000 → Forall (λ c, base64_char c = true) chunk →
  ∃ wire, guarded (chunk_command part_dir (number, chunk)) = Ok wire ∧ zlen wire = zlen line + zlen chunk.
Proof.
  intros Hline Hn Hc. apply ascii_encode_Ok in Hline as [Hascii ->]. unfold overhead_line, part_path in *.
  rewrite !Forall_app in Hascii. unfold guarded, chunk_command, part_path. cbn [fst snd].
  rewrite utf8_ascii, ok_bind; [eexists; split; [done|]|].
  - rewrite !zlen_app, zlen_map, !zlen_app, !zlen_dec6 by lia. zlen_literals.
    change (zlen (b ": :; ")) with 5. change (zlen [newline]) with 1. change (zlen [10]) with 1. lia.
  - rewrite !Forall_app. split_and!; try ascii_literal; try (apply ascii_dec6; lia); try apply Hascii.
    eapply Forall_impl; [exact Hc|]. intros x. unfold ascii, base64_char, is_digit, is_upper, is_lower. lia.
Qed.

(** The chunk lines fit and carry the file.  Once the target leaves room
    for a chunk and the file is small enough for six-digit part numbers, the
    chunks are numbered 1, 2, ..., joined in order they are the base64 text of
    the file, and each one is written by a line that encodes without error,
    stays within 252 transmitted bytes, guard and newline included, and quotes
    only characters of the base64 alphabet. *)
Theorem upload_lines_safe part_dir blob line :
  ascii_encode (overhead_line part_dir) = Ok line →
  let n := chunk_bytes_of (zlen line) in
  0 < n → zlen (b64encode blob) < 1000000 * n - n →
  concat (map snd (numbered_chunks n (b64encode blob))) = b64encode blob
  ∧ map fst (numbered_chunks n (b64encode blob)) = seqZ 1 ((zlen (b64encode blob) + n - 1) / n)
  ∧ ∀ p, p ∈ numbered_chunks n (b64encode blob) →
      Forall (λ c, base64_char c = true) p.2
      ∧ ∃ wire, guarded (chunk_command part_dir p) = Ok wire ∧ zlen wire ≤ 252.
Proof.
  intros Hline n Hn Hsize. split; [by apply numbered_chunks_concat|]. split.
  { unfold numbered_chunks. rewrite map_map. rewrite <-(fmap_add_seqZ 1 0). apply map_ext. intros i. cbn. lia. }
  intros p Hp. apply list_elem_of_fmap in Hp as (i & -> & Hi). apply elem_of_seqZ in Hi. cbn [fst snd].
  set (s := b64encode blob) in *. set (chunk := slice (i * n) (i * n + n) s). pose proof (zlen_nonneg s).
  assert ((zlen s + n - 1) / n < 1000000) by (apply Z.div_lt_upper_bound; lia).
  assert (Forall (λ c, base64_char c = true) chunk) as Hchunk.
  { unfold chunk, slice. rewrite ztake_take, zdrop_drop. apply Forall_take, Forall_drop, b64encode_ok. }
  split; [done|]. destruct (chunk_line part_dir line (i + 1) chunk Hline ltac:(lia) Hchunk) as (wire & Hw & Hlen).
  exists wire. split; [done|]. rewrite Hlen. assert (zlen chunk ≤ n).
  { unfold chunk. rewrite zlen_slice by lia. lia. }
  unfold n, chunk_bytes_of in *. pose proof (Z.mul_div_le (252 - zlen line) 4 ltac:(lia)). lia.
Qed.

Lemma upload_lines_safe_witness :
  let part_dir := u "/private/var/.dvm-data-seed/x/.upload-parts" in
  match ascii_encode (overhead_line part_dir) with
  | Ok line => chunk_bytes_of (zlen line) = 116
               ∧ concat (map snd (numbered_chunks 116 (b64encode (b "hello, guest")))) = u "aGVsbG8sIGd1ZXN0"
  | Raise _ => False
  end.
Proof.
  intros part_dir. destruct (ascii_encode (overhead_line part_dir)) as [line|e] eqn:E; [|discriminate].
  assert (chunk_bytes_of (zlen line) = 116) as Hn.
  { destruct (ascii_encode_Ok _ _ E) as [_ ->]. vm_compute. reflexivity. }
  split; [exact Hn|].
  pose proof (upload_lines_safe part_dir (b "hello, guest") line E) as H. cbv zeta in H.
  rewrite Hn in H. destruct H as [H _]; [lia|reflexivity|]. exact H.
Defined.

(** Draining the console logs everything, however it is cut.  [drain]
    always returns, sends nothing, and appends to the log a function of the
    bytes received alone: each complete line decoded and without its carriage
    returns, then the unfinished one; so two consoles that give the same bytes
    in different pieces (a character split between two reads included) and at
    different times leave the same log. *)
Theorem drain_logs_everything drop_re secs idle echo c :
  ∃ shown answers c',
    drain drop_re secs idle echo c = (Ok shown, c')
    ∧ script c = answers ++ script c' ∧ sent c' = sent c
    ∧ log c' = log c ++ log_of (received answers).
Proof. apply drain_spec. Qed.

(** ** What the waits miss *)

(** A text and the marker in one read: only its last 16384 characters are
    searched, so the wait does not end though the marker was received. *)
Example marker_before_window :
  let c := Console 0 [(0%N, Got (b "DONE" ++ replicate (Z.to_nat 16384) x2e))] [] [] [] in
  contains (u "DONE") (heard (script c)) = true
  ∧ (wait_for_text None (escaped (u "DONE")) 50 c).1 = Ok false.
Proof. split; vm_compute; reflexivity. Qed.

(** The connection closes after a partial line: it is not logged. *)
Example partial_line_lost :
  let c := Console 0 [(0%N, Got (b "panic(cpu 0")); (0%N, Got [])] [] [] [] in
  log (wait_for_text None (escaped (u "# ")) 1000 c).2 = []
  ∧ log (drain None 1000 100 true c).2 = u "panic(cpu 0".
Proof. split; vm_compute; reflexivity. Qed.

(** A path with a space is accepted, and the setup command removes a file
    outside the staging namespaces. *)
Example unquoted_path_escapes :
  let path := u "/private/var/.dvm-data-seed/x /private/etc/hosts" in
  remote_path_is_safe path = true
  ∧ map fst (setup_commands path) !! 1%nat
    = Some (u "/bin/rm -f /private/var/.dvm-data-seed/x /private/etc/hosts /private/var/.dvm-data-seed/x /private/etc/hosts.b64; echo DVM_UPLOAD_SETUP_TARGET_RC=$?").
Proof. split; reflexivity. Qed.

(** An upload of three bytes that succeeds: every prompt and witness is
    answered, silence follows each. *)
Definition sample_args : args_t :=
  Args (λ t, contains (u "# ") t) None 1000 200 1000 1000 0 4.
Definition sample_cksum (bs : list byte) : option (list Z) := Some (dec (zlen bs)).
Definition answered (text : list byte) : list (N * recv) := [(1%N, Got text); (1%N, Blocking); (300%N, Blocking)].
Definition sample_script : list (N * recv) :=
  concat (map (λ m, answered (b "# ") ++ answered (b m))
    ["DVM_UPLOAD_SETUP_DIR_RC=0"; "DVM_UPLOAD_SETUP_TARGET_RC=0"; "DVM_UPLOAD_SETUP_RC=0";
     "4 4 /private/var/.dvm-data-seed/.upload-parts/000001";
     "DVM_UPLOAD_JOIN_RC=0"; "DVM_UPLOAD_DECODE_RC=0"; "DVM_UPLOAD_SIZE_RC=0"; "DVM_UPLOAD_CKSUM_RC=0";
     "DVM_UPLOAD_FINAL_RC=0 DVM_UPLOAD_BYTES=3"]%string).
Example sample_upload_succeeds :
  (upload sample_args sample_cksum (Some (b "abc")) (Some (u "0")) (u "/private/var/.dvm-data-seed/f")
     (Console 0 sample_script [] [] [])).1 = Ok ().
Proof. vm_compute. reflexivity. Qed.
(** With the chunk's witness missing it fails, after eight attempts. *)
Example sample_upload_refused :
  (upload sample_args sample_cksum (Some (b "abc")) (Some (u "0")) (u "/private/var/.dvm-data-seed/f")
     (Console 0 (take 18 sample_script) [] [] [])).1
  = Raise (SystemExit "serial: shell prompt did not arrive before upload batch").
Proof. vm_compute. reflexivity. Qed.
