(* ===== verification/ProbeWatch.v ===== *)
(** * The probe watcher: [tools/re/probe_watch.py] and the event files of
    [tools/re/display_iokit_callbacks.py]

    The watcher follows log files and a directory of event files that the
    debugger callbacks write while the guest runs, and asks for a stop when a
    log line matches or a call stays pending too long.  Watcher and callbacks
    share only the directory: every file operation is one step, and the steps
    of the two sides interleave freely.  Times are milliseconds. *)

From stdpp Require Import base tactics list gmap strings.
From Stdlib Require Import Strings.Byte.
From S2P Require Import Prelude PyBytes PyStr.
Open Scope Z_scope.

(** ** [Follower] *)

Record Follower := MkFollower { offset : Z; carry : list Z }.
Definition new_follower : Follower := MkFollower 0 [].

(** [line.rstrip("\r")]. *)
Definition rstrip_cr (s : list Z) : list Z := reverse (dropwhile (Z.eqb 13) (reverse s)).

(** [read_lines]: [size] is what [getsize] gives, [content] the file when it
    is opened ([None]: the call raises [OSError]). *)
Definition read_lines (size : option Z) (content : option (list byte)) (f : Follower) : list (list Z) * Follower :=
  match size with
  | None => ([], f)
  | Some size =>
      let f := if size <? offset f then new_follower else f in
      match content with
      | None => ([], f)
      | Some content =>
          let data := zdrop (offset f) content in
          let parts := split1 10 (carry f ++ utf8_replace data) in
          (map rstrip_cr (removelast parts), MkFollower (offset f + zlen data) (List.last parts []))
      end
  end.

(** ** The watched logs *)

Record watch := Watch { w_follower : Follower; w_pattern : list Z → bool; w_path : list Z }.

(** One pass over the watches with what each file gives: the first matching
    line ends it, the later lines of that read are consumed but not examined. *)
Fixpoint check_watches (reads : list (option Z * option (list byte))) (ws : list watch)
    : option (list Z * list Z) * list watch :=
  match ws, reads with
  | w :: ws, (size, content) :: reads =>
      let '(lines, f) := read_lines size content (w_follower w) in
      let w' := Watch f (w_pattern w) (w_path w) in
      match List.find (w_pattern w) lines with
      | Some line => (Some (w_path w, line), w' :: ws)
      | None => let '(r, ws) := check_watches reads ws in (r, w' :: ws)
      end
  | _, _ => (None, ws)
  end.

(** ** Event files *)

(** What an event file decodes to. *)
Record event := Event { e_call : Z; e_selector : Z; e_time : Z }.
(** The directory; [None] is a file that does not decode. *)
Abbreviation files := (gmap (list Z) (option event)).

Definition pending_name (call : Z) : list Z := u "pending." ++ dec call ++ u ".json".
Definition claimed_name (call : Z) : list Z := u "claimed." ++ dec call ++ u ".json".
Definition returned_name (call : Z) : list Z := u "returned." ++ dec call ++ u ".json".
Definition is_pending_name (name : list Z) : bool := startswith (u "pending.") name && endswith (u ".json") name.

Definition overdue_t : Type := list (Z * Z * list Z).

(** [min(overdue, key=lambda item: item[1])]: the first of the oldest. *)
Fixpoint oldest (best : Z * Z * list Z) (overdue : overdue_t) : Z * Z * list Z :=
  match overdue with
  | [] => best
  | o :: overdue => oldest (if o.1.2 <? best.1.2 then o else best) overdue
  end.

(** Where the watcher is. *)
Inductive pc :=
  | Logs
  | Events
  | Scan (started : Z) (names : list (list Z)) (overdue : overdue_t)
  | Claim (started call entered : Z) (path : list Z)
  | Returned (started call entered : Z)
  | StillClaimed (started call entered : Z)
  | Unlink (call : Z)
  | Expiry
  | StopLog (path line : list Z)
  | StopDeadline (call age : Z)
  | Expired.

(** How far the return callback of a call has come. *)
Inductive phase := InCall | PendingRemoved | ClaimRemoved | ReturnWritten.

Record system := System {
  clock : Z;
  dir : files;
  calls : gmap Z (Z * phase);
  next_call : Z;
  watches : list watch;
  at_ : pc;
}.
Definition set_at (p : pc) (s : system) : system :=
  System (clock s) (dir s) (calls s) (next_call s) (watches s) p.
Definition set_dir (d : files) (s : system) : system :=
  System (clock s) d (calls s) (next_call s) (watches s) (at_ s).
Definition set_phase (call selector : Z) (p : phase) (s : system) : system :=
  System (clock s) (dir s) (<[call := (selector, p)]> (calls s)) (next_call s) (watches s) (at_ s).

Section protocol.
(** The watcher's [--selector], [--pending-secs], [--max-secs], the time it
    started at, and the callbacks' [DVM_PROBE_STALL_SELECTOR]. *)
Context (selector pending_secs max_secs started_at stall_selector : Z).

(** One name of the listing. *)
Definition scan_one (d : files) (started : Z) (name : list Z) (overdue : overdue_t) : overdue_t :=
  if negb (is_pending_name name) then overdue
  else match d !! name with
       | Some (Some e) =>
           if negb (e_selector e =? selector) then overdue
           else if pending_secs <=? started - e_time e then overdue ++ [(e_call e, e_time e, name)] else overdue
       | _ => overdue
       end.

(** [os.replace(pending_path, claimed_path)], [None] when there is no such file. *)
Definition claim (path : list Z) (call : Z) (d : files) : option files :=
  match d !! path with
  | Some e => Some (<[claimed_name call := e]> (delete path d))
  | None => None
  end.

(** The watcher's next step, when it is not at a log pass or a listing. *)
Definition watcher (s : system) : option system :=
  match at_ s with
  | Scan started (name :: names) overdue => Some (set_at (Scan started names (scan_one (dir s) started name overdue)) s)
  | Scan started [] [] => Some (set_at Expiry s)
  | Scan started [] (o :: overdue) =>
      let '(call, entered, path) := oldest o overdue in Some (set_at (Claim started call entered path) s)
  | Claim started call entered path =>
      match claim path call (dir s) with
      | Some d => Some (set_at (Returned started call entered) (set_dir d s))
      | None => Some (set_at Logs s)
      end
  | Returned started call entered =>
      if bool_decide (is_Some (dir s !! returned_name call)) then Some (set_at (Unlink call) s)
      else Some (set_at (StillClaimed started call entered) s)
  | StillClaimed started call entered =>
      if bool_decide (is_Some (dir s !! claimed_name call)) then Some (set_at (StopDeadline call (started - entered)) s)
      else Some (set_at (Unlink call) s)
  | Unlink call => Some (set_at Logs (set_dir (delete (claimed_name call) (dir s)) s))
  | Expiry =>
      Some (set_at (if negb (max_secs =? 0) && (max_secs <=? clock s - started_at) then Expired else Logs) s)
  | _ => None
  end.

(** The steps of the watcher. *)
Inductive wstep : system → system → Prop :=
  | w_logs s reads ws :
      at_ s = Logs → check_watches reads (watches s) = (None, ws) →
      wstep s (System (clock s) (dir s) (calls s) (next_call s) ws Events)
  | w_match s reads ws path line :
      at_ s = Logs → check_watches reads (watches s) = (Some (path, line), ws) →
      wstep s (System (clock s) (dir s) (calls s) (next_call s) ws (StopLog path line))
  | w_no_events s : at_ s = Events → dir s !! u "ready" = None → wstep s (set_at Expiry s)
  | w_list s names :
      at_ s = Events → is_Some (dir s !! u "ready") → names ≡ₚ (map_to_list (dir s)).*1 →
      wstep s (set_at (Scan (clock s) names []) s)
  | w_next s s' : watcher s = Some s' → wstep s s'.

(** The steps of the callbacks: [_plant_return] of a new call, and the three
    file operations of its [on_return]; time passes, other event files appear.
    A file carries the time at which the callback looked at the clock, and the
    pending file of a call is missing ([written] is [false]) when it could not
    be written. *)
Inductive cstep : system → system → Prop :=
  | c_enter s sel t (written : bool) :
      t ≤ clock s →
      cstep s (System (clock s)
        (if written && (sel =? stall_selector)
         then <[pending_name (next_call s) := Some (Event (next_call s) sel t)]> (dir s) else dir s)
        (<[next_call s := (sel, InCall)]> (calls s)) (next_call s + 1) (watches s) (at_ s))
  | c_remove_pending s call sel :
      calls s !! call = Some (sel, InCall) →
      cstep s (set_phase call sel PendingRemoved (set_dir (delete (pending_name call) (dir s)) s))
  | c_remove_claimed s call sel :
      calls s !! call = Some (sel, PendingRemoved) →
      cstep s (set_phase call sel ClaimRemoved (set_dir (delete (claimed_name call) (dir s)) s))
  | c_write_returned s call sel t :
      calls s !! call = Some (sel, ClaimRemoved) → t ≤ clock s →
      cstep s (set_phase call sel ReturnWritten
        (set_dir (if sel =? stall_selector then <[returned_name call := Some (Event call sel t)]> (dir s) else dir s) s))
  | c_ready s : cstep s (set_dir (<[u "ready" := None]> (dir s)) s)
  | c_success s label :
      cstep s (set_dir (<[u "success." ++ label ++ u ".json" := None]> (dir s)) s)
  | c_time s t : clock s ≤ t → cstep s (System t (dir s) (calls s) (next_call s) (watches s) (at_ s)).

Definition step (s s' : system) : Prop := wstep s s' ∨ cstep s s'.

(** A run starts with an empty directory and no calls. *)
Inductive reachable (ws : list watch) : system → Prop :=
  | reach_start : reachable ws (System started_at ∅ ∅ 1 ws Logs)
  | reach_step s s' : reachable ws s → step s s' → reachable ws s'.
End protocol.

(** [write_stop]: the one line of the stop file. *)
Definition stop_line (reason : list Z) : list Z := map (λ c, if c =? 10 then 32 else c) reason ++ [10].

(** ** Names *)

Lemma dec_inj m n : 0 ≤ m → 0 ≤ n → dec m = dec n → m = n.
Proof.
  intros Hm Hn H. pose proof (int0_dec m Hm) as Em. rewrite H, (int0_dec n Hn) in Em. by injection Em.
Qed.
Lemma pending_name_inj m n : 0 ≤ m → 0 ≤ n → pending_name m = pending_name n → m = n.
Proof. intros ?? H%app_inv_head%app_inv_tail. by apply dec_inj. Qed.
Lemma returned_name_inj m n : 0 ≤ m → 0 ≤ n → returned_name m = returned_name n → m = n.
Proof. intros ?? H%app_inv_head%app_inv_tail. by apply dec_inj. Qed.

Lemma startswith_app (p l : list Z) : startswith p (p ++ l) = true.
Proof. apply startswith_spec. by exists l. Qed.

Section invariant.
Context (selector pending_secs max_secs started_at stall_selector : Z).
Local Abbreviation step := (step selector pending_secs max_secs started_at stall_selector).
Local Abbreviation wstep := (wstep selector pending_secs max_secs started_at).
Local Abbreviation cstep := (cstep stall_selector).
Local Abbreviation reachable := (reachable selector pending_secs max_secs started_at stall_selector).
Local Abbreviation watcher := (watcher selector pending_secs max_secs started_at).

(** Every file of a kind belongs to a call, in a phase that fits. *)
Definition tracked (pre : string) (mk : Z → list Z) (P : Z → Z * phase → option event → Prop)
    (d : files) (cs : gmap Z (Z * phase)) : Prop :=
  ∀ name e, d !! name = Some e → startswith (u pre) name = true →
    ∃ call v, name = mk call ∧ cs !! call = Some v ∧ P call v e.

Definition pending_ok (call : Z) (v : Z * phase) (e : option event) : Prop :=
  v.2 = InCall ∧ ∃ t, e = Some (Event call v.1 t).
Definition claimed_ok (call : Z) (v : Z * phase) (e : option event) : Prop := v.2 = InCall ∨ v.2 = PendingRemoved.
Definition returned_ok (call : Z) (v : Z * phase) (e : option event) : Prop := v.2 = ReturnWritten.

(** An overdue entry names a call of the selector, old enough. *)
Definition overdue_ok (cs : gmap Z (Z * phase)) (started : Z) (o : Z * Z * list Z) : Prop :=
  o.2 = pending_name o.1.1 ∧ pending_secs ≤ started - o.1.2 ∧ ∃ p, cs !! o.1.1 = Some (selector, p).
Definition pc_ok (cs : gmap Z (Z * phase)) (p : pc) : Prop :=
  match p with
  | Scan started _ overdue => Forall (overdue_ok cs started) overdue
  | Claim started call entered path => overdue_ok cs started (call, entered, path)
  | Returned started call entered | StillClaimed started call entered =>
      overdue_ok cs started (call, entered, pending_name call)
  | StopDeadline call age => pending_secs ≤ age ∧ ∃ p, cs !! call = Some (selector, p)
  | _ => True
  end.

Record inv (s : system) : Prop := {
  inv_pending : tracked "pending." pending_name pending_ok (dir s) (calls s);
  inv_claimed : tracked "claimed." claimed_name claimed_ok (dir s) (calls s);
  inv_returned : tracked "returned." returned_name returned_ok (dir s) (calls s);
  inv_calls : ∀ call v, calls s !! call = Some v → 0 < call < next_call s;
  inv_next : 0 < next_call s;
  inv_pc : pc_ok (calls s) (at_ s);
}.

Lemma tracked_delete pre mk P d cs n : tracked pre mk P d cs → tracked pre mk P (delete n d) cs.
Proof. intros H name e He. apply H. by apply lookup_delete_Some in He as [_ He]. Qed.
Lemma tracked_other pre mk P d cs n e :
  startswith (u pre) n = false → tracked pre mk P d cs → tracked pre mk P (<[n := e]> d) cs.
Proof.
  intros Hn H name e' He Hp. apply lookup_insert_Some in He as [[<- _]|[_ He]]; [congruence|by apply (H name e')].
Qed.
Lemma tracked_own pre mk P d cs call v e :
  cs !! call = Some v → P call v e → tracked pre mk P d cs → tracked pre mk P (<[mk call := e]> d) cs.
Proof.
  intros Hc HP H name e' He Hp. apply lookup_insert_Some in He as [[<- <-]|[_ He]]; [eauto|by apply (H name e')].
Qed.
(** A call's value changes: its own file must still fit. *)
Lemma tracked_phase pre mk P d cs call v' :
  (∀ v e, cs !! call = Some v → d !! mk call = Some e → P call v e → P call v' e) →
  tracked pre mk P d cs → tracked pre mk P d (<[call := v']> cs).
Proof.
  intros Hv H name e He Hp. destruct (H name e He Hp) as (c & v & -> & Hc & HP).
  destruct (decide (c = call)) as [->|Hne].
  - exists call, v'. rewrite lookup_insert_eq. eauto.
  - exists c, v. by rewrite lookup_insert_ne.
Qed.

(** Calls keep their selectors. *)
Definition kept (cs cs' : gmap Z (Z * phase)) : Prop :=
  ∀ call sel p, cs !! call = Some (sel, p) → ∃ p', cs' !! call = Some (sel, p').
Lemma kept_refl cs : kept cs cs.
Proof. intros call sel p H. eauto. Qed.
Lemma kept_phase cs call sel p p' : cs !! call = Some (sel, p) → kept cs (<[call := (sel, p')]> cs).
Proof.
  intros H c sel' q Hc. destruct (decide (c = call)) as [->|].
  - rewrite lookup_insert_eq. simplify_eq. eauto.
  - rewrite lookup_insert_ne by done. eauto.
Qed.
Lemma overdue_kept cs cs' started o : kept cs cs' → overdue_ok cs started o → overdue_ok cs' started o.
Proof. intros Hk (H1 & H2 & p & H3). unfold overdue_ok. eauto. Qed.
Lemma pc_kept cs cs' p : kept cs cs' → pc_ok cs p → pc_ok cs' p.
Proof.
  intros Hk. destruct p; cbn; try done; try (by apply overdue_kept).
  - intros H. eapply Forall_impl; [exact H|]. intros o. by apply overdue_kept.
  - intros (Ha & p & Hp). eauto.
Qed.

Lemma inv_cstep s s' : inv s → cstep s s' → inv s'.
Proof.
  intros [Hp Hc Hr Hn Hnext Hpc]. destruct 1 as [s sel te w Hte|s call sel E|s call sel E|s call sel te E Hte|s|s label|s t Ht]; cbn [dir calls next_call at_] in *.
  - assert (calls s !! next_call s = None) as Hnew.
    { destruct (calls s !! next_call s) as [v|] eqn:E; [|done]. specialize (Hn _ _ E). lia. }
    assert (∀ pre mk P, tracked pre mk P (dir s) (calls s) → tracked pre mk P (dir s) (<[next_call s := (sel, InCall)]> (calls s))) as Hgrow.
    { intros pre mk P. apply tracked_phase. intros v e Hv. congruence. }
    split; cbn [dir calls next_call at_].
    + destruct (w && (sel =? stall_selector)); [|by apply Hgrow]. apply tracked_own with (v := (sel, InCall)); [|split; eauto|by apply Hgrow].
      by rewrite lookup_insert_eq.
    + destruct (w && (sel =? stall_selector)); [apply tracked_other; [done|]|]; by apply Hgrow.
    + destruct (w && (sel =? stall_selector)); [apply tracked_other; [done|]|]; by apply Hgrow.
    + intros c v Hcv. apply lookup_insert_Some in Hcv as [[<- _]|[_ Hcv]]; [lia|specialize (Hn _ _ Hcv); lia].
    + lia.
    + eapply pc_kept; [|exact Hpc]. intros c sel' p Hc'. exists p. rewrite lookup_insert_ne; [done|]. congruence.
  - split; cbn [dir calls next_call at_ set_phase set_dir].
    + apply tracked_phase; [|by apply tracked_delete]. intros v e _ He. by apply lookup_delete_Some in He as [? _].
    + apply tracked_phase; [|by apply tracked_delete]. intros v e Hv He HP. by right.
    + apply tracked_phase; [|by apply tracked_delete]. intros v e Hv He HP. unfold returned_ok in *. by simplify_eq/=.
    + intros c v Hcv. apply lookup_insert_Some in Hcv as [[<- _]|[_ Hcv]]; eauto.
    + done.
    + eapply pc_kept; [|exact Hpc]. by eapply kept_phase.
  - split; cbn [dir calls next_call at_ set_phase set_dir].
    + apply tracked_phase; [|by apply tracked_delete]. intros v e Hv He [HP _]. by simplify_eq/=.
    + apply tracked_phase; [|by apply tracked_delete]. intros v e _ He. by apply lookup_delete_Some in He as [? _].
    + apply tracked_phase; [|by apply tracked_delete]. intros v e Hv He HP. unfold returned_ok in *. by simplify_eq/=.
    + intros c v Hcv. apply lookup_insert_Some in Hcv as [[<- _]|[_ Hcv]]; eauto.
    + done.
    + eapply pc_kept; [|exact Hpc]. by eapply kept_phase.
  - split; cbn [dir calls next_call at_ set_phase set_dir].
    + apply tracked_phase; [intros v e Hv He [HP _]; by simplify_eq/=|].
      destruct (sel =? _); [by apply tracked_other|done].
    + apply tracked_phase; [intros v e Hv He [HP|HP]; by simplify_eq/=|].
      destruct (sel =? _); [by apply tracked_other|done].
    + assert (tracked "returned." returned_name returned_ok (dir s) (<[call := (sel, ReturnWritten)]> (calls s))) as Hr'
        by (by apply tracked_phase).
      destruct (sel =? _); [|done]. apply (tracked_own _ _ _ _ _ call (sel, ReturnWritten)); [|done|done].
      by rewrite lookup_insert_eq.
    + intros c v Hcv. apply lookup_insert_Some in Hcv as [[<- _]|[_ Hcv]]; eauto.
    + done.
    + eapply pc_kept; [|exact Hpc]. by eapply kept_phase.
  - split; cbn [dir calls next_call at_ set_dir]; try done; by apply tracked_other.
  - split; cbn [dir calls next_call at_ set_dir]; try done; by apply tracked_other.
  - by split.
Qed.

Lemma scan_one_ok s started name overdue :
  inv s → Forall (overdue_ok (calls s) started) overdue →
  Forall (overdue_ok (calls s) started) (scan_one selector pending_secs (dir s) started name overdue).
Proof.
  intros Hi Ho. unfold scan_one. destruct (is_pending_name name) eqn:Hn; cbn [negb]; [|done].
  destruct (dir s !! name) as [[e|]|] eqn:He; try done.
  destruct (e_selector e =? selector) eqn:Es; cbn [negb]; [|done]. destruct (pending_secs <=? _) eqn:Ep; [|done].
  apply Forall_app. split; [done|]. constructor; [|done].
  apply andb_prop in Hn as [Hn _]. destruct (inv_pending s Hi name _ He Hn) as (call & [sel p] & -> & Hc & _ & t & [= ->]).
  unfold overdue_ok. cbn in *. apply Z.eqb_eq in Es as ->. split_and!; [done|lia|eauto].
Qed.

Lemma oldest_spec o overdue :
  oldest o overdue ∈ o :: overdue ∧ ∀ o', o' ∈ o :: overdue → (oldest o overdue).1.2 ≤ o'.1.2.
Proof.
  revert o. induction overdue as [|o1 overdue IH]; intros o; cbn [oldest].
  { split; [by apply list_elem_of_here|]. intros o' Ho. apply list_elem_of_singleton in Ho as ->. lia. }
  destruct (IH (if o1.1.2 <? o.1.2 then o1 else o)) as [Hin Hmin]. set (b := if o1.1.2 <? o.1.2 then o1 else o) in *.
  assert (b ∈ o :: o1 :: overdue ∧ b.1.2 ≤ o.1.2 ∧ b.1.2 ≤ o1.1.2) as (Hb & H1 & H2).
  { unfold b. destruct (o1.1.2 <? o.1.2) eqn:E; (split; [rewrite !elem_of_cons; auto|]); lia. }
  split.
  - apply elem_of_cons in Hin as [->|Hin]; [done|]. rewrite !elem_of_cons. auto.
  - intros o' Ho. assert (b ∈ b :: overdue) as Hb' by apply list_elem_of_here. apply Hmin in Hb'. rewrite !elem_of_cons in Ho.
    destruct Ho as [->|[->|Ho]]; [lia|lia|]. apply Hmin. rewrite elem_of_cons. auto.
Qed.

Lemma inv_set_at s p : inv s → pc_ok (calls s) p → inv (set_at p s).
Proof. intros [] Hp. by split. Qed.

(** A successful claim moves the call's own file. *)
Lemma claim_ok s started call entered path d :
  inv s → overdue_ok (calls s) started (call, entered, path) → claim path call (dir s) = Some d →
  inv (set_at (Returned started call entered) (set_dir d s)).
Proof.
  intros Hi Ho Hd. pose proof Ho as (Hpath & _ & q & Hq). cbn [fst snd] in Hpath, Hq. subst path.
  unfold claim in Hd. destruct (dir s !! pending_name call) as [e|] eqn:He; [|done]. injection Hd as <-.
  destruct (inv_pending s Hi _ e He (startswith_app _ _)) as (call' & v & Hn & Hv & HP & _).
  assert (call' = call) as ->.
  { pose proof (inv_calls s Hi _ _ Hv). pose proof (inv_calls s Hi _ _ Hq). symmetry. apply pending_name_inj; [lia|lia|done]. }
  destruct Hi. split; cbn [dir calls next_call at_ set_at set_dir]; try done.
  - apply tracked_other; [done|by apply tracked_delete].
  - apply (tracked_own _ _ _ _ _ call v); [done|by left|by apply tracked_delete].
  - apply tracked_other; [done|by apply tracked_delete].
Qed.

Lemma inv_watcher s s' : inv s → watcher s = Some s' → inv s'.
Proof.
  intros Hi H. pose proof (inv_pc s Hi) as Hpc. unfold ProbeWatch.watcher in H. destruct (at_ s) eqn:E; try done.
  - destruct names as [|name names]; [destruct overdue as [|o overdue]|].
    + injection H as <-. by apply inv_set_at.
    + destruct (oldest o overdue) as [[call entered] path] eqn:Eo. injection H as <-. apply inv_set_at; [done|].
      destruct (oldest_spec o overdue) as [Hin _]. rewrite Eo in Hin.
      by apply (proj1 (Forall_forall _ _) Hpc) in Hin.
    + injection H as <-. apply inv_set_at; [done|]. by apply scan_one_ok.
  - destruct (claim path call (dir s)) as [d|] eqn:Ed; injection H as <-; [by eapply claim_ok|by apply inv_set_at].
  - case_bool_decide; injection H as <-; by apply inv_set_at.
  - case_bool_decide; injection H as <-; apply inv_set_at; try done. destruct Hpc as (_ & Ha & p & Hp). split; [done|eauto].
  - injection H as <-. apply inv_set_at; [|done]. destruct Hi. split; cbn; try done; by apply tracked_delete.
  - injection H as <-. apply inv_set_at; [done|]. by case_match.
Qed.

Lemma inv_wstep s s' : inv s → wstep s s' → inv s'.
Proof.
  intros Hi. destruct 1 as [s reads ws _ _|s reads ws path line _ _|s _ _|s names _ _ _|s s' H].
  - destruct Hi. by split.
  - destruct Hi. by split.
  - by apply inv_set_at.
  - apply inv_set_at; [done|]. by constructor.
  - by eapply inv_watcher.
Qed.

Lemma reachable_inv ws s : reachable ws s → inv s.
Proof.
  induction 1 as [|s s' _ IH [H|H]]; [|by eapply inv_wstep|by eapply inv_cstep].
  split; cbn; try done; try (by intros name e He; rewrite lookup_empty in He).
Qed.

Lemma claimed_name_inj m n : 0 ≤ m → 0 ≤ n → claimed_name m = claimed_name n → m = n.
Proof. intros ?? H%app_inv_head%app_inv_tail. by apply dec_inj. Qed.

Lemma cstep_at s s' : cstep s s' → at_ s' = at_ s.
Proof. by destruct 1. Qed.

(** A deadline stop is never asked for a call that has come back.  In
    every interleaving of the watcher's and the callbacks' file operations,
    the step that requests a stop for a call finds a call of the watched
    selector whose pending file was at least the limit old, and whose return
    callback had not yet revoked the claim: at that moment the call is still
    inside, or its callback has only removed the pending file. *)
Theorem stop_deadline_sound ws s s' call age :
  reachable ws s → step s s' → at_ s' = StopDeadline call age → at_ s ≠ StopDeadline call age →
  pending_secs ≤ age
  ∧ ∃ p, calls s !! call = Some (selector, p) ∧ (p = InCall ∨ p = PendingRemoved).
Proof.
  intros Hreach Hstep Hs' Hs. pose proof (reachable_inv ws s Hreach) as Hi.
  destruct Hstep as [Hw|Hc%cstep_at]; [|congruence].
  destruct Hw as [s reads ws' _ _|s reads ws' path line _ _|s _ _|s names _ _ _|s s' Hw]; try discriminate.
  pose proof (inv_pc s Hi) as Hpc. unfold ProbeWatch.watcher in Hw. destruct (at_ s) eqn:E; try discriminate.
  - destruct names as [|name names]; [destruct overdue as [|o overdue]; [|destruct (oldest o overdue) as [[c1 e1] p1]]|];
      by simplify_eq/=.
  - by destruct (claim _ _ _); simplify_eq/=.
  - by case_bool_decide; simplify_eq/=.
  - case_bool_decide as Hf; simplify_eq/=. destruct Hpc as (_ & Ha & p & Hp). split; [done|]. exists p. split; [done|].
    destruct Hf as [e He]. destruct (inv_claimed s Hi _ e He (startswith_app _ _)) as (call' & v & Hn & Hv & HP).
    pose proof (inv_calls s Hi _ _ Hv). pose proof (inv_calls s Hi _ _ Hp). cbn [fst] in *.
    apply claimed_name_inj in Hn; [|lia|lia]. subst call'. rewrite Hp in Hv. by injection Hv as <-.
  - by simplify_eq/=.
  - by case_match; simplify_eq/=.
Qed.

(** ** The watcher alone *)

Fixpoint iterate (n : nat) (s : system) : option system :=
  match n with O => Some s | S n => s ← watcher s; iterate n s end.
Lemma iterate_add n m s : iterate (n + m) s = s' ← iterate n s; iterate m s'.
Proof. revert s. induction n as [|n IH]; intros s; cbn; [done|]. by destruct (watcher s); cbn. Qed.

(** What a listing finds: the old pending files of the selector. *)
Definition found_in (s : system) (o : Z * Z * list Z) : Prop :=
  ∃ e, dir s !! o.2 = Some (Some e) ∧ e_call e = o.1.1 ∧ e_time e = o.1.2 ∧ is_pending_name o.2 = true.

Lemma scan_all s started names overdue :
  ∃ overdue', iterate (length names) (set_at (Scan started names overdue) s) = Some (set_at (Scan started [] overdue') s)
    ∧ (Forall (found_in s) overdue → Forall (found_in s) overdue')
    ∧ (∀ o, o ∈ overdue → o ∈ overdue')
    ∧ ∀ name call t, name ∈ names → is_pending_name name = true → dir s !! name = Some (Some (Event call selector t)) →
        pending_secs ≤ started - t → (call, t, name) ∈ overdue'.
Proof.
  revert overdue. induction names as [|name names IH]; intros overdue; cbn [length iterate].
  { exists overdue. split_and!; try done. intros name call t H. by apply not_elem_of_nil in H. }
  set (o1 := scan_one selector pending_secs (dir s) started name overdue).
  destruct (IH o1) as (overdue' & Hit & Hf & Hin & Hnew). exists overdue'. split_and!.
  - exact Hit.
  - intros Ho. apply Hf. unfold o1, scan_one. destruct (is_pending_name name) eqn:En; cbn [negb]; [|done].
    destruct (dir s !! name) as [[e|]|] eqn:E; try done. destruct (negb _); [done|]. destruct (_ <=? _); [|done]. apply Forall_app. split; [done|]. constructor; [|done].
    by exists e.
  - intros o Ho. apply Hin. unfold o1, scan_one. destruct (negb _); [done|]. destruct (dir s !! name) as [[e|]|]; try done.
    destruct (negb _); [done|]. destruct (_ <=? _); [|done]. apply elem_of_app. by left.
  - intros name' call t Hn Hp Hd Ht. apply elem_of_cons in Hn as [->|Hn]; [|by apply Hnew].
    apply Hin. unfold o1, scan_one. rewrite Hp, Hd. cbn [negb e_selector e_time e_call]. rewrite Z.eqb_refl. cbn [negb].
    rewrite (proj2 (Z.leb_le _ _)) by done. apply elem_of_app. right. by apply list_elem_of_here.
Qed.

Lemma is_pending_pending_name call : is_pending_name (pending_name call) = true.
Proof.
  unfold is_pending_name, endswith, pending_name. rewrite startswith_app.
  rewrite !reverse_app. by rewrite <-app_assoc, startswith_app.
Qed.

(** The oldest overdue entry, still there and of a call that has not returned,
    is claimed, and the claim leads to the stop: four steps. *)
Lemma claim_run s started o overdue call entered path e :
  oldest o overdue = (call, entered, path) → dir s !! path = Some e → dir s !! returned_name call = None →
  iterate 4 (set_at (Scan started [] (o :: overdue)) s)
  = Some (set_at (StopDeadline call (started - entered))
            (set_dir (<[claimed_name call := e]> (delete path (dir s))) s)).
Proof.
  intros Eo He Hr. set (d := <[claimed_name call := e]> (delete path (dir s))).
  assert (d !! returned_name call = None) as Hret.
  { unfold d. rewrite lookup_insert_ne by done. by apply lookup_delete_None; right. }
  assert (watcher (set_at (Scan started [] (o :: overdue)) s)
          = Some (set_at (Claim started call entered path) s)) as H1.
  { unfold ProbeWatch.watcher. cbn [at_ set_at]. by rewrite Eo. }
  assert (watcher (set_at (Claim started call entered path) s)
          = Some (set_at (Returned started call entered) (set_dir d s))) as H2.
  { unfold ProbeWatch.watcher, claim. cbn [at_ set_at dir]. by rewrite He. }
  assert (watcher (set_at (Returned started call entered) (set_dir d s))
          = Some (set_at (StillClaimed started call entered) (set_dir d s))) as H3.
  { unfold ProbeWatch.watcher. cbn [at_ set_at set_dir dir]. by rewrite Hret, bool_decide_false by (by intros [??]). }
  assert (watcher (set_at (StillClaimed started call entered) (set_dir d s))
          = Some (set_at (StopDeadline call (started - entered)) (set_dir d s))) as H4.
  { unfold ProbeWatch.watcher. cbn [at_ set_at set_dir dir]. rewrite bool_decide_true; [done|].
    unfold d. rewrite lookup_insert_eq. eauto. }
  cbn [iterate]. rewrite H1. cbn [mbind option_bind]. rewrite H2. cbn [mbind option_bind]. rewrite H3.
  cbn [mbind option_bind]. by rewrite H4.
Qed.

(** After a listing with an overdue entry the watcher claims the oldest one,
    finds its claim untouched and asks for the stop: four steps. *)
Lemma claim_stops s started o overdue :
  inv s → Forall (overdue_ok (calls s) started) (o :: overdue) → Forall (found_in s) (o :: overdue) →
  ∃ call age s', iterate 4 (set_at (Scan started [] (o :: overdue)) s) = Some s' ∧ at_ s' = StopDeadline call age
    ∧ ∀ o', o' ∈ o :: overdue → started - o'.1.2 ≤ age.
Proof.
  intros Hi Hok Hfound. destruct (oldest_spec o overdue) as [Hin Hmin].
  destruct (oldest o overdue) as [[call entered] path] eqn:Eo. cbn [fst snd] in *.
  apply (proj1 (Forall_forall _ _) Hok) in Hin as Ho.
  apply (proj1 (Forall_forall _ _) Hfound) in Hin as (e & He & _).
  pose proof Ho as (Hpath & _ & q & Hq). cbn [fst snd] in Hpath, Hq, He. subst path.
  assert (dir s !! returned_name call = None) as Hret.
  { apply eq_None_not_Some. intros [e' He'].
    destruct (inv_returned s Hi _ _ He' (startswith_app _ _)) as (c & v & Hn & Hv & HP).
    destruct (inv_pending s Hi _ _ He (startswith_app _ _)) as (c2 & v2 & Hn2 & Hv2 & HP2 & _).
    pose proof (inv_calls s Hi _ _ Hv). pose proof (inv_calls s Hi _ _ Hv2). pose proof (inv_calls s Hi _ _ Hq).
    apply returned_name_inj in Hn; [|lia|lia]. apply pending_name_inj in Hn2; [|lia|lia]. subst c c2.
    unfold returned_ok in HP. simplify_eq/=. }
  eexists call, (started - entered), _. split_and!; [by apply (claim_run s started o overdue _ _ _ _ Eo He Hret)|done|].
  intros o' Ho'. specialize (Hmin o' Ho'). lia.
Qed.

(** C38: An overdue call does stop the probe.  From any reachable state in which
    the watcher reaches its event pass, the directory is ready and some call
    of the selector has been pending for the limit, if the callbacks stay
    quiet the watcher alone asks for a stop, whatever the order of the
    directory listing; and the age it reports is at least that call's. *)
Theorem overdue_call_stops ws s call t names :
  reachable ws s → at_ s = Events → is_Some (dir s !! u "ready") →
  dir s !! pending_name call = Some (Some (Event call selector t)) → pending_secs ≤ clock s - t →
  names ≡ₚ (map_to_list (dir s)).*1 →
  wstep s (set_at (Scan (clock s) names []) s)
  ∧ ∃ call' age s',
      iterate (length names + 4) (set_at (Scan (clock s) names []) s) = Some s'
      ∧ at_ s' = StopDeadline call' age ∧ clock s - t ≤ age.
Proof.
  intros Hreach He Hready Hd Ht Hnames. pose proof (reachable_inv ws s Hreach) as Hi. split; [by constructor|].
  destruct (scan_all s (clock s) names []) as (overdue & Hit & Hf & _ & Hnew).
  assert ((call, t, pending_name call) ∈ overdue) as Hin.
  { apply Hnew; [|apply is_pending_pending_name|done|done]. rewrite Hnames. apply list_elem_of_fmap. eexists. split; [|by apply elem_of_map_to_list]. done. }
  assert (Forall (overdue_ok (calls s) (clock s)) overdue) as Hok.
  { assert (∀ n s1 s2, inv s1 → iterate n s1 = Some s2 → inv s2) as Hinv.
    { induction n as [|n IH]; intros s1 s2 H1 H2; cbn in H2; [by simplify_eq|].
      destruct (watcher s1) as [s1'|] eqn:Ew; [|done]. cbn in H2. by eapply IH; [eapply inv_watcher|]. }
    apply Hinv in Hit; [by apply (inv_pc _ Hit)|]. apply inv_set_at; [done|]. by constructor. }
  destruct overdue as [|o overdue]; [by apply not_elem_of_nil in Hin|].
  destruct (claim_stops s (clock s) o overdue Hi Hok (Hf (Forall_nil_2 _))) as (call' & age & s' & Hs & Ha & Hmin).
  exists call', age, s'. split_and!; [|done|by apply (Hmin _ Hin)]. by rewrite iterate_add, Hit.
Qed.
End invariant.

(** ** Following a growing file *)

(** The reads of one follower, in order. *)
Fixpoint follow (reads : list (option Z * option (list byte))) (f : Follower) : list (list Z) * Follower :=
  match reads with
  | [] => ([], f)
  | (size, content) :: reads =>
      let '(lines, f) := read_lines size content f in
      let '(lines', f) := follow reads f in (lines ++ lines', f)
  end.
(** The reads of a file that holds [before] and then grows by [pieces]. *)
Fixpoint growing (before : list byte) (pieces : list (list byte)) : list (option Z * option (list byte)) :=
  match pieces with
  | [] => []
  | p :: pieces => (Some (zlen (before ++ p)), Some (before ++ p)) :: growing (before ++ p) pieces
  end.
Definition split_lines (text : list Z) : list (list Z) * list Z :=
  (map rstrip_cr (removelast (split1 10 text)), List.last (split1 10 text) []).

Lemma split_lines_app l k :
  split_lines (l ++ k)
  = ((split_lines l).1 ++ (split_lines ((split_lines l).2 ++ k)).1, (split_lines ((split_lines l).2 ++ k)).2).
Proof.
  unfold split_lines. cbn [fst snd]. rewrite split1_app.
  pose proof (split1_not_nil 10 (List.last (split1 10 l) [] ++ k)) as Hs.
  rewrite removelast_app by done. rewrite map_app. f_equal.
  destruct (exists_last Hs) as (s' & x & ->). by rewrite app_assoc, !last_last.
Qed.

Lemma read_growing before piece f :
  offset f = zlen before →
  read_lines (Some (zlen (before ++ piece))) (Some (before ++ piece)) f
  = ((split_lines (carry f ++ utf8_replace piece)).1,
     MkFollower (zlen (before ++ piece)) (split_lines (carry f ++ utf8_replace piece)).2).
Proof.
  intros Ho. unfold read_lines. pose proof (zlen_nonneg piece). rewrite zlen_app.
  rewrite (proj2 (Z.ltb_ge _ _)) by lia. rewrite Ho, zdrop_app_exact by done. done.
Qed.

(** A follower loses and repeats nothing.  However a growing log is cut
    into reads, the lines returned are, in order, the complete lines of the
    decoded pieces, the unfinished line is kept for the next read, and the
    whole file has been consumed. *)
Theorem follower_complete pieces :
  let '(lines, f) := follow (growing [] pieces) new_follower in
  (lines, carry f) = split_lines (concat (map utf8_replace pieces)) ∧ offset f = zlen (concat pieces).
Proof.
  assert (∀ before f text, offset f = zlen before → carry f = (split_lines text).2 →
    let '(lines, f') := follow (growing before pieces) f in
    ((split_lines text).1 ++ lines, carry f') = split_lines (text ++ concat (map utf8_replace pieces))
    ∧ offset f' = zlen (before ++ concat pieces)) as H.
  { induction pieces as [|p pieces IH]; intros before f text Ho Hc; cbn [growing follow map concat].
    { rewrite !app_nil_r, Hc. by destruct (split_lines text). }
    rewrite read_growing, Hc by done. set (k := utf8_replace p). set (rest := split_lines ((split_lines text).2 ++ k)).
    pose proof (split_lines_app text k) as Hs. fold rest in Hs.
    specialize (IH (before ++ p) (MkFollower (zlen (before ++ p)) rest.2) (text ++ k) eq_refl).
    rewrite Hs in IH. specialize (IH eq_refl). destruct (follow _ _) as [lines f']. cbn [fst snd] in IH.
    by rewrite !app_assoc in *. }
  specialize (H [] new_follower [] eq_refl eq_refl). by destruct (follow _ _).
Qed.

(** ** Samples *)

(** A character split between two reads becomes two replacement characters. *)
Example follower_splits_character :
  (follow (growing [] [[xc3]; [xa9; x0a]]) new_follower).1 = [[0xFFFD; 0xFFFD]]
  ∧ (follow (growing [] [[xc3; xa9; x0a]]) new_follower).1 = [[0xE9]].
Proof. split; reflexivity. Qed.

(** A call of selector 79 enters at time 5; at time 40 it has been pending for
    more than 30. *)
Definition entered_files : files :=
  <[pending_name 1 := Some (Event 1 79 5)]> (<[u "ready" := None]> ∅).
Definition sample_overdue : system :=
  System 40 entered_files {[1 := (79, InCall)]} 2 [] Events.
Lemma sample_overdue_reachable : reachable 79 30 0 0 79 [] sample_overdue.
Proof.
  pose (step' := reach_step 79 30 0 0 79 []).
  pose proof (reach_start 79 30 0 0 79 []) as H.
  apply step' with (s' := System 0 (<[u "ready" := None]> ∅) ∅ 1 [] Logs) in H; [|right; exact (c_ready 79 _)].
  apply step' with (s' := System 5 (<[u "ready" := None]> ∅) ∅ 1 [] Logs) in H;
    [|right; apply (c_time 79 (System 0 _ _ _ _ _) 5); cbn; lia].
  apply step' with (s' := System 5 entered_files {[1 := (79, InCall)]} 2 [] Logs) in H;
    [|right; exact (c_enter 79 (System 5 _ _ _ _ _) 79 5 true (Z.le_refl 5))].
  apply step' with (s' := System 40 entered_files {[1 := (79, InCall)]} 2 [] Logs) in H;
    [|right; apply (c_time 79 (System 5 _ _ _ _ _) 40); cbn; lia].
  apply step' with (s' := sample_overdue) in H; [exact H|]. left.
  exact (w_logs 79 30 0 0 (System 40 entered_files _ 2 [] Logs) [] [] eq_refl eq_refl).
Qed.
Lemma reachable_iterate sel ps ms st sel' ws n s s' :
  reachable sel ps ms st sel' ws s → iterate sel ps ms st n s = Some s' → reachable sel ps ms st sel' ws s'.
Proof.
  revert s. induction n as [|n IH]; intros s Hs H; cbn [iterate] in H; [by injection H as <-|].
  destruct (watcher sel ps ms st s) as [s1|] eqn:E; [|done]. apply (IH s1); [|exact H].
  eapply reach_step; [exact Hs|]. left. by apply w_next.
Qed.
Lemma overdue_call_stops_witness :
  ∃ call' age s', iterate 79 30 0 0 (length ((map_to_list entered_files).*1) + 4)
      (set_at (Scan 40 ((map_to_list entered_files).*1) []) sample_overdue) = Some s'
    ∧ at_ s' = StopDeadline call' age ∧ 35 ≤ age.
Proof.
  pose proof (overdue_call_stops 79 30 0 0 79 [] sample_overdue 1 5 ((map_to_list entered_files).*1)
    sample_overdue_reachable eq_refl) as H.
  destruct H as [_ H]; [eexists; reflexivity|reflexivity|cbn; lia|reflexivity|]. exact H.
Defined.
Lemma stop_deadline_sound_witness :
  30 ≤ 35 ∧ ∃ p, (calls sample_overdue) !! 1 = Some (79, p) ∧ (p = InCall ∨ p = PendingRemoved).
Proof.
  set (names := (map_to_list entered_files).*1).
  assert (reachable 79 30 0 0 79 [] (set_at (Scan 40 names []) sample_overdue)) as Hr.
  { eapply reach_step; [apply sample_overdue_reachable|]. left.
    apply w_list; [reflexivity|eexists; reflexivity|reflexivity]. }
  destruct (iterate 79 30 0 0 (length names + 3) (set_at (Scan 40 names []) sample_overdue)) as [s|] eqn:E;
    [|vm_compute in E; discriminate].
  pose proof (reachable_iterate _ _ _ _ _ _ _ _ _ Hr E) as Hs.
  assert (s = set_at (StillClaimed 40 1 5) s ∧ calls s = calls sample_overdue
          ∧ watcher 79 30 0 0 s = Some (set_at (StopDeadline 1 35) s)) as (E1 & E2 & E3).
  { vm_compute in E. injection E as <-. split_and!; reflexivity. }
  rewrite <-E2. apply (stop_deadline_sound 79 30 0 0 79 [] s (set_at (StopDeadline 1 35) s) 1 35 Hs);
    [left; by apply w_next|reflexivity|]. by rewrite E1.
Defined.
