(* ===== verification/PyShlex.v ===== *)
(** * Python's [shlex]

    [shlex.split] in its POSIX mode without comments, and [shlex.quote]; a
    quoted text splits back into itself. *)

From stdpp Require Import base tactics list strings.
From S2P Require Import Prelude PyBytes PyStr.
Open Scope Z_scope.

(** The states of the tokenizer: between words, in a word, inside quotes,
    after a backslash in a word or in double quotes. *)
Inductive lexer := Blank | InWord | InQuote (q : Z) | Escaped | EscapedInQuote.

Definition sh_space (c : Z) : bool := (c =? 32) || (c =? 9) || (c =? 13) || (c =? 10).
Definition sh_quote (c : Z) : bool := (c =? 39) || (c =? 34).

(** [tok] is the word so far, [quoted] whether it had quotes. *)
Fixpoint lex (st : lexer) (tok : list Z) (quoted : bool) (s : list Z) : res (list (list Z)) :=
  match s with
  | [] =>
      match st with
      | InQuote _ => Raise (ValueError "No closing quotation")
      | Escaped | EscapedInQuote => Raise (ValueError "No escaped character")
      | Blank | InWord => Ok (if bool_decide (tok ≠ []) || quoted then [tok] else [])
      end
  | c :: s =>
      match st with
      | Blank =>
          if sh_space c then lex Blank [] false s
          else if c =? 92 then lex Escaped [] false s
          else if sh_quote c then lex (InQuote c) [] false s
          else lex InWord [c] false s
      | InWord =>
          if sh_space c then
            (if bool_decide (tok ≠ []) || quoted
             then words ← lex Blank [] false s; Ok (tok :: words) else lex Blank [] false s)
          else if sh_quote c then lex (InQuote c) tok quoted s
          else if c =? 92 then lex Escaped tok quoted s
          else lex InWord (tok ++ [c]) quoted s
      | InQuote q =>
          if c =? q then lex InWord tok true s
          else if (c =? 92) && (q =? 34) then lex EscapedInQuote tok true s
          else lex (InQuote q) (tok ++ [c]) true s
      | Escaped => lex InWord (tok ++ [c]) quoted s
      | EscapedInQuote =>
          lex (InQuote 34) (tok ++ (if (c =? 92) || (c =? 34) then [c] else [92; c])) true s
      end
  end.
Definition split (s : list Z) : res (list (list Z)) := lex Blank [] false s.

(** [re.compile(r'[^\w@%+=:,./-]', re.ASCII)] finds nothing. *)
Definition sh_safe (c : Z) : bool :=
  is_word c || bool_decide (c ∈ u "@%+=:,./-").
Definition quote_char (c : Z) : list Z := if c =? 39 then [39; 34; 39; 34; 39] else [c].
Definition quote (s : list Z) : list Z :=
  if bool_decide (s = []) then [39; 39]
  else if forallb sh_safe s then s
  else [39] ++ concat (map quote_char s) ++ [39].

Example split_sample : split (u "rd=md0  serial=3 'a b'c \x") = Ok [u "rd=md0"; u "serial=3"; u "a bc"; u "x"].
Proof. reflexivity. Qed.

Lemma lex_quoted s tok rest :
  lex (InQuote 39) tok true (concat (map quote_char s) ++ 39 :: rest) = lex InWord (tok ++ s) true rest.
Proof.
  revert tok. induction s as [|c s IH]; intros tok; cbn [map concat app].
  { cbn. by rewrite app_nil_r. }
  unfold quote_char at 1. destruct (c =? 39) eqn:E.
  - apply Z.eqb_eq in E as ->. cbn [app lex]. cbn. rewrite IH. by rewrite <-app_assoc.
  - cbn [app lex]. rewrite E. replace ((c =? 92) && (39 =? 34)) with false by (destruct (c =? 92); done).
    rewrite IH. by rewrite <-app_assoc.
Qed.

Lemma sh_safe_plain c : sh_safe c = true → sh_space c = false ∧ sh_quote c = false ∧ (c =? 92) = false.
Proof.
  unfold sh_safe. intros H. apply orb_prop in H as [H|H].
  - unfold is_word, is_digit, is_upper, is_lower, sh_space, sh_quote in *. lia.
  - apply bool_decide_eq_true in H. unfold sh_space, sh_quote.
    repeat (apply elem_of_cons in H as [->|H]; [done|]). by apply not_elem_of_nil in H.
Qed.

Lemma lex_safe s tok quoted rest :
  forallb sh_safe s = true → lex InWord tok quoted (s ++ rest) = lex InWord (tok ++ s) quoted rest.
Proof.
  revert tok. induction s as [|c s IH]; intros tok Hs; cbn [app lex]; [by rewrite app_nil_r|].
  apply andb_prop in Hs as [Hc Hs]. destruct (sh_safe_plain c Hc) as (-> & -> & ->).
  rewrite IH by done. by rewrite <-app_assoc.
Qed.

(** A quoted text is read back as one word, whatever follows it. *)
Lemma lex_quote s rest :
  ∃ quoted, lex Blank [] false (quote s ++ rest) = lex InWord s quoted rest ∧ (s ≠ [] ∨ quoted = true).
Proof.
  unfold quote. case_bool_decide as Hnil; [subst; exists true; by split; [|right]|].
  destruct (forallb sh_safe s) eqn:Hs.
  - destruct s as [|c s]; [done|]. apply andb_prop in Hs as [Hc Hs]. exists false. split; [|by left].
    cbn [app lex]. destruct (sh_safe_plain c Hc) as (-> & -> & ->). by rewrite lex_safe.
  - exists true. split; [|by right]. cbn [app lex]. cbn. destruct s as [|c s]; [done|].
    rewrite <-app_assoc. cbn [app]. pose proof (lex_quoted (c :: s) [] rest) as H. cbn [app] in H. rewrite <-H.
    cbn [map concat]. unfold quote_char. destruct (c =? 39); reflexivity.
Qed.
Lemma split_quote s : split (quote s) = Ok [s].
Proof.
  unfold split. destruct (lex_quote s []) as (q & H & Hq). rewrite app_nil_r in H. rewrite H. cbn.
  destruct Hq as [Hq| ->]; [by rewrite bool_decide_true|by rewrite orb_true_r].
Qed.
