(* ===== verification/InstallHelpers.v ===== *)
(** * Installing staged helpers: [tools/re/install_staged_helpers.py] with
    [boot_command] of [tools/warm_boot_probe.py]

    The launch template is a JSON value; what the run observes (the files it
    polls, QEMU's exit, the monitor's answers, the serial client) is a record
    the run is a function of.  [main] is modelled with the actions it performs
    on the child disk and the QEMU process, and shown to keep to the life cycle
    of an install.  Paths are strings; [resolve] is [Path.resolve]. *)

From stdpp Require Import base tactics list strings.
From Stdlib Require Import Strings.Byte.
From S2P Require Import Prelude PyState PyBytes PyStr PyDict PyShlex.
Open Scope Z_scope.

(** ** [option_values], [rewrite_ramdisk], [ans_drive_path] *)

Fixpoint option_values (argv : list (list Z)) (option : list Z) : res (list (list Z)) :=
  match argv with
  | [] => Ok []
  | a :: argv =>
      if bool_decide (a = option) then
        match argv with
        | [] => Raise (ValueError "template option has no value")
        | v :: argv => vs ← option_values argv option; Ok (v :: vs)
        end
      else option_values argv option
  end.

(** [result[result.index(option) + 1] = value]. *)
Fixpoint set_option (argv : list (list Z)) (option value : list Z) : res (list (list Z)) :=
  match argv with
  | [] => Raise (ValueError "not in list")
  | a :: rest =>
      if bool_decide (a = option) then
        match rest with [] => Raise IndexError | _ :: rest => Ok (a :: value :: rest) end
      else rest ← set_option rest option value; Ok (a :: rest)
  end.

Definition rewrite_ramdisk (argv : list (list Z)) (ramdisk : list Z) : res (list (list Z)) :=
  values ← option_values argv (u "-ramdisk");
  raise_if negb (zlen values =? 1) with ValueError "restore template must contain exactly one -ramdisk";;
  set_option argv (u "-ramdisk") ramdisk.

Section paths.
Variable resolve : list Z → list Z.

Definition ans_file (spec : list Z) : res (option (list Z)) :=
  let parts := split1 44 spec in
  if negb (bool_decide (u "id=ans" ∈ parts)) then Ok None
  else match filter (λ p, startswith (u "file=") p = true) parts with
       | [f] => Ok (Some (resolve (zdrop 5 f)))
       | _ => Raise (ValueError "ANS -drive must contain exactly one file= component")
       end.
Definition ans_drive_path (argv : list (list Z)) : res (list Z) :=
  specs ← option_values argv (u "-drive");
  found ← res_map ans_file specs;
  match omap id found with
  | [p] => Ok p
  | _ => Raise (ValueError "template must contain exactly one id=ans -drive")
  end.

(** ** [validate_template] *)

Inductive json :=
  | JNull | JBool (v : bool) | JNum (v : Z) | JStr (s : list Z)
  | JList (l : list json) | JDict (d : list (list Z * json)).

Definition as_str (j : json) : option (list Z) := match j with JStr s => Some s | _ => None end.
Definition argv_of (j : option json) : res (list (list Z)) :=
  match j with
  | Some (JList l) =>
      match l, mapM as_str l with
      | _ :: _, Some argv => Ok argv
      | _, _ => Raise (ValueError "template argv is not a non-empty string list")
      end
  | _ => Raise (ValueError "template argv is not a non-empty string list")
  end.
Definition env_of (j : option json) : res (list (list Z * list Z)) :=
  match j with
  | Some (JDict d) =>
      opt_or (mapM (λ e, v ← as_str e.2; Some (e.1, v)) d) (ValueError "template env is not a string map")
  | _ => Raise (ValueError "template env is not a string map")
  end.

Definition validate_template (template : list (list Z * json)) (parent : list Z)
    : res (list (list Z) * list (list Z * list Z)) :=
  raise_if negb (match dget (u "format") template with Some (JStr f) => bool_decide (f = u "darwin-vm-qemu-launch-v1") | _ => false end)
    with ValueError "template format is not darwin-vm-qemu-launch-v1";;
  argv ← argv_of (dget (u "argv") template);
  env ← env_of (dget (u "env") template);
  raise_if bool_decide (u "-incoming" ∈ argv) || bool_decide (u "-loadvm" ∈ argv)
    with ValueError "template contains -incoming RAM state; fresh-child install refuses it";;
  boot_args ← option_values argv (u "-args");
  words ← match boot_args with
          | [a] => split a
          | _ => Raise (ValueError "template is not a restore launch with rd=md0")
          end;
  raise_if negb (bool_decide (u "rd=md0" ∈ words)) with ValueError "template is not a restore launch with rd=md0";;
  ramdisks ← option_values argv (u "-ramdisk");
  raise_if bool_decide (ramdisks = []) with ValueError "restore template has no -ramdisk";;
  ans ← ans_drive_path argv;
  raise_if negb (bool_decide (ans = resolve parent)) with ValueError "template ANS disk does not equal --parent";;
  Ok (argv, env).

(** ** [input_paths] *)

Definition pinned_options : list (list Z) := map u ["-bootkc"; "-dtree"; "-tc"; "-sptm"; "-txm"].
(** The paths to pin, without their order; [None]: some file is missing. *)
Definition input_paths (is_file : list Z → bool) (argv : list (list Z)) (parent ramdisk template : list Z)
    : res (list (list Z)) :=
  exe ← opt_or (head argv) IndexError;
  values ← res_map (option_values argv) pinned_options;
  let paths := map resolve ([template; parent; ramdisk; exe] ++ concat values) in
  raise_if negb (forallb is_file paths) with OSError;;
  Ok (remove_dups paths).
End paths.

(** ** [boot_command] *)

Definition dropped_pairs : list (list Z) :=
  map u ["-incoming"; "-loadvm"; "-monitor"; "-qmp"; "-gdb"; "-chardev"; "-serial"].
Definition dropped_flags : list (list Z) := [u "-S"; u "-s"].
Definition child_drive (out : list Z) : list Z := u "if=none,id=ans,file=" ++ out ++ u "/disk.qcow2,format=qcow2".

(** The [while] loop: a dropped option takes its value along, and a value
    missing at the end is not noticed. *)
Fixpoint kept_from (fuel : nat) (out : list Z) (argv : list (list Z)) : res (list (list Z)) :=
  match fuel, argv with
  | _, [] => Ok []
  | O, _ => Raise OutOfFuel
  | S fuel, key :: rest =>
      if bool_decide (key ∈ dropped_pairs) then kept_from fuel out (drop 1 rest)
      else if bool_decide (key ∈ dropped_flags) then kept_from fuel out rest
      else if bool_decide (key = u "-drive") then
        match rest with
        | [] => Raise IndexError
        | spec :: rest =>
            if negb (contains (u "id=ans,") spec) then Raise (ValueError "unexpected non-ANS drive")
            else kept ← kept_from fuel out rest; Ok (key :: child_drive out :: kept)
        end
      else kept ← kept_from fuel out rest; Ok (key :: kept)
  end.
Definition endpoints_of (out : list Z) : list (list Z) :=
  [u "-monitor"; u "unix:" ++ out ++ u "/monitor.sock,server=on,wait=off";
   u "-qmp"; u "unix:" ++ out ++ u "/qmp.sock,server=on,wait=off";
   u "-chardev"; u "socket,id=warm_uart,path=" ++ out ++ u "/uart.sock,server=on,wait=off,logfile=" ++ out ++ u "/serial.log";
   u "-serial"; u "chardev:warm_uart"].
Definition boot_command (argv : list (list Z)) (out : list Z) : res (list (list Z)) :=
  kept ← kept_from (length argv) out argv; Ok (kept ++ endpoints_of out).

(** ** Waiting *)

(** One poll of a file: whether it exists, and QEMU's exit code if it has one. *)
Fixpoint wait_for_file (polls : list (bool * option Z)) : res () :=
  match polls with
  | [] => Raise (TimeoutError "timed out waiting")
  | (true, _) :: _ => Ok ()
  | (false, Some _) :: _ => Raise (RuntimeError "QEMU exited before creating")
  | (false, None) :: polls => wait_for_file polls
  end.

Definition last_65536 (l : list byte) : list byte := zdrop (zlen l - 65536) l.
(** One poll of the serial log: its contents, if it exists, and QEMU's exit
    code; the polls end with the deadline. *)
Fixpoint wait_for_serial (pattern : list byte → bool) (position : Z) (tail : list byte)
    (polls : list (option (list byte) * option Z)) : res (bool * Z) :=
  match polls with
  | [] => Ok (false, position)
  | (content, exited) :: polls =>
      let block := match content with Some c => zdrop position c | None => [] end in
      let position := position + zlen block in
      let tail := match content with Some _ => last_65536 (tail ++ block) | None => tail end in
      if match content with Some _ => pattern tail | None => false end then Ok (true, position)
      else match exited with
           | Some _ => Raise (RuntimeError "QEMU exited before serial condition")
           | None => wait_for_serial pattern position tail polls
           end
  end.

(** [(?:^|[\r\n])marker(?:[\r\n]|$)] somewhere in [tail]. *)
Definition line_break (x : byte) : bool := bool_decide (x = x0a) || bool_decide (x = x0d).
Definition marker_here (marker l : list byte) : bool :=
  startswith marker l && match zdrop (zlen marker) l with [] => true | x :: _ => line_break x end.
Fixpoint marker_after_break (marker l : list byte) : bool :=
  match l with
  | [] => false
  | x :: l => (line_break x && marker_here marker l) || marker_after_break marker l
  end.
Definition install_marker (marker tail : list byte) : bool := marker_here marker tail || marker_after_break marker tail.

(** ** The run *)

Inductive on_failure := quit | pause.

(** What a run observes. *)
Record observed := Observed {
  o_hashes : res ();
  o_create : res ();
  o_start : res ();
  o_monitor : list (bool * option Z);
  o_uart : list (bool * option Z);
  o_shell : list (option (list byte) * option Z);
  o_time_left : bool;
  o_client : res Z;
  o_install : list (option (list byte) * option Z);
  o_quit : res ();
  o_quit_wait : option Z;
  o_seal : res ();
  o_fail_poll : option Z;
  o_fail_command : res ();
  o_fail_waits : list (option Z);
}.

(** What it does to the child and to QEMU. *)
Inductive act :=
  | PinInputs (paths : list (list Z))
  | CreateChild
  | WriteLaunch (argv : list (list Z)) (env : list (list Z * list Z))
  | StartQemu (argv : list (list Z)) (env : list (list Z * list Z))
  | SendInstaller
  | MonitorQuit
  | MonitorStop
  | Terminate
  | Kill
  | QemuGone
  | SealChild
  | WriteResult (success : bool).

(** The actions so far, newest last, and [proc]: [None], or the child process
    and its exit code once it is known. *)
Record run := Run { trace : list act; proc : option (option Z) }.
Abbreviation T := (SE run).
Definition act_ (a : act) : T () := λ s, (Ok (), Run (trace s ++ [a]) (proc s)).
Definition set_proc (p : option (option Z)) : T () := λ s, (Ok (), Run (trace s) p).
(** The exit of QEMU is noticed. *)
Definition gone (rc : Z) : T () := _ ← act_ QemuGone; set_proc (Some (Some rc)).
(** A wait that polls the process: an exit it notices is remembered. *)
Definition polled {A} (m : res A) (exits : list (option Z)) : T A :=
  match m with
  | Raise (RuntimeError msg) => _ ← match omap id exits with rc :: _ => gone rc | [] => mret () end; lift (Raise (RuntimeError msg))
  | m => lift m
  end.

Section main.
Variable resolve : list Z → list Z.
Variable is_file : list Z → bool.
Variable o : observed.
Variable mode : on_failure.
(** Canonical paths: the output directory, the parent, the ramdisk, the template. *)
Context (out parent ramdisk template_path : list Z).
Context (shell_pattern : list byte → bool) (marker : list byte).

Definition quit_cleanly : T () :=
  _ ← act_ MonitorQuit;
  _ ← lift (o_quit o);
  match o_quit_wait o with
  | None => lift (Raise (RuntimeError "QEMU ignored HMP quit"))
  | Some rc =>
      _ ← gone rc;
      if rc =? 0 then mret () else lift (Raise (RuntimeError "QEMU exited after HMP quit"))
  end.

(** [proc.wait(timeout=...)]: the exit code, or [TimeoutExpired]. *)
Definition waited (i : nat) : option Z := default None (o_fail_waits o !! i).
(** [terminate], then [kill] when that is not enough. *)
Definition terminate_from (i : nat) : T () :=
  _ ← act_ Terminate;
  match waited i with
  | Some rc => gone rc
  | None =>
      _ ← act_ Kill;
      match waited (S i) with
      | Some rc => gone rc
      | None => lift (Raise (RuntimeError "TimeoutExpired"))
      end
  end.

Definition poll : T (option Z) := λ s,
  match proc s with
  | Some (Some rc) => (Ok (Some rc), s)
  | _ => match o_fail_poll o with
         | Some rc => (_ ← gone rc; mret (Some rc) : T (option Z)) s
         | None => (Ok None, s)
         end
  end.

Definition retain_failure : T string := λ s,
  match proc s with
  | None => (Ok "already-exited"%string, s)
  | Some _ =>
      (exited ← poll;
       match exited with
       | Some _ => mret "already-exited"%string
       | None =>
           match o_fail_command o with
           | Raise _ =>
               _ ← terminate_from 0; mret "terminated-after-hmp-failure"%string
           | Ok _ =>
               match mode with
               | pause => _ ← act_ MonitorStop; mret "paused"%string
               | quit =>
                   _ ← act_ MonitorQuit;
                   match waited 0 with
                   | Some rc => _ ← gone rc; mret "quit"%string
                   | None => _ ← terminate_from 1; mret "terminated-after-quit-timeout"%string
                   end
               end
           end
       end) s
  end.

(** The environment of the child: the template's, with the touch-event path. *)
Definition model_env (template_env : list (list Z * list Z)) : list (list Z * list Z) :=
  dset (u "DARWIN_TOUCH_EVENTS") (out ++ u "/events.jsonl") template_env.
Definition host_env (environ model : list (list Z * list Z)) : list (list Z * list Z) :=
  foldl (λ d e, dset e.1 e.2 d)
    (filter (λ e, negb (startswith (u "DARWIN_") e.1 || startswith (u "GXFSTAT_") e.1 || startswith (u "DVM_") e.1) = true) environ)
    model.

(** The body of the [try]. *)
Definition install (source_argv : list (list Z)) (template_env environ : list (list Z * list Z)) : T () :=
  paths ← lift (input_paths resolve is_file source_argv parent ramdisk template_path);
  _ ← lift (o_hashes o);
  _ ← act_ (PinInputs paths);
  _ ← lift (o_create o);
  _ ← act_ CreateChild;
  command ← lift (boot_command source_argv out);
  if existsb (λ x, bool_decide (x ∈ map u ["-incoming"; "-gdb"; "-S"; "-s"]%string)) command
  then lift (Raise (RuntimeError "sanitised command retained forbidden RAM/debug pause option"))
  else if negb (existsb (λ x, startswith (u "if=none,id=ans,file=") x && contains (out ++ u "/disk.qcow2") x) command)
  then lift (Raise (RuntimeError "sanitised command did not select fresh child disk"))
  else
    let env := model_env template_env in
    _ ← act_ (WriteLaunch command env);
    _ ← lift (o_start o);
    _ ← act_ (StartQemu command (host_env environ env));
    _ ← set_proc (Some None);
    _ ← polled (wait_for_file (o_monitor o)) (map snd (o_monitor o));
    _ ← polled (wait_for_file (o_uart o)) (map snd (o_uart o));
    '(ready, position) ← polled (wait_for_serial shell_pattern 0 [] (o_shell o)) (map snd (o_shell o));
    if negb ready then lift (Raise (TimeoutError "restore shell marker did not arrive before deadline"))
    else if negb (o_time_left o) then lift (Raise (TimeoutError "deadline expired before installer command"))
    else
      _ ← act_ SendInstaller;
      rc ← lift (o_client o);
      if negb (rc =? 0) then lift (Raise (RuntimeError "serial client did not establish and echo the installer command"))
      else
        '(installed, _) ← polled (wait_for_serial (install_marker marker) position [] (o_install o)) (map snd (o_install o));
        if negb installed then lift (Raise (TimeoutError "guest installer marker absent from QEMU serial before deadline"))
        else
          _ ← quit_cleanly;
          _ ← set_proc None;
          _ ← lift (o_seal o);
          _ ← act_ SealChild;
          act_ (WriteResult true).

(** [main] from the [try] on: its exit code. *)
Definition main (source_argv : list (list Z)) (template_env environ : list (list Z * list Z)) : T Z := λ s,
  match install source_argv template_env environ s with
  | (Ok _, s) => (Ok 0, s)
  | (Raise _, s) => (_ ← retain_failure; _ ← act_ (WriteResult false); mret 1 : T Z) s
  end.
End main.

(** ** The life cycle of an install

    The abstract specification: a child is created from pinned inputs, one QEMU
    runs on it, and it is sealed only after that QEMU is gone. *)

Inductive life := Fresh | Pinned | Created | Running | Paused | Down | Sealed.
Definition life_step (l : life) (a : act) : option life :=
  match l, a with
  | Fresh, PinInputs _ => Some Pinned
  | Pinned, CreateChild => Some Created
  | Created, WriteLaunch _ _ => Some Created
  | Created, StartQemu _ _ => Some Running
  | Running, (SendInstaller | MonitorQuit | Terminate | Kill) => Some Running
  | Running, MonitorStop => Some Paused
  | Running, QemuGone => Some Down
  | Down, SealChild => Some Sealed
  | Sealed, WriteResult true => Some Sealed
  | (Fresh | Pinned | Created | Paused | Down), WriteResult false => Some l
  | _, _ => None
  end.
Fixpoint accepts (l : life) (t : list act) : option life :=
  match t with [] => Some l | a :: t => l ← life_step l a; accepts l t end.

Lemma accepts_app l t t' : accepts l (t ++ t') = l ← accepts l t; accepts l t'.
Proof. revert l. induction t as [|a t IH]; intros l; cbn; [done|]. by destruct (life_step l a); cbn. Qed.

(** The run has come to [l], with [p] in [proc]. *)
Definition at_life (l : life) (p : option (option Z)) (s : run) : Prop :=
  accepts Fresh (trace s) = Some l ∧ proc s = p.

Lemma wp_act l p a l' (Q : () → run → Prop) E s :
  at_life l p s → life_step l a = Some l' → (∀ s', at_life l' p s' → Q () s') → wp (act_ a) Q E s.
Proof. intros [Ht Hp] Hl HQ. apply HQ. split; [|done]. cbn [trace]. by rewrite accepts_app, Ht; cbn; rewrite Hl. Qed.
Lemma wp_set_proc l p p' (Q : () → run → Prop) E s :
  at_life l p s → (∀ s', at_life l p' s' → Q () s') → wp (set_proc p') Q E s.
Proof. intros [Ht Hp] HQ. apply HQ. by split. Qed.
Lemma wp_gone p rc (Q : () → run → Prop) E s :
  at_life Running p s → (∀ s', at_life Down (Some (Some rc)) s' → Q () s') → wp (gone rc) Q E s.
Proof.
  intros Hs HQ. apply wp_bind. eapply wp_act; [exact Hs|done|]. intros s' Hs'. by eapply wp_set_proc.
Qed.

(** A failed run: nothing was started, QEMU runs, or it is gone. *)
Definition failed (s : run) : Prop :=
  (∃ l, at_life l None s ∧ (l = Fresh ∨ l = Pinned ∨ l = Created ∨ l = Down))
  ∨ at_life Running (Some None) s ∨ ∃ rc, at_life Down (Some (Some rc)) s.

Lemma wp_polled {A} (m : res A) exits (Q : A → run → Prop) s :
  at_life Running (Some None) s → (∀ a, m = Ok a → Q a s) → wp (polled m exits) Q (λ _, failed) s.
Proof.
  intros Hs HQ. unfold polled. destruct m as [a|e]; [by apply wp_lift|].
  assert (wp (A:=A) (lift (Raise e)) Q (λ _, failed) s) as Hraise.
  { apply wp_lift; [done|]. intros _ _. right. by left. }
  destruct e; try exact Hraise. apply wp_bind. destruct (omap id exits) as [|rc ?].
  - apply wp_ret. exact Hraise.
  - eapply wp_gone; [exact Hs|]. intros s' Hs'. apply wp_lift; [done|]. intros _ _. right. right. eauto.
Qed.

(** One operation: its rule, and the state it leads to. *)
Ltac wp_step :=
  cbv beta;
  lazymatch goal with
  | |- wp (act_ _) _ _ _ => eapply wp_act; [eassumption|reflexivity|]; intros ? ?
  | |- wp (set_proc _) _ _ _ => eapply wp_set_proc; [eassumption|]; intros ? ?
  | |- wp (_ ≫= _) _ _ _ => apply wp_bind
  end; cbv beta.

Section life_cycle.
Variable resolve : list Z → list Z.
Variable is_file : list Z → bool.
Variable o : observed.
Variable mode : on_failure.
Context (out parent ramdisk template_path : list Z).
Context (shell_pattern : list byte → bool) (marker : list byte).

(** What a successful run has seen: the shell, the serial client's success,
    the install marker in what followed, and QEMU's clean exit. *)
Definition evidence : Prop :=
  (∃ position, wait_for_serial shell_pattern 0 [] (o_shell o) = Ok (true, position)
     ∧ ∃ position', wait_for_serial (install_marker marker) position [] (o_install o) = Ok (true, position'))
  ∧ o_client o = Ok 0 ∧ o_quit_wait o = Some 0 ∧ o_seal o = Ok ().

Lemma failed_none l s : at_life l None s → l = Fresh ∨ l = Pinned ∨ l = Created ∨ l = Down → failed s.
Proof. intros Hs Hl. left. eauto. Qed.
Lemma failed_running s : at_life Running (Some None) s → failed s.
Proof. intros Hs. right. by left. Qed.

Lemma quit_cleanly_wp (Q : () → run → Prop) s :
  at_life Running (Some None) s →
  (o_quit_wait o = Some 0 → ∀ s', at_life Down (Some (Some 0)) s' → Q () s') →
  wp (quit_cleanly o) Q (λ _, failed) s.
Proof.
  intros Hs HQ. unfold quit_cleanly. wp_step. wp_step. apply wp_bind, wp_lift; [|by intros; apply failed_running].
  intros _ _. destruct (o_quit_wait o) as [rc|]; [|by apply wp_lift; [|intros; apply failed_running]].
  apply wp_bind. eapply wp_gone; [eassumption|]. intros s2 Hs2. destruct (rc =? 0) eqn:E.
  - apply Z.eqb_eq in E as ->. apply wp_ret. by apply HQ.
  - apply wp_lift; [done|]. intros _ _. right. right. eauto.
Qed.

Lemma install_wp source_argv template_env environ s :
  at_life Fresh None s →
  wp (install resolve is_file o out parent ramdisk template_path shell_pattern marker source_argv template_env environ)
    (λ _ s', at_life Sealed None s' ∧ evidence) (λ _, failed) s.
Proof.
  intros Hs. unfold install.
  apply wp_bind, wp_lift; [intros paths _|by intros; eapply failed_none; eauto].
  apply wp_bind, wp_lift; [intros _ _|by intros; eapply failed_none; eauto].
  wp_step. wp_step. apply wp_bind, wp_lift; [intros _ _|by intros; eapply failed_none; eauto].
  wp_step. wp_step. apply wp_bind, wp_lift; [intros command _|by intros; eapply failed_none; eauto].
  destruct (existsb _ command); [by apply wp_lift; [|intros; eapply failed_none; eauto]|].
  destruct (negb _); [by apply wp_lift; [|intros; eapply failed_none; eauto]|].
  cbv zeta. wp_step. wp_step. apply wp_bind, wp_lift; [intros _ _|by intros; eapply failed_none; eauto].
  wp_step. wp_step. wp_step. wp_step.
  apply wp_bind, wp_polled; [done|]. intros _ _. apply wp_bind, wp_polled; [done|]. intros _ _.
  apply wp_bind, wp_polled; [done|]. intros [ready position] Hshell.
  destruct ready; cbn [negb]; [|by apply wp_lift; [|intros; apply failed_running]].
  destruct (o_time_left o); cbn [negb]; [|by apply wp_lift; [|intros; apply failed_running]].
  wp_step. wp_step. apply wp_bind, wp_lift; [intros rc Hrc|by intros; apply failed_running].
  destruct (rc =? 0) eqn:E; cbn [negb]; [apply Z.eqb_eq in E as ->|by apply wp_lift; [|intros; apply failed_running]].
  apply wp_bind, wp_polled; [done|]. intros [installed position'] Hinstall.
  destruct installed; cbn [negb]; [|by apply wp_lift; [|intros; apply failed_running]].
  apply wp_bind, quit_cleanly_wp; [done|]. intros Hquit s1 Hs1. wp_step. wp_step.
  apply wp_bind, wp_lift; [intros [] Hseal|by intros; eapply failed_none; eauto 6].
  wp_step. wp_step. eapply wp_act; [eassumption|reflexivity|]. intros s4 Hs4. split; [done|].
  split; [eauto|]. done.
Qed.

(** Where a failed run leaves the child. *)
Definition left_safe (l : life) : Prop :=
  l = Fresh ∨ l = Pinned ∨ l = Created ∨ l = Down ∨ (l = Paused ∧ mode = pause).

Lemma left_safe_down : left_safe Down.
Proof. unfold left_safe. auto. Qed.

Lemma terminate_wp i p (Q : () → run → Prop) s :
  at_life Running p s → (∀ rc s', at_life Down (Some (Some rc)) s' → Q () s') →
  wp (terminate_from o i) Q (λ e s', e = RuntimeError "TimeoutExpired" ∧ accepts Fresh (trace s') = Some Running) s.
Proof.
  intros Hs HQ. unfold terminate_from. wp_step. wp_step. destruct (waited o i) as [rc|].
  - eapply wp_gone; [eassumption|]. by apply HQ.
  - wp_step. wp_step. destruct (waited o (S i)) as [rc|].
    + eapply wp_gone; [eassumption|]. by apply HQ.
    + apply wp_lift; [done|]. intros e [= <-]. split; [done|]. by destruct H0.
Qed.

Lemma retain_failure_wp s :
  failed s →
  wp (retain_failure o mode) (λ _ s', ∃ l p, at_life l p s' ∧ left_safe l)
    (λ e s', e = RuntimeError "TimeoutExpired" ∧ accepts Fresh (trace s') = Some Running) s.
Proof.
  intros Hf. unfold retain_failure, wp. destruct Hf as [(l & Hs & Hl)|[Hs|[rc Hs]]]; pose proof Hs as [_ Hp]; rewrite Hp.
  - exists l, None. split; [done|]. unfold left_safe. tauto.
  - apply wp_bind. unfold poll, wp at 1. rewrite Hp. destruct (o_fail_poll o) as [rc|].
    + apply wp_bind. eapply wp_gone; [exact Hs|]. intros s1 Hs1. apply wp_ret, wp_ret.
      exists Down, (Some (Some rc)). split; [done|]. apply left_safe_down.
    + destruct (o_fail_command o) as [_|_]; [destruct mode eqn:Hmode|].
      * wp_step. wp_step. destruct (waited o 0) as [rc|].
        -- apply wp_bind. eapply wp_gone; [eassumption|]. intros s2 Hs2. apply wp_ret.
           exists Down, (Some (Some rc)). split; [done|]. apply left_safe_down.
        -- apply wp_bind. eapply terminate_wp; [eassumption|]. intros rc s2 Hs2. apply wp_ret.
           exists Down, (Some (Some rc)). split; [done|]. apply left_safe_down.
      * wp_step. wp_step. apply wp_ret. exists Paused, (Some None). split; [done|]. unfold left_safe. auto 6.
      * apply wp_bind. eapply terminate_wp; [eassumption|]. intros rc s2 Hs2. apply wp_ret.
        exists Down, (Some (Some rc)). split; [done|]. apply left_safe_down.
  - apply wp_bind. unfold poll, wp at 1. rewrite Hp. apply wp_ret.
    exists Down, (Some (Some rc)). split; [done|]. apply left_safe_down.
Qed.

(** C6: An install keeps to its life cycle.  Whatever the run observes, its
    actions are a path of the specification: inputs are pinned before the
    child exists, QEMU is started once, on the child, and the child is sealed
    only after that QEMU was seen to be gone.  Exit code 0 means sealed, and
    that the shell, the client's success, the install marker and a clean exit
    were observed; exit code 1 means not sealed, and QEMU never started, gone,
    or paused when pausing was asked for.  Only a QEMU that even a kill did not
    end is left running, and then [main] raises. *)
Theorem main_lifecycle source_argv template_env environ :
  match main resolve is_file o mode out parent ramdisk template_path shell_pattern marker
          source_argv template_env environ (Run [] None) with
  | (Ok rc, s) =>
      ∃ l, accepts Fresh (trace s) = Some l ∧ (rc = 0 ∧ l = Sealed ∧ evidence ∨ rc = 1 ∧ left_safe l)
  | (Raise e, s) => e = RuntimeError "TimeoutExpired" ∧ accepts Fresh (trace s) = Some Running
  end.
Proof.
  assert (at_life Fresh None (Run [] None)) as Hs by done.
  pose proof (install_wp source_argv template_env environ _ Hs) as H. unfold wp in H. unfold main.
  destruct (install _ _ _ _ _ _ _ _ _ _ _ _ _) as [[[]|e] s1].
  { destruct H as [[Hs1 _] Hev]. exists Sealed. split; [done|]. by left. }
  pose proof (retain_failure_wp s1 H) as Hr.
  assert (wp (_ ← retain_failure o mode; _ ← act_ (WriteResult false); mret 1)
    (λ rc s, ∃ l, accepts Fresh (trace s) = Some l ∧ (rc = 0 ∧ l = Sealed ∧ evidence ∨ rc = 1 ∧ left_safe l))
    (λ e s, e = RuntimeError "TimeoutExpired" ∧ accepts Fresh (trace s) = Some Running) s1) as Hw; [|exact Hw].
  apply wp_bind. unfold wp in *. destruct (retain_failure o mode s1) as [[r|e'] s2]; [|exact Hr].
  destruct Hr as (l & p & Hl & Hsafe). apply wp_bind. eapply wp_act; [exact Hl| |].
  - destruct Hsafe as [->|[->|[->|[->|[-> _]]]]]; reflexivity.
  - intros s3 [Hs3 _]. apply wp_ret. eauto.
Qed.
End life_cycle.

(** ** [boot_command] boots the child's disk and nothing else *)

Definition forbidden (x : list Z) : Prop := x ∈ dropped_pairs ∨ x ∈ dropped_flags.
(** Every [-drive] is followed by the child's. *)
Fixpoint drives_child (out : list Z) (argv : list (list Z)) : Prop :=
  match argv with
  | [] => True
  | key :: rest => (key = u "-drive" → head rest = Some (child_drive out)) ∧ drives_child out rest
  end.

Lemma child_drive_plain out : ¬ forbidden (child_drive out) ∧ child_drive out ≠ u "-drive".
Proof.
  unfold forbidden, child_drive. split; [|by intros [=]].
  intros [H|H]; repeat (apply elem_of_cons in H as [H|H]; [by injection H|]); by apply not_elem_of_nil in H.
Qed.

Lemma kept_from_spec fuel out argv :
  (length argv ≤ fuel)%nat →
  match kept_from fuel out argv with
  | Raise e => e = IndexError ∨ e = ValueError "unexpected non-ANS drive"
  | Ok kept => (∀ x, x ∈ kept → ¬ forbidden x) ∧ drives_child out kept
  end.
Proof.
  revert argv. induction fuel as [|fuel IH]; intros argv Hf; destruct argv as [|key rest]; cbn [kept_from length] in *; try lia.
  1, 2: split; [by intros x H%not_elem_of_nil|done].
  case_bool_decide as H1; [by apply IH; rewrite length_drop; lia|]. case_bool_decide as H2; [apply IH; lia|].
  assert (¬ forbidden key) as Hkey by (by intros [?|?]).
  case_bool_decide as H3.
  - destruct rest as [|spec rest]; [by left|]. destruct (negb _); [by right|]. cbn [length] in Hf.
    specialize (IH rest ltac:(lia)). destruct (kept_from fuel out rest) as [kept|e]; [|exact IH]. rewrite ok_bind.
    destruct IH as [Hk Hd]. destruct (child_drive_plain out) as [Hc Hcd]. split.
    + intros x Hx. rewrite !elem_of_cons in Hx. destruct Hx as [->|[->|Hx]]; auto.
    + cbn [drives_child head]. split; [done|]. split; [by intros ?|done].
  - specialize (IH rest ltac:(lia)). destruct (kept_from fuel out rest) as [kept|e]; [|exact IH]. rewrite ok_bind.
    destruct IH as [Hk Hd]. split; [|by split].
    intros x Hx. apply elem_of_cons in Hx as [->|Hx]; auto.
Qed.

(** The boot command starts the child's disk and nothing else.
    [boot_command] always ends: it raises on a drive without a value or one
    that is not the ANS disk, or gives the command whose options before the
    run's own endpoints hold no saved state, monitor, debugger stub, serial
    line or pause, and whose every [-drive] is the child's [disk.qcow2]. *)
Theorem boot_command_disk_only argv out :
  match boot_command argv out with
  | Raise e => e = IndexError ∨ e = ValueError "unexpected non-ANS drive"
  | Ok command =>
      ∃ kept, command = kept ++ endpoints_of out
        ∧ (∀ x, x ∈ kept → ¬ forbidden x) ∧ drives_child out kept
  end.
Proof.
  unfold boot_command. pose proof (kept_from_spec (length argv) out argv (le_n _)) as H.
  destruct (kept_from _ out argv) as [kept|e]; [|exact H]. rewrite ok_bind. eauto.
Qed.

(** A template that lists [id=ans] last is valid, and its drive is refused
    only once the run has begun. *)
Example ans_last_refused :
  let argv := map u ["q"; "-drive"; "if=none,file=/d,id=ans"] in
  ans_drive_path id argv = Ok (u "/d") ∧ boot_command argv (u "/o") = Raise (ValueError "unexpected non-ANS drive").
Proof. split; reflexivity. Qed.
(** The marker at the end of what has been read so far counts as a line of its
    own, whatever follows. *)
Example marker_of_partial_line :
  wait_for_serial (install_marker (b "DVM_DONE")) 0 [] [(Some (b "x" ++ [x0a] ++ b "DVM_DONE"), None)] = Ok (true, 10)
  ∧ install_marker (b "DVM_DONE") (b "x" ++ [x0a] ++ b "DVM_DONE_NOT" ++ [x0a]) = false.
Proof. split; reflexivity. Qed.
(** More than 65536 bytes after the marker in one read hide it. *)
Example marker_before_tail :
  (wait_for_serial (install_marker (b "DVM_DONE")) 0 []
     [(Some (b "DVM_DONE" ++ [x0a] ++ replicate (Z.to_nat 65536) x2e), None)]) = Ok (false, 65545).
Proof. vm_compute. reflexivity. Qed.

(** A run that succeeds. *)
Definition sample_observed : observed :=
  Observed (Ok ()) (Ok ()) (Ok ()) [(false, None); (true, None)] [(true, None)]
    [(None, None); (Some (b "boot" ++ [x0a] ++ b "# "), None)] true (Ok 0)
    [(Some (b "boot" ++ [x0a] ++ b "# "), None); (Some (b "boot" ++ [x0a] ++ b "# " ++ [x0a] ++ b "DVM_DONE" ++ [x0a]), None)]
    (Ok ()) (Some 0) (Ok ()) None (Ok ()) [].
Example sample_install :
  let '(rc, s) := main id (λ _, true) sample_observed quit (u "/o") (u "/p") (u "/r") (u "/t") (contains (b "# ")) (b "DVM_DONE")
      (map u ["q"; "-drive"; "if=none,id=ans,file=/p"; "-ramdisk"; "/r"]) [] [] (Run [] None) in
  rc = Ok 0 ∧ last (trace s) = Some (WriteResult true).
Proof. vm_compute. split; reflexivity. Qed.
