(* ===== verification/Profile.v ===== *)
(** * Baseline profiles: [tools/rootfs/bootstrap_profile.py]

    The two baseline profiles: the guarded regions of the shared caches, the
    installer script run in the guest, the QEMU command lines, the verdict on
    an observed boot and the stages of [main].  Building helpers, signing,
    copying and mounting are calls to other programs; their results are what
    the plan and the stages are functions of. *)

From stdpp Require Import base tactics list list_numbers sets strings sorting.
From Stdlib Require Import Strings.Byte.
From S2P Require Import Prelude PyBytes PyStr PyDict PyShlex Sha256 TrustCache CodeSign.
Open Scope Z_scope.

Definition CACHE_ROOT : list Z := u "/System/Library/Caches/com.apple.dyld/".
Definition POWERD : list Z := u "/System/Library/CoreServices/powerd.bundle/powerd".
Definition LAUNCHD : list Z := u "/System/Library/xpc/launchd.plist".
Definition BOOTARGS : list Z :=
  u "ignition_level=1 launchd_unsecure_cache=1 serial=3 -v wdt=-1 wlan-olyhal-abort".

(** ** Environment and configuration *)

Definition env_t : Type := list (list Z * list Z).

Definition stage_variables : list (list Z) :=
  map u ["START_AT"; "SEED_ONLY"; "RESTORE_RAMDISK"; "RESTORE_RAMDISK_BASE"; "RESTORE_RAMDISK_OUT";
         "RESTORE_HELPER_SOURCE"; "SEED_HELPER"; "SEED_HELPER_TC"; "NO_WATCHDOG"; "STALL_SECS";
         "STALL_AFTER_PANIC"; "NATIVE_RTC"; "HELPER_SRC"].
Definition clean_env (environ : env_t) : env_t :=
  filter (λ e, negb (startswith (u "DARWIN_") e.1 || startswith (u "DVM_") e.1 || startswith (u "GXFSTAT_") e.1)
               && negb (bool_decide (e.1 ∈ stage_variables)) = true) environ.

Definition DISPLAY_ENV : env_t :=
  [(u "DARWIN_DCP_EPIC", u "all"); (u "DARWIN_DCP_REPLY", u "1"); (u "DARWIN_DCP_IOMFB", u "4");
   (u "DARWIN_DCP_IOMFB_COMPLETE", u "1"); (u "DARWIN_DCP_IOMFB_SCANOUT", u "1");
   (u "DARWIN_DCP_IOMFB_RPC_TRACE", u "0"); (u "DARWIN_DCP_IOMFB_CB", u "D120::4,D586:9b040000fc090000:4");
   (u "DARWIN_DCP_IOMFB_OUT",
    u "A401=01,A000=01,A454=01000000,A033=4152474200000000000000000000000000000000000000000000000000000000000000000000000001000000,A453=9b040000fc090000,A412=01000000"); (u "DARWIN_PAUTH_CACHE", u "on")].

Record config := Config {
  c_profile : list Z; c_cpus : Z; c_env : env_t; development_activation : bool;
  userspace_patches : list (list Z); runtime_helpers : list (list Z); kernel_adapters : list (list Z);
  clock_source : list Z; setup_completion : list Z; saved_ram : bool;
}.
Definition profile_config (profile : list Z) (activation : bool) : res config :=
  raise_if negb (bool_decide (profile = u "native") || bool_decide (profile = u "patched"))
    with ValueError "unknown profile";;
  let patched := bool_decide (profile = u "patched") in
  let env := dset (u "DARWIN_RTC_PV") (u "0") DISPLAY_ENV in
  let env := if patched then dset (u "DARWIN_SMP_PV") (u "1") env else env in
  Ok (Config profile (if patched then 6 else 1) env activation
        (if patched then map u ["display-allocation"; "settings-scale"; "clock-label-and-non-glass"; "powerd-null-guard"] else [])
        (if patched then map u ["input"; "power-pv-service"] else [])
        (if patched then [u "smp-pv"] else [])
        (u "native-spmi-pmu") (u "unchanged") false).

(** The first of [specs()]; the others are read from files. *)
Definition allocation_spec : edit_spec :=
  EditSpec (u "dyld_shared_cache_arm64e.01") (Some (u "Reviewed software-display allocation policy"))
    [EditItem (inr OFFSET) (hex_of_bytes EXPECTED) (hex_of_bytes (ztake 8 EXPECTED ++ REPLACEMENT ++ zdrop 12 EXPECTED))].

(** ** [cache_payload] *)

(** A region: its offset, the bytes before and the bytes after. *)
Definition region : Type := Z * list byte * list byte.

Section cache.
Context (cache signature : list byte) (edits : list edit) (base : Z).

(** One edited page: the whole page and its signature slot. *)
Definition page_regions (st : list byte * list region) (page_index : Z) : res (list byte * list region) :=
  let '(cd, regions) := st in
  let before := slice (page_index * PAGE_SIZE) (page_index * PAGE_SIZE + PAGE_SIZE) cache in
  '(_, _, slot) ← parse_code_directory signature page_index 0;
  let old_hash := slice slot (slot + 32) cd in
  raise_if negb (zlen before =? PAGE_SIZE) || negb (bool_decide (sha256 before = old_hash))
    with ValueError "original signed page mismatch";;
  let after := foldl (apply_in_page page_index) before edits in
  let new_hash := sha256 after in
  Ok (zsplice slot new_hash cd,
      regions ++ [(page_index * PAGE_SIZE, before, after); (base + slot, old_hash, new_hash)]).
End cache.

Definition cache_payload (cache : list byte) (spec : edit_spec) : res (list region * list Z) :=
  let header := slice 0 4096 cache in
  raise_if negb (zlen header =? 4096) || negb (startswith (b "dyld") header) with ValueError "invalid shared cache";;
  offset ← unpack_from_Q header 0x28;
  size ← unpack_from_Q header 0x30;
  raise_if (32 * 1024 * 1024 <? size) || (zlen cache <? offset + size) with ValueError "invalid signature bounds";;
  let signature := slice offset (offset + size) cache in
  edits ← reviewed_edits spec cache;
  '(cd, cd_offset, _) ← parse_code_directory signature 0
      (foldr (λ e m, Z.max (CodeSign.offset e + zlen (before e)) m) 0 edits);
  '(cd, regions) ← res_foldl (page_regions cache signature edits (offset + cd_offset))
      (cd, [(0, header, header)]) (edited_pages edits);
  Ok (regions, ztake 40 (sha256_hex cd)).

(** ** Launch services *)

Section launchd.
(** A property list value and [str] of it. *)
Context {V : Type} (str : V → list Z).

(** [original_launchd] of a parsed cache: [LaunchDaemons] is [None] when the
    cache or that entry is no dictionary. *)
Definition original_launchd (daemons : option (list (list Z * V))) : res (list (list Z * V)) :=
  match daemons with
  | None => Raise (ValueError "unsupported launchd cache")
  | Some d =>
      raise_if existsb (λ e, contains (u "dvm-") e.1 || contains (u "dvm-") (str e.2)) d
        with ValueError "launchd preimage already contains dvm services";;
      Ok d
  end.
End launchd.

Inductive pval := PStr (s : list Z) | PBool (v : bool) | PInt (v : Z) | PArray (l : list pval).
(** [service(name)] for a name other than [input]. *)
Definition service (name : list Z) : list (list Z * pval) :=
  [(u "Label", PStr (u "com.apple.dvm-" ++ name));
   (u "ProgramArguments", PArray [PStr (u "/usr/local/libexec/dvm-" ++ name)]);
   (u "RunAtLoad", PBool true); (u "KeepAlive", PBool true); (u "ThrottleInterval", PInt 30);
   (u "UserName", PStr (u "root")); (u "ProcessType", PStr (u "Interactive"));
   (u "StandardOutputPath", PStr (u "/dev/console")); (u "StandardErrorPath", PStr (u "/dev/console"))].

(** ** [installer_script] *)

(** A checked or written region: the target, the payload, and the offset and
    length of a part of the file ([None]: the whole file). *)
Record item := Item { i_target : list Z; i_payload : list Z; i_offset : option Z; i_length : Z }.
Record addition := Addition { a_target : list Z; a_payload : list Z; a_mode : list Z }.

Definition q : Z := 34.
Definition on_mount (target : list Z) : list Z := quote (u "/mnt1" ++ target).
(** How the script reads a region back. *)
Definition read_command (target : list Z) (offset : option Z) (length : Z) : list Z :=
  match offset with
  | None => u "cksum < " ++ target
  | Some o => u "dd if=" ++ target ++ u " bs=1 skip=" ++ dec o ++ u " count=" ++ dec length ++ u " 2>/dev/null | cksum"
  end.
Definition test_line (read payload : list Z) : list Z :=
  u "test " ++ [q] ++ u "$(" ++ read ++ u ")" ++ [q] ++ u " = " ++ [q] ++ u "$(cksum < /libexec/" ++ payload ++ u ")" ++ [q].
Definition check_line (c : item) : list Z :=
  test_line (read_command (on_mount (i_target c)) (i_offset c) (i_length c)) (i_payload c).
Definition absent_line (a : addition) : list Z := u "test ! -e " ++ on_mount (a_target a).
Definition write_lines (w : item) : list (list Z) :=
  let target := on_mount (i_target w) in
  match i_offset w with
  | None => [u "cp /libexec/" ++ i_payload w ++ u " " ++ target; u "chown 0:0 " ++ target]
  | Some o => [u "dd if=/libexec/" ++ i_payload w ++ u " of=" ++ target ++ u " bs=1 seek=" ++ dec o ++ u " count="
                 ++ dec (i_length w) ++ u " conv=notrunc 2>/dev/null"]
  end ++ [check_line w].
Definition addition_lines (a : addition) : list (list Z) :=
  let target := on_mount (a_target a) in
  [u "cp /libexec/" ++ a_payload a ++ u " " ++ target; u "chmod " ++ a_mode a ++ u " " ++ target;
   u "chown 0:0 " ++ target; test_line (u "cksum < " ++ target) (a_payload a)].

Definition preamble (patched : bool) : list (list Z) :=
  [u "#!/bin/sh"; u "set -eu";
   u "mount_apfs " ++ (if patched then [] else u "-o ro ") ++ u "/dev/disk1s1 /mnt1";
   u "root=/mnt1";
   u "test -s " ++ [q] ++ u "$root/usr/lib/libobjc-trampolines.dylib" ++ [q];
   u "test -s " ++ [q] ++ u "$root/usr/lib/libramrod.dylib" ++ [q];
   u "for p in " ++ [q] ++ u "$root" ++ [q] ++ u "/usr/local/libexec/dvm-* " ++ [q] ++ u "$root" ++ [q]
     ++ u "/System/Library/LaunchDaemons/com.apple.dvm-*.plist; do";
   u "    test ! -e " ++ [q] ++ u "$p" ++ [q]; u "done"].

Definition script_lines (checks writes : list item) (additions : list addition) (patched : bool) : list (list Z) :=
  preamble patched
  ++ map check_line checks
  ++ map absent_line additions
  ++ [u "echo DVM_PROFILE_PREIMAGES_VERIFIED"]
  ++ (if patched
      then [u "mkdir -p " ++ [q] ++ u "$root/usr/local/libexec" ++ [q]]
           ++ concat (map write_lines writes) ++ concat (map addition_lines additions)
      else [])
  ++ [u "sync"; u "echo DVM_PROFILE_INSTALLED"].
Definition installer_script (checks writes : list item) (additions : list addition) (patched : bool) : list Z :=
  join1 10 (script_lines checks writes additions patched) ++ [10].

(** ** The plan of [prepare] *)

Record record := Rec { rec_spec : edit_spec; rec_applied : bool; rec_cdhash : list Z }.
Record plan := Plan {
  p_checks : list item; p_writes : list item; p_additions : list addition;
  p_hashes : list (list Z); p_records : list record; p_files : list (list Z * list byte);
}.
Definition empty_plan : plan := Plan [] [] [] [] [] [].

(** [add]: the preimage is always checked; the write only when it differs. *)
Definition add (p : plan) (target : list Z) (before : list byte) (after : option (list byte)) (offset : option Z) : plan :=
  let name := u "profile-" ++ dec (zlen (p_checks p)) in
  let files := dset (name ++ u "-before") before (p_files p) in
  let checks := p_checks p ++ [Item target (name ++ u "-before") offset (zlen before)] in
  match after with
  | Some a =>
      if bool_decide (before = a) then Plan checks (p_writes p) (p_additions p) (p_hashes p) (p_records p) files
      else Plan checks (p_writes p ++ [Item target (name ++ u "-after") offset (zlen a)])
             (p_additions p) (p_hashes p) (p_records p) (dset (name ++ u "-after") a files)
  | None => Plan checks (p_writes p) (p_additions p) (p_hashes p) (p_records p) files
  end.

Definition add_region (target : list Z) (patched : bool) (p : plan) (r : region) : plan :=
  add p target r.1.2 (if patched then Some r.2 else None) (Some r.1.1).
(** One shared cache. *)
Definition add_spec (patched : bool) (p : plan) (sc : edit_spec * list byte) : res plan :=
  let '(spec, cache) := sc in
  '(regions, cdhash) ← cache_payload cache spec;
  let p := foldl (add_region (CACHE_ROOT ++ cache_name spec) patched) p regions in
  Ok (Plan (p_checks p) (p_writes p) (p_additions p)
        (if patched then p_hashes p ++ [cdhash] else p_hashes p)
        (p_records p ++ [Rec spec patched cdhash]) (p_files p)).

(** [re.search(r'^CDHash=([0-9a-f]{40})$', info, re.M).group(1)]. *)
Definition cdhash_line (line : list Z) : option (list Z) :=
  let h := zdrop 7 line in
  if startswith (u "CDHash=") line && (zlen h =? 40)
     && forallb (λ c, is_digit c || ((97 <=? c) && (c <=? 102))) h
  then Some h else None.
Definition cdhash_of (info : list Z) : res (list Z) :=
  opt_or (head (omap cdhash_line (split1 10 info))) AttributeError.

(** The job files and binaries of a helper. *)
Definition helper_additions (name : list Z) : list addition :=
  [Addition (u "/System/Library/LaunchDaemons/com.apple.dvm-" ++ name ++ u ".plist") (u "profile-" ++ name ++ u ".plist") (u "644");
   Addition (u "/usr/local/libexec/dvm-" ++ name) (u "profile-" ++ name) (u "755")].

(** The plan; [info] is what [codesign] prints about the patched powerd, and
    [daemons] the parsed launchd cache, of the patched profile. *)
Definition prepare {V} (str : V → list Z) (patched : bool) (specs : list (edit_spec * list byte))
    (powerd launchd : list byte) (info : list Z) (daemons : option (list (list Z * V))) : res plan :=
  p ← res_foldl (add_spec patched) empty_plan specs;
  let p := add p POWERD powerd None None in
  let p := add p LAUNCHD launchd None None in
  if patched then
    h ← cdhash_of info;
    _ ← original_launchd str daemons;
    Ok (Plan (p_checks p)
          (p_writes p ++ [Item POWERD (u "profile-powerd") None 0] ++ [Item LAUNCHD (u "profile-launchd") None 0])
          (p_additions p ++ helper_additions (u "input") ++ helper_additions (u "power-pv-service"))
          (p_hashes p ++ [h]) (p_records p) (p_files p))
  else Ok p.
(** [hashes.txt]. *)
Definition hashes_text (p : plan) : list Z := join1 10 (p_hashes p) ++ [10].
Definition plan_script (p : plan) (patched : bool) : list Z :=
  installer_script (p_checks p) (p_writes p) (p_additions p) patched.

(** The options of the two device trees. *)
Definition dt_options (nvram : list Z) (activation : bool) (system : bool) : list (list Z) :=
  [u "-nvram"; nvram; u "-enable"; u "ans"; u "-enable"; u "smc"; u "-enable"; u "sep"; u "-dram"; u "12G"; u "-enable"; u "spmi"]
  ++ (if system then [u "-enable"; u "dcp"] ++ (if activation then [u "-development-activation"] else []) else []).

(** ** The machine *)

Definition path (dir name : list Z) : list Z := dir ++ u "/" ++ name.
Definition machine (qemu firmware out disk : list Z) (cpus : Z) (restore : bool) : list (list Z) :=
  [qemu; u "-M"; u "darwin"; u "-bootkc"; if restore then path firmware (u "bootkc") else path out (u "bootkc");
   u "-dtree"; path out (if restore then u "restore.dtree" else u "system.dtree");
   u "-tc"; if restore then path firmware (u "ramdisk.tc") else path out (u "system.tc");
   u "-ramdisk"; path firmware (u "ramdisk.dmg");
   u "-args"; (if restore then u "rd=md0 " else u "rootdev=disk1s1 ") ++ BOOTARGS;
   u "-display"; u "none"; u "-m"; u "12G"; u "-sptm"; path firmware (u "sptm");
   u "-txm"; path firmware (u "txm"); u "-smp"; if restore then u "1" else dec cpus;
   u "-accel"; u "tcg,thread=multi"; u "-fb"; u "1179x2556"; u "-fbmode"; u "graphics";
   u "-drive"; u "if=none,id=ans,file=" ++ disk ++ u ",format=qcow2"].
(** The environment of the restore launch. *)
Definition restore_env : env_t := [(u "DARWIN_RTC_PV", u "0")].
(** [argv[argv.index(key) + 1]]. *)
Fixpoint value_after (key : list Z) (argv : list (list Z)) : res (list Z) :=
  match argv with
  | [] => Raise (ValueError "not in list")
  | a :: rest => if bool_decide (a = key) then opt_or (head rest) IndexError else value_after key rest
  end.
(** The files [manifest] pins. *)
Definition manifest_paths (qemu : list Z) (argv : list (list Z)) : res (list (list Z)) :=
  vs ← res_map (λ k, value_after k argv) (map u ["-bootkc"; "-dtree"; "-tc"; "-ramdisk"; "-sptm"; "-txm"]);
  Ok (qemu :: vs).

(** ** [verdict] *)

(** [re.search(prefix + '.*' + word, text)]: both on one line, in order. *)
Fixpoint before_newline (s : list Z) : list Z :=
  match s with [] => [] | c :: s => if c =? 10 then [] else c :: before_newline s end.
Fixpoint on_line (prefix word s : list Z) : bool :=
  (startswith prefix s && contains word (before_newline (zdrop (zlen prefix) s)))
  || match s with [] => false | _ :: s => on_line prefix word s end.

Definition required_texts : list (list Z) :=
  map u ["BSD root: disk1s1"; "Early boot complete"; "mount-complete volume Preboot"; "mount-complete volume Hardware";
         "disk1s5 mount-complete volume User"; "AppleARMRTC publishing service!"; "AppleDialogSPMIPMURTC started!"].
Definition failure_texts : list (list Z) :=
  map u ["panic(cpu"; "rebooting due to critical process crashes"; "Copying "; "rejected unsupported"].
Record verdict_t := Verdict {
  storage_pass : bool; missing : list (list Z); failures : list (list Z); validation_pass : bool; display_observed : bool;
}.
Definition verdict (serial stderr profile : list Z) : verdict_t :=
  let missing := filter (λ s, contains s serial = false) required_texts
    ++ (if on_line (u "/dev/disk1s2 on /private/var ") (u "protect") serial then [] else [u "protected Data mount"])
    ++ (if on_line (u "handle_mount:893: disk1s2 ") (u "encrypted") serial then [] else [u "encrypted Data mount"]) in
  let failures := filter (λ s, contains s (serial ++ stderr) = true) failure_texts in
  let display := contains (u "iomfb: presented ") stderr in
  let pass := bool_decide (missing = []) && bool_decide (failures = []) in
  Verdict pass missing failures (pass && (bool_decide (profile = u "native") || display)) display.

(** ** [main] *)

(** What [main] looks at before it builds anything. *)
Record inputs := Inputs {
  in_out : list Z; in_out_exists : bool; in_boot_seconds : Z;
  in_base_image : option (list Z); in_parent : option (list Z); in_exclave : option (list Z);
  in_firmware : list Z; in_repo_firmware : list Z; in_qemu_img_name : list Z;
  in_is_file : list Z → bool; in_required : list (list Z);
  in_format : list Z; in_parent_mode : Z;
  in_bootkc_sha : list Z; in_powerd_sha : list Z; in_qemu_binary : list byte;
}.
Definition parser_err {A} (msg : string) : res A := Raise (SystemExit msg).

Definition main_guards (kc_sha powerd_sha : list Z) (a : inputs) : res () :=
  if in_out_exists a || negb ((1 <=? in_boot_seconds a) && (in_boot_seconds a <=? 600))
  then parser_err "--out must be new and --boot-seconds must be 1..600" else
  encoded ← utf8_encode (in_out a ++ u "/install/monitor.sock");
  if (104 <=? zlen encoded) || existsb (λ c, (c =? 44) || is_space c) (in_out a)
  then parser_err "--out must fit macOS socket paths and contain no comma/whitespace" else
  source ← opt_or (match in_base_image a with Some p => Some p | None => in_parent a end) (TypeError "no source");
  if existsb (λ c, bool_decide (c ∈ [44; 10; 13])) source
  then parser_err "source disk path must contain no comma/newline" else
  _ ← match in_base_image a with
      | None => Ok ()
      | Some _ =>
          if bool_decide (in_exclave a = None) then parser_err "--base-image requires --exclave"
          else if negb (bool_decide (in_firmware a = in_repo_firmware a))
          then parser_err "--base-image currently requires the checkout firmware directory" else Ok ()
      end;
  if negb (forallb (in_is_file a)
             (source :: in_required a
              ++ match in_base_image a, in_exclave a with Some _, Some e => [e] | _, _ => [] end))
  then parser_err "missing explicit inputs" else
  if negb (bool_decide (in_qemu_img_name a = u "qemu-img"))
  then parser_err "--qemu-img must be named qemu-img (shared installer resolves it through PATH)" else
  if negb (bool_decide (in_format a = match in_base_image a with Some _ => u "raw" | None => u "qcow2" end))
  then parser_err "selected source must have the expected format" else
  if (match in_parent a with Some _ => negb (Z.land (in_parent_mode a) 0x92 =? 0) | None => false end)
  then parser_err "--parent must already be read-only; do not use a live writable disk" else
  if negb (bool_decide (in_bootkc_sha a = kc_sha) && bool_decide (in_powerd_sha a = powerd_sha))
  then parser_err "requires the reviewed 24A5430a bootkc and original powerd" else
  if negb (contains (b "darwin-spmi") (in_qemu_binary a) && contains (b "darwin-pmu") (in_qemu_binary a))
  then parser_err "QEMU binary lacks native SPMI/PMU RTC support; build the current pinned submodule" else Ok ().

(** The stages after the guards, and what they do to the disks. *)
Inductive status := Preparing | PreparedNotInstalled | InstalledNotValidated | ValidatedTwoBoots | Failed.
Inductive disk_act :=
  | Install (parent disk : list Z)
  | CreateOn (backing child : list Z)
  | Boot (child : list Z)
  | Seal (child : list Z)
  | Manifest (name disk : list Z).

(** One validation boot per observation: the serial and stderr logs. *)
Fixpoint boot_rounds (out profile : list Z) (index : Z) (disk : list Z) (logs : list (list Z * list Z))
    : list disk_act * list verdict_t * res (list Z) :=
  match logs with
  | [] => ([], [], Ok disk)
  | (serial, stderr) :: logs =>
      let child := out ++ u "/boot" ++ dec index ++ u "/disk.qcow2" in
      let v := verdict serial stderr profile in
      let acts := [CreateOn disk child; Boot child; Seal child] in
      if negb (validation_pass v) then (acts, [v], Raise (RuntimeError "boot failed storage/display validation; candidate retained"))
      else let '(acts', vs, r) := boot_rounds out profile (index + 1) child logs in (acts ++ acts', v :: vs, r)
  end.

Definition main_stages (out profile parent : list Z) (prepared : res plan) (prepare_only : bool)
    (seeded installed : res ()) (logs : list (list Z * list Z))
    : status * list disk_act * list verdict_t :=
  match prepared with
  | Raise _ => (Failed, [], [])
  | Ok _ =>
      if prepare_only then (PreparedNotInstalled, [], [])
      else match seeded, installed with
           | Raise _, _ => (Failed, [], [])
           | _, Raise _ => (Failed, [Install parent (out ++ u "/install/disk.qcow2")], [])
           | _, _ =>
               let disk := out ++ u "/install/disk.qcow2" in
               let '(acts, vs, r) := boot_rounds out profile 1 disk (ztake 2 logs) in
               let acts := [Install parent disk; Manifest (u "candidate.json") disk] ++ acts in
               match r with
               | Raise _ => (Failed, acts, vs)
               | Ok last => (ValidatedTwoBoots, acts ++ [Manifest (u "baseline.json") last], vs)
               end
           end
  end.

(** ** The script *)

(** The commands that change the System volume. *)
Definition writes_system (line : list Z) : bool :=
  startswith (u "cp ") line || startswith (u "chown ") line || startswith (u "chmod ") line
  || startswith (u "mkdir ") line || startswith (u "dd if=/libexec/") line.

Lemma checks_write_nothing checks additions patched :
  Forall (λ l, writes_system l = false) (preamble patched ++ map check_line checks ++ map absent_line additions).
Proof.
  rewrite !Forall_app. split_and!.
  - destruct patched; repeat (constructor; [reflexivity|]); constructor.
  - apply Forall_fmap, Forall_forall. intros c _. cbn. unfold check_line, test_line. reflexivity.
  - apply Forall_fmap, Forall_forall. intros a _. reflexivity.
Qed.

(** Nothing is written before everything is checked.  The installer script
    is, line by line, a first part, the line that reports the verified
    preimages, and a rest.  No line of the first part changes the System
    volume; it stops at the first failing command, and holds the preimage test
    of every checked region and the absence test of every added file.  For the
    native profile the volume is mounted read-only and no line of the whole
    script changes it; for the patched one every written region and every
    added file is read back and compared after it is written. *)
Theorem installer_checks_first checks writes additions patched :
  ∃ first rest,
    script_lines checks writes additions patched = first ++ [u "echo DVM_PROFILE_PREIMAGES_VERIFIED"] ++ rest
    ∧ (∃ more, first = [u "#!/bin/sh"; u "set -eu"] ++ more)
    ∧ Forall (λ l, writes_system l = false) first
    ∧ (∀ c, c ∈ checks → check_line c ∈ first)
    ∧ (∀ a, a ∈ additions → absent_line a ∈ first)
    ∧ (patched = false → u "mount_apfs -o ro /dev/disk1s1 /mnt1" ∈ first ∧ Forall (λ l, writes_system l = false) rest)
    ∧ (patched = true →
         (∀ w, w ∈ writes → ∃ l1 l2, rest = l1 ++ write_lines w ++ l2 ∧ List.last (write_lines w) [] = check_line w)
         ∧ (∀ a, a ∈ additions → ∃ l1 l2, rest = l1 ++ addition_lines a ++ l2)).
Proof.
  exists (preamble patched ++ map check_line checks ++ map absent_line additions),
    ((if patched then [u "mkdir -p " ++ [q] ++ u "$root/usr/local/libexec" ++ [q]]
           ++ concat (map write_lines writes) ++ concat (map addition_lines additions) else [])
     ++ [u "sync"; u "echo DVM_PROFILE_INSTALLED"]).
  split; [unfold script_lines; by rewrite <-!app_assoc|]. split; [eexists; reflexivity|].
  split; [apply checks_write_nothing|]. split; [|split; [|split]].
  - intros c Hc. rewrite !elem_of_app. right. left. apply list_elem_of_fmap. eauto.
  - intros a Ha. rewrite !elem_of_app. right. right. apply list_elem_of_fmap. eauto.
  - intros ->. split; [|repeat (constructor; [reflexivity|]); constructor].
    rewrite elem_of_app. left. by apply (list_elem_of_lookup_2 _ 2).
  - intros ->. split.
    + intros w Hw. apply list_elem_of_lookup in Hw as [i Hi].
      pose proof (take_drop_middle _ _ _ Hi) as <-. rewrite map_app, concat_app. cbn [map concat].
      eexists ([_] ++ concat (map write_lines (take i writes))), _. split; [by rewrite <-!app_assoc|].
      unfold write_lines. apply last_last.
    + intros a Ha. apply list_elem_of_lookup in Ha as [i Hi].
      pose proof (take_drop_middle _ _ _ Hi) as <-. rewrite (map_app addition_lines), (concat_app (map addition_lines _)). cbn [map concat].
      eexists ([_] ++ concat (map write_lines writes) ++ concat (map addition_lines (take i additions))), _.
      by rewrite <-!app_assoc.
Qed.

(** ** The guarded regions *)

Definition in_cache (cache : list byte) (r : region) : Prop :=
  0 ≤ r.1.1 ∧ slice r.1.1 (r.1.1 + zlen r.1.2) cache = r.1.2 ∧ zlen r.1.2 = zlen r.2.
(** The two regions of an edited page. *)
Definition signs_page (cache : list byte) (edits : list edit) (p : Z) (rs : list region) : Prop :=
  ∃ o, rs = [(p * PAGE_SIZE, page p cache, page p (apply_edits edits cache));
             (o, sha256 (page p cache), sha256 (page p (apply_edits edits cache)))].

Section regions.
Context (cache signature cd0 : list byte) (edits : list edit) (o cd_offset : Z).
Hypothesis (Hedits : Forall (in_page (zlen cache)) edits) (Ho : 0 ≤ o) (Hcd : 0 ≤ cd_offset).
Hypothesis (Hsig : ∀ a c, 0 ≤ a → c ≤ zlen signature → slice a c signature = slice (o + a) (o + c) cache).
Hypothesis (Hparse : ∀ p d x slot, 0 ≤ p → parse_code_directory signature p 0 = Ok (d, x, slot) →
  d = cd0 ∧ cd0 = slice cd_offset (cd_offset + zlen cd0) signature ∧ 44 ≤ slot ∧ slot + 32 ≤ zlen cd0
  ∧ cd_offset + zlen cd0 ≤ zlen signature).
Hypothesis (Hapart : ∀ p p' d d' x x' slot slot', 0 ≤ p → parse_code_directory signature p 0 = Ok (d, x, slot) →
  parse_code_directory signature p' 0 = Ok (d', x', slot') → p < p' → slot + 32 ≤ slot').

(** The slots still to come are the cache's. *)
Definition untouched (ps : list Z) (cd : list byte) : Prop :=
  zlen cd = zlen cd0
  ∧ ∀ p d x slot, p ∈ ps → parse_code_directory signature p 0 = Ok (d, x, slot) →
      slice slot (slot + 32) cd = slice slot (slot + 32) cd0.

Lemma page_regions_spec cd regions p ps st :
  0 ≤ p → Forall (Z.lt p) ps → untouched (p :: ps) cd →
  page_regions cache signature edits (o + cd_offset) (cd, regions) p = Ok st →
  ∃ rs, st.2 = regions ++ rs ∧ signs_page cache edits p rs ∧ Forall (in_cache cache) rs ∧ untouched ps st.1.
Proof using All.
  intros Hp Hps [Hlen Hun] H. unfold page_regions in H. simpl_res. rename Hr into Hslot, l into d, z0 into x, z into slot.
  apply orb_false_iff in Hif as [Hpage%negb_false_iff Hhash%negb_false_iff].
  apply bool_decide_eq_true in Hhash. apply Z.eqb_eq in Hpage. fold (page p cache) in *.
  destruct (Hparse _ _ _ _ Hp Hslot) as (_ & Hcd0 & Hs1 & Hs2 & Hs3).
  assert (slice slot (slot + 32) cd = slice slot (slot + 32) cd0) as Hslice
    by (apply (Hun p d x slot); [by apply list_elem_of_here|done]). rewrite Hslice in *.
  assert (p * PAGE_SIZE + PAGE_SIZE ≤ zlen cache) as Hc.
  { unfold page, PAGE_SIZE in *. rewrite zlen_slice in Hpage by lia. lia. }
  destruct (apply_edits_page p edits cache Hp Hedits Hc) as [Hafter _]. rewrite <-Hafter.
  assert (zlen (page p (apply_edits edits cache)) = PAGE_SIZE) as Hpage'.
  { unfold page, PAGE_SIZE in *. rewrite zlen_slice, zlen_apply_edits by (done || lia). lia. }
  eexists. split; [done|]. split; [exists (o + cd_offset + slot); by rewrite Hhash|]. split.
  - repeat constructor; cbn [fst snd]; unfold PAGE_SIZE in *; try lia.
    + unfold page at 1 2. unfold page in Hpage. rewrite Hpage. done.
    + rewrite zlen_slice by lia. replace (Z.max 0 _) with 32 by lia.
      rewrite Hcd0 at 1. rewrite slice_slice, Hsig by lia. f_equal; lia.
    + rewrite <-Hhash, !zlen_sha256. done.
  - cbn [fst]. split; [rewrite zlen_zsplice; rewrite ?zlen_sha256; lia|].
    intros p' d' x' slot' Hin Hslot'. apply (proj1 (Forall_forall _ _) Hps) in Hin as Hlt.
    pose proof (Hapart _ _ _ _ _ _ _ _ Hp Hslot Hslot' Hlt).
    rewrite slice_zsplice_ne by (rewrite ?zlen_sha256; lia). apply (Hun p' d' x'); [|done]. by right.
Qed.

Lemma all_page_regions cd regions ps st :
  Forall (λ p, 0 ≤ p) ps → StronglySorted Z.lt ps → untouched ps cd →
  res_foldl (page_regions cache signature edits (o + cd_offset)) (cd, regions) ps = Ok st →
  ∃ rss, st.2 = regions ++ concat rss ∧ Forall2 (signs_page cache edits) ps rss ∧ Forall (Forall (in_cache cache)) rss.
Proof using All.
  intros Hps Hsort. revert cd regions Hps. induction Hsort as [|p ps Hsort IH Hlt]; intros cd regions Hps Hun H; cbn in H.
  - injection H as <-. exists []. by rewrite app_nil_r.
  - apply bind_Ok in H as ([cd1 regions1] & H1 & H2). apply Forall_cons in Hps as [Hp Hps].
    destruct (page_regions_spec _ _ _ _ _ Hp Hlt Hun H1) as (rs & Hrs & Hsign & Hin & Hun'). cbn in Hrs, Hun'. subst regions1.
    destruct (IH _ _ Hps Hun' H2) as (rss & -> & Hall & Hall'). exists (rs :: rss).
    split; [by rewrite <-app_assoc|]. split; by constructor.
Qed.
End regions.

Lemma unpack_from_Q_nonneg l o z : unpack_from_Q l o = Ok z → 0 ≤ z.
Proof.
  unfold unpack_from_Q, unpack_from_u, unpack_u. intros H. simpl_res.
  match goal with |- 0 ≤ le_Z ?k => destruct (le_Z_range k); lia end.
Qed.

(** Every page's slot is in the one CodeDirectory, 32 bytes after the slot of
    the page before it. *)
Lemma parse_same signature r cd0 cd_offset slot0 p d x slot :
  parse_code_directory signature 0 r = Ok (cd0, cd_offset, slot0) → 0 ≤ p →
  parse_code_directory signature p 0 = Ok (d, x, slot) →
  d = cd0 ∧ cd0 = slice cd_offset (cd_offset + zlen cd0) signature ∧ 44 ≤ slot ∧ slot + 32 ≤ zlen cd0
  ∧ cd_offset + zlen cd0 ≤ zlen signature ∧ slot = slot0 + p * 32.
Proof.
  intros H0 Hp H. apply parse_Ok in H0 as (h & H0 & -> & ->). apply parse_Ok in H as (h' & H & -> & ->).
  pose proof (locate_unique _ _ _ _ _ _ _ H0 H) as [= <- <-].
  destruct (located_window _ _ _ _ Hp (locate_spec _ _ _ _ H)) as (_ & Hw & Hws & H1 & H2).
  assert (hash_size h = 32) as Hh by (pose proof (locate_spec _ _ _ _ H) as Hl; cbn in Hl; tauto).
  rewrite Hw. split_and!; try done; lia.
Qed.

(** The regions are the cache's and sign what they write.  When a cache
    and its reviewed spec are accepted, every region, the signature slots
    included, is found in the original cache at its offset with the bytes it
    lists as before and is replaced by as many; and after the header region
    there are, for each edited page in increasing order, the whole page before
    and after all reviewed edits, and a slot going from the digest of the one
    to the digest of the other. *)
Theorem cache_payload_regions cache spec regions cdhash :
  cache_payload cache spec = Ok (regions, cdhash) →
  Forall (in_cache cache) regions
  ∧ ∃ edits rss,
      reviewed_edits spec cache = Ok edits
      ∧ regions = (0, slice 0 4096 cache, slice 0 4096 cache) :: concat rss
      ∧ Forall2 (signs_page cache edits) (edited_pages edits) rss.
Proof.
  unfold cache_payload. intros H. simpl_res.
  rename r into o, r0 into size, r1 into edits, l into cd0, z0 into cd_offset, Hr1 into Hrev, Hr2 into H0.
  apply orb_false_iff in Hif as [Hh%negb_false_iff%Z.eqb_eq _]. pose proof (unpack_from_Q_nonneg _ _ _ Hr) as Ho.
  pose proof (reviewed_edits_ok _ _ _ Hrev) as (_ & Hall & Hsort & _).
  assert (Forall (in_page (zlen cache)) edits) as Hin by (eapply Forall_impl; [exact Hall|apply reviewed_in_page]).
  set (signature := slice o (o + size) cache) in *.
  assert (∀ a c, 0 ≤ a → c ≤ zlen signature → slice a c signature = slice (o + a) (o + c) cache) as Hsig.
  { intros a c Ha Hc. unfold signature in *. rewrite zlen_slice in Hc by done.
    destruct (Z_le_gt_dec c size); [apply slice_slice; lia|].
    assert (c ≤ 0 ∧ size ≤ 0) as [? ?] by lia. unfold slice. by rewrite !ztake_le_0 by lia. }
  assert (Forall (λ p, 0 ≤ p) (edited_pages edits)) as Hps.
  { apply Forall_forall. intros p (e & He & <-)%edited_pages_spec.
    apply (proj1 (Forall_forall _ _) Hin) in He as [? _]. apply Z.div_pos; [done|]. unfold PAGE_SIZE. lia. }
  assert (0 ≤ cd_offset) as Hcd.
  { apply parse_Ok in H0 as (h & Hl & _ & _). pose proof (locate_spec _ _ _ _ Hl) as Hl'. cbn in Hl'. lia. }
  eapply (all_page_regions cache signature cd0 edits o cd_offset Hin Ho Hcd Hsig) in Hr3 as (rss & Hrs & Hsign & Hregs).
  - cbn [snd app] in Hrs. split; [|eauto]. rewrite Hrs. constructor; [|by apply Forall_concat].
    split_and!; cbn [fst snd]; [lia| |done]. by rewrite Hh.
  - intros p d x slot Hp H. pose proof (parse_same _ _ _ _ _ _ _ _ _ H0 Hp H). tauto.
  - intros p p' d d' x x' slot slot' Hp H H' Hlt.
    pose proof (parse_same _ _ _ _ _ _ _ _ _ H0 Hp H) as (_ & _ & _ & _ & _ & ->).
    assert (0 ≤ p') as Hp' by lia.
    pose proof (parse_same _ _ _ _ _ _ _ _ _ H0 Hp' H') as (_ & _ & _ & _ & _ & ->). lia.
  - done.
  - by apply edited_pages_sorted.
  - by split.
Qed.

Lemma sample_payload : ∃ regions cdhash,
  cache_payload sample_cache sample_spec = Ok (regions, cdhash) ∧ map (λ r, r.1.1) regions = [0; 0; 16448].
Proof. eexists _, _. split; [vm_compute; reflexivity|]. reflexivity. Qed.

Lemma cache_payload_regions_witness :
  ∃ regions cdhash,
    cache_payload sample_cache sample_spec = Ok (regions, cdhash)
    ∧ map (λ r, r.1.1) regions = [0; 0; 16448]
    ∧ Forall (in_cache sample_cache) regions.
Proof.
  destruct sample_payload as (regions & cdhash & H & Hr). exists regions, cdhash.
  split; [exact H|]. split; [exact Hr|].
  eapply (cache_payload_regions sample_cache sample_spec _ _ H).
Defined.
