(* ===== verification/IomfbTrace.v ===== *)
(** * The IOMFB call tracer: [tools/re/iomfb_calltrace.py]

    The address map and its validation, the per-site caps, the breakpoint
    callback with what it captures at each site, and the event loop of a live
    trace.  The debugger is an argument: a frame gives registers, a program
    counter and memory reads, an event what LLDB's listener delivered.  Text is
    a list of code points. *)

From stdpp Require Import base tactics list strings.
From Stdlib Require Import Strings.Byte.
From S2P Require Import Prelude PyBytes PyStr PyDict.
Open Scope Z_scope.

(** ** Addresses *)

Definition RUNTIME_ADDRESSES : list (list Z * Z) :=
  [(u "a401", 0xfffffff02a0c8a80);
   (u "hotplug_entry", 0xfffffff02a0bcad8);
   (u "d575_handler", 0xfffffff02a0d9e4c);
   (u "d575_callsite", 0xfffffff02a0d9f7c);
   (u "d586_handler", 0xfffffff02a0da804);
   (u "d586_create_entry", 0xfffffff02a0c0ecc);
   (u "d586_local_create", 0xfffffff02a0c0620);
   (u "layout_surface_capacity", 0xfffffff02a0c0684);
   (u "layout_simple_entry", 0xfffffff02a0c0954);
   (u "d586_local_create_return", 0xfffffff02a0c1160);
   (u "d586_surface_store", 0xfffffff02a0c1178);
   (u "default_fb_public", 0xfffffff02a0c02c0);
   (u "default_fb_gated", 0xfffffff02a0c03e8);
   (u "default_local_create_return", 0xfffffff02a0c04ec);
   (u "a482_pre", 0xfffffff02a0c05f8);
   (u "a482_post", 0xfffffff02a0c05fc);
   (u "a482_wrapper", 0xfffffff02a0cc25c);
   (u "surface_map_entry", 0xfffffff02a0b9600);
   (u "surface_map_return", 0xfffffff02a0b97a0);
   (u "d120_entry", 0xfffffff02919b338);
   (u "d120_boot_call", 0xfffffff02919b384);
   (u "boot_vtable_call", 0xfffffff02918837c);
   (u "d120_layout_gate", 0xfffffff029188074);
   (u "d120_layout_writer", 0xfffffff029187e24);
   (u "d120_layout_writer_exit", 0xfffffff029188030);
   (u "unified_pipeline2_target", 0xfffffff029189a68);
   (u "unified_pipeline2_pre_check", 0xfffffff029189a9c);
   (u "unified_pipeline2_post_check", 0xfffffff029189aa0);
   (u "unified_pipeline2_dispatch", 0xfffffff029189ac4);
   (u "iomfg_bridge", 0xfffffff02a0d5490);
   (u "iomfg_bridge_dispatch", 0xfffffff02a0d54d0);
   (u "d120_pre_signal_stub", 0xfffffff02919e030);
   (u "d120_stage_signal_stub", 0xfffffff02919e180);
   (u "d120_stage_finish_stub", 0xfffffff02919e1d0);
   (u "hotplug_post_latch", 0xfffffff02a0bcb94);
   (u "default_dimension_query_return", 0xfffffff02a0c047c)].
Definition SITE_ORDER : list (list Z) := map fst RUNTIME_ADDRESSES.
Definition DEFAULT_SITE_CAP : Z := 8.
Definition MAX_MEMORY_READ : Z := 0x80.
Definition MAX_STATE_RECORDS : Z := 64.
Definition MAX_CALLBACK_ERRORS : Z := 8.

(** ["0x%0*x" % (width, value & mask)]. *)
Definition hex_width (value width : Z) : list Z :=
  let d := digits_of 16 (Z.land value (Z.shiftl 1 (width * 4) - 1)) in
  u "0x" ++ replicate (Z.to_nat (width - zlen d)) 48 ++ d.

(** A value of the JSON object. *)
Inductive jval := JInt (v : Z) | JStr (s : list Z) | JBool (v : bool) | JOther.

Definition normalize (value : jval) : res Z :=
  v ← match value with
      | JStr s => match int0 s with Ok v => Ok v | Raise _ => Raise (ValueError "is not an integer address") end
      | JInt v => Ok v
      | JBool _ | JOther => Raise (ValueError "is not an integer address")
      end;
  raise_if (v <? 0xffff000000000000) || (0xffffffffffffffff <? v)
    with ValueError "is not a canonical kernel address";;
  raise_if negb (Z.land v 3 =? 0) with ValueError "is not instruction aligned";;
  Ok v.

(** [None] is a JSON value that is no object. *)
Definition validate_address_map (addresses : option (list (list Z * jval))) : res (list (list Z * Z)) :=
  d ← opt_or addresses (ValueError "address map must be a JSON object");
  raise_if negb (forallb (λ s, dmem s d) SITE_ORDER && forallb (λ e, bool_decide (e.1 ∈ SITE_ORDER)) d)
    with ValueError "invalid address-map keys";;
  res_map (λ s, v ← opt_or (dget s d) (KeyError s); v ← normalize v; Ok (s, v)) SITE_ORDER.

(** [_json_map]. *)
Definition json_map (addresses : list (list Z * Z)) : res (list (list Z * list Z)) :=
  res_map (λ s, v ← opt_or (dget s addresses) (KeyError s); Ok (s, hex_width v 16)) SITE_ORDER.

(** ** Caps *)

(** [value.partition("=")]. *)
Fixpoint partition_eq (s : list Z) : list Z * bool * list Z :=
  match s with
  | [] => ([], false, [])
  | c :: s => if c =? 61 then ([], true, s) else let '(a, sep, r) := partition_eq s in (c :: a, sep, r)
  end.
Definition add_cap (caps : list (list Z * Z)) (value : list Z) : res (list (list Z * Z)) :=
  let '(site, sep, count) := partition_eq value in
  raise_if negb sep || negb (dmem site caps) with ValueError "--cap must be SITE=N for one of the sites";;
  n ← match int0 count with Ok n => Ok n | Raise _ => Raise (ValueError "invalid cap") end;
  raise_if n <? 1 with ValueError "cap must be at least one";;
  Ok (dset site n caps).
Definition parse_site_caps (values : list (list Z)) (default_cap : Z) : res (list (list Z * Z)) :=
  raise_if default_cap <? 1 with ValueError "--site-cap must be at least one";;
  res_foldl add_cap (map (λ s, (s, default_cap)) SITE_ORDER) values.

(** The checks of [offline_main] before any map is loaded; the duration in
    milliseconds. *)
Definition check_options (port duration : Z) : res () :=
  raise_if (port <? 1) || (65535 <? port) with ValueError "--port must be in 1..65535";;
  raise_if duration <? 0 with ValueError "--duration cannot be negative";;
  Ok ().

(** ** What is captured *)

(** A memory capture: the key, the base register, the offset, and the size as
    a number or the value of a register, taken when the registers it names
    are not zero. *)
Inductive capture := Mem (key base : string) (offset : Z) (size : Z + string).

Definition display_captures : list (list Z * (list string * list capture)) :=
  [(u "a401", (["x0"; "x1"; "x2"; "x3"],
     []));
   (u "hotplug_entry", (["x0"; "x1"; "x2"; "w3"],
     [Mem "self_plus_0x180" "x0" 0x180 (inl 0x28);
      Mem "self_plus_0x380" "x0" 0x380 (inl 0x18);
      Mem "self_plus_0x430" "x0" 0x430 (inl 0x10);
      Mem "self_plus_0x5858" "x0" 0x5858 (inl 8);
      Mem "display_info_0x4c" "x2" 0 (inl 0x4c)]));
   (u "d575_handler", (["x0"; "x1"; "x2"; "w3"; "x4"; "w5"],
     [Mem "input_0x58" "x2" 0 (inl 0x58)]));
   (u "d575_callsite", (["x0"; "x1"; "x2"; "w3"; "x4"; "w5"],
     []));
   (u "d586_handler", (["x0"; "x1"; "x2"; "w3"; "x4"; "w5"],
     [Mem "dimensions_0x08" "x2" 0 (inl 8);
      Mem "result_0x04" "x4" 0 (inl 4)]));
   (u "d586_create_entry", (["x0"; "w1"; "w2"; "x3"; "x4"; "x5"],
     [Mem "self_head" "x0" 0 (inl 0x20);
      Mem "self_layout_state" "x0" 0x3c0 (inl 0x78)]));
   (u "d586_local_create", (["x0"; "w1"; "w2"; "x3"; "x4"; "x5"],
     [Mem "surface_head" "x0" 0 (inl 0x20);
      Mem "layout_descriptor" "x3" 0 (inl 0x70)]));
   (u "layout_surface_capacity", (["x0"; "x19"; "x20"; "w8"],
     [Mem "layout_descriptor" "x20" 0 (inl 0x70)]));
   (u "layout_simple_entry", (["x0"; "x19"; "x20"; "w22"; "w28"],
     [Mem "layout_descriptor" "x20" 0 (inl 0x70)]));
   (u "d586_local_create_return", (["w0"; "x19"; "x22"],
     [Mem "self_plus_0x168_before" "x19" 0x168 (inl 8)]));
   (u "d586_surface_store", (["x0"; "x19"; "x22"],
     [Mem "self_plus_0x168_before" "x19" 0x168 (inl 8)]));
   (u "default_fb_public", (["x0"; "w1"; "w2"],
     [Mem "self_plus_0x180" "x0" 0x180 (inl 0x28);
      Mem "self_plus_0x380" "x0" 0x380 (inl 0x18);
      Mem "self_plus_0x430" "x0" 0x430 (inl 0x10)]));
   (u "default_fb_gated", (["x0"; "w1"; "w2"],
     [Mem "self_plus_0x180" "x0" 0x180 (inl 0x28);
      Mem "self_plus_0x380" "x0" 0x380 (inl 0x18);
      Mem "self_plus_0x430" "x0" 0x430 (inl 0x10)]));
   (u "default_local_create_return", (["w0"; "x19"],
     [Mem "x19_plus_0x160" "x19" 0x160 (inl 8)]));
   (u "a482_pre", (["x0"; "x1"; "w2"; "w3"; "x4"],
     []));
   (u "a482_post", (["w0"],
     []));
   (u "a482_wrapper", (["x0"; "x1"; "w2"; "w3"; "x4"],
     []));
   (u "surface_map_entry", (["x0"; "x1"; "x2"; "x3"; "w4"],
     []));
   (u "surface_map_return", (["w0"; "x25"; "x24"],
     [Mem "u64_at_x25" "x25" 0 (inl 8);
      Mem "u64_at_x24" "x24" 0 (inl 8)]))]%string.
Definition pipeline_captures : list (list Z * (list string * list capture)) :=
  [(u "d120_entry", (["x0"; "x1"; "x2"; "x3"; "x4"; "x5"],
     [Mem "d120_out_buffer" "x4" 0 (inr "x5")]));
   (u "d120_boot_call", (["x0"; "x4"; "x5"; "x9"],
     [Mem "d120_out_buffer" "x4" 0 (inr "x5")]));
   (u "d120_layout_gate", (["w0"; "x19"],
     []));
   (u "d120_layout_writer", (["x0"],
     [Mem "self_layout_before" "x0" 0x3c0 (inl 0x70)]));
   (u "d120_layout_writer_exit", (["x19"],
     [Mem "self_layout_after" "x19" 0x3c0 (inl 0x70)]));
   (u "boot_vtable_call", (["x0"; "x19"; "x8"; "w0"],
     []));
   (u "unified_pipeline2_target", (["x0"; "x1"; "x2"; "x3"],
     [Mem "self_plus_0x5e88" "x0" 0x5e88 (inl 8)]));
   (u "unified_pipeline2_pre_check", (["x0"; "x8"; "x16"; "x17"],
     [Mem "peer_object_head" "x0" 0 (inl 0x20)]));
   (u "unified_pipeline2_post_check", (["w0"; "x19"],
     [Mem "self_plus_0x438" "x19" 0x438 (inl 8)]));
   (u "unified_pipeline2_dispatch", (["x0"; "x19"; "w0"],
     []));
   (u "iomfg_bridge", (["x0"; "x1"; "x2"; "x3"],
     [Mem "self_plus_0x30" "x0" 0x30 (inl 8)]));
   (u "iomfg_bridge_dispatch", (["x0"; "x8"; "x16"; "x17"; "x19"],
     [Mem "bridge_peer_head" "x0" 0 (inl 0x20)]));
   (u "d120_pre_signal_stub", (["x0"; "x1"; "x2"; "x3"; "x16"; "x17"],
     []));
   (u "d120_stage_signal_stub", (["x0"; "x1"; "x2"; "x3"; "x16"; "x17"],
     []));
   (u "d120_stage_finish_stub", (["x0"; "x1"; "x2"; "x3"; "x16"; "x17"],
     []));
   (u "hotplug_post_latch", (["x19"; "w21"; "w8"; "w9"],
     [Mem "self_plus_0x1a0" "x19" 0x1a0 (inl 8);
      Mem "self_plus_0x384" "x19" 0x384 (inl 4);
      Mem "self_plus_0x389" "x19" 0x389 (inl 1);
      Mem "self_plus_0x38a" "x19" 0x38a (inl 1);
      Mem "self_plus_0x430" "x19" 0x430 (inl 1)]));
   (u "default_dimension_query_return", (["x0"; "x1"; "x2"; "x8"; "x19"],
     [Mem "dimension_out_1" "x1" 0 (inl 4);
      Mem "dimension_out_2" "x2" 0 (inl 4)]))]%string.
Definition captures_of (site : list Z) : list string * list capture :=
  default (["x0"; "x1"; "x2"; "x3"]%string, []) (dget site (display_captures ++ pipeline_captures)).

(** ** The breakpoint callback *)

(** A stopped frame: the program counter ([None]: [GetPC] raises), the
    registers [_register] gives, what a memory read returns ([None]: it fails
    or raises), [FindRegister("w0")] ([None]: it raises, [Some None]: it is not
    valid), whether a write of [w0] succeeds, and whether the trace stream
    accepts the record, the record of a failed capture and the record of a
    failed callback. *)
Record frame := Frame {
  f_pc : option Z;
  f_reg : string → option Z;
  f_read : Z → Z → option (list byte);
  f_w0 : option (option Z);
  f_set_w0 : bool;
  f_record_ok : bool; f_error_ok : bool; f_callback_ok : bool;
}.

Inductive memory :=
  | LowPointer (address : Z)
  | Unread (address size : Z)
  | Bytes (address : Z) (data : list byte).
(** [_memory]; the size read is between 1 and [MAX_MEMORY_READ]. *)
Definition read_size (size : Z) : Z := Z.min (Z.max 1 size) MAX_MEMORY_READ.
Definition memory_at (f : frame) (address : option Z) (size : Z) : memory :=
  match address with
  | None => LowPointer 0
  | Some a =>
      if a <? 0x1000 then LowPointer a
      else match f_read f a (read_size size) with
           | None => Unread a (read_size size)
           | Some data => Bytes a data
           end
  end.

Definition truthy (v : option Z) : bool := match v with Some v => negb (v =? 0) | None => false end.
(** [_hex(value or 0, 8 or 16)] of a register. *)
Definition reg_width (name : string) : Z := if String.prefix "w" name then 8 else 16.
Definition reg_text (f : frame) (name : string) : list Z :=
  hex_width (default 0 (f_reg f name)) (reg_width name).
Definition run_capture (f : frame) (m : capture) : option (string * memory) :=
  let 'Mem key base offset size := m in
  match size with
  | inl n => if truthy (f_reg f base) then Some (key, memory_at f (option_map (λ v, v + offset) (f_reg f base)) n) else None
  | inr r =>
      if truthy (f_reg f base) && truthy (f_reg f r)
      then Some (key, memory_at f (option_map (λ v, v + offset) (f_reg f base)) (default 0 (f_reg f r))) else None
  end.

Record entry := Entry {
  e_event : list Z; e_hit : Z; e_pc : list Z; e_expected : list Z; e_matches : bool; e_lr : list Z;
  e_regs : list (string * list Z); e_memory : list (string * memory); e_mutation : option (list Z * bool);
}.
(** The records of the stream: captures, captures that raised, and callbacks
    that raised. *)
Inductive line := Captured (e : entry) | CaptureError (site : list Z) (hit : Z) | CallbackError (site : list Z) (count : Z).
(** The site whose cap a record counts against. *)
Definition line_site (l : line) : option (list Z) :=
  match l with Captured e => Some (e_event e) | CaptureError s _ => Some s | CallbackError _ _ => None end.
Definition error_site (l : line) : option (list Z) :=
  match l with CallbackError s _ => Some s | _ => None end.

Record tracer := Tracer {
  hits : list (list Z * Z); emitted : list (list Z * Z); callback_errors : list (list Z * Z);
  d120_seen : bool; stream : list line;
}.
Definition new_tracer : tracer := Tracer [] [] [] false [].
Definition count_of (site : list Z) (d : list (list Z * Z)) : Z := default 0 (dget site d).
Definition bump (site : list Z) (d : list (list Z * Z)) : list (list Z * Z) := dset site (count_of site d + 1) d.

Section callback.
Context (addresses caps : list (list Z * Z)) (force : bool).

(** [_base_record] and [_capture]; [None] when it raises. *)
Definition capture_record (site : list Z) (hit : Z) (f : frame) : option entry :=
  pc ← f_pc f; expected ← dget site addresses;
  let '(regs, mems) := captures_of site in
  Some (Entry site hit (hex_width pc 16) (hex_width expected 16) (pc =? expected)
          (hex_width (default 0 (f_reg f "lr")) 16)
          (map (λ r, (r, reg_text f r)) regs) (omap (run_capture f) mems) None).

(** The diagnostic mutation: whether it is attempted, and the record with it
    and whether [w0] was written. *)
Definition mutates (site : list Z) (seen : bool) : bool :=
  bool_decide (site = u "unified_pipeline2_post_check") && force && seen.
Definition mutation (f : frame) (w0 : option Z) : list Z * bool :=
  (hex_width (default 0 w0) 8, match w0 with Some _ => f_set_w0 f | None => false end).
Definition with_mutation (e : entry) (m : list Z * bool) : entry :=
  Entry (e_event e) (e_hit e) (e_pc e) (e_expected e) (e_matches e) (e_lr e) (e_regs e) (e_memory e) (Some m).
Definition captured (site : list Z) (hit : Z) (seen : bool) (f : frame) : option entry * bool :=
  match capture_record site hit f with
  | None => (None, false)
  | Some e =>
      if mutates site seen then
        match f_w0 f with
        | None => (None, false)
        | Some w0 => (Some (with_mutation e (mutation f w0)), (mutation f w0).2)
        end
      else (Some e, false)
  end.

(** [handle_hit]: its answer or exception, whether [w0] was written, and the
    tracer after it. *)
Definition handle_hit (t : tracer) (site : list Z) (f : frame) : res bool * bool * tracer :=
  let hits' := bump site (hits t) in
  let seen := d120_seen t || bool_decide (site = u "d120_entry") in
  match dget site caps with
  | None => (Raise (KeyError site), false, Tracer hits' (emitted t) (callback_errors t) seen (stream t))
  | Some cap =>
      if count_of site (emitted t) <? cap then
        let '(e, wrote) := captured site (count_of site hits') seen f in
        match e, f_record_ok f with
        | Some e, true =>
            (Ok false, wrote,
             Tracer hits' (bump site (emitted t)) (callback_errors t) seen (stream t ++ [Captured e]))
        | _, _ =>
            if f_error_ok f then
              (Ok false, wrote,
               Tracer hits' (bump site (emitted t)) (callback_errors t) seen
                 (stream t ++ [CaptureError site (count_of site hits')]))
            else (Raise OSError, wrote, Tracer hits' (emitted t) (callback_errors t) seen (stream t))
        end
      else (Ok false, false, Tracer hits' (emitted t) (callback_errors t) seen (stream t))
  end.

(** [callback_error]. *)
Definition callback_error (t : tracer) (site : list Z) (f : frame) : tracer :=
  let errors := bump site (callback_errors t) in
  if (MAX_CALLBACK_ERRORS <? count_of site errors) || negb (f_callback_ok f)
  then Tracer (hits t) (emitted t) errors (d120_seen t) (stream t)
  else Tracer (hits t) (emitted t) errors (d120_seen t)
         (stream t ++ [CallbackError site (count_of site errors)]).

(** [lldb_breakpoint_callback]: the answer to LLDB ([true] would stop the
    guest), whether [w0] was written, the tracer after it.  The identifier is
    [None] when reading it raises. *)
Definition breakpoint_callback (owners : list (Z * list Z)) (t : tracer) (bp : option Z) (f : frame)
    : bool * bool * tracer :=
  match (i ← bp; dget i owners) with
  | None => (false, false, t)
  | Some site =>
      match handle_hit t site f with
      | (Ok stop, wrote, t') => (stop, wrote, t')
      | (Raise _, wrote, t') => (false, wrote, callback_error t' site f)
      end
  end.

(** A run of callbacks, with the answers given. *)
Definition callback_step (owners : list (Z * list Z)) (s : list (bool * bool) * tracer) (h : option Z * frame)
    : list (bool * bool) * tracer :=
  let '(stop, wrote, t) := breakpoint_callback owners s.2 h.1 h.2 in (s.1 ++ [(stop, wrote)], t).
Definition callbacks (owners : list (Z * list Z)) (hs : list (option Z * frame)) : list (bool * bool) * tracer :=
  foldl (callback_step owners) ([], new_tracer) hs.
End callback.

(** [install]: the breakpoints in site order; [create] is the identifier LLDB
    gives a breakpoint at an address, [None] when it is not valid or has no
    location.  The owners and the tracer's identifiers when it returns or
    raises. *)
Fixpoint install_sites (addresses : list (list Z * Z)) (create : Z → option Z) (sites : list (list Z))
    (owners : list (Z * list Z)) (ids : list Z) : res () * list (Z * list Z) * list Z :=
  match sites with
  | [] => (Ok (), owners, ids)
  | site :: sites =>
      match dget site addresses with
      | None => (Raise (KeyError site), owners, ids)
      | Some a =>
          match create a with
          | None => (Raise (RuntimeError "failed to create breakpoint"), owners, ids)
          | Some i => install_sites addresses create sites (dset i site owners) (ids ++ [i])
          end
      end
  end.
Definition clear_callbacks (ids : list Z) (owners : list (Z * list Z)) : list (Z * list Z) :=
  foldl (λ o i, dpop i o) owners ids.

(** ** The event loop *)

Inductive pstate := Stopped | Crashed | Exited | Detached | Running.
Definition is_terminal (s : pstate) : bool := match s with Exited | Detached => true | _ => false end.
(** [process.Continue()]: it works, finds the guest already running, or fails. *)
Inductive resumed := ContinueOk | AlreadyRunning | ContinueFailed.
(** One pass of the loop before the deadline: nothing, an event of another
    kind, or a state change with the state the process is in by then. *)
Inductive pass :=
  | NoEvent
  | OtherEvent
  | StateEvent (state current : pstate) (r : resumed).

(** [record_state] counts the state records written and those dropped. *)
Definition record_state (c : Z * Z) : Z * Z :=
  if MAX_STATE_RECORDS <=? c.1 then (c.1, c.2 + 1) else (c.1 + 1, c.2).
(** [continue_guest]: whether it resumed the guest. *)
Definition continue_guest (current : pstate) (r : resumed) : res bool :=
  match current with
  | Stopped =>
      match r with
      | ContinueFailed => Raise (RuntimeError "could not continue guest")
      | _ => Ok true
      end
  | _ => Ok false
  end.
Fixpoint pump (counts : Z * Z) (passes : list pass) : res (Z * Z * string) :=
  match passes with
  | [] => Ok (counts, "duration"%string)
  | (NoEvent | OtherEvent) :: passes => pump counts passes
  | StateEvent state current r :: passes =>
      if is_terminal state
      then Ok (record_state counts, match state with Exited => "exited" | _ => "detached" end%string)
      else
        _ ← match state with Stopped => continue_guest current r | _ => Ok false end;
        pump (record_state counts) passes
  end.

(** [run_live] from the connection on: the summary's reason and state counts
    or the exception, and the owners after the teardown. *)
Definition run_live (addresses : list (list Z * Z)) (create : Z → option Z) (owners : list (Z * list Z))
    (initial : pstate) (initial_resumed : resumed) (passes : list pass) (a401_hits : Z)
    : res (Z * Z * string) * list (Z * list Z) :=
  let '(installed, owners, ids) := install_sites addresses create SITE_ORDER owners [] in
  (_ ← installed;
   _ ← match initial with Stopped | Crashed => continue_guest initial initial_resumed | _ => Ok false end;
   r ← pump (record_state (0, 0)) passes;
   raise_if a401_hits =? 0 with RuntimeError "positive control failed: A401 never hit";;
   Ok r, clear_callbacks ids owners).

(** ** Address maps *)

Lemma parse_digits_zeros n l us :
  parse_digits 16 0 us (replicate n 48 ++ l) =
  match n with O => parse_digits 16 0 us l | _ => parse_digits 16 0 false l end.
Proof.
  revert us. induction n as [|n IH]; intros us; [done|]. cbn [replicate app].
  change (parse_digits 16 0 us (48 :: replicate n 48 ++ l)) with (parse_digits 16 0 false (replicate n 48 ++ l)).
  rewrite IH. by destruct n.
Qed.

(** [int(_hex(v, w), 0)] is [v] truncated to [w] digits. *)
Lemma int0_hex_width v w : 0 ≤ w → int0 (hex_width v w) = Ok (v mod 2 ^ (w * 4)).
Proof.
  intros Hw. unfold hex_width. change (Z.shiftl 1 (w * 4) - 1) with (Z.ones (w * 4)). rewrite Z.land_ones by lia.
  set (m := v mod 2 ^ (w * 4)).
  assert (0 ≤ m) as Hm by (apply Z.mod_pos_bound; apply Z.pow_pos_nonneg; lia).
  set (n := Z.to_nat _). clearbody n. unfold int0, int0_opt. rewrite strip_id.
  2:{ apply Forall_app. split; [repeat constructor|]. apply Forall_app.
      split; [by apply Forall_replicate|]. by apply digits_no_space. }
  pose proof (parse_digits_zeros n (digits_of 16 m) false) as Hz.
  rewrite !(parse_digits_of 16 m false) in Hz by lia.
  assert (parse_digits 16 0 false (replicate n 48 ++ digits_of 16 m) = Some m) as Hp by (by destruct n).
  destruct (digits_of_head 16 m) as (d & l & Hd & _); [lia|done|]. rewrite Hd in *.
  destruct (replicate n 48 ++ digit_char d :: l) as [|c r] eqn:E; [by destruct n|].
  change (u "0x" ++ c :: r) with (48 :: 120 :: c :: r).
  unfold int0_abs. cbn -[parse_digits]. by rewrite Hp.
Qed.

Lemma normalize_range j v : normalize j = Ok v → 0xffff000000000000 ≤ v ≤ 0xffffffffffffffff ∧ Z.land v 3 = 0.
Proof.
  unfold normalize. intros (v' & _ & H)%bind_Ok.
  destruct ((v' <? _) || _) eqn:E1; [done|]. destruct (negb _) eqn:E2; [done|].
  apply Ok_inj in H. subst. apply orb_false_iff in E1 as [?%Z.ltb_ge ?%Z.ltb_ge].
  apply negb_false_iff, Z.eqb_eq in E2. done.
Qed.

(** The address a validated map gives a site. *)
Definition canonical (v : Z) : Prop := 0xffff000000000000 ≤ v ≤ 0xffffffffffffffff ∧ Z.land v 3 = 0.

Lemma SITE_ORDER_NoDup : NoDup SITE_ORDER.
Proof. apply (bool_decide_unpack _). by vm_compute. Qed.

Lemma validated_shape x m :
  validate_address_map x = Ok m → dkeys m = SITE_ORDER ∧ Forall (λ e, canonical e.2) m.
Proof.
  unfold validate_address_map. intros (d & _ & H)%bind_Ok. destruct (negb _); [done|].
  apply res_map_Ok in H. generalize dependent SITE_ORDER. intros l H. 
  induction H as [|s e l m (v & Hv & (w & Hw & Hin)%bind_Ok)%bind_Ok Hrest [IHk IHc]]; [done|].
  apply Ok_inj in Hin. subst e. split; [by simpl; f_equal|]. constructor; [|done]. by eapply normalize_range.
Qed.

(** A traversal of the keys of a map that looks each of them up. *)
Lemma res_map_keys {A B} (e : list Z → exn) (f : list Z → A → res B) (d : list (list Z * A)) :
  dict_wf d →
  res_map (λ s, v ← opt_or (dget s d) (e s); f s v) (dkeys d) = res_map (λ x, f x.1 x.2) d.
Proof.
  intros Hd. unfold dkeys.
  enough (∀ l, (∀ k v, (k, v) ∈ l → dget k d = Some v) →
    res_map (λ s, v ← opt_or (dget s d) (e s); f s v) (map fst l) = res_map (λ x, f x.1 x.2) l) as Hl
    by (apply Hl; intros; by apply dget_wf).
  intros l. induction l as [|[s v] l IH]; intros Hget; [done|]. cbn [map res_map fst snd].
  rewrite (Hget s v) by apply list_elem_of_here. cbn [opt_or]. rewrite ok_bind.
  destruct (f s v) as [b|]; [|done]. rewrite !ok_bind, IH; [done|].
  intros k w Hin. apply Hget. by right.
Qed.
Lemma res_map_pure {A B} (f : A → res B) (g : A → B) l :
  Forall (λ x, f x = Ok (g x)) l → res_map f l = Ok (map g l).
Proof. intros H. apply res_map_Ok. induction H; simpl; by constructor. Qed.

Lemma normalize_hex v : canonical v → normalize (JStr (hex_width v 16)) = Ok v.
Proof.
  intros [Hr Ha]. unfold normalize. rewrite int0_hex_width by lia. rewrite Z.mod_small by lia.
  rewrite ok_bind, (proj2 (Z.ltb_ge _ _)), (proj2 (Z.ltb_ge _ _)) by lia. by rewrite Ha.
Qed.

(** The address map the tool prints is one it accepts: validating the
    hexadecimal strings of [_json_map] of a validated map gives that map back,
    and a validated map names every site, in order, with a word-aligned
    canonical kernel address. *)
Theorem address_map_round_trip x m :
  validate_address_map x = Ok m →
  dkeys m = SITE_ORDER ∧ Forall (λ e, canonical e.2) m ∧
  (j ← json_map m; validate_address_map (Some (map (λ e, (e.1, JStr e.2)) j))) = Ok m.
Proof.
  intros [Hk Hc]%validated_shape. split_and!; [done..|].
  assert (dict_wf m) as Hwf by (unfold dict_wf; rewrite Hk; apply SITE_ORDER_NoDup).
  assert (json_map m = Ok (map (λ e, (e.1, hex_width e.2 16)) m)) as ->.
  { unfold json_map. rewrite <-Hk. 
    rewrite (res_map_keys KeyError (λ s v, Ok (s, hex_width v 16)) m Hwf).
    apply res_map_pure, Forall_true. done. }
  rewrite ok_bind, map_map. cbn [fst snd]. set (d := map _ m).
  assert (dkeys d = SITE_ORDER) as Hkd by (unfold d, dkeys; by rewrite map_map).
  unfold validate_address_map. cbn [opt_or]. rewrite ok_bind, <-Hkd.
  rewrite (proj2 (forallb_forall _ _)), (proj2 (forallb_forall _ _)); cbn [andb negb].
  - rewrite (res_map_keys KeyError (λ s v, v ← normalize v; Ok (s, v)) d).
    2:{ unfold dict_wf. rewrite Hkd. apply SITE_ORDER_NoDup. }
    unfold d. apply res_map_Ok. clear -Hc. induction Hc as [|[s v] l Hv _ IH]; [done|].
    constructor; [|done]. cbn [fst snd] in *. by rewrite normalize_hex.
  - intros [s v] Hin%list_elem_of_In. apply bool_decide_eq_true. cbn [fst].
    unfold dkeys. apply list_elem_of_fmap. by exists (s, v).
  - intros s Hin%list_elem_of_In. by apply dmem_spec.
Qed.

Lemma address_map_round_trip_witness :
  let x := Some (map (λ e, (e.1, JInt e.2)) RUNTIME_ADDRESSES) in
  validate_address_map x = Ok RUNTIME_ADDRESSES ∧
  (j ← json_map RUNTIME_ADDRESSES; validate_address_map (Some (map (λ e, (e.1, JStr e.2)) j))) = Ok RUNTIME_ADDRESSES.
Proof.
  assert (validate_address_map (Some (map (λ e, (e.1, JInt e.2)) RUNTIME_ADDRESSES)) = Ok RUNTIME_ADDRESSES) as H
    by (by vm_compute).
  split; [exact H|]. apply (address_map_round_trip _ RUNTIME_ADDRESSES H).
Defined.

(** ** The breakpoint callback *)

Lemma count_of_bump s s' d : count_of s (bump s' d) = count_of s d + (if decide (s = s') then 1 else 0).
Proof.
  unfold bump, count_of at 1. rewrite dget_dset. destruct (decide _) as [->|]; cbn [default]; [done|].
  unfold count_of. destruct (dget s d); cbn [default]; lia.
Qed.

Section invariant.
Context (addresses caps : list (list Z * Z)) (force : bool) (owners : list (Z * list Z)).

Definition site_of (h : option Z * frame) : option (list Z) := i ← h.1; dget i owners.
Definition room (t : tracer) (site : list Z) : bool :=
  match dget site caps with Some cap => count_of site (emitted t) <? cap | None => false end.

(** What one callback may do to the emission state. *)
Inductive emission (t t' : tracer) (site : list Z) (f : frame) : Prop :=
  | emission_line l :
      room t site = true → line_site l = Some site → error_site l = None →
      emitted t' = bump site (emitted t) → callback_errors t' = callback_errors t →
      stream t' = stream t ++ [l] → emission t t' site f
  | emission_full :
      room t site = false → emitted t' = emitted t → callback_errors t' = callback_errors t →
      stream t' = stream t → emission t t' site f
  | emission_raised ls :
      dget site caps = None ∨ f_error_ok f = false →
      emitted t' = emitted t → callback_errors t' = bump site (callback_errors t) →
      stream t' = stream t ++ ls →
      ls = [] ∨ ls = [CallbackError site (count_of site (callback_errors t'))] ∧
                count_of site (callback_errors t') ≤ MAX_CALLBACK_ERRORS →
      emission t t' site f.

Lemma capture_record_event site hit f e : capture_record addresses site hit f = Some e → e_event e = site.
Proof.
  unfold capture_record. destruct (f_pc f) as [pc|]; [|done]. destruct (dget site addresses) as [a|]; [|done].
  generalize (captures_of site). intros [regs mems] He. injection He as <-. done.
Qed.
Lemma captured_event site hit seen f e w :
  captured addresses force site hit seen f = (Some e, w) → e_event e = site.
Proof.
  unfold captured. destruct (capture_record _ _ _ _) as [e0|] eqn:E; [|done].
  apply capture_record_event in E. destruct (mutates _ _ _); [destruct (f_w0 f); [|done]|]; by intros [= <- _].
Qed.
Lemma captured_wrote site hit seen f e :
  captured addresses force site hit seen f = (e, true) →
  force = true ∧ site = u "unified_pipeline2_post_check" ∧ seen = true.
Proof.
  unfold captured. destruct (capture_record _ _ _ _); [|done].
  destruct (mutates force site seen) eqn:E; [|done]. intros _.
  unfold mutates in E. apply andb_true_iff in E as [[?%bool_decide_eq_true ?]%andb_true_iff ?]. done.
Qed.

Lemma callback_error_emission t t0 site f :
  dget site caps = None ∨ f_error_ok f = false →
  emitted t0 = emitted t → callback_errors t0 = callback_errors t → stream t0 = stream t →
  emission t (callback_error t0 site f) site f ∧
  hits (callback_error t0 site f) = hits t0 ∧ d120_seen (callback_error t0 site f) = d120_seen t0.
Proof.
  intros Hr He Hc Hs. unfold callback_error. destruct (_ || _) eqn:E; (split; [|done]).
  - eapply (emission_raised _ _ _ _ []); cbn; rewrite ?Hc, ?app_nil_r; auto.
  - apply orb_false_iff in E as [E%Z.ltb_ge _]. 
    rewrite Hc in E. eapply emission_raised; cbn; rewrite ?Hs, ?Hc; [done..|]. by right.
Qed.

Lemma breakpoint_callback_spec t bp f stop wrote t' :
  breakpoint_callback addresses caps force owners t bp f = (stop, wrote, t') →
  stop = false ∧
  match site_of (bp, f) with
  | None => wrote = false ∧ t' = t
  | Some site =>
      hits t' = bump site (hits t) ∧
      d120_seen t' = d120_seen t || bool_decide (site = u "d120_entry") ∧
      (wrote = true → force = true ∧ site = u "unified_pipeline2_post_check" ∧ d120_seen t' = true) ∧
      emission t t' site f
  end.
Proof.
  unfold breakpoint_callback, site_of. cbn [fst]. destruct (bp ≫= _) as [site|]; [|by intros [= <- <- <-]].
  unfold handle_hit. destruct (dget site caps) as [cap|] eqn:Ecap.
  2:{ intros [= <- <- <-]. split; [done|].
      destruct (callback_error_emission t (Tracer (bump site (hits t)) (emitted t) (callback_errors t)
        (d120_seen t || bool_decide (site = u "d120_entry")) (stream t)) site f) as (He & -> & ->); auto.
      by split_and!. }
  destruct (_ <? cap) eqn:Eroom.
  2:{ intros [= <- <- <-]. split_and!; try done. apply emission_full; try done. unfold room. by rewrite Ecap. }
  destruct (captured _ _ _ _ _ _) as [e w] eqn:Ec.
  assert (room t site = true) as Hroom by (unfold room; by rewrite Ecap).
  assert (w = true → force = true ∧ site = u "unified_pipeline2_post_check" ∧
          d120_seen t || bool_decide (site = u "d120_entry") = true) as Hw.
  { intros ->. by eapply captured_wrote. }
  destruct e as [e|], (f_record_ok f); [|destruct (f_error_ok f) eqn:Eerr..];
    intros [= <- <- <-]; (split; [done|]).
  1:{ pose proof (captured_event _ _ _ _ _ _ Ec) as He.
      split_and!; try done. apply (emission_line _ _ _ _ (Captured e)); try done. cbn. by rewrite He. }
  1,3,5: split_and!; try done; by apply (emission_line _ _ _ _ (CaptureError site (count_of site (bump site (hits t))))).
  all: destruct (callback_error_emission t (Tracer (bump site (hits t)) (emitted t) (callback_errors t)
        (d120_seen t || bool_decide (site = u "d120_entry")) (stream t)) site f) as (He & -> & ->);
       auto; by split_and!.
Qed.

(** Callbacks at a site, and records of the stream that [key] gives a site. *)
Definition hit_count (site : list Z) (hs : list (option Z * frame)) : Z :=
  zlen (filter (λ h, site_of h = Some site) hs).
Definition lines_of (key : line → option (list Z)) (site : list Z) (ls : list line) : Z :=
  zlen (filter (λ l, key l = Some site) ls).

Lemma lines_of_app key site ls l :
  lines_of key site (ls ++ [l]) = lines_of key site ls + (if decide (key l = Some site) then 1 else 0).
Proof.
  unfold lines_of. rewrite filter_app, zlen_app. f_equal.
  rewrite filter_cons, filter_nil. by destruct (decide _).
Qed.
Lemma hit_count_app site hs h :
  hit_count site (hs ++ [h]) = hit_count site hs + (if decide (site_of h = Some site) then 1 else 0).
Proof.
  unfold hit_count. rewrite filter_app, zlen_app. f_equal.
  rewrite filter_cons, filter_nil. by destruct (decide _).
Qed.

(** The counters of a tracer after the callbacks [hs]. *)
Record counted (hs : list (option Z * frame)) (t : tracer) : Prop := Counted {
  counted_hits site : count_of site (hits t) = hit_count site hs;
  counted_emitted site : lines_of line_site site (stream t) = count_of site (emitted t);
  counted_cap site cap : dget site caps = Some cap → 0 ≤ cap →
    0 ≤ count_of site (emitted t) ≤ Z.min (count_of site (hits t)) cap;
  counted_exact site cap : dget site caps = Some cap → 0 ≤ cap →
    Forall (λ h, f_error_ok h.2 = true) hs →
    count_of site (emitted t) = Z.min (count_of site (hits t)) cap;
  counted_errors site :
    lines_of error_site site (stream t) ≤ Z.min (count_of site (callback_errors t)) MAX_CALLBACK_ERRORS;
}.

Lemma counted_new : counted [] new_tracer.
Proof. split; intros; try done; unfold hit_count, lines_of, count_of in *; cbn; try lia. Qed.

Lemma counted_step hs h t t' :
  counted hs t →
  match site_of h with
  | None => t' = t
  | Some site => hits t' = bump site (hits t) ∧ emission t t' site h.2
  end → counted (hs ++ [h]) t'.
Proof.
  intros [Hh He Hc Hx Hr] Hs. destruct (site_of h) as [site|] eqn:Esite.
  2:{ subst t'. split; intros; rewrite ?hit_count_app, ?Esite; eauto.
      - rewrite decide_False by done. rewrite Hh. lia.
      - apply (Hx _ cap); [done..|]. by apply Forall_app in H1 as [? _]. }
  destruct Hs as [Hhits Hem]. split.
  - intros s. rewrite Hhits, count_of_bump, hit_count_app, Esite, Hh. f_equal.
    destruct (decide _), (decide _); congruence.
  - intros s. destruct Hem as [l Hroom Hl Hle -> _ ->|Hroom -> _ ->|ls Hw -> _ -> Hls].
    + rewrite lines_of_app, count_of_bump, He, Hl. f_equal. destruct (decide _), (decide _); congruence.
    + done.
    + destruct Hls as [->|[-> _]]; [by rewrite app_nil_r|]. rewrite lines_of_app, He. cbn [line_site].
      rewrite decide_False by done. lia.
  - intros s cap Hcap Hp. specialize (Hc s cap Hcap Hp). rewrite Hhits, count_of_bump.
    destruct Hem as [l Hroom Hl Hle -> _ _|Hroom -> _ _|ls Hw -> _ _ Hls]; [|destruct (decide _); lia..].
    rewrite count_of_bump. unfold room in Hroom. destruct (decide _) as [->|]; [|lia]. rewrite Hcap in Hroom. lia.
  - intros s cap Hcap Hp [Hf Hok]%Forall_app. specialize (Hx s cap Hcap Hp Hf). rewrite Hhits, count_of_bump.
    destruct Hem as [l Hroom Hl Hle -> _ _|Hroom -> _ _|ls Hw -> _ _ Hls]; unfold room in *.
    + rewrite count_of_bump. destruct (decide _) as [->|]; [|lia]. rewrite Hcap in Hroom. lia.
    + destruct (decide _) as [->|]; [|lia]. rewrite Hcap in Hroom. lia.
    + destruct (decide _) as [->|]; [|lia]. exfalso. inversion_clear Hok. destruct Hw; congruence.
  - intros s. specialize (Hr s).
    destruct Hem as [l Hroom Hl Hle _ -> ->|Hroom _ -> ->|ls Hw _ Hb -> Hls]; [|done|].
    + rewrite lines_of_app, Hle. rewrite decide_False by done. lia.
    + rewrite Hb in *. rewrite !count_of_bump in *. destruct Hls as [->|[-> Hle]].
      * rewrite app_nil_r. destruct (decide _); lia.
      * rewrite lines_of_app. cbn [error_site].
        rewrite (decide_True (P := site = site)) in Hle by done.
        destruct (decide (s = site)) as [->|]; [rewrite decide_True by done; lia|].
        rewrite decide_False by congruence. lia.
Qed.
End invariant.

(** Some callback of [hs] was at [site]. *)
Definition seen_at (owners : list (Z * list Z)) (site : list Z) (hs : list (option Z * frame)) : Prop :=
  ∃ j h, hs !! j = Some h ∧ site_of owners h = Some site.
Lemma seen_at_app owners site hs ks : seen_at owners site hs → seen_at owners site (hs ++ ks).
Proof. intros (j & h & Hj & Hs). exists j, h. split; [by apply lookup_app_l_Some|done]. Qed.

Lemma d120_callback addresses caps force owners hs :
  d120_seen (callbacks addresses caps force owners hs).2 = true → seen_at owners (u "d120_entry") hs.
Proof.
  induction hs as [|h hs IH] using rev_ind; [done|].
  unfold callbacks in *. rewrite foldl_app. cbn [foldl]. unfold callback_step at 1.
  destruct (foldl _ _ _) as [answers t]. cbn [fst snd] in *.
  destruct (breakpoint_callback _ _ _ _ _ _ _) as [[stop wrote] t'] eqn:E. cbn [snd].
  apply breakpoint_callback_spec in E as [_ E]. destruct h as [bp f]. cbn [fst snd] in E.
  destruct (site_of owners (bp, f)) as [site|] eqn:Es.
  - destruct E as (_ & -> & _ & _). intros [H|H%bool_decide_eq_true]%orb_true_iff.
    + apply seen_at_app. auto.
    + subst. exists (length hs), (bp, f). by rewrite list_lookup_middle.
  - destruct E as [_ ->]. intros. apply seen_at_app. auto.
Qed.

(** C33: whatever breakpoints the guest hits, in whatever order, and whatever
    raises inside the callbacks, every callback answers [false], so the trace
    never stops the guest; the stream holds for each site exactly the records
    counted against its cap, never more than the cap, and exactly
    [min(hits, cap)] of them when the error records can be written; at most
    eight callback errors a site are reported; and [w0] is written only under
    the diagnostic option, at the readiness check, after D120 was hit. *)
Theorem callbacks_never_stop addresses caps force owners hs :
  let '(answers, t) := callbacks addresses caps force owners hs in
  Forall (λ a, a.1 = false) answers ∧ length answers = length hs ∧
  counted caps owners hs t ∧
  (∀ i a, answers !! i = Some a → a.2 = true →
     force = true ∧
     (site_of owners <$> hs !! i) = Some (Some (u "unified_pipeline2_post_check")) ∧
     seen_at owners (u "d120_entry") (take i hs)).
Proof.
  induction hs as [|h hs IH] using rev_ind.
  { cbn. split_and!; [done..|apply counted_new|done]. }
  pose proof (d120_callback addresses caps force owners hs) as Hd.
  unfold callbacks in *. rewrite foldl_app. cbn [foldl]. unfold callback_step at 1.
  destruct (foldl _ _ _) as [answers t]. destruct IH as (Hstop & Hlen & Hcount & Hw). cbn [fst snd] in *.
  destruct (breakpoint_callback _ _ _ _ _ _ _) as [[stop wrote] t'] eqn:E.
  apply breakpoint_callback_spec in E as [-> E]. destruct h as [bp f]. cbn [fst snd] in E.
  split_and!.
  - apply Forall_app. by repeat constructor.
  - rewrite !length_app. simpl. by rewrite Hlen.
  - eapply (counted_step _ _ _ (bp, f)); [done|]. destruct (site_of owners (bp, f)); [|by destruct E].
    destruct E as (? & _ & _ & ?). done.
  - intros i a [Hi|[Hi Ha]]%lookup_app_Some Hwrote.
    + destruct (Hw i a Hi Hwrote) as (? & ? & ?). apply lookup_lt_Some in Hi as Hlt. rewrite Hlen in Hlt.
      rewrite lookup_app_l, take_app_le by lia. done.
    + assert (i = length hs) as -> by (apply list_lookup_singleton_Some in Ha as [? _]; lia).
      apply list_lookup_singleton_Some in Ha as [_ <-]. cbn in Hwrote. subst wrote.
      rewrite list_lookup_middle, take_app_length by done. cbn [fmap option_fmap option_map].
      destruct (site_of owners (bp, f)) as [site|]; [|by destruct E].
      destruct E as (_ & Hseen & Hwr & _). destruct (Hwr eq_refl) as (-> & -> & Ht).
      rewrite Ht in Hseen. symmetry in Hseen. rewrite orb_false_r in Hseen. auto.
Qed.

(** ** Reads *)

Lemma memory_at_bounded f g address size :
  (∀ a n, 0x1000 ≤ a → 1 ≤ n ≤ MAX_MEMORY_READ → f_read f a n = f_read g a n) →
  memory_at f address size = memory_at g address size.
Proof.
  intros H. unfold memory_at. destruct address as [a|]; [|done]. destruct (a <? _) eqn:E; [done|].
  rewrite H; [done|lia|]. unfold read_size, MAX_MEMORY_READ. lia.
Qed.

(** A capture depends on no memory but reads of 1 to [MAX_MEMORY_READ] bytes
    above the first page: two frames that agree on those give one record,
    whatever size the guest's registers ask for. *)
Lemma capture_reads_bounded addresses site hit f g :
  f_pc f = f_pc g → (∀ r, f_reg f r = f_reg g r) →
  (∀ a n, 0x1000 ≤ a → 1 ≤ n ≤ MAX_MEMORY_READ → f_read f a n = f_read g a n) →
  capture_record addresses site hit f = capture_record addresses site hit g.
Proof.
  intros Hpc Hr Hm. unfold capture_record. rewrite Hpc. destruct (f_pc g) as [pc|]; [|done].
  destruct (dget site addresses) as [a|]; [|done]. generalize (captures_of site). intros [regs mems].
  cbn -[hex_width]. rewrite Hr. do 2 f_equal.
  - apply list_fmap_ext. intros. unfold reg_text. by rewrite Hr.
  - induction mems as [|[k b o s] mems IH]; [done|]. cbn [omap list_omap]. rewrite IH.
    unfold run_capture. rewrite !Hr. destruct s; by rewrite ?Hr, !(memory_at_bounded f g).
Qed.

(** ** Installing and clearing *)

Lemma install_owners addresses create sites owners ids r owners' ids' :
  install_sites addresses create sites owners ids = (r, owners', ids') →
  dict_wf owners → (∀ i, i ∈ dkeys owners → i ∈ ids) →
  dict_wf owners' ∧ (∀ i, i ∈ dkeys owners' → i ∈ ids').
Proof.
  revert owners ids. induction sites as [|s sites IH]; intros owners ids; cbn [install_sites]; [by intros [= <- <- <-]|].
  destruct (dget s addresses) as [a|]; [|by intros [= <- <- <-]].
  destruct (create a) as [i|]; [|by intros [= <- <- <-]].
  intros H Hwf Hsub. apply (IH _ _ H); [by apply dict_wf_dset|].
  intros j Hj. apply elem_of_app. destruct (decide (j = i)) as [->|Hne]; [right; apply list_elem_of_here|].
  left. apply Hsub. apply dmem_spec. apply dmem_spec in Hj. unfold dmem in *. by rewrite dget_dset_ne in Hj.
Qed.

Lemma clear_owners ids owners :
  dict_wf owners → (∀ i, i ∈ dkeys owners → i ∈ ids) → clear_callbacks ids owners = [].
Proof.
  unfold clear_callbacks. revert owners. induction ids as [|i ids IH]; intros owners Hwf Hsub; cbn [foldl].
  - destruct owners as [|[i s] o]; [done|]. exfalso. apply (not_elem_of_nil i), Hsub, list_elem_of_here.
  - apply IH; [by apply dict_wf_dpop|]. intros j Hj. apply dkeys_dpop_sub in Hj as Hin.
    apply Hsub in Hin. apply elem_of_cons in Hin as [->|]; [|done].
    exfalso. apply dget_None in Hj; [done|]. by apply dget_dpop_eq.
Qed.

(** However a session ends (a breakpoint that cannot be created, a guest that
    cannot be resumed, no positive control, or the end of the trace), no
    breakpoint resolves to it afterwards, so a late hit cannot stop the guest. *)
Lemma run_live_clears addresses create initial r passes a401_hits :
  (run_live addresses create [] initial r passes a401_hits).2 = [].
Proof.
  unfold run_live. destruct (install_sites _ _ _ _ _) as [[installed owners] ids] eqn:E. cbn [snd].
  apply install_owners in E as [Hwf Hsub]; [by apply clear_owners|constructor|done].
Qed.

(** A short session: D120, then the readiness check twice with a cap of one. *)
Example sample_session :
  let f := Frame (Some 0) (λ _, Some 0) (λ _ _, None) (Some (Some 0)) true true true true in
  let caps := map (λ s, (s, 1)) SITE_ORDER in
  let owners := [(1, u "d120_entry"); (2, u "unified_pipeline2_post_check")] in
  let '(answers, t) := callbacks RUNTIME_ADDRESSES caps true owners [(Some 2, f); (Some 1, f); (Some 3, f)] in
  answers = [(false, false); (false, false); (false, false)] ∧ length (stream t) = 2%nat ∧
  (callbacks RUNTIME_ADDRESSES caps true owners [(Some 1, f); (Some 2, f); (Some 2, f)]).1
  = [(false, false); (false, true); (false, false)].
Proof. by vm_compute. Qed.
