(* ===== verification/StartupDecode.v ===== *)
(** * Reading a stopped frame: the decoders of
    [tools/re/springboard_startup_trace_callbacks.py]

    Addresses with and without pointer-authentication bits, the control
    transfers of a scanned function, the selector an Objective-C message stub
    loads, the packed arguments of [mach_msg2], and which process a thread runs.
    The debugger is an argument: a frame gives registers, memory reads, the
    program counters of its backtrace and the time. *)

From stdpp Require Import base tactics list strings.
From Stdlib Require Import Strings.Byte.
From S2P Require Import Prelude PyBytes PyStr PyDict DcpEmu KernelPatch.
Open Scope Z_scope.

(** ** Frames *)

(** What LLDB answers while the guest is stopped: [_reg] of a register name
    ([None]: not valid), [ReadMemory] ([None]: it failed), [GetPC] of every
    frame of the thread, its identifier, and [time.time()] in milliseconds,
    which does not move while a callback runs. *)
Record frame := Frame {
  f_reg : list Z → option Z;
  f_read : Z → Z → option (list byte);
  f_pcs : list Z;
  f_thread : Z;
  f_now : Z;
}.

(** [value or 0]. *)
Definition or0 (v : option Z) : Z := default 0 v.
(** [_read]: a failed read gives no bytes. *)
Definition read (f : frame) (address size : Z) : list byte := default [] (f_read f address size).
(** [_u64]. *)
Definition u64_at (f : frame) (address : Z) : option Z :=
  let data := read f address 8 in if zlen data =? 8 then Some (le_Z data) else None.
(** [data.decode("ascii", "replace")]. *)
Definition ascii_replace (data : list byte) : list Z :=
  map (λ x, if b2z x <? 128 then b2z x else 0xFFFD) data.
Definition truthy (v : option Z) : bool := match v with Some v => negb (v =? 0) | None => false end.
(** [_cstring]. *)
Definition cstring (f : frame) (address : option Z) (limit : Z) : list Z :=
  if negb (truthy address) then u "<null>"
  else let data := read f (or0 address) limit in
       if bool_decide (data = []) then u "<read-error>" else ascii_replace (before x00 data).

(** ** Addresses *)

Definition PROGNAME_PTR : Z := 0x1e6ef1590.
Definition CACHE_LO : Z := 0x180000000.
Definition CACHE_HI : Z := 0x340000000.

(** [_canonical]: the authentication bits go, a kernel address keeps its top
    bits. *)
Definition canonical (address : Z) : Z :=
  let value := Z.land address 0x0000ffffffffffff in
  if negb (Z.land value (Z.shiftl 1 47) =? 0) then Z.lor value 0xffff000000000000 else value.

Section slide.
(** [SLIDE[0]]: set by [install] before any callback can run. *)
Variable slide : Z.

(** [_static]. *)
Definition static_of (address : option Z) : option Z :=
  a ← canonical <$> address;
  if (CACHE_LO + slide <=? a) && (a <? CACHE_HI + slide) then Some (a - slide) else None.

(** [_progname]. *)
Definition progname (f : frame) : list Z :=
  let pointer := u64_at f (slide + PROGNAME_PTR) in
  let string := if truthy pointer then u64_at f (or0 pointer) else None in
  cstring f string 96.

(** [_backtrace]: run-time and static program counters. *)
Definition backtrace (f : frame) (limit : nat) : list (Z * option Z) :=
  map (λ pc, let pc := Z.land pc 0x0000ffffffffffff in (pc, static_of (Some pc))) (take limit (f_pcs f)).
End slide.

(** ** Control transfers *)

Inductive control :=
  | Direct (mnemonic : string) (target_static : Z) (tail : bool)
  | ViaRegister (mnemonic : string) (target_register : list Z) (modifier_register : option (list Z)) (tail : bool).
Definition control_tail (c : control) : bool := match c with Direct _ _ t | ViaRegister _ _ _ t => t end.

(** ["x%d" % n]. *)
Definition xreg (n : Z) : list Z := u "x" ++ dec n.

(** The signed 26-bit word offset of [bl] and [b], applied. *)
Definition branch_to (static_pc word : Z) : Z :=
  let immediate := Z.land word 0x03ffffff in
  let immediate := if negb (Z.land immediate 0x02000000 =? 0) then immediate - 0x04000000 else immediate in
  Z.land (static_pc + Z.shiftl immediate 2) 0xffffffffffffffff.

Definition decode_bl (static_pc word : Z) : option Z :=
  if negb (Z.shiftr word 26 =? 37) then None else Some (branch_to static_pc word).

Definition decode_control (static_pc word range_start range_end : Z) : option control :=
  match decode_bl static_pc word with
  | Some target => Some (Direct "bl" target false)
  | None =>
      if Z.land word 0xfffffc1f =? 0xd63f0000 then
        Some (ViaRegister "blr" (xreg (Z.land (Z.shiftr word 5) 31)) None false)
      else if Z.land word 0xfffff800 =? 0xd73f0800 then
        Some (ViaRegister "blraa" (xreg (Z.land (Z.shiftr word 5) 31)) (Some (xreg (Z.land word 31))) false)
      else if (Z.shiftr word 26 =? 5)
              && negb ((range_start <=? branch_to static_pc word) && (branch_to static_pc word <? range_end)) then
        Some (Direct "b" (branch_to static_pc word) true)
      else if Z.land word 0xfffffc1f =? 0xd61f0000 then
        Some (ViaRegister "br" (xreg (Z.land (Z.shiftr word 5) 31)) None true)
      else if Z.land word 0xfffff800 =? 0xd71f0800 then
        Some (ViaRegister "braa" (xreg (Z.land (Z.shiftr word 5) 31)) (Some (xreg (Z.land word 31))) true)
      else None
  end.

(** ** Message stubs *)

(** [_objc_stub_selector] on the eight bytes of the stub. *)
Definition adrp_add (slide target_static adrp add : Z) : option Z :=
  if negb (Z.land adrp 0x9f000000 =? 0x90000000) then None
  else
    let register := Z.land adrp 31 in
    if negb (Z.land add 0xff800000 =? 0x91000000) || negb (Z.land add 31 =? register)
       || negb (Z.land (Z.shiftr add 5) 31 =? register) then None
    else
      let immediate := Z.lor (Z.shiftl (Z.land (Z.shiftr adrp 5) 0x7ffff) 2) (Z.land (Z.shiftr adrp 29) 3) in
      let immediate := if negb (Z.land immediate (Z.shiftl 1 20) =? 0) then immediate - Z.shiftl 1 21 else immediate in
      let page := Z.land target_static (Z.lnot 0xfff) + Z.shiftl immediate 12 in
      let offset := Z.shiftl (Z.land (Z.shiftr add 10) 0xfff)
                             (if negb (Z.land add (Z.shiftl 1 22) =? 0) then 12 else 0) in
      Some (slide + page + offset).
Definition objc_stub_selector (slide : Z) (f : frame) (target_runtime : Z) (target_static : option Z) : option Z :=
  let data := read f target_runtime 8 in
  match target_static with
  | Some target_static =>
      if zlen data =? 8 then adrp_add slide target_static (le_Z (slice 0 4 data)) (le_Z (zdrop 4 data)) else None
  | None => None
  end.

(** ** Messages *)

Record hex_dump := HexDump { h_address : option Z; h_requested : Z; h_read : Z; h_hex : list Z }.
(** [_hex_read] with its limit of 512 bytes. *)
Definition hex_read (f : frame) (address : option Z) (size : Z) : hex_dump :=
  let requested := Z.max 0 (Z.min size 512) in
  let data := if truthy address && negb (requested =? 0) then read f (or0 address) requested else [] in
  HexDump address requested (zlen data) (hex_of_bytes data).

Record vector := Vector { v_data : Z; v_receive_address : Z; v_send_size : Z; v_receive_size : Z; v_send_data : hex_dump }.
(** [vectors] of [range(0, len(raw) - 23, 24)], the bytes as they are left. *)
Fixpoint vectors_of (n : nat) (f : frame) (raw : list byte) : list vector :=
  match n with
  | O => []
  | S n =>
      if zlen raw <? 24 then []
      else
        let data := le_Z (slice 0 8 raw) in
        let send_size := le_Z (slice 16 20 raw) in
        Vector data (le_Z (slice 8 16 raw)) send_size (le_Z (slice 20 24 raw)) (hex_read f (Some data) send_size)
        :: vectors_of n f (zdrop 24 raw)
  end.

Inductive body := Message (m : hex_dump) | Vectors (raw : list Z) (vs : list vector).
Record mach_msg2 := MachMsg2 {
  mm_data : option Z; mm_options : Z; msgh_bits : Z; send_size_or_vector_count : Z;
  remote_port : Z; local_port : Z; voucher_port : Z; msgh_id : Z; descriptor_count : Z;
  receive_name : Z; receive_size_or_vector_count : Z; priority : Z; timeout : option Z;
  is_vector : bool; mm_body : body;
}.
Definition lo32 (v : Z) : Z := Z.land v 0xffffffff.
Definition hi32 (v : Z) : Z := Z.shiftr v 32.

(** [_mach_msg2_arguments]; reading at an invalid [x0] raises [TypeError]. *)
Definition mach_msg2_arguments (f : frame) : res mach_msg2 :=
  let r n := or0 (f_reg f (u n)) in
  let x0 := f_reg f (u "x0") in
  let send := hi32 (r "x2"%string) in
  let receive := lo32 (r "x6"%string) in
  let vec := negb (Z.land (r "x1"%string) (Z.shiftl 1 32) =? 0) in
  b ← (if vec then
         a ← opt_or x0 (TypeError "ReadMemory");
         let raw := read f a (Z.min (Z.max send receive) 2 * 24) in
         Ok (Vectors (hex_of_bytes raw) (vectors_of (length raw) f raw))
       else Ok (Message (hex_read f x0 send)));
  Ok (MachMsg2 x0 (r "x1") (lo32 (r "x2")) send (lo32 (r "x3")) (hi32 (r "x3")) (lo32 (r "x4")) (hi32 (r "x4"))
        (lo32 (r "x5")) (hi32 (r "x5")) receive (hi32 (r "x6")) (f_reg f (u "x7")) vec b)%string.

(** ** Addresses: the authentication bits do not matter *)

Lemma canonical_spec a :
  canonical a = if 2 ^ 47 <=? a mod 2 ^ 48 then a mod 2 ^ 48 + 0xffff000000000000 else a mod 2 ^ 48.
Proof.
  unfold canonical. change 0x0000ffffffffffff with (Z.ones 48). rewrite Z.land_ones by lia.
  pose proof (Z.mod_pos_bound a (2 ^ 48) ltac:(lia)) as Hr. set (m := a mod 2 ^ 48) in *.
  change (Z.shiftl 1 47) with (Z.shiftl (Z.ones 1) 47). rewrite land_high_mask by lia.
  assert (m / 2 ^ 47 = if 2 ^ 47 <=? m then 1 else 0) as ->.
  { destruct (2 ^ 47 <=? m) eqn:E; [|apply Z.div_small; lia].
    symmetry. apply (Z.div_unique m (2 ^ 47) 1 (m - 2 ^ 47)); lia. }
  destruct (2 ^ 47 <=? m); cbn -[Z.pow Z.lor Z.add]; [|done].
  rewrite Z.lor_comm, Z.add_comm. by apply (lor_high_low 0xffff m 48).
Qed.
Lemma canonical_pac a a' : a mod 2 ^ 48 = a' mod 2 ^ 48 → canonical a = canonical a'.
Proof. intros H. by rewrite !canonical_spec, H. Qed.
(** A user or a kernel address without authentication bits is left alone. *)
Lemma canonical_id a : 0 ≤ a < 2 ^ 47 ∨ 2 ^ 64 - 2 ^ 47 ≤ a < 2 ^ 64 → canonical a = a.
Proof.
  intros [H|H]; rewrite canonical_spec.
  - rewrite Z.mod_small by lia. destruct (2 ^ 47 <=? a) eqn:E; lia.
  - replace (a mod 2 ^ 48) with (a - 0xffff000000000000).
    + destruct (2 ^ 47 <=? a - 0xffff000000000000) eqn:E; lia.
    + apply (Z.mod_unique a (2 ^ 48) 0xffff); lia.
Qed.
Lemma canonical_range a : 0 ≤ canonical a < 2 ^ 64.
Proof.
  rewrite canonical_spec. pose proof (Z.mod_pos_bound a (2 ^ 48) ltac:(lia)).
  destruct (_ <=? _); lia.
Qed.

(** ** Control transfers: exactly eight instruction forms *)

(** The word of 32 bits without a field of [k] bits at bit [n]. *)
Lemma land_clear w n k :
  0 ≤ w < 2 ^ 32 → 0 ≤ n → 0 ≤ k → n + k ≤ 32 →
  Z.land w (Z.ldiff (Z.ones 32) (Z.shiftl (Z.ones k) n)) = w - (w / 2 ^ n) mod 2 ^ k * 2 ^ n.
Proof.
  intros Hw Hn Hk Hnk. rewrite <-land_high_mask by done.
  transitivity (Z.ldiff w (Z.land w (Z.shiftl (Z.ones k) n))).
  - apply Z.bits_inj'. intros i Hi. rewrite Z.land_spec, !Z.ldiff_spec, Z.land_spec.
    destruct (Z_lt_le_dec i 32).
    + rewrite Z.ones_spec_low by lia. by destruct (Z.testbit w i), (Z.testbit _ i).
    + rewrite <-(Z.mod_small w (2 ^ 32)) by done. by rewrite Z.mod_pow2_bits_high by lia.
  - symmetry. apply Z.sub_nocarry_ldiff. apply Z.bits_inj'. intros i Hi.
    rewrite Z.ldiff_spec, Z.land_spec, Z.bits_0. by destruct (Z.testbit w i), (Z.testbit _ i).
Qed.
Lemma land_field w n k : 0 ≤ n → 0 ≤ k → Z.land (Z.shiftr w n) (Z.ones k) = (w / 2 ^ n) mod 2 ^ k.
Proof. intros. by rewrite Z.land_ones, Z.shiftr_div_pow2. Qed.

(** The call and branch instructions of A64 the tracer knows. *)
Inductive insn :=
  | BL (imm26 : Z) | B (imm26 : Z)
  | BLR (rn : Z) | BR (rn : Z)
  | BLRAA (rn rm : Z) | BRAA (rn rm : Z)
  | BLRAB (rn rm : Z) | BRAB (rn rm : Z).
Definition insn_ok (i : insn) : Prop :=
  match i with
  | BL imm | B imm => 0 ≤ imm < 2 ^ 26
  | BLR rn | BR rn => 0 ≤ rn < 32
  | BLRAA rn rm | BRAA rn rm | BLRAB rn rm | BRAB rn rm => 0 ≤ rn < 32 ∧ 0 ≤ rm < 32
  end.
Definition assemble (i : insn) : Z :=
  match i with
  | BL imm => 0x94000000 + imm
  | B imm => 0x14000000 + imm
  | BLR rn => 0xd63f0000 + 32 * rn
  | BR rn => 0xd61f0000 + 32 * rn
  | BLRAA rn rm => 0xd73f0800 + 32 * rn + rm
  | BRAA rn rm => 0xd71f0800 + 32 * rn + rm
  | BLRAB rn rm => 0xd73f0c00 + 32 * rn + rm
  | BRAB rn rm => 0xd71f0c00 + 32 * rn + rm
  end.
(** Where a direct branch at [pc] goes, in 64-bit arithmetic. *)
Definition target_of (pc imm26 : Z) : Z :=
  (pc + 4 * (if 2 ^ 25 <=? imm26 then imm26 - 2 ^ 26 else imm26)) mod 2 ^ 64.
(** What the tracer follows: every call, and a branch out of the function; the
    forms with key B go by the mnemonics of key A. *)
Definition followed (pc lo hi : Z) (i : insn) : option control :=
  match i with
  | BL imm => Some (Direct "bl" (target_of pc imm) false)
  | B imm =>
      if (lo <=? target_of pc imm) && (target_of pc imm <? hi) then None
      else Some (Direct "b" (target_of pc imm) true)
  | BLR rn => Some (ViaRegister "blr" (xreg rn) None false)
  | BR rn => Some (ViaRegister "br" (xreg rn) None true)
  | BLRAA rn rm | BLRAB rn rm => Some (ViaRegister "blraa" (xreg rn) (Some (xreg rm)) false)
  | BRAA rn rm | BRAB rn rm => Some (ViaRegister "braa" (xreg rn) (Some (xreg rm)) true)
  end.

Lemma branch_to_target pc w : branch_to pc w = target_of pc (w mod 2 ^ 26).
Proof.
  unfold branch_to, target_of. change 0x03ffffff with (Z.ones 26). rewrite Z.land_ones by lia.
  pose proof (Z.mod_pos_bound w (2 ^ 26) ltac:(lia)) as Hr. set (m := w mod 2 ^ 26) in *.
  change 0x02000000 with (Z.shiftl (Z.ones 1) 25). rewrite land_high_mask by lia.
  change 0xffffffffffffffff with (Z.ones 64). rewrite Z.land_ones by lia.
  rewrite Z.shiftl_mul_pow2 by lia.
  assert (m / 2 ^ 25 = if 2 ^ 25 <=? m then 1 else 0) as ->.
  { destruct (2 ^ 25 <=? m) eqn:E; [|apply Z.div_small; lia].
    symmetry. apply (Z.div_unique m (2 ^ 25) 1 (m - 2 ^ 25)); lia. }
  destruct (2 ^ 25 <=? m).
  - replace (negb (1 mod 2 ^ 1 * 2 ^ 25 =? 0)) with true by done. f_equal; lia.
  - replace (negb (0 mod 2 ^ 1 * 2 ^ 25 =? 0)) with false by done. f_equal; lia.
Qed.

(** [decode_control] with its bit tests as arithmetic on the word. *)
Lemma decode_control_arith pc w lo hi :
  0 ≤ w < 2 ^ 32 →
  decode_control pc w lo hi =
    if w / 2 ^ 26 =? 37 then followed pc lo hi (BL (w mod 2 ^ 26))
    else if w - (w / 32) mod 32 * 32 =? 0xd63f0000 then followed pc lo hi (BLR ((w / 32) mod 32))
    else if w - w mod 2 ^ 11 =? 0xd73f0800 then followed pc lo hi (BLRAA ((w / 32) mod 32) (w mod 32))
    else if (w / 2 ^ 26 =? 5) && bool_decide (is_Some (followed pc lo hi (B (w mod 2 ^ 26))))
      then followed pc lo hi (B (w mod 2 ^ 26))
    else if w - (w / 32) mod 32 * 32 =? 0xd61f0000 then followed pc lo hi (BR ((w / 32) mod 32))
    else if w - w mod 2 ^ 11 =? 0xd71f0800 then followed pc lo hi (BRAA ((w / 32) mod 32) (w mod 32))
    else None.
Proof.
  intros Hw. unfold decode_control, decode_bl.
  change 0xfffffc1f with (Z.ldiff (Z.ones 32) (Z.shiftl (Z.ones 5) 5)).
  change 0xfffff800 with (Z.ldiff (Z.ones 32) (Z.shiftl (Z.ones 11) 0)).
  rewrite !land_clear by lia. change 31 with (Z.ones 5). rewrite !land_field, !Z.land_ones by lia.
  rewrite !Z.shiftr_div_pow2, !branch_to_target by lia.
  change (2 ^ 0) with 1. rewrite !Z.div_1_r, !Z.mul_1_r. change (2 ^ 5) with 32.
  destruct (w / 2 ^ 26 =? 37); [done|]. cbn [negb followed].
  destruct (_ =? 0xd63f0000); [done|]. destruct (_ =? 0xd73f0800); [done|].
  destruct (w / 2 ^ 26 =? 5); [|done]. cbn [andb].
  by destruct ((lo <=? _) && _).
Qed.

Ltac word_arith := unfold insn_ok, assemble in *; Z.to_euclidean_division_equations; lia.
Lemma known pc lo hi c i w :
  insn_ok i → w = assemble i → followed pc lo hi i = Some c →
  ∃ i, insn_ok i ∧ w = assemble i ∧ followed pc lo hi i = Some c.
Proof. eauto. Qed.

Lemma key_bit pc lo hi c w (A B : Z → Z → insn) :
  (∀ rn rm, followed pc lo hi (A rn rm) = followed pc lo hi (B rn rm)) →
  (∀ rn rm, 0 ≤ rn < 32 ∧ 0 ≤ rm < 32 → insn_ok (A rn rm) ∧ insn_ok (B rn rm)) →
  w = assemble (A ((w / 32) mod 32) (w mod 32)) ∨ w = assemble (B ((w / 32) mod 32) (w mod 32)) →
  followed pc lo hi (A ((w / 32) mod 32) (w mod 32)) = Some c →
  ∃ i, insn_ok i ∧ w = assemble i ∧ followed pc lo hi i = Some c.
Proof.
  intros HAB Hok Hw Hc. destruct (Hok ((w / 32) mod 32) (w mod 32)) as [Ha Hb].
  - split; apply Z.mod_pos_bound; lia.
  - destruct Hw as [Hw|Hw]; [exact (known _ _ _ _ _ _ Ha Hw Hc)|].
    rewrite HAB in Hc. exact (known _ _ _ _ _ _ Hb Hw Hc).
Qed.

(** [_decode_control] reads a 32-bit word as a control transfer exactly when
    the word is one of eight A64 instructions: it follows every [bl], [blr],
    [blraa] and [blrab] as a call, every [br], [braa] and [brab] as a tail transfer, and a [b] only
    when its target leaves the function that is scanned; the target, taken in
    64-bit arithmetic, and the registers are those the instruction names. *)
Theorem decode_control_exact pc word lo hi c :
  0 ≤ word < 2 ^ 32 →
  decode_control pc word lo hi = Some c
    ↔ ∃ i, insn_ok i ∧ word = assemble i ∧ followed pc lo hi i = Some c.
Proof.
  intros Hw. rewrite decode_control_arith by done. split.
  - destruct (word / 2 ^ 26 =? 37) eqn:E1; [intros Hc; eapply known; [| |exact Hc]; word_arith|].
    destruct (_ =? 0xd63f0000) eqn:E2; [intros Hc; eapply known; [| |exact Hc]; word_arith|].
    destruct (_ =? 0xd73f0800) eqn:E3; [intros Hc; apply (key_bit _ _ _ _ _ BLRAA BLRAB); [done|word_arith|word_arith|exact Hc]|].
    destruct (_ && _) eqn:E4; [apply andb_prop in E4 as [E4 _]; intros Hc; eapply known; [| |exact Hc]; word_arith|].
    destruct (_ =? 0xd61f0000) eqn:E5; [intros Hc; eapply known; [| |exact Hc]; word_arith|].
    destruct (_ =? 0xd71f0800) eqn:E6; [intros Hc; apply (key_bit _ _ _ _ _ BRAA BRAB); [done|word_arith|word_arith|exact Hc]|done].
  - intros (i & Hi & -> & Hc).
    destruct i as [imm|imm|rn|rn|rn rm|rn rm|rn rm|rn rm]; unfold insn_ok, assemble in *.
    all: try (destruct Hi as [Hn Hm]).
    all: repeat (rewrite (proj2 (Z.eqb_neq _ _)) by word_arith; cbn [andb]).
    all: rewrite (proj2 (Z.eqb_eq _ _)) by word_arith; cbn [andb].
    1,2: replace ((_ + imm) mod 2 ^ 26) with imm by word_arith.
    3-8: replace ((_ / 32) mod 32) with rn by word_arith.
    5-8: replace ((_ + rm) mod 32) with rm by word_arith.
    2: rewrite bool_decide_true by eauto.
    all: exact Hc.
Qed.
Lemma decode_control_exact_witness :
  0 ≤ 0x94000002 < 2 ^ 32
  ∧ decode_control 0x1844e4900 0x94000002 0x1844e484c 0x1844e4d60 = Some (Direct "bl" 0x1844e4908 false).
Proof.
  split; [lia|]. apply (decode_control_exact 0x1844e4900 0x94000002 0x1844e484c 0x1844e4d60); [lia|].
  exists (BL 2). split; [cbn; lia|]. split; reflexivity.
Defined.
(** A [blrab] is reported under the name of the other key. *)
Example blrab_is_called_blraa :
  decode_control 0 (assemble (BLRAB 8 9)) 0 4 = Some (ViaRegister "blraa" (u "x8") (Some (u "x9")) false).
Proof. reflexivity. Qed.

(** The branches the kernel patches write are among them. *)
Lemma branch_is_insn src dst : branch src dst = assemble (B (Z.land ((dst - src) / 4) 0x3FFFFFF)).
Proof.
  unfold branch, assemble. change 0x3FFFFFF with (Z.ones 26). rewrite Z.land_ones by lia.
  pose proof (Z.mod_pos_bound ((dst - src) / 4) (2 ^ 26) ltac:(lia)).
  change 0x14000000 with (5 * 2 ^ 26). by rewrite lor_high_low by lia.
Qed.
Lemma target_of_branch src dst :
  0 ≤ dst < 2 ^ 64 → (dst - src) mod 4 = 0 → - 2 ^ 27 ≤ dst - src < 2 ^ 27 →
  target_of src (Z.land ((dst - src) / 4) 0x3FFFFFF) = dst.
Proof.
  intros Hd Hm Hr. unfold target_of. change 0x3FFFFFF with (Z.ones 26). rewrite Z.land_ones by lia.
  match goal with |- context [if ?b then _ else _] => destruct b eqn:E end;
    (transitivity (dst mod 2 ^ 64); [f_equal; Z.to_euclidean_division_equations; lia|by apply Z.mod_small]).
Qed.

(** ** Message stubs: the selector an [adrp]/[add] pair loads *)

(** The pair that loads [selector] into register [rd] from a stub at [pc]; the
    [add] with its shift by 12 loads a page-aligned one. *)
Definition adrp_enc (rd pages : Z) : Z :=
  0x90000000 + (pages mod 4) * 2 ^ 29 + ((pages mod 2 ^ 21) / 4) * 32 + rd.
Definition add_enc (rd imm12 : Z) (shifted : bool) : Z :=
  0x91000000 + (if shifted then 2 ^ 22 else 0) + imm12 * 1024 + rd * 32 + rd.

(** The decoder's fields as arithmetic. *)
Lemma adrp_add_arith slide static adrp add :
  0 ≤ adrp < 2 ^ 32 → 0 ≤ add < 2 ^ 32 →
  (adrp / 2 ^ 31) mod 2 = 1 → (adrp / 2 ^ 24) mod 32 = 16 → (add / 2 ^ 23) = 0x122 →
  add mod 32 = adrp mod 32 → (add / 32) mod 32 = adrp mod 32 →
  adrp_add slide static adrp add =
    Some (slide
          + (static / 4096 * 4096
             + (let i := (adrp / 32) mod 2 ^ 19 * 4 + (adrp / 2 ^ 29) mod 4 in
                if 2 ^ 20 <=? i then i - 2 ^ 21 else i) * 4096)
          + (add / 1024) mod 4096 * (if (add / 2 ^ 22) mod 2 =? 1 then 4096 else 1)).
Proof.
  intros Ha Hb H31 H24 Hop Hrd Hrn. unfold adrp_add.
  change 0x9f000000 with (Z.lor (Z.shiftl (Z.ones 1) 31) (Z.shiftl (Z.ones 5) 24)).
  change 0xff800000 with (Z.shiftl (Z.ones 9) 23). change 31 with (Z.ones 5) at 2 3 4 5.
  change 0x7ffff with (Z.ones 19). change 3 with (Z.ones 2). change 0xfff with (Z.ones 12).
  change (Z.shiftl 1 22) with (Z.shiftl (Z.ones 1) 22). change (Z.shiftl 1 20) with (Z.shiftl (Z.ones 1) 20).
  rewrite !Z.land_lor_distr_r, !land_high_mask, !land_field, !Z.land_ones by lia.
  change (2 ^ 1) with 2. change (2 ^ 5) with 32. rewrite H31, H24, Hop, Hrd, Hrn, !Z.eqb_refl.
  replace (Z.lor (1 * 2 ^ 31) (16 * 2 ^ 24) =? 2415919104) with true by done.
  replace (290 mod 2 ^ 9 * 2 ^ 23 =? 2432696320) with true by done. cbn [negb orb].
  rewrite <-Z.ldiff_land, Z.ldiff_ones_r, !Z.shiftl_mul_pow2, Z.shiftr_div_pow2 by lia.
  rewrite lor_high_low by (try apply Z.mod_pos_bound; lia).
  change (2 ^ 2) with 4. change (2 ^ 12) with 4096. change (2 ^ 10) with 1024. rewrite !Z.mul_1_l.
  set (i := (adrp / 32) mod 2 ^ 19 * 4 + (adrp / 2 ^ 29) mod 4).
  assert (0 ≤ i < 2 ^ 21) as Hi.
  { subst i. pose proof (Z.mod_pos_bound (adrp / 32) (2 ^ 19) ltac:(lia)).
    pose proof (Z.mod_pos_bound (adrp / 2 ^ 29) 4 ltac:(lia)). lia. }
  clearbody i. f_equal. f_equal.
  - f_equal. f_equal. f_equal.
    destruct (2 ^ 20 <=? i) eqn:E; (destruct (negb _) eqn:E'; Z.to_euclidean_division_equations; lia).
  - pose proof (Z.mod_pos_bound (add / 2 ^ 22) 2 ltac:(lia)) as Hs.
    assert ((add / 2 ^ 22) mod 2 = 0 ∨ (add / 2 ^ 22) mod 2 = 1) as [-> | ->] by lia.
    + replace (negb (0 * 2 ^ 22 =? 0)) with false by done. cbn [Z.eqb]. rewrite Z.shiftl_0_r. lia.
    + replace (negb (1 * 2 ^ 22 =? 0)) with true by done. cbn [Z.eqb Pos.eqb]. by rewrite Z.shiftl_mul_pow2.
Qed.

Lemma adrp_enc_fields rd pages :
  0 ≤ rd < 32 → ∃ q r, 0 ≤ q < 2 ^ 19 ∧ 0 ≤ r < 4 ∧ pages mod 2 ^ 21 = 4 * q + r
  ∧ adrp_enc rd pages = 0x90000000 + r * 2 ^ 29 + q * 32 + rd.
Proof.
  intros Hrd. exists ((pages mod 2 ^ 21) / 4), (pages mod 4). unfold adrp_enc.
  Z.to_euclidean_division_equations; lia.
Qed.

(** the stub decoder inverts the assembler: for every register, a page
    distance of less than 4 GiB either way and a 12-bit offset, shifted or not,
    the [adrp]/[add] pair decodes to the run-time address of the selector, even
    when the page distance is negative. *)
Theorem objc_stub_roundtrip slide f runtime static rd pages imm12 shifted :
  0 ≤ rd < 32 → - 2 ^ 20 ≤ pages < 2 ^ 20 → 0 ≤ imm12 < 2 ^ 12 →
  f_read f runtime 8 = Some (le_bytes 4 (adrp_enc rd pages) ++ le_bytes 4 (add_enc rd imm12 shifted)) →
  objc_stub_selector slide f runtime (Some static)
    = Some (slide + (static / 4096 * 4096 + pages * 4096) + (if shifted then imm12 * 4096 else imm12)).
Proof.
  intros Hrd Hp Hi Hf. unfold objc_stub_selector.
  assert (read f runtime 8 = le_bytes 4 (adrp_enc rd pages) ++ le_bytes 4 (add_enc rd imm12 shifted)) as ->
    by (unfold read; by rewrite Hf).
  rewrite zlen_app, !zlen_le_bytes. change (_ =? 8) with true. cbv iota zeta.
  rewrite slice_app_exact, zdrop_app_exact by (by rewrite zlen_le_bytes).
  destruct (adrp_enc_fields rd pages Hrd) as (q & r & Hq & Hr & Hpq & ->).
  rewrite !le_Z_bytes_id by (unfold add_enc; destruct shifted; lia).
  rewrite adrp_add_arith.
  2-8: unfold add_enc; destruct shifted; Z.to_euclidean_division_equations; lia.
  replace ((_ / 32) mod 2 ^ 19) with q by (Z.to_euclidean_division_equations; lia).
  replace ((_ / 2 ^ 29) mod 4) with r by (Z.to_euclidean_division_equations; lia).
  replace ((_ / 1024) mod 4096) with imm12 by (unfold add_enc; destruct shifted; Z.to_euclidean_division_equations; lia).
  replace ((_ / 2 ^ 22) mod 2) with (if shifted then 1 else 0)
    by (unfold add_enc; destruct shifted; Z.to_euclidean_division_equations; lia).
  f_equal. f_equal.
  - f_equal. f_equal. cbv zeta. f_equal. destruct (2 ^ 20 <=? q * 4 + r) eqn:E; Z.to_euclidean_division_equations; lia.
  - destruct shifted; cbn [Z.eqb Pos.eqb]; lia.
Qed.
Definition sample_stub : frame :=
  Frame (λ _, None)
    (λ a n, if (a =? 0x188118b30) && (n =? 8)
            then Some (le_bytes 4 (adrp_enc 1 (-3)) ++ le_bytes 4 (add_enc 1 0x123 false)) else None) [] 0 0.
Lemma objc_stub_roundtrip_witness :
  objc_stub_selector 0x1000 sample_stub 0x188118b30 (Some 0x188118b30)
    = Some (0x1000 + (0x188118b30 / 4096 * 4096 + -3 * 4096) + 0x123).
Proof. apply (objc_stub_roundtrip 0x1000 sample_stub 0x188118b30 0x188118b30 1 (-3) 0x123 false); [lia|lia|lia|reflexivity]. Defined.

(** ** Messages *)

(** Two 32-bit halves of a register. *)
Definition pack2 (low high : Z) : Z := low + high * 2 ^ 32.
Lemma lo32_pack2 l h : 0 ≤ l < 2 ^ 32 → lo32 (pack2 l h) = l.
Proof.
  intros. unfold lo32, pack2. change 0xffffffff with (Z.ones 32). rewrite Z.land_ones by lia.
  rewrite Z.mod_add by lia. by apply Z.mod_small.
Qed.
Lemma hi32_pack2 l h : 0 ≤ l < 2 ^ 32 → hi32 (pack2 l h) = h.
Proof.
  intros. unfold hi32, pack2. rewrite Z.shiftr_div_pow2, Z.div_add by lia. rewrite Z.div_small by lia. lia.
Qed.

(** Reads give no more bytes than asked for. *)
Definition reads_bounded (f : frame) : Prop := ∀ a n data, f_read f a n = Some data → zlen data ≤ Z.max 0 n.
Lemma read_bounded f a n : reads_bounded f → zlen (read f a n) ≤ Z.max 0 n.
Proof.
  intros H. unfold read. destruct (f_read f a n) as [data|] eqn:E; cbn; [by eapply H|]. rewrite zlen_nil. lia.
Qed.

(** A dump never has more bytes than it says, and never more than 512. *)
Definition dump_ok (h : hex_dump) : Prop := 0 ≤ h_read h ≤ h_requested h ∧ h_requested h ≤ 512.
Lemma hex_read_ok f a n : reads_bounded f → dump_ok (hex_read f a n).
Proof.
  intros H. unfold dump_ok, hex_read. cbn [h_read h_requested]. destruct (truthy a && _).
  - pose proof (read_bounded f (or0 a) (Z.max 0 (Z.min n 512)) H).
    pose proof (zlen_nonneg (read f (or0 a) (Z.max 0 (Z.min n 512)))). lia.
  - rewrite (zlen_nil (A:=byte)). lia.
Qed.
Lemma vectors_ok f n raw :
  reads_bounded f → Forall (λ v, dump_ok (v_send_data v)) (vectors_of n f raw)
  ∧ 24 * zlen (vectors_of n f raw) ≤ zlen raw.
Proof.
  intros H. revert raw. induction n as [|n IH]; intros raw; cbn [vectors_of].
  - split; [done|]. rewrite (zlen_nil (A:=vector)). pose proof (zlen_nonneg raw). lia.
  - destruct (zlen raw <? 24) eqn:E; [split; [done|]; rewrite (zlen_nil (A:=vector)); pose proof (zlen_nonneg raw); lia|].
    destruct (IH (zdrop 24 raw)) as [Hf Hl]. split.
    + constructor; [by apply hex_read_ok|exact Hf].
    + rewrite zlen_cons. rewrite zlen_zdrop in Hl. lia.
Qed.

(** What is captured of one message: a bounded dump, or at most two vectors
    with a bounded dump each. *)
Definition body_ok (b : body) : Prop :=
  match b with
  | Message m => dump_ok m
  | Vectors _ vs => (length vs ≤ 2)%nat ∧ Forall (λ v, dump_ok (v_send_data v)) vs
  end.

(** The tracer's decoder of [mach_msg2] gives back every field of a message
    packed by the kernel's ABI, whichever of the optional vector forms it has,
    and what it captures of the guest's memory is bounded whatever sizes the
    guest passes: 512 bytes of a message, or two vectors of 512 bytes. *)
Theorem mach_msg2_roundtrip f data options bits send remote local voucher msgid desc rname rsize prio tmo :
  reads_bounded f →
  Forall (λ v, 0 ≤ v < 2 ^ 32) [bits; send; remote; local; voucher; msgid; desc; rname; rsize; prio] →
  map (λ r, f_reg f (u r)) ["x0"; "x1"; "x2"; "x3"; "x4"; "x5"; "x6"; "x7"]%string
    = map Some [data; options; pack2 bits send; pack2 remote local; pack2 voucher msgid; pack2 desc rname;
                pack2 rsize prio; tmo] →
  ∃ b, body_ok b
    ∧ mach_msg2_arguments f
      = Ok (MachMsg2 (Some data) options bits send remote local voucher msgid desc rname rsize prio (Some tmo)
              (negb (Z.land options (2 ^ 32) =? 0)) b).
Proof.
  intros Hb Hr Hf. repeat (apply Forall_cons in Hr as [? Hr]).
  cbn [map] in Hf. injection Hf as E0 E1 E2 E3 E4 E5 E6 E7.
  unfold mach_msg2_arguments. rewrite E0, E1, E2, E3, E4, E5, E6, E7. unfold or0. cbn [default from_option id].
  rewrite !lo32_pack2, !hi32_pack2 by done. change (Z.shiftl 1 32) with (2 ^ 32). cbn [opt_or].
  destruct (negb _); rewrite ?ok_bind; eexists; (split; [|reflexivity]).
  - red. set (raw := read f data _). destruct (vectors_ok f (length raw) raw Hb) as [Hv Hl].
    split; [|exact Hv]. pose proof (read_bounded f data (Z.min (Z.max send rsize) 2 * 24) Hb) as Hn.
    fold raw in Hn. unfold zlen in *. lia.
  - by apply hex_read_ok.
Qed.
Definition sample_message : frame :=
  Frame (λ r, dget r (combine (map u ["x0"; "x1"; "x2"; "x3"; "x4"; "x5"; "x6"; "x7"]%string)
                        [0x16f0000; 2 ^ 32; pack2 0x1513 2; pack2 0x103 0x307; pack2 0 0x12; pack2 1 0x307; pack2 64 0; 0]))
    (λ a n, Some (replicate (Z.to_nat n) x00)) [] 0 0.
Lemma mach_msg2_roundtrip_witness :
  ∃ b, body_ok b
    ∧ mach_msg2_arguments sample_message
      = Ok (MachMsg2 (Some 0x16f0000) (2 ^ 32) 0x1513 2 0x103 0x307 0 0x12 1 0x307 64 0 (Some 0) true b).
Proof.
  apply (mach_msg2_roundtrip sample_message 0x16f0000 (2 ^ 32) 0x1513 2 0x103 0x307 0 0x12 1 0x307 64 0 0).
  - intros a n data [= <-]. rewrite zlen_replicate. lia.
  - repeat constructor; lia.
  - reflexivity.
Defined.
