(* ===== verification/StartupTables.v ===== *)
(** * The tables of [tools/re/springboard_startup_trace_callbacks.py]

    Static addresses of the shared cache: functions of known extent, call sites
    a scan cannot decode, the wait primitives, and the boundaries [install]
    plants, with their labels. *)

From stdpp Require Import base tactics list strings.
From S2P Require Import Prelude PyBytes PyStr PyDict StartupDecode.
Open Scope Z_scope.

(** [INDIRECT_CALLS]: mnemonic, target register, modifier register. *)
Definition INDIRECT_CALLS : list (Z * control) :=
  [(0x1844e4940, ViaRegister "blraa" (u "x16") (Some (u "x17")) false);
   (0x1c4a3bea8, ViaRegister "blraa" (u "x9") (Some (u "x8")) false);
   (0x1c4a3bfc8, ViaRegister "blraa" (u "x9") (Some (u "x8")) false)].

(** [KNOWN_RANGES]: start, then end, scope, image and symbol. *)
Record extent := Extent { x_end : Z; x_scope : list Z; x_image : list Z; x_symbol : list Z }.
Definition KNOWN_RANGES : list (Z * extent) :=
  [(0x1c4a15e40, Extent 0x1c4a15f20 (u "fb_create_singleton")
     (u "FrontBoard") (u "+[FBSystemShell _createSingletonWithOptions:]"));
   (0x1c4a15f20, Extent 0x1c4a15f70 (u "fb_create_singleton_block")
     (u "FrontBoard") (u "FBSystemShell singleton dispatch_once block"));
   (0x1c4a158e4, Extent 0x1c4a15c00 (u "fb_init_options")
     (u "FrontBoard") (u "-[FBSystemShell _initWithOptions:]"));
   (0x1c4a15c00, Extent 0x1c4a15ca0 (u "fb_init_options_c0")
     (u "FrontBoard") (u "-[FBSystemShell _initWithOptions:] page c0"));
   (0x1c4a15cc0, Extent 0x1c4a15d4c (u "fb_init_options_block_1")
     (u "FrontBoard") (u "FBSystemShell options callback block 1"));
   (0x1c4a15d4c, Extent 0x1c4a15e40 (u "fb_init_options_block_2")
     (u "FrontBoard") (u "FBSystemShell options callback block 2"));
   (0x186dc8bcc, Extent 0x186dc8bd0 (u "ls_context_init_options")
     (u "CoreServices") (u "_LSContextInitWithOptions"));
   (0x186dc8bd0, Extent 0x186dc9668 (u "ls_context_init_common")
     (u "CoreServices") (u "_LSContextInitCommon"));
   (0x186dc9668, Extent 0x186dc96b0 (u "ls_default_service_domain")
     (u "CoreServices") (u "+[_LSDServiceDomain defaultServiceDomain]"));
   (0x186dc96b0, Extent 0x186dc9798 (u "ls_database_context_get")
     (u "CoreServices") (u "LaunchServices::Database::Context::_get"));
   (0x186dc8768, Extent 0x186dc8bcc (u "ls_application_record_init_core")
     (u "CoreServices") (u "-[LSApplicationRecord _initWithNode:bundleIdentifier:placeholderBehavior:systemPlaceholder:itemID:forceInBundleContainer:context:error:]"));
   (0x186dca928, Extent 0x186dcab5c (u "ls_application_record_init_block")
     (u "CoreServices") (u "LSApplicationRecord database lookup block"));
   (0x186dd1348, Extent 0x186dd1388 (u "ls_application_record_init_fetching_placeholder")
     (u "CoreServices") (u "-[LSApplicationRecord initWithBundleIdentifier:fetchingPlaceholder:error:]"));
   (0x186dd29e4, Extent 0x186dd29ec (u "ls_application_record_init_allow_placeholder")
     (u "CoreServices") (u "-[LSApplicationRecord initWithBundleIdentifier:allowPlaceholder:error:]"));
   (0x186df21c8, Extent 0x186df2b04 (u "ls_copy_server_store")
     (u "CoreServices") (u "_LSCopyServerStore"));
   (0x186df2b04, Extent 0x186df2c40 (u "ls_copy_server_store_block")
     (u "CoreServices") (u "_LSCopyServerStore reply block"));
   (0x186df15b0, Extent 0x186df171c (u "ls_read_client_get_server_store")
     (u "CoreServices") (u "-[_LSDReadClient getServerStoreNonBlockingWithCompletionHandler:]"));
   (0x186df1e04, Extent 0x186df2168 (u "ls_server_get_store_for_connection")
     (u "CoreServices") (u "_LSServer_GetServerStoreForConnectionWithCompletionHandler"));
   (0x259097d0c, Extent 0x259097da4 (u "ccs_start_services")
     (u "ControlCenterServices") (u "+[CCSControlCenterServicesManager startServices]"));
   (0x259097de0, Extent 0x259097fb0 (u "ccs_start_services_body")
     (u "ControlCenterServices") (u "startServices body"));
   (0x25908a868, Extent 0x25908a8ac (u "ccs_remote_shared")
     (u "ControlCenterServices") (u "+[CCSRemoteServiceProvider sharedInstance]"));
   (0x25908a8ac, Extent 0x25908a90c (u "ccs_remote_shared_once")
     (u "ControlCenterServices") (u "CCSRemoteServiceProvider sharedInstance once block"));
   (0x25908a90c, Extent 0x25908a9e0 (u "ccs_remote_init")
     (u "ControlCenterServices") (u "-[CCSRemoteServiceProvider _init]"));
   (0x25908ab00, Extent 0x25908ab08 (u "ccs_remote_resume")
     (u "ControlCenterServices") (u "-[CCSRemoteServiceProvider resume]"));
   (0x2590953c8, Extent 0x259095468 (u "ccs_repository_shared")
     (u "ControlCenterServices") (u "+[CCSModuleRepository sharedInstance]"));
   (0x259095468, Extent 0x2590954f4 (u "ccs_repository_shared_once")
     (u "ControlCenterServices") (u "CCSModuleRepository sharedInstance once block"));
   (0x259095544, Extent 0x2590956d4 (u "ccs_repository_init")
     (u "ControlCenterServices") (u "-[CCSModuleRepository _initWithDirectoryURLs:allowedModuleIdentifiers:]"));
   (0x2590956d4, Extent 0x25909576c (u "ccs_repository_init_block")
     (u "ControlCenterServices") (u "CCSModuleRepository initialization dispatch block"));
   (0x25909602c, Extent 0x25909608c (u "ccs_repository_update_all")
     (u "ControlCenterServices") (u "-[CCSModuleRepository _queue_updateAllModuleMetadata]"));
   (0x259096294, Extent 0x25909642c (u "ccs_repository_update_all_for_all")
     (u "ControlCenterServices") (u "-[CCSModuleRepository _queue_updateAllModuleMetadataForAllModuleMetadata:]"));
   (0x25909642c, Extent 0x259096500 (u "ccs_repository_update_available_for_all")
     (u "ControlCenterServices") (u "-[CCSModuleRepository _queue_updateAvailableModuleMetadataForAllModuleMetadata:]"));
   (0x259096500, Extent 0x25909675c (u "ccs_repository_update_loadable_for_available")
     (u "ControlCenterServices") (u "-[CCSModuleRepository _queue_updateLoadableModuleMetadataForAvailableModuleMetadata:]"));
   (0x25909675c, Extent 0x259096768 (u "ccs_repository_update_loadable_block")
     (u "ControlCenterServices") (u "CCSModuleRepository update-loadable completion block"));
   (0x259096768, Extent 0x2590968d4 (u "ccs_repository_module_identifiers")
     (u "ControlCenterServices") (u "-[CCSModuleRepository _queue_moduleIdentifiersForMetadata:]"));
   (0x2590968d4, Extent 0x2590969bc (u "ccs_repository_load_all")
     (u "ControlCenterServices") (u "-[CCSModuleRepository _queue_loadAllModuleMetadata]"));
   (0x2590969bc, Extent 0x259096a38 (u "ccs_repository_load_all_block_1")
     (u "ControlCenterServices") (u "CCSModuleRepository load-all enumeration block 1"));
   (0x259096a38, Extent 0x259096a80 (u "ccs_repository_load_all_block_2")
     (u "ControlCenterServices") (u "CCSModuleRepository load-all enumeration block 2"));
   (0x259096a80, Extent 0x259096c58 (u "ccs_repository_load_all_block_3")
     (u "ControlCenterServices") (u "CCSModuleRepository load-all enumeration block 3"));
   (0x259096c58, Extent 0x259096cb8 (u "ccs_repository_filter_bundle_availability")
     (u "ControlCenterServices") (u "-[CCSModuleRepository _queue_filterModuleMetadataByAssociatedBundleAvailability:]"));
   (0x259096cb8, Extent 0x259096e60 (u "ccs_repository_filter_bundle_availability_block")
     (u "ControlCenterServices") (u "CCSModuleRepository bundle-availability filter block"));
   (0x259096e60, Extent 0x259096ecc (u "ccs_repository_update_interesting_bundles")
     (u "ControlCenterServices") (u "-[CCSModuleRepository _queue_updateInterestingBundleIdentifiersForModuleMetadata:]"));
   (0x259096ecc, Extent 0x259097038 (u "ccs_repository_associated_bundles")
     (u "ControlCenterServices") (u "-[CCSModuleRepository _queue_associatedBundleIdentifiersForModuleMetadata:]"));
   (0x259097038, Extent 0x2590970dc (u "ccs_repository_has_interesting_proxy")
     (u "ControlCenterServices") (u "-[CCSModuleRepository _queue_arrayContainsInterestingApplicationProxy:]"));
   (0x2590970dc, Extent 0x259097128 (u "ccs_repository_has_interesting_proxy_block")
     (u "ControlCenterServices") (u "CCSModuleRepository interesting-application filter block"));
   (0x259097128, Extent 0x259097188 (u "ccs_repository_filter_visibility")
     (u "ControlCenterServices") (u "-[CCSModuleRepository _queue_filterModuleMetadataByVisibilityPreference:]"));
   (0x259097188, Extent 0x2590971f8 (u "ccs_repository_filter_visibility_block")
     (u "ControlCenterServices") (u "CCSModuleRepository visibility filter block"));
   (0x2590972ac, Extent 0x259097438 (u "ccs_repository_filter_gestalt")
     (u "ControlCenterServices") (u "-[CCSModuleRepository _queue_filterModuleMetadataByGestalt:]"));
   (0x259097438, Extent 0x259097458 (u "ccs_repository_filter_gestalt_block_1")
     (u "ControlCenterServices") (u "CCSModuleRepository gestalt filter block 1"));
   (0x259097458, Extent 0x25909751c (u "ccs_repository_filter_gestalt_block_2")
     (u "ControlCenterServices") (u "CCSModuleRepository gestalt filter block 2"));
   (0x25909751c, Extent 0x259097618 (u "ccs_repository_update_gestalt_questions")
     (u "ControlCenterServices") (u "-[CCSModuleRepository _queue_updateGestaltQuestionsForModuleMetadata:]"));
   (0x259097618, Extent 0x259097658 (u "ccs_repository_update_gestalt_questions_block")
     (u "ControlCenterServices") (u "CCSModuleRepository gestalt-question enumeration block"));
   (0x259097658, Extent 0x2590977d4 (u "ccs_repository_gestalt_questions")
     (u "ControlCenterServices") (u "-[CCSModuleRepository _queue_gestaltQuestionsForModuleMetadata:]"));
   (0x259092828, Extent 0x25909297c (u "ccs_settings_init")
     (u "ControlCenterServices") (u "-[CCSModuleSettingsProvider init]"))].

Definition WAIT_PRIMITIVES : list (Z * list Z) :=
  [(0x237ccfccc, u "mach_msg2_trap");
   (0x237ccfc0c, u "mach_msg_trap");
   (0x237ccfc48, u "semaphore_wait_trap");
   (0x237ccfc60, u "semaphore_timedwait_trap");
   (0x237cd041c, u "kevent_qos");
   (0x1ae8bae94, u "dispatch_semaphore_wait");
   (0x1ae8d4690, u "dispatch_mach_send_and_wait_for_reply")].

Definition GLOBAL_PROGRESS_LABELS : list (list Z) :=
  map u ["CADISPLAY_MAIN_ENTRY";
         "CADISPLAY_MAIN_RETURN";
         "FB_SYSTEM_SHELL_ENTRY";
         "QUERY_DISPLAYS_RETURN";
         "ENSURE_DISPLAYS_AFTER_QUERY";
         "ENSURE_DISPLAYS_RETURN";
         "FB_SYSTEM_SHELL_RETURN";
         "FB_CREATE_SINGLETON_ENTRY";
         "FB_CREATE_SINGLETON_BLOCK_ENTRY";
         "FB_INIT_OPTIONS_ENTRY";
         "FB_INIT_OPTIONS_PAGE_C0";
         "SB_BEFORE_FB_SYSTEM_SHELL";
         "SB_AFTER_FB_SYSTEM_SHELL";
         "SB_BEFORE_UIAPPLICATION_MAIN";
         "UIAPPLICATION_MAIN";
         "SB_ADFL_ENTRY";
         "SB_FINALIZE_ENTRY";
         "SB_UPDATE_ENTRY";
         "SB_SET_REASON_ENTRY";
         "SB_SETUPAPP_ENTRY";
         "SB_ACTIVATE_ENTRY";
         "SPRINGBOARD_ABORT";
         "SPRINGBOARD_EXIT"]%string.

(** The boundaries of [install]. *)
Definition BOUNDARIES : list (Z * list Z) :=
  [(0x186dc8bcc, u "CORE_SERVICES_LS_CONTEXT_INIT_OPTIONS");
   (0x186dc8bd0, u "CORE_SERVICES_LS_CONTEXT_INIT_COMMON");
   (0x186dc9668, u "CORE_SERVICES_LS_DEFAULT_SERVICE_DOMAIN");
   (0x186dc96b0, u "CORE_SERVICES_LS_DATABASE_CONTEXT_GET");
   (0x186dc8768, u "CORE_SERVICES_LS_APPLICATION_RECORD_INIT_CORE");
   (0x186dca928, u "CORE_SERVICES_LS_APPLICATION_RECORD_INIT_BLOCK");
   (0x186dd1348, u "CORE_SERVICES_LS_APPLICATION_RECORD_INIT_FETCHING_PLACEHOLDER");
   (0x186dd29e4, u "CORE_SERVICES_LS_APPLICATION_RECORD_INIT_ALLOW_PLACEHOLDER");
   (0x186df21c8, u "CORE_SERVICES_LS_COPY_SERVER_STORE");
   (0x186df2b04, u "CORE_SERVICES_LS_COPY_SERVER_STORE_BLOCK");
   (0x186df15b0, u "CORE_SERVICES_LS_READ_CLIENT_GET_SERVER_STORE");
   (0x186df1e04, u "CORE_SERVICES_LS_SERVER_GET_STORE_FOR_CONNECTION");
   (0x2244cef28, u "SB_INIT_SERVICES_ENTRY");
   (0x2244cf000, u "SB_INIT_SERVICES_PAGE_F0");
   (0x2247c63fc, u "SB_APP_SUPPORT_START_ENTRY");
   (0x224cc6eb0, u "SB_APP_SUPPORT_START_COLD");
   (0x2247c6428, u "SB_APP_SUPPORT_ONCE_ENTRY");
   (0x2247c6460, u "SB_APP_SUPPORT_ONCE_RETURN");
   (0x2247c5628, u "SB_APP_SUPPORT_DELEGATE_INIT");
   (0x2247c56e0, u "SB_APP_SUPPORT_DELEGATE_RETURN");
   (0x2247c576c, u "SB_APP_SUPPORT_REBUILD_CONTEXT");
   (0x2247c57c4, u "SB_APP_SUPPORT_REBUILD_RETURN");
   (0x259097d0c, u "CCS_START_SERVICES_ENTRY");
   (0x259097de0, u "CCS_START_SERVICES_BODY");
   (0x25908a868, u "CCS_REMOTE_SHARED_ENTRY");
   (0x25908a8ac, u "CCS_REMOTE_SHARED_ONCE_ENTRY");
   (0x25908a90c, u "CCS_REMOTE_INIT_ENTRY");
   (0x25908ab00, u "CCS_REMOTE_RESUME_ENTRY");
   (0x2590953c8, u "CCS_REPOSITORY_SHARED_ENTRY");
   (0x259095468, u "CCS_REPOSITORY_SHARED_ONCE_ENTRY");
   (0x259095544, u "CCS_REPOSITORY_INIT_ENTRY");
   (0x2590956d4, u "CCS_REPOSITORY_INIT_BLOCK");
   (0x25909602c, u "CCS_REPOSITORY_UPDATE_ALL_ENTRY");
   (0x259096294, u "CCS_REPOSITORY_UPDATE_ALL_FOR_ALL_ENTRY");
   (0x25909642c, u "CCS_REPOSITORY_UPDATE_AVAILABLE_FOR_ALL_ENTRY");
   (0x259096500, u "CCS_REPOSITORY_UPDATE_LOADABLE_FOR_AVAILABLE_ENTRY");
   (0x25909675c, u "CCS_REPOSITORY_UPDATE_LOADABLE_BLOCK");
   (0x259096768, u "CCS_REPOSITORY_MODULE_IDENTIFIERS_ENTRY");
   (0x2590968d4, u "CCS_REPOSITORY_LOAD_ALL_ENTRY");
   (0x2590969bc, u "CCS_REPOSITORY_LOAD_ALL_BLOCK_1");
   (0x259096a38, u "CCS_REPOSITORY_LOAD_ALL_BLOCK_2");
   (0x259096a80, u "CCS_REPOSITORY_LOAD_ALL_BLOCK_3");
   (0x259096c58, u "CCS_REPOSITORY_FILTER_BUNDLE_AVAILABILITY_ENTRY");
   (0x259096cb8, u "CCS_REPOSITORY_FILTER_BUNDLE_AVAILABILITY_BLOCK");
   (0x259096e60, u "CCS_REPOSITORY_UPDATE_INTERESTING_BUNDLES_ENTRY");
   (0x259096ecc, u "CCS_REPOSITORY_ASSOCIATED_BUNDLES_ENTRY");
   (0x259097038, u "CCS_REPOSITORY_HAS_INTERESTING_PROXY_ENTRY");
   (0x2590970dc, u "CCS_REPOSITORY_HAS_INTERESTING_PROXY_BLOCK");
   (0x259097128, u "CCS_REPOSITORY_FILTER_VISIBILITY_ENTRY");
   (0x259097188, u "CCS_REPOSITORY_FILTER_VISIBILITY_BLOCK");
   (0x2590972ac, u "CCS_REPOSITORY_FILTER_GESTALT_ENTRY");
   (0x259097438, u "CCS_REPOSITORY_FILTER_GESTALT_BLOCK_1");
   (0x259097458, u "CCS_REPOSITORY_FILTER_GESTALT_BLOCK_2");
   (0x25909751c, u "CCS_REPOSITORY_UPDATE_GESTALT_QUESTIONS_ENTRY");
   (0x259097618, u "CCS_REPOSITORY_UPDATE_GESTALT_QUESTIONS_BLOCK");
   (0x259097658, u "CCS_REPOSITORY_GESTALT_QUESTIONS_ENTRY");
   (0x259092828, u "CCS_SETTINGS_INIT_ENTRY");
   (0x1843e2e58, u "CADISPLAY_MAIN_ENTRY");
   (0x1843e2e84, u "CADISPLAY_MAIN_RETURN");
   (0x1844e4d5c, u "QUERY_DISPLAYS_RETURN");
   (0x1843e33b8, u "ENSURE_DISPLAYS_AFTER_QUERY");
   (0x1843e33b0, u "ENSURE_DISPLAYS_RETURN");
   (0x1c4a3bd80, u "FB_SYSTEM_SHELL_ENTRY");
   (0x1c4a3c35c, u "FB_SYSTEM_SHELL_RETURN");
   (0x1c4a15e40, u "FB_CREATE_SINGLETON_ENTRY");
   (0x1c4a15f20, u "FB_CREATE_SINGLETON_BLOCK_ENTRY");
   (0x1c4a158e4, u "FB_INIT_OPTIONS_ENTRY");
   (0x1c4a15c00, u "FB_INIT_OPTIONS_PAGE_C0");
   (0x1c4a15cc0, u "FB_INIT_OPTIONS_BLOCK_1");
   (0x1c4a15d4c, u "FB_INIT_OPTIONS_BLOCK_2");
   (0x224458bf0, u "SB_BEFORE_FB_SYSTEM_SHELL");
   (0x224458bf4, u "SB_AFTER_FB_SYSTEM_SHELL");
   (0x224458c7c, u "SB_BEFORE_UIAPPLICATION_MAIN");
   (0x18490d11c, u "UIAPPLICATION_MAIN");
   (0x2244d0ba4, u "SB_ADFL_ENTRY");
   (0x2244d8cf4, u "SB_FINALIZE_ENTRY");
   (0x2246d37f0, u "SB_UPDATE_ENTRY");
   (0x2246d3adc, u "SB_SET_REASON_ENTRY");
   (0x2243bf920, u "SB_SETUPAPP_ENTRY");
   (0x22433ff18, u "SB_ACTIVATE_ENTRY");
   (0x187f727a4, u "SPRINGBOARD_ABORT");
   (0x237ce21a4, u "SPRINGBOARD_EXIT")].

(** The ranges [on_boundary] plants at a label, page by page. *)
Definition BOUNDARY_PLANTS : list (list Z * list (list Z * Z * Z)) :=
  [(u "SB_INIT_SERVICES_ENTRY", [(u "sb_init_services_ef", 0x2244cef28, 0x2244cf000)]);
   (u "SB_INIT_SERVICES_PAGE_F0", [(u "sb_init_services_f0", 0x2244cf000, 0x2244cf0d4)]);
   (u "SB_APP_SUPPORT_START_ENTRY", [(u "app_support_start", 0x2247c63fc, 0x2247c6428)]);
   (u "SB_APP_SUPPORT_ONCE_ENTRY", [(u "app_support_once", 0x2247c6428, 0x2247c6464)]);
   (u "SB_APP_SUPPORT_DELEGATE_INIT", [(u "app_support_delegate_init", 0x2247c5628, 0x2247c56e4)]);
   (u "SB_APP_SUPPORT_REBUILD_CONTEXT", [(u "app_support_rebuild_context", 0x2247c576c, 0x2247c57c8)]);
   (u "CADISPLAY_MAIN_ENTRY", [(u "cadisplay_main", 0x1843e2e58, 0x1843e2e88)]);
   (u "SB_BEFORE_FB_SYSTEM_SHELL", []);
   (u "FB_SYSTEM_SHELL_ENTRY", [(u "fb_system_shell", 0x1c4a3bd80, 0x1c4a3c000);
                                (u "fb_system_shell", 0x1c4a3c000, 0x1c4a3c360)])].
