(* ===== verification/StartupTrace.v ===== *)
(** * The startup tracer:
    [tools/re/springboard_startup_trace_callbacks.py]

    The tracer captures one thread of SpringBoard and follows its calls: it
    plants breakpoints on the call sites of known functions, a return witness
    at every call it sees, entry witnesses at targets it has not seen, and
    witnesses at the wait primitives; each callback leaves records and event
    files behind, and answers whether the guest is to stay stopped.  The
    debugger is an argument: which identifier it gives the n-th breakpoint it
    creates and how many locations an address has.  Writing an event file is
    atomic ([os.replace]) and does not fail.  The lines printed for the reader
    are left out. *)

From stdpp Require Import base tactics list gmap strings.
From Stdlib Require Import Strings.Byte.
From S2P Require Import Prelude PyState PyBytes PyStr PyDict StartupDecode StartupTables.
From S2P Require ProbeWatch.
Open Scope Z_scope.

(** ** Options *)

Record options := Options {
  MAX_CALLS : Z; MAX_SITE_HITS : Z; DYNAMIC_SCAN_BYTES : Z; MAX_DYNAMIC_TARGETS : Z; MAX_WAIT_CONTROLS : Z;
  FOLLOW_DYNAMIC : bool; EXPAND_CCS_REPOSITORY : bool; STOP_ON_SUCCESS : bool; PROGRESS_ONLY : bool;
  STOP_ON_WAIT : bool; ROOT_LABEL : list Z; SEEDED_TPIDR : option Z; SEEDED_STACK_REGION : option Z;
  EVENT_DIR : list Z; SUCCESS_LABELS : list (list Z); TRACE_SELECTOR : Z; OBJC_STUBS_TO_RESOLVE : list Z;
}.
Definition comma_list (s : list Z) : list (list Z) := base.filter (λ w, w ≠ []) (split1 44 s).

Section options.
(** [os.environ]. *)
Variable env : string → option (list Z).
Definition env_get (name default : string) : list Z :=
  match env name with Some v => v | None => u default end.
Definition env_int (name default : string) : res Z := int0 (env_get name default).
(** [int(...) if os.environ.get(name) else None]. *)
Definition env_opt_int (name : string) : res (option Z) :=
  match env name with
  | None | Some [] => Ok None
  | Some v => n ← int0 v; Ok (Some n)
  end.
Definition env_flag (name default : string) : bool := negb (bool_decide (env_get name default = u "0")).
Definition read_options : res options :=
  max_calls ← env_int "DVM_SB_TRACE_MAX_CALLS" "256";
  max_hits ← env_int "DVM_SB_TRACE_MAX_SITE_HITS" "1";
  scan ← env_int "DVM_SB_TRACE_DYNAMIC_SCAN_BYTES" "0x800";
  max_targets ← env_int "DVM_SB_TRACE_MAX_DYNAMIC_TARGETS" "64";
  max_waits ← env_int "DVM_SB_TRACE_MAX_WAIT_CONTROLS" "64";
  tpidr ← env_opt_int "DVM_SB_TRACE_TPIDR";
  region ← env_opt_int "DVM_SB_TRACE_STACK_REGION";
  selector ← env_int "DVM_SB_TRACE_PENDING_SELECTOR" "0xcc5";
  stubs ← res_map int0 (comma_list (env_get "DVM_SB_TRACE_OBJC_STUBS" "0x188118b30"));
  Ok (Options max_calls (Z.max 1 max_hits) (Z.max 4 scan) (Z.max 1 max_targets) (Z.max 1 max_waits)
        (env_flag "DVM_SB_TRACE_FOLLOW_DYNAMIC" "1") (env_flag "DVM_SB_TRACE_EXPAND_CCS_REPOSITORY" "0")
        (env_flag "DVM_SB_TRACE_STOP_ON_SUCCESS" "0") (env_flag "DVM_SB_TRACE_PROGRESS_ONLY" "0")
        (env_flag "DVM_SB_TRACE_STOP_ON_WAIT" "0") (env_get "DVM_SB_TRACE_ROOT_LABEL" "")
        tpidr region (env_get "DVM_PROBE_EVENT_DIR" "")
        (comma_list (env_get "DVM_PROBE_SUCCESS_LABELS" "")) selector stubs).
End options.

(** ** State *)

(** [CONFIG]: what [_install] puts in an entry, and what is added to it. *)
Record call_site := CallSite { cs_scope : list Z; cs_static : Z; cs_word : Z; cs_control : control; cs_hits : Z }.
Record target_entry := TargetEntry { te_runtime : Z; te_static : Z; te_call : Z; te_dynamic : bool }.
Inductive extra := Plain | ACall (c : call_site) | AnEntry (e : target_entry).
Record config := Config { cf_label : list Z; cf_address : Z; cf_extra : extra }.

(** [RETURNS], [ACTIVE_CALLS], [OBJC_DISPATCHES] and [WAIT_RETURNS].  The
    dispatches of one call share a list: [d_group] is its location. *)
Record return_site := ReturnSite {
  r_call : Z; r_callsite : Z; r_target_static : option Z; r_target_runtime : option Z; r_started : Z; r_scope : list Z;
}.
Record active_call := ActiveCall { ac_scope : list Z; ac_callsite : Z; ac_target : option Z }.
Record dispatch := Dispatch { d_call : Z; d_receiver : option Z; d_selector : Z; d_group : Z; d_static : Z }.
Record wait_site := WaitSite {
  w_sequence : Z; w_call : Z; w_root : option Z; w_label : list Z; w_return : Z; w_started : Z;
}.

(** The breakpoints the debugger has. *)
Inductive callback :=
  | OnAnchor | OnBoundary | OnCall | OnReturn | OnTargetEntry | OnObjcDispatch
  | OnWaitPrimitive | OnWaitReturn | OnSeededWaitReturn.
Record breakpoint := Breakpoint { b_address : Z; b_callback : option callback; b_enabled : bool }.

Record tables := Tables {
  config_ : gmap Z config; returns : gmap Z return_site; active : gmap Z active_call;
  entry_points : gmap Z Z; dispatches : gmap Z dispatch; groups : gmap Z (list Z);
  wait_ids : list Z; wait_returns : gmap Z wait_site;
}.
(** [TRACE]. *)
Record trace := Trace {
  t_tpidr : option Z; t_x18 : option Z; t_regions : gset Z; t_contexts : list (option Z);
  t_thread : option Z; t_started : option Z; t_calls : Z; t_dynamic_targets : Z;
  t_wait_root : option Z; t_wait_sequence : Z; t_wait_controls : Z;
}.

Definition set_config (v : gmap Z config) (s : tables) : tables :=
  Tables v (returns s) (active s) (entry_points s) (dispatches s) (groups s) (wait_ids s)
    (wait_returns s).
Definition set_returns (v : gmap Z return_site) (s : tables) : tables :=
  Tables (config_ s) v (active s) (entry_points s) (dispatches s) (groups s) (wait_ids s)
    (wait_returns s).
Definition set_active (v : gmap Z active_call) (s : tables) : tables :=
  Tables (config_ s) (returns s) v (entry_points s) (dispatches s) (groups s) (wait_ids s)
    (wait_returns s).
Definition set_entry_points (v : gmap Z Z) (s : tables) : tables :=
  Tables (config_ s) (returns s) (active s) v (dispatches s) (groups s) (wait_ids s) (wait_returns s).
Definition set_dispatches (v : gmap Z dispatch) (s : tables) : tables :=
  Tables (config_ s) (returns s) (active s) (entry_points s) v (groups s) (wait_ids s)
    (wait_returns s).
Definition set_groups (v : gmap Z (list Z)) (s : tables) : tables :=
  Tables (config_ s) (returns s) (active s) (entry_points s) (dispatches s) v (wait_ids s)
    (wait_returns s).
Definition set_wait_ids (v : list Z) (s : tables) : tables :=
  Tables (config_ s) (returns s) (active s) (entry_points s) (dispatches s) (groups s) v
    (wait_returns s).
Definition set_wait_returns (v : gmap Z wait_site) (s : tables) : tables :=
  Tables (config_ s) (returns s) (active s) (entry_points s) (dispatches s) (groups s) (wait_ids s) v.
Definition set_tpidr (v : option Z) (s : trace) : trace :=
  Trace v (t_x18 s) (t_regions s) (t_contexts s) (t_thread s) (t_started s) (t_calls s)
    (t_dynamic_targets s) (t_wait_root s) (t_wait_sequence s) (t_wait_controls s).
Definition set_x18 (v : option Z) (s : trace) : trace :=
  Trace (t_tpidr s) v (t_regions s) (t_contexts s) (t_thread s) (t_started s) (t_calls s)
    (t_dynamic_targets s) (t_wait_root s) (t_wait_sequence s) (t_wait_controls s).
Definition set_regions (v : gset Z) (s : trace) : trace :=
  Trace (t_tpidr s) (t_x18 s) v (t_contexts s) (t_thread s) (t_started s) (t_calls s)
    (t_dynamic_targets s) (t_wait_root s) (t_wait_sequence s) (t_wait_controls s).
Definition set_contexts (v : list (option Z)) (s : trace) : trace :=
  Trace (t_tpidr s) (t_x18 s) (t_regions s) v (t_thread s) (t_started s) (t_calls s)
    (t_dynamic_targets s) (t_wait_root s) (t_wait_sequence s) (t_wait_controls s).
Definition set_thread (v : option Z) (s : trace) : trace :=
  Trace (t_tpidr s) (t_x18 s) (t_regions s) (t_contexts s) v (t_started s) (t_calls s)
    (t_dynamic_targets s) (t_wait_root s) (t_wait_sequence s) (t_wait_controls s).
Definition set_started (v : option Z) (s : trace) : trace :=
  Trace (t_tpidr s) (t_x18 s) (t_regions s) (t_contexts s) (t_thread s) v (t_calls s)
    (t_dynamic_targets s) (t_wait_root s) (t_wait_sequence s) (t_wait_controls s).
Definition set_calls (v : Z) (s : trace) : trace :=
  Trace (t_tpidr s) (t_x18 s) (t_regions s) (t_contexts s) (t_thread s) (t_started s) v
    (t_dynamic_targets s) (t_wait_root s) (t_wait_sequence s) (t_wait_controls s).
Definition set_dynamic_targets (v : Z) (s : trace) : trace :=
  Trace (t_tpidr s) (t_x18 s) (t_regions s) (t_contexts s) (t_thread s) (t_started s) (t_calls s) v
    (t_wait_root s) (t_wait_sequence s) (t_wait_controls s).
Definition set_wait_root (v : option Z) (s : trace) : trace :=
  Trace (t_tpidr s) (t_x18 s) (t_regions s) (t_contexts s) (t_thread s) (t_started s) (t_calls s)
    (t_dynamic_targets s) v (t_wait_sequence s) (t_wait_controls s).
Definition set_wait_sequence (v : Z) (s : trace) : trace :=
  Trace (t_tpidr s) (t_x18 s) (t_regions s) (t_contexts s) (t_thread s) (t_started s) (t_calls s)
    (t_dynamic_targets s) (t_wait_root s) v (t_wait_controls s).
Definition set_wait_controls (v : Z) (s : trace) : trace :=
  Trace (t_tpidr s) (t_x18 s) (t_regions s) (t_contexts s) (t_thread s) (t_started s) (t_calls s)
    (t_dynamic_targets s) (t_wait_root s) (t_wait_sequence s) v.

(** ** Evidence *)

Abbreviation reg_list := (list (list Z * option Z)).
(** The [TRACE_JSON] records by kind; the times of the header are left out. *)
Inductive record :=
  | RScan (scope : list Z) (start end_ bytes_read planted : Z)
  | RFunctionEntry (static : Z) (image symbol : list Z) (regs : reg_list)
  | RScanSuppressed (label : list Z) (static : Z)
  | RDynamicRange (static end_ bytes_read : Z) (stub : bool) (first_return : option Z) (target limit : Z)
  | RInstrumentationStop (call : Z) (reason : string) (runtime static : option Z)
  | RObjcDispatch (call static : Z) (receiver : option Z) (selector : Z) (runtime target : option Z)
  | RWaitEntry (call : Z) (root : option Z) (sequence : Z) (label : list Z) (mach : option mach_msg2)
  | RWaitReturn (call : Z) (root : option Z) (sequence : Z) (label : list Z) (return_ duration : Z) (result : option Z)
  | RSeededWaitReturn (pc result : option Z)
  | RTargetEntry (call runtime static : Z) (lr : option Z) (regs : reg_list)
  | RArmed (anchor : option Z) (pc sp : option Z)
  | RMigReturn
  | RBoundary (label : list Z) (pc lr x0 : option Z)
  | RContext (call : Z) (pointer repository : option Z)
  | RCall (call : Z) (scope : list Z) (mnemonic : string) (runtime static : Z) (target_runtime target_static : option Z)
      (return_ : option Z) (tail : bool) (site_hit limit : Z) (regs : reg_list) (modifier : option (list Z * option Z))
  | RLimit (calls : Z)
  | RReturn (call callsite : Z) (runtime static : option Z) (duration : Z) (result : option Z)
  | RResumed (seeded : bool) (static : option Z).
(** A record with the header of the state it was emitted in, and the backtrace
    of the records that have one. *)
Record emitted := Emitted {
  em_thread : option Z; em_tpidr : option Z; em_x18 : option Z; em_regions : gset Z;
  em_backtrace : list (Z * option Z); em_record : record;
}.

(** The event files. *)
Inductive payload :=
  | PPending (e : ProbeWatch.event) (progress scope : list Z) (callsite : Z) (target : option Z)
  | PPendingWait (e : ProbeWatch.event) (root : option Z) (sequence : Z) (label : list Z)
  | PReturned (e : ProbeWatch.event)
  | PReturnedWait (e : ProbeWatch.event) (sequence duration : Z) (result : option Z)
  | PWaitEntry (call : Z) (root : option Z) (sequence : Z) (label : list Z) (runtime static : Z)
      (pc lr : option Z) (return_ : Z) (regs : reg_list) (mach : option mach_msg2) (time : Z)
  | PSeeded (pc result tpidr : option Z) (regs : reg_list) (time : Z)
  | PStop (call : Z) (reason : string) (runtime static : option Z) (limit time : Z)
  | PProgress (label : list Z) (time thread : Z) (tpidr pc sp : option Z)
  | PSuccess (label : list Z) (time : Z) (thread : option Z)
  | PReady (time selector breakpoints : Z)
  | PResumedProgressOnly (time : Z) (program : list Z).

Record state := State {
  created : Z; bps : gmap Z breakpoint; tabs : tables; tr : trace;
  out : list emitted; files : gmap (list Z) payload;
}.
Definition set_bps (v : gmap Z breakpoint) (s : state) : state :=
  State (created s) v (tabs s) (tr s) (out s) (files s).
Definition with_tabs (f : tables → tables) (s : state) : state :=
  State (created s) (bps s) (f (tabs s)) (tr s) (out s) (files s).
Definition with_trace (f : trace → trace) (s : state) : state :=
  State (created s) (bps s) (tabs s) (f (tr s)) (out s) (files s).
Definition set_files (v : gmap (list Z) payload) (s : state) : state :=
  State (created s) (bps s) (tabs s) (tr s) (out s) v.
Abbreviation SM := (SE state).

Definition no_tables : tables := Tables ∅ ∅ ∅ ∅ ∅ ∅ [] ∅.
Definition no_trace : trace := Trace None None ∅ [] None None 0 0 None 0 0.
Definition no_state : state := State 0 ∅ no_tables no_trace [] ∅.

(** [max(ACTIVE_CALLS)]. *)
Definition deepest {A} (m : gmap Z A) : option Z :=
  map_fold (λ k _ best, Some (match best with Some b => Z.max k b | None => k end)) None m.

(** [range(0, len(data) - 3, 4)] with the word at each offset. *)
Fixpoint words_at (n : nat) (offset : Z) (data : list byte) : list (Z * Z) :=
  match n with
  | O => []
  | S n => if zlen data <? 4 then [] else (offset, le_Z (slice 0 4 data)) :: words_at n (offset + 4) (zdrop 4 data)
  end.
Definition code_words (data : list byte) : list (Z * Z) := words_at (length data) 0 data.

Definition stack_region (f : frame) : Z := Z.land (or0 (f_reg f (u "sp"))) (Z.lnot 0xfffff).
Definition regs (f : frame) (names : list string) : reg_list := map (λ n, (u n, f_reg f (u n))) names.
Definition call_regs : list string := ["x0"; "x1"; "x2"; "x3"; "x8"; "x9"; "x16"; "x17"; "x19"; "x20"]%string.
Definition wait_regs : list string :=
  ["x0"; "x1"; "x2"; "x3"; "x4"; "x5"; "x6"; "x7"; "x8"; "x16"; "x17"]%string.

Section tracer.
Variable o : options.
Variable slide : Z.
(** The debugger: the identifier of the n-th breakpoint, the number of
    locations of an address, [None] when it makes no valid breakpoint. *)
Variable alloc : Z → Z.
Variable locations : Z → option Z.

(** [GetID] of an invalid breakpoint. *)
Definition INVALID_BREAK_ID : Z := 0.

Definition static_ (a : option Z) : option Z := static_of slide a.
Definition is_springboard (f : frame) : bool := bool_decide (progname slide f = u "SpringBoard").

(** *** The debugger's side *)

Definition create_bp (address : Z) : SM Z := λ s,
  match locations address with
  | None => (Ok INVALID_BREAK_ID, s)
  | Some _ =>
      let i := alloc (created s) in
      (Ok i, State (created s + 1) (<[i := Breakpoint address None true]> (bps s)) (tabs s) (tr s) (out s) (files s))
  end.
Definition set_callback (i : Z) (c : callback) : SM () :=
  update (λ s, set_bps (alter (λ b, Breakpoint (b_address b) (Some c) (b_enabled b)) i (bps s)) s).
(** [SetEnabled] of a breakpoint found by its identifier. *)
Definition set_enabled (i : Z) (e : bool) : SM () :=
  update (λ s, set_bps (alter (λ b, Breakpoint (b_address b) (b_callback b) e) i (bps s)) s).
Definition delete_bp (i : Z) : SM () := update (λ s, set_bps (delete i (bps s)) s).

(** *** Evidence *)

Definition emit (f : frame) (limit : nat) (r : record) : SM () := update (λ s,
  State (created s) (bps s) (tabs s) (tr s)
    (out s ++ [Emitted (t_thread (tr s)) (t_tpidr (tr s)) (t_x18 (tr s)) (t_regions (tr s)) (backtrace slide f limit) r])
    (files s)).
Definition events_on : bool := negb (bool_decide (EVENT_DIR o = [])).
Definition write_event (name : list Z) (p : payload) : SM () :=
  when events_on (update (λ s, set_files (<[name := p]> (files s)) s)).
Definition remove_event (name : list Z) : SM () :=
  when events_on (update (λ s, set_files (delete name (files s)) s)).
Definition pending_trace : list Z := u "pending.trace.json".
Definition refresh_pending (f : frame) (progress : string) : SM () :=
  calls ← gets (λ s, active (tabs s));
  match deepest calls with
  | None => remove_event pending_trace
  | Some call =>
      a ← lift (opt_or (calls !! call) (KeyError (dec call)));
      write_event pending_trace
        (PPending (ProbeWatch.Event call (TRACE_SELECTOR o) (f_now f)) (u progress) (ac_scope a) (ac_callsite a) (ac_target a))
  end.

(** *** Which thread *)

Definition same_thread_fast (f : frame) : SM bool :=
  t ← gets tr;
  mret (match t_tpidr t with
        | Some v => bool_decide (f_reg f (u "tpidr_el1") = Some v) && bool_decide (stack_region f ∈ t_regions t)
        | None => false
        end).
Definition same_thread (f : frame) : SM bool :=
  fast ← same_thread_fast f; mret (fast && is_springboard f).

(** *** Planting *)

Definition install_bp (address : Z) (label : list Z) (c : callback) (enabled : bool) : SM Z :=
  i ← create_bp address;
  if bool_decide (locations address = Some 1) then
    _ ← set_callback i c;
    _ ← set_enabled i enabled;
    _ ← update (with_tabs (λ t, set_config (<[i := Config label address Plain]> (config_ t)) t));
    mret i
  else raise (RuntimeError "failed breakpoint").
(** [CONFIG[id].update(...)]. *)
Definition add_config (i : Z) (e : extra) : SM () :=
  update (with_tabs (λ t, set_config (alter (λ c, Config (cf_label c) (cf_address c) e) i (config_ t)) t)).
Definition enable_wait_primitives (enabled : bool) : SM () :=
  ids ← gets (λ s, wait_ids (tabs s));
  for_each (λ i, set_enabled i enabled) ids.

Definition call_of (c : config) : option call_site := match cf_extra c with ACall c => Some c | _ => None end.
Definition scope_statics (scope : list Z) (cfg : gmap Z config) : list Z :=
  omap (λ e, c ← call_of e.2; if bool_decide (cs_scope c = scope) then Some (cs_static c) else None) (map_to_list cfg).

(** The transfers of a scanned range that have no breakpoint yet. *)
Definition transfer_at (start end_ : Z) (w : Z * Z) : option (Z * Z * control) :=
  let static_pc := start + w.1 in
  match decode_control static_pc w.2 start end_ with
  | Some c => Some (static_pc, w.2, c)
  | None => c ← dget static_pc INDIRECT_CALLS; Some (static_pc, w.2, c)
  end.
Definition to_plant (existing : list Z) (start end_ : Z) (data : list byte) : list (Z * Z * control) :=
  base.filter (λ t, t.1.1 ∉ existing) (omap (transfer_at start end_) (code_words data)).
Definition plant_call (scope : list Z) (t : Z * Z * control) : SM () :=
  let '(static_pc, word, control) := t in
  i ← install_bp (slide + static_pc) (upper scope ++ u "_CALL_" ++ digits_of 16 static_pc) OnCall true;
  add_config i (ACall (CallSite scope static_pc word control 0)).
Definition plant_calls (f : frame) (scope : list Z) (start end_ : Z) : SM () :=
  cfg ← gets (λ s, config_ (tabs s));
  let data := read f (slide + start) (end_ - start) in
  let todo := to_plant (scope_statics scope cfg) start end_ data in
  _ ← for_each (plant_call scope) todo;
  emit f 0 (RScan scope start end_ (zlen data) (zlen todo)).

Definition plant_known_range (f : frame) (static_start : Z) : SM () :=
  match dget static_start KNOWN_RANGES with
  | None => mret ()
  | Some x =>
      _ ← emit f 0 (RFunctionEntry static_start (x_image x) (x_symbol x) (regs f call_regs));
      plant_calls f (x_scope x) static_start (x_end x)
  end.
Definition expand_known_boundary (f : frame) (label : list Z) (static_start : Z) : SM () :=
  if startswith (u "CCS_REPOSITORY_") label && negb (EXPAND_CCS_REPOSITORY o)
  then emit f 0 (RScanSuppressed label static_start)
  else plant_known_range f static_start.

(** [_plant_dynamic_range]: where the scan of an unknown function ends, whether
    a stub's tail ended it, and the first return seen. *)
Definition is_return (word : Z) : bool := (word =? 0xd65f03c0) || (word =? 0xd65f0bff) || (word =? 0xd65f0fff).
Definition is_tail (word : Z) : bool :=
  (Z.shiftr word 26 =? 5) || (Z.land word 0xfffffc1f =? 0xd61f0000) || (Z.land word 0xfffff800 =? 0xd71f0800).
Fixpoint dynamic_extent (static_start end_ : Z) (first : option Z) (ws : list (Z * Z)) : Z * bool * option Z :=
  match ws with
  | [] => (end_, false, first)
  | (offset, word) :: ws =>
      let first := match first with None => if is_return word then Some offset else None | Some _ => first end in
      if (offset <? 24) && is_tail word then (static_start + offset + 4, true, first)
      else dynamic_extent static_start end_ first ws
  end.
Definition dynamic_scope (static_start : Z) : list Z := u "dynamic_" ++ digits_of 16 static_start.
Definition plant_dynamic_range (f : frame) (static_start : Z) : SM () :=
  t ← gets tr;
  let data := read f (slide + static_start) (DYNAMIC_SCAN_BYTES o) in
  let '(end_, stub, first) := dynamic_extent static_start (static_start + zlen data) None (code_words data) in
  _ ← emit f 0 (RDynamicRange static_start end_ (zlen data) stub first (t_dynamic_targets t) (MAX_DYNAMIC_TARGETS o));
  plant_calls f (dynamic_scope static_start) static_start end_.

(** [_install_target_entry]: [false] when the budget of dynamic targets is used up. *)
Definition instrumentation_stop : list Z := u "instrumentation-stop.json".
Definition FRAMEWORK_LO : Z := 0x259088000.
Definition FRAMEWORK_HI : Z := 0x25909d000.
Definition install_target_entry (f : frame) (runtime static : option Z) (call : Z) (force : bool) : SM bool :=
  t ← gets tr; known ← gets (λ s, entry_points (tabs s));
  match static, canonical <$> runtime with
  | None, _ => mret true
  | Some st, rt =>
      if dmem st KNOWN_RANGES || (negb force && negb ((FRAMEWORK_LO <=? st) && (st <? FRAMEWORK_HI)))
         || bool_decide (is_Some (rt ≫= λ a, known !! a))
      then mret true
      else if force && (MAX_DYNAMIC_TARGETS o <=? t_dynamic_targets t) then
        _ ← emit f 0 (RInstrumentationStop call "dynamic-target-limit" rt static);
        _ ← write_event instrumentation_stop
              (PStop call "dynamic-target-limit" rt static (MAX_DYNAMIC_TARGETS o) (f_now f));
        mret false
      else
        a ← lift (opt_or rt (TypeError "BreakpointCreateByAddress"));
        i ← install_bp a (u "TRACE_TARGET_ENTRY_" ++ dec call) OnTargetEntry true;
        _ ← update (with_tabs (λ t, set_entry_points (<[a := i]> (entry_points t)) t));
        _ ← add_config i (AnEntry (TargetEntry a st call force));
        _ ← when force (update (with_trace (λ t, set_dynamic_targets (t_dynamic_targets t + 1) t)));
        mret true
  end.

(** [_arm_objc_dispatch]. *)
Definition DISPATCH_STATICS : list Z := [0x188000850; 0x1880008c4; 0x188000d24].
Definition arm_one_dispatch (call : Z) (receiver : option Z) (selector static : Z) : SM () :=
  i ← install_bp (slide + static) (u "OBJC_DISPATCH_" ++ dec call ++ u "_" ++ digits_of 16 static) OnObjcDispatch true;
  _ ← update (with_tabs (λ t, set_dispatches (<[i := Dispatch call receiver selector call static]> (dispatches t)) t));
  update (with_tabs (λ t, set_groups (<[call := default [] (groups t !! call) ++ [i]]> (groups t)) t)).
Definition arm_objc_dispatch (call : Z) (receiver : option Z) (selector : Z) : SM () :=
  _ ← update (with_tabs (λ t, set_groups (<[call := []]> (groups t)) t));
  for_each (arm_one_dispatch call receiver selector) DISPATCH_STATICS.

(** *** The callbacks, each with its answer to LLDB: [true] leaves the guest stopped *)

Definition lookup_config (i : Z) : SM config :=
  cfg ← gets (λ s, config_ (tabs s)); lift (opt_or (cfg !! i) (KeyError (dec i))).

Definition on_objc_dispatch (i : Z) (f : frame) : SM bool :=
  ds ← gets (λ s, dispatches (tabs s));
  d ← lift (opt_or (ds !! i) (KeyError (dec i)));
  mine ← same_thread_fast f;
  if negb mine || negb (bool_decide (f_reg f (u "x0") = d_receiver d))
     || negb (bool_decide (f_reg f (u "x1") = Some (d_selector d)))
  then mret false
  else
    (* the printed line formats the target as a number *)
    runtime ← lift (opt_or (canonical <$> f_reg f (u "x17")) (TypeError "%x format"));
    let target := static_ (Some runtime) in
    _ ← refresh_pending f "objc-dispatch-hit";
    gs ← gets (λ s, groups (tabs s));
    _ ← for_each (λ j, set_enabled j false) (default [] (gs !! d_group d));
    _ ← emit f 0 (RObjcDispatch (d_call d) (d_static d) (d_receiver d) (d_selector d) (Some runtime) target);
    _ ← refresh_pending f "objc-dispatch";
    if FOLLOW_DYNAMIC o then
      expanded ← install_target_entry f (Some runtime) target (d_call d) true;
      mret (negb expanded)
    else mret false.

Definition WAIT_CALL_BASE : Z := 0x100000.
Definition wait_name (prefix : string) (sequence : Z) : list Z := u prefix ++ dec sequence ++ u ".json".
Definition on_wait_primitive (i : Z) (f : frame) : SM bool :=
  mine ← same_thread_fast f;
  if negb mine then mret false
  else
    config ← lookup_config i;
    t ← gets tr;
    let root := t_wait_root t in
    if bool_decide (root = None) && (MAX_WAIT_CONTROLS o <=? t_wait_controls t) then mret false
    else
      let sequence := t_wait_sequence t + 1 in
      _ ← update (with_trace (set_wait_sequence sequence));
      _ ← when (bool_decide (root = None)) (update (with_trace (λ t, set_wait_controls (t_wait_controls t + 1) t)));
      return_ ← lift (opt_or (canonical <$> f_reg f (u "lr")) (TypeError "BreakpointCreateByAddress"));
      j ← install_bp return_ (u "WAIT_RETURN_" ++ dec sequence) OnWaitReturn true;
      let call := WAIT_CALL_BASE + sequence in
      _ ← update (with_tabs (λ t, set_wait_returns
            (<[j := WaitSite sequence call root (cf_label config) return_ (f_now f)]> (wait_returns t)) t));
      mach ← (if bool_decide (cf_label config = u "WAIT_MACH_MSG2_TRAP")
              then m ← lift (mach_msg2_arguments f); mret (Some m) else mret None);
      _ ← emit f 40 (RWaitEntry call root sequence (cf_label config) mach);
      _ ← write_event (wait_name "wait-entry." sequence)
            (PWaitEntry call root sequence (cf_label config) (cf_address config) (cf_address config - slide)
               (f_reg f (u "pc")) (f_reg f (u "lr")) return_ (regs f wait_regs) mach (f_now f));
      _ ← write_event (wait_name "pending.wait." sequence)
            (PPendingWait (ProbeWatch.Event call (TRACE_SELECTOR o) (f_now f)) root sequence (cf_label config));
      mret (STOP_ON_WAIT o).

Definition on_wait_return (i : Z) (f : frame) : SM bool :=
  ws ← gets (λ s, wait_returns (tabs s));
  mine ← same_thread_fast f;
  match ws !! i with
  | Some w =>
      if negb mine then mret false
      else
        let result := f_reg f (u "x0") in
        _ ← emit f 0 (RWaitReturn (w_call w) (w_root w) (w_sequence w) (w_label w) (w_return w)
                        (f_now f - w_started w) result);
        _ ← remove_event (wait_name "pending.wait." (w_sequence w));
        _ ← write_event (ProbeWatch.returned_name (w_call w))
              (PReturnedWait (ProbeWatch.Event (w_call w) (TRACE_SELECTOR o) (f_now f)) (w_sequence w)
                 (f_now f - w_started w) result);
        _ ← delete_bp i;
        _ ← update (with_tabs (λ t, set_wait_returns (delete i (wait_returns t)) t));
        mret false
  | None => mret false
  end.

Definition on_seeded_wait_return (i : Z) (f : frame) : SM bool :=
  mine ← same_thread_fast f;
  if negb mine then mret false
  else
    let pc := f_reg f (u "pc") in
    let result := f_reg f (u "x0") in
    _ ← emit f 40 (RSeededWaitReturn pc result);
    _ ← write_event (u "seeded-wait-return.json")
          (PSeeded pc result (f_reg f (u "tpidr_el1")) (regs f (wait_regs ++ ["lr"%string])) (f_now f));
    mret (STOP_ON_WAIT o).

Definition on_target_entry (i : Z) (f : frame) : SM bool :=
  mine ← same_thread f;
  if negb mine then mret false
  else
    config ← lookup_config i;
    e ← lift (match cf_extra config with AnEntry e => Ok e | _ => Raise (KeyError (u "entry_target_static")) end);
    _ ← emit f 24 (RTargetEntry (te_call e) (te_runtime e) (te_static e) (f_reg f (u "lr")) (regs f call_regs));
    _ ← refresh_pending f "target-entry";
    _ ← plant_known_range f (te_static e);
    _ ← when (negb (dmem (te_static e) KNOWN_RANGES) && te_dynamic e) (plant_dynamic_range f (te_static e));
    _ ← set_enabled i false;
    mret false.

(** [_arm]. *)
Definition arm (f : frame) (anchor : option Z) : SM bool :=
  t ← gets tr;
  if negb (bool_decide (t_tpidr t = None)) || negb (is_springboard f) then mret false
  else
    _ ← update (with_trace (λ t, Trace (f_reg f (u "tpidr_el1")) (f_reg f (u "x18"))
          ({[stack_region f]} ∪ t_regions t) (t_contexts t) (Some (f_thread f)) (Some (f_now f))
          (t_calls t) (t_dynamic_targets t) (t_wait_root t) (t_wait_sequence t) (t_wait_controls t)));
    _ ← emit f 24 (RArmed anchor (f_reg f (u "pc")) (f_reg f (u "sp")));
    mret true.

Definition ANCHOR : Z := 0x1844e484c.
Definition on_anchor (i : Z) (f : frame) : SM bool :=
  if negb (is_springboard f) then mret false
  else if negb (bool_decide (ROOT_LABEL o = [])) then mret false
  else
    _ ← arm f (Some ANCHOR);
    _ ← enable_wait_primitives true;
    _ ← plant_calls f (u "query_displays") ANCHOR 0x1844e4d60;
    _ ← plant_calls f (u "fb_system_shell") 0x1c4a3bf08 0x1c4a3c000;
    _ ← plant_calls f (u "fb_system_shell") 0x1c4a3c000 0x1c4a3c360;
    _ ← emit f 24 RMigReturn;
    mret false.


(** [label in SUCCESS_LABELS] and [in GLOBAL_PROGRESS_LABELS]. *)
Definition is_success (label : list Z) : bool := bool_decide (label ∈ SUCCESS_LABELS o).
Definition is_progress (label : list Z) : bool := bool_decide (label ∈ GLOBAL_PROGRESS_LABELS).
Definition success_name (label : list Z) : list Z := u "success." ++ label ++ u ".json".
Definition progress_name (label : list Z) : list Z := u "progress." ++ label ++ u ".json".
Definition in_framework (label : list Z) : bool := startswith (u "CCS_") label || startswith (u "CORE_SERVICES_") label.

(** The milestones: [Some stop] when [on_boundary] returns there. *)
Definition boundary_progress (label : list Z) (f : frame) : SM (option bool) :=
  if is_progress label && is_springboard f then
    let p := PProgress label (f_now f) (f_thread f) (f_reg f (u "tpidr_el1")) (f_reg f (u "pc")) (f_reg f (u "sp")) in
    _ ← write_event (progress_name label) p;
    _ ← lift (opt_or (f_reg f (u "tpidr_el1")) (TypeError "%x format"));
    if is_success label then
      _ ← write_event (success_name label) p; mret (Some (STOP_ON_SUCCESS o))
    else mret None
  else mret None.
(** The capture of the root thread: [false] when [on_boundary] returns there. *)
Definition boundary_arm (label : list Z) (address : Z) (f : frame) : SM bool :=
  t ← gets tr;
  if bool_decide (t_tpidr t = None) then
    if negb (bool_decide (ROOT_LABEL o = [])) && negb (bool_decide (label = ROOT_LABEL o)) then mret false
    else
      armed ← arm f (Some (address - slide));
      if (armed : bool) then _ ← enable_wait_primitives true; mret true else mret false
  else mret true.
(** A block run on another stack of the thread's context. *)
Definition boundary_region (label : list Z) (f : frame) : SM () :=
  t ← gets tr;
  when (bool_decide (label = u "CCS_REPOSITORY_INIT_BLOCK") && is_springboard f
        && bool_decide (f_reg f (u "x0") ∈ t_contexts t))
    (update (with_trace (λ t, set_regions ({[stack_region f]} ∪ t_regions t) t))).
Definition boundary_plants (label : list Z) (address : Z) (f : frame) : SM () :=
  match dget label BOUNDARY_PLANTS with
  | Some ranges => for_each (λ r : list Z * Z * Z, plant_calls f r.1.1 r.1.2 r.2) ranges
  | None =>
      when (dmem (address - slide) KNOWN_RANGES || in_framework label)
        (expand_known_boundary f label (address - slide))
  end.
Definition on_boundary (i : Z) (f : frame) : SM bool :=
  config ← lookup_config i;
  let label := cf_label config in
  milestone ← boundary_progress label f;
  match milestone with
  | Some stop => mret stop
  | None =>
      if PROGRESS_ONLY o then mret false
      else
        armed ← boundary_arm label (cf_address config) f;
        if negb armed then mret false
        else
          _ ← boundary_region label f;
          mine ← same_thread f;
          if negb mine then mret false
          else
            _ ← boundary_plants label (cf_address config) f;
            _ ← emit f 24 (RBoundary label (f_reg f (u "pc")) (f_reg f (u "lr")) (f_reg f (u "x0")));
            _ ← when (bool_decide (label = u "QUERY_DISPLAYS_RETURN"))
                  (plant_calls f (u "ensure_displays") 0x1843e33b8 0x1843e35a0);
            t ← gets tr;
            _ ← when (is_success label) (write_event (success_name label) (PSuccess label (f_now f) (t_thread t)));
            _ ← when (in_framework label) (set_enabled i false);
            mret (is_success label && STOP_ON_SUCCESS o)
  end.

(** The scopes whose calls arm the inactivity deadline. *)
Definition watched_scope (scope : list Z) : bool :=
  existsb (λ p, startswith (u p) scope) ["ccs_"; "ls_"; "dynamic_"; "fb_"]%string.

(** [on_call]: where the call goes, its return witness, its target, and the
    end of the budget. *)
Definition call_target (c : control) (f : frame) : option Z * option Z :=
  match c with
  | Direct _ target _ => (Some (target + slide), Some target)
  | ViaRegister _ r _ _ => let rt := canonical <$> f_reg f r in (rt, static_ rt)
  end.
Definition CONTEXT_SITE : Z := 0x2590956a8.
Definition note_context (call : Z) (static_pc : Z) (f : frame) : SM () :=
  when (static_pc =? CONTEXT_SITE)
    (_ ← update (with_trace (λ t, set_contexts (f_reg f (u "x1") :: t_contexts t) t));
     emit f 0 (RContext call (f_reg f (u "x1")) (f_reg f (u "x0")))).
Definition plant_return (call : Z) (c : call_site) (address : Z) (runtime static : option Z) (f : frame) : SM () :=
  i ← create_bp address;
  _ ← set_callback i OnReturn;
  _ ← update (with_tabs (λ t, set_returns
        (<[i := ReturnSite call (cs_static c) static runtime (f_now f) (cs_scope c)]> (returns t)) t));
  when (watched_scope (cs_scope c))
    (_ ← update (with_tabs (λ t, set_active (<[call := ActiveCall (cs_scope c) (cs_static c) static]> (active t)) t));
     refresh_pending f "call").
Definition resolve_stub (call : Z) (runtime static : option Z) (f : frame) : SM () :=
  when (match static with Some s => bool_decide (s ∈ OBJC_STUBS_TO_RESOLVE o) | None => false end)
    (_ ← update (with_trace (set_wait_root (Some call)));
     _ ← enable_wait_primitives true;
     match objc_stub_selector slide f (or0 runtime) static with
     | None => emit f 0 (RInstrumentationStop call "cannot-decode-objc-selector" runtime static)
     | Some selector => arm_objc_dispatch call (f_reg f (u "x0")) selector
     end).
Definition scoped_ids (s : state) : list Z :=
  omap (λ e, _ ← call_of e.2; Some e.1) (map_to_list (config_ (tabs s))).
Definition call_limit (call : Z) (f : frame) : SM () :=
  ids ← gets scoped_ids;
  _ ← for_each (λ j, set_enabled j false) ids;
  t ← gets tr;
  _ ← emit f 0 (RLimit (t_calls t));
  write_event instrumentation_stop (PStop call "call-limit" None None (t_calls t) (f_now f)).
Definition on_call (i : Z) (f : frame) : SM bool :=
  mine ← same_thread f;
  t ← gets tr;
  if negb mine || (MAX_CALLS o <=? t_calls t) then mret false
  else
    config ← lookup_config i;
    c ← lift (match cf_extra config with ACall c => Ok c | _ => Raise (KeyError (u "static")) end);
    let hits := cs_hits c + 1 in
    _ ← add_config i (ACall (CallSite (cs_scope c) (cs_static c) (cs_word c) (cs_control c) hits));
    _ ← when (MAX_SITE_HITS o <=? hits) (set_enabled i false);
    let '(runtime, static) := call_target (cs_control c) f in
    let call := t_calls t + 1 in
    _ ← update (with_trace (set_calls call));
    _ ← note_context call (cs_static c) f;
    let return_ := if control_tail (cs_control c) then None else Some (cf_address config + 4) in
    _ ← match return_ with Some a => plant_return call c a runtime static f | None => mret () end;
    expanded ← install_target_entry f runtime static call (startswith (u "dynamic_") (cs_scope c));
    _ ← resolve_stub call runtime static f;
    let modifier := match cs_control c with ViaRegister _ _ m _ => m | _ => None end in
    _ ← emit f 24 (RCall call (cs_scope c) (match cs_control c with Direct m _ _ | ViaRegister m _ _ _ => m end)
                     (cf_address config) (cs_static c) runtime static return_ (control_tail (cs_control c))
                     hits (MAX_SITE_HITS o) (regs f call_regs) ((λ m, (m, f_reg f m)) <$> modifier));
    if MAX_CALLS o <=? call then _ ← call_limit call f; mret true
    else mret (negb expanded).

Definition on_return (i : Z) (f : frame) : SM bool :=
  rs ← gets (λ s, returns (tabs s));
  mine ← same_thread f;
  match rs !! i with
  | Some r =>
      if negb mine then mret false
      else
        _ ← emit f 0 (RReturn (r_call r) (r_callsite r) (r_target_runtime r) (r_target_static r)
                        (f_now f - r_started r) (f_reg f (u "x0")));
        _ ← when (watched_scope (r_scope r))
              (_ ← update (with_tabs (λ t, set_active (delete (r_call r) (active t)) t));
               _ ← refresh_pending f "return";
               write_event (ProbeWatch.returned_name (r_call r))
                 (PReturned (ProbeWatch.Event (r_call r) (TRACE_SELECTOR o) (f_now f))));
        t ← gets tr;
        _ ← when (bool_decide (t_wait_root t = Some (r_call r)))
              (_ ← update (with_trace (set_wait_root None)); enable_wait_primitives false);
        _ ← delete_bp i;
        _ ← update (with_tabs (λ t, set_returns (delete i (returns t)) t));
        mret false
  | None => mret false
  end.

(** *** Installation *)

Definition install_wait (w : Z * list Z) : SM () :=
  i ← install_bp (slide + w.1) (u "WAIT_" ++ upper w.2) OnWaitPrimitive false;
  update (with_tabs (λ t, set_wait_ids (wait_ids t ++ [i]) t)).
Definition install (now : Z) : SM () :=
  _ ← install_bp (slide + ANCHOR) (u "SPRINGBOARD_QD_MIG_RETURN") OnAnchor true;
  _ ← for_each (λ w : Z * list Z, _ ← install_bp (slide + w.1) w.2 OnBoundary true; mret ()) BOUNDARIES;
  _ ← for_each install_wait WAIT_PRIMITIVES;
  n ← gets (λ s, zlen (map_to_list (config_ (tabs s))));
  write_event (u "ready") (PReady now (TRACE_SELECTOR o) n).

Definition SEEDED_WAIT_RETURN_STATIC : Z := 0x237cd3308.
(** [resume_install] on the selected thread's frame [f]; [valid] says whether
    there is one. *)
Definition resume_install (valid : bool) (f : frame) : SM () :=
  _ ← install (f_now f);
  if PROGRESS_ONLY o then write_event (u "resumed-progress-only") (PResumedProgressOnly (f_now f) (progname slide f))
  else
    match SEEDED_TPIDR o, SEEDED_STACK_REGION o with
    | Some tpidr, Some region =>
        _ ← update (with_trace (λ t, Trace (Some tpidr) (t_x18 t) ({[region]} ∪ t_regions t) (t_contexts t) None
              (Some (f_now f)) (t_calls t) (t_dynamic_targets t) (t_wait_root t) (t_wait_sequence t) (t_wait_controls t)));
        _ ← enable_wait_primitives true;
        _ ← install_bp (slide + SEEDED_WAIT_RETURN_STATIC) (u "SEEDED_WAIT_RETURN") OnSeededWaitReturn true;
        emit f 0 (RResumed true None)
    | _, _ =>
        when (valid && is_springboard f)
          (armed ← arm f (static_ (f_reg f (u "pc")));
           if (armed : bool) then
             _ ← enable_wait_primitives true;
             emit f 24 (RResumed false (static_ (f_reg f (u "pc"))))
           else raise (RuntimeError "could not arm frozen SpringBoard checkpoint"))
    end.

(** A hit of an enabled breakpoint runs its callback. *)
Definition run_callback (c : callback) : Z → frame → SM bool :=
  match c with
  | OnAnchor => on_anchor | OnBoundary => on_boundary | OnCall => on_call | OnReturn => on_return
  | OnTargetEntry => on_target_entry | OnObjcDispatch => on_objc_dispatch
  | OnWaitPrimitive => on_wait_primitive | OnWaitReturn => on_wait_return
  | OnSeededWaitReturn => on_seeded_wait_return
  end.

(** The states of a run: after [install] or [resume_install], any hits of
    breakpoints that are enabled then, whether the callback returns or raises. *)
Inductive reachable : state → Prop :=
  | reach_install now : reachable (install now no_state).2
  | reach_resume valid f : reachable (resume_install valid f no_state).2
  | reach_hit s i f a c : reachable s → bps s !! i = Some (Breakpoint a (Some c) true) →
      reachable (run_callback c i f s).2.
End tracer.
