(* ===== verification/StartupProps.v ===== *)
(** * The startup tracer keeps its promises

    One invariant of the tracer's tables, its breakpoints, its budgets and its
    event files, kept by every callback on every path, raising or not; what a
    callback can raise; and what is on disk when it leaves the guest stopped. *)

From stdpp Require Import base tactics list gmap strings.
From Stdlib Require Import Strings.Byte.
From S2P Require Import Prelude PyState PyBytes PyStr PyDict StartupDecode StartupTables StartupTrace.
From S2P Require ProbeWatch.
Open Scope Z_scope.

Section invariant.
Variable o : options.
Variable slide : Z.
Variable alloc : Z → Z.
Variable locations : Z → option Z.
(** LLDB never gives two breakpoints one identifier, nor the invalid one, and
    makes a valid breakpoint at any address. *)
Hypothesis alloc_inj : ∀ m n, 0 ≤ m → 0 ≤ n → alloc m = alloc n → m = n.
Hypothesis locations_valid : ∀ a, is_Some (locations a).
Hypothesis max_hits_pos : 0 < MAX_SITE_HITS o.

(** ** The invariant *)

(** An identifier the debugger has given. *)
Definition used (s : state) (i : Z) : Prop := ∃ n, 0 ≤ n < created s ∧ i = alloc n.
Definition in_groups (s : state) (i : Z) : Prop := ∃ l g, groups (tabs s) !! l = Some g ∧ i ∈ g.
Definition mentioned (s : state) (i : Z) : Prop :=
  is_Some (bps s !! i) ∨ is_Some (config_ (tabs s) !! i) ∨ is_Some (returns (tabs s) !! i)
  ∨ is_Some (dispatches (tabs s) !! i) ∨ is_Some (wait_returns (tabs s) !! i)
  ∨ i ∈ wait_ids (tabs s) ∨ in_groups s i.

(** The entry a callback looks up is there, and of its shape. *)
Definition has_entry (s : state) (i : Z) (c : callback) : Prop :=
  match c with
  | OnReturn => is_Some (returns (tabs s) !! i)
  | OnObjcDispatch => is_Some (dispatches (tabs s) !! i)
  | OnWaitReturn => is_Some (wait_returns (tabs s) !! i)
  | OnCall => ∃ cf cs, config_ (tabs s) !! i = Some cf ∧ cf_extra cf = ACall cs
  | OnTargetEntry => ∃ cf e, config_ (tabs s) !! i = Some cf ∧ cf_extra cf = AnEntry e
  | OnAnchor | OnBoundary | OnWaitPrimitive | OnSeededWaitReturn => is_Some (config_ (tabs s) !! i)
  end.
(** The breakpoint of an entry of [CONFIG] has a callback that fits. *)
Definition fits (e : extra) (c : option callback) : Prop :=
  match e with
  | ACall _ => c = Some OnCall
  | AnEntry _ => c = Some OnTargetEntry
  | Plain => c ≠ Some OnCall ∧ c ≠ Some OnTargetEntry ∧ c ≠ Some OnReturn
  end.
(** A planted call site was hit at most the allowed times, and is off by then. *)
Definition site_ok (s : state) (i : Z) (cs : call_site) : Prop :=
  0 ≤ cs_hits cs ≤ MAX_SITE_HITS o
  ∧ ∀ b, bps s !! i = Some b → b_enabled b = true → cs_hits cs < MAX_SITE_HITS o.
(** The pending file names the deepest call that has not returned. *)
Definition pending_ok (s : state) : Prop :=
  events_on o = true →
  match deepest (active (tabs s)) with
  | None => files s !! pending_trace = None
  | Some call => ∃ t progress scope site target,
      files s !! pending_trace
        = Some (PPending (ProbeWatch.Event call (TRACE_SELECTOR o) t) progress scope site target)
  end.
Record budgets_ok (t : trace) : Prop := {
  budget_calls : 0 ≤ t_calls t ≤ Z.max 0 (MAX_CALLS o);
  budget_targets : 0 ≤ t_dynamic_targets t ≤ Z.max 0 (MAX_DYNAMIC_TARGETS o);
  budget_waits : 0 ≤ t_wait_controls t ≤ Z.max 0 (MAX_WAIT_CONTROLS o);
}.

Record inv (s : state) : Prop := {
  inv_created : 0 ≤ created s;
  inv_used : ∀ i, mentioned s i → used s i;
  inv_typed : ∀ i b c, bps s !! i = Some b → b_callback b = Some c → has_entry s i c;
  inv_fits : ∀ i cf b, config_ (tabs s) !! i = Some cf → bps s !! i = Some b → fits (cf_extra cf) (b_callback b);
  inv_waits : ∀ i b, i ∈ wait_ids (tabs s) → bps s !! i = Some b → b_callback b = Some OnWaitPrimitive;
  inv_groups : ∀ i b, in_groups s i → bps s !! i = Some b → b_callback b = Some OnObjcDispatch;
  inv_returns : ∀ i r, returns (tabs s) !! i = Some r → ∃ a, bps s !! i = Some (Breakpoint a (Some OnReturn) true);
  inv_sites : ∀ i cf cs, config_ (tabs s) !! i = Some cf → cf_extra cf = ACall cs → site_ok s i cs;
  inv_active : ∀ c a, active (tabs s) !! c = Some a →
    c ≤ t_calls (tr s) ∧ ∃ i r, returns (tabs s) !! i = Some r ∧ r_call r = c ∧ watched_scope (r_scope r) = true;
  inv_pending : pending_ok s;
  inv_budgets : budgets_ok (tr s);
}.

(** What a callback may raise: a register that is not valid where an address
    is needed, or a breakpoint that could not be planted; never a failed
    lookup. *)
Definition expected (e : exn) : Prop := (∃ m, e = TypeError m) ∨ ∃ m, e = RuntimeError m.

(** ** [max] of a map's keys *)

Lemma deepest_spec {A} (m : gmap Z A) :
  match deepest m with
  | None => m = ∅
  | Some k => is_Some (m !! k) ∧ ∀ j, is_Some (m !! j) → j ≤ k
  end.
Proof.
  unfold deepest. apply (map_fold_weak_ind (λ (r : option Z) (m : gmap Z A),
    match r with None => m = ∅ | Some k => is_Some (m !! k) ∧ ∀ j, is_Some (m !! j) → j ≤ k end)); [done|].
  intros k x m' r Hk Hr. destruct r as [b|].
  - destruct Hr as [[y Hy] Hmax]. split.
    + destruct (Z.max_spec k b) as [[_ ->]|[_ ->]].
      * exists y. rewrite lookup_insert_ne; [done|]. intros ->. congruence.
      * exists x. apply lookup_insert_eq.
    + intros j. rewrite lookup_insert_is_Some. intros [->|[_ Hj]]; [lia|]. specialize (Hmax j Hj). lia.
  - subst. split; [exists x; apply lookup_insert_eq|].
    intros j. rewrite lookup_insert_is_Some. intros [->|[_ [? Hj]]]; [lia|]. done.
Qed.

(** ** Steps that keep it *)

(** The tables, the breakpoints' callbacks and the trace are the same. *)
Lemma inv_emit f n r : Holds inv expected (emit slide f n r).
Proof. apply holds_update. intros s [????????? ??]. by split. Qed.

Lemma inv_files s n p : n ≠ pending_trace → inv s →
  inv (set_files (<[n := p]> (files s)) s) ∧ inv (set_files (delete n (files s)) s).
Proof.
  intros Hn Hs; split; (destruct Hs as [H1 H2 H3 H4 H5 H6 H7 H8 H9 HP H11]; split; try done);
    intros Hon; specialize (HP Hon); cbn [set_files tabs files] in *;
    destruct (deepest _); rewrite ?lookup_insert_ne, ?lookup_delete_ne by done; exact HP.
Qed.
Lemma inv_write_event n p : n ≠ pending_trace → Holds inv expected (write_event o n p).
Proof. intros Hn. apply holds_when, holds_update. intros s Hs. by apply inv_files. Qed.
Lemma inv_remove_event n : n ≠ pending_trace → Holds inv expected (remove_event o n).
Proof. intros Hn. apply holds_when, holds_update. intros s Hs. by apply (inv_files s n (PReady 0 0 0)). Qed.

(** The breakpoints change, but no callback does, no return witness does, and
    no call site comes on. *)
Lemma inv_bps s m : inv s →
  (∀ j b', m !! j = Some b' → ∃ b, bps s !! j = Some b ∧ b_callback b' = b_callback b
     ∧ (b_enabled b' = true → b_enabled b = true ∨ b_callback b ≠ Some OnCall)) →
  (∀ j, is_Some (returns (tabs s) !! j) → m !! j = bps s !! j) →
  inv (set_bps m s).
Proof.
  intros [Hc Hu Ht Hf Hw Hg Hr Hsite Ha HP Hb] Hm Hret. split; cbn [set_bps created bps tabs tr files]; try done.
  - intros i [Hi|Hi]; [|by apply Hu; right]. destruct Hi as [b' Hi].
    destruct (Hm i b' Hi) as (b & Hbi & _). apply Hu. left. by exists b.
  - intros i b' c Hi Hcb. destruct (Hm i b' Hi) as (b & Hbi & Heq & _). apply (Ht i b c Hbi). congruence.
  - intros i cf b' Hi Hbi. destruct (Hm i b' Hbi) as (b & Hb' & -> & _). by apply (Hf i).
  - intros i b' Hi Hbi. destruct (Hm i b' Hbi) as (b & Hb' & -> & _). by apply (Hw i).
  - intros i b' Hi Hbi. destruct (Hm i b' Hbi) as (b & Hb' & -> & _). by apply (Hg i).
  - intros i r Hi. rewrite Hret by eauto. by apply (Hr i r).
  - intros i cf cs Hi Hcs. destruct (Hsite i cf cs Hi Hcs) as [Hh Hen]. split; [done|].
    cbn [set_bps bps]. intros b' Hbi Hb'. destruct (Hm i b' Hbi) as (b & Hbs & _ & He).
    destruct (He Hb') as [?|Hne]; [by apply (Hen b)|]. destruct Hne.
    specialize (Hf i cf b Hi Hbs). by rewrite Hcs in Hf.
Qed.
Lemma alter_bp s i (g : breakpoint → breakpoint) j b' :
  alter g i (bps s) !! j = Some b' → ∃ b, bps s !! j = Some b ∧ (b' = b ∨ j = i ∧ b' = g b).
Proof.
  rewrite lookup_alter_Some. intros [(<- & b & Hb & ->)|[_ Hb]]; eauto.
Qed.

(** Which breakpoints the tracer switches. *)
Definition switchable (s : state) (e : bool) (i : Z) : Prop :=
  ∀ b, bps s !! i = Some b → b_callback b ≠ Some OnReturn ∧ (e = true → b_callback b ≠ Some OnCall).
Definition enabling (i : Z) (e : bool) (s : state) : state :=
  set_bps (alter (λ b, Breakpoint (b_address b) (b_callback b) e) i (bps s)) s.
Lemma inv_enabling s i e : inv s → switchable s e i → inv (enabling i e s).
Proof.
  intros Hs Hsw. apply inv_bps; [exact Hs| |].
  - intros j b' Hb. destruct (alter_bp _ _ _ _ _ Hb) as (b & Hb' & [->|[-> ->]]); exists b.
    + split_and!; auto.
    + split_and!; [done|done|]. cbn [b_enabled]. intros ->. right. by apply (Hsw b).
  - intros j [r Hr]. destruct (inv_returns s Hs j r Hr) as [a Ha].
    destruct (decide (j = i)) as [->|Hne]; [|by rewrite lookup_alter_ne].
    destruct (Hsw _ Ha) as [Hno _]. done.
Qed.
Lemma switchable_enabling s i e e' j : switchable s e j → switchable (enabling i e' s) e j.
Proof.
  intros Hsw b' Hb. destruct (alter_bp _ _ _ _ _ Hb) as (b & Hb' & [->|[_ ->]]); by apply (Hsw b).
Qed.
Lemma switch_all s e ids : inv s → Forall (switchable s e) ids →
  keeps_at inv expected (for_each (λ i, set_enabled i e) ids) s.
Proof.
  revert s. induction ids as [|i ids IH]; intros s Hs Hids; [by split|].
  apply Forall_cons in Hids as [Hi Hids]. apply (keeps_ok _ _ _ _ () _ (enabling i e s)); [done|]. apply IH.
  - by apply inv_enabling.
  - eapply Forall_impl; [exact Hids|]. intros j. by apply switchable_enabling.
Qed.

Lemma switchable_wait s e i : inv s → i ∈ wait_ids (tabs s) → switchable s e i.
Proof. intros Hs Hi b Hb. rewrite (inv_waits s Hs i b Hi Hb). by split. Qed.
Lemma switchable_config s i cf : inv s → config_ (tabs s) !! i = Some cf → switchable s false i.
Proof.
  intros Hs Hi b Hb. pose proof (inv_fits s Hs i cf b Hi Hb) as Hf. split; [|done].
  destruct (cf_extra cf); cbn in Hf; [naive_solver|congruence|congruence].
Qed.
Lemma switchable_group s l g i : inv s → groups (tabs s) !! l = Some g → i ∈ g → switchable s false i.
Proof. intros Hs Hl Hi b Hb. rewrite (inv_groups s Hs i b); [done| |done]. by exists l, g. Qed.

#[local] Instance holds_enable_waits e : Holds inv expected (enable_wait_primitives e).
Proof.
  intros s Hs. apply keeps_gets, switch_all; [exact Hs|].
  apply Forall_forall. intros i Hi. by apply switchable_wait.
Qed.

(** The trace moves on. *)
Lemma inv_trace s g : inv s → budgets_ok (g (tr s)) → t_calls (tr s) ≤ t_calls (g (tr s)) → inv (with_trace g s).
Proof.
  intros [Hc Hu Ht Hf Hw Hg Hr Hsite Ha HP Hb] Hb' Hle. split; try done.
  intros c a Hca. cbn [with_trace tabs tr] in *. destruct (Ha c a Hca) as [Hle' Hex]. split; [lia|exact Hex].
Qed.

(** Two sets of tables that differ at most at [i]. *)
Definition same_but (i : Z) (t t' : tables) : Prop :=
  ∀ j, j ≠ i → config_ t' !! j = config_ t !! j ∧ returns t' !! j = returns t !! j
    ∧ dispatches t' !! j = dispatches t !! j ∧ wait_returns t' !! j = wait_returns t !! j.

Lemma has_entry_same s s' i j c :
  same_but i (tabs s) (tabs s') → j ≠ i → has_entry s j c → has_entry s' j c.
Proof.
  intros Hsame Hne. destruct (Hsame j Hne) as (E1 & E2 & E3 & E4).
  destruct c; cbn [has_entry]; rewrite ?E1, ?E2, ?E3, ?E4; done.
Qed.
Lemma inv_fresh s i : inv s → i = alloc (created s) → ¬ mentioned s i.
Proof.
  intros Hs -> Hm. destruct (inv_used s Hs _ Hm) as (n & Hn & He).
  apply alloc_inj in He; [lia|apply (inv_created s Hs)|lia].
Qed.

(** A breakpoint is created and entered in the tables. *)
Lemma inv_add s s' i b :
  inv s → i = alloc (created s) → created s' = created s + 1 → bps s' = <[i := b]> (bps s) →
  tr s' = tr s → files s' = files s → active (tabs s') = active (tabs s) → same_but i (tabs s) (tabs s') →
  (∀ j, j ∈ wait_ids (tabs s') → j ∈ wait_ids (tabs s) ∨ j = i ∧ b_callback b = Some OnWaitPrimitive) →
  (∀ j, in_groups s' j → in_groups s j ∨ j = i ∧ b_callback b = Some OnObjcDispatch) →
  (∀ c, b_callback b = Some c → has_entry s' i c) →
  (∀ cf, config_ (tabs s') !! i = Some cf →
     fits (cf_extra cf) (b_callback b) ∧ ∀ cs, cf_extra cf = ACall cs → cs_hits cs = 0) →
  (is_Some (returns (tabs s') !! i) → b_callback b = Some OnReturn ∧ b_enabled b = true) →
  inv s'.
Proof.
  intros Hs Hi Ec Eb Et Ef Ea Hsame Hwait Hgroup Hentry Hcfg Hret.
  pose proof (inv_fresh s i Hs Hi) as Hfresh.
  destruct Hs as [Hc Hu Ht Hf Hw Hg Hr Hsite Ha HP Hb].
  assert (∀ j b', j ≠ i → bps s' !! j = Some b' → bps s !! j = Some b') as Hold.
  { intros j b' Hne. by rewrite Eb, lookup_insert_ne. }
  assert (bps s' !! i = Some b) as Hnew by (rewrite Eb; apply lookup_insert_eq).
  split.
  - lia.
  - intros j Hj. destruct (decide (j = i)) as [->|Hne]; [exists (created s); split; [lia|done]|].
    destruct (Hu j) as (n & Hn & ->); [|exists n; split; [lia|done]].
    destruct (Hsame j Hne) as (E1 & E2 & E3 & E4). unfold mentioned in *. rewrite E1, E2, E3, E4 in Hj.
    destruct Hj as [[x Hx]|[?|[?|[?|[?|[Hj|Hj]]]]]]; [left; eauto|tauto|tauto|tauto|tauto| |].
    + destruct (Hwait j Hj) as [?|[? _]]; [tauto|done].
    + destruct (Hgroup j Hj) as [?|[? _]]; [tauto|done].
  - intros j b' c Hj Hcb. destruct (decide (j = i)) as [->|Hne].
    + rewrite Hnew in Hj. injection Hj as <-. by apply Hentry.
    + apply (has_entry_same s s' i); [done|done|]. by apply (Ht j b'); [apply Hold|].
  - intros j cf b' Hj Hbj. destruct (decide (j = i)) as [->|Hne].
    + rewrite Hnew in Hbj. injection Hbj as <-. by apply Hcfg.
    + destruct (Hsame j Hne) as (E1 & _). rewrite E1 in Hj. apply (Hf j); [done|]. by apply Hold.
  - intros j b' Hj Hbj. destruct (Hwait j Hj) as [Hj'|[-> Hcb]].
    + apply (Hw j); [done|]. apply Hold; [|done]. intros ->. apply Hfresh. unfold mentioned. tauto.
    + by rewrite Hnew in Hbj; injection Hbj as <-.
  - intros j b' Hj Hbj. destruct (Hgroup j Hj) as [Hj'|[-> Hcb]].
    + apply (Hg j); [done|]. apply Hold; [|done]. intros ->. apply Hfresh. unfold mentioned. tauto.
    + by rewrite Hnew in Hbj; injection Hbj as <-.
  - intros j r Hj. destruct (decide (j = i)) as [->|Hne].
    + destruct Hret as [Hcb He]; [by eexists|]. exists (b_address b). rewrite Hnew. by destruct b; cbn in *; subst.
    + destruct (Hsame j Hne) as (_ & E2 & _). rewrite E2 in Hj. destruct (Hr j r Hj) as [a Hja].
      exists a. by rewrite Eb, lookup_insert_ne.
  - intros j cf cs Hj Hcs. destruct (decide (j = i)) as [->|Hne].
    + destruct (Hcfg cf Hj) as [_ Hz]. unfold site_ok. rewrite (Hz cs Hcs). split; [lia|]. intros. lia.
    + destruct (Hsame j Hne) as (E1 & _). rewrite E1 in Hj. destruct (Hsite j cf cs Hj Hcs) as [Hh He].
      split; [done|]. intros b' Hb'. apply He. by apply Hold.
  - intros c a. rewrite Ea, Et. intros Hca. destruct (Ha c a Hca) as (Hle & j & r & Hj & Hr'). split; [done|].
    exists j, r. split; [|done]. destruct (decide (j = i)) as [->|Hne].
    + exfalso. apply Hfresh. unfold mentioned. eauto.
    + by rewrite (proj1 (proj2 (Hsame j Hne))).
  - intros Hon. specialize (HP Hon). by rewrite Ea, Ef.
  - by rewrite Et.
Qed.

(** [install_bp] either adds a breakpoint and its entry, or leaves a breakpoint
    without a callback behind and raises. *)
Definition added (b : breakpoint) (g : tables → tables) (s : state) : state :=
  State (created s + 1) (<[alloc (created s) := b]> (bps s)) (g (tabs s)) (tr s) (out s) (files s).
Definition with_config (i : Z) (c : config) (t : tables) : tables := set_config (<[i := c]> (config_ t)) t.

Lemma install_bp_run address label c e s :
  install_bp alloc locations address label c e s =
    if bool_decide (locations address = Some 1)
    then (Ok (alloc (created s)),
          added (Breakpoint address (Some c) e) (with_config (alloc (created s)) (Config label address Plain)) s)
    else (Raise (RuntimeError "failed breakpoint"), added (Breakpoint address None true) (λ t, t) s).
Proof.
  unfold install_bp, create_bp. destruct (locations_valid address) as [n Hn].
  unfold mbind at 1, se_bind at 1. rewrite Hn. cbv beta iota zeta.
  destruct (bool_decide (Some n = Some 1)); [|done].
  unfold mbind, se_bind, set_callback, set_enabled, update, set_bps, with_tabs, added.
  cbn [mret se_ret created bps tabs tr out files]. by rewrite !alter_insert_eq.
Qed.
Lemma inv_unplanted s b : inv s → b_callback b = None → inv (added b (λ t, t) s).
Proof.
  intros Hs Hb. pose proof (inv_fresh s _ Hs eq_refl) as Hf.
  apply (inv_add s _ (alloc (created s)) b); try done; try (by left); rewrite ?Hb; try done.
  - intros cf Hcf. destruct Hf. right. left. by eexists.
  - intros Hr. destruct Hf. right. right. by left.
Qed.

(** Installing a breakpoint and completing its entry. *)
Lemma keeps_install {A} address label c e (k : Z → SE state A) s :
  inv s →
  (let i := alloc (created s) in
   keeps_at inv expected (k i)
     (added (Breakpoint address (Some c) e) (with_config i (Config label address Plain)) s)) →
  keeps_at inv expected (install_bp alloc locations address label c e ≫= k) s.
Proof.
  intros Hs Hk. unfold keeps_at, mbind, se_bind in *. rewrite install_bp_run.
  destruct (bool_decide _); [exact Hk|]. split; [by apply inv_unplanted|]. right. by eexists.
Qed.

(** The tables a planted breakpoint leads to, for the callback it has. *)
Lemma inv_planted s b (g : tables → tables) (i := alloc (created s)) :
  inv s → same_but i (tabs s) (g (tabs s)) → active (g (tabs s)) = active (tabs s) →
  (wait_ids (g (tabs s)) = wait_ids (tabs s)
   ∨ wait_ids (g (tabs s)) = wait_ids (tabs s) ++ [i] ∧ b_callback b = Some OnWaitPrimitive) →
  (groups (g (tabs s)) = groups (tabs s)
   ∨ (∃ l gr, groups (g (tabs s)) = <[l := gr ++ [i]]> (groups (tabs s)) ∧ (gr = [] ∨ groups (tabs s) !! l = Some gr))
     ∧ b_callback b = Some OnObjcDispatch) →
  (∀ c, b_callback b = Some c → has_entry (added b g s) i c) →
  (∀ cf, config_ (g (tabs s)) !! i = Some cf →
     fits (cf_extra cf) (b_callback b) ∧ ∀ cs, cf_extra cf = ACall cs → cs_hits cs = 0) →
  (returns (g (tabs s)) = returns (tabs s) ∨ b_callback b = Some OnReturn ∧ b_enabled b = true) →
  inv (added b g s).
Proof.
  intros Hs Hsame Ha Hw Hg He Hc Hr. pose proof (inv_fresh s i Hs eq_refl) as Hf.
  apply (inv_add s _ i b); try done.
  - intros j. cbn [added tabs]. destruct Hw as [-> |[-> Hcb]]; [by left|].
    rewrite elem_of_app, list_elem_of_singleton. intros [?| ->]; [by left|by right].
  - intros j (l & gr & Hl & Hj). cbn [added tabs] in Hl. destruct Hg as [Hg|[(l' & gr' & Hg & Hgr) Hcb]].
    { left. exists l, gr. by rewrite <-Hg. }
    rewrite Hg in Hl. apply lookup_insert_Some in Hl as [[-> <-]|[_ Hl]]; [|left; by exists l, gr].
    apply elem_of_app in Hj as [Hj|Hj%list_elem_of_singleton]; [left|by right].
    destruct Hgr as [-> |Hgr]; [by apply not_elem_of_nil in Hj|by exists l, gr'].
  - intros Hri. destruct Hr as [Hr|Hr]; [|exact Hr]. cbn [added tabs] in Hri. rewrite Hr in Hri.
    destruct Hf. right. right. by left.
Qed.

(** A fresh entry of [CONFIG] is the only change. *)
Lemma same_with_config i c t : same_but i t (with_config i c t).
Proof. intros j Hj. cbn. by rewrite lookup_insert_ne. Qed.
Definition config_only (c : callback) : bool :=
  match c with OnReturn | OnObjcDispatch | OnWaitReturn => false | _ => true end.
Lemma inv_planted_config s b cf (i := alloc (created s)) :
  inv s → fits (cf_extra cf) (b_callback b) → (∀ cs, cf_extra cf = ACall cs → cs_hits cs = 0) →
  (∀ c, b_callback b = Some c → config_only c = true) →
  (b_callback b = Some OnCall → ∃ cs, cf_extra cf = ACall cs) →
  (b_callback b = Some OnTargetEntry → ∃ e, cf_extra cf = AnEntry e) →
  inv (added b (with_config i cf) s).
Proof.
  intros Hs Hfit Hz Hcb H1 H2. apply inv_planted; try done; try (by left).
  - apply same_with_config.
  - intros c Hc. assert (config_ (tabs (added b (with_config i cf) s)) !! i = Some cf) as Hl by apply lookup_insert_eq.
    specialize (Hcb c Hc). destruct c; cbn [has_entry]; try done; eauto.
    + destruct (H1 Hc) as [cs ?]. eauto.
    + destruct (H2 Hc) as [e ?]. eauto.
  - intros cf'. cbn. rewrite lookup_insert_eq. intros [= <-]. done.
Qed.

(** The pending file is refreshed when the calls under way change. *)
Definition active_ok (s : state) (m : gmap Z active_call) : Prop :=
  ∀ c a, m !! c = Some a →
    c ≤ t_calls (tr s) ∧ ∃ i r, returns (tabs s) !! i = Some r ∧ r_call r = c ∧ watched_scope (r_scope r) = true.
Lemma inv_set_active s m fs :
  inv s → active_ok s m → pending_ok (set_files fs (with_tabs (set_active m) s)) →
  inv (set_files fs (with_tabs (set_active m) s)).
Proof. intros [????????? _ ?] Ha HP. by split. Qed.
Lemma refresh_files s m f progress : ∃ fs,
  refresh_pending o f progress (with_tabs (set_active m) s) = (Ok (), set_files fs (with_tabs (set_active m) s))
  ∧ pending_ok (set_files fs (with_tabs (set_active m) s)).
Proof.
  unfold refresh_pending, mbind, se_bind, gets, lift, write_event, remove_event, when, pending_ok.
  cbn [with_tabs set_files tabs set_active active files].
  pose proof (deepest_spec m) as Hd. destruct (deepest m) as [k|] eqn:Ek.
  - destruct Hd as [[a Ha] _]. rewrite Ha. cbn [opt_or]. destruct (events_on o).
    + eexists. split; [reflexivity|]. intros _. rewrite lookup_insert_eq. by eexists _, _, _, _, _.
    + exists (files s). by split.
  - destruct (events_on o).
    + eexists. split; [reflexivity|]. intros _. apply lookup_delete_eq.
    + exists (files s). by split.
Qed.
Lemma refresh_run s m f progress :
  inv s → active_ok s m → keeps_at inv expected (refresh_pending o f progress) (with_tabs (set_active m) s).
Proof.
  intros Hs Hm. unfold keeps_at. destruct (refresh_files s m f progress) as (fs & -> & HP).
  split; [by apply inv_set_active|done].
Qed.
#[local] Instance holds_refresh f progress : Holds inv expected (refresh_pending o f progress).
Proof.
  intros s Hs. pose proof (refresh_run s (active (tabs s)) f progress Hs (inv_active s Hs)) as H.
  by replace (with_tabs (set_active (active (tabs s))) s) with s in H by (by destruct s as [?? [] ???]).
Qed.

Lemma add_config_run i cf e b s :
  add_config i e (added b (with_config i cf) s)
  = (Ok (), added b (with_config i (Config (cf_label cf) (cf_address cf) e)) s).
Proof.
  unfold add_config, update, with_tabs, added, with_config. cbn [tabs config_ set_config].
  by rewrite alter_insert_eq.
Qed.
#[local] Instance holds_plant_call scope w : Holds inv expected (plant_call slide alloc locations scope w).
Proof.
  intros s Hs. destruct w as [[pc word] c]. apply keeps_install; [exact Hs|]. cbv zeta.
  unfold keeps_at. rewrite add_config_run. split; [|done]. apply inv_planted_config; cbn; try done.
  - by intros cs [= <-].
  - by intros k [= <-].
  - eauto.
Qed.
#[local] Instance holds_emit f n r : Holds inv expected (emit slide f n r) := inv_emit f n r.
#[local] Instance holds_plant_calls f scope start end_ :
  Holds inv expected (plant_calls slide alloc locations f scope start end_).
Proof. unfold plant_calls. apply _. Qed.
#[local] Instance holds_plant_known_range f st : Holds inv expected (plant_known_range slide alloc locations f st).
Proof. unfold plant_known_range. apply _. Qed.
#[local] Instance holds_expand f label st :
  Holds inv expected (expand_known_boundary o slide alloc locations f label st).
Proof. unfold expand_known_boundary. apply _. Qed.
#[local] Instance holds_plant_dynamic f st : Holds inv expected (plant_dynamic_range o slide alloc locations f st).
Proof. unfold plant_dynamic_range. apply holds_bind; [apply _|]. intros t. destruct (dynamic_extent _ _ _ _) as [[? ?] ?]. apply _. Qed.
#[local] Instance holds_opt_or {A} (x : option A) m : Holds inv expected (lift (opt_or x (TypeError m))).
Proof. apply holds_lift. intros e. destruct x; intros [= <-]. left. by eexists. Qed.

(** [ENTRY_POINTS] is not in the invariant. *)
Lemma inv_entry_points s m : inv s → inv (with_tabs (set_entry_points m) s).
Proof. intros [????????? ??]. by split. Qed.
Lemma name_ne_pending (n : list Z) : startswith (u "pending.trace") n = false → n ≠ pending_trace.
Proof. intros H ->. done. Qed.
(** An event file that is not the pending one. *)
Class OtherName (n : list Z) := other_name : startswith (u "pending.trace") n = false.
#[local] Hint Extern 0 (OtherName _) => (red; reflexivity) : typeclass_instances.
#[local] Instance holds_write_other n p `{!OtherName n} : Holds inv expected (write_event o n p).
Proof. by apply inv_write_event, name_ne_pending. Qed.
#[local] Instance holds_remove_other n `{!OtherName n} : Holds inv expected (remove_event o n).
Proof. by apply inv_remove_event, name_ne_pending. Qed.

(** The budget of dynamic targets. *)
Lemma inv_dynamic_target s :
  inv s → t_dynamic_targets (tr s) < MAX_DYNAMIC_TARGETS o →
  inv (with_trace (λ t, set_dynamic_targets (t_dynamic_targets t + 1) t) s).
Proof.
  intros Hs Hlt. apply inv_trace; [done| |cbn; lia]. destruct (inv_budgets s Hs) as [H1 H2 H3].
  split; cbn; lia.
Qed.
Lemma keeps_install_entry {B} a st call force label (k : SE state B) s :
  inv s → (∀ s', inv s' → tr s' = tr s → keeps_at inv expected k s') →
  keeps_at inv expected (i ← install_bp alloc locations a label OnTargetEntry true;
    _ ← update (with_tabs (λ t, set_entry_points (<[a := i]> (entry_points t)) t));
    _ ← add_config i (AnEntry (TargetEntry a st call force)); k) s.
Proof.
  intros Hs Hk. apply keeps_install; [exact Hs|]. cbv zeta. set (i := alloc (created s)).
  eapply keeps_ok; [reflexivity|]. eapply keeps_ok; [reflexivity|]. apply Hk; [|done].
  set (b := Breakpoint a (Some OnTargetEntry) true).
  assert (inv (added b (with_config i (Config label a (AnEntry (TargetEntry a st call force)))) s)) as Hinv.
  { apply inv_planted_config; cbn; try done; [by intros c [= <-]|eauto]. }
  apply (inv_entry_points _ (<[a := i]> (entry_points (tabs s)))) in Hinv.
  revert Hinv. unfold with_tabs, added, with_config, set_config, set_entry_points. cbn.
  by rewrite alter_insert_eq.
Qed.
#[local] Instance holds_install_target f rt st call force :
  Holds inv expected (install_target_entry o slide alloc locations f rt st call force).
Proof.
  intros s Hs. unfold install_target_entry. apply keeps_gets, keeps_gets.
  destruct st as [st|]; [|by split]. set (rt' := canonical <$> rt).
  destruct (_ || _ || _); [by split|]. destruct (force && _) eqn:Ef.
  { match goal with |- keeps_at _ _ ?m s => assert (Holds inv expected m) as Hm by apply _ end. by apply Hm. }
  apply keeps_bind; [by apply holds_opt_or|]. intros a s' Ha _.
  assert (s' = s) as -> by (by injection Ha).
  apply keeps_install_entry; [exact Hs|].
  intros s' Hs' Et. destruct force; [|by split]. eapply keeps_ok; [reflexivity|]. split; [|done].
  apply inv_dynamic_target; [exact Hs'|]. rewrite Et. cbn [andb] in Ef. lia.
Qed.

(** One message dispatch: its breakpoint, its entry, and its place in the
    shared list. *)
#[local] Instance holds_arm_dispatch call receiver selector st :
  Holds inv expected (arm_one_dispatch slide alloc locations call receiver selector st).
Proof.
  intros s Hs. unfold arm_one_dispatch. apply keeps_install; [exact Hs|]. cbv zeta. set (i := alloc (created s)).
  eapply keeps_ok; [reflexivity|]. split; [|done].
  set (cf := Config (u "OBJC_DISPATCH_" ++ dec call ++ u "_" ++ digits_of 16 st) (slide + st) Plain).
  apply (inv_planted s (Breakpoint (slide + st) (Some OnObjcDispatch) true)
    (λ t, set_groups (<[call := default [] (groups t !! call) ++ [i]]> (groups t))
            (set_dispatches (<[i := Dispatch call receiver selector call st]> (dispatches t)) (with_config i cf t)))).
  - exact Hs.
  - intros j Hj. cbn. by rewrite !lookup_insert_ne.
  - done.
  - by left.
  - right. split; [|done]. exists call, (default [] (groups (tabs s) !! call)). split; [done|].
    destruct (groups (tabs s) !! call); auto.
  - intros c [= <-]. eexists. apply lookup_insert_eq.
  - intros cf'. cbn. rewrite lookup_insert_eq. by intros [= <-].
  - by left.
Qed.
Lemma inv_new_group s l : inv s → inv (with_tabs (λ t, set_groups (<[l := []]> (groups t)) t) s).
Proof.
  intros [Hc Hu Ht Hf Hw Hg Hr Hsite Ha HP Hb].
  assert (∀ i, in_groups (with_tabs (λ t, set_groups (<[l := []]> (groups t)) t) s) i → in_groups s i) as Hin.
  { intros i (l' & g & Hl & Hi). cbn in Hl. apply lookup_insert_Some in Hl as [[_ <-]|[_ Hl]]; [by apply not_elem_of_nil in Hi|].
    by exists l', g. }
  split; try done.
  - intros i Hi. apply Hu. unfold mentioned in *. cbn [with_tabs tabs bps config_ returns dispatches wait_returns
      wait_ids set_groups] in Hi. pose proof (Hin i). tauto.
  - intros i b Hi. by apply Hg, Hin.
Qed.
#[local] Instance holds_arm_objc call receiver selector :
  Holds inv expected (arm_objc_dispatch slide alloc locations call receiver selector).
Proof.
  unfold arm_objc_dispatch. apply holds_bind; [|apply _]. apply holds_update. intros s. by apply inv_new_group.
Qed.

(** ** What a step leaves alone *)

(** Nothing but the evidence changes. *)
Definition quiet (s s' : state) : Prop :=
  created s' = created s ∧ bps s' = bps s ∧ tabs s' = tabs s ∧ tr s' = tr s.
(** The tables stay; the entries of [CONFIG] stay; the calls are not uncounted. *)
Definition same_tabs (s s' : state) : Prop := tabs s' = tabs s ∧ t_calls (tr s') = t_calls (tr s).
Definition grows (s s' : state) : Prop :=
  (∀ i, is_Some (config_ (tabs s) !! i) → is_Some (config_ (tabs s') !! i)) ∧ t_calls (tr s) ≤ t_calls (tr s').
#[export] Instance quiet_refl : Reflexive quiet.
Proof. by intros s. Qed.
#[export] Instance quiet_trans : Transitive quiet.
Proof. intros s1 s2 s3 (?&?&?&?) (?&?&?&?). unfold quiet. split_and!; congruence. Qed.
#[local] Instance same_tabs_refl : Reflexive same_tabs.
Proof. by intros s. Qed.
#[local] Instance same_tabs_trans : Transitive same_tabs.
Proof. intros s1 s2 s3 [??] [??]. split; congruence. Qed.
#[local] Instance grows_refl : Reflexive grows.
Proof. intros s. split; [done|lia]. Qed.
#[local] Instance grows_trans : Transitive grows.
Proof. intros s1 s2 s3 [H1 ?] [H2 ?]. split; [|lia]. intros i Hi. by apply H2, H1. Qed.
Lemma quiet_same_tabs s s' : quiet s s' → same_tabs s s'.
Proof. intros (_ & _ & H1 & H2). split; [done|by rewrite H2]. Qed.
Lemma same_tabs_grows s s' : same_tabs s s' → grows s s'.
Proof. intros [H1 H2]. split; [by rewrite H1|lia]. Qed.

#[export] Instance quiet_emit f n r : Leads quiet (emit slide f n r).
Proof. by intros s. Qed.
#[export] Instance quiet_write n p : Leads quiet (write_event o n p).
Proof. unfold write_event. apply leads_when; [apply _|]. by intros s. Qed.
#[export] Instance quiet_remove n : Leads quiet (remove_event o n).
Proof. unfold remove_event. apply leads_when; [apply _|]. by intros s. Qed.
#[export] Instance quiet_refresh f p : Leads quiet (refresh_pending o f p).
Proof. unfold refresh_pending. apply _. Qed.

#[local] Instance same_tabs_quiet {A} (m : SE state A) : Leads quiet m → Leads same_tabs m | 10.
Proof. intros Hm s. apply quiet_same_tabs, Hm. Qed.
#[local] Instance same_tabs_enabled i e : Leads same_tabs (set_enabled i e).
Proof. by intros s. Qed.
#[local] Instance same_tabs_waits e : Leads same_tabs (enable_wait_primitives e).
Proof. unfold enable_wait_primitives. apply _. Qed.
Lemma same_tabs_trace g : (∀ t, t_calls (g t) = t_calls t) → Leads same_tabs (update (with_trace g)).
Proof. intros Hg s. by split; [|apply Hg]. Qed.

#[local] Instance grows_same_tabs {A} (m : SE state A) : Leads same_tabs m → Leads grows m | 10.
Proof. intros Hm s. apply same_tabs_grows, Hm. Qed.
#[local] Instance grows_install a label c e : Leads grows (install_bp alloc locations a label c e).
Proof.
  intros s. rewrite install_bp_run. destruct (bool_decide _); (split; [|cbn; lia]); [|done].
  intros i Hi. cbn. rewrite lookup_insert_is_Some. destruct (decide (alloc (created s) = i)); auto.
Qed.
#[local] Instance grows_add_config i e : Leads grows (add_config i e).
Proof.
  intros s. split; [|cbn; lia]. intros j [c Hj]. cbn. destruct (decide (i = j)) as [->|Hne].
  - rewrite lookup_alter_eq, Hj. by eexists.
  - rewrite lookup_alter_ne by done. by exists c.
Qed.
Lemma grows_tabs g : (∀ t, config_ (g t) = config_ t) → Leads grows (update (with_tabs g)).
Proof. intros Hg s. split; [|cbn; lia]. cbn. by rewrite Hg. Qed.
#[local] Instance grows_plant_calls f scope st en : Leads grows (plant_calls slide alloc locations f scope st en).
Proof. unfold plant_calls, plant_call. apply leads_bind; [apply _|apply _|]. intros cfg. apply leads_bind; [apply _| |apply _].
  apply leads_for_each; [apply _|apply _|]. intros [[pc w] c]. apply _. Qed.
#[local] Instance grows_known f st : Leads grows (plant_known_range slide alloc locations f st).
Proof. unfold plant_known_range. apply _. Qed.
#[local] Instance grows_expand f l st : Leads grows (expand_known_boundary o slide alloc locations f l st).
Proof. unfold expand_known_boundary. apply _. Qed.
#[local] Instance grows_dynamic f st : Leads grows (plant_dynamic_range o slide alloc locations f st).
Proof.
  unfold plant_dynamic_range. apply leads_bind; [apply _|apply _|]. intros t.
  destruct (dynamic_extent _ _ _ _) as [[? ?] ?]. apply _.
Qed.

(** ** The callbacks keep the invariant *)

(** What comes next keeps the invariant wherever it starts. *)
Ltac keeps_rest := match goal with Hs : inv ?s |- keeps_at _ _ ?m ?s => apply (holds (m:=m) s Hs) end.

Definition thread_test (f : frame) (t : trace) : bool :=
  match t_tpidr t with
  | Some v => bool_decide (f_reg f (u "tpidr_el1") = Some v) && bool_decide (stack_region f ∈ t_regions t)
  | None => false
  end.
Lemma same_fast_run f s : same_thread_fast f s = (Ok (thread_test f (tr s)), s).
Proof. done. Qed.
Lemma same_run f s : same_thread slide f s = (Ok (thread_test f (tr s) && is_springboard slide f), s).
Proof. done. Qed.
Lemma lookup_config_run s i cf : config_ (tabs s) !! i = Some cf → lookup_config i s = (Ok cf, s).
Proof. intros Hi. unfold lookup_config, mbind, se_bind, gets, lift. by rewrite Hi. Qed.

(** The callback [c], run by a hit, keeps the invariant and raises nothing
    unexpected. *)
Definition safe (c : callback) (m : Z → frame → SM bool) : Prop :=
  ∀ i f a s, inv s → bps s !! i = Some (Breakpoint a (Some c) true) → keeps_at inv expected (m i f) s.

Lemma objc_dispatch_safe : safe OnObjcDispatch (on_objc_dispatch o slide alloc locations).
Proof.
  intros i f a s Hs Hb. destruct (inv_typed s Hs i _ _ Hb eq_refl) as [d Hd].
  apply keeps_gets. eapply keeps_ok; [cbn; by rewrite Hd|].
  eapply keeps_ok; [apply same_fast_run|]. destruct (_ || _ || _); [by split|].
  apply keeps_lift; [exact Hs| |].
  2:{ intros e. destruct (canonical <$> _); intros [= <-]. left. by eexists. }
  intros rt _. apply keeps_bind; [by keeps_rest|]. intros _ s1 _ Hs1. apply keeps_gets.
  apply keeps_bind; [|intros _ s2 _ Hs2; by keeps_rest].
  apply switch_all; [exact Hs1|]. destruct (groups (tabs s1) !! d_group d) as [g|] eqn:Eg; [|constructor].
  apply Forall_forall. intros j Hj. by apply (switchable_group s1 (d_group d) g).
Qed.

(** Waits. *)
Lemma mach_expected f e : mach_msg2_arguments f = Raise e → expected e.
Proof.
  unfold mach_msg2_arguments. destruct (negb _).
  - destruct (f_reg f (u "x0")); cbn [opt_or]; [done|]. intros [= <-]. left. by eexists.
  - done.
Qed.
Lemma keeps_install_wait {B} a label w (k : Z → SE state B) s :
  inv s → (∀ i s', inv s' → keeps_at inv expected (k i) s') →
  keeps_at inv expected (i ← install_bp alloc locations a label OnWaitReturn true;
    _ ← update (with_tabs (λ t, set_wait_returns (<[i := w]> (wait_returns t)) t)); k i) s.
Proof.
  intros Hs Hk. apply keeps_install; [exact Hs|]. cbv zeta. set (i := alloc (created s)).
  eapply keeps_ok; [reflexivity|]. apply Hk.
  apply (inv_planted s (Breakpoint a (Some OnWaitReturn) true)
    (λ t, set_wait_returns (<[i := w]> (wait_returns t)) (with_config i (Config label a Plain) t))); try done; try (by left).
  - intros j Hj. cbn. by rewrite !lookup_insert_ne.
  - intros c [= <-]. eexists. apply lookup_insert_eq.
  - intros cf. cbn. rewrite lookup_insert_eq. by intros [= <-].
Qed.
Lemma wait_primitive_safe : safe OnWaitPrimitive (on_wait_primitive o slide alloc locations).
Proof.
  intros i f a s Hs Hb. destruct (inv_typed s Hs i _ _ Hb eq_refl) as [cf Hcf].
  eapply keeps_ok; [apply same_fast_run|]. destruct (negb _); [by split|].
  eapply keeps_ok; [by apply lookup_config_run|]. apply keeps_gets. cbv zeta.
  destruct (_ && _) eqn:Ebud; [by split|]. destruct (inv_budgets s Hs) as [B1 B2 B3].
  eapply keeps_ok; [reflexivity|].
  set (s1 := with_trace (set_wait_sequence _) s).
  assert (inv s1) as Hs1 by (apply inv_trace; [exact Hs|by split|cbn; lia]).
  apply keeps_bind.
  - unfold when. case_bool_decide; [|by split]. split; [|done].
    apply inv_trace; [exact Hs1| |cbn; lia]. cbn [andb] in Ebud. split; cbn; lia.
  - intros _ s2 _ Hs2. apply keeps_bind; [by apply holds_opt_or|]. intros ret s3 _ Hs3.
    apply keeps_install_wait; [exact Hs3|]. intros j s4 Hs4. apply keeps_bind; [|intros m s5 _ Hs5; by keeps_rest].
    destruct (bool_decide (cf_label cf = _)); [|by split].
    apply keeps_lift; [done| |apply mach_expected]. intros m _. by split.
Qed.
Lemma seeded_safe : safe OnSeededWaitReturn (λ i f, on_seeded_wait_return o slide i f).
Proof.
  intros i f a s Hs _. eapply keeps_ok; [apply same_fast_run|]. destruct (negb _); [by split|].
  apply keeps_bind; [by keeps_rest|]. intros _ s1 _ Hs1. apply keeps_bind; [by keeps_rest|]. intros _ s2 _ Hs2. by keeps_rest.
Qed.

(** A breakpoint goes away; nobody looks its entry up any more. *)
Lemma inv_delete_bp s i : inv s → returns (tabs s) !! i = None → inv (set_bps (delete i (bps s)) s).
Proof.
  intros Hs Hr. apply inv_bps; [exact Hs| |].
  - intros j b [_ Hb]%lookup_delete_Some. exists b. auto.
  - intros j [r Hj]. rewrite lookup_delete_ne; [done|]. intros <-. congruence.
Qed.
Lemma inv_drop_wait s i : inv s → bps s !! i = None →
  inv (with_tabs (λ t, set_wait_returns (delete i (wait_returns t)) t) s).
Proof.
  intros [Hc Hu Ht Hf Hw Hg Hr Hsite Ha HP Hb] Hi. split; try done.
  - intros j Hj. apply Hu. unfold mentioned in *. cbn [with_tabs tabs bps config_ returns dispatches wait_returns
      wait_ids set_wait_returns] in Hj. rewrite lookup_delete_is_Some in Hj. unfold in_groups in *.
    cbn [with_tabs tabs groups set_wait_returns] in Hj. tauto.
  - intros j b c Hj Hcb. change (bps s !! j = Some b) in Hj. specialize (Ht j b c Hj Hcb). destruct c; try exact Ht.
    cbn [has_entry with_tabs tabs set_wait_returns wait_returns] in *. rewrite lookup_delete_ne; [done|].
    intros <-. by rewrite Hi in Hj.
Qed.
(** A return is over: no call under way has its witness there. *)
Lemma inv_drop_return s i : inv s →
  (∀ c a r, active (tabs s) !! c = Some a → returns (tabs s) !! i = Some r → r_call r = c → watched_scope (r_scope r) = false) →
  inv (with_tabs (λ t, set_returns (delete i (returns t)) t) (set_bps (delete i (bps s)) s)).
Proof.
  intros [Hc Hu Ht Hf Hw Hg Hr Hsite Ha HP Hb] Hdone.
  assert (∀ j b, delete i (bps s) !! j = Some b → bps s !! j = Some b) as Hold.
  { intros j b Hj. by apply lookup_delete_Some in Hj as [_ Hj]. }
  split; cbn [with_tabs set_bps created bps tabs tr files]; try done.
  - intros j Hj. apply Hu. unfold mentioned, in_groups in *. cbn [with_tabs set_bps tabs bps config_ returns dispatches
      wait_returns wait_ids set_returns groups] in Hj. rewrite !lookup_delete_is_Some in Hj. tauto.
  - intros j b c Hj Hcb. specialize (Ht j b c (Hold j b Hj) Hcb). destruct c; try exact Ht.
    cbn [has_entry with_tabs set_bps tabs set_returns returns] in *.
    apply lookup_delete_Some in Hj as [Hne _]. by rewrite lookup_delete_ne.
  - intros j cf b Hj Hbj. apply (Hf j); [done|by apply Hold].
  - intros j b Hj Hbj. apply (Hw j); [done|by apply Hold].
  - intros j b Hj Hbj. apply (Hg j); [exact Hj|by apply Hold].
  - intros j r Hj. cbn in Hj. apply lookup_delete_Some in Hj as [Hne Hj]. destruct (Hr j r Hj) as [a Hja].
    exists a. by rewrite lookup_delete_ne.
  - intros j cf cs Hj Hcs. destruct (Hsite j cf cs Hj Hcs) as [Hh He]. split; [done|].
    intros b Hbj. apply He, Hold, Hbj.
  - intros c a Hca. destruct (Ha c a Hca) as (Hle & j & r & Hj & Hrc & Hwr). split; [done|].
    exists j, r. split; [|done]. cbn [set_returns returns]. rewrite lookup_delete_ne; [done|]. intros <-.
    rewrite (Hdone c a r Hca Hj Hrc) in Hwr. done.
Qed.

Lemma wait_return_safe : safe OnWaitReturn (on_wait_return o slide).
Proof.
  intros i f a s Hs Hb. destruct (inv_typed s Hs i _ _ Hb eq_refl) as [w Hw].
  apply keeps_gets. eapply keeps_ok; [apply same_fast_run|]. rewrite Hw. destruct (negb _); [by split|]. cbv zeta.
  apply (keeps_leads _ _ quiet); [apply _|apply _|done|]. intros _ s1 Hs1 Q1.
  apply (keeps_leads _ _ quiet); [apply _|apply _|done|]. intros _ s2 Hs2 Q2.
  apply (keeps_leads _ _ quiet); [apply _|apply _|done|]. intros _ s3 Hs3 Q3.
  destruct (transitivity (transitivity Q1 Q2) Q3) as (_ & Eb & Et & _).
  eapply keeps_ok; [reflexivity|]. eapply keeps_ok; [reflexivity|]. split; [|done].
  apply inv_drop_wait; [|apply lookup_delete_eq].
  apply inv_delete_bp; [exact Hs3|]. destruct (returns (tabs s3) !! i) as [r|] eqn:Er; [|done].
  destruct (inv_returns s3 Hs3 i r Er) as [a' Ha']. by rewrite Eb, Hb in Ha'.
Qed.

(** The call is taken off the calls under way. *)
Lemma keeps_return_done s r i (k : SM ()) f :
  inv s → returns (tabs s) !! i = Some r → Holds inv expected k → Leads quiet k →
  keeps_at (λ s', inv s' ∧ returns (tabs s') !! i = Some r ∧ active (tabs s') !! r_call r = None) expected
    (_ ← update (with_tabs (λ t, set_active (delete (r_call r) (active t)) t)); _ ← refresh_pending o f "return"; k) s.
Proof.
  intros Hs Hr Hk Hq. set (m := delete (r_call r) (active (tabs s))).
  destruct (refresh_files s m f "return") as (fs & Hrun & HP). set (s' := set_files fs (with_tabs (set_active m) s)) in *.
  assert (inv s') as Hs'.
  { apply inv_set_active; [done| |exact HP]. intros c a [_ Hc]%lookup_delete_Some. by apply (inv_active s Hs c a). }
  eapply keeps_ok; [reflexivity|]. eapply keeps_ok; [exact Hrun|].
  destruct (Hk s' Hs') as [Hk1 Hk2]. destruct (Hq s') as (_ & _ & Et & _). split; [|exact Hk2].
  rewrite Et. split_and!; [exact Hk1|exact Hr|apply lookup_delete_eq].
Qed.
Lemma return_safe : safe OnReturn (on_return o slide).
Proof.
  intros i f a s Hs Hb. destruct (inv_typed s Hs i _ _ Hb eq_refl) as [r Hr].
  apply keeps_gets. eapply keeps_ok; [apply same_run|]. rewrite Hr. destruct (negb _); [by split|].
  apply (keeps_leads _ _ quiet); [apply _|apply _|done|]. intros _ s1 Hs1 (_ & _ & Et1 & _).
  apply (keeps_mid inv expected (λ s', returns (tabs s') !! i = Some r
    ∧ (watched_scope (r_scope r) = true → active (tabs s') !! r_call r = None))).
  - assert (returns (tabs s1) !! i = Some r) as Hr1 by (by rewrite Et1).
    unfold when. destruct (watched_scope (r_scope r)); [|split; [split_and!; [exact Hs1|exact Hr1|done]|done]].
    destruct (keeps_return_done s1 r i (write_event o (ProbeWatch.returned_name (r_call r))
      (PReturned (ProbeWatch.Event (r_call r) (TRACE_SELECTOR o) (f_now f)))) f Hs1 Hr1 _ _) as [(? & ? & ?) ?].
    split; [by split_and!|done].
  - intros _ s2 Hs2 [Hr2 Ha2]. apply keeps_gets. 
    apply (keeps_leads _ _ same_tabs).
    + apply leads_when; [apply _|]. apply leads_bind; [apply _| |apply _]. by apply same_tabs_trace.
    + apply holds_when, holds_bind; [|apply _]. apply holds_update. intros s' Hs'.
      apply inv_trace; [done| |cbn; lia]. by destruct (inv_budgets s' Hs').
    + done.
    + intros _ s3 Hs3 [Et3 _]. eapply keeps_ok; [reflexivity|]. eapply keeps_ok; [reflexivity|]. split; [|done].
      apply inv_drop_return; [exact Hs3|]. intros c a' r' Hc Hr' <-. rewrite Et3 in *.
      destruct (watched_scope (r_scope r')) eqn:Ew; [|done]. assert (r' = r) as -> by congruence.
      rewrite Ha2 in Hc; [done|exact Ew].
Qed.

(** A breakpoint of [CONFIG] is switched off. *)
Lemma keeps_disable s i : inv s → is_Some (config_ (tabs s) !! i) → keeps_at inv expected (set_enabled i false) s.
Proof. intros Hs [cf Hcf]. split; [|done]. apply (inv_enabling s i false Hs). by apply (switchable_config s i cf). Qed.
(** One step that keeps the entry of [i] in [CONFIG]. *)
Ltac keeps_grow Hc :=
  match goal with Hs : inv ?s |- keeps_at _ _ (_ ≫= _) ?s =>
    apply (keeps_leads _ _ grows); [apply _|apply _|exact Hs|];
    let Hg := fresh in let s' := fresh "s" in
    intros ? s' ? Hg; apply (proj1 Hg) in Hc; clear Hg Hs
  end.

Lemma target_entry_safe : safe OnTargetEntry (on_target_entry o slide alloc locations).
Proof.
  intros i f a s Hs Hb. destruct (inv_typed s Hs i _ _ Hb eq_refl) as (cf & e & Hcf & He).
  eapply keeps_ok; [apply same_run|]. destruct (negb _); [by split|].
  eapply keeps_ok; [by apply lookup_config_run|]. rewrite He. eapply keeps_ok; [done|].
  assert (is_Some (config_ (tabs s) !! i)) as Hc by eauto. clear Hb Hcf.
  do 4 keeps_grow Hc. apply keeps_bind; [by apply keeps_disable|]. intros _ s' _ Hs'. by split.
Qed.

#[local] Instance holds_arm f anchor : Holds inv expected (arm slide f anchor).
Proof.
  unfold arm. apply holds_bind; [apply _|]. intros t. apply holds_if; [apply _|].
  apply holds_bind; [|apply _]. apply holds_update. intros s Hs.
  apply inv_trace; [done| |cbn; lia]. by destruct (inv_budgets s Hs).
Qed.
#[local] Instance grows_arm f anchor : Leads grows (arm slide f anchor).
Proof.
  unfold arm. apply leads_bind; [apply _|apply _|]. intros t. apply leads_if; [apply _|].
  apply leads_bind; [apply _| |apply _]. apply grows_same_tabs. by apply same_tabs_trace.
Qed.
Lemma anchor_safe : safe OnAnchor (λ i f, on_anchor o slide alloc locations i f).
Proof. intros i f a s Hs _. unfold on_anchor. by keeps_rest. Qed.

#[local] Instance quiet_progress label f : Leads quiet (boundary_progress o slide label f).
Proof. unfold boundary_progress. apply _. Qed.
#[local] Instance holds_progress label f : Holds inv expected (boundary_progress o slide label f).
Proof. unfold boundary_progress. apply _. Qed.
#[local] Instance grows_boundary_arm label a f : Leads grows (boundary_arm o slide label a f).
Proof. unfold boundary_arm. apply _. Qed.
#[local] Instance holds_boundary_arm label a f : Holds inv expected (boundary_arm o slide label a f).
Proof. unfold boundary_arm. apply _. Qed.
#[local] Instance grows_region label f : Leads grows (boundary_region slide label f).
Proof.
  unfold boundary_region. apply leads_bind; [apply _|apply _|]. intros t. apply leads_when; [apply _|].
  apply grows_same_tabs. by apply same_tabs_trace.
Qed.
#[local] Instance holds_region label f : Holds inv expected (boundary_region slide label f).
Proof.
  unfold boundary_region. apply holds_bind; [apply _|]. intros t. apply holds_when, holds_update. intros s Hs.
  apply inv_trace; [done| |cbn; lia]. by destruct (inv_budgets s Hs).
Qed.
#[local] Instance grows_plants label a f : Leads grows (boundary_plants o slide alloc locations label a f).
Proof. unfold boundary_plants. apply _. Qed.
#[local] Instance holds_plants label a f : Holds inv expected (boundary_plants o slide alloc locations label a f).
Proof. unfold boundary_plants. apply _. Qed.
Lemma boundary_safe : safe OnBoundary (on_boundary o slide alloc locations).
Proof.
  intros i f a s Hs Hb. destruct (inv_typed s Hs i _ _ Hb eq_refl) as [cf Hcf].
  eapply keeps_ok; [by apply lookup_config_run|]. cbv zeta. set (label := cf_label cf). set (address := cf_address cf).
  assert (is_Some (config_ (tabs s) !! i)) as Hc by eauto. clear Hb Hcf.
  keeps_grow Hc. destruct a0 as [stop|]; [by split|]. destruct (PROGRESS_ONLY o); [by split|].
  keeps_grow Hc. destruct (negb _); [by split|]. keeps_grow Hc.
  eapply keeps_ok; [apply same_run|]. destruct (negb _); [by split|].
  do 3 keeps_grow Hc. apply keeps_gets. keeps_grow Hc.
  apply keeps_bind; [|intros _ s' _ Hs'; by split]. unfold when. destruct (in_framework label); [|by split].
  by apply keeps_disable.
Qed.

(** A call site is hit: it is counted, and switched off when that was the last
    hit it may have. *)
Lemma inv_recount s i cf c c' : inv s →
  config_ (tabs s) !! i = Some cf → cf_extra cf = ACall c → site_ok s i c' →
  inv (with_tabs (λ t, set_config (alter (λ x, Config (cf_label x) (cf_address x) (ACall c')) i (config_ t)) t) s).
Proof.
  intros Hs Hi Hc Hok. destruct Hs as [Hcr Hu Ht Hf Hw Hg Hr Hsite Ha HP Hb].
  assert (∀ j cf', alter (λ x, Config (cf_label x) (cf_address x) (ACall c')) i (config_ (tabs s)) !! j = Some cf' →
    j = i ∧ cf' = Config (cf_label cf) (cf_address cf) (ACall c') ∨ config_ (tabs s) !! j = Some cf') as Halt.
  { intros j cf'. rewrite lookup_alter_Some. intros [(<- & x & Hx & ->)|[_ ?]]; [left|by right].
    split; [done|]. by simplify_eq. }
  split; cbn [with_tabs created bps tabs tr files]; try done.
  - intros j Hj. apply Hu. unfold mentioned, in_groups in *. cbn [with_tabs tabs bps config_ returns dispatches
      wait_returns wait_ids set_config groups] in Hj. rewrite lookup_alter_is_Some in Hj. exact Hj.
  - intros j b k Hj Hcb. specialize (Ht j b k Hj Hcb). destruct k; try exact Ht;
      cbn [has_entry with_tabs tabs set_config config_] in *; rewrite ?lookup_alter_is_Some; try exact Ht.
    + destruct Ht as (cf' & cs & Hcf' & Hcs). destruct (decide (i = j)) as [->|Hne].
      * rewrite lookup_alter_eq, Hcf'. cbn. eauto.
      * rewrite lookup_alter_ne by done. eauto.
    + destruct Ht as (cf' & e & Hcf' & He). rewrite lookup_alter_ne; [by eauto|]. intros <-. congruence.
  - intros j cf' b Hj Hbj. destruct (Halt j cf' Hj) as [[-> ->]|Hj']; [|by apply (Hf j)].
    specialize (Hf i cf b Hi Hbj). by rewrite Hc in Hf.
  - intros j cf' cs Hj Hcs. destruct (Halt j cf' Hj) as [[-> ->]|Hj']; [|by apply (Hsite j cf')].
    injection Hcs as <-. exact Hok.
Qed.
Lemma keeps_count {B} s i cf c a label address scope static word ctl (k : SE state B) :
  inv s → config_ (tabs s) !! i = Some cf → cf_extra cf = ACall c → bps s !! i = Some (Breakpoint a label true) →
  (∀ s', inv s' → tr s' = tr s → keeps_at inv expected k s') → address = cs_hits c + 1 →
  keeps_at inv expected (_ ← add_config i (ACall (CallSite scope static word ctl address));
    _ ← when (MAX_SITE_HITS o <=? address) (set_enabled i false); k) s.
Proof.
  intros Hs Hi Hc Hb Hk ->. destruct (inv_sites s Hs i cf c Hi Hc) as [Hh He].
  pose proof (He _ Hb eq_refl) as Hlt. eapply keeps_ok; [reflexivity|].
  unfold when. destruct (MAX_SITE_HITS o <=? cs_hits c + 1) eqn:E; (eapply keeps_ok; [reflexivity|]); apply Hk; try done.
  - pose proof (inv_enabling s i false Hs (switchable_config s i cf Hs Hi)) as He'.
    apply (inv_recount _ i cf c (CallSite scope static word ctl (cs_hits c + 1)) He'); [done|done|].
    split; [cbn; lia|]. cbn [cs_hits enabling set_bps bps]. intros b. rewrite lookup_alter_eq, Hb. by intros [= <-].
  - apply (inv_recount s i cf c); [done|done|done|]. split; [cbn; lia|]. intros. cbn. lia.
Qed.

#[local] Instance holds_context call st f : Holds inv expected (note_context slide call st f).
Proof.
  unfold note_context. apply holds_when, holds_bind; [|apply _]. apply holds_update. intros s Hs.
  apply inv_trace; [done| |cbn; lia]. by destruct (inv_budgets s Hs).
Qed.
#[local] Instance grows_context call st f : Leads grows (note_context slide call st f).
Proof.
  unfold note_context. apply leads_when; [apply _|]. apply leads_bind; [apply _| |apply _].
  apply grows_same_tabs. by apply same_tabs_trace.
Qed.

(** The return witness of a call, and the deadline of a watched one. *)
Lemma create_run address s :
  create_bp alloc locations address s = (Ok (alloc (created s)), added (Breakpoint address None true) (λ t, t) s).
Proof. unfold create_bp. by destruct (locations_valid address) as [n ->]. Qed.
Lemma plant_return_keeps s call c address rt st f :
  inv s → call ≤ t_calls (tr s) → keeps_at inv expected (plant_return o alloc locations call c address rt st f) s.
Proof.
  intros Hs Hcall. unfold plant_return. set (i := alloc (created s)).
  set (r := ReturnSite call (cs_static c) st rt (f_now f) (cs_scope c)).
  set (s1 := added (Breakpoint address (Some OnReturn) true) (λ t, set_returns (<[i := r]> (returns t)) t) s).
  assert (inv s1) as Hs1.
  { apply inv_planted; try done; try (by left).
    - intros j Hj. cbn. by rewrite lookup_insert_ne.
    - intros k [= <-]. eexists. apply lookup_insert_eq.
    - intros cf Hcf. destruct (inv_fresh s i Hs eq_refl). right. left. by eexists.
    - by right. }
  eapply keeps_ok; [apply create_run|]. eapply keeps_ok; [reflexivity|].
  apply (keeps_ok _ _ _ _ () _ s1).
  { unfold s1, update, added, with_tabs, set_bps. cbn [bps tabs created tr out files]. by rewrite alter_insert_eq. }
  unfold when. destruct (watched_scope (cs_scope c)) eqn:Ew; [|by split].
  eapply keeps_ok; [reflexivity|].
  apply (refresh_run s1 (<[call := ActiveCall (cs_scope c) (cs_static c) st]> (active (tabs s1))) f "call" Hs1).
  intros c' a [[<- _]|[_ Ha]]%lookup_insert_Some; [|by apply (inv_active s1 Hs1 c' a)].
  split; [exact Hcall|]. exists i, r. split_and!; [apply lookup_insert_eq|done|done].
Qed.

#[local] Instance holds_resolve call rt st f : Holds inv expected (resolve_stub o slide alloc locations call rt st f).
Proof.
  unfold resolve_stub. apply holds_when, holds_bind; [|intros; apply _]. apply holds_update. intros s Hs.
  apply inv_trace; [done| |cbn; lia]. by destruct (inv_budgets s Hs).
Qed.
#[local] Instance holds_limit call f : Holds inv expected (call_limit o slide call f).
Proof.
  intros s Hs. apply keeps_gets. apply keeps_bind; [|intros _ s1 _ Hs1; by keeps_rest].
  apply switch_all; [exact Hs|]. apply Forall_forall. intros j Hj. unfold scoped_ids in Hj.
  apply list_elem_of_omap in Hj as ([j' cf] & Hin & Hj). apply elem_of_map_to_list in Hin.
  apply bind_Some in Hj as (c & _ & [= <-]). by apply (switchable_config s j' cf).
Qed.
Lemma call_safe : safe OnCall (on_call o slide alloc locations).
Proof.
  intros i f a s Hs Hb. destruct (inv_typed s Hs i _ _ Hb eq_refl) as (cf & c & Hcf & Hc).
  eapply keeps_ok; [apply same_run|]. apply keeps_gets. destruct (_ || _) eqn:Eb; [by split|].
  apply orb_false_elim in Eb as [_ Eb]. apply Z.leb_gt in Eb.
  eapply keeps_ok; [by apply lookup_config_run|]. rewrite Hc. eapply keeps_ok; [done|]. cbv zeta.
  eapply keeps_count; [done|done|done|done| |done]. intros s1 Hs1 Et1.
  destruct (call_target slide (cs_control c) f) as [rt st]. set (call := t_calls (tr s) + 1).
  eapply keeps_ok; [reflexivity|].
  set (s2 := with_trace (set_calls call) s1).
  assert (inv s2) as Hs2.
  { destruct (inv_budgets s1 Hs1). apply inv_trace; [done| |cbn; rewrite Et1; lia].
    rewrite Et1 in *. split; cbn; lia. }
  assert (call ≤ t_calls (tr s2)) as Hle by (cbn; lia). clearbody s2.
  apply (keeps_leads _ _ grows); [apply _|apply _|exact Hs2|]. intros _ s3 Hs3 [_ Hg].
  apply keeps_bind.
  { destruct (control_tail (cs_control c)); [by split|]. apply plant_return_keeps; [exact Hs3|lia]. }
  intros _ s4 _ Hs4. by keeps_rest.
Qed.

(** ** Installation *)

#[local] Instance holds_install_plain address label c e :
  TCEq (match c with OnAnchor | OnBoundary | OnWaitPrimitive | OnSeededWaitReturn => true | _ => false end) true →
  Holds inv expected (install_bp alloc locations address label c e).
Proof.
  intros Hc s Hs. unfold keeps_at. rewrite install_bp_run. destruct (bool_decide _).
  - split; [|done]. apply inv_planted_config; cbn; try done.
    + destruct c; by inversion Hc.
    + intros k [= <-]. by destruct c; inversion Hc.
    + intros [= ->]. by inversion Hc.
    + intros [= ->]. by inversion Hc.
  - split; [by apply inv_unplanted|]. right. by eexists.
Qed.
#[local] Instance holds_install_wait w : Holds inv expected (install_wait slide alloc locations w).
Proof.
  intros s Hs. unfold install_wait. apply keeps_install; [exact Hs|]. cbv zeta. set (i := alloc (created s)).
  split; [|done].
  apply (inv_planted s (Breakpoint (slide + w.1) (Some OnWaitPrimitive) false)
    (λ t, set_wait_ids (wait_ids t ++ [i]) (with_config i (Config (u "WAIT_" ++ upper w.2) (slide + w.1) Plain) t)));
    try done; try (by left).
  - apply same_with_config.
  - by right.
  - intros c [= <-]. eexists. apply lookup_insert_eq.
  - intros cf. cbn. rewrite lookup_insert_eq. by intros [= <-].
Qed.
#[local] Typeclasses Opaque install_wait arm_one_dispatch plant_call.
#[local] Instance holds_do_install now : Holds inv expected (install o slide alloc locations now).
Proof. unfold install. apply _. Qed.
Lemma springboard_run f s :
  is_springboard slide f = true → t_tpidr (tr s) = None →
  ∃ s', arm slide f (static_ slide (f_reg f (u "pc"))) s = (Ok true, s').
Proof.
  intros Hf Ht. unfold arm, mbind, se_bind, gets, update. rewrite Ht, Hf. cbn. by eexists.
Qed.
#[local] Instance holds_resume valid f : Holds inv expected (resume_install o slide alloc locations valid f).
Proof.
  assert (∀ msg, Holds inv expected (raise (A:=()) (RuntimeError msg))) as Hraise.
  { intros msg. apply holds_raise. right. by eexists. }
  unfold resume_install. apply holds_bind; [apply _|]. intros _. apply holds_if; [apply _|].
  destruct (SEEDED_TPIDR o) as [tp|], (SEEDED_STACK_REGION o) as [rg|]; [|apply _|apply _|apply _].
  apply holds_bind; [|intros _; apply _]. apply holds_update. intros s Hs.
  apply inv_trace; [done| |cbn; lia]. by destruct (inv_budgets s Hs).
Qed.

Lemma inv_no_state : inv no_state.
Proof.
  split; cbn; try done; try (intros; by simplify_map_eq); try lia.
  - intros i [[x H]|[[x H]|[[x H]|[[x H]|[[x H]|[H|(l & g & H & _)]]]]]]; try done.
    by apply not_elem_of_nil in H.
  - split; cbn; lia.
Qed.

Lemma callback_safe c : safe c (run_callback o slide alloc locations c).
Proof.
  destruct c; cbn [run_callback].
  - apply anchor_safe.
  - apply boundary_safe.
  - apply call_safe.
  - apply return_safe.
  - apply target_entry_safe.
  - apply objc_dispatch_safe.
  - apply wait_primitive_safe.
  - apply wait_return_safe.
  - apply seeded_safe.
Qed.
Lemma tracer_reachable_inv s : reachable o slide alloc locations s → inv s.
Proof.
  induction 1 as [now|valid f|s i f a c _ IH Hb].
  - apply holds_do_install, inv_no_state.
  - apply holds_resume, inv_no_state.
  - by apply (callback_safe c i f a s IH Hb).
Qed.

(** ** What the tracer promises *)

(** C5: in every state the tracer can reach, whatever the guest does and
    whichever callbacks raise: it has counted no more calls, dynamic targets and
    rootless waits than their budgets; no planted call site was hit more often
    than its limit, and none at its limit is still on; every call under way has
    an enabled return witness; and with an event directory the pending file names
    the deepest call under way, or is absent when there is none. *)
Theorem tracer_invariant s :
  reachable o slide alloc locations s →
  budgets_ok (tr s)
  ∧ (∀ i cf cs, config_ (tabs s) !! i = Some cf → cf_extra cf = ACall cs → site_ok s i cs)
  ∧ (∀ c a, active (tabs s) !! c = Some a →
       ∃ i r addr, returns (tabs s) !! i = Some r ∧ r_call r = c ∧ bps s !! i = Some (Breakpoint addr (Some OnReturn) true))
  ∧ pending_ok s.
Proof.
  intros Hr. pose proof (tracer_reachable_inv s Hr) as Hs. refine (conj _ (conj _ (conj _ _))).
  - apply (inv_budgets s Hs).
  - apply (inv_sites s Hs).
  - intros c a Hc. destruct (inv_active s Hs c a Hc) as (_ & i & r & Hi & Hrc & _).
    destruct (inv_returns s Hs i r Hi) as [addr Hb]. exists i, r, addr. by split_and!.
  - apply (inv_pending s Hs).
Qed.

(** C39: a callback never fails to find its entry: run on the hit of an enabled
    breakpoint in any reachable state it returns an answer, or raises
    [TypeError] (a register that is not valid where a number is needed) or
    [RuntimeError] (a breakpoint that LLDB did not place at exactly one
    location); never [KeyError], however many breakpoints were deleted before. *)
Theorem callbacks_find_entries s i f a c :
  reachable o slide alloc locations s → bps s !! i = Some (Breakpoint a (Some c) true) →
  match (run_callback o slide alloc locations c i f s).1 with
  | Ok _ => True
  | Raise e => (∃ m, e = TypeError m) ∨ (∃ m, e = RuntimeError m)
  end.
Proof. intros Hr Hb. apply (callback_safe c i f a s (tracer_reachable_inv s Hr) Hb). Qed.

(** *** Planting *)

Lemma scope_statics_spec scope (m : gmap Z config) x :
  x ∈ scope_statics scope m ↔ ∃ i cf cs, m !! i = Some cf ∧ cf_extra cf = ACall cs ∧ cs_scope cs = scope ∧ cs_static cs = x.
Proof.
  unfold scope_statics. rewrite list_elem_of_omap. split.
  - intros ([i cf] & Hin & Hx). apply elem_of_map_to_list in Hin. cbn in Hx.
    apply bind_Some in Hx as (cs & Hcs & Hx). unfold call_of in Hcs.
    destruct (cf_extra cf) eqn:E; simplify_eq. case_bool_decide; simplify_eq. eauto 10.
  - intros (i & cf & cs & Hi & Hcs & Hsc & Hx). exists (i, cf). split; [by apply elem_of_map_to_list|].
    cbn. unfold call_of. rewrite Hcs. cbn. by rewrite bool_decide_true, Hx.
Qed.
Lemma plant_call_wp scope w s (E : exn → state → Prop) (Q : () → state → Prop) :
  inv s → (∀ e s', E e s') →
  (∀ s', inv s' → (∀ x, x ∈ scope_statics scope (config_ (tabs s)) ∨ x = w.1.1 → x ∈ scope_statics scope (config_ (tabs s'))) →
     Q () s') →
  wp (plant_call slide alloc locations scope w) Q E s.
Proof.
  intros Hs HE HQ. pose proof (holds_plant_call scope w s Hs) as [Hinv _]. revert Hinv.
  destruct w as [[pc word] c]. unfold wp, plant_call, mbind, se_bind. rewrite install_bp_run.
  destruct (bool_decide _); [|intros _; apply HE]. rewrite add_config_run. intros Hinv. apply HQ; [exact Hinv|].
  intros x. rewrite !scope_statics_spec. cbn [added tabs with_config set_config config_ cf_label cf_address fst].
  intros [(i & cf & cs & Hi & Hrest)| ->].
  - exists i, cf, cs. rewrite lookup_insert_ne; [done|]. intros <-.
    apply (inv_fresh s _ Hs eq_refl). right. left. by eexists.
  - eexists (alloc (created s)), _, _. by rewrite lookup_insert_eq.
Qed.
(** A scan leaves nothing out and plants nothing twice: once [_plant_calls]
    has returned for a scope and a range, every word of the range that decodes to
    a transfer leaving the function, or is listed as an indirect call, has a
    planted call site of that scope; and a second scan that reads the same bytes
    creates no breakpoint and changes no table. *)
Theorem plant_calls_complete s s' f scope start end_ :
  reachable o slide alloc locations s →
  plant_calls slide alloc locations f scope start end_ s = (Ok (), s') →
  let data := read f (slide + start) (end_ - start) in
  (∀ t, t ∈ omap (transfer_at start end_) (code_words data) → t.1.1 ∈ scope_statics scope (config_ (tabs s')))
  ∧ ∃ s'', plant_calls slide alloc locations f scope start end_ s' = (Ok (), s'') ∧ bps s'' = bps s' ∧ tabs s'' = tabs s'.
Proof.
  intros Hr Hrun data. pose proof (tracer_reachable_inv s Hr) as Hs.
  set (all := omap (transfer_at start end_) (code_words data)).
  set (old := scope_statics scope (config_ (tabs s))).
  assert (∀ t, t ∈ all → t.1.1 ∈ scope_statics scope (config_ (tabs s'))) as Hall.
  { assert (wp (for_each (plant_call slide alloc locations scope) (to_plant old start end_ data))
      (λ _ s1, inv s1 ∧ ∀ x, x ∈ old ∨ (∃ t, t ∈ to_plant old start end_ data ∧ x = t.1.1) →
         x ∈ scope_statics scope (config_ (tabs s1))) (λ _ _, True) s) as Hwp.
    { apply (wp_for_each _ (λ done_ s1, inv s1 ∧ ∀ x, x ∈ old ∨ (∃ t, t ∈ done_ ∧ x = t.1.1) →
         x ∈ scope_statics scope (config_ (tabs s1)))).
      - split; [done|]. intros x [?|(t & Ht & _)]; [done|by apply not_elem_of_nil in Ht].
      - intros done_ t s1 [Hs1 Hin] _. apply plant_call_wp; [done|done|]. intros s2 Hs2 Hin2.
        split; [done|]. intros x [Hx|(t' & Ht' & ->)].
        + apply Hin2. left. apply Hin. by left.
        + apply elem_of_app in Ht' as [Ht'| ->%list_elem_of_singleton]; [|apply Hin2; by right].
          apply Hin2. left. apply Hin. right. eauto. }
    unfold wp in Hwp. revert Hrun. unfold plant_calls, mbind, se_bind, gets.
    fold old. fold data. destruct (for_each _ _ s) as [[[]|e] s1] eqn:Ef; [|done].
    destruct Hwp as [_ Hin]. intros [= <-]. cbn [emit update tabs]. intros t Ht.
    apply Hin. destruct (decide (t.1.1 ∈ old)); [by left|]. right. exists t. split; [|done].
    by apply list_elem_of_filter. }
  split; [exact Hall|]. unfold plant_calls, mbind, se_bind, gets. fold data.
  assert (to_plant (scope_statics scope (config_ (tabs s'))) start end_ data = []) as ->.
  { unfold to_plant. fold all. revert Hall. generalize (scope_statics scope (config_ (tabs s'))). intros l Hl.
    induction all as [|t ts IH]; [done|]. rewrite filter_cons_False.
    - apply IH. intros t' Ht'. apply Hl. by right.
    - intros Hn. apply Hn, Hl. by left. }
  by eexists.
Qed.
End invariant.
