(* ===== verification/StartupWatch.v ===== *)
(** * The startup tracer and the probe watcher

    What the tracer leaves on disk when a callback answers that the guest is to
    stay stopped, and the tracer's event directory read by the watcher of
    [tools/re/probe_watch.py] while the tracer runs. *)

From stdpp Require Import base tactics list gmap strings.
From Stdlib Require Import Strings.Byte.
From S2P Require Import Prelude PyState PyBytes PyStr PyDict StartupDecode StartupTables StartupTrace StartupProps.
From S2P Require ProbeWatch.
Open Scope Z_scope.

(** ** A stop is never without evidence *)

Section stops.
Variable o : options.
Variable slide : Z.
Variable alloc : Z → Z.
Variable locations : Z → option Z.

(** Event files stay, the pending ones apart. *)
Definition lasting (n : list Z) : Prop := startswith (u "pending.") n = false.
Definition files_grow (s s' : state) : Prop :=
  ∀ n, lasting n → is_Some (files s !! n) → is_Some (files s' !! n).
#[local] Instance files_grow_refl : Reflexive files_grow.
Proof. by intros s n. Qed.
#[local] Instance files_grow_trans : Transitive files_grow.
Proof. intros s1 s2 s3 H1 H2 n Hn Hs. by apply H2, H1. Qed.

#[local] Instance grow_tabs g : Leads files_grow (update (with_tabs g)).
Proof. by intros s n. Qed.
#[local] Instance grow_trace g : Leads files_grow (update (with_trace g)).
Proof. by intros s n. Qed.
#[local] Instance grow_create a : Leads files_grow (create_bp alloc locations a).
Proof. intros s n. unfold create_bp. by destruct (locations a). Qed.
#[local] Instance grow_callback i c : Leads files_grow (set_callback i c).
Proof. by intros s n. Qed.
#[local] Instance grow_enabled i e : Leads files_grow (set_enabled i e).
Proof. by intros s n. Qed.
#[local] Instance grow_delete i : Leads files_grow (delete_bp i).
Proof. by intros s n. Qed.
#[local] Instance grow_emit f n r : Leads files_grow (emit slide f n r).
Proof. by intros s m. Qed.
#[local] Instance grow_write n p : Leads files_grow (write_event o n p).
Proof.
  unfold write_event. apply leads_when; [apply _|]. intros s m _ Hm. cbn. rewrite lookup_insert_is_Some.
  destruct (decide (n = m)); auto.
Qed.
Class PendingName (n : list Z) := pending_name : startswith (u "pending.") n = true.
#[local] Hint Extern 0 (PendingName _) => (red; reflexivity) : typeclass_instances.
#[local] Instance grow_remove n `{!PendingName n} : Leads files_grow (remove_event o n).
Proof.
  unfold remove_event. apply leads_when; [apply _|]. intros s m Hm Hs. cbn. rewrite lookup_delete_ne; [done|].
  intros <-. unfold lasting in Hm. congruence.
Qed.
#[local] Instance grow_refresh f p : Leads files_grow (refresh_pending o f p).
Proof. unfold refresh_pending. apply _. Qed.
#[local] Instance grow_install a l c e : Leads files_grow (install_bp alloc locations a l c e).
Proof. unfold install_bp. apply _. Qed.
#[local] Instance grow_add_config i e : Leads files_grow (add_config i e).
Proof. unfold add_config. apply _. Qed.
#[local] Instance grow_waits e : Leads files_grow (enable_wait_primitives e).
Proof. unfold enable_wait_primitives. apply _. Qed.
#[local] Instance grow_plant_call sc w : Leads files_grow (plant_call slide alloc locations sc w).
Proof. destruct w as [[pc w] c]. cbn [plant_call]. apply _. Qed.
#[local] Instance grow_plant_calls f sc st en : Leads files_grow (plant_calls slide alloc locations f sc st en).
Proof. unfold plant_calls. apply _. Qed.
#[local] Instance grow_known f st : Leads files_grow (plant_known_range slide alloc locations f st).
Proof. unfold plant_known_range. apply _. Qed.
#[local] Instance grow_expand f l st : Leads files_grow (expand_known_boundary o slide alloc locations f l st).
Proof. unfold expand_known_boundary. apply _. Qed.
#[local] Instance grow_arm_dispatch c r sel st : Leads files_grow (arm_one_dispatch slide alloc locations c r sel st).
Proof. unfold arm_one_dispatch. apply _. Qed.
#[local] Typeclasses Opaque arm_one_dispatch plant_call plant_calls.
#[local] Instance grow_resolve c rt st f : Leads files_grow (resolve_stub o slide alloc locations c rt st f).
Proof. unfold resolve_stub, arm_objc_dispatch. apply _. Qed.
#[local] Instance grow_region l f : Leads files_grow (boundary_region slide l f).
Proof. unfold boundary_region. apply _. Qed.
#[local] Instance grow_plants l a f : Leads files_grow (boundary_plants o slide alloc locations l a f).
Proof. unfold boundary_plants. apply _. Qed.

(** Why the guest is left stopped, as the event directory tells it. *)
Definition has_file (s : state) (n : list Z) : Prop := is_Some (files s !! n).
Definition stop_cause (s : state) : Prop :=
  has_file s instrumentation_stop
  ∨ STOP_ON_SUCCESS o = true ∧ (∃ label, label ∈ SUCCESS_LABELS o ∧ has_file s (success_name label))
  ∨ STOP_ON_WAIT o = true ∧ (has_file s (u "seeded-wait-return.json") ∨ ∃ n, has_file s (wait_name "wait-entry." n)).

Lemma stop_cause_grows s s' : files_grow s s' → stop_cause s → stop_cause s'.
Proof.
  intros Hg [H|[[Ho (l & Hl & H)]|[Ho [H|[n H]]]]].
  - left. by apply Hg.
  - right. left. split; [done|]. exists l. split; [done|]. by apply Hg.
  - right. right. split; [done|]. left. by apply Hg.
  - right. right. split; [done|]. right. exists n. by apply Hg.
Qed.

(** A step whose result in [Q] comes with a cause; a callback is to have one
    when it answers [true]. *)
Definition caused {A} (Q : A → Prop) (m : SM A) : Prop := ∀ s, wp m (λ a s', Q a → stop_cause s') (λ _ _, True) s.
Lemma caused_ret {A} (Q : A → Prop) a : ¬ Q a → caused Q (mret a).
Proof. by intros HQ s ?. Qed.
Lemma caused_if {A} (Q : A → Prop) (b : bool) m m' : caused Q m → caused Q m' → caused Q (if b then m else m').
Proof. by destruct b. Qed.
(** The cause comes later, or it came before and lasts. *)
Lemma caused_later {A B} (m : SM A) (f : A → SM B) Q : (∀ a, caused Q (f a)) → caused Q (m ≫= f).
Proof. intros Hf s. apply wp_bind. unfold wp at 1. destruct (m s) as [[a|e] s']; [apply Hf|done]. Qed.
Lemma caused_before {A B} (m : SM A) (k : A → SM B) (Q : A → Prop) (R : B → Prop) :
  caused Q m → (∀ a, Leads files_grow (k a)) → (∀ a s b s', k a s = (Ok b, s') → R b → Q a) → caused R (m ≫= k).
Proof.
  intros Hm Hk HQ s. apply wp_bind. specialize (Hm s). unfold wp in *.
  destruct (m s) as [[a|e] s1]; [|done]. specialize (Hk a s1).
  destruct (k a s1) as [[b|e] s2] eqn:E; [|done]. intros HR. eapply stop_cause_grows; [exact Hk|].
  apply Hm. by eapply HQ.
Qed.
Lemma result_of {A B} (m : SM A) (x b : B) s s' : (_ ← m; mret x) s = (Ok b, s') → b = x.
Proof. unfold mbind, se_bind. destruct (m s) as [[a|e] s1]; [|done]. by intros [= <- _]. Qed.

Hypothesis events : events_on o = true.

Lemma write_run n p s : write_event o n p s = (Ok (), set_files (<[n := p]> (files s)) s).
Proof. unfold write_event. by rewrite events. Qed.
Lemma caused_write (Q : () → Prop) n p : (∀ s, has_file s n → stop_cause s) → caused Q (write_event o n p).
Proof. intros Hn s. unfold wp. rewrite write_run. intros _. apply Hn. eexists. apply lookup_insert_eq. Qed.
Lemma caused_stop_file (Q : () → Prop) p : caused Q (write_event o instrumentation_stop p).
Proof. apply caused_write. intros s H. by left. Qed.
Lemma caused_success label p : is_success o label = true → caused (λ _, STOP_ON_SUCCESS o = true) (write_event o (success_name label) p).
Proof.
  intros Hl s. unfold wp. rewrite write_run. intros Ho. right. left. split; [done|].
  exists label. split; [by apply bool_decide_eq_true in Hl|]. eexists. apply lookup_insert_eq.
Qed.
#[local] Typeclasses Opaque write_event.

Lemma install_target_caused f rt st c force :
  caused (λ b, b = false) (install_target_entry o slide alloc locations f rt st c force).
Proof.
  unfold install_target_entry. apply caused_later. intros t. apply caused_later. intros known.
  destruct st as [st|]; [|by apply caused_ret]. cbv zeta.
  apply caused_if; [by apply caused_ret|]. apply caused_if.
  - apply caused_later. intros _. apply (caused_before _ _ (λ _, True)); [apply caused_stop_file|apply _|done].
  - do 5 (apply caused_later; intros ?). by apply caused_ret.
Qed.

Definition explained : SM bool → Prop := caused (λ b, b = true).
Lemma explained_false : explained (mret false).
Proof. by apply caused_ret. Qed.

Lemma objc_dispatch_explained i f : explained (on_objc_dispatch o slide alloc locations i f).
Proof.
  unfold on_objc_dispatch. do 3 (apply caused_later; intros ?). apply caused_if; [apply explained_false|].
  do 6 (apply caused_later; intros ?). apply caused_if; [|apply explained_false].
  apply (caused_before _ _ (λ b, b = false)); [apply install_target_caused|apply _|].
  intros b s b' s' [= <- _]. by destruct b.
Qed.
Lemma wait_primitive_explained i f : explained (on_wait_primitive o slide alloc locations i f).
Proof.
  unfold on_wait_primitive. apply caused_later. intros mine. apply caused_if; [apply explained_false|].
  do 2 (apply caused_later; intros ?). cbv zeta. apply caused_if; [apply explained_false|].
  do 7 (apply caused_later; intros ?).
  apply (caused_before _ _ (λ _, STOP_ON_WAIT o = true)); [|apply _|].
  - intros s. unfold wp. rewrite write_run. intros Ho. right. right. split; [done|]. right.
    eexists _, _. apply lookup_insert_eq.
  - intros [] s b s' H%result_of. by subst.
Qed.
Lemma seeded_explained i f : explained (on_seeded_wait_return o slide i f).
Proof.
  unfold on_seeded_wait_return. apply caused_later. intros mine. apply caused_if; [apply explained_false|].
  cbv zeta. apply caused_later. intros _.
  apply (caused_before _ _ (λ _, STOP_ON_WAIT o = true)); [|apply _|].
  - intros s. unfold wp. rewrite write_run. intros Ho. right. right. split; [done|]. left.
    eexists. apply lookup_insert_eq.
  - intros [] s b s' [= <- _]. done.
Qed.
Lemma call_explained i f : explained (on_call o slide alloc locations i f).
Proof.
  unfold on_call. do 2 (apply caused_later; intros ?). apply caused_if; [apply explained_false|].
  do 4 (apply caused_later; intros ?). cbv zeta. destruct (call_target _ _ _) as [rt st].
  do 3 (apply caused_later; intros ?). destruct (MAX_CALLS o <=? _).
  - do 3 (apply caused_later; intros ?). apply (caused_before _ _ (λ _, True)); [|apply _|done].
    unfold call_limit. do 4 (apply caused_later; intros ?). apply caused_stop_file.
  - apply (caused_before _ _ (λ b, b = false)); [apply install_target_caused|apply _|].
    intros b s b' s'. unfold mbind at 1, se_bind at 1. destruct (resolve_stub _ _ _ _ _ _ _ _ s) as [[[]|e] s1]; [|done].
    intros H%result_of. subst b'. by destruct b.
Qed.
Lemma progress_caused label f : caused (λ r, r = Some true) (boundary_progress o slide label f).
Proof.
  unfold boundary_progress. apply caused_if; [|by apply caused_ret]. cbv zeta.
  do 2 (apply caused_later; intros ?). destruct (is_success o label) eqn:Es; [|by apply caused_ret].
  apply (caused_before _ _ (λ _, STOP_ON_SUCCESS o = true)); [by apply caused_success|apply _|].
  intros [] s r s' [= <- _]. by intros [= ->].
Qed.
Lemma boundary_explained i f : explained (on_boundary o slide alloc locations i f).
Proof.
  unfold on_boundary. apply caused_later. intros cf. cbv zeta. set (label := cf_label cf).
  intros s. apply wp_bind. pose proof (progress_caused label f s) as Hp. unfold wp in Hp |- * at 1.
  destruct (boundary_progress _ _ _ _ s) as [[[stop|]|e] s1]; [| |done].
  { intros ->. by apply Hp. }
  clear s Hp. revert s1.
  match goal with |- ∀ s1, wp ?m _ _ s1 => change (explained m) end.
  apply caused_if; [apply explained_false|]. apply caused_later. intros armed.
  apply caused_if; [apply explained_false|]. do 2 (apply caused_later; intros ?).
  apply caused_if; [apply explained_false|]. do 4 (apply caused_later; intros ?).
  apply (caused_before _ _ (λ _, is_success o label && STOP_ON_SUCCESS o = true)); [|intros; apply _|].
  - unfold when. destruct (is_success o label) eqn:Es; [|by apply caused_ret].
    by apply caused_success.
  - intros [] s b s' H%result_of. by subst.
Qed.
Lemma callback_explained c i f : explained (run_callback o slide alloc locations c i f).
Proof.
  destruct c; cbn [run_callback].
  - unfold on_anchor. apply caused_if; [apply explained_false|]. apply caused_if; [apply explained_false|].
    do 6 (apply caused_later; intros ?). apply explained_false.
  - apply boundary_explained.
  - apply call_explained.
  - unfold on_return. do 2 (apply caused_later; intros ?). destruct (_ !! i); [|apply explained_false].
    apply caused_if; [apply explained_false|]. do 6 (apply caused_later; intros ?). apply explained_false.
  - unfold on_target_entry. apply caused_later; intros ?. apply caused_if; [apply explained_false|].
    do 7 (apply caused_later; intros ?). apply explained_false.
  - apply objc_dispatch_explained.
  - apply wait_primitive_explained.
  - unfold on_wait_return. do 2 (apply caused_later; intros ?). destruct (_ !! i); [|apply explained_false].
    apply caused_if; [apply explained_false|]. cbv zeta. do 5 (apply caused_later; intros ?). apply explained_false.
  - apply seeded_explained.
Qed.

(** C12: the guest is never left stopped without evidence: when a callback
    answers [true], the event directory holds the instrumentation's own stop
    (the call budget or the budget of dynamic targets), or stopping on success
    was asked for and the file of one of the success labels is there, or
    stopping on a wait was asked for and a wait's file is there. *)
Theorem stop_has_evidence s s' c i f :
  run_callback o slide alloc locations c i f s = (Ok true, s') → stop_cause s'.
Proof.
  intros Hrun. pose proof (callback_explained c i f s) as H. unfold wp in H. rewrite Hrun in H. by apply H.
Qed.
End stops.

(** ** The protocol of the event files *)

Section protocol.
Variable o : options.
Variable slide : Z.
Variable alloc : Z → Z.
Variable locations : Z → option Z.
(** There is an event directory, and the identifiers of calls stay below those
    of waits. *)
Hypothesis events : events_on o = true.
Hypothesis few_calls : MAX_CALLS o ≤ WAIT_CALL_BASE.

Abbreviation returned_name := ProbeWatch.returned_name.

(** The waits whose entry, and those whose return, is recorded. *)
Definition entry_of (e : emitted) : option Z := match em_record e with RWaitEntry _ _ q _ _ => Some q | _ => None end.
Definition return_of (e : emitted) : option Z := match em_record e with RWaitReturn _ _ q _ _ _ _ => Some q | _ => None end.
Definition waits_entered (s : state) : list Z := omap entry_of (out s).
Definition waits_returned (s : state) : list Z := omap return_of (out s).

(** What a pending file says of what is under way. *)
Definition pending_entry (s : state) (n : list Z) (p : payload) : Prop :=
  (n = pending_trace ∧ ∃ call t progress scope site target,
     p = PPending (ProbeWatch.Event call (TRACE_SELECTOR o) t) progress scope site target
     ∧ is_Some (active (tabs s) !! call))
  ∨ ∃ q t root label, n = wait_name "pending.wait." q ∧ 0 < q ≤ t_wait_sequence (tr s)
     ∧ p = PPendingWait (ProbeWatch.Event (WAIT_CALL_BASE + q) (TRACE_SELECTOR o) t) root q label
     ∧ files s !! returned_name (WAIT_CALL_BASE + q) = None.
Record proto (s : state) : Prop := {
  p_counts : 0 ≤ t_calls (tr s) ≤ WAIT_CALL_BASE ∧ 0 ≤ t_wait_sequence (tr s);
  p_returns : ∀ i r, returns (tabs s) !! i = Some r → 0 < r_call r ≤ t_calls (tr s);
  p_active : ∀ c a, active (tabs s) !! c = Some a → 0 < c ≤ t_calls (tr s);
  p_waits : ∀ i w, wait_returns (tabs s) !! i = Some w →
    w_call w = WAIT_CALL_BASE + w_sequence w ∧ 0 < w_sequence w ≤ t_wait_sequence (tr s);
  p_returned : ∀ c, 0 ≤ c → is_Some (files s !! returned_name c) →
    active (tabs s) !! c = None
    ∧ (c ≤ t_calls (tr s) ∨ WAIT_CALL_BASE < c ≤ WAIT_CALL_BASE + t_wait_sequence (tr s));
  p_pending : ∀ n p, files s !! n = Some p → startswith (u "pending.") n = true → pending_entry s n p;
  p_recorded : ∀ q, q ∈ waits_returned s →
    0 < q ≤ t_wait_sequence (tr s) ∧ is_Some (files s !! returned_name (WAIT_CALL_BASE + q));
  p_open : ∀ q, 0 < q → is_Some (files s !! wait_name "pending.wait." q) ↔ q ∈ waits_entered s ∧ q ∉ waits_returned s;
  p_shown : active (tabs s) ≠ ∅ → is_Some (files s !! pending_trace);
  p_entered : ∀ q, q ∈ waits_entered s → 0 < q ≤ t_wait_sequence (tr s);
}.
Abbreviation Proto := (Holds proto (λ _, True)).

#[local] Instance proto_lift {A} (m : res A) : Proto (lift m).
Proof. by apply holds_lift. Qed.
#[local] Instance proto_raise {A} e : Proto (raise (A:=A) e).
Proof. by apply holds_raise. Qed.
(** Records of anything but a wait. *)
Class Plainly (r : record) := plainly :
  match r with RWaitReturn _ _ _ _ _ _ _ | RWaitEntry _ _ _ _ _ => False | _ => True end.
#[local] Hint Extern 0 (Plainly _) => exact I : typeclass_instances.
Lemma returned_emit f n r s : Plainly r → waits_returned (emit slide f n r s).2 = waits_returned s.
Proof. intros Hr. unfold waits_returned. cbn. rewrite omap_app. cbn. destruct r; try by rewrite app_nil_r. done. Qed.
Lemma entered_emit f n r s : Plainly r → waits_entered (emit slide f n r s).2 = waits_entered s.
Proof. intros Hr. unfold waits_entered. cbn. rewrite omap_app. cbn. destruct r; try by rewrite app_nil_r. done. Qed.
#[local] Instance proto_emit f n r `{!Plainly r} : Proto (emit slide f n r).
Proof.
  intros s [H1 H2 H3 H4 H5 H6 H7 H8 H9 H10]. split; [|done]. pose proof (returned_emit f n r s Plainly0) as Hr.
  pose proof (entered_emit f n r s Plainly0) as He. split; rewrite ?Hr, ?He; done.
Qed.
#[local] Instance proto_create a : Proto (create_bp alloc locations a).
Proof. intros s Hs. unfold create_bp. destruct (locations a); (split; [|done]); [destruct Hs; by split|exact Hs]. Qed.
#[local] Instance proto_callback i c : Proto (set_callback i c).
Proof. apply holds_update. intros s []. by split. Qed.
#[local] Instance proto_enabled i e : Proto (set_enabled i e).
Proof. apply holds_update. intros s []. by split. Qed.
#[local] Instance proto_delete i : Proto (delete_bp i).
Proof. apply holds_update. intros s []. by split. Qed.
Lemma proto_tabs g :
  (∀ t, returns (g t) = returns t ∧ active (g t) = active t ∧ wait_returns (g t) = wait_returns t) →
  Proto (update (with_tabs g)).
Proof.
  intros Hg. apply holds_update. intros s Hs. destruct (Hg (tabs s)) as (E1 & E2 & E3).
  destruct Hs as [H1 H2 H3 H4 H5 H6 H7 H8 H9 H10]. split; cbn [with_tabs tabs tr files]; rewrite ?E1, ?E2, ?E3; try done.
  intros n p Hn Hp. specialize (H6 n p Hn Hp). unfold pending_entry in *. cbn [with_tabs tabs tr files]. by rewrite E2.
Qed.
Lemma proto_trace g :
  (∀ t, t_calls (g t) = t_calls t ∧ t_wait_sequence (g t) = t_wait_sequence t) → Proto (update (with_trace g)).
Proof.
  intros Hg. apply holds_update. intros s Hs. destruct (Hg (tr s)) as (E1 & E2).
  destruct Hs as [H1 H2 H3 H4 H5 H6 H7 H8 H9 H10]. split; cbn [with_trace tabs tr files]; rewrite ?E1, ?E2; try done.
  intros n p Hn Hp. specialize (H6 n p Hn Hp). unfold pending_entry in *. cbn [with_trace tabs tr files]. by rewrite E2.
Qed.
#[local] Hint Extern 2 (Holds proto _ (update (with_tabs _))) => (apply proto_tabs; intros; done) : typeclass_instances.
#[local] Hint Extern 2 (Holds proto _ (update (with_trace _))) => (apply proto_trace; intros; done) : typeclass_instances.

(** Files that are neither pending nor returned ones. *)
Class PlainName (n : list Z) := plain_name : startswith (u "pending.") n = false ∧ startswith (u "returned.") n = false.
#[local] Hint Extern 0 (PlainName _) => (split; reflexivity) : typeclass_instances.
#[local] Instance proto_write n p `{!PlainName n} : Proto (write_event o n p).
Proof.
  destruct PlainName0 as [Hp Hr]. apply holds_when, holds_update. intros s [H1 H2 H3 H4 H5 H6 H7 H8 H9 H10].
  assert (∀ c, n ≠ returned_name c) as Hne by (by intros c ->).
  split; cbn [set_files tabs tr files]; try done.
  - intros c Hc Hs. rewrite lookup_insert_ne in Hs by done. by apply H5.
  - intros m q Hm Hq. apply lookup_insert_Some in Hm as [[<- _]|[_ Hm]]; [congruence|].
    destruct (H6 m q Hm Hq) as [?|(k & t & root & label & E & Hk & Ep & En)]; [by left|right].
    exists k, t, root, label. split_and!; [done|apply Hk|apply Hk|done|]. cbn [set_files files]. by rewrite lookup_insert_ne.
  - intros q Hq. rewrite lookup_insert_ne by done. by apply H7.
  - intros q Hq. rewrite lookup_insert_ne by (by intros ->). by apply H8.
  - intros Ha. rewrite lookup_insert_ne by (by intros ->). by apply H9.
Qed.

#[local] Instance proto_install a l c e : Proto (install_bp alloc locations a l c e).
Proof. unfold install_bp. apply _. Qed.
#[local] Instance proto_add_config i e : Proto (add_config i e).
Proof. unfold add_config. apply _. Qed.
#[local] Instance proto_enable_waits e : Proto (enable_wait_primitives e).
Proof. unfold enable_wait_primitives. apply _. Qed.
#[local] Instance proto_plant_call sc w : Proto (plant_call slide alloc locations sc w).
Proof. destruct w as [[pc w] c]. cbn [plant_call]. apply _. Qed.
#[local] Instance proto_plant_calls f sc st en : Proto (plant_calls slide alloc locations f sc st en).
Proof. unfold plant_calls. apply _. Qed.
#[local] Instance proto_known f st : Proto (plant_known_range slide alloc locations f st).
Proof. unfold plant_known_range. apply _. Qed.
#[local] Instance proto_expand f l st : Proto (expand_known_boundary o slide alloc locations f l st).
Proof. unfold expand_known_boundary. apply _. Qed.
#[local] Instance proto_dynamic f st : Proto (plant_dynamic_range o slide alloc locations f st).
Proof. unfold plant_dynamic_range. apply holds_bind; [apply _|]. intros t. destruct (dynamic_extent _ _ _ _) as [[? ?] ?]. apply _. Qed.
#[local] Instance proto_arm_dispatch c r sel st : Proto (arm_one_dispatch slide alloc locations c r sel st).
Proof. unfold arm_one_dispatch. apply _. Qed.
#[local] Typeclasses Opaque arm_one_dispatch plant_call plant_calls install_wait.
#[local] Instance proto_install_target f rt st c force :
  Proto (install_target_entry o slide alloc locations f rt st c force).
Proof. unfold install_target_entry. do 2 (apply holds_bind; [apply _|intros ?]). destruct st; [|apply _]. cbv zeta. apply _. Qed.
#[local] Instance proto_resolve c rt st f : Proto (resolve_stub o slide alloc locations c rt st f).
Proof. unfold resolve_stub, arm_objc_dispatch. apply _. Qed.
#[local] Instance proto_context c st f : Proto (note_context slide c st f).
Proof. unfold note_context. apply _. Qed.
#[local] Instance proto_limit c f : Proto (call_limit o slide c f).
Proof. unfold call_limit. apply _. Qed.
#[local] Instance proto_arm f a : Proto (arm slide f a).
Proof. unfold arm. apply _. Qed.
#[local] Instance proto_progress l f : Proto (boundary_progress o slide l f).
Proof. unfold boundary_progress. apply _. Qed.
#[local] Instance proto_boundary_arm l a f : Proto (boundary_arm o slide l a f).
Proof. unfold boundary_arm. apply _. Qed.
#[local] Instance proto_region l f : Proto (boundary_region slide l f).
Proof. unfold boundary_region. apply _. Qed.
#[local] Instance proto_plants l a f : Proto (boundary_plants o slide alloc locations l a f).
Proof. unfold boundary_plants. apply _. Qed.
#[local] Instance proto_lookup i : Proto (lookup_config i).
Proof. unfold lookup_config. apply _. Qed.
#[local] Instance proto_same_fast f : Proto (same_thread_fast f).
Proof. unfold same_thread_fast. apply _. Qed.
#[local] Instance proto_same f : Proto (same_thread slide f).
Proof. unfold same_thread. apply _. Qed.

(** Steps that leave the files and the counts alone. *)
Definition same_files (s s' : state) : Prop :=
  (∀ c, files s' !! returned_name c = files s !! returned_name c)
  ∧ t_calls (tr s') = t_calls (tr s) ∧ t_wait_sequence (tr s') = t_wait_sequence (tr s)
  ∧ waits_entered s' = waits_entered s ∧ waits_returned s' = waits_returned s.
#[local] Instance same_files_refl : Reflexive same_files.
Proof. by intros s. Qed.
#[local] Instance same_files_trans : Transitive same_files.
Proof.
  intros s1 s2 s3 (H1 & H2 & H3 & H7 & H8) (H4 & H5 & H6 & H9 & H10). split_and!; [|congruence..].
  intros c. by rewrite H4.
Qed.
Definition same_tr (s s' : state) : Prop := tr s' = tr s.
#[local] Instance same_tr_refl : Reflexive same_tr.
Proof. by intros s. Qed.
#[local] Instance same_tr_trans : Transitive same_tr.
Proof. intros s1 s2 s3 H1 H2. unfold same_tr in *. congruence. Qed.
#[local] Instance tr_lookup i : Leads same_tr (lookup_config i).
Proof. unfold lookup_config. apply _. Qed.
#[local] Instance tr_add_config i e : Leads same_tr (add_config i e).
Proof. by intros s. Qed.
#[local] Instance tr_enabled i e : Leads same_tr (set_enabled i e).
Proof. by intros s. Qed.
#[local] Instance files_create a : Leads same_files (create_bp alloc locations a).
Proof. intros s. unfold create_bp. by destruct (locations a). Qed.
#[local] Instance files_callback i c : Leads same_files (set_callback i c).
Proof. by intros s. Qed.
#[local] Instance files_enabled i e : Leads same_files (set_enabled i e).
Proof. by intros s. Qed.
#[local] Instance files_tabs g : Leads same_files (update (with_tabs g)).
Proof. by intros s. Qed.
#[local] Instance files_emit f n r `{!Plainly r} : Leads same_files (emit slide f n r).
Proof. intros s. split; [done|]. do 2 (split; [done|]). split; [by apply entered_emit|by apply returned_emit]. Qed.
#[local] Instance files_write n p `{!PlainName n} : Leads same_files (write_event o n p).
Proof.
  destruct PlainName0 as [_ Hr]. apply leads_when; [apply _|]. intros s. split; [|done]. intros c. cbn.
  rewrite lookup_insert_ne; [done|]. by intros ->.
Qed.
#[local] Instance files_install a l c e : Leads same_files (install_bp alloc locations a l c e).
Proof. unfold install_bp. apply _. Qed.

(** *** The files of calls *)

Lemma returned_inj m n : 0 ≤ m → 0 ≤ n → returned_name m = returned_name n → m = n.
Proof. apply ProbeWatch.returned_name_inj. Qed.
(** The calls under way change and the pending file is refreshed. *)
Lemma proto_refresh_run s m f progress :
  proto s → (∀ c a, m !! c = Some a → 0 < c ≤ t_calls (tr s) ∧ files s !! returned_name c = None) →
  keeps_at proto (λ _, True) (refresh_pending o f progress) (with_tabs (set_active m) s).
Proof.
  intros [H1 H2 H3 H4 H5 H6 H7 H8 H9 H10] Hm.
  assert (∀ fs, (∀ n, n ≠ pending_trace → fs !! n = files s !! n) →
    (m ≠ ∅ → is_Some (fs !! pending_trace)) →
    (∀ p, fs !! pending_trace = Some p → ∃ call t progress scope site target,
       p = PPending (ProbeWatch.Event call (TRACE_SELECTOR o) t) progress scope site target ∧ is_Some (m !! call)) →
    proto (set_files fs (with_tabs (set_active m) s))) as Hproto.
  { intros fs Hother Hshown Hpend. split; cbn [set_files with_tabs set_active tabs tr files active returns wait_returns]; try done.
    - intros c a Hc. by destruct (Hm c a Hc).
    - intros c Hc Hs. rewrite Hother in Hs by done. split; [|by apply H5].
      destruct (m !! c) as [a|] eqn:Ea; [|done]. destruct (Hm c a Ea) as [_ Hn]. rewrite Hn in Hs. by destruct Hs.
    - intros n p Hn Hp. destruct (decide (n = pending_trace)) as [->|Hne].
      + left. split; [done|]. by apply Hpend.
      + right. rewrite Hother in Hn by done.
        destruct (H6 n p Hn Hp) as [[? _]|(k & t & root & label & E & Hk & Ep & En)]; [done|].
        exists k, t, root, label. split_and!; [done|apply Hk|apply Hk|done|]. cbn [set_files files]. by rewrite Hother.
    - intros q Hq. rewrite Hother by done. by apply H7.
    - intros q Hq. rewrite Hother by done. by apply H8. }
  unfold keeps_at, refresh_pending, mbind, se_bind, gets, lift, write_event, remove_event, when.
  cbn [with_tabs tabs set_active active]. pose proof (deepest_spec m) as Hd.
  rewrite events. destruct (deepest m) as [k|] eqn:Ek.
  - destruct Hd as [[a Ha] _]. rewrite Ha. cbn [opt_or]. split; [|done]. apply Hproto.
    + intros n Hn. cbn. by rewrite lookup_insert_ne.
    + intros _. cbn. rewrite lookup_insert_eq. by eexists.
    + intros p. cbn. rewrite lookup_insert_eq. intros [= <-]. eexists _, _, _, _, _, _. split; [reflexivity|eauto].
  - split; [|done]. apply Hproto.
    + intros n Hn. cbn. by rewrite lookup_delete_ne.
    + by intros [].
    + intros p. cbn. by rewrite lookup_delete_eq.
Qed.
Lemma active_unreturned s c a : proto s → active (tabs s) !! c = Some a → files s !! returned_name c = None.
Proof.
  intros Hs Hc. destruct (files s !! returned_name c) as [p|] eqn:E; [|done].
  destruct (p_active s Hs c a Hc). destruct (p_returned s Hs c) as [Hn _]; [lia|by eexists|congruence].
Qed.
#[local] Instance proto_refresh f p : Proto (refresh_pending o f p).
Proof.
  intros s Hs. pose proof (proto_refresh_run s (active (tabs s)) f p Hs) as H.
  replace (with_tabs (set_active (active (tabs s))) s) with s in H by (by destruct s as [?? [] ???]).
  apply H. intros c a Hc. split; [by apply (p_active s Hs c a)|by eapply active_unreturned].
Qed.

(** A return file appears when its call or its wait is over. *)
Lemma proto_returned s c p :
  proto s → 0 ≤ c → active (tabs s) !! c = None →
  (c ≤ t_calls (tr s) ∨ WAIT_CALL_BASE < c ≤ WAIT_CALL_BASE + t_wait_sequence (tr s)) →
  (∀ q, 0 < q → c = WAIT_CALL_BASE + q → files s !! wait_name "pending.wait." q = None) →
  keeps_at proto (λ _, True) (write_event o (returned_name c) p) s.
Proof.
  intros [H1 H2 H3 H4 H5 H6 H7 H8 H9 H10] Hc Ha Hb Hw. unfold keeps_at, write_event. rewrite events. split; [|done].
  cbn [when update snd]. split; cbn [set_files tabs tr files]; try done.
  - intros c' Hc' Hs. destruct (decide (c = c')) as [<-|Hne]; [done|]. apply H5; [done|].
    rewrite lookup_insert_ne in Hs; [done|]. intros E. apply Hne. by apply returned_inj.
  - intros n q Hn Hp. apply lookup_insert_Some in Hn as [[<- _]|[_ Hn]]; [done|].
    destruct (H6 n q Hn Hp) as [?|(k & t & root & label & E & Hk & Ep & En)]; [by left|right].
    exists k, t, root, label. split_and!; [done|apply Hk|apply Hk|done|]. cbn [set_files files].
    rewrite lookup_insert_ne; [done|]. intros E'. apply returned_inj in E'; [|done|unfold WAIT_CALL_BASE; lia].
    rewrite E, (Hw k (proj1 Hk) E') in Hn. done.
  - intros q Hq. rewrite lookup_insert_is_Some'. split; [by apply H7|right; by apply H7].
  - intros q Hq. rewrite lookup_insert_ne by done. by apply H8.
  - intros Hn. rewrite lookup_insert_ne by done. by apply H9.
Qed.

(** Entries of returns and waits that are over go. *)
Lemma proto_fewer (g : tables → tables) :
  (∀ t, active (g t) = active t) → (∀ t i r, returns (g t) !! i = Some r → returns t !! i = Some r) →
  (∀ t i w, wait_returns (g t) !! i = Some w → wait_returns t !! i = Some w) → Proto (update (with_tabs g)).
Proof.
  intros Ha Hr Hw. apply holds_update. intros s [H1 H2 H3 H4 H5 H6 H7 H8 H9 H10].
  split; cbn [with_tabs tabs tr files]; rewrite ?Ha; try done.
  - intros i r Hi. by eapply H2, Hr.
  - intros i w Hi. by eapply H4, Hw.
  - intros n p Hn Hp. specialize (H6 n p Hn Hp). unfold pending_entry in *. cbn [with_tabs tabs tr files]. by rewrite Ha.
Qed.
#[local] Instance proto_drop_return i : Proto (update (with_tabs (λ t, set_returns (delete i (returns t)) t))).
Proof. apply proto_fewer; try done. intros t j r. cbn. by intros [_ Hj]%lookup_delete_Some. Qed.
#[local] Instance proto_drop_wait i : Proto (update (with_tabs (λ t, set_wait_returns (delete i (wait_returns t)) t))).
Proof. apply proto_fewer; try done. intros t j r. cbn. by intros [_ Hj]%lookup_delete_Some. Qed.

Lemma return_proto i f : Proto (on_return o slide i f).
Proof.
  intros s Hs. apply keeps_gets. apply (keeps_ok _ _ _ _ _ _ _ (same_run slide f s)).
  destruct (returns (tabs s) !! i) as [r|] eqn:Er; [|by split]. destruct (negb _); [by split|].
  destruct (p_returns s Hs i r Er) as [Hr0 Hr1]. destruct (p_counts s Hs) as [[_ Hcb] _].
  apply (keeps_leads _ _ quiet); [apply _|apply _|done|]. intros _ s1 Hs1 (_ & _ & Et1 & Er1).
  apply keeps_bind; [|intros _ s2 _ Hs2].
  - unfold when. destruct (watched_scope (r_scope r)); [|by split].
    eapply keeps_ok; [reflexivity|]. set (m := delete (r_call r) (active (tabs s1))).
    apply keeps_bind.
    + apply (proto_refresh_run s1 m f "return" Hs1). intros c a [_ Hc]%lookup_delete_Some.
      split; [by apply (p_active s1 Hs1 c a)|by eapply active_unreturned].
    + intros [] s2 Heq Hs2. pose proof (quiet_refresh o f "return" (with_tabs (set_active m) s1)) as Hq.
      unfold leads in Hq. change (with_tabs (set_active m) s1) with (with_tabs (λ t, set_active (delete (r_call r) (active t)) t) s1) in Hq.
      rewrite Heq in Hq. destruct Hq as (_ & _ & Et2 & Er2). cbn in Et2, Er2.
      apply proto_returned; [done|lia| | |].
      * rewrite Et2. apply lookup_delete_eq.
      * left. by rewrite Er2, Er1.
      * intros q Hq Ec. lia.
  - by apply (holds (I:=proto) (E:=λ _, True)).
Qed.

Lemma wait_name_inj pre m n : 0 ≤ m → 0 ≤ n → wait_name pre m = wait_name pre n → m = n.
Proof. intros ?? H%app_inv_head%app_inv_tail. by apply ProbeWatch.dec_inj. Qed.
(** The return of a wait is recorded, its pending file removed and its return
    file written. *)
Lemma proto_close s s' q p :
  proto s → 0 < q ≤ t_wait_sequence (tr s) → tabs s' = tabs s → tr s' = tr s →
  waits_entered s' = waits_entered s → waits_returned s' = waits_returned s ++ [q] →
  files s' = <[returned_name (WAIT_CALL_BASE + q) := p]> (delete (wait_name "pending.wait." q) (files s)) → proto s'.
Proof.
  intros [H1 H2 H3 H4 H5 H6 H7 H8 H9 H10] Hw Et Er Een Ere Ef. split; rewrite ?Et, ?Er, ?Een, ?Ere, ?Ef; try done.
  - intros c Hc' Hf. destruct (decide (c = WAIT_CALL_BASE + q)) as [->|Hne].
    + split; [|lia]. destruct (active (tabs s) !! _) as [a|] eqn:Ea; [|done]. specialize (H3 _ _ Ea). lia.
    + apply H5; [done|]. rewrite lookup_insert_ne, lookup_delete_ne in Hf; [done..|].
      intros E%returned_inj; [by symmetry in E|unfold WAIT_CALL_BASE; lia|done].
  - intros n p' Hn Hp. apply lookup_insert_Some in Hn as [[<- _]|[_ [Hd Hn]%lookup_delete_Some]]; [done|].
    unfold pending_entry. rewrite Et, Er, Ef.
    destruct (H6 n p' Hn Hp) as [?|(k & t & root & label & E & Hk & Ep & En)]; [by left|right].
    exists k, t, root, label. split_and!; [done|apply Hk|apply Hk|done|].
    rewrite lookup_insert_ne, lookup_delete_ne; [done..|]. intros E'%returned_inj; [|unfold WAIT_CALL_BASE; lia..].
    apply Hd. rewrite E. f_equal. lia.
  - intros k. rewrite elem_of_app, list_elem_of_singleton, lookup_insert_is_Some'. intros [Hk| ->]; [|by split; [|left]].
    destruct (H7 k Hk). split; [done|right]. by rewrite lookup_delete_ne.
  - intros k Hk. rewrite lookup_insert_ne by done. rewrite lookup_delete_is_Some, H8, not_elem_of_app, list_elem_of_singleton by done.
    split; [|intros (? & ? & Hne)]; [intros (Hne & ? & ?)|]; split_and!; try done; [by intros ->|].
    intros Hn%wait_name_inj; [done|lia|lia].
  - intros Ha. rewrite lookup_insert_ne, lookup_delete_ne by done. by apply H9.
Qed.
Lemma wait_return_proto i f : Proto (on_wait_return o slide i f).
Proof.
  intros s Hs. apply keeps_gets. apply (keeps_ok _ _ _ _ _ _ _ (same_fast_run f s)).
  destruct (wait_returns (tabs s) !! i) as [w|] eqn:Ew; [|by split]. destruct (negb _); [by split|]. cbv zeta.
  destruct (p_waits s Hs i w Ew) as [Hc Hq]. destruct (p_counts s Hs) as [[_ Hcb] _].
  eapply keeps_ok; [reflexivity|]. unfold remove_event, write_event. rewrite events. cbn [when].
  do 2 (eapply keeps_ok; [reflexivity|]). match goal with |- keeps_at _ _ _ ?x => set (s2 := x) end.
  assert (proto s2) as Hs2.
  { apply (proto_close s s2 (w_sequence w) (PReturnedWait (ProbeWatch.Event (w_call w) (TRACE_SELECTOR o) (f_now f)) (w_sequence w)
      (f_now f - w_started w) (f_reg f (u "x0")))); try done; unfold s2, waits_entered, waits_returned; cbn [emit update snd set_files out files].
    - by rewrite omap_app, app_nil_r.
    - by rewrite omap_app.
    - by rewrite Hc. }
  by apply (holds (I:=proto) (E:=λ _, True)).
Qed.

(** *** A call and a wait begin *)

Lemma proto_enter s (g : tables → tables) :
  (∀ t, active (g t) = active t) →
  (∀ i r, returns (g (tabs s)) !! i = Some r → returns (tabs s) !! i = Some r ∨ 0 < r_call r ≤ t_calls (tr s)) →
  (∀ i w, wait_returns (g (tabs s)) !! i = Some w → wait_returns (tabs s) !! i = Some w
     ∨ w_call w = WAIT_CALL_BASE + w_sequence w ∧ 0 < w_sequence w ≤ t_wait_sequence (tr s)) →
  proto s → proto (with_tabs g s).
Proof.
  intros Ha Hr Hw [H1 H2 H3 H4 H5 H6 H7 H8 H9 H10]. split; cbn [with_tabs tabs tr files]; rewrite ?Ha; try done.
  - intros i r Hi. destruct (Hr i r Hi) as [Hi'|?]; [by eapply H2|done].
  - intros i w Hi. destruct (Hw i w Hi) as [Hi'|?]; [by eapply H4|done].
  - intros n p Hn Hp. specialize (H6 n p Hn Hp). unfold pending_entry in *. cbn [with_tabs tabs tr files]. by rewrite Ha.
Qed.

Lemma proto_plant_return s call c address rt st f :
  proto s → 0 < call ≤ t_calls (tr s) → files s !! returned_name call = None →
  keeps_at proto (λ _, True) (plant_return o alloc locations call c address rt st f) s.
Proof.
  intros Hs Hcall Hret. unfold plant_return.
  apply (keeps_leads _ _ same_files); [apply _|apply _|done|]. intros i s1 Hs1 F1.
  apply (keeps_leads _ _ same_files); [apply _|apply _|done|]. intros _ s2 Hs2 F2.
  pose proof (transitivity F1 F2) as (Ef & Et & _). eapply keeps_ok; [reflexivity|].
  match goal with |- keeps_at _ _ _ ?x => set (s3 := x) end.
  assert (proto s3) as Hs3.
  { apply proto_enter; [done| |by auto|done]. intros j r. cbn. intros [[_ <-]|[_ ?]]%lookup_insert_Some; [|by left].
    right. cbn. by rewrite Et. }
  unfold when. destruct (watched_scope (cs_scope c)); [|by split].
  eapply keeps_ok; [reflexivity|].
  apply (proto_refresh_run s3 (<[call := ActiveCall (cs_scope c) (cs_static c) st]> (active (tabs s3))) f "call" Hs3).
  intros c' a [[<- _]|[_ Ha]]%lookup_insert_Some.
  - unfold s3. cbn [with_tabs files tr]. split; [by rewrite Et|by rewrite Ef].
  - split; [by apply (p_active s3 Hs3 c' a)|by eapply active_unreturned].
Qed.

(** A call takes the next number, which has no return file yet. *)
Lemma proto_next_call s :
  proto s → t_calls (tr s) < WAIT_CALL_BASE →
  proto (with_trace (set_calls (t_calls (tr s) + 1)) s) ∧ files s !! returned_name (t_calls (tr s) + 1) = None.
Proof.
  intros Hs Hlt. destruct (p_counts s Hs) as [[Hc _] Hq]. split.
  - destruct Hs as [H1 H2 H3 H4 H5 H6 H7 H8 H9 H10]. split; cbn [with_trace set_calls tabs tr files t_calls t_wait_sequence]; try done.
    + split; [lia|done].
    + intros i r Hi. specialize (H2 i r Hi). lia.
    + intros c a Hi. specialize (H3 c a Hi). lia.
    + intros c Hc' Hf. destruct (H5 c Hc' Hf) as [? ?]. split; [done|]. lia.
  - destruct (files s !! _) as [p|] eqn:E; [|done]. destruct (p_returned s Hs (t_calls (tr s) + 1)) as [_ Hb]; [lia|by eexists|].
    lia.
Qed.
#[local] Instance files_context c st f : Leads same_files (note_context slide c st f).
Proof.
  unfold note_context. apply leads_when; [apply _|]. apply leads_bind; [apply _|by intros s|apply _].
Qed.
Lemma call_proto i f : Proto (on_call o slide alloc locations i f).
Proof.
  intros s Hs. apply (keeps_ok _ _ _ _ _ _ _ (same_run slide f s)). apply keeps_gets.
  destruct (_ || _) eqn:Eb; [by split|]. apply orb_false_elim in Eb as [_ Eb]. apply Z.leb_gt in Eb.
  assert (∀ {A} (m : SM A) (k : A → SM bool) s', (Leads same_tr m) → Proto m → proto s' → tr s' = tr s →
    (∀ a s'', proto s'' → tr s'' = tr s → keeps_at proto (λ _, True) (k a) s'') → keeps_at proto (λ _, True) (m ≫= k) s') as Hstep.
  { intros A m k s' HR Hm Hs' Et Hk. apply (keeps_leads _ _ same_tr); [done|done|done|]. intros a s'' Hs'' Et'.
    apply Hk; [done|]. congruence. }
  apply Hstep; [apply _|apply _|done|done|]. intros cf s1 Hs1 E1.
  apply Hstep; [apply _|apply _|done|done|]. intros c s2 Hs2 E2. cbv zeta.
  apply Hstep; [apply _|apply _|done|done|]. intros _ s3 Hs3 E3.
  apply Hstep; [apply _|apply _|done|done|]. intros _ s4 Hs4 E4.
  destruct (call_target slide (cs_control c) f) as [rt st]. rewrite <-E4.
  destruct (proto_next_call s4 Hs4) as [Hs5 Hret]; [rewrite E4; lia|].
  destruct (p_counts s4 Hs4) as [[Hc0 _] _].
  eapply keeps_ok; [reflexivity|].
  apply (keeps_leads _ _ same_files); [apply _|apply _|exact Hs5|]. intros _ s6 Hs6 (Ef & Et & _). cbn in Et.
  apply keeps_bind; [|intros _ s7 _ Hs7; by apply (holds (I:=proto) (E:=λ _, True))].
  destruct (control_tail (cs_control c)); [by split|].
  apply proto_plant_return; [done|lia|]. by rewrite Ef.
Qed.

(** A wait takes the next sequence number; its pending file is the last thing
    written. *)
Lemma proto_next_wait s :
  proto s → proto (with_trace (set_wait_sequence (t_wait_sequence (tr s) + 1)) s)
    ∧ files s !! returned_name (WAIT_CALL_BASE + (t_wait_sequence (tr s) + 1)) = None.
Proof.
  intros Hs. destruct (p_counts s Hs) as [[Hc1 Hc2] Hq]. split.
  - destruct Hs as [H1 H2 H3 H4 H5 H6 H7 H8 H9 H10]. split; cbn [with_trace set_wait_sequence tabs tr files t_calls t_wait_sequence]; try done.
    + split; [done|lia].
    + intros i w Hi. destruct (H4 i w Hi). split; [done|lia].
    + intros c Hc Hf. destruct (H5 c Hc Hf) as [? ?]. split; [done|]. lia.
    + intros n p Hn Hp. destruct (H6 n p Hn Hp) as [?|(k & t & root & label & E & Hk & Ep & En)]; [by left|right].
      exists k, t, root, label. split_and!; [done|apply Hk| |done|done]. cbn. lia.
    + intros q Hr. destruct (H7 q Hr). split; [lia|done].
    + intros q Hr. specialize (H10 q Hr). lia.
  - destruct (files s !! _) as [p|] eqn:E; [|done].
    destruct (p_returned s Hs (WAIT_CALL_BASE + (t_wait_sequence (tr s) + 1))) as [_ Hb];
      [unfold WAIT_CALL_BASE; lia|by eexists|lia].
Qed.
(** The entry of a wait is recorded, and its two files are written. *)
Lemma proto_open s s' q root label t w :
  proto s → 0 < q ≤ t_wait_sequence (tr s) → q ∉ waits_entered s → q ∉ waits_returned s →
  files s !! returned_name (WAIT_CALL_BASE + q) = None →
  tabs s' = tabs s → tr s' = tr s → waits_entered s' = waits_entered s ++ [q] → waits_returned s' = waits_returned s →
  files s' = <[wait_name "pending.wait." q := PPendingWait (ProbeWatch.Event (WAIT_CALL_BASE + q) (TRACE_SELECTOR o) t) root q label]>
      (<[wait_name "wait-entry." q := w]> (files s)) → proto s'.
Proof.
  intros [H1 H2 H3 H4 H5 H6 H7 H8 H9 H10] Hq Hent Hrec Hret Et Er Een Ere Ef. split; rewrite ?Et, ?Er, ?Een, ?Ere, ?Ef; try done.
  - intros c Hc Hf. rewrite !lookup_insert_ne in Hf by done. by apply H5.
  - intros m p Hm Hp. unfold pending_entry. rewrite Et, Er, Ef. apply lookup_insert_Some in Hm as [[<- <-]|[_ Hm]].
    + right. exists q, t, root, label. split_and!; [done|apply Hq|apply Hq|done|]. by rewrite !lookup_insert_ne.
    + apply lookup_insert_Some in Hm as [[<- _]|[_ Hm]]; [done|].
      destruct (H6 m p Hm Hp) as [?|(k & t' & root' & label' & E & Hk & Ep & En)]; [by left|right].
      exists k, t', root', label'. split_and!; [done|apply Hk|apply Hk|done|]. by rewrite !lookup_insert_ne.
  - intros k Hk. rewrite !lookup_insert_ne by done. by apply H7.
  - intros k Hk. rewrite lookup_insert_is_Some', elem_of_app, list_elem_of_singleton.
    rewrite (lookup_insert_ne _ (wait_name "wait-entry." q)) by done. rewrite H8 by done. split.
    + intros [Hn|[? ?]]; [|tauto]. apply wait_name_inj in Hn as <-; [|lia..]. tauto.
    + intros [[?| ->] Hr]; [right|left]; tauto.
  - intros Ha. rewrite !lookup_insert_ne by done. by apply H9.
  - intros k. rewrite elem_of_app, list_elem_of_singleton. intros [?| ->]; [by apply H10|done].
Qed.
Lemma wait_primitive_proto i f : Proto (on_wait_primitive o slide alloc locations i f).
Proof.
  intros s Hs. apply (keeps_ok _ _ _ _ _ _ _ (same_fast_run f s)). destruct (negb _); [by split|].
  apply (keeps_leads _ _ (λ s s', s' = s ∨ True)); [by right|apply _|done|]. intros cf s0 Hs0 _.
  apply keeps_gets. cbv zeta. destruct (_ && _); [by split|].
  destruct (proto_next_wait s0 Hs0) as [Hs1 Hret]. destruct (p_counts s0 Hs0) as [_ Hq0].
  set (q := t_wait_sequence (tr s0) + 1) in *.
  eapply keeps_ok; [reflexivity|]. set (s1 := with_trace (set_wait_sequence q) s0) in *.
  assert (0 < q) as Hq by (unfold q; lia).
  assert (t_wait_sequence (tr s1) = q) as Hseq by done.
  assert (files s1 !! returned_name (WAIT_CALL_BASE + q) = None) as Hret1 by done.
  assert (q ∉ waits_returned s1) as Hnew by (intros [Hin _]%(p_recorded s0 Hs0); unfold q in Hin; lia).
  assert (q ∉ waits_entered s1) as Hfresh by (intros Hin%(p_entered s0 Hs0); unfold q in Hin; lia).
  clearbody s1 q. clear Hret Hs0.
  apply (keeps_leads _ _ same_files); [apply leads_when; [apply _|by intros s']|apply _|done|]. intros _ s2 Hs2 F2.
  apply (keeps_leads _ _ same_files); [apply _|apply _|done|]. intros ret s3 Hs3 F3.
  apply (keeps_leads _ _ same_files); [apply _|apply _|done|]. intros j s4 Hs4 F4.
  pose proof (transitivity (transitivity F2 F3) F4) as (Ef & _ & Eq & Ee & Er). rewrite Hseq in Eq.
  eapply keeps_ok; [reflexivity|]. match goal with |- keeps_at _ _ _ ?x => set (s5 := x) end.
  assert (proto s5) as Hs5.
  { apply proto_enter; [done|by auto| |done]. intros k w. cbn. intros [[_ <-]|[_ ?]]%lookup_insert_Some; [|by left].
    right. cbn. rewrite Eq. lia. }
  apply (keeps_leads _ _ same_files); [apply _|apply _|done|]. intros m s6 Hs6 F6.
  destruct F6 as (Ef6 & _ & Eq6 & Ee6 & Er6). unfold write_event. rewrite events. cbn [when].
  do 3 (eapply keeps_ok; [reflexivity|]). split; [|done].
  eapply (proto_open s6 _ q); [done|..|reflexivity|reflexivity| | |reflexivity].
  - rewrite Eq6. unfold s5. cbn [with_tabs tr]. rewrite Eq. lia.
  - rewrite Ee6. change (waits_entered s5) with (waits_entered s4). by rewrite Ee.
  - rewrite Er6. change (waits_returned s5) with (waits_returned s4). by rewrite Er.
  - rewrite Ef6. unfold s5. cbn [with_tabs files]. by rewrite Ef.
  - exact (omap_app entry_of (out s6) [_]).
  - etransitivity; [exact (omap_app return_of (out s6) [_])|apply app_nil_r].
Qed.

(** *** Every state the tracer reaches *)

#[local] Instance proto_install_wait w : Proto (install_wait slide alloc locations w).
Proof. unfold install_wait. apply _. Qed.
#[local] Instance proto_do_install now : Proto (install o slide alloc locations now).
Proof. unfold install. apply _. Qed.
#[local] Instance proto_resume valid f : Proto (resume_install o slide alloc locations valid f).
Proof.
  unfold resume_install. apply holds_bind; [apply _|]. intros _. apply holds_if; [apply _|].
  destruct (SEEDED_TPIDR o), (SEEDED_STACK_REGION o); apply _.
Qed.
Lemma proto_no_state : proto no_state.
Proof.
  split; cbn; try done; unfold WAIT_CALL_BASE; try lia; try (by intros q Hq%elem_of_nil); [by intros c _ [x Hx]|].
  intros q _. split; [by intros [x Hx]|by intros [Hq%elem_of_nil _]].
Qed.
Lemma callback_proto c i f : Proto (run_callback o slide alloc locations c i f).
Proof.
  destruct c; cbn [run_callback].
  - unfold on_anchor. apply _.
  - unfold on_boundary. apply _.
  - apply call_proto.
  - apply return_proto.
  - unfold on_target_entry. apply _.
  - unfold on_objc_dispatch. apply _.
  - apply wait_primitive_proto.
  - apply wait_return_proto.
  - unfold on_seeded_wait_return. apply _.
Qed.
Lemma reachable_proto s : reachable o slide alloc locations s → proto s.
Proof.
  induction 1 as [now|valid f|s i f a c _ IH _].
  - apply proto_do_install, proto_no_state.
  - apply proto_resume, proto_no_state.
  - by apply callback_proto.
Qed.
(** *** The directory as the watcher reads it *)

(** What a file decodes to for the watcher. *)
Definition event_of (p : payload) : option ProbeWatch.event :=
  match p with
  | PPending e _ _ _ _ | PPendingWait e _ _ _ | PReturned e | PReturnedWait e _ _ _ => Some e
  | _ => None
  end.
Definition dir_of (s : state) : ProbeWatch.files := event_of <$> files s.
(** The watcher about to list the directory of a tracer at rest in [s]. *)
Definition watching (s : state) (now : Z) (names : list (list Z)) : ProbeWatch.system :=
  ProbeWatch.System now (dir_of s) ∅ 1 [] (ProbeWatch.Scan now names []).

(** A call in the table of active calls, or a wait whose entry is recorded and
    whose return is not. *)
Definition under_way (s : state) (call : Z) : Prop :=
  is_Some (active (tabs s) !! call)
  ∨ ∃ q, call = WAIT_CALL_BASE + q ∧ 0 < q ≤ t_wait_sequence (tr s) ∧ q ∈ waits_entered s ∧ q ∉ waits_returned s.

Lemma lookup_dir s n e : dir_of s !! n = Some e ↔ ∃ p, files s !! n = Some p ∧ event_of p = e.
Proof. unfold dir_of. rewrite lookup_fmap, fmap_Some. naive_solver. Qed.
Lemma pending_under_way s n e :
  proto s → dir_of s !! n = Some (Some e) → startswith (u "pending.") n = true →
  ProbeWatch.e_selector e = TRACE_SELECTOR o ∧ under_way s (ProbeWatch.e_call e)
  ∧ dir_of s !! returned_name (ProbeWatch.e_call e) = None.
Proof.
  intros Hs (p & Hp & He)%lookup_dir Hn.
  destruct (p_pending s Hs n p Hp Hn) as [(-> & call & t & pr & sc & site & tg & -> & Ha)|(q & t & root & l & -> & Hq & -> & Hret)];
    injection He as <-; cbn [ProbeWatch.e_call ProbeWatch.e_selector]; (split; [done|]).
  - split; [by left|]. destruct Ha as [a Ha]. pose proof (p_active s Hs _ _ Ha).
    unfold dir_of. rewrite lookup_fmap. apply fmap_None, eq_None_not_Some. intros Hf.
    apply (p_returned s Hs) in Hf as [Hf _]; [|lia]. by rewrite Ha in Hf.
  - split; [right; exists q; split; [done|]; split; [done|]; apply (p_open s Hs q (proj1 Hq)); by eexists|]. unfold dir_of. by rewrite lookup_fmap, Hret.
Qed.

(** The directory names what is under way: each wait between the records of its
    entry and of its return has its pending file, and one that has returned its
    return file; the pending file of the trace is there while a call is active. *)
Record tells (s : state) : Prop := {
  d_waits : ∀ q, 0 < q → is_Some (dir_of s !! wait_name "pending.wait." q) ↔ q ∈ waits_entered s ∧ q ∉ waits_returned s;
  d_returned : ∀ q, q ∈ waits_returned s → is_Some (dir_of s !! returned_name (WAIT_CALL_BASE + q));
  d_trace : is_Some (dir_of s !! pending_trace) ↔ active (tabs s) ≠ ∅;
}.
Lemma proto_tells s : proto s → tells s.
Proof.
  intros Hs. assert (∀ n, is_Some (dir_of s !! n) ↔ is_Some (files s !! n)) as Hd.
  { intros n. unfold dir_of. by rewrite lookup_fmap, fmap_is_Some. }
  split; [intros q Hq|intros q Hq|]; rewrite Hd; [by apply (p_open s Hs)|by apply (p_recorded s Hs)|].
  split; [|apply (p_shown s Hs)]. intros [p Hp].
  destruct (p_pending s Hs _ p Hp eq_refl) as [(_ & call & t & pr & sc & site & tg & _ & [a Ha])|(q & t & root & label & E & _)]; [|done].
  intros E. by rewrite E in Ha.
Qed.

Section watcher.
Context (pending_secs max_secs started_at : Z).
Abbreviation iterate := (ProbeWatch.iterate (TRACE_SELECTOR o) pending_secs max_secs started_at).

Lemma scan_young s now names :
  (∀ n e, dir_of s !! n = Some (Some e) → startswith (u "pending.") n = true → now - ProbeWatch.e_time e < pending_secs) →
  iterate (length names + 1) (watching s now names) = Some (ProbeWatch.set_at ProbeWatch.Expiry (watching s now [])).
Proof.
  intros Hyoung. induction names as [|n names IH]; [done|]. cbn [length ProbeWatch.iterate Nat.add].
  unfold ProbeWatch.watcher at 1. cbn [watching ProbeWatch.at_ ProbeWatch.dir mbind option_bind].
  replace (ProbeWatch.scan_one _ _ _ _ _ _) with (@nil (Z * Z * list Z)); [exact IH|].
  unfold ProbeWatch.scan_one. destruct (ProbeWatch.is_pending_name n) eqn:En; [|done]. cbn [negb].
  destruct (dir_of s !! n) as [[e|]|] eqn:E; [|done|done]. destruct (negb _); [done|].
  apply andb_prop in En as [En _]. specialize (Hyoung n e E En). by rewrite (proj2 (Z.leb_gt _ _)).
Qed.

(** C11: the watcher reads the tracer rightly.  The event directory of any state
    the tracer can reach names what is under way: a wait has its pending file
    exactly from the record of its entry to the record of its return, and then
    its return file; the trace has one exactly while a call is active.  On that
    directory a watcher of the tracer's selector lists,
    claims and decides in a known number of steps, whatever the order of the
    listing: if some pending file is at least the limit old, it ends in a
    deadline stop for a call that is still active or a wait whose return is not
    recorded, at least as old as that file; if none is, it ends the pass
    without a stop. *)
Theorem stalled_trace_stops s now names :
  reachable o slide alloc locations s → names ≡ₚ (map_to_list (dir_of s)).*1 →
  tells s
  ∧ (∀ n e, dir_of s !! n = Some (Some e) → ProbeWatch.is_pending_name n = true →
     pending_secs ≤ now - ProbeWatch.e_time e →
     ∃ call age w, iterate (length names + 4) (watching s now names) = Some w
       ∧ ProbeWatch.at_ w = ProbeWatch.StopDeadline call age
       ∧ under_way s call ∧ pending_secs ≤ now - ProbeWatch.e_time e ≤ age)
  ∧ ((∀ n e, dir_of s !! n = Some (Some e) → ProbeWatch.is_pending_name n = true →
        now - ProbeWatch.e_time e < pending_secs) →
     ∃ w, iterate (length names + 1) (watching s now names) = Some w ∧ ProbeWatch.at_ w = ProbeWatch.Expiry).
Proof.
  intros Hr Hnames. pose proof (reachable_proto s Hr) as Hs. split; [by apply proto_tells|]. split.
  - intros n e Hn Hpn Ht.
    destruct (ProbeWatch.scan_all (TRACE_SELECTOR o) pending_secs max_secs started_at (watching s now names) now names [])
      as (overdue & Hit & Hf & _ & Hnew).
    destruct (pending_under_way s n e Hs Hn) as (Hsel & _); [by apply andb_prop in Hpn as []|].
    destruct e as [c sel t]. cbn in Hsel, Ht. subst sel.
    assert ((c, t, n) ∈ overdue) as Hin.
    { apply Hnew; [|done|exact Hn|done]. rewrite Hnames. apply list_elem_of_fmap. eexists (n, _).
      split; [done|]. by apply elem_of_map_to_list. }
    specialize (Hf (Forall_nil_2 _)).
    destruct overdue as [|x overdue]; [by apply not_elem_of_nil in Hin|].
    destruct (ProbeWatch.oldest_spec x overdue) as [Hold Hmin].
    destruct (ProbeWatch.oldest x overdue) as [[call entered] path] eqn:Eo. cbn [fst snd] in Hmin.
    apply (proj1 (Forall_forall _ _) Hf) in Hold as (e' & He' & Hc & Ht' & Hp). cbn [fst snd] in *. subst call entered.
    destruct (pending_under_way s path e' Hs He') as (_ & Hway & Hret); [by apply andb_prop in Hp as []|].
    pose proof (ProbeWatch.claim_run (TRACE_SELECTOR o) pending_secs max_secs started_at (watching s now names)
      now x overdue _ _ _ _ Eo He' Hret) as Hrun.
    eexists _, _, _. split; [rewrite ProbeWatch.iterate_add; etransitivity; [exact (f_equal (λ w, w ≫= iterate 4%nat) Hit)|exact Hrun]|].
    split_and!; [done|exact Hway|exact Ht|]. apply Z.sub_le_mono_l. exact (Hmin _ Hin).
  - intros Hyoung. eexists. split; [apply scan_young|done].
    intros n e He Hn. apply (Hyoung n e He). destruct (lookup_dir s n (Some e)) as [H _]. destruct (H He) as (p & Hp & _).
    unfold ProbeWatch.is_pending_name. rewrite Hn. cbn [andb].
    destruct (p_pending s Hs n p Hp Hn) as [(-> & _)|(q & t & root & l & -> & _)]; [reflexivity|].
    unfold endswith, wait_name. rewrite !reverse_app, <-app_assoc. apply ProbeWatch.startswith_app.
Qed.
End watcher.
End protocol.
