(* ===== verification/StartupRun.v ===== *)
(** * A run of the startup tracer

    A resumed checkpoint whose thread and stack were seeded: the boundary of
    CCS_START_SERVICES is hit, its range is scanned and two call sites are
    planted, the calls are entered and one returns.  The states of this run
    carry the examples of the tracer's theorems, and show where the tracer and
    the watcher step on each other. *)

From stdpp Require Import base tactics list gmap strings.
From Stdlib Require Import Strings.Byte.
From S2P Require Import Prelude PyState PyBytes PyStr PyDict KernelPatch StartupDecode StartupTables StartupTrace StartupProps StartupWatch.
From S2P Require ProbeWatch.
Open Scope Z_scope.

(** ** The guest and the debugger *)

Definition sample_options : options :=
  Options 2 1 0x800 64 64 true false true false false [] (Some 7) (Some 0x100000) (u "/events") [] 0xcc5 [].
Definition sample_alloc (n : Z) : Z := n + 1.
Definition sample_locations (a : Z) : option Z := Some 1.

(** [bl] at the entry of the function and at its next word; the name of the
    process behind two pointers. *)
Definition SITE : Z := 0x259097d0c.
Definition bl_word (src dst : Z) : list byte := le_bytes 4 (Z.lor 0x80000000 (branch src dst)).
Definition sample_code : list byte := bl_word SITE 0x259097000 ++ bl_word (SITE + 4) 0x259097000.
Definition sample_read (a n : Z) : option (list byte) :=
  if a =? PROGNAME_PTR then Some (le_bytes 8 0x1000)
  else if a =? 0x1000 then Some (le_bytes 8 0x2000)
  else if a =? 0x2000 then Some (map z2b (u "SpringBoard" ++ [0]))
  else if a =? SITE then Some sample_code
  else None.
Definition frame_at (pc now : Z) : frame :=
  Frame (λ r, if bool_decide (r = u "tpidr_el1") then Some 7
              else if bool_decide (r = u "sp") then Some 0x100800
              else if bool_decide (r = u "pc") then Some pc else Some 0) sample_read [pc] 1 now.

Abbreviation run := (run_callback sample_options 0 sample_alloc sample_locations).
Abbreviation reached := (reachable sample_options 0 sample_alloc sample_locations).
(** The breakpoint at an address with a callback of a kind. *)
Definition armed_at (c : callback → bool) (a : Z) (s : state) : list Z :=
  omap (λ e, if (b_address e.2 =? a) && b_enabled e.2 && match b_callback e.2 with Some k => c k | None => false end
             then Some e.1 else None) (map_to_list (bps s)).
Definition is_call (c : callback) : bool := match c with OnCall => true | _ => false end.
Definition is_boundary (c : callback) : bool := match c with OnBoundary => true | _ => false end.
Definition is_ret (c : callback) : bool := match c with OnReturn => true | _ => false end.

Definition resumed : state := (resume_install sample_options 0 sample_alloc sample_locations true (frame_at 0 100) no_state).2.

Definition hit (c : callback) (i : Z) (f : frame) (s : state) : state := (run c i f s).2.
Definition boundary_id : Z := default 0 (head (armed_at is_boundary SITE resumed)).
Definition planted : state := hit OnBoundary boundary_id (frame_at SITE 110) resumed.
Definition site_id (a : Z) : Z := default 0 (head (armed_at is_call a planted)).
Definition called : state := hit OnCall (site_id SITE) (frame_at SITE 120) planted.
Definition nested : state := hit OnCall (site_id (SITE + 4)) (frame_at (SITE + 4) 200) called.

(** ** The states are reached *)

Lemma sample_alloc_inj m n : 0 ≤ m → 0 ≤ n → sample_alloc m = sample_alloc n → m = n.
Proof. unfold sample_alloc. lia. Qed.
Lemma sample_locations_valid a : is_Some (sample_locations a).
Proof. by eexists. Qed.

Lemma reached_resumed : reached resumed.
Proof. exact (reach_resume sample_options 0 sample_alloc sample_locations true (frame_at 0 100)). Qed.
Lemma reached_planted : reached planted.
Proof. apply (reach_hit _ _ _ _ resumed _ _ SITE); [apply reached_resumed|vm_compute; reflexivity]. Qed.
Lemma reached_called : reached called.
Proof. apply (reach_hit _ _ _ _ planted _ _ SITE); [apply reached_planted|vm_compute; reflexivity]. Qed.
Lemma nested_hit : bps called !! site_id (SITE + 4) = Some (Breakpoint (SITE + 4) (Some OnCall) true).
Proof. vm_compute. reflexivity. Qed.
Lemma reached_nested : reached nested.
Proof. apply (reach_hit _ _ _ _ called _ _ (SITE + 4)); [apply reached_called|apply nested_hit]. Qed.

(** ** The theorems there *)

Lemma tracer_invariant_witness :
  deepest (active (tabs nested)) = Some 2 ∧ budgets_ok sample_options (tr nested) ∧ pending_ok sample_options nested.
Proof.
  pose proof (tracer_invariant sample_options 0 sample_alloc sample_locations sample_alloc_inj
    sample_locations_valid eq_refl nested reached_nested) as (Hb & _ & _ & Hp).
  split; [vm_compute; reflexivity|by split].
Defined.
Lemma callbacks_find_entries_witness :
  match (run OnCall (site_id (SITE + 4)) (frame_at (SITE + 4) 200) called).1 with
  | Ok _ => True
  | Raise e => (∃ m, e = TypeError m) ∨ (∃ m, e = RuntimeError m)
  end.
Proof.
  exact (callbacks_find_entries sample_options 0 sample_alloc sample_locations sample_alloc_inj
    sample_locations_valid eq_refl called _ (frame_at (SITE + 4) 200) _ _ reached_called nested_hit).
Defined.
(** A scan of the function under another scope plants both calls. *)
Definition rescan : SM () := plant_calls 0 sample_alloc sample_locations (frame_at SITE 130) (u "again") SITE (SITE + 8).
Lemma plant_calls_complete_witness :
  (SITE + 4) ∈ scope_statics (u "again") (config_ (tabs (rescan called).2))
  ∧ bps (rescan (rescan called).2).2 = bps (rescan called).2.
Proof.
  assert ((rescan called).1 = Ok ()) as Hok by (vm_compute; reflexivity).
  destruct (rescan called) as [r s'] eqn:E. cbn [fst] in Hok. subst r.
  pose proof (plant_calls_complete sample_options 0 sample_alloc sample_locations sample_alloc_inj
    sample_locations_valid eq_refl called s' (frame_at SITE 130) (u "again") SITE (SITE + 8) reached_called E) as [Hin (s2 & H2 & Hb & _)].
  cbn [snd]. split.
  - apply (Hin (SITE + 4, Z.lor 0x80000000 (branch (SITE + 4) 0x259097000), Direct "bl" 0x259097000 false)).
    vm_compute. apply list_elem_of_further, list_elem_of_here.
  - unfold rescan. by rewrite H2.
Defined.
(** The second call is the last of the budget: the guest stays stopped, and the
    instrumentation's stop file says so. *)
Lemma stop_has_evidence_witness : stop_cause sample_options nested.
Proof.
  assert ((run OnCall (site_id (SITE + 4)) (frame_at (SITE + 4) 200) called).1 = Ok true) as Hok by (vm_compute; reflexivity).
  destruct (run OnCall (site_id (SITE + 4)) (frame_at (SITE + 4) 200) called) as [r s'] eqn:E. cbn [fst] in Hok. subst r.
  replace nested with s' by (unfold nested, hit; by rewrite E).
  exact (stop_has_evidence sample_options 0 sample_alloc sample_locations eq_refl called s' OnCall _ _ E).
Defined.
(** A watcher with a limit of 50 that lists the directory of [called] at 180. *)
Definition listing : list (list Z) := (map_to_list (dir_of called)).*1.
Lemma stalled_trace_stops_witness :
  ∃ call age w, ProbeWatch.iterate 0xcc5 50 0 0 (length listing + 4) (watching called 180 listing) = Some w
    ∧ ProbeWatch.at_ w = ProbeWatch.StopDeadline call age ∧ under_way called call ∧ 50 ≤ 60 ≤ age.
Proof.
  apply (proj1 (proj2 (stalled_trace_stops sample_options 0 sample_alloc sample_locations eq_refl ltac:(vm_compute; discriminate)
    50 0 0 called 180 listing reached_called (reflexivity _))) pending_trace (ProbeWatch.Event 1 0xcc5 120));
    [vm_compute; reflexivity|reflexivity|cbn; lia].
Defined.

(** ** Where the tracer and the watcher step on each other *)

(** The watcher lists the directory of [called] and picks the event of call 1;
    before it renames the file, call 2 is entered and the tracer refreshes it.
    The rename takes the fresh file away and the watcher asks for the stop of
    call 1, although the traced chain moved a moment ago; and the directory no
    longer says which call is deepest. *)
Definition raced : option ProbeWatch.system :=
  w ← ProbeWatch.iterate 0xcc5 50 0 0 (length listing + 1) (watching called 180 listing);
  ProbeWatch.iterate 0xcc5 50 0 0 3 (ProbeWatch.set_dir (dir_of nested) w).
Example refresh_lost_to_claim :
  ∃ w, raced = Some w ∧ ProbeWatch.at_ w = ProbeWatch.StopDeadline 1 60
    ∧ ProbeWatch.dir w !! pending_trace = None
    ∧ ProbeWatch.dir w !! ProbeWatch.claimed_name 1 = Some (Some (ProbeWatch.Event 2 0xcc5 200)).
Proof. eexists. split; [vm_compute; reflexivity|]. split_and!; vm_compute; reflexivity. Qed.
