(* ===== verification/DisplayTrace.v ===== *)
(** * The IOKit call recorder: [tools/re/display_iokit_callbacks.py]

    The recorder counts the calls that one process makes into IOKit, plants a
    return watch at each and keeps event files for those of one selector, so
    that the probe watcher can stop the guest inside a call that never returns.
    The debugger is an argument, as in the other tracers.  A callback lists its
    file operations in [queue]; each becomes visible to the watcher on its own,
    before the next callback runs.  Here are the callbacks, the installation,
    and the recorder and the watcher running together. *)

From stdpp Require Import base tactics list gmap strings.
From Stdlib Require Import Strings.Byte.
From S2P Require Import Prelude PyState PyBytes PyStr StartupDecode.
From S2P Require ProbeWatch.
Open Scope Z_scope.

(** ** Options and reading *)

(** Whether [DVM_PROBE_EVENT_DIR] is set, [DVM_PROBE_STALL_SELECTOR] and
    [DVM_PROBE_SUCCESS_LABELS]. *)
Record options := Options { EVENT_DIR : bool; STALL_SELECTOR : Z; SUCCESS_LABELS : list (list Z) }.
(** [int(os.environ.get(name, "-1"), 0)], -1 when that is no number. *)
Definition stall_selector_of (env : option (list Z)) : Z :=
  match int0 (default (u "-1") env) with Ok n => n | Raise _ => -1 end.
(** [set(filter(None, os.environ.get(name, "").split(",")))]. *)
Definition success_labels_of (env : option (list Z)) : list (list Z) :=
  filter (λ l, l ≠ []) (split1 44 (default [] env)).

Definition BKD : list Z := u "backboardd".
Definition reg (f : frame) (name : string) : option Z := f_reg f (u name).
(** [_u64]: whatever the read returns. *)
Definition u64 (f : frame) (address : Z) : option Z := le_Z <$> f_read f address 8.
(** [_cstring]. *)
Definition cstring (f : frame) (address : Z) : list Z :=
  if address =? 0 then u "<null>"
  else match f_read f address 128 with
       | Some data => ascii_replace (before x00 data)
       | None => u "<read-error>"
       end.

Section slide.
Variable slide : Z.

Definition progname (f : frame) : list Z :=
  let p := u64 f (slide + PROGNAME_PTR) in
  if negb (truthy p) then u "<progname-ptr-unreadable>"
  else let s := u64 f (or0 p) in
       if negb (truthy s) then u "<progname-null>" else cstring f (or0 s).
(** [_static] and [_fmt_addr]. *)
Definition static (addr : Z) : option Z :=
  if (CACHE_LO + slide <=? addr) && (addr <? CACHE_HI + slide) then Some (addr - slide) else None.
Definition fmt_addr (addr : Z) : list Z :=
  match static addr with Some s => hex s | None => hex addr ++ u "!" end.
End slide.

(** ** State *)

(** What an event file holds. *)
Inductive payload :=
  | PReady (time breakpoints : Z)
  | PSuccess (label : list Z) (time hit thread : Z)
  | PPending (call selector time tp breakpoint : Z)
  | PReturned (call selector time : Z).
Inductive op := Write (name : list Z) (p : payload) | Remove (name : list Z).

Record config := Config {
  c_label : list Z; c_regs : list (list Z); c_limit : Z; c_bt : bool; c_ret : bool; c_only : option (list Z); c_srv_only : bool;
}.
(** An entry of [RET_CONFIG]. *)
Record ret_config := RetConfig {
  r_label : list Z; r_tp : option Z; r_time : Z; r_extra : Z; r_hits : Z; r_call : Z; r_selector : Z;
}.
Definition hit_again (r : ret_config) : ret_config :=
  RetConfig (r_label r) (r_tp r) (r_time r) (r_extra r) (r_hits r + 1) (r_call r) (r_selector r).

(** The printed lines, without the time of day. *)
Inductive line :=
  | LServer (tp : Z)
  | LHit (label : list Z) (hit limit : Z)
  | LWhere (progname : list Z) (breakpoint thread : Z)
  | LRegisters (values : list (list Z * option Z))
  | LReturnAddress (text : option (list Z))
  | LBacktrace (pcs : list (list Z))
  | LEntry (call selector : Z)
  | LWatchError
  | LDisabled (breakpoint hit : Z)
  | LReturned (x0 tp : option Z) (elapsed extra : Z)
  | LReturn (call selector : Z)
  | LInstalled (breakpoint : Z) (label : list Z) (address : Z).

Inductive callback := OnBreak | OnReturn.
Record breakpoint := Breakpoint { b_address : Z; b_callback : option callback; b_enabled : bool }.

(** [created] counts the breakpoints made so far; [server] is [STATE["srv"]]. *)
Record state := State {
  created : Z;
  bps : gmap Z breakpoint;
  CONFIG : gmap Z config;
  RET_CONFIG : gmap Z ret_config;
  HITS : gmap Z Z;
  NEXT_CALL_ID : Z;
  server : option Z;
  queue : list op;
  out : list line;
}.
Definition new_state : state := State 0 ∅ ∅ ∅ ∅ 1 None [] [].

Definition set_bps (v : gmap Z breakpoint) (s : state) : state :=
  State (created s) v (CONFIG s) (RET_CONFIG s) (HITS s) (NEXT_CALL_ID s) (server s) (queue s) (out s).
Definition set_config (v : gmap Z config) (s : state) : state :=
  State (created s) (bps s) v (RET_CONFIG s) (HITS s) (NEXT_CALL_ID s) (server s) (queue s) (out s).
Definition set_ret (v : gmap Z ret_config) (s : state) : state :=
  State (created s) (bps s) (CONFIG s) v (HITS s) (NEXT_CALL_ID s) (server s) (queue s) (out s).
Definition set_hits (v : gmap Z Z) (s : state) : state :=
  State (created s) (bps s) (CONFIG s) (RET_CONFIG s) v (NEXT_CALL_ID s) (server s) (queue s) (out s).
Definition set_next (v : Z) (s : state) : state :=
  State (created s) (bps s) (CONFIG s) (RET_CONFIG s) (HITS s) v (server s) (queue s) (out s).
Definition set_server (v : option Z) (s : state) : state :=
  State (created s) (bps s) (CONFIG s) (RET_CONFIG s) (HITS s) (NEXT_CALL_ID s) v (queue s) (out s).
Definition set_queue (v : list op) (s : state) : state :=
  State (created s) (bps s) (CONFIG s) (RET_CONFIG s) (HITS s) (NEXT_CALL_ID s) (server s) v (out s).
Definition set_out (v : list line) (s : state) : state :=
  State (created s) (bps s) (CONFIG s) (RET_CONFIG s) (HITS s) (NEXT_CALL_ID s) (server s) (queue s) v.

Abbreviation DM := (SE state).

(** ** Event files *)

Definition success_name (label : list Z) : list Z := u "success." ++ label ++ u ".json".
(** What the watcher reads of a file: it only decodes those of calls. *)
Definition event_of (p : payload) : option ProbeWatch.event :=
  match p with
  | PPending call selector time _ _ | PReturned call selector time => Some (ProbeWatch.Event call selector time)
  | PReady _ _ | PSuccess _ _ _ _ => None
  end.
(** [os.replace] of a whole file, and [os.unlink]. *)
Definition perform (o : op) (d : ProbeWatch.files) : ProbeWatch.files :=
  match o with Write name p => <[name := event_of p]> d | Remove name => delete name d end.

Definition print (l : line) : DM () := update (λ s, set_out (out s ++ [l]) s).
Definition push (o : op) : DM () := update (λ s, set_queue (queue s ++ [o]) s).
(** [try: m], [except Exception: h]. *)
Definition try_except (m h : DM ()) : DM () := λ s,
  match m s with (Raise _, s') => h s' | r => r end.

Section recorder.
Variable o : options.
Variable slide : Z.
(** The debugger: the identifier of the n-th breakpoint, [None] when none is
    made; then [GetID] gives 0. *)
Variable alloc : Z → option Z.

Section callbacks.
(** Which event files can be written during this callback. *)
Variable writable : list Z → bool.

Definition write_event (name : list Z) (p : payload) : DM () :=
  if negb (EVENT_DIR o) then mret ()
  else if writable name then push (Write name p) else raise OSError.
Definition remove_event (name : list Z) : DM () :=
  if EVENT_DIR o then push (Remove name) else mret ().

(** [BreakpointCreateByAddress]. *)
Definition create (address : Z) : DM Z := λ s,
  match alloc (created s) with
  | Some i => (Ok i, State (created s + 1) (<[i := Breakpoint address None true]> (bps s)) (CONFIG s) (RET_CONFIG s) (HITS s)
                      (NEXT_CALL_ID s) (server s) (queue s) (out s))
  | None => (Ok 0, s)
  end.
Definition attach (i : Z) (c : callback) : DM () := update (λ s,
  set_bps (alter (λ b, Breakpoint (b_address b) (Some c) (b_enabled b)) i (bps s)) s).
Definition disable (i : Z) : DM () := update (λ s,
  set_bps (alter (λ b, Breakpoint (b_address b) (b_callback b) false) i (bps s)) s).

(** [_plant_return]. *)
Definition plant_return (f : frame) (lr : Z) (label : list Z) (tp : option Z) (call selector : Z) : DM () :=
  i ← create lr;
  _ ← attach i OnReturn;
  _ ← update (λ s, set_ret (<[i := RetConfig (label ++ u "_RET") tp (f_now f) selector 0 call selector]> (RET_CONFIG s)) s);
  if selector =? STALL_SELECTOR o
  then write_event (ProbeWatch.pending_name call) (PPending call selector (f_now f) (or0 tp) i)
  else mret ().

Definition on_return (f : frame) (i : Z) : DM bool :=
  ret ← gets RET_CONFIG;
  match ret !! i with
  | None => mret false
  | Some r =>
      _ ← update (λ s, set_ret (<[i := hit_again r]> (RET_CONFIG s)) s);
      if negb (bool_decide (reg f "tpidr_el1" = r_tp r)) then mret false
      else
        _ ← print (LHit (r_label r) 1 1);
        _ ← print (LWhere (progname slide f) i (f_thread f));
        _ ← print (LReturned (reg f "x0") (reg f "tpidr_el1") (f_now f - r_time r) (r_extra r));
        _ ← print (LReturn (r_call r) (r_selector r));
        _ ← remove_event (ProbeWatch.pending_name (r_call r));
        _ ← remove_event (ProbeWatch.claimed_name (r_call r));
        _ ← when (r_selector r =? STALL_SELECTOR o)
              (write_event (ProbeWatch.returned_name (r_call r)) (PReturned (r_call r) (r_selector r) (f_now f)));
        _ ← update (λ s, set_bps (delete i (bps s)) s);
        _ ← update (λ s, set_ret (delete i (RET_CONFIG s)) s);
        mret false
  end.

(** The return watch of a call, at most 48 at a time. *)
Definition watch_return (f : frame) (c : config) : DM () :=
  ret ← gets RET_CONFIG;
  when (c_ret c && truthy (reg f "lr") && (Z.of_nat (size ret) <? 48))
    (try_except
       (let selector := or0 (reg f "x1") in
        call ← gets NEXT_CALL_ID;
        _ ← update (λ s, set_next (NEXT_CALL_ID s + 1) s);
        _ ← print (LEntry call selector);
        plant_return f (Z.land (or0 (reg f "lr")) 0x0000ffffffffffff) (c_label c) (reg f "tpidr_el1") call selector)
       (print LWatchError)).

(** The first entry of the render server's thread identifies it. *)
Definition note_server (f : frame) (c : config) : DM () :=
  srv ← gets server;
  when (bool_decide (c_label c = u "SRV_THREAD_ENTRY") && bool_decide (progname slide f = BKD) && bool_decide (srv = None))
    (_ ← update (set_server (reg f "tpidr_el1"));
     tp ← lift (opt_or (reg f "tpidr_el1") (TypeError "%x format"));
     print (LServer tp)).

(** Whether the process and the thread are the ones of the entry. *)
Definition relevant (f : frame) (c : config) (srv : option Z) : bool :=
  match c_only c with
  | Some only => bool_decide (only = []) || bool_decide (progname slide f = only)
  | None => true
  end
  && (negb (c_srv_only c) || (negb (bool_decide (srv = None)) && bool_decide (reg f "tpidr_el1" = srv))).

Definition on_break (f : frame) (i : Z) : DM bool :=
  s ← gets id;
  c ← lift (opt_or (CONFIG s !! i) (KeyError (dec i)));
  if negb (relevant f c (server s)) then mret false
  else
    let hit := default 0 (HITS s !! i) + 1 in
    _ ← update (λ s, set_hits (<[i := hit]> (HITS s)) s);
    _ ← note_server f c;
    _ ← print (LHit (c_label c) hit (c_limit c));
    _ ← print (LWhere (progname slide f) i (f_thread f));
    _ ← print (LRegisters (map (λ n, (n, f_reg f n)) (c_regs c)));
    _ ← print (LReturnAddress (fmt_addr slide <$> reg f "lr"));
    _ ← when (bool_decide (c_label c ∈ SUCCESS_LABELS o))
          (write_event (success_name (c_label c)) (PSuccess (c_label c) (f_now f) hit (f_thread f)));
    _ ← when (c_bt c)
          (print (LBacktrace (map (λ pc, fmt_addr slide (Z.land pc 0x0000ffffffffffff)) (take 14 (f_pcs f)))));
    _ ← watch_return f c;
    _ ← when (c_limit c <=? hit) (_ ← disable i; print (LDisabled i hit));
    mret false.

(** ** Installation *)

(** [regs.split()]. *)
Definition words (s : list Z) : list (list Z) := filter (λ w, w ≠ []) (split1 32 s).
Definition BASE : list Z := u "pc lr sp tpidr_el1".
Definition entry (label regs : string) (limit : Z) (bt ret : bool) (only : option (list Z)) (srv_only : bool) : config :=
  Config (u label) (words (BASE ++ u " " ++ u regs)) limit bt ret only srv_only.
Definition ENTRIES : list (Z * config) :=
  [(0x1843f9664, entry "SRV_THREAD_ENTRY" "x0" 4 false false None false);
   (0x1843f9804, entry "SRV_MACHMSG_RET" "w0" 400 false false None false);
   (0x237cd60d4, entry "SRV_PSYNCH_MUTEXWAIT" "x0 x1 x2" 40 true false None true);
   (0x18efd97cc, entry "IOCONNECT_CALL_METHOD" "x0 x1 x2 w3 x4 w5" 300 true true (Some BKD) false);
   (0x18efd937c, entry "IOCONNECT_CALL_SCALAR" "x0 x1 x2 w3" 300 true true (Some BKD) false);
   (0x18efd9620, entry "IOCONNECT_CALL_STRUCT" "x0 x1 x2 x3" 300 true true (Some BKD) false);
   (0x18eff3ae0, entry "IOCONNECT_CALL_ASYNC" "x0 x1 x2 x3" 100 true true (Some BKD) false);
   (0x18053e2b4, entry "BKD_PTHREAD_COND_WAIT" "x0 x1" 60 true false (Some BKD) false);
   (0x18053d028, entry "BKD_PTHREAD_COND_TIMEDWAIT" "x0 x1 x2" 60 true false (Some BKD) false);
   (0x18053c04c, entry "BKD_PTHREAD_COND_TIMEDWAIT_REL" "x0 x1 x2" 60 true false (Some BKD) false);
   (0x1844e47c8, entry "QD_ENTRY" "x0" 40 false false None false);
   (0x1847574ec, entry "CAWS_ENABLE_OOP_OBSERVATION" "x0" 8 false false None false);
   (0x2244d0ba4, entry "SB_ADFL_ENTRY" "x0 x2" 8 false false None false)].

(** [_install]: [attached] is whether the callback could be attached. *)
Definition install_one (attached : list Z → bool) (e : Z * config) : DM () :=
  let address := e.1 + slide in
  s ← gets id;
  _ ← when (bool_decide (alloc (created s) = None)) (raise (RuntimeError "failed breakpoint"));
  i ← create address;
  _ ← update (λ s, set_config (<[i := e.2]> (CONFIG s)) s);
  _ ← (if attached (c_label e.2) then attach i OnBreak else raise (RuntimeError "callback attach failed"));
  print (LInstalled i (c_label e.2) address).
Definition install (attached : list Z → bool) (now : Z) : DM () :=
  _ ← for_each (install_one attached) ENTRIES;
  write_event (u "ready") (PReady now (Z.of_nat (length ENTRIES))).
End callbacks.

Definition run_callback (c : callback) (writable : list Z → bool) (f : frame) (i : Z) : DM bool :=
  match c with OnBreak => on_break writable f i | OnReturn => on_return writable f i end.

(** ** The recorder and the watcher together *)

(** The recorder, the time, the directory, and the watcher. *)
Record world := World {
  recorder : state; now : Z; files : ProbeWatch.files; logs : list ProbeWatch.watch; pc : ProbeWatch.pc;
}.
(** What the watcher sees. *)
Definition seen (w : world) : ProbeWatch.system := ProbeWatch.System (now w) (files w) ∅ 1 (logs w) (pc w).

(** The watcher's [--selector], [--pending-secs], [--max-secs] and start. *)
Variables (selector pending_secs max_secs started_at : Z).
Abbreviation wstep := (ProbeWatch.wstep selector pending_secs max_secs started_at).

(** A step of the watcher; a callback at an enabled breakpoint, once the file
    operations of the one before it are through; the next file operation; time. *)
Inductive step : world → world → Prop :=
  | s_watcher w w' : wstep (seen w) (seen w') → recorder w' = recorder w → step w w'
  | s_hit w i a c writable f :
      queue (recorder w) = [] → bps (recorder w) !! i = Some (Breakpoint a (Some c) true) → f_now f = now w →
      step w (World (run_callback c writable f i (recorder w)).2 (now w) (files w) (logs w) (pc w))
  | s_file w op ops :
      queue (recorder w) = op :: ops →
      step w (World (set_queue ops (recorder w)) (now w) (perform op (files w)) (logs w) (pc w))
  | s_time w t : now w ≤ t → step w (World (recorder w) t (files w) (logs w) (pc w)).

(** The recorder is installed in an empty directory. *)
Inductive reachable (ws : list ProbeWatch.watch) : world → Prop :=
  | r_start writable attached :
      reachable ws (World (install writable attached started_at new_state).2 started_at ∅ ws ProbeWatch.Logs)
  | r_step w w' : reachable ws w → step w w' → reachable ws w'.
End recorder.

(** ** What a callback leaves *)

Section effects.
Variable o : options.
Variable slide : Z.
Variable alloc : Z → option Z.

(** Nothing the protocol depends on changes. *)
Definition quiet (s s' : state) : Prop :=
  created s' = created s ∧ RET_CONFIG s' = RET_CONFIG s ∧ NEXT_CALL_ID s' = NEXT_CALL_ID s ∧ queue s' = queue s.
#[local] Instance quiet_preorder : PreOrder quiet.
Proof.
  split; [done|]. intros s1 s2 s3 (?&?&?&?) (?&?&?&?). unfold quiet. split_and!; congruence.
Qed.
#[local] Instance quiet_print l : Leads quiet (print l).
Proof. done. Qed.
#[local] Instance quiet_disable i : Leads quiet (disable i).
Proof. done. Qed.
#[local] Instance quiet_attach i c : Leads quiet (attach i c).
Proof. done. Qed.
#[local] Instance quiet_server v : Leads quiet (update (set_server v)).
Proof. done. Qed.
#[local] Instance quiet_hits (f : state → gmap Z Z) : Leads quiet (update (λ s, set_hits (f s) s)).
Proof. done. Qed.
#[local] Instance quiet_bps (f : state → gmap Z breakpoint) : Leads quiet (update (λ s, set_bps (f s) s)).
Proof. done. Qed.
#[local] Instance quiet_note_server f c : Leads quiet (note_server slide f c).
Proof. unfold note_server. apply _. Qed.

(** A property of the state a run leaves, raising or not. *)
Definition after {A} (m : DM A) (P : state → Prop) (s : state) : Prop := wp m (λ _, P) (λ _, P) s.
Lemma after_state {A} (m : DM A) P s : after m P s → P (m s).2.
Proof. unfold after, wp. by destruct (m s) as [[a|e] s']. Qed.
Lemma after_try m h (P : state → Prop) s :
  after m P s → (∀ s', P s' → after h P s') → after (try_except m h) P s.
Proof.
  unfold after, wp, try_except. intros Hm Hh. destruct (m s) as [[a|e] s']; [done|by apply Hh].
Qed.
(** Going on from a half that moves along [R]; [P] must hold where it raises. *)
Lemma leads_then (R : state → state → Prop) {A B} (m : DM A) (f : A → DM B) (P : state → Prop) s :
  Leads R m → (∀ s', R s s' → P s') → (∀ a s', R s s' → after (f a) P s') → after (m ≫= f) P s.
Proof.
  intros Hm HP Hf. apply wp_bind. unfold wp. specialize (Hm s).
  destruct (m s) as [[a|e] s']; [by apply Hf|by apply HP].
Qed.
Lemma leads_last (R : state → state → Prop) {A} (m : DM A) (P : state → Prop) s :
  Leads R m → (∀ s', R s s' → P s') → after m P s.
Proof. intros Hm HP. unfold after, wp. specialize (Hm s). destruct (m s) as [[a|e] s']; by apply HP. Qed.

Section writable.
Variable writable : list Z → bool.
Abbreviation on_break := (on_break o slide alloc writable).
Abbreviation on_return := (on_return o slide writable).

(** A return callback with an empty queue: the entry stays, with nothing to
    do or after a file that could not be written, or it goes; and the
    operations are those of the call. *)
Definition removals (call : Z) : list op := [Remove (ProbeWatch.pending_name call); Remove (ProbeWatch.claimed_name call)].
Definition returned_file (r : ret_config) (t : Z) : list op :=
  if r_selector r =? STALL_SELECTOR o
  then [Write (ProbeWatch.returned_name (r_call r)) (PReturned (r_call r) (r_selector r) t)] else [].
Inductive return_effect (t i : Z) (s s' : state) : Prop :=
  | re_other : RET_CONFIG s !! i = None → quiet s s' → return_effect t i s s'
  | re_stays r ops :
      RET_CONFIG s !! i = Some r → RET_CONFIG s' = <[i := hit_again r]> (RET_CONFIG s) →
      ops = [] ∨ EVENT_DIR o = true ∧ ops = removals (r_call r) →
      queue s' = queue s ++ ops → NEXT_CALL_ID s' = NEXT_CALL_ID s → created s' = created s → return_effect t i s s'
  | re_goes r :
      RET_CONFIG s !! i = Some r → RET_CONFIG s' = delete i (RET_CONFIG s) →
      queue s' = queue s ++ (if EVENT_DIR o then removals (r_call r) ++ returned_file r t else []) →
      NEXT_CALL_ID s' = NEXT_CALL_ID s → created s' = created s → return_effect t i s s'.
Lemma on_return_effect f i s : return_effect (f_now f) i s (on_return f i s).2.
Proof.
  apply (after_state _ (return_effect (f_now f) i s)). unfold DisplayTrace.on_return. apply wp_bind, wp_gets.
  destruct (RET_CONFIG s !! i) as [r|] eqn:E; [|by apply wp_ret, re_other].
  apply wp_bind, wp_update. set (s1 := set_ret _ s).
  assert (∀ s', quiet s1 s' → return_effect (f_now f) i s s') as Hstay.
  { intros s' (?&?&?&?). eapply re_stays; [exact E|done|by left|by rewrite app_nil_r|done|done]. }
  destruct (negb _); [by apply wp_ret, Hstay|].
  apply (leads_then quiet); [apply _|done|]. intros [] s2 H2. apply (leads_then quiet); [apply _| |].
  { intros s' H. apply Hstay. by etrans. }
  intros [] s3 H3. apply (leads_then quiet); [apply _| |]. { intros s' H. apply Hstay. etrans; [|exact H]. by etrans. }
  intros [] s4 H4. apply (leads_then quiet); [apply _| |].
  { intros s' H. apply Hstay. etrans; [|exact H]. etrans; [|exact H4]. by etrans. }
  intros [] s5 H5.
  assert (quiet s1 s5) as (Hc & Hr & Hn & Hq). { etrans; [|exact H5]. etrans; [|exact H4]. by etrans. }
  clear s2 s3 s4 H2 H3 H4 H5 Hstay. cbn in Hc, Hr, Hn, Hq. unfold remove_event, write_event, returned_file.
  destruct (EVENT_DIR o) eqn:Ed; unfold after, wp, when, mbind, se_bind, push, update, mret, se_ret, raise, lift; cbn.
  - destruct (r_selector r =? STALL_SELECTOR o) eqn:Es; cbn; [destruct (writable _); cbn|].
    + eapply re_goes; cbn; rewrite ?Hr, ?Hq, ?Ed; [done|by rewrite delete_insert_eq|unfold returned_file; rewrite Es; cbn; by rewrite <-!app_assoc|done|done].
    + eapply re_stays; cbn; rewrite ?Hr, ?Hq; [done|done|by right|by rewrite <-!app_assoc|done|done].
    + eapply re_goes; cbn; rewrite ?Hr, ?Hq, ?Ed; [done|by rewrite delete_insert_eq|unfold returned_file; rewrite Es; cbn; by rewrite <-!app_assoc|done|done].
  - assert ((if r_selector r =? STALL_SELECTOR o then mret () else mret ()) = mret () :> DM ()) as E' by by destruct (_ =? _).
    unfold mret, se_ret in E'. rewrite E'. cbn.
    eapply re_goes; cbn; rewrite ?Hr, ?Hq, ?Ed; [done|by rewrite delete_insert_eq|by rewrite app_nil_r|done|done].
Qed.

(** A breakpoint callback with an empty queue: at most a success file, then
    at most one new call, with its pending file if it has the selector. *)
Definition other_write (p : op) : Prop :=
  ∃ name q, p = Write name q ∧ event_of q = None ∧ (name = u "ready" ∨ ∃ label, name = success_name label).
Definition at_most_one {A} (P : A → Prop) (l : list A) : Prop := l = [] ∨ ∃ x, l = [x] ∧ P x.
Inductive break_effect (t : Z) (s s' : state) : Prop :=
  | be_none ops :
      queue s' = queue s ++ ops → at_most_one other_write ops →
      RET_CONFIG s' = RET_CONFIG s → NEXT_CALL_ID s' = NEXT_CALL_ID s → created s' = created s → break_effect t s s'
  | be_call ops i r pending :
      queue s' = queue s ++ ops ++ pending → at_most_one other_write ops →
      RET_CONFIG s' = <[i := r]> (RET_CONFIG s) → r_call r = NEXT_CALL_ID s → NEXT_CALL_ID s' = NEXT_CALL_ID s + 1 →
      (alloc (created s) = None ∧ i = 0 ∨ alloc (created s) = Some i ∧ created s' = created s + 1) →
      (pending = [] ∨ r_selector r = STALL_SELECTOR o ∧ ∃ tp bp,
         pending = [Write (ProbeWatch.pending_name (r_call r)) (PPending (r_call r) (r_selector r) t tp bp)]) →
      Z.of_nat (size (RET_CONFIG s)) < 48 → break_effect t s s'.

(** Planting a return watch. *)
Definition planted (f : frame) (call : Z) (s s' : state) : Prop :=
  ∃ i r pending,
    queue s' = queue s ++ pending ∧ RET_CONFIG s' = <[i := r]> (RET_CONFIG s) ∧ NEXT_CALL_ID s' = NEXT_CALL_ID s
    ∧ r_call r = call ∧ (alloc (created s) = None ∧ i = 0 ∨ alloc (created s) = Some i ∧ created s' = created s + 1)
    ∧ (pending = [] ∨ r_selector r = STALL_SELECTOR o ∧ ∃ tp bp,
         pending = [Write (ProbeWatch.pending_name call) (PPending call (r_selector r) (f_now f) tp bp)]).
Lemma write_event_effect name p (P : state → Prop) s :
  P s → P (set_queue (queue s ++ [Write name p]) s) → after (write_event o writable name p) P s.
Proof.
  intros H1 H2. unfold write_event. destruct (negb _); [by apply wp_ret|].
  destruct (writable name); [by apply wp_update|by apply wp_raise].
Qed.
Lemma plant_return_effect f lr label tp call sel s :
  after (plant_return o alloc writable f lr label tp call sel) (planted f call s) s.
Proof.
  unfold plant_return. apply wp_bind. set (r := RetConfig (label ++ u "_RET") tp (f_now f) sel 0 call sel).
  assert (∀ i s1, (alloc (created s) = None ∧ i = 0 ∨ alloc (created s) = Some i ∧ created s1 = created s + 1) →
    RET_CONFIG s1 = RET_CONFIG s → NEXT_CALL_ID s1 = NEXT_CALL_ID s → queue s1 = queue s →
    after (_ ← attach i OnReturn; _ ← update (λ s, set_ret (<[i := r]> (RET_CONFIG s)) s);
           if sel =? STALL_SELECTOR o
           then write_event o writable (ProbeWatch.pending_name call) (PPending call sel (f_now f) (or0 tp) i) else mret ())
      (planted f call s) s1) as Hlast.
  { intros i s1 Hi Hr Hn Hq. apply wp_bind, wp_update, wp_bind, wp_update.
    destruct (sel =? STALL_SELECTOR o) eqn:Es; [apply Z.eqb_eq in Es; apply write_event_effect|apply wp_ret].
    all: unfold planted; cbn; rewrite Hr, Hn, Hq.
    - exists i, r, []. rewrite app_nil_r. split_and!; auto.
    - exists i, r. eexists. split_and!; [done|done|done|done|done|]. right. split; [done|]. by exists (or0 tp), i.
    - exists i, r, []. rewrite app_nil_r. split_and!; auto. }
  unfold create, wp. destruct (alloc (created s)) as [i|] eqn:Ea; apply Hlast; auto.
Qed.

Lemma on_break_effect f i s : break_effect (f_now f) s (on_break f i s).2.
Proof.
  apply (after_state _ (break_effect (f_now f) s)). unfold DisplayTrace.on_break. apply wp_bind, wp_gets.
  assert (∀ s', quiet s s' → break_effect (f_now f) s s') as Hquiet.
  { intros s' (?&?&?&?). apply (be_none _ _ _ []); [by rewrite app_nil_r|by left|done..]. }
  apply (leads_then quiet); [apply _|done|]. intros c s1 H1.
  destruct (negb _); [by apply wp_ret, Hquiet|].
  do 6 (apply (leads_then quiet); [apply _|intros ? H; apply Hquiet; by etrans|]; intros [] sx H;
        eapply (transitivity H1) in H; clear s1 H1; rename sx into s1, H into H1).
  clear Hquiet. rename s1 into sb.
  set (noted := λ s' : state, ∃ ops, queue s' = queue s ++ ops ∧ at_most_one other_write ops ∧
    RET_CONFIG s' = RET_CONFIG s ∧ NEXT_CALL_ID s' = NEXT_CALL_ID s ∧ created s' = created s).
  assert (∀ s', noted s' → break_effect (f_now f) s s') as Hnoted.
  { intros s' (ops & ? & ? & ? & ? & ?). by apply (be_none _ _ _ ops). }
  assert (∀ s1 s2, noted s1 → quiet s1 s2 → noted s2) as Hq.
  { intros s1 s2 (ops & Hq & Ho & Hr & Hn & Hc) (?&?&?&?). exists ops. split_and!; [congruence|done|congruence..]. }
  assert (∀ s1 s2, break_effect (f_now f) s s1 → quiet s1 s2 → break_effect (f_now f) s s2) as Hbq.
  { intros s1 s2 Hb (Hc & Hr & Hn & Hqq). destruct Hb as [ops|ops j r pending].
    - apply (be_none _ _ _ ops); congruence.
    - apply (be_call _ _ _ ops j r pending); try congruence; done. }
  destruct H1 as (Hc & Hr & Hn & Hqu). eapply wp_then with (P := λ _, noted).
  { apply wp_when; intros _; [|exists []; rewrite app_nil_r; split_and!; [done|by left|done..]].
    eapply (wp_mono _ (λ _, noted) _ (λ _, noted)); [|done|by intros _ s' ?; apply Hnoted].
    apply write_event_effect; [exists []; rewrite app_nil_r; split_and!; [done|by left|done..]|].
    eexists. cbn. split_and!; [by rewrite Hqu|right; eexists; split; [done|]|done..].
    eexists _, _. split_and!; [done|done|right; eauto]. }
  intros [] s2 H2. apply (leads_then quiet); [apply _|intros s' H; by apply Hnoted, (Hq s2)|]. intros [] s3 H3.
  apply (Hq _ _ H2) in H3. clear H2 Hq s2.
  eapply wp_then with (P := λ _, break_effect (f_now f) s).
  2: { intros [] s4 H4. apply (leads_then quiet); [apply _|intros s' H; by apply (Hbq s4)|]. intros [] s5 H5. apply wp_ret. by apply (Hbq s4). }
  unfold watch_return. apply wp_bind, wp_gets, wp_when; intros Hw; [|by apply Hnoted].
  apply andb_prop in Hw as [_ Hsize]. apply Z.ltb_lt in Hsize.
  assert (∀ s4 s5, planted f (NEXT_CALL_ID s) s4 s5 →
     queue s4 = queue s3 → RET_CONFIG s4 = RET_CONFIG s → created s4 = created s → NEXT_CALL_ID s4 = NEXT_CALL_ID s + 1 →
     break_effect (f_now f) s s5) as Hplanted.
  { intros s4 s5 (j & r & pending & Pq & Pr & Pn & Pc & Pi & Pp) Eq Er Ec En.
    destruct H3 as (ops & Oq & Oo & Or & On & Oc).
    apply (be_call _ _ _ ops j r pending); try done.
    - by rewrite Pq, Eq, Oq, <-app_assoc.
    - by rewrite Pr, Er.
    - by rewrite Pn.
    - by rewrite <-Ec.
    - by rewrite Pc.
    - by rewrite <-Or. }
  apply after_try; [|intros s4 H4; apply (leads_last quiet); [apply _|intros s5 H5; by apply (Hbq s4)]].
  apply wp_bind, wp_gets, wp_bind, wp_update.
  pose proof H3 as (ops & Oq & Oo & Or & On & Oc). apply wp_bind, wp_update. cbn [NEXT_CALL_ID set_next] in *. rewrite On.
  eapply (wp_mono _ (λ _, _) _ (λ _, _)); [apply plant_return_effect| |].
  all: intros _ s4 H4; apply (Hplanted _ s4 H4); cbn; by rewrite ?Or, ?Oc, ?On.
Qed.

End writable.
End effects.

(** ** Refinement of the protocol *)

#[local] Arguments ProbeWatch.pending_name : simpl never.
#[local] Arguments ProbeWatch.claimed_name : simpl never.
#[local] Arguments ProbeWatch.returned_name : simpl never.
Section refinement.
Variable o : options.
Variable slide : Z.
Variable alloc : Z → option Z.
Variables (selector pending_secs max_secs started_at : Z).
Abbreviation step := (step o slide alloc selector pending_secs max_secs started_at).
Abbreviation reachable := (reachable o slide alloc selector pending_secs max_secs started_at).
Abbreviation astep := (ProbeWatch.step selector pending_secs max_secs started_at (STALL_SELECTOR o)).
Abbreviation areachable := (ProbeWatch.reachable selector pending_secs max_secs started_at (STALL_SELECTOR o)).
Abbreviation wstep := (ProbeWatch.wstep selector pending_secs max_secs started_at).
Abbreviation inv := (ProbeWatch.inv selector pending_secs).
Import ProbeWatch (InCall, PendingRemoved, ClaimRemoved, ReturnWritten, pending_name, claimed_name, returned_name).
Abbreviation calls := ProbeWatch.calls.
Abbreviation next_call := ProbeWatch.next_call.

(** The protocol's state: what the watcher sees, and the calls. *)
Definition over (cs : gmap Z (Z * ProbeWatch.phase)) (n : Z) (w : world) : ProbeWatch.system :=
  ProbeWatch.System (now w) (files w) cs n (logs w) (pc w).
Lemma wstep_over cs n w w' : wstep (seen w) (seen w') → wstep (over cs n w) (over cs n w').
Proof.
  assert (∀ s s', wstep s s' → let f s := ProbeWatch.System (ProbeWatch.clock s) (ProbeWatch.dir s) cs n
    (ProbeWatch.watches s) (ProbeWatch.at_ s) in wstep (f s) (f s')) as H; [|by intros; apply (H (seen w) (seen w'))].
  intros s0 s0'. destruct 1 as [s reads ws H1 H2|s reads ws path line H1 H2|s H1 H2|s names H1 H2 H3|s s' H]; intros f.
  - by apply (ProbeWatch.w_logs _ _ _ _ (f s) reads ws).
  - by apply (ProbeWatch.w_match _ _ _ _ (f s) reads ws).
  - by apply (ProbeWatch.w_no_events _ _ _ _ (f s)).
  - by apply (ProbeWatch.w_list _ _ _ _ (f s)).
  - apply ProbeWatch.w_next. revert H. unfold ProbeWatch.watcher, f. cbn.
    destruct (ProbeWatch.at_ s) as [| |? [|] [|]| | | | | | | |] eqn:E; intros H; repeat case_match; simplify_eq/=; reflexivity.
Qed.

Lemma wstep_clock s s' : wstep s s' → ProbeWatch.clock s' = ProbeWatch.clock s.
Proof.
  destruct 1 as [| | | |s s' H]; try done. revert H. unfold ProbeWatch.watcher.
  destruct (ProbeWatch.at_ s) as [| |? [|] [|]| | | | | | | |]; intros; repeat case_match; by simplify_eq/=.
Qed.

Section queue.
Variables (clock : Z) (cs : gmap Z (Z * ProbeWatch.phase)) (n : Z).

(** What the queue still has to do, and the next identifier once it is done. *)
Inductive entering : list op → Z → Prop :=
  | e_none : entering [] n
  | e_call t tp bp :
      t ≤ clock → entering [Write (pending_name n) (PPending n (STALL_SELECTOR o) t tp bp)] (n + 1).
Definition returning (call sel : Z) (ops : list op) : Prop :=
  ops = [] ∨ sel = STALL_SELECTOR o ∧ ∃ t, t ≤ clock ∧ ops = [Write (returned_name call) (PReturned call sel t)].
Inductive queue_ok : list op → Z → Prop :=
  | q_plain q m : entering q m → queue_ok q m
  | q_other x q m : other_write x → entering q m → queue_ok (x :: q) m
  | q_pending call sel ph ops :
      cs !! call = Some (sel, ph) → ph = InCall ∨ ph = ClaimRemoved → returning call sel ops →
      queue_ok (removals call ++ ops) n
  | q_claimed call sel ph ops :
      cs !! call = Some (sel, ph) → ph = PendingRemoved ∨ ph = ClaimRemoved → returning call sel ops →
      queue_ok (Remove (claimed_name call) :: ops) n
  | q_returned call sel ops :
      cs !! call = Some (sel, ClaimRemoved) → returning call sel ops → queue_ok ops n.

(** A return watch belongs to a call that is about to be entered, or to one
    whose callback is not through. *)
Definition entry_ok (q : list op) (r : ret_config) : Prop :=
  (r_call r = n ∧ ∃ t tp bp, Write (pending_name (r_call r)) (PPending (r_call r) (r_selector r) t tp bp) ∈ q)
  ∨ ∃ ph, cs !! r_call r = Some (r_selector r, ph) ∧ ph ≠ ReturnWritten
     ∧ (ph = PendingRemoved → ∃ ops, q = Remove (claimed_name (r_call r)) :: ops)
     ∧ ∀ p, Write (returned_name (r_call r)) p ∉ q.
End queue.

Definition no_pending (q : list op) : Prop := ∀ name call sel t tp bp, Write name (PPending call sel t tp bp) ∉ q.

(** With distinct identifiers and a directory, a call that is inside is watched,
    or its callback is removing its files. *)
Definition fresh : Prop := ∀ k, 0 ≤ k → ∃ i, alloc k = Some i ∧ ∀ k', 0 ≤ k' → alloc k' = Some i → k' = k.
Definition watched (ret : gmap Z ret_config) (q : list op) (call sel : Z) : Prop :=
  (∃ i r, ret !! i = Some r ∧ r_call r = call ∧ r_selector r = sel) ∨ Remove (claimed_name call) ∈ q.
Record covered (cs : gmap Z (Z * ProbeWatch.phase)) (s : state) : Prop := {
  cov_calls : ∀ call sel ph, cs !! call = Some (sel, ph) → ph = InCall ∨ ph = PendingRemoved →
    watched (RET_CONFIG s) (queue s) call sel;
  cov_pending : ∀ name call sel t tp bp, Write name (PPending call sel t tp bp) ∈ queue s →
    watched (RET_CONFIG s) (queue s) call sel;
  cov_created : 0 ≤ created s;
  cov_ids : ∀ i, is_Some (RET_CONFIG s !! i) → ∃ k, 0 ≤ k < created s ∧ alloc k = Some i;
}.

Record sim (cs : gmap Z (Z * ProbeWatch.phase)) (n : Z) (w : world) : Prop := {
  sim_queue : queue_ok (now w) cs n (queue (recorder w)) (NEXT_CALL_ID (recorder w));
  sim_ret : ∀ i r, RET_CONFIG (recorder w) !! i = Some r → entry_ok cs n (queue (recorder w)) r;
  sim_once : ∀ i j r r', RET_CONFIG (recorder w) !! i = Some r → RET_CONFIG (recorder w) !! j = Some r' →
    r_call r = r_call r' → i = j;
  sim_covered : EVENT_DIR o = true → fresh → covered cs (recorder w);
}.

Lemma watched_next ret x q call sel : watched ret (x :: q) call sel → x ≠ Remove (claimed_name call) → watched ret q call sel.
Proof. intros [H|[?|H]%elem_of_cons] Hx; [by left|congruence|by right]. Qed.
(** An operation leaves the queue. *)
Lemma covered_file cs cs' x q s :
  queue s = x :: q → covered cs s →
  (∀ call sel ph, cs' !! call = Some (sel, ph) → ph = InCall ∨ ph = PendingRemoved →
     Remove (claimed_name call) ∈ q
     ∨ x ≠ Remove (claimed_name call)
       ∧ ((∃ ph, cs !! call = Some (sel, ph) ∧ (ph = InCall ∨ ph = PendingRemoved))
          ∨ ∃ name t tp bp, x = Write name (PPending call sel t tp bp))) →
  (∀ call, x = Remove (claimed_name call) → no_pending q) →
  covered cs' (set_queue q s).
Proof.
  intros Hq [H1 H2 H3 H4] Hcs Hno. rewrite Hq in H1, H2. split; cbn; [| |done|done].
  - intros call sel ph Hc Hph. destruct (Hcs call sel ph Hc Hph) as [H|(Hx & [(ph0 & H & Hph0)|(name & t & tp & bp & ->)])].
    + by right.
    + eapply watched_next; [by eapply H1|done].
    + eapply watched_next; [eapply H2, list_elem_of_here|done].
  - intros name call sel t tp bp H. eapply watched_next; [eapply H2; apply elem_of_cons; right; exact H|].
    intros ->. by apply (Hno _ eq_refl) in H.
Qed.

(** A callback runs. *)
Lemma covered_hit cs cs' s s' :
  queue s = [] → covered cs s →
  (∀ i r, RET_CONFIG s !! i = Some r → watched (RET_CONFIG s') (queue s') (r_call r) (r_selector r)) →
  (∀ call sel ph, cs' !! call = Some (sel, ph) → cs !! call = Some (sel, ph) ∨ watched (RET_CONFIG s') (queue s') call sel) →
  (∀ name call sel t tp bp, Write name (PPending call sel t tp bp) ∈ queue s' → watched (RET_CONFIG s') (queue s') call sel) →
  created s ≤ created s' →
  (∀ i, is_Some (RET_CONFIG s' !! i) → is_Some (RET_CONFIG s !! i) ∨ ∃ k, 0 ≤ k < created s' ∧ alloc k = Some i) →
  covered cs' s'.
Proof.
  intros Hq [H1 H2 H3 H4] Hret Hcs Hp Hc Hi. rewrite Hq in H1. split; [|done|lia|].
  - intros call sel ph H Hph. destruct (Hcs _ _ _ H) as [H'|]; [|done].
    destruct (H1 _ _ _ H' Hph) as [(i & r & Hr & <- & <-)|Hin]; [by eapply Hret|by apply not_elem_of_nil in Hin].
  - intros i [(k & Hk & Ha)%H4|]%Hi; [|done]. exists k. split; [lia|done].
Qed.

Lemma queue_ok_later clock clock' cs n q m : clock ≤ clock' → queue_ok clock cs n q m → queue_ok clock' cs n q m.
Proof.
  intros Ht. assert (∀ q m, entering clock n q m → entering clock' n q m) as He.
  { destruct 1; constructor; lia. }
  assert (∀ c s ops, returning clock c s ops → returning clock' c s ops) as Hr.
  { intros c s ops [->|(-> & t & ? & ->)]; [by left|]. right. split; [done|]. exists t. split; [lia|done]. }
  destruct 1; [apply q_plain|apply q_other|eapply q_pending|eapply q_claimed|eapply q_returned]; eauto.
Qed.
Lemma other_not_returned call p : ¬ other_write (Write (returned_name call) p).
Proof. by intros (? & ? & [= <- <-] & _ & [?|[??]]). Qed.
Lemma other_not_pending call sel t tp bp name : ¬ other_write (Write name (PPending call sel t tp bp)).
Proof. by intros (? & ? & [= <- <-] & ? & _). Qed.
Lemma other_not_remove name : ¬ other_write (Remove name).
Proof. by intros (? & ? & [=] & _). Qed.
(** Only the operations of calls matter to an entry. *)
Lemma entry_ok_other cs n x q r : other_write x → entry_ok cs n (x :: q) r → entry_ok cs n q r.
Proof.
  intros Hx [(H1 & t & tp & bp & H3)|(ph & H1 & H2 & H3 & H4)].
  - left. split; [done|]. exists t, tp, bp. apply elem_of_cons in H3 as [<-|H3]; [|done]. by apply other_not_pending in Hx.
  - right. exists ph. split_and!; [done|done| |].
    + intros [ops [= -> _]]%H3. by apply other_not_remove in Hx.
    + intros p Hp. apply (H4 p), elem_of_cons. by right.
Qed.

(** The phase of one call changes as its operation leaves the queue. *)
Lemma entry_ok_phase cs n x q call sel ph ph' r :
  cs !! call = Some (sel, ph) →
  (∀ c, is_Some (cs !! c) → x = Remove (claimed_name c) → c = call) →
  ph' ≠ ReturnWritten ∨ (∃ p, x = Write (returned_name call) p) →
  (ph' = PendingRemoved → ∃ ops, q = Remove (claimed_name call) :: ops) →
  no_pending (x :: q) → entry_ok cs n (x :: q) r → entry_ok (<[call := (sel, ph')]> cs) n q r.
Proof.
  intros Hc Hx Hw Hp Hno [(_ & t & tp & bp & H)|(ph0 & H1 & H2 & H3 & H4)]; [by apply Hno in H|]. right.
  destruct (decide (r_call r = call)) as [<-|Hne].
  - exists ph'. rewrite lookup_insert_eq. rewrite Hc in H1. injection H1 as -> ->. split_and!; [done| |done|].
    + destruct Hw as [?|[p ->]]; [done|]. destruct (H4 p). by apply list_elem_of_here.
    + intros p Hp'. apply (H4 p), elem_of_cons. by right.
  - exists ph0. rewrite lookup_insert_ne by done. split_and!; [done|done| |].
    + intros [ops [= -> ->]]%H3. destruct Hne. apply Hx; [by rewrite H1|done].
    + intros p Hp'. apply (H4 p), elem_of_cons. by right.
Qed.
Lemma returning_no_pending clock call sel ops : returning clock call sel ops → no_pending ops.
Proof.
  intros [->|(_ & t & _ & ->)] name c s t' tp bp H; [by apply not_elem_of_nil in H|].
  by apply list_elem_of_singleton in H.
Qed.
Lemma no_pending_cons name q : no_pending q → no_pending (Remove name :: q).
Proof. intros H ? c s t tp bp Hin. apply elem_of_cons in Hin as [?|Hin]; [done|by apply H in Hin]. Qed.
#[local] Hint Resolve returning_no_pending no_pending_cons : core.

Lemma pending_not_claimed c c' : pending_name c ≠ claimed_name c'.
Proof. unfold ProbeWatch.pending_name, ProbeWatch.claimed_name. done. Qed.

(** The next operation of the queue is a step of the protocol, or removes a
    file that is not there. *)
Lemma sim_file cs n w op ops :
  sim cs n w → inv (over cs n w) → queue (recorder w) = op :: ops →
  let w' := World (set_queue ops (recorder w)) (now w) (perform op (files w)) (logs w) (pc w) in
  ∃ cs' n', rtc astep (over cs n w) (over cs' n' w') ∧ sim cs' n' w'.
Proof.
  intros [Hqueue Hret Honce Hcov] Hinv Hq w'. rewrite Hq in Hqueue, Hret.
  assert (∀ c, is_Some (cs !! c) → 0 < c < n) as Hpos.
  { intros c [v Hv]. apply (ProbeWatch.inv_calls _ _ _ Hinv c v Hv). }
  inversion Hqueue as [q m He Eq Em|x q m Hx He Eq Em|c sel ph q Hc Hph Hops Eq Em|c sel ph q Hc Hph Hops Eq Em|c sel q Hc Hops Eq Em]; subst.
  - inversion He as [|t tp bp Ht]; subst. exists (<[n := (STALL_SELECTOR o, InCall)]> cs), (n + 1). split.
    + apply rtc_once. right. pose proof (ProbeWatch.c_enter (STALL_SELECTOR o) (over cs n w) (STALL_SELECTOR o) t true Ht) as H.
      cbn in H. by rewrite Z.eqb_refl in H.
    + split; cbn; [match goal with H : _ = NEXT_CALL_ID _ |- _ => rewrite <-H end; apply q_plain, e_none| |done|].
      2: { intros Hd Hf. eapply covered_file; [exact Hq|by apply Hcov| |done].
        intros call sel ph [[<- [= <- <-]]|[_ Hc]]%lookup_insert_Some Hph; right; (split; [done|]); [right; eauto|left; eauto]. }
      intros i r Hr. destruct (Hret i r Hr) as [(E1 & t' & tp' & bp' & E3)|(ph & E1 & E2 & E3 & E4)].
      * right. apply list_elem_of_singleton in E3. injection E3 as _ _ -> _ _ _. exists InCall. rewrite E1, lookup_insert_eq.
        split_and!; [done|done|done|]. intros p Hp. by apply not_elem_of_nil in Hp.
      * right. exists ph. rewrite lookup_insert_ne by (assert (is_Some (cs !! r_call r)) as Hs by (by rewrite E1); specialize (Hpos _ Hs); lia).
        split_and!; [done|done|by intros [? [=]]%E3|]. intros p Hp. by apply not_elem_of_nil in Hp.
  - exists cs, n. split.
    + apply rtc_once. right. destruct Hx as (name & p & -> & Hp & [->|[label ->]]); unfold over; cbn; rewrite Hp.
      * apply (ProbeWatch.c_ready (STALL_SELECTOR o) (over cs n w)).
      * apply (ProbeWatch.c_success (STALL_SELECTOR o) (over cs n w) label).
    + split; cbn; [by apply q_plain| |done|].
      2: { intros Hd Hf. eapply covered_file; [exact Hq|by apply Hcov| |by intros call ->; apply other_not_remove in Hx].
        intros call sel ph Hc Hph. right. split; [by intros ->; apply other_not_remove in Hx|left; eauto]. }
      intros i r Hr. eapply entry_ok_other; [done|by eapply Hret].
  - (* the pending file goes *)
    pose proof (Hpos c (ex_intro _ _ Hc)) as Hcn.
    set (ph' := match ph with InCall => PendingRemoved | _ => ClaimRemoved end).
    exists (<[c := (sel, ph')]> cs), (NEXT_CALL_ID (recorder w)). split.
    + destruct Hph as [->| ->]; unfold ph'; cbn.
      * apply rtc_once. right. apply (ProbeWatch.c_remove_pending (STALL_SELECTOR o) (over cs _ w) c sel Hc).
      * rewrite insert_id by done. unfold over, w'. cbn. rewrite delete_id; [reflexivity|].
        apply eq_None_not_Some. intros [e He].
        destruct (ProbeWatch.inv_pending _ _ _ Hinv _ e He (ProbeWatch.startswith_app _ _)) as (c' & v & Hn & Hv & HP & _).
        pose proof (Hpos c' (ex_intro _ _ Hv)). apply ProbeWatch.pending_name_inj in Hn; [|lia|lia]. subst c'.
        cbn in Hv. by simplify_eq/=.
    + split; cbn; [|intros i r Hr|done|intros Hd Hf].
      * eapply q_claimed; [by rewrite lookup_insert_eq|unfold ph'; destruct Hph as [->| ->]; auto|done].
      * eapply (entry_ok_phase _ _ (Remove (pending_name c))); [exact Hc|by intros c' _ [= ?%pending_not_claimed]|left; unfold ph'; by destruct Hph as [->| ->]|eauto| |by eapply Hret].
        repeat apply no_pending_cons. eauto.
      * eapply covered_file; [exact Hq|by apply Hcov| |by intros c' [= ?%pending_not_claimed]].
        intros c' s ph0 [[<- _]|[_ H]]%lookup_insert_Some Hph0; [left; by apply list_elem_of_here|right].
        split; [by intros [= ?%pending_not_claimed]|left; eauto].
  - (* the claimed file goes *)
    pose proof (Hpos c (ex_intro _ _ Hc)) as Hcn.
    exists (<[c := (sel, ClaimRemoved)]> cs), (NEXT_CALL_ID (recorder w)). split.
    + destruct Hph as [->| ->].
      * apply rtc_once. right. apply (ProbeWatch.c_remove_claimed (STALL_SELECTOR o) (over cs _ w) c sel Hc).
      * rewrite insert_id by done. unfold over, w'. cbn. rewrite delete_id; [reflexivity|].
        apply eq_None_not_Some. intros [e He].
        destruct (ProbeWatch.inv_claimed _ _ _ Hinv _ e He (ProbeWatch.startswith_app _ _)) as (c' & v & Hn & Hv & HP).
        pose proof (Hpos c' (ex_intro _ _ Hv)). apply ProbeWatch.claimed_name_inj in Hn; [|lia|lia]. subst c'.
        cbn in Hv. unfold ProbeWatch.claimed_ok in HP. simplify_eq/=. by destruct HP.
    + split; cbn; [|intros i r Hr|done|intros Hd Hf].
      * eapply q_returned; [by rewrite lookup_insert_eq|done].
      * eapply (entry_ok_phase _ _ (Remove (claimed_name c))); [exact Hc| |by left|done| |by eapply Hret].
        -- intros c' Hc' Hn. pose proof (Hpos c' Hc'). assert (claimed_name c = claimed_name c') as E by congruence.
           apply ProbeWatch.claimed_name_inj in E; lia.
        -- repeat apply no_pending_cons. eauto.
      * eapply covered_file; [exact Hq|by apply Hcov| |by eauto].
        intros c' s ph0 [[<- [= <- <-]]|[Hne H]]%lookup_insert_Some Hph0; [by destruct Hph0|right].
        split; [|left; eauto]. intros Hn. assert (claimed_name c = claimed_name c') as E by congruence.
        pose proof (Hpos c' (ex_intro _ _ H)). apply ProbeWatch.claimed_name_inj in E; lia.
  - (* the returned file appears *)
    destruct Hops as [[=]|(-> & t & Ht & [= -> ->])]. exists (<[c := (STALL_SELECTOR o, ReturnWritten)]> cs), (NEXT_CALL_ID (recorder w)). split.
    + apply rtc_once. right.
      pose proof (ProbeWatch.c_write_returned (STALL_SELECTOR o) (over cs (NEXT_CALL_ID (recorder w)) w) c _ t Hc Ht) as H. by rewrite Z.eqb_refl in H.
    + split; cbn; [|intros i r Hr|done|intros Hd Hf].
      * apply q_plain, e_none.
      * eapply (entry_ok_phase _ _ (Write (returned_name c) _)); [exact Hc|done|right; eauto|done| |by eapply Hret].
        intros name c' s t' tp bp [=]%list_elem_of_singleton.
      * eapply covered_file; [exact Hq|by apply Hcov| |done].
        intros c' s ph0 [[<- [= <- <-]]|[_ H]]%lookup_insert_Some Hph0; [by destruct Hph0|right]. split; [done|left; eauto].
Qed.

(** ** The callbacks refine the protocol *)

Definition idle_entry (cs : gmap Z (Z * ProbeWatch.phase)) (r : ret_config) : Prop :=
  ∃ ph, cs !! r_call r = Some (r_selector r, ph) ∧ (ph = InCall ∨ ph = ClaimRemoved).
Lemma idle_entry_ok cs n q r :
  idle_entry cs r → (∀ p, Write (returned_name (r_call r)) p ∉ q) → entry_ok cs n q r.
Proof. intros (ph & H & Hph) Hw. right. exists ph. split_and!; [done|by destruct Hph as [->| ->]|by destruct Hph as [->| ->]|done]. Qed.
(** Between callbacks. *)
Lemma sim_idle cs n w :
  sim cs n w → queue (recorder w) = [] →
  NEXT_CALL_ID (recorder w) = n ∧ ∀ i r, RET_CONFIG (recorder w) !! i = Some r → idle_entry cs r.
Proof.
  intros [Hqueue Hret _ _] Hq. rewrite Hq in Hqueue, Hret. split.
  - by inversion Hqueue as [q m He| | | |]; [inversion He|].
  - intros i r Hr. destruct (Hret i r Hr) as [(_ & t & tp & bp & H)|(ph & H1 & H2 & H3 & _)]; [by apply not_elem_of_nil in H|].
    exists ph. split; [done|]. destruct ph; auto; [by destruct H3|done].
Qed.

Lemma removals_no_pending r t : no_pending (removals (r_call r) ++ returned_file o r t).
Proof.
  repeat apply no_pending_cons. unfold returned_file. destruct (_ =? _); intros ?????? H; [|by apply not_elem_of_nil in H].
  by apply list_elem_of_singleton in H.
Qed.
Lemma sim_return cs n w i s' :
  sim cs n w → inv (over cs n w) → queue (recorder w) = [] → return_effect o (now w) i (recorder w) s' →
  sim cs n (World s' (now w) (files w) (logs w) (pc w)).
Proof.
  intros Hsim Hinv Hq. destruct (sim_idle cs n w Hsim Hq) as [Hn Hidle]. destruct Hsim as [Hqueue Hret Honce Hcov].
  assert (∀ j r, RET_CONFIG (recorder w) !! j = Some r → 0 < r_call r) as Hpos.
  { intros j r (ph & Hph & _)%Hidle. by apply (ProbeWatch.inv_calls _ _ _ Hinv _ _ Hph). }
  destruct 1 as [_ (Hc & Hr & Hn' & Hq')|r ops Hi Hr Hops Hq' Hn' Hc|r Hi Hr Hq' Hn' Hc].
  - split; cbn; rewrite ?Hr, ?Hn', ?Hq'; try done. intros Hd Hf. destruct (Hcov Hd Hf) as [H1 H2 H3 H4].
    split; by rewrite ?Hr, ?Hq', ?Hc.
  - rewrite Hq in Hq'. cbn in Hq'. destruct (Hidle i r Hi) as (ph & Hph & Hph').
    assert (∀ j r', RET_CONFIG s' !! j = Some r' →
      ∃ r0, RET_CONFIG (recorder w) !! j = Some r0 ∧ r_call r' = r_call r0 ∧ r_selector r' = r_selector r0) as Hold.
    { intros j r'. rewrite Hr, lookup_insert_Some. intros [[<- <-]|[_ H]]; eauto. }
    split; cbn; rewrite ?Hn', ?Hq', ?Hn.
    + destruct Hops as [->|[_ ->]]; [apply q_plain, e_none|].
      rewrite <-(app_nil_r (removals _)). eapply q_pending; [exact Hph|done|by left].
    + intros j r' (r0 & (ph0 & H0 & H0')%Hidle & H1 & H2)%Hold. apply idle_entry_ok; [exists ph0; by rewrite H1, H2|].
      intros p Hp. destruct Hops as [->|[_ ->]]; [by apply not_elem_of_nil in Hp|]. unfold removals in Hp.
      by apply elem_of_cons in Hp as [?|Hp%list_elem_of_singleton].
    + intros j1 j2 r1 r2 (r1' & E1 & E1' & _)%Hold (r2' & E2 & E2' & _)%Hold E. apply (Honce j1 j2 r1' r2'); congruence.
    + intros Hd Hf. eapply covered_hit; [exact Hq|by apply Hcov| |by left| |by rewrite Hc|].
      * intros j r0 Hj. left. rewrite Hr. destruct (decide (i = j)) as [<-|].
        -- exists i, (hit_again r). rewrite lookup_insert_eq. by simplify_eq.
        -- exists j, r0. by rewrite lookup_insert_ne.
      * intros ?????? Hin. rewrite Hq' in Hin. destruct Hops as [->|[_ ->]]; [by apply not_elem_of_nil in Hin|].
        unfold removals in Hin. by apply elem_of_cons in Hin as [?|?%list_elem_of_singleton].
      * intros j [r0 (r0' & E & _)%Hold]. left. eauto.
  - rewrite Hq in Hq'. cbn in Hq'. destruct (Hidle i r Hi) as (ph & Hph & Hph'). split; cbn; rewrite ?Hn', ?Hq', ?Hn, ?Hr.
    + destruct (EVENT_DIR o); [|apply q_plain, e_none]. eapply q_pending; [exact Hph|done|].
      unfold returned_file. destruct (_ =? _) eqn:Es; [right|by left]. apply Z.eqb_eq in Es. split; [done|]. by exists (now w).
    + intros j r' [Hji Hj]%lookup_delete_Some. apply idle_entry_ok; [by eapply Hidle|].
      intros p Hp. destruct (EVENT_DIR o); [|by apply not_elem_of_nil in Hp].
      unfold removals, returned_file in Hp. destruct (_ =? _); cbn in Hp; rewrite !elem_of_cons, elem_of_nil in Hp.
      * destruct Hp as [?|[?|[E|?]]]; try done.
        assert (returned_name (r_call r') = returned_name (r_call r)) as En by congruence.
        apply ProbeWatch.returned_name_inj in En; [|by apply Z.lt_le_incl; eapply Hpos..].
        destruct Hji. by apply (Honce i j r r').
      * by destruct Hp as [?|[?|?]].
    + intros j1 j2 r1 r2 [_ H1]%lookup_delete_Some [_ H2]%lookup_delete_Some. by apply Honce.
    + intros Hd Hf. rewrite Hd in Hq'. eapply covered_hit; [exact Hq|by apply Hcov| |by left| |by rewrite Hc|].
      * intros j r0 Hj. destruct (decide (i = j)) as [<-|].
        -- right. rewrite Hq'. simplify_eq. unfold removals. cbn. rewrite !elem_of_cons. auto.
        -- left. exists j, r0. by rewrite Hr, lookup_delete_ne.
      * intros ?????? Hin. rewrite Hq' in Hin. by apply removals_no_pending in Hin.
      * intros j [r0 Hj]. rewrite Hr in Hj. apply lookup_delete_Some in Hj as [_ Hj]. left. eauto.
Qed.

Lemma other_writes ops : at_most_one other_write ops → ∀ x, x ∈ ops → other_write x.
Proof. intros [->|(x & -> & Hx)] y; [by intros ?%not_elem_of_nil|by intros ->%list_elem_of_singleton]. Qed.
Lemma queue_ok_others clock cs n ops q m :
  at_most_one other_write ops → entering clock n q m → queue_ok clock cs n (ops ++ q) m.
Proof. intros [->|(x & -> & Hx)] He; [by apply q_plain|by apply q_other]. Qed.
Lemma no_returned ops clock n q m :
  at_most_one other_write ops → entering clock n q m → ∀ call p, Write (returned_name call) p ∉ ops ++ q.
Proof.
  intros Ho He call p [H|H]%elem_of_app; [by apply other_writes, other_not_returned in H|].
  destruct He as [|t tp bp _]; [by apply not_elem_of_nil in H|]. apply list_elem_of_singleton in H. injection H as H _.
  done.
Qed.

Lemma sim_break cs n w s' :
  sim cs n w → inv (over cs n w) → queue (recorder w) = [] → break_effect o alloc (now w) (recorder w) s' →
  let w' := World s' (now w) (files w) (logs w) (pc w) in
  ∃ cs' n', rtc astep (over cs n w) (over cs' n' w') ∧ sim cs' n' w'.
Proof.
  intros Hsim Hinv Hq Heff w'. destruct (sim_idle cs n w Hsim Hq) as [Hn Hidle]. destruct Hsim as [Hqueue Hret Honce Hcov].
  assert (∀ c v, cs !! c = Some v → 0 < c < n) as Hpos by apply (ProbeWatch.inv_calls _ _ _ Hinv).
  assert (∀ j r, RET_CONFIG (recorder w) !! j = Some r → r_call r ≠ n) as Hold.
  { intros j r (ph & Hph & _)%Hidle E. rewrite E in Hph. apply Hpos in Hph. lia. }
  destruct Heff as [ops Hq' Ho Hr Hn' Hc|ops i r pending Hq' Ho Hr Hcall Hn' Hi Hp Hsize]; rewrite Hq in Hq'; cbn in Hq'.
  - exists cs, n. split; [reflexivity|]. split; cbn; rewrite ?Hr, ?Hn', ?Hq', ?Hn.
    + rewrite <-(app_nil_r ops). by apply queue_ok_others, e_none.
    + intros j r Hj. apply idle_entry_ok; [by eapply Hidle|]. intros p Hp.
      by apply (other_writes _ Ho), other_not_returned in Hp.
    + done.
    + intros Hd Hf. eapply covered_hit; [exact Hq|by apply Hcov| |by left| |by rewrite Hc|rewrite Hr; auto].
      * intros j r Hj. left. rewrite Hr. eauto.
      * intros ?????? Hin. rewrite Hq' in Hin. by apply (other_writes _ Ho), other_not_pending in Hin.
  - assert (∀ j1 j2 r1 r2, RET_CONFIG s' !! j1 = Some r1 → RET_CONFIG s' !! j2 = Some r2 → r_call r1 = r_call r2 → j1 = j2) as Honce'.
    { intros j1 j2 r1 r2. rewrite Hr, !lookup_insert_Some. intros [[<- <-]|[_ H1]] [[<- <-]|[_ H2]] E; [done| | |by apply (Honce j1 j2 r1 r2)].
      - apply Hold in H2. congruence.
      - apply Hold in H1. congruence. }
    assert (EVENT_DIR o = true → fresh → ∀ cs',
      (∀ call sel ph, cs' !! call = Some (sel, ph) → cs !! call = Some (sel, ph) ∨ call = n ∧ sel = r_selector r) → covered cs' s') as Hcov'.
    { intros Hd Hf cs' Hcs. pose proof (Hcov Hd Hf) as Hc. destruct (Hf _ (cov_created _ _ Hc)) as (i' & Ha & Hfr).
      destruct Hi as [[? _]|[E Hcr]]; [congruence|]. rewrite Ha in E. injection E as ->.
      assert (RET_CONFIG (recorder w) !! i = None) as Hnew.
      { apply eq_None_not_Some. intros (k & Hk & Hik)%(cov_ids _ _ Hc). apply Hfr in Hik; lia. }
      assert (watched (RET_CONFIG s') (queue s') n (r_selector r)) as Hself.
      { left. exists i, r. by rewrite Hr, lookup_insert_eq, Hcall, Hn. }
      eapply covered_hit; [exact Hq|exact Hc| | | |lia|].
      - intros j r0 Hj. left. exists j, r0. rewrite Hr, lookup_insert_ne; [done|]. by intros ->; congruence.
      - intros call sel ph [?|[-> ->]]%Hcs; [by left|by right].
      - intros ?????? Hin. rewrite Hq' in Hin.
        apply elem_of_app in Hin as [Hin|Hin]; [by apply (other_writes _ Ho), other_not_pending in Hin|].
        destruct Hp as [->|(_ & ? & ? & ->)]; [by apply not_elem_of_nil in Hin|].
        apply list_elem_of_singleton in Hin. injection Hin as _ -> -> _ _ _. by rewrite Hcall, Hn.
      - intros j [r0 Hj]. rewrite Hr in Hj. apply lookup_insert_Some in Hj as [[<- _]|[_ Hj]]; [right|left; eauto].
        exists (created (recorder w)). split; [|done]. pose proof (cov_created _ _ Hc). lia. }
    destruct Hp as [->|(Hsel & tp & bp & ->)].
    + exists (<[n := (r_selector r, InCall)]> cs), (n + 1). split.
      { apply rtc_once. right.
        apply (ProbeWatch.c_enter (STALL_SELECTOR o) (over cs n w) (r_selector r) (now w) false). cbn. lia. }
      split; cbn; rewrite ?Hn', ?Hq', ?Hn; [by apply queue_ok_others, e_none| |done|].
      2: { intros Hd Hf. apply Hcov'; [done|done|]. intros call sel ph [[<- [= <- _]]|[_ ?]]%lookup_insert_Some; auto. }
      intros j r' Hj. rewrite Hr in Hj. apply idle_entry_ok; [|by apply (no_returned ops (now w) n [] n Ho (e_none _ _))].
      apply lookup_insert_Some in Hj as [[<- <-]|[_ Hj]].
      * exists InCall. rewrite Hcall, Hn, lookup_insert_eq. auto.
      * destruct (Hidle j r' Hj) as (ph & H1 & H2). exists ph. rewrite lookup_insert_ne; [done|]. intros E. by apply (Hold j r').
    + exists cs, n. split; [reflexivity|]. rewrite Hcall, Hn in Hq'.
      assert (entering (now w) n [Write (pending_name n) (PPending n (r_selector r) (now w) tp bp)] (n + 1)) as He.
      { rewrite Hsel. apply e_call. lia. }
      split; cbn; rewrite ?Hn', ?Hq', ?Hn; [by apply queue_ok_others| |done|by intros; apply Hcov'; auto].
      intros j r' Hj. rewrite Hr in Hj. apply lookup_insert_Some in Hj as [[<- <-]|[_ Hj]].
      * left. rewrite Hcall, Hn. split; [done|]. exists (now w), tp, bp. apply elem_of_app. right. by apply list_elem_of_here.
      * apply idle_entry_ok; [by eapply Hidle|]. by apply (no_returned ops (now w) n _ _ Ho He).
Qed.

Lemma sim_step cs n w w' :
  sim cs n w → inv (over cs n w) → step w w' → ∃ cs' n', rtc astep (over cs n w) (over cs' n' w') ∧ sim cs' n' w'.
Proof.
  intros Hsim Hinv Hstep. destruct Hstep as [w w' Hw Hrec|w i a c writable f Hq Hb Hf|w op ops Hq|w t Ht].
  - exists cs, n. split; [apply rtc_once; left; by apply wstep_over|]. destruct Hsim.
    assert (now w' = now w) as Hnow.
    { by apply wstep_clock in Hw. }
    split; by rewrite ?Hrec, ?Hnow.
  - destruct c; cbn [run_callback].
    + apply sim_break; [done|done|done|]. rewrite <-Hf. apply on_break_effect.
    + exists cs, n. split; [reflexivity|]. eapply sim_return; [done|done|done|]. rewrite <-Hf. apply on_return_effect.
  - by eapply sim_file.
  - exists cs, n. split; [apply rtc_once; right; by apply (ProbeWatch.c_time _ (over cs n w))|].
    destruct Hsim as [Hqueue Hret Honce Hcov]. split; cbn; [|done|done|done]. by eapply queue_ok_later.
Qed.

(** Installing plants no return watch. *)
Definition still (s s' : state) : Prop :=
  created s ≤ created s' ∧ RET_CONFIG s' = RET_CONFIG s ∧ NEXT_CALL_ID s' = NEXT_CALL_ID s ∧ queue s' = queue s.
#[local] Instance still_preorder : PreOrder still.
Proof. split; [intros s; by repeat split|]. intros s1 s2 s3 (?&?&?&?) (?&?&?&?). unfold still. split_and!; [lia|congruence..]. Qed.
#[local] Instance still_create a : Leads still (create alloc a).
Proof. intros s. unfold create. destruct (alloc _); repeat split; cbn; lia. Qed.
#[local] Instance still_config (f : state → gmap Z config) : Leads still (update (λ s, set_config (f s) s)).
Proof. intros s. by repeat split. Qed.
#[local] Instance still_attach i c : Leads still (attach i c).
Proof. intros s. by repeat split. Qed.
#[local] Instance still_print l : Leads still (print l).
Proof. intros s. by repeat split. Qed.
#[local] Instance still_install_one attached e : Leads still (install_one slide alloc attached e).
Proof. unfold install_one. apply _. Qed.

Lemma sim_start writable attached t ws :
  sim ∅ 1 (World (install o slide alloc writable attached t new_state).2 t ∅ ws ProbeWatch.Logs).
Proof.
  assert (∀ s ops, still new_state s → queue_ok t ∅ 1 ops 1 → no_pending ops →
    sim ∅ 1 (World (set_queue ops s) t ∅ ws ProbeWatch.Logs)) as H0.
  { intros s ops (Hc & Hr & Hn & Hq) Hops Hno. split; cbn; rewrite ?Hr, ?Hn; try done. intros _ _.
    split; cbn; rewrite ?Hr; [done| |done|by intros i [r Hi]]. intros ?????? H. by apply Hno in H. }
  assert (∀ s, still new_state s → sim ∅ 1 (World s t ∅ ws ProbeWatch.Logs)) as H1.
  { intros s Hs. pose proof Hs as (_ & _ & _ & Hq). specialize (H0 s [] Hs (q_plain _ _ _ _ _ (e_none _ _))).
    destruct s; cbn in *; subst. apply H0. by intros ?????? ?%not_elem_of_nil. }
  apply (after_state _ (λ s, sim ∅ 1 (World s t ∅ ws ProbeWatch.Logs))). unfold install.
  assert (Leads still (for_each (install_one slide alloc attached) ENTRIES)) as Hl by apply _.
  apply wp_bind. unfold wp at 1. specialize (Hl new_state).
  destruct (for_each _ _ new_state) as [[[]|e] s]; [|by apply H1]. cbn [snd] in Hl.
  apply write_event_effect; [by apply H1|]. pose proof Hl as (_ & _ & _ & Hq). rewrite Hq. apply H0; [done| |].
  - apply q_other; [|apply e_none]. eexists _, _. split_and!; [done|done|by left].
  - by intros ?????? ?%list_elem_of_singleton.
Qed.

Lemma reachable_sim ws w : reachable ws w → ∃ cs n, areachable ws (over cs n w) ∧ sim cs n w.
Proof.
  induction 1 as [writable attached|w w' _ (cs & n & Ha & Hs) Hstep].
  - exists ∅, 1. split; [apply ProbeWatch.reach_start|apply sim_start].
  - destruct (sim_step cs n w w' Hs (ProbeWatch.reachable_inv _ _ _ _ _ _ _ Ha) Hstep) as (cs' & n' & Hr & Hs').
    exists cs', n'. split; [|done]. clear Hs Hs' Hstep. induction Hr as [|a a' a'' Hr _ IH]; [done|].
    apply IH. by eapply ProbeWatch.reach_step.
Qed.

(** C3: The callbacks implement the protocol the watcher was verified against.
    Whatever the debugger's hits, the files that cannot be written and the
    interleaving of the callbacks' file operations with the watcher, every
    state the recorder and the watcher reach together is a reachable state of
    the protocol: the same time, directory and watcher, and a table of calls
    in which every return watch belongs to a call whose callback is not
    through. *)
Theorem recorder_refines_protocol ws w :
  reachable ws w →
  ∃ cs n, areachable ws (over cs n w)
    ∧ ∀ i r, RET_CONFIG (recorder w) !! i = Some r → entry_ok cs n (queue (recorder w)) r.
Proof. intros (cs & n & Ha & Hs)%reachable_sim. exists cs, n. split; [done|]. apply (sim_ret _ _ _ Hs). Qed.

Lemma step_pc w w' :
  step w w' → pc w' = pc w ∨ wstep (seen w) (seen w').
Proof. destruct 1; auto. Qed.

(** C4: The probe never stops the guest for a call that has returned.  With
    distinct breakpoint identifiers, in every interleaving of the callbacks
    with the watcher, the step that asks for a deadline stop names a call that
    was pending for the limit and that is still inside: its return watch is
    planted, or the callback of its return is removing its files. *)
Theorem recorder_stop_sound ws w w' call age :
  EVENT_DIR o = true → fresh → reachable ws w → step w w' →
  pc w' = ProbeWatch.StopDeadline call age → pc w ≠ ProbeWatch.StopDeadline call age →
  pending_secs ≤ age ∧ watched (RET_CONFIG (recorder w)) (queue (recorder w)) call selector.
Proof.
  intros Hd Hf (cs & n & Ha & Hs)%reachable_sim Hstep Hpc' Hpc.
  destruct (step_pc w w' Hstep) as [?|Hw%(wstep_over cs n)]; [congruence|].
  destruct (ProbeWatch.stop_deadline_sound selector pending_secs max_secs started_at (STALL_SELECTOR o) ws _ _ call age Ha
    (or_introl Hw) Hpc' Hpc) as (Hage & ph & Hc & Hph).
  split; [done|]. by apply (cov_calls _ _ (sim_covered _ _ _ Hs Hd Hf) call selector ph).
Qed.
End refinement.

(** ** Bounds *)

Section bounds.
Variable o : options.
Variable slide : Z.
Variable alloc : Z → option Z.
Hypothesis Hfresh : fresh alloc.

Definition known (s : state) (i : Z) : Prop := ∃ k, 0 ≤ k < created s ∧ alloc k = Some i.
(** A breakpoint that counts its hits whatever happens. *)
Definition counted (c : config) : Prop := (c_label c ∉ SUCCESS_LABELS o) ∧ c_label c ≠ u "SRV_THREAD_ENTRY".
Definition enabled_at (s : state) (i : Z) : Prop := ∃ a c, bps s !! i = Some (Breakpoint a c true).
Definition hits_of (s : state) (i : Z) : Z := default 0 (HITS s !! i).

(** The installed breakpoints and their counts stay as they are. *)
Record tame (s s' : state) : Prop := {
  ta_config : CONFIG s' = CONFIG s;
  ta_hits : HITS s' = HITS s;
  ta_created : created s ≤ created s';
  ta_known : ∀ i, known s i → RET_CONFIG s !! i = None → bps s' !! i = bps s !! i ∧ RET_CONFIG s' !! i = None;
  ta_size : (size (RET_CONFIG s) ≤ 48)%nat → (size (RET_CONFIG s') ≤ 48)%nat;
}.
Lemma known_later s s' i : created s ≤ created s' → known s i → known s' i.
Proof. intros H (k & Hk & Ha). exists k. split; [lia|done]. Qed.
#[local] Instance tame_preorder : PreOrder tame.
Proof.
  split; [by intros s; split|]. intros s1 s2 s3 [A1 A2 A3 A4 A5] [B1 B2 B3 B4 B5].
  split; [congruence|congruence|lia| |auto].
  intros i Hk Hr. destruct (A4 i Hk Hr) as [Hb Hr']. destruct (B4 i) as [Hb' ?]; [by eapply known_later|done|].
  split; [congruence|done].
Qed.
#[local] Instance tame_print l : Leads tame (print l).
Proof. intros s. by split. Qed.
#[local] Instance tame_server v : Leads tame (update (set_server v)).
Proof. intros s. by split. Qed.
#[local] Instance tame_next : Leads tame (update (λ s, set_next (NEXT_CALL_ID s + 1) s)).
Proof. intros s. by split. Qed.
#[local] Instance tame_push p : Leads tame (push p).
Proof. intros s. by split. Qed.
#[local] Instance tame_write_event w name p : Leads tame (write_event o w name p).
Proof. unfold write_event. apply _. Qed.
#[local] Instance tame_remove_event name : Leads tame (remove_event o name).
Proof. unfold remove_event. apply _. Qed.
#[local] Instance tame_note_server f c : Leads tame (note_server slide f c).
Proof. unfold note_server. apply _. Qed.

(** A return watch gets an identifier no installed breakpoint has. *)
Lemma tame_plant w f lr label tp call sel s :
  (size (RET_CONFIG s) < 48)%nat → 0 ≤ created s →
  after (plant_return o alloc w f lr label tp call sel) (tame s) s.
Proof.
  intros Hsize H0. unfold plant_return. destruct (Hfresh _ H0) as (i & Ha & Hi). apply wp_bind. unfold create, wp. rewrite Ha.
  set (s1 := State _ _ _ _ _ _ _ _ _). apply wp_bind, wp_update, wp_bind, wp_update. set (s2 := set_ret _ _).
  assert (tame s s2) as H2.
  { split; cbn; [done|done|lia| |].
    - intros j (k & Hk & Hj) Hr. assert (j ≠ i) as Hne by (intros ->; apply Hi in Hj; lia).
      by rewrite lookup_alter_ne, !lookup_insert_ne by done.
    - intros _. rewrite map_size_insert. destruct (RET_CONFIG s !! i); cbn; lia. }
  clearbody s2. destruct (_ =? _); [|by apply wp_ret]. apply (leads_last tame); [apply _|]. intros s' H. by etrans.
Qed.
Lemma tame_watch_return w f c s : 0 ≤ created s → after (watch_return o alloc w f c) (tame s) s.
Proof.
  intros H0. unfold watch_return. apply wp_bind, wp_gets, wp_when; intros Hw; [|by split].
  apply andb_prop in Hw as [_ Hsize]. apply Z.ltb_lt in Hsize.
  apply after_try; [|intros s' Hs'; apply (leads_last tame); [apply _|]; intros s'' ?; by etrans].
  apply wp_bind, wp_gets, wp_bind, wp_update, wp_bind, wp_update.
  eapply (wp_mono _ (λ _, _) _ (λ _, _)); [apply tame_plant; cbn; [lia|done]| |].
  all: intros _ s' H; etrans; [|exact H]; by split.
Qed.
Lemma tame_on_return w f i s : is_Some (RET_CONFIG s !! i) → after (on_return o slide w f i) (tame s) s.
Proof.
  intros Hi. unfold on_return. apply wp_bind, wp_gets. destruct Hi as [r Hr]. rewrite Hr. apply wp_bind, wp_update.
  set (s1 := set_ret _ s).
  assert (tame s s1) as H1.
  { split; cbn; [done|done|lia| |].
    - intros j _ Hj. rewrite lookup_insert_ne by (by intros ->; congruence). done.
    - rewrite map_size_insert, Hr. done. }
  destruct (negb _); [by apply wp_ret|]. clearbody s1.
  do 7 (apply (leads_then tame); [apply _|intros ? ?; by etrans|]; intros [] sx H; rewrite <-H1 in H; clear s1 H1;
        rename sx into s1, H into H1).
  apply wp_bind, wp_update, wp_bind, wp_update, wp_ret. destruct H1 as [H1 H2 H3 H4 H5]. split; cbn; [done|done|done| |].
  - intros j Hk Hj. assert (j ≠ i) by (intros ->; congruence). by rewrite !lookup_delete_ne by done; apply H4.
  - intros H%H5. rewrite map_size_delete. destruct (RET_CONFIG s1 !! i); unfold id; lia.
Qed.

(** The installed breakpoints: known to the debugger, no return watch of the
    same number, and those that count are disabled at their limit. *)
Definition below (s : state) (i : Z) (c : config) : Prop :=
  hits_of s i ≤ c_limit c ∧ (enabled_at s i → hits_of s i < c_limit c).
Record bounded (s : state) : Prop := {
  bo_created : 0 ≤ created s;
  bo_size : (size (RET_CONFIG s) ≤ 48)%nat;
  bo_known : ∀ i c, CONFIG s !! i = Some c → known s i ∧ RET_CONFIG s !! i = None ∧ 0 < c_limit c;
  bo_hits : ∀ i c, CONFIG s !! i = Some c → counted c → below s i c;
}.
Lemma bounded_tame s s' : tame s s' → bounded s → bounded s'.
Proof.
  intros [T1 T2 T3 T4 T5] [B1 B2 B3 B4]. split; [lia|auto| |].
  - intros i c Hi. rewrite T1 in Hi. destruct (B3 i c Hi) as (Hk & Hr & Hl). split_and!; [by eapply known_later|by apply T4|done].
  - intros i c Hi Hc. rewrite T1 in Hi. destruct (B4 i c Hi Hc) as [H1 H2]. destruct (B3 i c Hi) as (Hk & Hr & _).
    unfold below, hits_of, enabled_at in *. rewrite T2. by rewrite (proj1 (T4 i Hk Hr)).
Qed.

(** One more hit of a breakpoint below its limit, which is disabled when the
    limit is reached. *)
Lemma bounded_hit s s1 s' i c :
  bounded s → CONFIG s !! i = Some c → tame (set_hits (<[i := hits_of s i + 1]> (HITS s)) s) s1 →
  s' = s1 ∨ (∃ l, s' = set_out l (disable i s1).2) →
  (counted c → hits_of s i < c_limit c ∧ (c_limit c ≤ hits_of s i + 1 → ∃ l, s' = set_out l (disable i s1).2)) →
  bounded s'.
Proof.
  intros [B1 B2 B3 B4] Hi [T1 T2 T3 T4 T5] Hs' Hc. cbn in *.
  assert (CONFIG s' = CONFIG s ∧ HITS s' = <[i := hits_of s i + 1]> (HITS s) ∧ created s' = created s1 ∧ RET_CONFIG s' = RET_CONFIG s1)
    as (E1 & E2 & E3 & E4) by (by destruct Hs' as [->|[l ->]]).
  split; [lia|rewrite E4; auto| |].
  - intros j d Hj. rewrite E1 in Hj. rewrite E4. destruct (B3 j d Hj) as (Hk & Hr & Hl).
    split_and!; [eapply (known_later s); [lia|done]|by apply T4|done].
  - intros j d Hj Hd. rewrite E1 in Hj. unfold below. destruct (B4 j d Hj Hd) as [H1 H2]. destruct (B3 j d Hj) as (Hk & Hr & _).
    destruct (decide (i = j)) as [<-|Hne].
    + rewrite Hi in Hj. injection Hj as ->. destruct (Hc Hd) as [Hlt Hdis]. unfold hits_of at 1 2. rewrite E2, lookup_insert_eq. cbn.
      split; [lia|]. intros (a & cb & He).
      destruct (decide (c_limit d ≤ hits_of s i + 1)) as [Hle|]; [|lia]. destruct (Hdis Hle) as [l ->]. cbn in He.
      rewrite lookup_alter_eq in He. destruct (bps s1 !! i); by simplify_eq/=.
    + assert (bps s' !! j = bps s !! j) as Eb.
      { rewrite <-(proj1 (T4 j Hk Hr)). destruct Hs' as [->|[l ->]]; [done|]. cbn. by rewrite lookup_alter_ne. }
      unfold hits_of, enabled_at in *. by rewrite E2, lookup_insert_ne, Eb by done.
Qed.

Lemma watch_errors_caught m s : ∃ s', try_except m (print LWatchError) s = (Ok (), s').
Proof. unfold try_except. destruct (m s) as [[[]|e] s']; by eexists. Qed.
Lemma bounded_on_break w f i s : bounded s → enabled_at s i → after (on_break o slide alloc w f i) bounded s.
Proof.
  intros Hs He. unfold on_break. apply wp_bind, wp_gets, wp_bind. change (id s) with s. destruct (CONFIG s !! i) as [c|] eqn:Hi; [|done].
  apply wp_lift; [|done]. intros ? [= <-]. destruct (negb _); [by apply wp_ret|]. apply wp_bind, wp_update.
  change (default 0 (HITS s !! i) + 1) with (hits_of s i + 1). set (s1 := set_hits _ s).
  assert (counted c → hits_of s i < c_limit c) as Hlt. { intros Hc. by apply (bo_hits s Hs i c Hi Hc). }
  assert (∀ s2, tame s1 s2 → ¬ counted c → bounded s2) as Hexit.
  { intros s2 H2 Hc. eapply bounded_hit; [exact Hs|exact Hi|exact H2|by left|done]. }
  assert (∀ (m : DM ()) (g : () → DM bool) s2,
    tame s1 s2 → after m (tame s2) s2 → (counted c → ∃ a s', m s2 = (Ok a, s')) →
    (∀ s3, tame s1 s3 → after (g ()) bounded s3) → after (m ≫= g) bounded s2) as Hthen.
  { intros m g s2 H2 Hm Hok Hg. apply wp_bind. unfold after, wp in Hm |- *. destruct (m s2) as [[[]|e] s3].
    - apply Hg. by etrans.
    - apply Hexit; [by etrans|]. intros Hc. by destruct (Hok Hc) as (a & s' & [=]). }
  assert (∀ m : DM (), Leads tame m → ∀ s2, after m (tame s2) s2) as Hl.
  { intros m Hm s2. apply (leads_last tame); [done|auto]. }
  apply Hthen; [done|apply Hl, _| |intros s2 H2].
  { intros [_ Hc]. unfold note_server, mbind, se_bind, gets. rewrite (bool_decide_false (c_label c = _)) by done. by eexists _, _. }
  do 4 (apply Hthen; [done|apply Hl, _|by eexists _, _|]; clear s2 H2; intros s2 H2).
  apply Hthen; [done|apply Hl, _| |clear s2 H2; intros s2 H2].
  { intros [Hc _]. unfold when. rewrite bool_decide_false by done. by eexists _, _. }
  apply Hthen; [done|apply Hl, _|unfold when; case_match; by eexists _, _|clear s2 H2; intros s2 H2].
  apply Hthen; [done|apply tame_watch_return| |clear s2 H2; intros s2 H2].
  { destruct Hs, H2 as [_ _ H2]. cbn in H2. lia. }
  { intros _. unfold watch_return, mbind, se_bind, gets, when. destruct (_ && _); [|by eexists _, _].
    exists (). apply watch_errors_caught. }
  apply wp_bind. unfold when. destruct (c_limit c <=? hits_of s i + 1) eqn:El; [apply Z.leb_le in El|apply Z.leb_gt in El].
  - apply wp_bind, wp_update, wp_update, wp_ret. eapply bounded_hit; [exact Hs|exact Hi|exact H2|right|].
    + by eexists.
    + intros Hc. split; [auto|]. intros _. by eexists.
  - apply wp_ret, wp_ret. eapply bounded_hit; [exact Hs|exact Hi|exact H2|by left|]. intros Hc. split; [auto|lia].
Qed.

Definition unused (s : state) : Prop := bounded s ∧ HITS s = ∅ ∧ RET_CONFIG s = ∅.
Lemma unused_install_one attached e s :
  unused s → 0 < c_limit e.2 → after (install_one slide alloc attached e) unused s.
Proof.
  intros (Hs & Hh & Hr) Hl. unfold install_one. apply wp_bind, wp_gets, wp_bind.
  destruct (Hfresh _ (bo_created s Hs)) as (i & Ha & Hi). change (id s) with s. rewrite Ha, bool_decide_false by done.
  apply wp_ret, wp_bind. unfold create, wp. rewrite Ha. apply wp_bind, wp_update. set (s1 := set_config _ _).
  assert (unused s1) as Hu.
  { destruct Hs as [B1 B2 B3 B4]. split_and!; [|done|done]. split; cbn; [lia|done| |].
    - intros j c [[<- <-]|[_ Hj]]%lookup_insert_Some.
      + split_and!; [|by rewrite Hr|done]. exists (created s). cbn. split; [lia|done].
      + destruct (B3 j c Hj) as ((k & Hk & Hka) & Hjr & Hjl). split_and!; [|done|done]. exists k. cbn. split; [lia|done].
    - intros j c Hj _. unfold below, hits_of. cbn. rewrite Hh, lookup_empty. cbn.
      apply lookup_insert_Some in Hj as [[<- <-]|[_ Hj]]; [lia|]. destruct (B3 j c Hj) as (_ & _ & ?). lia. }
  clearbody s1. clear s Hs Hh Hr Ha Hi. destruct Hu as (Hs & Hh & Hr).
  assert (unused (set_bps (alter (λ b, Breakpoint (b_address b) (Some OnBreak) (b_enabled b)) i (bps s1)) s1)) as Hu.
  { destruct Hs as [B1 B2 B3 B4]. split_and!; [|done|done]. split; cbn; [done|done|done|].
    intros j c Hj _. unfold below, hits_of. cbn. rewrite Hh, lookup_empty. cbn. destruct (B3 j c Hj) as (_ & _ & ?). lia. }
  apply wp_bind. destruct (attached _); [|by apply wp_raise]. apply wp_update, wp_update.
  destruct Hu as (Hb & Hh' & Hr'). split_and!; [|done|done]. eapply bounded_tame; [|exact Hb]. by split.
Qed.
Lemma bounded_install w attached t : bounded (install o slide alloc w attached t new_state).2.
Proof.
  apply after_state. unfold install. apply (wp_then _ _ (λ _, unused)).
  - assert (unused new_state) as H0.
    { split_and!; [|done|done]. split; cbn; [done|rewrite map_size_empty; lia|done|done]. }
    assert (Forall (λ e, 0 < c_limit e.2) ENTRIES) as Hl by (repeat constructor).
    revert H0. generalize new_state. induction Hl as [|e l He Hl IH]; intros s Hs; cbn [for_each]; [by apply wp_ret|].
    eapply (wp_then _ _ (λ _, unused)).
    + eapply (wp_mono _ (λ _, unused) _ (λ _, unused)); [by apply unused_install_one|done|by intros _ s' (? & _)].
    + intros _ s' Hs'. by apply IH.
  - intros _ s (Hs & _). apply (leads_last tame); [apply _|]. intros s' H. by eapply bounded_tame.
Qed.

(** The recorder stays within its bounds.  In every run there are at most
    48 return watches at a time, and a breakpoint that is neither a success
    label nor the server's thread entry runs at most its limit of times: it is
    disabled when the limit is reached, whatever else fails. *)
Theorem recorder_bounded selector pending_secs max_secs started_at ws w :
  reachable o slide alloc selector pending_secs max_secs started_at ws w →
  (size (RET_CONFIG (recorder w)) ≤ 48)%nat
  ∧ ∀ i c, CONFIG (recorder w) !! i = Some c → counted c → hits_of (recorder w) i ≤ c_limit c.
Proof.
  intros Hw. assert (bounded (recorder w)) as [_ Hsize _ Hhits].
  { induction Hw as [writable attached|w w' _ IH Hstep]; [apply bounded_install|].
    destruct Hstep as [w w' _ ->|w i a c writable f _ Hb _|w op ops _|w t _]; cbn; try done.
    - apply after_state. destruct c; [apply bounded_on_break; [done|by eexists _, _]|].
      cbn. destruct (RET_CONFIG (recorder w) !! i) as [r|] eqn:E.
      + eapply (wp_mono _ (λ _, tame (recorder w)) _ (λ _, tame (recorder w))); [apply tame_on_return; eauto| |];
          intros _ s' H; by eapply bounded_tame.
      + unfold on_return. apply wp_bind, wp_gets. by rewrite E.
    - eapply bounded_tame; [|exact IH]. by split. }
  split; [done|]. intros i c Hi Hc. by apply (Hhits i c).
Qed.
End bounds.

(** ** A run *)

Definition sample_options : options := Options true 0x4f [].
Definition sample_alloc (k : Z) : option Z := Some (k + 1).
Lemma sample_fresh : fresh sample_alloc.
Proof. intros k _. exists (k + 1). split; [done|]. intros k' _ [= ?]. lia. Qed.
(** backboardd calls the selector: the process name is at the pointer. *)
Definition sample_frame : frame := Frame
  (λ r, if bool_decide (r = u "x1") then Some 0x4f else if bool_decide (r = u "lr") then Some 0x1844f0000
        else if bool_decide (r = u "tpidr_el1") then Some 7 else Some 0)
  (λ a n, if a =? PROGNAME_PTR then Some (le_bytes 8 0x1000) else if a =? 0x1000 then Some (le_bytes 8 0x2000)
          else if a =? 0x2000 then Some (b "backboardd" ++ [x00]) else None)
  [] 3 5.
Lemma sample_callback :
  let s := (install sample_options 0 sample_alloc (λ _, true) (λ _, true) 0 new_state).2 in
  let s' := (on_break sample_options 0 sample_alloc (λ _, true) sample_frame 4 (set_queue [] s)).2 in
  queue s = [Write (u "ready") (PReady 0 13)] ∧ queue s' = [Write (ProbeWatch.pending_name 1) (PPending 1 0x4f 5 7 14)]
  ∧ (RET_CONFIG s' !! 14) = Some (RetConfig (u "IOCONNECT_CALL_METHOD_RET") (Some 7) 5 0x4f 0 1 0x4f) ∧ NEXT_CALL_ID s' = 2.
Proof. vm_compute. repeat split. Qed.

Abbreviation sample_reachable := (reachable sample_options 0 sample_alloc 0x4f 30 0 0 []).
Abbreviation sample_step := (step sample_options 0 sample_alloc 0x4f 30 0 0).
(** Installed; ready; the call is entered at 5, its file appears. *)
Abbreviation installed := ((install sample_options 0 sample_alloc (λ _, true) (λ _, true) 0 new_state).2).
Abbreviation entered := ((on_break sample_options 0 sample_alloc (λ _, true) sample_frame 4 (set_queue [] installed)).2).
Abbreviation pending_files := (<[ProbeWatch.pending_name 1 := Some (ProbeWatch.Event 1 0x4f 5)]> (<[u "ready" := None]> (∅ : ProbeWatch.files))).
Lemma sample_run s p a :
  sample_reachable (World s 0 ∅ [] ProbeWatch.Logs) → queue s = [Write (u "ready") p] → event_of p = None →
  bps s !! 4 = Some (Breakpoint a (Some OnBreak) true) →
  sample_reachable (World (on_break sample_options 0 sample_alloc (λ _, true) sample_frame 4 (set_queue [] s)).2 5
                      (<[u "ready" := None]> ∅) [] ProbeWatch.Logs).
Proof.
  intros Hs Hq Hp Hb. eapply r_step; [eapply r_step; [eapply r_step; [exact Hs|]|]|].
  - eapply s_file. exact Hq.
  - apply (s_time _ _ _ _ _ _ _ _ 5). cbn. lia.
  - cbn [now files logs pc recorder perform]. rewrite Hp.
    eapply (s_hit _ _ _ _ _ _ _ (World _ _ _ _ _) 4 _ OnBreak (λ _, true) sample_frame); [done|exact Hb|done].
Qed.
Lemma entered_reachable : sample_reachable (World entered 5 (<[u "ready" := None]> ∅) [] ProbeWatch.Logs).
Proof.
  pose proof sample_callback as (Hq & _). cbv zeta in Hq.
  assert (bps installed !! 4 = Some (Breakpoint 0x18efd97cc (Some OnBreak) true)) as Hb by by vm_compute.
  exact (sample_run _ _ _ (r_start _ _ _ _ _ _ _ _ (λ _, true) (λ _, true)) Hq eq_refl Hb).
Qed.
Lemma sample_pending s :
  sample_reachable (World s 5 (<[u "ready" := None]> ∅) [] ProbeWatch.Logs) →
  queue s = [Write (ProbeWatch.pending_name 1) (PPending 1 0x4f 5 7 14)] →
  sample_reachable (World (set_queue [] s) 40 pending_files [] ProbeWatch.Logs).
Proof.
  intros Hs Hq. eapply r_step; [eapply r_step; [exact Hs|eapply s_file; exact Hq]|].
  apply (s_time _ _ _ _ _ _ _ (World _ _ _ _ _) 40). cbn. lia.
Qed.
(** The watcher's moves from there. *)
Lemma watcher_over sel ps ms st s s' :
  ProbeWatch.watcher sel ps ms st s = Some s' →
  ProbeWatch.calls s' = ProbeWatch.calls s ∧ ProbeWatch.next_call s' = ProbeWatch.next_call s.
Proof.
  unfold ProbeWatch.watcher. destruct (ProbeWatch.at_ s) as [| |? [|] [|]| | | | | | | |]; intros;
    repeat case_match; by simplify_eq/=.
Qed.
Lemma reachable_watch o slide alloc sel ps ms st ws n w s' :
  reachable o slide alloc sel ps ms st ws w → ProbeWatch.iterate sel ps ms st n (seen w) = Some s' →
  reachable o slide alloc sel ps ms st ws
    (World (recorder w) (ProbeWatch.clock s') (ProbeWatch.dir s') (ProbeWatch.watches s') (ProbeWatch.at_ s')).
Proof.
  revert w. induction n as [|n IH]; intros w Hw H; cbn [ProbeWatch.iterate] in H; [injection H as <-; by destruct w|].
  destruct (ProbeWatch.watcher sel ps ms st (seen w)) as [s1|] eqn:E; [|done]. cbn in H.
  pose proof (watcher_over _ _ _ _ _ _ E) as [Ec En].
  apply (IH (World (recorder w) (ProbeWatch.clock s1) (ProbeWatch.dir s1) (ProbeWatch.watches s1) (ProbeWatch.at_ s1))).
  - eapply r_step; [exact Hw|]. apply s_watcher; [|done]. apply ProbeWatch.w_next. rewrite E. f_equal.
    destruct s1. cbn in *. by subst.
  - unfold seen. cbn. destruct s1. cbn in *. by subst.
Qed.
(** A world in which the call has been pending for 35 ms. *)
Lemma overdue_from s :
  sample_reachable (World s 5 (<[u "ready" := None]> ∅) [] ProbeWatch.Logs) →
  queue s = [Write (ProbeWatch.pending_name 1) (PPending 1 0x4f 5 7 14)] →
  (∃ r, RET_CONFIG s !! 14 = Some r ∧ r_call r = 1) →
  ∃ w, sample_reachable w ∧ seen w = ProbeWatch.System 40 pending_files ∅ 1 [] ProbeWatch.Logs
    ∧ (∃ r, RET_CONFIG (recorder w) !! 14 = Some r ∧ r_call r = 1) ∧ queue (recorder w) = [].
Proof.
  intros Hs Hq Hr. exists (World (set_queue [] s) 40 pending_files [] ProbeWatch.Logs).
  split; [by apply sample_pending|]. by split_and!.
Qed.
Lemma overdue_world :
  ∃ w, sample_reachable w ∧ seen w = ProbeWatch.System 40 pending_files ∅ 1 [] ProbeWatch.Logs
    ∧ (∃ r, RET_CONFIG (recorder w) !! 14 = Some r ∧ r_call r = 1) ∧ queue (recorder w) = [].
Proof.
  pose proof sample_callback as (_ & Hq & Hr & _). cbv zeta in Hq, Hr.
  exact (overdue_from _ entered_reachable Hq (ex_intro _ _ (conj Hr eq_refl))).
Qed.
Lemma recorder_refines_protocol_witness :
  ∃ w cs n, (∃ r, RET_CONFIG (recorder w) !! 14 = Some r ∧ r_call r = 1)
    ∧ ProbeWatch.reachable 0x4f 30 0 0 (STALL_SELECTOR sample_options) [] (over cs n w)
    ∧ ∀ i r, RET_CONFIG (recorder w) !! i = Some r → entry_ok cs n (queue (recorder w)) r.
Proof.
  destruct overdue_world as (w & Hw & _ & Hr & _).
  destruct (recorder_refines_protocol sample_options 0 sample_alloc 0x4f 30 0 0 [] w Hw) as (cs & n & H1 & H2).
  by exists w, cs, n.
Defined.
Lemma recorder_bounded_witness :
  ∃ w, (∃ r, RET_CONFIG (recorder w) !! 14 = Some r ∧ r_call r = 1) ∧ (size (RET_CONFIG (recorder w)) ≤ 48)%nat
    ∧ ∀ i c, CONFIG (recorder w) !! i = Some c → counted sample_options c → hits_of (recorder w) i ≤ c_limit c.
Proof.
  destruct overdue_world as (w & Hw & _ & Hr & _). exists w. split; [done|].
  apply (recorder_bounded sample_options 0 sample_alloc sample_fresh 0x4f 30 0 0 [] w Hw).
Defined.
(** The listing, and the watcher's moves to the stop. *)
Lemma stopping_world :
  ∃ w w', sample_reachable w ∧ sample_step w w' ∧ pc w' = ProbeWatch.StopDeadline 1 35
    ∧ pc w = ProbeWatch.StillClaimed 40 1 5.
Proof.
  destruct overdue_world as (w & Hw & Hs & _ & _). destruct w as [r t d ws p]. unfold seen in Hs. cbn in Hs.
  injection Hs as -> -> -> ->. set (names := (map_to_list pending_files).*1).
  assert (sample_reachable (World r 40 pending_files [] ProbeWatch.Events)) as H1.
  { eapply r_step; [exact Hw|]. apply s_watcher; [|done].
    exact (ProbeWatch.w_logs 0x4f 30 0 0 (ProbeWatch.System 40 pending_files ∅ 1 [] ProbeWatch.Logs) [] [] eq_refl eq_refl). }
  assert (sample_reachable (World r 40 pending_files [] (ProbeWatch.Scan 40 names []))) as H2.
  { eapply r_step; [exact H1|]. apply s_watcher; [|done].
    assert (is_Some (pending_files !! u "ready")) as Hready by by eexists.
    exact (ProbeWatch.w_list 0x4f 30 0 0 (ProbeWatch.System 40 pending_files ∅ 1 [] ProbeWatch.Events) names eq_refl Hready (reflexivity names)). }
  clear Hw H1. set (w := World r 40 _ [] _) in H2.
  destruct (ProbeWatch.iterate 0x4f 30 0 0 5 (seen w)) as [s|] eqn:E; [|vm_compute in E; discriminate].
  pose proof (reachable_watch _ _ _ _ _ _ _ _ _ _ _ H2 E) as H3.
  assert (ProbeWatch.watcher 0x4f 30 0 0 s = Some (ProbeWatch.set_at (ProbeWatch.StopDeadline 1 35) s)
    ∧ ProbeWatch.at_ s = ProbeWatch.StillClaimed 40 1 5 ∧ ProbeWatch.calls s = ∅ ∧ ProbeWatch.next_call s = 1)
    as (Es & Ea & Ec & En).
  { vm_compute in E. injection E as <-. split_and!; reflexivity. }
  destruct s as [t d cs n ws p]. cbn in Ea, Ec, En, H3. subst cs n p.
  exists (World r t d ws (ProbeWatch.StillClaimed 40 1 5)), (World r t d ws (ProbeWatch.StopDeadline 1 35)).
  split; [exact H3|]. clear E H2 H3. split; [|split; reflexivity]. apply s_watcher; [|reflexivity].
  apply ProbeWatch.w_next. exact Es.
Qed.
Lemma recorder_stop_sound_witness :
  ∃ w, pc w = ProbeWatch.StillClaimed 40 1 5 ∧ 30 ≤ 35 ∧ watched (RET_CONFIG (recorder w)) (queue (recorder w)) 1 0x4f.
Proof.
  destruct stopping_world as (w & w' & Hw & Hstep & Hpc' & Hpc). exists w. split; [exact Hpc|].
  apply (recorder_stop_sound sample_options 0 sample_alloc 0x4f 30 0 0 [] w w' 1 35 eq_refl sample_fresh Hw Hstep Hpc').
  rewrite Hpc. discriminate.
Defined.

(** A success file that cannot be written ends the callback: the last hit of a
    breakpoint leaves it enabled, and its call unwatched. *)
Definition success_options : options := Options true 0x4f [u "IOCONNECT_CALL_METHOD"].
Lemma unwritten_success_keeps_breakpoint :
  let s := set_hits {[4 := 299]} (set_queue [] (install success_options 0 sample_alloc (λ _, true) (λ _, true) 0 new_state).2) in
  let s' := (on_break success_options 0 sample_alloc (λ _, false) sample_frame 4 s).2 in
  c_limit <$> CONFIG s' !! 4 = Some 300 ∧ hits_of s' 4 = 300 ∧ b_enabled <$> bps s' !! 4 = Some true
  ∧ size (RET_CONFIG s') = 0%nat.
Proof. vm_compute. repeat split. Qed.
