(* ===== verification/KcTextMap.v ===== *)
(** * The kernel text map: [tools/re/kc_text_map.py]

    The [__TEXT_EXEC] ranges of the images in a kernel collection, and the image
    a program counter lies in.  A text is code points; the collection is the
    bytes of the file. *)

From stdpp Require Import base tactics list strings sorting.
From Stdlib Require Import Strings.Byte.
From S2P Require Import Prelude PyBytes PyStr TrustCache.
Open Scope Z_scope.

Definition LC_FILESET_ENTRY : Z := 0x80000035.
Definition LC_SEGMENT_64 : Z := 0x19.
Definition SLIDE : Z := 0x20000000.
Abbreviation range := (Z * Z * list Z)%type.

(** [data[at:data.index(b"\0", at)].decode()]. *)
Definition name_at (data : list byte) (at_ : Z) : res (list Z) :=
  stop ← opt_or (find [x00] (zdrop at_ data)) (ValueError "subsection not found");
  utf8_decode (slice at_ (at_ + stop) data).
(** The load commands of the collection: name and file offset of each image. *)
Fixpoint fileset_entries (ncmds : nat) (data : list byte) (off : Z) : res (list (list Z * Z)) :=
  match ncmds with
  | O => Ok []
  | S ncmds =>
      cmd ← unpack_from_I data off; size ← unpack_from_I data (off + 4);
      entries ← (if cmd =? LC_FILESET_ENTRY then
                   _ ← unpack_from_Q data (off + 8);
                   fileoff ← unpack_from_Q data (off + 16);
                   name_off ← unpack_from_I data (off + 24);
                   name ← name_at data (off + name_off);
                   Ok [(name, fileoff)]
                 else Ok []);
      rest ← fileset_entries ncmds data (off + size);
      Ok (entries ++ rest)
  end.
(** The load commands of one image. *)
Fixpoint text_ranges (ncmds : nat) (data : list byte) (name : list Z) (o : Z) : res (list range) :=
  match ncmds with
  | O => Ok []
  | S ncmds =>
      cmd ← unpack_from_I data o; size ← unpack_from_I data (o + 4);
      ranges ← (if cmd =? LC_SEGMENT_64 then
                  segname ← utf8_decode (before x00 (slice (o + 8) (o + 24) data));
                  va ← unpack_from_Q data (o + 24);
                  vsize ← unpack_from_Q data (o + 32);
                  Ok (if bool_decide (segname = u "__TEXT_EXEC") && negb (vsize =? 0) then [(va, va + vsize, name)] else [])
                else Ok []);
      rest ← text_ranges ncmds data name (o + size);
      Ok (ranges ++ rest)
  end.
Definition image_ranges (data : list byte) (entry : list Z * Z) : res (list range) :=
  n ← unpack_from_I data (entry.2 + 16);
  text_ranges (Z.to_nat n) data entry.1 (entry.2 + 32).
(** Tuples compare field by field, names by code points. *)
Definition range_key (r : range) : list Z := r.1.1 :: r.1.2 :: r.2.
Definition load_map (data : list byte) : res (list range) :=
  ncmds ← unpack_from_I data 16;
  entries ← fileset_entries (Z.to_nat ncmds) data 32;
  ranges ← res_map (image_ranges data) entries;
  Ok (sort_by range_key (concat ranges)).
Definition attribute (ranges : list range) (unslid : Z) : option (list Z) * Z :=
  match List.find (λ r, (r.1.1 <=? unslid) && (unslid <? r.1.2)) ranges with
  | Some (lo, _, name) => (Some name, unslid - lo)
  | None => (None, 0)
  end.
(** The program counters of the command line: [unslid], image and offset. *)
Definition unslide (pc : Z) : Z := if 0xfffffff020000000 <=? pc then pc - SLIDE else pc.
Definition attribute_all (ranges : list range) (pcs : list Z) : list (Z * Z * (option (list Z) * Z)) :=
  map (λ pc, (pc, unslide pc, attribute ranges (unslide pc))) pcs.
(** The command line: the numbers behind [--pc], the last other argument is the
    file. *)
Fixpoint map_args (args : list (list Z)) (path : list Z) (pcs : list Z) : res (list Z * list Z) :=
  match args with
  | [] => Ok (path, pcs)
  | a :: args =>
      if bool_decide (a = u "--pc") then
        match args with
        | [] => Raise IndexError
        | v :: args => n ← int0 v; map_args args path (pcs ++ [n])
        end
      else map_args args a pcs
  end.

(** ** What the map says *)

(** The ranges are in order and never empty. *)
Lemma text_ranges_nonempty n data name o l :
  text_ranges n data name o = Ok l → Forall (λ r, r.1.1 < r.1.2 ∧ r.2 = name) l.
Proof.
  revert o l. induction n as [|n IH]; intros o l H; cbn [text_ranges] in H; simpl_res; [constructor|].
  apply Forall_app. split; [|by eapply IH].
  destruct (_ =? _); simpl_res; [|constructor]. destruct (_ && _) eqn:E; [|constructor].
  apply andb_prop in E as [_ E]. apply negb_true_iff, Z.eqb_neq in E.
  repeat constructor. cbn.
  match goal with H : unpack_from_Q _ (o + 32) = Ok ?v |- _ => assert (0 ≤ v) by (unfold unpack_from_Q, unpack_from_u, unpack_u in H; simpl_res; repeat case_match; simplify_eq; apply le_Z_range) end.
  lia.
Qed.

Definition holds_pc (pc : Z) (r : range) : Prop := r.1.1 ≤ pc < r.1.2.
Lemma find_range ranges pc :
  match List.find (λ r, (r.1.1 <=? pc) && (pc <? r.1.2)) ranges with
  | Some r => r ∈ ranges ∧ holds_pc pc r
  | None => Forall (λ r, ¬ holds_pc pc r) ranges
  end.
Proof.
  unfold holds_pc. induction ranges as [|r ranges IH]; cbn; [constructor|].
  destruct (_ && _) eqn:E; [split; [by left|lia]|]. destruct (List.find _ _) as [r'|].
  - destruct IH. split; [by right|done].
  - constructor; [lia|done].
Qed.

(** The map of a kernel collection is in order, its ranges are not empty and
    belong to the images of the collection; and an address is attributed to the
    image of a range it lies in, with its offset there, and to none exactly when
    it lies in no range; when the ranges do not overlap that image is the only
    one. *)
Theorem load_map_attributes data ranges :
  load_map data = Ok ranges →
  StronglySorted (λ r r', lex_leb (range_key r) (range_key r') = true) ranges
  ∧ Forall (λ r, r.1.1 < r.1.2) ranges
  ∧ ∀ pc,
      match attribute ranges pc with
      | (Some name, offset) => ∃ lo hi, (lo, hi, name) ∈ ranges ∧ lo ≤ pc < hi ∧ offset = pc - lo
      | (None, offset) => offset = 0 ∧ Forall (λ r, ¬ holds_pc pc r) ranges
      end
      ∧ ∀ r, r ∈ ranges → holds_pc pc r →
          (∀ r', r' ∈ ranges → holds_pc pc r' → r' = r) → attribute ranges pc = (Some r.2, pc - r.1.1).
Proof.
  intros H. unfold load_map in H. simpl_res. split_and!; [apply sort_by_sorted| |].
  - rewrite sort_by_perm. apply Forall_concat. apply res_map_Ok in Hr1. clear -Hr1.
    induction Hr1 as [|e l es ls He _ IH]; constructor; [|done].
    unfold image_ranges in He. simpl_res. eapply Forall_impl; [by eapply text_ranges_nonempty|]. by intros r' [].
  - intros pc. unfold attribute. pose proof (find_range (sort_by range_key (concat r1)) pc) as Hf.
    destruct (List.find _ _) as [[[lo hi] name]|].
    + destruct Hf as [Hin Hpc]. split; [by exists lo, hi|]. intros r' Hr' Hpc' Hu. by rewrite <-(Hu _ Hin Hpc).
    + split; [done|]. intros r' Hr' Hpc'. rewrite Forall_forall in Hf. by apply Hf in Hr'.
Qed.

(** A collection with one image. *)
Definition sample_collection : list byte :=
  let pad n := replicate n x00 in
  pad 16%nat ++ le_bytes 4 1 ++ pad 12%nat
  ++ le_bytes 4 LC_FILESET_ENTRY ++ le_bytes 4 40 ++ pad 8%nat ++ le_bytes 8 72 ++ le_bytes 4 32 ++ pad 4%nat
  ++ b "com.apple" ++ [x00] ++ pad 14%nat
  ++ le_bytes 4 1 ++ pad 12%nat
  ++ le_bytes 4 LC_SEGMENT_64 ++ le_bytes 4 72 ++ b "__TEXT_EXEC" ++ pad 5%nat ++ le_bytes 8 0xfffffff008b80000 ++ le_bytes 8 0x4000.
Example sample_load_map :
  load_map sample_collection = Ok [(0xfffffff008b80000, 0xfffffff008b84000, u "com.apple")]
  ∧ attribute [(0xfffffff008b80000, 0xfffffff008b84000, u "com.apple")] (unslide 0xfffffff028b81e50) = (Some (u "com.apple"), 0x1e50).
Proof. split; vm_compute; reflexivity. Qed.
