(* ===== verification/SmTrace.v ===== *)
(** * The SMMachine tracer: [tools/re/dcp_sm_dynamic_trace_callbacks.py]

    The tracer follows one thread through the state machine of an AFK client.
    It arms when a transition goes to the requested state, plants an entry
    witness at every authenticated target the thread calls, scans the targets
    that are entered for further indirect calls, and stops the guest at a wait,
    at the stage-2 return or when a budget is used up.  The debugger is an
    argument: the identifier of the n-th breakpoint it creates ([None]: the
    count did not go up by one) and the instructions it reads at an address.
    Times are milliseconds.  The lines printed for the reader, other than the
    [TRACE_JSON] records, are left out. *)

From stdpp Require Import base tactics list gmap strings.
From Stdlib Require Import Strings.Byte.
From S2P Require Import Prelude PyState PyBytes PyStr PyDict StartupDecode.
From S2P Require KcTextMap.
Open Scope Z_scope.

(** ** Options *)

Record options := Options {
  MAX_HOPS : Z; MAX_BREAKPOINTS : Z; MAX_SECONDS : Z; SCAN_INSTRUCTIONS : Z;
  STOP_ON_WAIT : bool; STOP_ON_STAGE2_RETURN : bool;
}.
Definition KSLIDE : Z := 0x20000000.
Definition CLIENT_POINTER_FIELDS : list (list Z * Z) :=
  [(u "command_gate", 0x110); (u "completion_event", 0x118); (u "state_starting", 0x120); (u "state_ready", 0x128);
   (u "state_rtbuddy_on", 0x130); (u "state_rtbuddy_off", 0x138); (u "state_rtbuddy_sleep", 0x140);
   (u "state_no_interfaces", 0x148); (u "endpoint_field_0x178", 0x178); (u "endpoint_field_0x180", 0x180);
   (u "endpoint_field_0x1a0", 0x1a0)].
Definition ACTION_NAMES : list (Z * list Z) :=
  [(0xfffffff008b81e34, u "config"); (0xfffffff008b81e50, u "on"); (0xfffffff008b81fe8, u "off")].
Definition KNOWN_SLOTS : list (Z * Z) :=
  [(0xfffffff008b8209c, 0x100); (0xfffffff00b23f4e0, 0x98); (0xfffffff00b23f52c, 0xf0)].

(** ** Reading the stopped guest *)

(** [_kptr]. *)
Definition kptr (value : option Z) : Z :=
  match value with
  | Some v => if v =? 0 then 0 else Z.lor 0xfffffff000000000 (Z.land v 0xffffffffff)
  | None => 0
  end.
(** [_read] and [_u64]; [None] and 0 are no address. *)
Definition mem (f : frame) (address : option Z) (size : Z) : list byte :=
  match address with
  | Some a => if (a =? 0) || (size <=? 0) then [] else read f a size
  | None => []
  end.
Definition u64 (f : frame) (address : option Z) : option Z :=
  let data := mem f address 8 in if zlen data =? 8 then Some (le_Z data) else None.
Definition words (f : frame) (base : option Z) (offsets : list Z) : list (Z * option Z) :=
  if truthy base then map (λ o, (o, u64 f (Some (or0 base + o)))) offsets else [].
Definition word_at (ws : list (Z * option Z)) (offset : Z) : option Z := mjoin (dget offset ws).

Record client := Client { c_address : Z; c_vtable : option Z; c_task_vtable : option Z; c_pointers : list (list Z * option Z) }.
Definition client_snapshot (f : frame) (c : option Z) : option client :=
  if truthy c then
    let c := or0 c in
    Some (Client c (u64 f (Some c)) (u64 f (Some (c + 0x88)))
            (map (λ nf, (nf.1, u64 f (Some (c + nf.2)))) CLIENT_POINTER_FIELDS))
  else None.
(** [_state_name]. *)
Definition state_name (snapshot : option client) (value : option Z) : option (list Z) :=
  match snapshot with
  | Some c => if truthy value then
                zdrop 6 <$> (fst <$> List.find (λ np, startswith (u "state_") np.1 && bool_decide (np.2 = value)) (c_pointers c))
              else None
  | None => None
  end.

Record descriptor := Descriptor {
  de_address : Z; de_callback : Z; de_context : Z; de_event : Z; de_desired : Z; de_type : Z; de_flags : Z; de_raw : list byte;
}.
Definition descriptor_of (address : Z) (raw : list byte) : descriptor :=
  Descriptor address (le_Z (slice 0 8 raw)) (le_Z (slice 8 16 raw)) (le_Z (slice 16 24 raw))
    (b2z (default x00 (znth 24 raw))) (b2z (default x00 (znth 25 raw))) (b2z (default x00 (znth 26 raw))) raw.
(** [range(begin, end, 0x20)], up to the first short read; 0x400 bytes at most. *)
Fixpoint descriptors_from (fuel : nat) (f : frame) (address end_ : Z) : list descriptor :=
  match fuel with
  | O => []
  | S fuel =>
      if address <? end_ then
        let raw := mem f (Some address) 0x20 in
        if zlen raw =? 0x20 then descriptor_of address raw :: descriptors_from fuel f (address + 0x20) end_ else []
      else []
  end.
Record task := Task {
  ta_address : Z; ta_state : list byte; ta_begin : option Z; ta_end : option Z; ta_capacity : option Z;
  ta_descriptors : list descriptor;
}.
Definition task_snapshot (f : frame) (t : option Z) : option task :=
  if truthy t then
    let t := or0 t in
    let begin := u64 f (Some (t + 0x30)) in
    let end_ := u64 f (Some (t + 0x38)) in
    Some (Task t (mem f (Some (t + 0x48)) 0x10) begin end_ (u64 f (Some (t + 0x40)))
            (if truthy begin && truthy end_ && (or0 begin <=? or0 end_) && (or0 end_ - or0 begin <=? 0x400)
             then descriptors_from 32 f (or0 begin) (or0 end_) else []))
  else None.

(** [_load_ranges]: the kernel text map, or nothing when the collection cannot be
    read. *)
Definition load_ranges (bootkc : option (list byte)) : list (Z * Z * list Z) :=
  match bootkc with
  | Some data => match KcTextMap.load_map data with Ok ranges => ranges | Raise _ => [] end
  | None => []
  end.
Record meta := Meta { m_runtime : option Z; m_static : option Z; m_image : option (list Z); m_offset : option Z }.
Section ranges.
Variable ranges : list (Z * Z * list Z).

Definition static_address (runtime : option Z) : option Z :=
  match runtime with Some r => Some (if 0xfffffff020000000 <=? r then r - KSLIDE else r) | None => None end.
(** [_address_meta]. *)
Definition address_meta (runtime : option Z) : meta :=
  match static_address runtime with
  | Some s =>
      match List.find (λ r, (r.1.1 <=? s) && (s <? r.1.2)) ranges with
      | Some (low, _, name) => Meta runtime (Some s) (Some name) (Some (s - low))
      | None => Meta runtime (Some s) None None
      end
  | None => Meta runtime None None None
  end.

Record operation := Operation { op_address : Z; op_words : list (Z * option Z); op_target : option meta }.
Definition operation_snapshot (f : frame) (op : option Z) : option operation :=
  if truthy op then
    let ws := words f op (map (λ i, i * 8) [0; 1; 2; 3; 4; 5; 6; 7; 8]) in
    Some (Operation (or0 op) ws
            (if truthy (word_at ws 0x10) then Some (address_meta (Some (kptr (word_at ws 0x10)))) else None))
  else None.
Record transition := Transition {
  tn_address : Z; tn_words : list (Z * option Z); tn_source : option (list Z); tn_destination : option (list Z);
}.
Definition transition_snapshot (f : frame) (t : option Z) (c : option client) : option transition :=
  if truthy t then
    let ws := words f t [0x10; 0x18; 0x20; 0x28; 0x30] in
    Some (Transition (or0 t) ws (state_name c (word_at ws 0x18)) (state_name c (word_at ws 0x20)))
  else None.
End ranges.

Abbreviation reg_list := (list (list Z * option Z)).
Definition reg (f : frame) (name : string) : option Z := f_reg f (u name).
Definition registers (f : frame) : reg_list :=
  map (λ n, (n, f_reg f n)) (map u ["pc"; "lr"; "sp"; "tpidr_el1"] ++ map xreg (seqZ 0 18)).

(** ** Scanned instructions *)

Record insn := Insn { i_address : Z; i_mnemonic : list Z; i_operands : list Z }.
Definition indirect_mnemonics : list (list Z) :=
  map u ["br"; "braa"; "brab"; "braaz"; "brabz"; "blr"; "blraa"; "blrab"; "blraaz"; "blrabz"].
(** [\b(x(?:[12]?[0-9]|3[01]))\b]: a word that is one of x0 to x31. *)
Fixpoint first_xreg (prev : bool) (s : list Z) : option (list Z) :=
  let word := takewhile is_word s in
  match (if negb prev && bool_decide (word ∈ map xreg (seqZ 0 32)) then Some word else None), s with
  | Some w, _ => Some w
  | None, [] => None
  | None, c :: s => first_xreg (is_word c) s
  end.
(** [_target_register]. *)
Definition target_register_of (mnemonic operands : list Z) : option (list Z) :=
  if bool_decide (mnemonic ∈ indirect_mnemonics) then first_xreg false operands else None.

(** [x\d+] at the head, and what follows it. *)
Definition head_xreg (s : list Z) : option (list Z * list Z) :=
  match s with
  | 120 :: r => match takewhile is_digit r with [] => None | ds => Some (120 :: ds, dropwhile is_digit r) end
  | _ => None
  end.
Definition expect (c : Z) (s : list Z) : option (list Z) :=
  match s with d :: r => if d =? c then Some r else None | [] => None end.
(** [(x\d+),\s*(x\d+)$]. *)
Definition parse_move (operands : list Z) : option (list Z * list Z) :=
  '(a, r) ← head_xreg operands;
  r ← expect 44 r;
  '(c, r) ← head_xreg (lstrip r);
  if bool_decide (r = []) || bool_decide (r = [10]) then Some (a, c) else None.
(** [0x[0-9a-f]+|\d+] at the head. *)
Definition is_hexlower (c : Z) : bool := is_digit c || ((97 <=? c) && (c <=? 102)).
Definition head_number (s : list Z) : option (list Z * list Z) :=
  match (if startswith (u "0x") s then takewhile is_hexlower (zdrop 2 s) else []) with
  | [] => match takewhile is_digit s with [] => None | ds => Some (ds, dropwhile is_digit s) end
  | hs => Some (u "0x" ++ hs, dropwhile is_hexlower (zdrop 2 s))
  end.
(** A register, a comma, a bracketed base register with an optional offset, and
    anything up to the end of the line: destination, base, offset. *)
Definition no_newline (s : list Z) : bool := bool_decide (10 ∉ removelast s).
Definition parse_load (operands : list Z) : option (list Z * list Z * option (list Z)) :=
  '(a, r) ← head_xreg operands;
  r ← expect 44 r;
  r ← expect 91 (lstrip r);
  '(base, r) ← head_xreg r;
  let plain := (r' ← expect 93 r; if no_newline r' then Some (a, base, None) else None) in
  match (r ← expect 44 r;
         let r := lstrip r in
         '(n, r) ← head_number (match r with 35 :: r => r | _ => r end);
         r ← expect 93 r;
         if no_newline r then Some (a, base, Some n) else None) with
  | Some l => Some l
  | None => plain
  end.

(** [_infer_slot] over [reversed(history[-20:])]: a move hands the wanted
    register on, a load of it gives the slot. *)
Definition moved (i : insn) (wanted : list Z) : option (list Z) :=
  if bool_decide (i_mnemonic i = u "mov") then
    '(a, c) ← parse_move (i_operands i); if bool_decide (a = wanted) then Some c else None
  else None.
Definition loaded (i : insn) (wanted : list Z) : option (list Z * list Z) :=
  if startswith (u "ldr") (i_mnemonic i) then
    '(a, base, n) ← parse_load (i_operands i); if bool_decide (a = wanted) then Some (base, default (u "0") n) else None
  else None.
Fixpoint infer_from (history : list insn) (wanted : list Z) : res (option Z * option (list Z)) :=
  match history with
  | [] => Ok (None, None)
  | i :: history =>
      match moved i wanted with
      | Some wanted => infer_from history wanted
      | None =>
          match loaded i wanted with
          | Some (base, n) => n ← int0 n; Ok (Some n, Some base)
          | None => infer_from history wanted
          end
      end
  end.
Definition infer_slot (history : list insn) (target_register : list Z) (static_site : Z) : res (option Z * option (list Z)) :=
  match dget static_site KNOWN_SLOTS with
  | Some slot => Ok (Some slot, None)
  | None => infer_from (take 20 (reverse history)) target_register
  end.

(** ** State *)

Record site := Site {
  s_address : Z; s_caller : Z; s_mnemonic : list Z; s_operands : list Z; s_target_register : list Z; s_tail : bool;
  s_return : option Z; s_slot : option Z; s_base_register : option (list Z);
}.
(** The [source] of a call: the stage-2 executor's, or a scanned site's. *)
Inductive source :=
  | Stage2 (callsite : meta) (op context : option Z) (snapshot : option operation) (context_state : option (list Z))
      (cl : option Z) (client_snapshot : option client) (action : option (list Z)) (return_address : Z) (regs : reg_list)
  | AtSite (s : site) (caller callsite : meta) (base_value : option Z) (regs : reg_list).
Definition source_regs (s : source) : reg_list :=
  match s with Stage2 _ _ _ _ _ _ _ _ _ r | AtSite _ _ _ _ r => r end.
Definition source_return (s : source) : option Z :=
  match s with Stage2 _ _ _ _ _ _ _ _ r _ => Some r | AtSite s _ _ _ _ => s_return s end.
Record expectation := Expectation { ex_target : Z; ex_source : source; ex_breakpoint : Z }.
Record pending := Pending { pe_return : Z; pe_target : Z; pe_source : source; pe_started : Z }.

(** [TRACE]. *)
Record origin := Origin { candidate_tp : option Z; candidate_thread : option Z; afk_client : option Z; requested_state : option Z }.
Record filters := Filters {
  machine : option Z; transition_ : option Z; gate : option Z; context_ : option Z; owner : option Z; lock : option Z;
  wait_event : option Z; stage2_returned : bool;
}.
Record trace := Trace {
  t_origin : origin; t_filters : filters; armed : bool; stopped : bool; started : option Z;
  hops : Z; dynamic_breakpoints : Z; task_mode_hits : Z;
}.
Definition no_filters : filters := Filters None None None None None None None false.
Definition no_trace : trace := Trace (Origin None None None None) no_filters false false None 0 0 0.
Definition set_origin (v : origin) (t : trace) : trace :=
  Trace v (t_filters t) (armed t) (stopped t) (started t) (hops t) (dynamic_breakpoints t) (task_mode_hits t).
Definition set_filters (v : filters) (t : trace) : trace :=
  Trace (t_origin t) v (armed t) (stopped t) (started t) (hops t) (dynamic_breakpoints t) (task_mode_hits t).
Definition set_armed (start : option Z) (t : trace) : trace :=
  Trace (t_origin t) (t_filters t) true (stopped t) start (hops t) (dynamic_breakpoints t) (task_mode_hits t).
Definition set_stopped (t : trace) : trace :=
  Trace (t_origin t) (t_filters t) (armed t) true (started t) (hops t) (dynamic_breakpoints t) (task_mode_hits t).
Definition set_hops (v : Z) (t : trace) : trace :=
  Trace (t_origin t) (t_filters t) (armed t) (stopped t) (started t) v (dynamic_breakpoints t) (task_mode_hits t).
Definition set_breakpoints (v : Z) (t : trace) : trace :=
  Trace (t_origin t) (t_filters t) (armed t) (stopped t) (started t) (hops t) v (task_mode_hits t).
Definition set_task_mode_hits (v : Z) (t : trace) : trace :=
  Trace (t_origin t) (t_filters t) (armed t) (stopped t) (started t) (hops t) (dynamic_breakpoints t) v.

(** Why the guest is stopped, and the records. *)
Record wait_fields := WaitFields {
  wf_primitive : meta; wf_lock : option Z; wf_flags : option Z; wf_event : option Z; wf_interruptibility : option Z;
  wf_owner : option Z; wf_lock_owner : option Z; wf_recursion : option Z; wf_producer : meta;
}.
Inductive stop_reason :=
  | HopLimit (limit : Z) | BreakpointLimit (limit : Z) | TimeLimit (limit : Z)
  | UnresolvedTarget (s : site) | Stage2Returned (result : option Z) | SleepPrimitive (w : wait_fields).
Inductive record :=
  | RTransition (thread tp machine_ : option Z) (tn : option transition) (c : option client) (requested : option Z)
      (requested_name : option (list Z))
  | RArmed (thread tp machine_ tn client_ destination : option Z)
  | RRebase (thread : Z) (tp : option Z) (op : option operation) (context : option Z) (context_state : option (list Z))
      (c : option client)
  | RCall (tail : bool) (target : meta) (s : source)
  | RTarget (target : meta) (s : source) (regs : reg_list) (thread : Z) (tp : option Z)
  | RReturn (site_ target : meta) (duration : Z) (result : option Z) (s : source)
  | RStage2Return (result : option Z) (site_ : meta) (thread : Z) (tp : option Z) (regs : reg_list)
  | RWait (thread : Z) (tp : option Z) (regs : reg_list) (w : wait_fields)
  | RCompletion (target : meta) (thread : Z) (tp client_ wake : option Z) (same_origin : bool) (regs : reg_list)
  | RStateTx (target : meta) (thread : Z) (tp : option Z) (task_ value : Z) (same_origin : bool) (snapshot : option task)
      (regs : reg_list)
  | RStateRx (target : meta) (thread : Z) (tp : option Z) (task_ : Z) (data length_ : option Z) (raw : list byte)
      (same_origin : bool) (snapshot : option task) (regs : reg_list)
  | RStateApply (target : meta) (thread : Z) (tp : option Z) (task_ : Z) (update_ : option Z) (raw : list byte)
      (snapshot : option task) (regs : reg_list)
  | RTaskMode (target : meta) (thread : Z) (tp task_ client_ : option Z) (tracked : bool) (mode : Z) (snapshot : option task)
      (backtrace : list meta) (regs : reg_list)
  | RScan (function : meta) (sites count : Z)
  | RStop (why : stop_reason) (thread : Z) (tp : option Z) (pc : meta) (regs : reg_list).
(** [elapsed] and [hop] of the header. *)
Record emitted := Emitted { em_elapsed : Z; em_hop : Z; em_record : record }.

Record tables := Tables {
  sites : gmap Z site; targets : gmap Z (Z * source); target_by_address : gmap Z Z;
  returns : gmap Z Z; return_by_address : gmap Z Z;
  expected : gmap (option Z) (list expectation); pending_returns : gmap (option Z) (list pending);
  scanned : gset (option Z);
}.
Definition no_tables : tables := Tables ∅ ∅ ∅ ∅ ∅ ∅ ∅ ∅.
Inductive callback :=
  | OnAfkState | OnAfkRequest | OnTransition | OnStage2Pre | OnStage2Return | OnWaitPrimitive | OnCompletion
  | OnStateTx | OnStateRx | OnStateApply | OnTaskMode | OnIndirectCall | OnTargetEntry | OnDynamicReturn.
#[export] Instance callback_eq_dec : EqDecision callback.
Proof. solve_decision. Defined.
(** The debugger's breakpoints, with the callback each has, and [CONFIG]. *)
Record state := State {
  created : Z; bps : gmap Z (Z * option callback); config : gmap Z (list Z * Z); tabs : tables; tr : trace;
  out : list emitted;
}.
Definition no_state : state := State 0 ∅ ∅ no_tables no_trace [].
Abbreviation SM := (SE state).
Definition with_tabs (f : tables → tables) (s : state) : state :=
  State (created s) (bps s) (config s) (f (tabs s)) (tr s) (out s).
Definition with_trace (f : trace → trace) (s : state) : state :=
  State (created s) (bps s) (config s) (tabs s) (f (tr s)) (out s).
Definition set_sites (v : gmap Z site) (t : tables) : tables :=
  Tables v (targets t) (target_by_address t) (returns t) (return_by_address t) (expected t) (pending_returns t) (scanned t).
Definition set_targets (v : gmap Z (Z * source)) (t : tables) : tables :=
  Tables (sites t) v (target_by_address t) (returns t) (return_by_address t) (expected t) (pending_returns t) (scanned t).
Definition set_target_by_address (v : gmap Z Z) (t : tables) : tables :=
  Tables (sites t) (targets t) v (returns t) (return_by_address t) (expected t) (pending_returns t) (scanned t).
Definition set_returns (v : gmap Z Z) (t : tables) : tables :=
  Tables (sites t) (targets t) (target_by_address t) v (return_by_address t) (expected t) (pending_returns t) (scanned t).
Definition set_return_by_address (v : gmap Z Z) (t : tables) : tables :=
  Tables (sites t) (targets t) (target_by_address t) (returns t) v (expected t) (pending_returns t) (scanned t).
Definition set_expected (v : gmap (option Z) (list expectation)) (t : tables) : tables :=
  Tables (sites t) (targets t) (target_by_address t) (returns t) (return_by_address t) v (pending_returns t) (scanned t).
Definition set_pending (v : gmap (option Z) (list pending)) (t : tables) : tables :=
  Tables (sites t) (targets t) (target_by_address t) (returns t) (return_by_address t) (expected t) v (scanned t).
Definition set_scanned (v : gset (option Z)) (t : tables) : tables :=
  Tables (sites t) (targets t) (target_by_address t) (returns t) (return_by_address t) (expected t) (pending_returns t) v.
(** [EXPECTED.get(tp, [])] and the like. *)
Definition listed {A} (tp : option Z) (m : gmap (option Z) (list A)) : list A := default [] (m !! tp).

Section tracer.
Variable o : options.
Variable ranges : list (Z * Z * list Z).
(** The debugger: the identifier of the n-th breakpoint, and at most so many
    instructions from an address. *)
Variable alloc : Z → option Z.
Variable instructions : Z → Z → list insn.

Abbreviation meta_of := (address_meta ranges).

(** ** Records *)

(** [_emit]. *)
Definition emit (f : frame) (r : record) : SM () := update (λ s,
  State (created s) (bps s) (config s) (tabs s) (tr s)
    (out s ++ [Emitted (if truthy (started (tr s)) then f_now f - or0 (started (tr s)) else 0) (hops (tr s)) r])).
Definition matches (f : frame) (t : trace) : bool :=
  armed t && negb (stopped t)
  && bool_decide (reg f "tpidr_el1" = candidate_tp (t_origin t))
  && bool_decide (Some (f_thread f) = candidate_thread (t_origin t)).
(** [_stop]: the guest stays stopped; the reason is recorded the first time. *)
Definition stop (why : stop_reason) (f : frame) : SM bool :=
  t ← gets tr;
  if stopped t then mret true
  else
    _ ← update (with_trace set_stopped);
    _ ← emit f (RStop why (f_thread f) (reg f "tpidr_el1") (meta_of (reg f "pc")) (registers f));
    mret true.
Definition budget_check (f : frame) : SM bool :=
  t ← gets tr;
  if MAX_HOPS o <=? hops t then stop (HopLimit (MAX_HOPS o)) f
  else if MAX_BREAKPOINTS o <=? dynamic_breakpoints t then stop (BreakpointLimit (MAX_BREAKPOINTS o)) f
  else if truthy (started t) && (MAX_SECONDS o <=? f_now f - or0 (started t)) then stop (TimeLimit (MAX_SECONDS o)) f
  else mret false.

(** ** Planting *)

(** [BreakpointCreateByAddress] or the command, with the check of the count. *)
Definition create (address : Z) : SM Z := λ s,
  match alloc (created s) with
  | Some i => (Ok i, State (created s + 1) (<[i := (address, None)]> (bps s)) (config s) (tabs s) (tr s) (out s))
  | None => (Raise (RuntimeError "failed breakpoint"), s)
  end.
Definition attach (i : Z) (c : callback) : SM () := update (λ s,
  State (created s) (alter (λ b, (b.1, Some c)) i (bps s)) (config s) (tabs s) (tr s) (out s)).
(** [_new_breakpoint]; [table] is the assignment to the table it is given. *)
Definition new_breakpoint (address : Z) (c : callback) (table : Z → tables → tables) : SM Z :=
  i ← create address;
  _ ← attach i c;
  _ ← update (with_tabs (table i));
  _ ← update (with_trace (λ t, set_breakpoints (dynamic_breakpoints t + 1) t));
  mret i.
Definition install_target (address : Z) (s : source) : SM Z :=
  t ← gets tabs;
  match target_by_address t !! address with
  | Some i => mret i
  | None =>
      i ← new_breakpoint address OnTargetEntry (λ i t, set_targets (<[i := (address, s)]> (targets t)) t);
      _ ← update (with_tabs (λ t, set_target_by_address (<[address := i]> (target_by_address t)) t));
      mret i
  end.
Definition install_return (address : Z) : SM Z :=
  t ← gets tabs;
  match return_by_address t !! address with
  | Some i => mret i
  | None =>
      i ← new_breakpoint address OnDynamicReturn (λ i t, set_returns (<[i := address]> (returns t)) t);
      _ ← update (with_tabs (λ t, set_return_by_address (<[address := i]> (return_by_address t)) t));
      mret i
  end.

(** The scan of a function: one pass per instruction, to the next prologue or
    return; [first] is the first pass, [history] what was passed. *)
Definition site_of (runtime : Z) (history : list insn) (i : insn) (register : list Z) : res site :=
  '(slot, base) ← infer_slot history register (i_address i - KSLIDE);
  let call := startswith (u "bl") (i_mnemonic i) in
  Ok (Site (i_address i) runtime (i_mnemonic i) (i_operands i) register (negb call)
        (if call then Some (i_address i + 4) else None) slot base).
Fixpoint scan_from (runtime : Z) (first : bool) (history : list insn) (found : Z) (code : list insn) : SM Z :=
  match code with
  | [] => mret found
  | i :: code =>
      if negb first && bool_decide (i_mnemonic i ∈ [u "pacibsp"; u "paciasp"]) then mret found
      else
        found ← match target_register_of (i_mnemonic i) (i_operands i) with
                | Some register =>
                    s ← lift (site_of runtime history i register);
                    _ ← new_breakpoint (i_address i) OnIndirectCall (λ n t, set_sites (<[n := s]> (sites t)) t);
                    mret (found + 1)
                | None => mret found
                end;
        if bool_decide (i_mnemonic i ∈ [u "ret"; u "retab"]) then mret found
        else scan_from runtime false (history ++ [i]) found code
  end.
Definition scan_target (f : frame) (runtime : option Z) : SM Z :=
  t ← gets tabs;
  if bool_decide (runtime ∈ scanned t) then mret 0
  else
    _ ← update (with_tabs (λ t, set_scanned ({[runtime]} ∪ scanned t) t));
    address ← lift (opt_or runtime (TypeError "SBAddress"));
    let code := map (λ i, Insn (i_address i) (lower (i_mnemonic i)) (i_operands i)) (instructions address (SCAN_INSTRUCTIONS o)) in
    found ← scan_from address true [] 0 code;
    _ ← emit f (RScan (meta_of (Some address)) found (zlen code));
    mret found.
Definition queue_target (f : frame) (target : Z) (s : source) (has_return : bool) : SM () :=
  i ← install_target target s;
  t ← gets tr;
  let tp := candidate_tp (t_origin t) in
  _ ← update (with_tabs (λ t, set_expected (<[tp := listed tp (expected t) ++ [Expectation target s i]]> (expected t)) t));
  if has_return then
    address ← lift (opt_or (source_return s) (TypeError "return address"));
    _ ← install_return address;
    update (with_tabs (λ t,
      set_pending (<[tp := listed tp (pending_returns t) ++ [Pending address target s (f_now f)]]> (pending_returns t)) t))
  else mret ().

(** ** Callbacks *)

Definition on_afk_state (f : frame) : SM bool :=
  t ← gets tr;
  if bool_decide (reg f "x1" = Some 0) && truthy (reg f "x2") then
    let old := t_origin t in
    let new := Origin (reg f "tpidr_el1") (Some (f_thread f)) (reg f "x0") (requested_state old) in
    let same := bool_decide (candidate_tp new = candidate_tp old) && bool_decide (candidate_thread new = candidate_thread old)
                && bool_decide (afk_client new = afk_client old) in
    _ ← update (with_trace (set_origin new));
    _ ← when (negb same) (update (with_trace (λ t, set_filters
          (Filters None None None None None None None false) t)));
    mret false
  else mret false.
Definition on_afk_request (f : frame) : SM bool :=
  t ← gets tr;
  let g := t_origin t in
  if negb (bool_decide (reg f "tpidr_el1" = candidate_tp g)) || negb (bool_decide (reg f "x0" = afk_client g)) then mret false
  else
    match (x1 ← reg f "x1"; dget x1 [(2, 0x130); (0, 0x138); (1, 0x140)]) with
    | Some offset =>
        client_ ← lift (opt_or (afk_client g) (TypeError "None + int"));
        _ ← update (with_trace (set_origin (Origin (candidate_tp g) (candidate_thread g) (afk_client g) (u64 f (Some (client_ + offset))))));
        mret false
    | None => mret false
    end.
Definition set_transition (m tn : option Z) (g : filters) : filters :=
  Filters m tn (gate g) (context_ g) (owner g) (lock g) (wait_event g) (stage2_returned g).
Definition on_transition (f : frame) : SM bool :=
  t ← gets tr;
  let g := t_origin t in
  if negb (bool_decide (reg f "tpidr_el1" = candidate_tp g)) || negb (bool_decide (Some (f_thread f) = candidate_thread g))
  then mret false
  else
    let tn := reg f "x1" in
    let destination := if truthy tn then u64 f (Some (or0 tn + 0x20)) else None in
    let c := client_snapshot f (afk_client g) in
    _ ← emit f (RTransition (candidate_thread g) (candidate_tp g) (reg f "x0") (transition_snapshot f tn c) c
                  (requested_state g) (state_name c (requested_state g)));
    if negb (armed t) && bool_decide (destination = requested_state g) then
      _ ← update (with_trace (λ t, set_filters (set_transition (reg f "x0") tn (t_filters t)) (set_armed (Some (f_now f)) t)));
      _ ← emit f (RArmed (candidate_thread g) (candidate_tp g) (reg f "x0") tn (afk_client g) destination);
      mret false
    else mret false.

(** The tracer follows whatever enters the stage-2 executor. *)
Definition rebase (f : frame) (operation_ context : option Z) : SM () :=
  let client_ := if truthy operation_ then u64 f (Some (or0 operation_ + 0x20)) else None in
  _ ← update (with_trace (λ t,
        set_armed (match started t with Some start => Some start | None => Some (f_now f) end)
          (set_filters no_filters (set_origin (Origin (reg f "tpidr_el1") (Some (f_thread f)) client_ context) t))));
  let c := client_snapshot f client_ in
  emit f (RRebase (f_thread f) (reg f "tpidr_el1") (operation_snapshot ranges f operation_) context (state_name c context) c).
Definition stage2_source (f : frame) (operation_ context : option Z) : res source :=
  let client_ := if truthy operation_ then u64 f (Some (or0 operation_ + 0x20)) else None in
  let c := client_snapshot f client_ in
  pc ← opt_or (reg f "pc") (TypeError "None + int");
  Ok (Stage2 (meta_of (Some pc)) operation_ context (operation_snapshot ranges f operation_) (state_name c context)
        client_ c (s ← m_static (meta_of (Some (kptr (reg f "x9")))); dget s ACTION_NAMES) (pc + 4) (registers f)).
Definition on_stage2_pre (f : frame) : SM bool :=
  let operation_ := reg f "x0" in
  let context := reg f "x1" in
  t ← gets tr;
  _ ← when (negb (matches f t) || stage2_returned (t_filters t)) (rebase f operation_ context);
  over ← budget_check f;
  if (over : bool) then mret true
  else
    let target := kptr (reg f "x9") in
    s ← lift (stage2_source f operation_ context);
    _ ← emit f (RCall false (meta_of (Some target)) s);
    _ ← queue_target f target s false;
    mret false.
Definition on_indirect_call (f : frame) (i : Z) : SM bool :=
  t ← gets tr;
  if negb (matches f t) then mret false
  else
    over ← budget_check f;
    if (over : bool) then mret true
    else
      tb ← gets tabs;
      s ← lift (opt_or (sites tb !! i) (KeyError (dec i)));
      let target := kptr (f_reg f (s_target_register s)) in
      if target =? 0 then stop (UnresolvedTarget s) f
      else
        let src := AtSite s (meta_of (Some (s_caller s))) (meta_of (Some (s_address s)))
                     (r ← s_base_register s; f_reg f r) (registers f) in
        _ ← emit f (RCall (s_tail s) (meta_of (Some target)) src);
        _ ← queue_target f target src (negb (s_tail s));
        mret false.

(** The last entry that satisfies [p], taken out of the list. *)
Fixpoint pop_last {A} (p : A → bool) (l : list A) : option (A * list A) :=
  match l with
  | [] => None
  | x :: l => match pop_last p l with
              | Some (y, l) => Some (y, x :: l)
              | None => if p x then Some (x, l) else None
              end
  end.
Definition set_gate (own ctx lck : option Z) (g : filters) : filters :=
  Filters (machine g) (transition_ g) (gate g) ctx own lck (wait_event g) (stage2_returned g).
Definition on_target_entry (f : frame) (i : Z) : SM bool :=
  t ← gets tr;
  if negb (matches f t) then mret false
  else
    tb ← gets tabs;
    '(address, _) ← lift (opt_or (targets tb !! i) (KeyError (dec i)));
    let tp := candidate_tp (t_origin t) in
    match pop_last (λ e, ex_target e =? address) (listed tp (expected tb)) with
    | None => mret false
    | Some (e, rest) =>
        _ ← update (with_tabs (λ tb, set_expected (<[tp := rest]> (expected tb)) tb));
        _ ← update (with_trace (λ t, set_hops (hops t + 1) t));
        _ ← emit f (RTarget (meta_of (Some address)) (ex_source e) (registers f) (f_thread f) tp);
        _ ← (if address - KSLIDE =? 0xfffffff00b23b410 then
               _ ← update (with_trace (λ t, set_filters (set_gate (reg f "x0") (reg f "x1") (lock (t_filters t)) (t_filters t)) t));
               own ← lift (opt_or (reg f "x0") (TypeError "None + int"));
               update (with_trace (λ t, set_filters (set_gate (reg f "x0") (reg f "x1") (u64 f (Some (own + 0x10))) (t_filters t)) t))
             else mret ());
        over ← budget_check f;
        if (over : bool) then mret true
        else _ ← scan_target f (Some address); mret false
    end.
Definition on_dynamic_return (f : frame) (i : Z) : SM bool :=
  t ← gets tr;
  if negb (matches f t) then mret false
  else
    tb ← gets tabs;
    address ← lift (opt_or (returns tb !! i) (KeyError (dec i)));
    let tp := candidate_tp (t_origin t) in
    match pop_last (λ p, pe_return p =? address) (listed tp (pending_returns tb)) with
    | None => mret false
    | Some (p, rest) =>
        _ ← update (with_tabs (λ tb, set_pending (<[tp := rest]> (pending_returns tb)) tb));
        _ ← emit f (RReturn (meta_of (Some address)) (meta_of (Some (pe_target p))) (f_now f - pe_started p) (reg f "x0")
                      (pe_source p));
        mret false
    end.
Definition on_stage2_return (f : frame) : SM bool :=
  t ← gets tr;
  if negb (matches f t) then mret false
  else if STOP_ON_STAGE2_RETURN o then stop (Stage2Returned (reg f "x0")) f
  else
    _ ← emit f (RStage2Return (reg f "x0") (meta_of (reg f "pc")) (f_thread f) (candidate_tp (t_origin t)) (registers f));
    _ ← update (with_trace (λ t, let g := t_filters t in
          set_filters (Filters (machine g) (transition_ g) (gate g) None None None None true) t));
    over ← budget_check f;
    if (over : bool) then mret true
    else _ ← scan_target f (reg f "pc"); mret false.
Definition on_wait_primitive (f : frame) : SM bool :=
  t ← gets tr;
  let g := t_filters t in
  if negb (matches f t) then mret false
  else if truthy (lock g) && (negb (bool_decide (reg f "x0" = lock g)) || negb (bool_decide (reg f "x2" = context_ g)))
  then mret false
  else
    _ ← update (with_trace (λ t, let g := t_filters t in
          set_filters (Filters (machine g) (transition_ g) (gate g) (context_ g) (owner g) (lock g) (reg f "x2") (stage2_returned g)) t));
    let x0 := reg f "x0" in
    let at_ offset := if truthy x0 then u64 f (Some (or0 x0 + offset)) else None in
    let w := WaitFields (meta_of (reg f "pc")) x0 (reg f "x1") (reg f "x2") (reg f "x3") (owner g) (at_ 0x18) (at_ 0x20)
               (meta_of (Some (0xfffffff008b81f44 + KSLIDE))) in
    if STOP_ON_WAIT o then stop (SleepPrimitive w) f
    else _ ← emit f (RWait (f_thread f) (candidate_tp (t_origin t)) (registers f) w); mret false.

Definition on_completion (f : frame) : SM bool :=
  t ← gets tr;
  if negb (armed t) || negb (bool_decide (reg f "x0" = afk_client (t_origin t))) then mret false
  else
    _ ← emit f (RCompletion (meta_of (reg f "pc")) (f_thread f) (reg f "tpidr_el1") (reg f "x0") (reg f "x1") (matches f t)
                  (registers f));
    mret false.
(** [TRACE["afk_client"] + 0x88], when there is a client. *)
Definition tracked_task (t : trace) : option Z :=
  let c := afk_client (t_origin t) in if truthy c then Some (or0 c + 0x88) else None.
Definition on_state_tx (f : frame) : SM bool :=
  t ← gets tr;
  match tracked_task t with
  | None => mret false
  | Some task_ =>
      if negb (bool_decide (reg f "x0" = Some task_)) then mret false
      else
        value ← lift (opt_or (reg f "x1") (TypeError "None & int"));
        _ ← emit f (RStateTx (meta_of (reg f "pc")) (f_thread f) (reg f "tpidr_el1") task_ (Z.land value 0xffffffff)
                      (matches f t) (task_snapshot f (Some task_)) (registers f));
        mret false
  end.
Definition on_state_rx (f : frame) : SM bool :=
  t ← gets tr;
  match tracked_task t with
  | None => mret false
  | Some task_ =>
      if negb (bool_decide (reg f "x0" = Some task_)) then mret false
      else
        let raw := mem f (reg f "x1") (Z.min (or0 (reg f "x2")) 0x40) in
        _ ← emit f (RStateRx (meta_of (reg f "pc")) (f_thread f) (reg f "tpidr_el1") task_ (reg f "x1") (reg f "x2") raw
                      (matches f t) (task_snapshot f (Some task_)) (registers f));
        mret false
  end.
Definition on_state_apply (f : frame) : SM bool :=
  t ← gets tr;
  match tracked_task t with
  | None => mret false
  | Some task_ =>
      let update_ := reg f "x0" in
      if negb (bool_decide ((if truthy update_ then u64 f update_ else None) = Some task_)) then mret false
      else
        _ ← emit f (RStateApply (meta_of (reg f "pc")) (f_thread f) (reg f "tpidr_el1") task_ update_
                      (mem f (Some (or0 update_ + 8)) 8) (task_snapshot f (Some task_)) (registers f));
        mret false
  end.
Definition on_task_mode (f : frame) : SM bool :=
  _ ← update (with_trace (λ t, set_task_mode_hits (task_mode_hits t + 1) t));
  t ← gets tr;
  if 64 <? task_mode_hits t then mret false
  else
    let task_ := reg f "x0" in
    let client_ := if truthy task_ then Some (or0 task_ - 0x88) else None in
    mode ← lift (opt_or (reg f "x1") (TypeError "None & int"));
    _ ← emit f (RTaskMode (meta_of (reg f "pc")) (f_thread f) (reg f "tpidr_el1") task_ client_
                  (bool_decide (client_ = afk_client (t_origin t))) (Z.land mode 0xffffffff) (task_snapshot f task_)
                  (map (λ pc, meta_of (Some (Z.land pc 0x0000ffffffffffff))) (take 12 (f_pcs f))) (registers f));
    mret false.

(** ** Installation *)

(** [attached]: whether the callback of that name could be attached. *)
Definition static_sites : list (Z * list Z * callback) :=
  [(0xfffffff008ba47b0, u "SM_TRACE_AFk_STATE", OnAfkState); (0xfffffff008b82378, u "SM_TRACE_AFk_REQUEST", OnAfkRequest);
   (0xfffffff008b8c2d0, u "SM_TRACE_TRANSITION", OnTransition); (0xfffffff008b8c4e8, u "SM_TRACE_STAGE2_PRE", OnStage2Pre);
   (0xfffffff008b8c4ec, u "SM_TRACE_STAGE2_RETURN", OnStage2Return); (0xfffffff00ab002a8, u "SM_TRACE_SLEEP", OnWaitPrimitive);
   (0xfffffff008b81f44, u "SM_TRACE_COMPLETION", OnCompletion); (0xfffffff008b918d8, u "SM_TRACE_STATE_TX", OnStateTx);
   (0xfffffff008b919f8, u "SM_TRACE_STATE_RX", OnStateRx); (0xfffffff008b92bbc, u "SM_TRACE_STATE_APPLY", OnStateApply);
   (0xfffffff008b90ea0, u "SM_TRACE_TASK_MODE", OnTaskMode)].
Definition install_static (attached : callback → bool) (e : Z * list Z * callback) : SM () :=
  let '(static, label, c) := e in
  i ← create (static + KSLIDE);
  _ ← update (λ s, State (created s) (bps s) (<[i := (label, static + KSLIDE)]> (config s)) (tabs s) (tr s) (out s));
  if attached c then attach i c else raise (RuntimeError "callback attach failed").
(** [display]: importing and installing [display_iokit_callbacks]. *)
Definition install (display : SM ()) (attached : callback → bool) : SM () :=
  _ ← display;
  for_each (install_static attached) static_sites.

(** Which callback runs at a hit of breakpoint [i]. *)
Definition run_callback (c : callback) (f : frame) (i : Z) : SM bool :=
  match c with
  | OnAfkState => on_afk_state f | OnAfkRequest => on_afk_request f | OnTransition => on_transition f
  | OnStage2Pre => on_stage2_pre f | OnStage2Return => on_stage2_return f | OnWaitPrimitive => on_wait_primitive f
  | OnCompletion => on_completion f | OnStateTx => on_state_tx f | OnStateRx => on_state_rx f
  | OnStateApply => on_state_apply f | OnTaskMode => on_task_mode f
  | OnIndirectCall => on_indirect_call f i | OnTargetEntry => on_target_entry f i | OnDynamicReturn => on_dynamic_return f i
  end.
End tracer.
