(* ===== verification/SmTraceProps.v ===== *)
(** * What the SMMachine tracer promises

    One invariant, kept by every callback on every path, raising or not: the
    budgets, which calls the recorded entries and returns answer, the single
    stop record, and the tables behind the breakpoints.  A stop is final. *)

From stdpp Require Import base tactics list gmap strings sets.
From Stdlib Require Import Strings.Byte.
From S2P Require Import Prelude PyState PyBytes PyStr PyDict StartupDecode SmTrace.
From S2P Require KcTextMap.
Open Scope Z_scope.

(** ** The record of a trace *)

(** The thread pointer a call was made with. *)
Definition source_tp (s : source) : option Z := mjoin (dget (u "tpidr_el1") (source_regs s)).
Abbreviation answer := (option Z * source)%type.
Definition call_at (tp : option Z) (e : emitted) : option answer :=
  match em_record e with
  | RCall _ target s => if bool_decide (source_tp s = tp) then Some (m_runtime target, s) else None
  | _ => None
  end.
Definition entry_at (tp : option Z) (e : emitted) : option answer :=
  match em_record e with
  | RTarget target s _ _ tp' => if bool_decide (tp' = tp) then Some (m_runtime target, s) else None
  | _ => None
  end.
Definition return_at (tp : option Z) (e : emitted) : option answer :=
  match em_record e with
  | RReturn _ target _ _ s => if bool_decide (source_tp s = tp) then Some (m_runtime target, s) else None
  | _ => None
  end.
Definition calls_at tp (l : list emitted) := omap (call_at tp) l.
Definition entries_at tp (l : list emitted) := omap (entry_at tp) l.
Definition returns_at tp (l : list emitted) := omap (return_at tp) l.
Definition expected_at tp (t : tables) : list answer := map (λ e, (Some (ex_target e), ex_source e)) (listed tp (expected t)).
Definition pending_at tp (t : tables) : list answer := map (λ p, (Some (pe_target p), pe_source p)) (listed tp (pending_returns t)).
Definition is_stop (r : record) : bool := match r with RStop _ _ _ _ _ => true | _ => false end.
Definition stops (l : list emitted) : nat := length (List.filter (λ e, is_stop (em_record e)) l).
#[local] Arguments address_meta : simpl never.
#[local] Arguments stops : simpl never.
#[local] Arguments calls_at : simpl never.
#[local] Arguments entries_at : simpl never.
#[local] Arguments returns_at : simpl never.
#[local] Arguments expected_at : simpl never.
#[local] Arguments pending_at : simpl never.
(** Records that answer nothing and stop nothing. *)
Definition neutral (r : record) : bool :=
  match r with RCall _ _ _ | RTarget _ _ _ _ _ | RReturn _ _ _ _ _ | RStop _ _ _ _ _ => false | _ => true end.

(** What the table of a callback must hold for its breakpoint. *)
Definition has_entry (t : tables) (i : Z) (c : callback) : Prop :=
  match c with
  | OnIndirectCall => is_Some (sites t !! i)
  | OnTargetEntry => is_Some (targets t !! i)
  | OnDynamicReturn => is_Some (returns t !! i)
  | _ => True
  end.

(** An address is attributed as the kernel text map does. *)
Lemma address_meta_attribute ranges r :
  let m := address_meta ranges (Some r) in
  (m_image m, default 0 (m_offset m)) = KcTextMap.attribute ranges (KcTextMap.unslide r).
Proof.
  unfold address_meta, static_address, KcTextMap.attribute, KcTextMap.unslide. change KcTextMap.SLIDE with KSLIDE.
  by destruct (List.find _ _) as [[[lo hi] name]|].
Qed.

(** ** The invariant

    [room]: breakpoints that may still be planted.  [call], [ret]: a call that
    was recorded and whose entry or return is not expected yet.  [late]: a hop
    was counted and the budget is still to be checked. *)
Record ghost := Ghost { room : Z; g_call : option (option Z * answer); g_ret : option (option Z * answer); late : bool }.
Definition calm : ghost := Ghost 0 None None false.
Definition owed (tp : option Z) (g : option (option Z * answer)) : list answer :=
  match g with Some (tp', a) => if bool_decide (tp' = tp) then [a] else [] | None => [] end.

Section invariant.
Variable o : options.
Variable ranges : list (Z * Z * list Z).
Variable alloc : Z → option Z.
Variable instructions : Z → Z → list insn.
(** [ReadInstructions] gives at most as many as it is asked for. *)
Hypothesis Hcount : ∀ address count, zlen (instructions address count) ≤ Z.max 0 count.

Definition most_breakpoints : Z := Z.max 0 (MAX_BREAKPOINTS o - 1 + Z.max 2 (SCAN_INSTRUCTIONS o)).
Record Inv (g : ghost) (s : state) : Prop := MkInv {
  i_hops : 0 ≤ hops (tr s) ≤ Z.max 1 (MAX_HOPS o);
  i_running : late g = false → stopped (tr s) = false → hops (tr s) < Z.max 1 (MAX_HOPS o);
  i_room : 0 ≤ dynamic_breakpoints (tr s) ∧ dynamic_breakpoints (tr s) + Z.max 0 (room g) ≤ most_breakpoints;
  i_calls : ∀ tp, entries_at tp (out s) ++ expected_at tp (tabs s) ++ owed tp (g_call g) ⊆+ calls_at tp (out s);
  i_returns : ∀ tp, returns_at tp (out s) ++ pending_at tp (tabs s) ++ owed tp (g_ret g) ⊆+ calls_at tp (out s);
  i_stops : stops (out s) = if stopped (tr s) then 1%nat else 0%nat;
  i_tables : ∀ i a c, bps s !! i = Some (a, Some c) → has_entry (tabs s) i c;
  i_keys : ∀ tp p, p ∈ listed tp (pending_returns (tabs s)) → source_tp (pe_source p) = tp;
}.
(** What a raising callback leaves. *)
Abbreviation wpi m Q := (wp m Q (λ _, Inv calm)).

Lemma inv_weaken g n s : Inv g s → n ≤ room g → late g = false → Inv (Ghost n None None false) s.
Proof.
  intros [] Hn Hl. constructor; try done; cbn.
  - intros _. by apply i_running0.
  - lia.
  - intros tp. rewrite app_nil_r. etransitivity; [|apply i_calls0]. rewrite app_assoc. by apply submseteq_inserts_r.
  - intros tp. rewrite app_nil_r. etransitivity; [|apply i_returns0]. rewrite app_assoc. by apply submseteq_inserts_r.
Qed.
Lemma inv_calm g s : Inv g s → late g = false → 0 ≤ room g → Inv calm s.
Proof. intros H Hl Hr. by eapply inv_weaken. Qed.

(** ** The rules *)

Lemma omap_snoc {A B} (f : A → option B) l x : omap f (l ++ [x]) = omap f l ++ option_list (f x).
Proof. rewrite omap_app. cbn. by destruct (f x). Qed.
Lemma calls_snoc tp l e : calls_at tp (l ++ [e]) = calls_at tp l ++ option_list (call_at tp e).
Proof. apply omap_snoc. Qed.
Lemma entries_snoc tp l e : entries_at tp (l ++ [e]) = entries_at tp l ++ option_list (entry_at tp e).
Proof. apply omap_snoc. Qed.
Lemma returns_snoc tp l e : returns_at tp (l ++ [e]) = returns_at tp l ++ option_list (return_at tp e).
Proof. apply omap_snoc. Qed.
Lemma stops_snoc l e : stops (l ++ [e]) = (stops l + if is_stop (em_record e) then 1 else 0)%nat.
Proof. unfold stops. rewrite List.filter_app, length_app. cbn. by destruct (is_stop _). Qed.

Lemma emit_kept g f r s :
  Inv g s → neutral r = true → wpi (emit f r) (λ _ s', Inv g s' ∧ tr s' = tr s ∧ tabs s' = tabs s) s.
Proof.
  intros [] Hr. apply wp_update. split; [|done]. constructor; cbn; try done;
    try intros tp; rewrite ?calls_snoc, ?entries_snoc, ?returns_snoc, ?stops_snoc;
    destruct r; try done; cbn; rewrite ?app_nil_r, ?Nat.add_0_r; auto.
Qed.
Lemma emit_then {A} g f r (k : () → SM A) Q s :
  Inv g s → neutral r = true → (∀ s', Inv g s' → tr s' = tr s → tabs s' = tabs s → wpi (k ()) Q s') → wpi (emit f r ≫= k) Q s.
Proof. intros Hi Hr Hk. eapply wp_then; [by apply emit_kept|]. intros [] s' (? & ? & ?). by apply Hk. Qed.
(** Changes of the origin and the filters only. *)
Lemma trace_kept g h s :
  Inv g s → (∀ t, stopped (h t) = stopped t ∧ hops (h t) = hops t ∧ dynamic_breakpoints (h t) = dynamic_breakpoints t) →
  wpi (update (with_trace h)) (λ _ s', Inv g s' ∧ tr s' = h (tr s) ∧ tabs s' = tabs s) s.
Proof.
  intros [] Hh. apply wp_update. split; [|done]. destruct (Hh (tr s)) as (H1 & H2 & H3).
  constructor; cbn; rewrite ?H1, ?H2, ?H3; done.
Qed.
Lemma trace_then {A} g h (k : () → SM A) Q s :
  Inv g s → (∀ t, stopped (h t) = stopped t ∧ hops (h t) = hops t ∧ dynamic_breakpoints (h t) = dynamic_breakpoints t) →
  (∀ s', Inv g s' → tr s' = h (tr s) → tabs s' = tabs s → wpi (k ()) Q s') → wpi (update (with_trace h) ≫= k) Q s.
Proof. intros Hi Hh Hk. eapply wp_then; [by apply trace_kept|]. intros [] s' (? & ? & ?). by apply Hk. Qed.
Lemma drop_owed g s : Inv g s → stopped (tr s) = true → 0 ≤ room g → Inv calm s.
Proof.
  intros [] Hs Hr. constructor; try done; cbn; try lia; try congruence; intros tp; rewrite app_nil_r;
    first [etransitivity; [|apply i_calls0]; rewrite app_assoc; by apply submseteq_inserts_r
          |etransitivity; [|apply i_returns0]; rewrite app_assoc; by apply submseteq_inserts_r].
Qed.
Lemma stop_inv g why f E s :
  Inv g s → 0 ≤ room g → wp (stop ranges why f) (λ b s', b = true ∧ Inv calm s' ∧ stopped (tr s') = true) E s.
Proof.
  intros Hi Hr. unfold stop. apply wp_bind, wp_gets. destruct (stopped (tr s)) eqn:Hs.
  { apply wp_ret. split_and!; [done|by eapply drop_owed|done]. }
  apply wp_bind, wp_update, wp_bind, wp_update, wp_ret. split_and!; [done| |done].
  apply (drop_owed g); [|done|done]. destruct Hi. constructor; cbn; try done;
    try intros tp; rewrite ?calls_snoc, ?entries_snoc, ?returns_snoc, ?stops_snoc; cbn; rewrite ?app_nil_r; auto.
  by rewrite i_stops0, Hs.
Qed.
Definition fits : Z := Z.max 2 (SCAN_INSTRUCTIONS o).
Lemma budget_inv g f E s :
  Inv g s → g_call g = None → g_ret g = None → 0 ≤ room g →
  wp (budget_check o ranges f) (λ over s', if (over : bool) then Inv calm s' ∧ stopped (tr s') = true
                                  else s' = s ∧ Inv (Ghost fits None None false) s) E s.
Proof.
  intros Hi Hc Hret Hr. unfold budget_check. apply wp_bind, wp_gets.
  assert (∀ why, wp (stop ranges why f) (λ over s', if (over : bool) then Inv calm s' ∧ stopped (tr s') = true
                                  else s' = s ∧ Inv (Ghost fits None None false) s) E s) as Hstop.
  { intros why. eapply wp_mono; [by apply (stop_inv g)| |done]. by intros b s' (-> & ?). }
  destruct (Z.leb_spec (MAX_HOPS o) (hops (tr s))) as [|Hh]; [apply Hstop|].
  destruct (Z.leb_spec (MAX_BREAKPOINTS o) (dynamic_breakpoints (tr s))) as [|Hb]; [apply Hstop|].
  destruct (_ && _); [apply Hstop|]. apply wp_ret. split; [done|].
  destruct Hi. rewrite Hc in *. rewrite Hret in *. constructor; cbn; try done; unfold fits, most_breakpoints in *; lia.
Qed.
Lemma inv_room g n s : Inv g s → n ≤ room g → late g = false → Inv (Ghost n (g_call g) (g_ret g) false) s.
Proof. intros [] Hn Hl. constructor; try done; cbn; [intros _; by apply i_running0|lia]. Qed.
(** A breakpoint that is planted is in the table of its callback. *)
Lemma new_breakpoint_inv g address c table s :
  Inv g s → 1 ≤ room g → late g = false →
  (∀ i t j d, has_entry t j d → has_entry (table i t) j d) → (∀ i t, has_entry (table i t) i c) →
  (∀ i t, expected (table i t) = expected t ∧ pending_returns (table i t) = pending_returns t) →
  wpi (new_breakpoint alloc address c table)
    (λ _ s', Inv (Ghost (room g - 1) (g_call g) (g_ret g) false) s' ∧ t_origin (tr s') = t_origin (tr s)) s.
Proof.
  intros Hi Hr Hl Hkeep Hnew Hsame. unfold new_breakpoint. apply wp_bind. unfold create, wp at 1.
  destruct (alloc (created s)) as [i|]; [|eapply inv_calm; [done|done|lia]].
  apply wp_bind, wp_update, wp_bind, wp_update, wp_bind, wp_update, wp_ret.
  split; [|done]. destruct Hi. destruct (Hsame i (tabs s)) as [He Hp].
  constructor; cbn; unfold expected_at, pending_at in *; rewrite ?He, ?Hp; try done; try lia.
  - intros _. by apply i_running0.
  - intros j a d Hj. destruct (decide (j = i)) as [->|Hne].
    + rewrite lookup_alter_eq, lookup_insert_eq in Hj. injection Hj as <- <-. apply Hnew.
    + rewrite lookup_alter_ne, lookup_insert_ne in Hj by done. by eapply Hkeep, i_tables0.
Qed.
Lemma has_entry_sites t i s j d : has_entry t j d → has_entry (set_sites (<[i := s]> (sites t)) t) j d.
Proof. destruct d; cbn; try done. intros H. destruct (decide (i = j)) as [->|]; [by rewrite lookup_insert_eq|by rewrite lookup_insert_ne]. Qed.
Lemma has_entry_targets t i s j d : has_entry t j d → has_entry (set_targets (<[i := s]> (targets t)) t) j d.
Proof. destruct d; cbn; try done. intros H. destruct (decide (i = j)) as [->|]; [by rewrite lookup_insert_eq|by rewrite lookup_insert_ne]. Qed.
Lemma has_entry_returns t i s j d : has_entry t j d → has_entry (set_returns (<[i := s]> (returns t)) t) j d.
Proof. destruct d; cbn; try done. intros H. destruct (decide (i = j)) as [->|]; [by rewrite lookup_insert_eq|by rewrite lookup_insert_ne]. Qed.
(** Changes of the tables that concern neither a callback nor a call. *)
Lemma tabs_then {A} g h (k : () → SM A) Q s :
  Inv g s →
  (∀ t, sites (h t) = sites t ∧ targets (h t) = targets t ∧ returns (h t) = returns t
        ∧ expected (h t) = expected t ∧ pending_returns (h t) = pending_returns t) →
  (∀ s', Inv g s' → tr s' = tr s → wpi (k ()) Q s') → wpi (update (with_tabs h) ≫= k) Q s.
Proof.
  intros [] Hh Hk. destruct (Hh (tabs s)) as (Hs & Ht & Hr & He & Hp).
  apply wp_bind, wp_update, Hk; [|done..]. constructor; cbn; unfold expected_at, pending_at in *; rewrite ?He, ?Hp; try done.
  intros i a c Hi. apply i_tables0 in Hi. destruct c; cbn in *; congruence.
Qed.
Lemma install_target_inv g address src s :
  Inv g s → 1 ≤ room g → late g = false →
  wpi (install_target alloc address src)
    (λ _ s', Inv (Ghost (room g - 1) (g_call g) (g_ret g) false) s' ∧ t_origin (tr s') = t_origin (tr s)) s.
Proof.
  intros Hi Hr Hl. unfold install_target. apply wp_bind, wp_gets. destruct (_ !! _) as [i|].
  { apply wp_ret. split; [|done]. apply inv_room; [done|lia|done]. }
  eapply wp_then.
  { apply new_breakpoint_inv; [exact Hi|done|done| | |]; intros.
    - by apply has_entry_targets.
    - cbn. by rewrite lookup_insert_eq.
    - done. }
  intros i s1 [H1 Ho]. eapply tabs_then; [exact H1|done|]. intros s2 H2 Htr. apply wp_ret. split; [exact H2|by rewrite Htr].
Qed.
Lemma install_return_inv g address s :
  Inv g s → 1 ≤ room g → late g = false →
  wpi (install_return alloc address)
    (λ _ s', Inv (Ghost (room g - 1) (g_call g) (g_ret g) false) s' ∧ t_origin (tr s') = t_origin (tr s)) s.
Proof.
  intros Hi Hr Hl. unfold install_return. apply wp_bind, wp_gets. destruct (_ !! _) as [i|].
  { apply wp_ret. split; [|done]. apply inv_room; [done|lia|done]. }
  eapply wp_then.
  { apply new_breakpoint_inv; [exact Hi|done|done| | |]; intros.
    - by apply has_entry_returns.
    - cbn. by rewrite lookup_insert_eq.
    - done. }
  intros i s1 [H1 Ho]. eapply tabs_then; [exact H1|done|]. intros s2 H2 Htr. apply wp_ret. split; [exact H2|by rewrite Htr].
Qed.
(** A recorded call is expected to enter its target, and to return. *)
Lemma listed_insert {A} tp tp' (l : list A) m : listed tp (<[tp' := l]> m) = if decide (tp' = tp) then l else listed tp m.
Proof. unfold listed. destruct (decide (tp' = tp)) as [->|]; [by rewrite lookup_insert_eq|by rewrite lookup_insert_ne]. Qed.
Lemma expect_call tp target src i n r s :
  Inv (Ghost n (Some (tp, (Some target, src))) r false) s →
  Inv (Ghost n None r false)
    (with_tabs (λ t, set_expected (<[tp := listed tp (expected t) ++ [Expectation target src i]]> (expected t)) t) s).
Proof.
  intros []. constructor; cbn in *; try done. intros tp'. specialize (i_calls0 tp'). rewrite app_nil_r.
  unfold expected_at in *. cbn. rewrite listed_insert. destruct (decide (tp = tp')) as [->|Hne].
  - rewrite bool_decide_true in i_calls0 by done. rewrite map_app. cbn. by rewrite app_assoc in *.
  - rewrite bool_decide_false, app_nil_r in i_calls0 by done. done.
Qed.
Lemma expect_return tp address target src start n c s :
  Inv (Ghost n c (Some (tp, (Some target, src))) false) s → source_tp src = tp →
  Inv (Ghost n c None false)
    (with_tabs (λ t, set_pending (<[tp := listed tp (pending_returns t) ++ [Pending address target src start]]> (pending_returns t)) t) s).
Proof.
  intros [] Htp. constructor; cbn in *; try done.
  - intros tp'. specialize (i_returns0 tp'). rewrite app_nil_r.
    unfold pending_at in *. cbn. rewrite listed_insert. destruct (decide (tp = tp')) as [->|Hne].
    + rewrite bool_decide_true in i_returns0 by done. rewrite map_app. cbn. by rewrite app_assoc in *.
    + rewrite bool_decide_false, app_nil_r in i_returns0 by done. done.
  - intros tp' p. rewrite listed_insert. destruct (decide (tp = tp')) as [->|]; [|by apply i_keys0].
    rewrite elem_of_app, list_elem_of_singleton. intros [Hp| ->]; [by apply i_keys0|done].
Qed.
Lemma lift_then {A B} g (r : res B) (k : B → SM A) Q s :
  Inv g s → late g = false → 0 ≤ room g → (∀ b, r = Ok b → wpi (k b) Q s) → wpi (lift r ≫= k) Q s.
Proof. intros Hi Hl Hr Hk. apply wp_bind, wp_lift; [done|]. intros e _. by eapply inv_calm. Qed.
Lemma queue_target_inv f tp target src (has_return : bool) s :
  Inv (Ghost 2 (Some (tp, (Some target, src))) (if has_return then Some (tp, (Some target, src)) else None) false) s →
  candidate_tp (t_origin (tr s)) = tp → source_tp src = tp →
  wpi (queue_target alloc f target src has_return) (λ _, Inv calm) s.
Proof.
  intros Hi Htp Hsrc. unfold queue_target. eapply wp_then; [by apply install_target_inv|].
  intros i s1 [H1 Ho]. cbn [room g_call g_ret] in H1. apply wp_bind, wp_gets. cbv zeta. rewrite Ho, Htp.
  apply expect_call with (i := i) in H1. apply wp_bind, wp_update.
  destruct has_return; [|apply wp_ret; by eapply inv_calm].
  eapply lift_then; [exact H1|done|done|]. intros address _. eapply wp_then; [by apply install_return_inv|].
  intros j s2 [H2 _]. cbn [room g_call g_ret] in H2.
  apply expect_return with (address := address) (start := f_now f) in H2; [|done]. apply wp_update. by eapply inv_calm.
Qed.
(** The scan plants at most one breakpoint per instruction. *)
Lemma scan_from_inv runtime first history found code s n :
  Inv (Ghost n None None false) s → zlen code ≤ n →
  wpi (scan_from alloc runtime first history found code) (λ _, Inv calm) s.
Proof.
  revert first history found n s. induction code as [|i code IH]; intros first history found n s Hi Hn; cbn [scan_from].
  { apply wp_ret. by eapply inv_calm; [| |cbn]. }
  rewrite zlen_cons in Hn. pose proof (zlen_nonneg code).
  destruct (_ && _); [apply wp_ret; eapply inv_calm; [done|done|cbn; lia]|].
  eapply (wp_then _ _ (λ _, Inv (Ghost (n - 1) None None false))).
  - destruct (target_register_of _ _) as [register|].
    + eapply lift_then; [exact Hi|done|cbn; lia|]. intros st _. eapply wp_then.
      * apply new_breakpoint_inv; [exact Hi|cbn; lia|done| | |]; intros; [by apply has_entry_sites|cbn; by rewrite lookup_insert_eq|done].
      * intros j s1 [H1 _]. by apply wp_ret.
    + apply wp_ret. apply (inv_room _ (n - 1)) in Hi; [done|cbn; lia|done].
  - intros found' s1 H1. cbv beta in H1. destruct (bool_decide _); [apply wp_ret; eapply inv_calm; [done|done|cbn; lia]|].
    eapply IH; [exact H1|lia].
Qed.
Lemma scan_target_inv f runtime s :
  Inv (Ghost fits None None false) s → wpi (scan_target o ranges alloc instructions f runtime) (λ _, Inv calm) s.
Proof.
  intros Hi. unfold scan_target. apply wp_bind, wp_gets. assert (0 ≤ fits) by (unfold fits; lia).
  destruct (bool_decide _); [apply wp_ret; by eapply inv_calm|].
  eapply tabs_then; [exact Hi|done|]. intros s1 H1 _. eapply lift_then; [exact H1|done|done|]. intros address _. cbv zeta.
  eapply wp_then; [eapply scan_from_inv; [exact H1|]|].
  { pose proof (Hcount address (SCAN_INSTRUCTIONS o)). unfold zlen, fits in *. rewrite length_map. lia. }
  intros found s2 H2. cbv beta in H2. eapply emit_then; [exact H2|done|]. intros s3 H3 _ _. by apply wp_ret.
Qed.
(** ** The callbacks *)

Definition kept (b : bool) (s : state) : Prop := Inv calm s ∧ (b = true → stopped (tr s) = true).
(** LLDB gives a general register of a stopped thread's frame. *)
Definition frame_ok (f : frame) : Prop := is_Some (reg f "x0").

Lemma meta_runtime a : m_runtime (address_meta ranges a) = a.
Proof. unfold address_meta. destruct (static_address a) as [s|]; [|done]. by destruct (List.find _ _) as [[[] ?]|]. Qed.
Lemma registers_tp f : mjoin (dget (u "tpidr_el1") (registers f)) = reg f "tpidr_el1".
Proof. reflexivity. Qed.
Lemma matches_running f t : matches f t = true → stopped t = false ∧ reg f "tpidr_el1" = candidate_tp (t_origin t).
Proof.
  unfold matches. intros [[[_ Hs]%andb_prop Htp%bool_decide_eq_true]%andb_prop _]%andb_prop.
  split; [by apply negb_true_iff|done].
Qed.
Lemma ret_false s : Inv calm s → wpi (mret (M:=SM) false) kept s.
Proof. intros H. apply wp_ret. split; [exact H|done]. Qed.
Lemma over_then f (k : SM bool) g s :
  Inv g s → g_call g = None → g_ret g = None → 0 ≤ room g →
  (Inv (Ghost fits None None false) s → wpi k kept s) →
  wpi (over ← budget_check o ranges f; if (over : bool) then mret true else k) kept s.
Proof.
  intros Hi Hc Hr Hn Hk. eapply wp_then; [by eapply budget_inv|]. intros [] s1 H1; cbn in H1.
  - destruct H1. apply wp_ret. by split.
  - destruct H1 as [-> H1]. by apply Hk.
Qed.
(** The call is recorded and its target and return are queued. *)
Lemma call_then {A} f tail target src (k : () → SM A) Q n s :
  Inv (Ghost n None None false) s →
  (∀ s', Inv (Ghost n (Some (source_tp src, (Some target, src))) (Some (source_tp src, (Some target, src))) false) s' →
     tr s' = tr s → wpi (k ()) Q s') →
  wpi (emit f (RCall tail (address_meta ranges (Some target)) src) ≫= k) Q s.
Proof.
  intros [] Hk. apply wp_bind, wp_update, Hk; [|done]. constructor; cbn in *; try done.
  - intros tp. rewrite entries_snoc, calls_snoc. cbn. rewrite app_nil_r, meta_runtime. specialize (i_calls0 tp).
    rewrite app_nil_r in i_calls0. rewrite app_assoc. by destruct (bool_decide _); apply submseteq_app.
  - intros tp. rewrite returns_snoc, calls_snoc. cbn. rewrite app_nil_r, meta_runtime. specialize (i_returns0 tp).
    rewrite app_nil_r in i_returns0. rewrite app_assoc. by destruct (bool_decide _); apply submseteq_app.
  - rewrite stops_snoc. cbn. lia.
Qed.
Lemma no_return n c r s : Inv (Ghost n c r false) s → Inv (Ghost n c None false) s.
Proof.
  intros []. constructor; try done. cbn. intros tp. rewrite app_nil_r. etransitivity; [|apply i_returns0].
  rewrite app_assoc. by apply submseteq_inserts_r.
Qed.
Lemma queue_then f tail target src (has_return : bool) s :
  Inv (Ghost fits None None false) s → source_tp src = candidate_tp (t_origin (tr s)) →
  wpi (_ ← emit f (RCall tail (address_meta ranges (Some target)) src); _ ← queue_target alloc f target src has_return; mret false) kept s.
Proof.
  intros Hi Htp. eapply call_then; [exact Hi|]. intros s1 H1 Htr.
  eapply (wp_then _ _ (λ _, Inv calm)); [|intros [] s2 H2; by apply ret_false].
  eapply (queue_target_inv f (source_tp src)); [|by rewrite Htr|done].
  apply (inv_room _ 2) in H1; [|cbn; unfold fits; lia|done]. destruct has_return; [exact H1|by eapply no_return].
Qed.
Lemma pop_last_perm {A} (p : A → bool) l x rest : pop_last p l = Some (x, rest) → l ≡ₚ x :: rest ∧ p x = true.
Proof.
  revert rest. induction l as [|y l IH]; intros rest H; cbn in H; [done|].
  destruct (pop_last p l) as [[z l']|].
  - injection H as <- <-. destruct (IH l' eq_refl) as [-> Hp]. split; [apply Permutation_swap|done].
  - destruct (p y) eqn:Hy; [|done]. by injection H as <- <-.
Qed.

Lemma stage2_pre_kept f s : Inv calm s → wpi (on_stage2_pre o ranges alloc f) kept s.
Proof.
  intros Hi. unfold on_stage2_pre. apply wp_bind, wp_gets.
  eapply (wp_then _ _ (λ _ s', Inv calm s' ∧ candidate_tp (t_origin (tr s')) = reg f "tpidr_el1")).
  { apply wp_when; intros Hc.
    - unfold rebase. eapply trace_then; [exact Hi|done|]. intros s1 H1 Htr _.
      eapply wp_mono; [apply emit_kept; [exact H1|done]| |done]. intros [] s2 (H2 & Ht & _). split; [exact H2|by rewrite Ht, Htr].
    - split; [exact Hi|]. apply orb_false_iff in Hc as [Hm _]. apply negb_false_iff in Hm. symmetry.
      by apply matches_running in Hm as []. }
  intros [] s1 [H1 Htp]. eapply over_then; [exact H1|done..|]. intros H2. cbv zeta.
  eapply lift_then; [exact H2|done|unfold fits; cbn; lia|]. intros src Hsrc.
  eapply queue_then; [exact H2|]. rewrite Htp. unfold stage2_source in Hsrc. simpl_res. apply registers_tp.
Qed.
Lemma stop_kept g why f s : Inv g s → 0 ≤ room g → wpi (stop ranges why f) kept s.
Proof.
  intros Hi Hr. eapply wp_mono; [by apply (stop_inv g why f (λ _, Inv calm))| |done]. by intros b s' (-> & ? & ?).
Qed.
Lemma indirect_call_kept f i s : Inv calm s → wpi (on_indirect_call o ranges alloc f i) kept s.
Proof.
  intros Hi. unfold on_indirect_call. apply wp_bind, wp_gets. destruct (matches f (tr s)) eqn:Hm; [|by apply ret_false].
  apply matches_running in Hm as [_ Htp]. cbn [negb]. eapply over_then; [exact Hi|done..|]. intros H1.
  apply wp_bind, wp_gets. eapply lift_then; [exact H1|done|unfold fits; cbn; lia|]. intros st _. cbv zeta.
  destruct (_ =? 0).
  - by eapply stop_kept; [exact H1|unfold fits; cbn; lia].
  - eapply queue_then; [exact H1|]. rewrite <-Htp. apply registers_tp.
Qed.
Lemma gate_then {A} f g (k : () → SM A) s Q :
  frame_ok f → Inv g s → (∀ s', Inv g s' → tabs s' = tabs s → wpi (k ()) Q s') → ∀ address,
  wpi ((if address - KSLIDE =? 0xfffffff00b23b410 then
               _ ← update (with_trace (λ t, set_filters (set_gate (reg f "x0") (reg f "x1") (lock (t_filters t)) (t_filters t)) t));
               own ← lift (opt_or (reg f "x0") (TypeError "None + int"));
               update (with_trace (λ t, set_filters (set_gate (reg f "x0") (reg f "x1") (u64 f (Some (own + 0x10))) (t_filters t)) t))
             else mret ()) ≫= k) Q s.
Proof.
  intros [x0 Hx] Hi Hk address. destruct (_ =? _); [|by apply wp_bind, wp_ret, Hk].
  rewrite Hx. apply wp_bind. eapply trace_then; [exact Hi|done|]. intros s1 H1 _ Ht1. cbn [opt_or].
  apply wp_bind, wp_lift; [|done]. intros own [= <-].
  eapply wp_mono; [by apply trace_kept| |done]. intros [] s2 (H2 & _ & Ht2). apply Hk; [exact H2|by rewrite Ht2].
Qed.
Lemma target_entry_kept f i s : frame_ok f → Inv calm s → wpi (on_target_entry o ranges alloc instructions f i) kept s.
Proof.
  intros Hf Hi. unfold on_target_entry. apply wp_bind, wp_gets. destruct (matches f (tr s)) eqn:Hm; [|by apply ret_false].
  apply matches_running in Hm as [Hs Htp]. cbn [negb]. apply wp_bind, wp_gets.
  eapply lift_then; [exact Hi|done|done|]. intros [address src] _. cbv zeta.
  destruct (pop_last _ _) as [[e rest]|] eqn:Hpop; [|by apply ret_false].
  apply pop_last_perm in Hpop as [Hperm He%Z.eqb_eq].
  apply wp_bind, wp_update, wp_bind, wp_update, wp_bind, wp_update.
  match goal with |- wp _ _ _ ?s1 => assert (Inv (Ghost 0 None None true) s1) as H1 end.
  { destruct Hi. constructor; cbn; try done.
    - specialize (i_running0 eq_refl Hs). lia.
    - intros tp. rewrite entries_snoc, calls_snoc. unfold entry_at, call_at; cbn [em_record option_list].
      rewrite !app_nil_r, meta_runtime. specialize (i_calls0 tp). cbn in i_calls0. rewrite app_nil_r in i_calls0.
      etransitivity; [|exact i_calls0]. unfold expected_at. cbn. rewrite listed_insert.
      destruct (decide _) as [<-|Hne]; [|by rewrite bool_decide_false, app_nil_r].
      rewrite bool_decide_true by done. rewrite Hperm. cbn. rewrite He, <-app_assoc. done.
    - intros tp. rewrite returns_snoc, calls_snoc. cbn. rewrite !app_nil_r. specialize (i_returns0 tp). by rewrite app_nil_r in i_returns0.
    - rewrite stops_snoc. cbn. lia. }
  eapply gate_then; [done|exact H1|]. intros s2 H2 _. eapply over_then; [exact H2|done..|]. intros H3.
  eapply wp_then; [by apply scan_target_inv|]. intros found s4 H4. by apply ret_false.
Qed.
Lemma dynamic_return_kept f i s : Inv calm s → wpi (on_dynamic_return ranges f i) kept s.
Proof.
  intros Hi. unfold on_dynamic_return. apply wp_bind, wp_gets. destruct (matches f (tr s)) eqn:Hm; [|by apply ret_false].
  cbn [negb]. apply wp_bind, wp_gets. eapply lift_then; [exact Hi|done|done|]. intros address _. cbv zeta.
  destruct (pop_last _ _) as [[p rest]|] eqn:Hpop; [|by apply ret_false].
  apply pop_last_perm in Hpop as [Hperm _].
  apply wp_bind, wp_update, wp_bind, wp_update, ret_false. destruct Hi. constructor; cbn; try done.
  - intros tp. rewrite entries_snoc, calls_snoc. cbn. rewrite !app_nil_r. specialize (i_calls0 tp). by rewrite app_nil_r in i_calls0.
  - assert (source_tp (pe_source p) = candidate_tp (t_origin (tr s))) as Hk by (apply i_keys0; rewrite Hperm; by left).
    intros tp. rewrite returns_snoc, calls_snoc. unfold return_at, call_at; cbn [em_record option_list].
    rewrite !app_nil_r, meta_runtime. specialize (i_returns0 tp). cbn in i_returns0. rewrite app_nil_r in i_returns0.
    etransitivity; [|exact i_returns0]. unfold pending_at. cbn. rewrite listed_insert, Hk.
    destruct (decide _) as [<-|Hne]; [|by rewrite bool_decide_false, app_nil_r].
    rewrite bool_decide_true by done. rewrite Hperm. cbn. by rewrite <-app_assoc.
  - rewrite stops_snoc. cbn. lia.
  - intros tp q. rewrite listed_insert. destruct (decide _) as [<-|Hne]; [|by apply i_keys0].
    intros Hq. apply i_keys0. rewrite Hperm. by right.
Qed.
Lemma stage2_return_kept f s : Inv calm s → wpi (on_stage2_return o ranges alloc instructions f) kept s.
Proof.
  intros Hi. unfold on_stage2_return. apply wp_bind, wp_gets. destruct (negb _); [by apply ret_false|].
  destruct (STOP_ON_STAGE2_RETURN o); [by eapply stop_kept|].
  eapply emit_then; [exact Hi|done|]. intros s1 H1 _ _. eapply trace_then; [exact H1|done|]. intros s2 H2 _ _.
  eapply over_then; [exact H2|done..|]. intros H3. eapply wp_then; [by apply scan_target_inv|]. intros found s4 H4. by apply ret_false.
Qed.
Lemma wait_primitive_kept f s : Inv calm s → wpi (on_wait_primitive o ranges f) kept s.
Proof.
  intros Hi. unfold on_wait_primitive. apply wp_bind, wp_gets. cbv zeta. destruct (negb _); [by apply ret_false|].
  destruct (truthy _ && _); [by apply ret_false|]. eapply trace_then; [exact Hi|done|]. intros s1 H1 _ _.
  destruct (STOP_ON_WAIT o); [by eapply stop_kept|]. eapply emit_then; [exact H1|done|]. intros s2 H2 _ _. by apply ret_false.
Qed.
Lemma afk_state_kept f s : Inv calm s → wpi (on_afk_state f) kept s.
Proof.
  intros Hi. unfold on_afk_state. apply wp_bind, wp_gets. destruct (_ && _); [|by apply ret_false]. cbv zeta.
  eapply trace_then; [exact Hi|done|]. intros s1 H1 _ _. eapply (wp_then _ _ (λ _, Inv calm)); [|intros [] s2 H2; by apply ret_false].
  apply wp_when; intros _; [|exact H1]. eapply wp_mono; [by apply trace_kept| |done]. by intros [] s2 [].
Qed.
Lemma afk_request_kept f s : Inv calm s → wpi (on_afk_request f) kept s.
Proof.
  intros Hi. unfold on_afk_request. apply wp_bind, wp_gets. cbv zeta. destruct (_ || _); [by apply ret_false|].
  destruct (reg f "x1" ≫= _) as [offset|]; [|by apply ret_false]. eapply lift_then; [exact Hi|done|done|]. intros c _.
  eapply trace_then; [exact Hi|done|]. intros s1 H1 _ _. by apply ret_false.
Qed.
Lemma transition_kept f s : Inv calm s → wpi (on_transition f) kept s.
Proof.
  intros Hi. unfold on_transition. apply wp_bind, wp_gets. cbv zeta. destruct (_ || _); [by apply ret_false|].
  eapply emit_then; [exact Hi|done|]. intros s1 H1 _ _. destruct (_ && _); [|by apply ret_false].
  eapply trace_then; [exact H1|done|]. intros s2 H2 _ _. eapply emit_then; [exact H2|done|]. intros s3 H3 _ _. by apply ret_false.
Qed.
(** The callbacks that only witness. *)
Ltac witness := repeat first
  [by apply ret_false
  |match goal with |- wp (mbind _ (gets _)) _ _ _ => apply wp_bind, wp_gets; cbv zeta end
  |eapply emit_then; [eassumption|done|intros ? ? _ _]
  |eapply lift_then; [eassumption|done|done|intros ? _]
  |eapply trace_then; [eassumption|done|intros ? ? _ _]
  |case_match].
Lemma completion_kept f s : Inv calm s → wpi (on_completion ranges f) kept s.
Proof. intros Hi. unfold on_completion. witness. Qed.
Lemma state_tx_kept f s : Inv calm s → wpi (on_state_tx ranges f) kept s.
Proof. intros Hi. unfold on_state_tx. witness. Qed.
Lemma state_rx_kept f s : Inv calm s → wpi (on_state_rx ranges f) kept s.
Proof. intros Hi. unfold on_state_rx. witness. Qed.
Lemma state_apply_kept f s : Inv calm s → wpi (on_state_apply ranges f) kept s.
Proof. intros Hi. unfold on_state_apply. witness. Qed.
Lemma task_mode_kept f s : Inv calm s → wpi (on_task_mode ranges f) kept s.
Proof. intros Hi. unfold on_task_mode. witness. Qed.
Lemma callback_kept c f i s : frame_ok f → Inv calm s → wpi (run_callback o ranges alloc instructions c f i) kept s.
Proof.
  intros Hf Hi. destruct c; cbn [run_callback].
  - by apply afk_state_kept. - by apply afk_request_kept. - by apply transition_kept. - by apply stage2_pre_kept.
  - by apply stage2_return_kept. - by apply wait_primitive_kept. - by apply completion_kept. - by apply state_tx_kept.
  - by apply state_rx_kept. - by apply state_apply_kept. - by apply task_mode_kept. - by apply indirect_call_kept.
  - by apply target_entry_kept. - by apply dynamic_return_kept.
Qed.

(** ** Reachable states

    A breakpoint is hit and its callback runs, to the end or to an exception. *)
Definition ready (s : state) : Prop :=
  tabs s = no_tables ∧ tr s = no_trace ∧ out s = []
  ∧ ∀ i a c, bps s !! i = Some (a, Some c) → c ∉ [OnIndirectCall; OnTargetEntry; OnDynamicReturn].
Inductive reachable : state → Prop :=
  | reach_ready s : ready s → reachable s
  | reach_hit s i a c f :
      reachable s → bps s !! i = Some (a, Some c) → frame_ok f →
      reachable (run_callback o ranges alloc instructions c f i s).2.

Lemma ready_inv s : ready s → Inv calm s.
Proof.
  intros (Ht & Hr & Ho & Hb). constructor; rewrite ?Ht, ?Hr, ?Ho; cbn; try lia; try done; try (by intros tp); unfold most_breakpoints; try lia.
  2: { intros tp p. unfold listed. rewrite lookup_empty. cbn. intros Hp. by apply not_elem_of_nil in Hp. }
  intros i a c Hi. apply Hb in Hi. destruct c; cbn; try done; set_solver.
Qed.
Lemma reachable_kept s : reachable s → Inv calm s.
Proof.
  induction 1 as [s H|s i a c f _ IH Hi Hf]; [by apply ready_inv|].
  pose proof (callback_kept c f i s Hf IH) as H. unfold wp in H. destruct (run_callback _ _ _ _ _ _ _ _) as [[b|e] s']; [apply H|exact H].
Qed.

(** C13: in every reachable state of the SMMachine tracer the recorded entries and
    returns are answers: on every thread pointer they match one to one with
    earlier recorded calls of that thread to the same targets, and with those
    still expected they are no more than the calls. *)
Theorem entries_answer_calls s (H : reachable s) tp :
  entries_at tp (out s) ++ expected_at tp (tabs s) ⊆+ calls_at tp (out s)
  ∧ returns_at tp (out s) ++ pending_at tp (tabs s) ⊆+ calls_at tp (out s).
Proof.
  apply reachable_kept in H as []. specialize (i_calls0 tp). specialize (i_returns0 tp). cbn in *. rewrite app_nil_r in *. done.
Qed.
(** *** The tables behind the breakpoints *)

Abbreviation Finds := (Holds (λ _ : state, True) (λ e, ∀ k, e ≠ KeyError k)).
Lemma finds_lift {A} (r : res A) : (∀ k, r ≠ Raise (KeyError k)) → Finds (lift r).
Proof. intros H. apply holds_lift. intros e -> k ->. by apply (H k). Qed.
Lemma finds_update h : Finds (update h).
Proof. by apply holds_update. Qed.
#[local] Hint Extern 1 (Holds _ _ (update _)) => apply finds_update : typeclass_instances.
#[local] Hint Extern 1 (Holds _ _ (emit _ _)) => apply finds_update : typeclass_instances.
#[local] Hint Extern 1 (Holds _ _ (attach _ _)) => apply finds_update : typeclass_instances.
#[local] Instance finds_type {A} (v : option A) msg : Finds (lift (opt_or v (TypeError msg))).
Proof. apply finds_lift. by destruct v. Qed.
#[local] Instance finds_some {A} (x : A) e : Finds (lift (opt_or (Some x) e)).
Proof. by apply finds_lift. Qed.
#[local] Instance create_finds a : Finds (create alloc a).
Proof. intros s _. unfold create, keeps_at. by destruct (alloc (created s)). Qed.
#[local] Instance stop_finds why f : Finds (stop ranges why f).
Proof. unfold stop. apply _. Qed.
#[local] Instance budget_finds f : Finds (budget_check o ranges f).
Proof. unfold budget_check. apply _. Qed.
#[local] Instance install_target_finds a src : Finds (install_target alloc a src).
Proof. unfold install_target, new_breakpoint. apply _. Qed.
#[local] Instance install_return_finds a : Finds (install_return alloc a).
Proof. unfold install_return, new_breakpoint. apply _. Qed.
#[local] Instance queue_finds f t src r : Finds (queue_target alloc f t src r).
Proof. unfold queue_target. apply _. Qed.
Lemma int0_key n k : int0 n ≠ Raise (KeyError k).
Proof. unfold int0. by destruct (int0_opt n). Qed.
Lemma infer_key h r k : infer_from h r ≠ Raise (KeyError k).
Proof.
  revert r. induction h as [|i h IH]; intros r; cbn; [done|]. destruct (moved i r); [apply IH|].
  destruct (loaded i r) as [[base n]|]; [|apply IH]. pose proof (int0_key n k). destruct (int0 n); cbn; congruence.
Qed.
#[local] Instance site_finds rt h i r : Finds (lift (site_of rt h i r)).
Proof.
  apply finds_lift. intros k. unfold site_of, infer_slot. destruct (dget _ _); [done|].
  pose proof (infer_key (take 20 (reverse h)) r k) as H. destruct (infer_from _ _) as [[]|]; cbn; congruence.
Qed.
#[local] Instance scan_from_finds rt first h n code : Finds (scan_from alloc rt first h n code).
Proof.
  revert first h n. induction code as [|i code IH]; intros first h n; cbn [scan_from]; unfold new_breakpoint; apply _.
Qed.
#[local] Instance scan_finds f rt : Finds (scan_target o ranges alloc instructions f rt).
Proof. unfold scan_target. apply _. Qed.
#[local] Instance source_finds f op ctx : Finds (lift (stage2_source ranges f op ctx)).
Proof. apply finds_lift. intros k. unfold stage2_source. by destruct (reg f "pc"). Qed.
#[local] Instance same_tabs_refl : Reflexive (λ s s' : state, tabs s' = tabs s). Proof. done. Qed.
#[local] Instance same_tabs_trans : Transitive (λ s s' : state, tabs s' = tabs s). Proof. intros s1 s2 s3. congruence. Qed.
Lemma budget_tabs f : Leads (λ s s', tabs s' = tabs s) (budget_check o ranges f).
Proof.
  unfold budget_check, stop.
  assert (∀ r, Leads (λ s s' : state, tabs s' = tabs s) (emit f r)) by done.
  assert (Leads (λ s s' : state, tabs s' = tabs s) (update (with_trace set_stopped))) by done.
  apply _.
Qed.
Lemma callback_finds c f i s : has_entry (tabs s) i c → (run_callback o ranges alloc instructions c f i s).1 ≠ Raise (KeyError (dec i)).
Proof.
  intros Hc.
  enough (keeps_at (λ _ : state, True) (λ e, ∀ k, e ≠ KeyError k) (run_callback o ranges alloc instructions c f i) s) as [_ H].
  { intros E. rewrite E in H. by apply (H (dec i)). }
  destruct c; cbn [run_callback has_entry] in *;
    lazymatch goal with
    | |- keeps_at _ _ (on_indirect_call _ _ _ _ _) _ => idtac
    | |- keeps_at _ _ (on_target_entry _ _ _ _ _ _) _ => idtac
    | |- keeps_at _ _ (on_dynamic_return _ _ _) _ => idtac
    | |- keeps_at _ _ ?m _ =>
        enough (Finds m) as Hm by (apply Hm; exact I);
        unfold on_afk_state, on_afk_request, on_transition, on_stage2_pre, rebase, on_stage2_return, on_wait_primitive,
          on_completion, on_state_tx, on_state_rx, on_state_apply, on_task_mode; apply _
    end; destruct Hc as [x Hx].
  - unfold on_indirect_call. apply keeps_gets. destruct (negb _); [done|].
    eapply (keeps_leads _ _ (λ s s', tabs s' = tabs s)); [apply budget_tabs|apply _|done|]. intros [] s1 _ Ht; [done|].
    apply keeps_gets. rewrite Ht, Hx. match goal with |- keeps_at _ _ ?m _ => enough (Finds m) as Hm by (apply Hm; exact I) end.
    apply _.
  - unfold on_target_entry. apply keeps_gets. destruct (negb _); [done|]. apply keeps_gets. rewrite Hx.
    match goal with |- keeps_at _ _ ?m _ => enough (Finds m) as Hm by (apply Hm; exact I) end.
    apply holds_bind; [apply _|]. intros []. cbv zeta. destruct (pop_last _ _) as [[]|]; apply _.
  - unfold on_dynamic_return. apply keeps_gets. destruct (negb _); [done|]. apply keeps_gets. rewrite Hx.
    match goal with |- keeps_at _ _ ?m _ => enough (Finds m) as Hm by (apply Hm; exact I) end.
    apply holds_bind; [apply _|]. intros address. cbv zeta. destruct (pop_last _ _) as [[]|]; apply _.
Qed.

(** C14: the budgets of the SMMachine tracer bound it: the hops never exceed
    MAX_HOPS (or one), and the breakpoints it plants never exceed
    MAX_BREAKPOINTS - 1 + max(2, SCAN_INSTRUCTIONS): the budget is tested before
    a scan or a call, not within it, so that one of them may go past it.  At most
    one stop is recorded, and exactly one when a callback leaves the guest
    stopped; and a callback always finds the table entry of its own breakpoint. *)
Theorem sm_trace_bounded s (H : reachable s) :
  hops (tr s) ≤ Z.max 1 (MAX_HOPS o)
  ∧ dynamic_breakpoints (tr s) ≤ Z.max 0 (MAX_BREAKPOINTS o - 1 + Z.max 2 (SCAN_INSTRUCTIONS o))
  ∧ (stops (out s) ≤ 1)%nat
  ∧ ∀ i a c f, bps s !! i = Some (a, Some c) → frame_ok f →
      let r := run_callback o ranges alloc instructions c f i s in
      r.1 ≠ Raise (KeyError (dec i)) ∧ (r.1 = Ok true → stops (out r.2) = 1%nat).
Proof.
  apply reachable_kept in H. pose proof H as []. unfold most_breakpoints in *. cbn in *.
  split_and!; [lia|lia|rewrite i_stops0; destruct (stopped _); lia|].
  intros i a c f Hi Hf. split; [by eapply callback_finds, i_tables0|]. intros Hr.
  pose proof (callback_kept c f i s Hf H) as Hk. unfold wp in Hk. destruct (run_callback _ _ _ _ _ _ _ _) as [res s'].
  cbn in *. rewrite Hr in Hk. destruct Hk as [[] Hs]. by rewrite i_stops1, Hs.
Qed.
End invariant.

(** ** A stop is final

    Records of a thread that is no longer followed: what the callbacks see that
    do not ask for the thread, and the calls of the stage-2 executor. *)
Definition passive (r : record) : bool :=
  match r with
  | RTarget _ _ _ _ _ | RReturn _ _ _ _ _ | RStage2Return _ _ _ _ _ | RWait _ _ _ _ | RStop _ _ _ _ _ | RScan _ _ _ => false
  | _ => true
  end.
Definition silent (s s' : state) : Prop :=
  stopped (tr s) = true →
  stopped (tr s') = true ∧ hops (tr s') = hops (tr s)
  ∧ ∃ l, out s' = out s ++ l ∧ Forall (λ e, passive (em_record e) = true) l.
#[local] Instance silent_refl : Reflexive silent.
Proof. intros s Hs. split_and!; [done..|]. exists []. by rewrite app_nil_r. Qed.
#[local] Instance silent_trans : Transitive silent.
Proof.
  intros s1 s2 s3 H1 H2 Hs. destruct (H1 Hs) as (Hs2 & Hh & l & Hl1 & Hl). destruct (H2 Hs2) as (? & ? & k & Hk1 & Hk).
  split_and!; [done|congruence|]. exists (l ++ k). rewrite Hk1, Hl1, <-app_assoc. split; [done|by apply Forall_app].
Qed.

Section final.
Variable o : options.
Variable ranges : list (Z * Z * list Z).
Variable alloc : Z → option Z.
Variable instructions : Z → Z → list insn.

Lemma silent_emit f r : passive r = true → Leads silent (emit f r).
Proof. intros Hr s Hs. split_and!; [done..|]. eexists. split; [done|]. by constructor. Qed.
Lemma silent_trace h : (∀ t, stopped (h t) = stopped t ∧ hops (h t) = hops t) → Leads silent (update (with_trace h)).
Proof.
  intros Hh s Hs. destruct (Hh (tr s)) as [H1 H2]. cbn. rewrite H1, H2. split_and!; [done..|]. exists []. by rewrite app_nil_r.
Qed.
Lemma silent_tabs h : Leads silent (update (with_tabs h)).
Proof. intros s Hs. split_and!; [done..|]. exists []. by rewrite app_nil_r. Qed.
#[local] Hint Extern 1 (Leads _ (update (with_trace _))) => apply silent_trace; done : typeclass_instances.
#[local] Hint Extern 1 (Leads _ (update (with_tabs _))) => apply silent_tabs : typeclass_instances.
#[local] Hint Extern 1 (Leads _ (emit _ _)) => apply silent_emit; reflexivity : typeclass_instances.
#[local] Instance silent_attach i c : Leads silent (attach i c).
Proof. intros s Hs. split_and!; [done..|]. exists []. by rewrite app_nil_r. Qed.
#[local] Instance silent_create a : Leads silent (create alloc a).
Proof. intros s Hs. unfold create. destruct (alloc _); (split_and!; [done..|]; exists []; by rewrite app_nil_r). Qed.
#[local] Instance silent_stop why f : Leads silent (stop ranges why f).
Proof. intros s Hs. unfold stop, mbind, se_bind, gets. rewrite Hs. by apply silent_refl. Qed.
#[local] Instance silent_budget f : Leads silent (budget_check o ranges f).
Proof. unfold budget_check. apply _. Qed.
#[local] Instance silent_install_target a src : Leads silent (install_target alloc a src).
Proof. unfold install_target, new_breakpoint. apply _. Qed.
#[local] Instance silent_install_return a : Leads silent (install_return alloc a).
Proof. unfold install_return, new_breakpoint. apply _. Qed.
#[local] Instance silent_queue f t src r : Leads silent (queue_target alloc f t src r).
Proof. unfold queue_target. apply _. Qed.

Lemma callback_silent c f i : Leads silent (run_callback o ranges alloc instructions c f i).
Proof.
  assert (∀ (m : trace → SM bool) s, stopped (tr s) = true → silent s ((t ← gets tr; if negb (matches f t) then mret false else m t) s).2) as Hm.
  { intros m s Hs. unfold mbind, se_bind, gets, matches. rewrite Hs, andb_false_r. by apply silent_refl. }
  destruct c; cbn [run_callback];
    try (unfold on_stage2_return, on_wait_primitive, on_indirect_call, on_target_entry, on_dynamic_return; cbv zeta;
         intros s Hs; exact (Hm _ s Hs Hs)).
  - unfold on_afk_state. apply _.
  - unfold on_afk_request. apply _.
  - unfold on_transition. apply _.
  - unfold on_stage2_pre, rebase. apply _.
  - unfold on_completion. apply _.
  - unfold on_state_tx. apply _.
  - unfold on_state_rx. apply _.
  - unfold on_state_apply. apply _.
  - unfold on_task_mode. apply _.
Qed.
Definition hit (s s' : state) : Prop :=
  ∃ i a c f, bps s !! i = Some (a, Some c) ∧ s' = (run_callback o ranges alloc instructions c f i s).2.
(** C15: a stop of the SMMachine tracer is final.  Whatever is hit after it, and
    although the stage-2 executor goes on rebasing the origin, no entry, return,
    wait, scan or stop is recorded any more and no hop is counted. *)
Theorem stop_is_final s s' (Hstop : stopped (tr s) = true) (Hhits : rtc hit s s') :
  stopped (tr s') = true ∧ hops (tr s') = hops (tr s)
  ∧ ∃ l, out s' = out s ++ l ∧ Forall (λ e, passive (em_record e) = true) l.
Proof.
  revert Hstop. change (silent s s'). induction Hhits as [s|s1 s2 s3 (i & a & c & f & _ & ->) _ IH]; [reflexivity|].
  etransitivity; [|exact IH]. apply (callback_silent c f i).
Qed.
End final.
