(* ===== verification/SmTraceRun.v ===== *)
(** * A run of the SMMachine tracer

    A client asks for state 1, the transition arms the tracer, the stage-2
    executor calls an action whose code calls on, and the thread goes to sleep.
    The states of this run carry the examples of the tracer's theorems. *)

From stdpp Require Import base tactics list gmap strings relations.
From Stdlib Require Import Strings.Byte.
From S2P Require Import Prelude PyState PyBytes PyStr PyDict StartupDecode SmTrace SmTraceProps.
Open Scope Z_scope.

(** A frame of thread 7: registers that are not listed are 0, memory that is
    not listed cannot be read. *)
Definition frame_of (regs : list (string * Z)) (words : list (Z * Z)) : frame :=
  Frame (λ n, Some (default 0 (dget n (map (λ r, (u r.1, r.2)) ((("tpidr_el1"%string, 0x10) :: regs))))))
    (λ a n, w ← dget a words; if n =? 8 then Some (le_bytes 8 w) else None) [] 7 1000.
Lemma frame_of_ok regs words : frame_ok (frame_of regs words).
Proof. by eexists. Qed.

Definition sample_options : options := Options 16 96 45000 128 true true.
Definition ACTION : Z := 0xfffffff028b81e50.
Definition CALLEE : Z := 0xfffffff028b90000.
(** The action: a load, a call through x9, a return; another function overlaps
    its tail. *)
Definition sample_code (address : Z) : list insn :=
  [Insn address (u "PACIBSP") []; Insn (address + 4) (u "ldr") (u "x9, [x16, #0x100]");
   Insn (address + 8) (u "blraa") (u "x9, x17"); Insn (address + 12) (u "retab") []].
Definition at_most (code : Z → list insn) (address count : Z) : list insn := take (Z.to_nat count) (code address).
Lemma at_most_count code address count : zlen (at_most code address count) ≤ Z.max 0 count.
Proof. unfold at_most, zlen. rewrite length_take. lia. Qed.

Section run.
Variable o : options.
Variable code : Z → list insn.
Abbreviation callback_ := (run_callback o [] Some (at_most code)).

Definition start : state := (install Some (mret ()) (λ _, true) no_state).2.
Definition hit_of (s : state) (h : Z * frame) : state :=
  match bps s !! h.1 with Some (_, Some c) => (callback_ c h.2 h.1 s).2 | _ => s end.
Definition after (hits : list (Z * frame)) (s : state) : state := foldl hit_of s hits.

Lemma start_ready : ready start.
Proof.
  assert (map_Forall (λ _ b, b.2 ∉ [Some OnIndirectCall; Some OnTargetEntry; Some OnDynamicReturn]) (bps start)) as H
    by (apply (bool_decide_unpack _); by vm_compute).
  split_and!; [by vm_compute..|]. intros i a c Hi. apply H in Hi. cbn in Hi. intros Hc. apply Hi.
  by apply (list_elem_of_fmap_2 Some) in Hc.
Qed.
Lemma after_reachable hits s :
  reachable o [] Some (at_most code) s → Forall (λ h, frame_ok h.2) hits → reachable o [] Some (at_most code) (after hits s).
Proof.
  revert s. induction hits as [|[i f] hits IH]; intros s Hs Hf; [exact Hs|]. apply Forall_cons in Hf as [Hf Hh].
  apply IH; [|exact Hh]. unfold hit_of. cbn [fst snd]. destruct (bps s !! i) as [[a [c|]]|] eqn:Hb; [|exact Hs..].
  by eapply reach_hit.
Qed.
Lemma after_hits hits s : rtc (hit o [] Some (at_most code)) s (after hits s).
Proof.
  revert s. induction hits as [|[i f] hits IH]; intros s; [reflexivity|]. cbn. etransitivity; [|apply IH].
  unfold hit_of. cbn [fst snd]. destruct (bps s !! i) as [[a [c|]]|] eqn:Hb; [|reflexivity..].
  apply rtc_once. by exists i, a, c, f.
Qed.
End run.

(** Arming: the client 0x5000 asks for state 1, which is 0x9000; the transition
    0x7000 goes there.  The executor is at its call with the action in x9. *)
Definition arming : list (Z * frame) :=
  [(0, frame_of [("x0", 0x5000); ("x2", 1)]%string []);
   (1, frame_of [("x0", 0x5000); ("x1", 1)]%string [(0x5140, 0x9000)]);
   (2, frame_of [("x0", 0x6000); ("x1", 0x7000)]%string [(0x7020, 0x9000)])].
Definition stage2 : Z * frame := (3, frame_of [("x0", 0x8000); ("x1", 0x9000); ("x9", ACTION); ("pc", 0xfffffff028b8c4e8)]%string [(0x8020, 0x5000)]).
Definition calling : list (Z * frame) :=
  [stage2; (11, frame_of [("pc", ACTION)]%string []);
   (12, frame_of [("x9", CALLEE); ("pc", ACTION + 8)]%string []);
   (13, frame_of [("pc", CALLEE)]%string []);
   (14, frame_of [("pc", ACTION + 12)]%string [])].
Definition sleeping : Z * frame := (5, frame_of [("x0", 0x4000); ("x2", 0x4444)]%string []).
Definition sample_code_at (address : Z) : list insn := if address =? ACTION then sample_code ACTION else [].
Definition sample_state : state := after sample_options sample_code_at (arming ++ calling) start.
Definition kinds (s : state) : list string :=
  map (λ e, match em_record e with
            | RTransition _ _ _ _ _ _ _ => "transition" | RArmed _ _ _ _ _ _ => "armed" | RRebase _ _ _ _ _ _ => "rebase"
            | RCall _ _ _ => "call" | RTarget _ _ _ _ _ => "entry" | RReturn _ _ _ _ _ => "return" | RScan _ _ _ => "scan"
            | RStop _ _ _ _ _ => "stop" | _ => "other" end)%string (out s).
Example sample_trace :
  kinds sample_state = ["transition"; "armed"; "call"; "entry"; "scan"; "call"; "entry"; "scan"; "return"]%string.
Proof. vm_compute. reflexivity. Qed.
Lemma sample_reachable : reachable sample_options [] Some (at_most sample_code_at) sample_state.
Proof.
  apply after_reachable; [apply reach_ready, start_ready|]. repeat constructor; by eexists.
Qed.
Lemma entries_answer_calls_witness :
  length (entries_at (Some 0x10) (out sample_state)) = 2%nat
  ∧ returns_at (Some 0x10) (out sample_state) ++ pending_at (Some 0x10) (tabs sample_state) ⊆+ calls_at (Some 0x10) (out sample_state).
Proof.
  split; [vm_compute; reflexivity|].
  apply (entries_answer_calls sample_options [] Some (at_most sample_code_at) (at_most_count _) sample_state sample_reachable (Some 0x10)).
Defined.
Lemma sm_trace_bounded_witness : hops (tr sample_state) = 2 ∧ dynamic_breakpoints (tr sample_state) ≤ 223.
Proof.
  split; [vm_compute; reflexivity|].
  apply (sm_trace_bounded sample_options [] Some (at_most sample_code_at) (at_most_count _) sample_state sample_reachable).
Defined.
Definition stopped_state : state := after sample_options sample_code_at [sleeping] sample_state.
Definition resumed_state : state := after sample_options sample_code_at calling stopped_state.
Lemma stop_is_final_witness :
  stopped (tr stopped_state) = true ∧ kinds resumed_state = kinds stopped_state ++ ["rebase"; "call"]%string
  ∧ hops (tr resumed_state) = hops (tr stopped_state).
Proof.
  split; [vm_compute; reflexivity|]. split; [vm_compute; reflexivity|].
  apply (stop_is_final sample_options [] Some (at_most sample_code_at) stopped_state resumed_state);
    [vm_compute; reflexivity|apply after_hits].
Defined.

(** A stop is never taken back: the executor rebases the origin and says so,
    but the call it records is not followed. *)
Example rebase_after_stop_follows_nothing :
  armed (tr resumed_state) = true ∧ length (expected_at (Some 0x10) (tabs resumed_state)) = 1%nat
  ∧ entries_at (Some 0x10) (out resumed_state) = entries_at (Some 0x10) (out stopped_state).
Proof. split_and!; vm_compute; reflexivity. Qed.

(** Without a request any transition that cannot be read is the requested one. *)
Example arms_without_request :
  armed (tr (after sample_options sample_code_at
    [(0, frame_of [("x0", 0x5000); ("x2", 1)]%string []); (2, frame_of [("x0", 0x6000)]%string [])] start)) = true.
Proof. vm_compute. reflexivity. Qed.

(** A scan is not cut at the breakpoint budget. *)
Definition wide_code (address : Z) : list insn :=
  if address =? ACTION
  then map (λ i, Insn (ACTION + 4 * i) (u "blraa") (u "x9, x17")) (seqZ 0 6) else [].
Example scan_exceeds_the_budget :
  dynamic_breakpoints (tr (after (Options 16 2 45000 128 true true) wide_code (arming ++ [stage2; (11, frame_of [] [])]) start)) = 7.
Proof. vm_compute. reflexivity. Qed.

(** Two functions that run into each other: the call they share is planted
    twice, recorded twice when it is made once, and one entry stays expected. *)
Definition tail_code (address : Z) : list insn :=
  if address =? ACTION then sample_code ACTION
  else if address =? ACTION + 4 then tail (sample_code ACTION) else [].
Definition entering (address : Z) : frame := frame_of [("pc", address)]%string [].
Example shared_call_counted_twice :
  let s := after sample_options tail_code
    (arming ++ [stage2; (11, entering ACTION);
       (3, frame_of [("x0", 0x8000); ("x1", 0x9000); ("x9", ACTION + 4); ("pc", 0xfffffff028b8c4e8)]%string [(0x8020, 0x5000)]);
       (13, entering (ACTION + 4));
       (12, frame_of [("x9", CALLEE); ("pc", ACTION + 8)]%string []); (14, frame_of [("x9", CALLEE); ("pc", ACTION + 8)]%string []);
       (15, entering CALLEE)]) start in
  (s_address <$> sites (tabs s) !! 12) = (s_address <$> sites (tabs s) !! 14)
  ∧ length (expected_at (Some 0x10) (tabs s)) = 1%nat
  ∧ kinds s = ["transition"; "armed"; "call"; "entry"; "scan"; "call"; "entry"; "scan"; "call"; "call"; "entry"; "scan"]%string.
Proof. split_and!; vm_compute; reflexivity. Qed.
