(* ===== verification/SmMachine.v ===== *)
(** * The focused SMMachine probe: [tools/re/dcp_sm_machine_callbacks.py]

    The probe witnesses the calls of one power transition: the stage-2 action,
    its virtual tail call, the work loop's block and the two virtuals of the
    command gate.  It plants an entry witness at every target it resolves and
    prints an event for each call, entry and return.  The debugger is an
    argument, as in [SmTrace]: the identifier of the n-th breakpoint it makes
    ([None]: the count did not go up by one).  Times are milliseconds. *)

From stdpp Require Import base tactics list gmap functions strings.
From Stdlib Require Import Strings.Byte.
From S2P Require Import Prelude PyState PyBytes PyStr StartupDecode.
From S2P Require SmTrace.
Open Scope Z_scope.

(** ** Reading the stopped guest *)

Definition KSLIDE : Z := 0x20000000.
Definition reg (f : frame) (name : string) : option Z := f_reg f (u name).
(** [_kptr], [_read] and [_u64] are those of the tracer. *)
Definition kptr (value : option Z) : Z := SmTrace.kptr value.
Definition mem (f : frame) (address : option Z) (size : Z) : list byte := SmTrace.mem f address size.
Definition u64 (f : frame) (address : option Z) : option Z :=
  let data := mem f address 8 in if zlen data =? 8 then Some (le_Z data) else None.
(** [_words]: [None] is [<null>]. *)
Definition words (f : frame) (address : option Z) (count : Z) : option (list (option Z)) :=
  if truthy address then Some (map (λ i, u64 f (Some (or0 address + i * 8))) (seqZ 0 count)) else None.
(** [& 0xffffffff]. *)
Definition w32 (v : option Z) : Z := Z.land (or0 v) 0xffffffff.

(** ** What is printed *)

(** The witnesses of resolved targets. *)
Inductive kind := Tail | Action | GateFirst | GateAction.
#[export] Instance kind_eq_dec : EqDecision kind.
Proof. solve_decision. Defined.

(** The [PROBE_EVENT] lines. *)
Inductive event :=
  | TailBoundary (thread dynamic context w2 target breakpoint : Z)
  | TailEntered (thread target dynamic context w2 : Z)
  | Called (k : kind) (thread subject argument target breakpoint : Z)
  | Entered (k : kind) (thread target subject argument : Z)
  | Returned (k : kind) (thread target result : Z)
  | Stage2Pre (sequence thread operation context target : Z)
  | Stage2Return (sequence thread target : Z)
  | Stage2ReturnWithoutPre (thread : Z)
  | LabelEntry (label : list Z) (thread x0 x1 x2 lr : Z)
  | LabelReturn (label : list Z) (thread result : Z).
(** [Probe]: an event, with the thread pointer of the register line before it. *)
Inductive line :=
  | Hit (label : list Z) (hit limit : Z)
  | HitSequence (label : list Z) (hit sequence : Z)
  | HitElapsed (label : list Z) (hit elapsed : Z)
  | ReturnElapsed (label : list Z) (elapsed : Z)
  | Registers (thread : Z) (values : list (option Z))
  | Object (label : list Z) (address : Z) (fields : list (Z * option Z))
  | VTable (label : list Z) (raw canonical : Z) (values : option (list (option Z)))
  | Slot (label : list Z) (raw canonical : Z)
  | OwnerVTable (raw canonical entry : Z)
  | Bytes (label : list Z) (bytes : list byte)
  | NoBuffer (x1 x2 : Z)
  | Disabled (breakpoint hit : Z)
  | Planted (breakpoint : Z) (k : kind) (address thread : Z)
  | Installed (breakpoint : Z) (label : list Z) (address : Z) (instructions : list byte)
  | Probe (tp : option Z) (e : event).

(** ** State *)

Inductive source :=
  | TailSource (thread : Z) (tp dynamic context : option Z) (w2 : Z)
  | BlockSource (thread : Z) (tp block event gate : option Z)
  | OwnerSource (thread : Z) (tp owner context : option Z) (w2 : Z).
Definition source_thread (s : source) : Z :=
  match s with TailSource t _ _ _ _ | BlockSource t _ _ _ _ | OwnerSource t _ _ _ _ => t end.
(** [X_TARGETS] and [X_TARGET_BY_ADDRESS]. *)
Record table := Table { by_id : gmap Z (Z * source); by_address : gmap Z Z }.
(** An entry of [TAIL_CONTEXT_BY_TP]. *)
Record tail_context := TailContext { x_context : option Z; x_thread : Z; x_gate : option Z; x_time : Z }.
(** An entry of [ACTION_PENDING] (block and event), [GATE_FIRST_PENDING] and
    [GATE_ACTION_PENDING] (owner and context). *)
Record pending := Pending { p_thread : Z; p_subject : option Z; p_argument : option Z; p_target : Z; p_time : Z }.
Record stage2 := Stage2 { s2_sequence : Z; s2_operation : option Z; s2_context : option Z; s2_target : Z; s2_time : Z }.
Record returning := Returning { r_label : list Z; r_tp : option Z; r_time : Z }.

Inductive callback :=
  | OnBreak | OnStage2Pre | OnStage2Return | OnTailBoundary | OnWorkloopBlockCall | OnWorkloopBlockReturn | OnGateFirstCall
  | OnGateFirstReturn | OnGateActionBoundary | OnTarget (k : kind) | OnReturn.
#[export] Instance callback_eq_dec : EqDecision callback.
Proof. solve_decision. Defined.
Record breakpoint := Breakpoint { b_address : Z; b_callback : option callback; b_enabled : bool }.

(** The dictionaries, the debugger's breakpoints ([created]: how many were
    made) and what has been printed. *)
Record dicts := Dicts {
  CONFIG : gmap Z (list Z * Z);
  RETURNS : gmap Z returning;
  HITS : gmap Z Z;
  STAGE2_PENDING : gmap (option Z) (list stage2);
  STAGE2_SEQUENCE : gmap (option Z) Z;
  TARGETS : kind → table;
  TAIL_CONTEXT_BY_TP : gmap (option Z) tail_context;
  PENDING : kind → gmap (option Z) pending;
}.
Record state := State { created : Z; bps : gmap Z breakpoint; dict : dicts; out : list line }.
Definition no_dicts : dicts := Dicts ∅ ∅ ∅ ∅ ∅ (λ _, Table ∅ ∅) ∅ (λ _, ∅).
Definition no_state : state := State 0 ∅ no_dicts [].
Abbreviation SM := (SE state).

Definition with_bps (h : gmap Z breakpoint → gmap Z breakpoint) (s : state) : state := State (created s) (h (bps s)) (dict s) (out s).
Definition with_dict (h : dicts → dicts) (s : state) : state := State (created s) (bps s) (h (dict s)) (out s).
Definition set_config v d := Dicts v (RETURNS d) (HITS d) (STAGE2_PENDING d) (STAGE2_SEQUENCE d) (TARGETS d) (TAIL_CONTEXT_BY_TP d) (PENDING d).
Definition set_returns v d := Dicts (CONFIG d) v (HITS d) (STAGE2_PENDING d) (STAGE2_SEQUENCE d) (TARGETS d) (TAIL_CONTEXT_BY_TP d) (PENDING d).
Definition set_hits v d := Dicts (CONFIG d) (RETURNS d) v (STAGE2_PENDING d) (STAGE2_SEQUENCE d) (TARGETS d) (TAIL_CONTEXT_BY_TP d) (PENDING d).
Definition set_stage2 v n d := Dicts (CONFIG d) (RETURNS d) (HITS d) v n (TARGETS d) (TAIL_CONTEXT_BY_TP d) (PENDING d).
Definition set_targets v d := Dicts (CONFIG d) (RETURNS d) (HITS d) (STAGE2_PENDING d) (STAGE2_SEQUENCE d) v (TAIL_CONTEXT_BY_TP d) (PENDING d).
Definition set_context v d := Dicts (CONFIG d) (RETURNS d) (HITS d) (STAGE2_PENDING d) (STAGE2_SEQUENCE d) (TARGETS d) v (PENDING d).
Definition set_pending v d := Dicts (CONFIG d) (RETURNS d) (HITS d) (STAGE2_PENDING d) (STAGE2_SEQUENCE d) (TARGETS d) (TAIL_CONTEXT_BY_TP d) v.

Definition print (l : line) : SM () := update (λ s, State (created s) (bps s) (dict s) (out s ++ [l])).
Definition get {A} (h : dicts → A) : SM A := gets (λ s, h (dict s)).
Definition put (h : dicts → dicts) : SM () := update (with_dict h).
(** [x] where ["0x%x"] formats it. *)
Definition hex_arg (x : option Z) : SM Z := lift (opt_or x (TypeError "%x format")).

(** [_dump_object] and the dumps made of it. *)
Definition fields (f : frame) (address : option Z) (offsets : list Z) : list (Z * option Z) :=
  map (λ o, (o, if truthy address then u64 f (Some (or0 address + o)) else None)) offsets.
Definition dump_object (f : frame) (label : string) (address : option Z) (offsets : list Z) : SM () :=
  print (Object (u label) (or0 address) (fields f address offsets)).
Definition deref (f : frame) (address : option Z) : option Z := if truthy address then u64 f address else None.
Definition OPERATION_FIELDS : list Z := [0x0; 0x8; 0x10; 0x18; 0x20; 0x28; 0x30; 0x38; 0x40].
Definition OWNER_FIELDS : list Z := OPERATION_FIELDS ++ [0x80; 0x88; 0x90; 0x98; 0xe8; 0xf0].
Definition dump_stage2_operation (f : frame) (operation : option Z) : SM () :=
  _ ← dump_object f "stage2-operation" operation OPERATION_FIELDS;
  let vtable := deref f operation in
  print (VTable (u "stage2-operation-vtable") (or0 vtable) (or0 vtable) (words f vtable 8)).
Definition dump_tail_object (f : frame) (dynamic : option Z) : SM () :=
  _ ← dump_object f "tail-dynamic" dynamic (OPERATION_FIELDS ++ [0x88; 0x100; 0x108; 0x110; 0x118; 0x150]);
  let vtable_raw := deref f dynamic in
  let vtable := kptr vtable_raw in
  let entry := if vtable =? 0 then None else u64 f (Some (vtable + 0x100)) in
  _ ← print (VTable (u "tail-dynamic-vtable") (or0 vtable_raw) vtable (words f (Some vtable) 0x21));
  print (Slot (u "tail-dynamic-vtable-entry+0x100") (or0 entry) (kptr entry)).

Section probe.
(** The identifier of the n-th breakpoint. *)
Variable alloc : Z → option Z.

Definition add_bp (i address : Z) (s : state) : state :=
  State (created s + 1) (<[i := Breakpoint address None true]> (bps s)) (dict s) (out s).
(** [BreakpointCreateByAddress] and the check of the count. *)
Definition create (address : Z) (message : string) : SM Z := λ s,
  match alloc (created s) with
  | Some i => (Ok i, add_bp i address s)
  | None => (Raise (RuntimeError message), s)
  end.
(** [BreakpointCreateByAddress] alone; the identifier of none is 0. *)
Definition create_unchecked (address : Z) : SM Z := λ s,
  match alloc (created s) with
  | Some i => (Ok i, add_bp i address s)
  | None => (Ok 0, s)
  end.
Definition attach (i : Z) (c : callback) : SM () :=
  update (with_bps (alter (λ b, Breakpoint (b_address b) (Some c) (b_enabled b)) i)).
Definition disable (i : Z) : SM () :=
  update (with_bps (alter (λ b, Breakpoint (b_address b) (b_callback b) false) i)).

(** The four [_install_X_target]. *)
Definition install_target (k : kind) (message : string) (address : Z) (s : source) : SM Z :=
  t ← get TARGETS;
  match by_address (t k) !! address with
  | Some existing => mret existing
  | None =>
      i ← create address message;
      _ ← attach i (OnTarget k);
      _ ← put (λ d, let t := TARGETS d k in
                    set_targets (<[k := Table (<[i := (address, s)]> (by_id t)) (<[address := i]> (by_address t))]> (TARGETS d)) d);
      _ ← print (Planted i k address (source_thread s));
      mret i
  end.
Definition install_tail_target : Z → source → SM Z := install_target Tail "failed dynamic tail target breakpoint".
Definition install_action_target : Z → source → SM Z := install_target Action "failed SMMachine action breakpoint".
Definition install_gate_first_target : Z → source → SM Z := install_target GateFirst "failed gate +0x98 target breakpoint".
Definition install_gate_action_target : Z → source → SM Z := install_target GateAction "failed gate +0xf0 target breakpoint".

Definition hits (i : Z) (d : dicts) : Z := default 0 (HITS d !! i).
(** [hit = HITS.get(id, 0) + 1; HITS[id] = hit]. *)
Definition bump (i : Z) : SM Z :=
  n ← get (hits i);
  _ ← put (λ d, set_hits (<[i := n + 1]> (HITS d)) d);
  mret (n + 1).
(** [if hit >= limit: SetEnabled(False)]. *)
Definition bounded (i hit limit : Z) : SM () :=
  when (limit <=? hit) (_ ← disable i; print (Disabled i hit)).
Definition expect (k : kind) (tp : option Z) (p : pending) : SM () :=
  put (λ d, set_pending (<[k := <[tp := p]> (PENDING d k)]> (PENDING d)) d).
(** [X_PENDING.pop(tp, None)]. *)
Definition take_pending (k : kind) (tp : option Z) : SM (option pending) :=
  p ← get (λ d, PENDING d k !! tp);
  _ ← put (λ d, set_pending (<[k := delete tp (PENDING d k)]> (PENDING d)) d);
  mret p.

(** ** Callbacks

    [f]: the frame that stopped; [i]: the breakpoint. *)
Section callbacks.
Variables (f : frame) (i : Z).
Abbreviation thread := (f_thread f).
Abbreviation now := (f_now f).
Abbreviation tp := (reg f "tpidr_el1").

Definition probe (e : event) : SM () := print (Probe tp e).
Definition registers (names : list string) : SM () := print (Registers thread (map (reg f) names)).
(** The lines of an entry witness: [pc], [lr] and [x0] to [x7]. *)
Definition argument_registers : SM () :=
  registers ["tpidr_el1"; "pc"; "lr"; "x0"; "x1"; "x2"; "x3"; "x4"; "x5"; "x6"; "x7"].

Definition on_tail_boundary : SM bool :=
  hit ← bump i;
  let target := kptr (reg f "x16") in
  if target =? 0 then raise (RuntimeError "tail boundary has no authenticated x16 target")
  else
    let dynamic := reg f "x0" in
    let context := reg f "x1" in
    let w2 := w32 (reg f "x2") in
    _ ← print (Hit (u "SMMACHINE_TAIL_BOUNDARY") hit 8);
    _ ← registers ["tpidr_el1"; "x0"; "x1"; "x2"; "x16"; "x17"];
    _ ← dump_tail_object f dynamic;
    _ ← put (λ d, set_context (<[tp := TailContext context thread dynamic now]> (TAIL_CONTEXT_BY_TP d)) d);
    id ← install_tail_target target (TailSource thread tp dynamic context w2);
    _ ← probe (TailBoundary thread (or0 dynamic) (or0 context) w2 target id);
    _ ← bounded i hit 8;
    mret false.

(** The block of the captured context, on its thread. *)
Definition on_workloop_block_call : SM bool :=
  source ← get (λ d, TAIL_CONTEXT_BY_TP d !! tp);
  let block := reg f "x0" in
  match source with
  | None => mret false
  | Some source =>
      if negb (bool_decide (block = x_context source)) then mret false
      else
        let event := reg f "x1" in
        let action := kptr (reg f "x8") in
        hit ← bump i;
        _ ← print (Hit (u "SMMACHINE_WORKLOOP_BLOCK_CALL") hit 8);
        _ ← registers ["tpidr_el1"; "x0"; "x1"; "x8"; "x23"];
        _ ← dump_object f "smmachine-block" block OPERATION_FIELDS;
        id ← install_action_target action (BlockSource thread tp block event (x_gate source));
        _ ← expect Action tp (Pending thread block event action now);
        _ ← probe (Called Action thread (or0 block) (or0 event) action id);
        mret false
  end.

(** The entry witnesses of an action, of the gate's first virtual and of its
    action: the target is the one the thread is about to enter. *)
Definition on_entered (k : kind) (label : string) (argument_of : option Z → SM Z) : SM bool :=
  cfg ← get (λ d, by_id (TARGETS d k) !! i);
  '(address, _) ← lift (opt_or cfg (KeyError (dec i)));
  p ← get (λ d, PENDING d k !! tp);
  match p with
  | None => mret false
  | Some p =>
      if negb (address =? p_target p) then mret false
      else
        hit ← bump i;
        _ ← print (Hit (u label) hit 8);
        _ ← argument_registers;
        subject ← hex_arg (p_subject p);
        argument ← argument_of (p_argument p);
        _ ← probe (Entered k thread address subject argument);
        mret false
  end.
Definition on_action_target : SM bool := on_entered Action "SMMACHINE_ACTION_TARGET" (λ a, mret (or0 a)).
Definition on_gate_first_target : SM bool := on_entered GateFirst "SMMACHINE_GATE_FIRST_TARGET" hex_arg.
Definition on_gate_action_target : SM bool := on_entered GateAction "SMMACHINE_GATE_ACTION_TARGET" hex_arg.

(** The direct return witnesses of a block and of the gate's first virtual. *)
Definition on_returned (k : kind) (label : string) : SM bool :=
  p ← take_pending k tp;
  match p with
  | None => mret false
  | Some p =>
      hit ← bump i;
      _ ← print (HitElapsed (u label) hit (now - p_time p));
      _ ← registers ["tpidr_el1"; "x0"];
      _ ← probe (Returned k thread (p_target p) (or0 (reg f "x0")));
      mret false
  end.
Definition on_workloop_block_return : SM bool := on_returned Action "SMMACHINE_WORKLOOP_BLOCK_RETURN".
Definition on_gate_first_return : SM bool := on_returned GateFirst "SMMACHINE_GATE_FIRST_RETURN".

Definition on_gate_first_call : SM bool :=
  source ← get (λ d, TAIL_CONTEXT_BY_TP d !! tp);
  match source with
  | None => mret false
  | Some source =>
      gate ← lift (opt_or (x_gate source) (TypeError "None + int"));
      let owner := reg f "x0" in
      let context := reg f "x1" in
      let w2 := w32 (reg f "x2") in
      if negb (bool_decide (context = x_context source)) || negb (bool_decide (owner = u64 f (Some (gate + 0x30)))) then mret false
      else
        let target := kptr (reg f "x8") in
        hit ← bump i;
        _ ← print (Hit (u "SMMACHINE_GATE_FIRST_CALL") hit 8);
        _ ← registers ["tpidr_el1"; "x0"; "x1"; "x2"; "x8"; "x16"];
        _ ← dump_object f "gate-owner" owner OWNER_FIELDS;
        let vtable_raw := deref f owner in
        let vtable := kptr vtable_raw in
        _ ← print (OwnerVTable (or0 vtable_raw) vtable (kptr (u64 f (Some (vtable + 0x98)))));
        id ← install_gate_first_target target (OwnerSource thread tp owner context w2);
        _ ← expect GateFirst tp (Pending thread owner context target now);
        _ ← probe (Called GateFirst thread (or0 owner) (or0 context) target id);
        mret false
  end.

Definition on_gate_action_boundary : SM bool :=
  source ← get (λ d, TAIL_CONTEXT_BY_TP d !! tp);
  match source with
  | None => mret false
  | Some source =>
      let owner := reg f "x0" in
      let context := reg f "x1" in
      let w2 := w32 (reg f "x2") in
      if negb (bool_decide (context = x_context source)) then mret false
      else
        let target := kptr (reg f "x16") in
        hit ← bump i;
        _ ← print (Hit (u "SMMACHINE_GATE_ACTION_BOUNDARY") hit 8);
        _ ← registers ["tpidr_el1"; "x0"; "x1"; "x2"; "x3"; "x16"; "x17"];
        _ ← dump_object f "gate-action-owner" owner OWNER_FIELDS;
        id ← install_gate_action_target target (OwnerSource thread tp owner context w2);
        _ ← expect GateAction tp (Pending thread owner context target now);
        _ ← probe (Called GateAction thread (or0 owner) (or0 context) target id);
        mret false
  end.

Definition on_tail_target : SM bool :=
  hit ← bump i;
  cfg ← get (λ d, by_id (TARGETS d Tail) !! i);
  '(address, _) ← lift (opt_or cfg (KeyError (dec i)));
  _ ← print (Hit (u "SMMACHINE_TAIL_TARGET") hit 8);
  _ ← registers ["tpidr_el1"; "pc"; "lr"; "x0"; "x1"; "x2"];
  _ ← dump_tail_object f (reg f "x0");
  _ ← probe (TailEntered thread address (or0 (reg f "x0")) (or0 (reg f "x1")) (w32 (reg f "x2")));
  _ ← bounded i hit 8;
  mret false.

Definition on_stage2_pre : SM bool :=
  hit ← bump i;
  let operation := reg f "x0" in
  let context := reg f "x1" in
  let target := kptr (reg f "x9") in
  n ← get (λ d, default 0 (STAGE2_SEQUENCE d !! tp));
  let sequence := n + 1 in
  _ ← put (λ d, set_stage2 (STAGE2_PENDING d) (<[tp := sequence]> (STAGE2_SEQUENCE d)) d);
  _ ← print (HitSequence (u "SMMACHINE_STAGE2_PRE") hit sequence);
  _ ← registers ["tpidr_el1"; "x0"; "x1"; "x8"; "x9"];
  _ ← dump_stage2_operation f operation;
  _ ← put (λ d, set_stage2 (<[tp := default [] (STAGE2_PENDING d !! tp) ++ [Stage2 sequence operation context target now]]>
                              (STAGE2_PENDING d)) (STAGE2_SEQUENCE d) d);
  _ ← probe (Stage2Pre sequence thread (or0 operation) (or0 context) target);
  _ ← bounded i hit 8;
  mret false.

(** [call = pending.pop(0) if pending else None], and what is printed of it. *)
Definition answer_stage2 (hit : Z) : SM () :=
  calls ← get (λ d, default [] (STAGE2_PENDING d !! tp));
  match calls with
  | call :: rest =>
      _ ← put (λ d, set_stage2 (<[tp := rest]> (STAGE2_PENDING d)) (STAGE2_SEQUENCE d) d);
      _ ← print (HitSequence (u "SMMACHINE_STAGE2_RETURN") hit (s2_sequence call));
      _ ← print (Registers thread [tp; s2_operation call; s2_context call; Some (s2_target call)]);
      probe (Stage2Return (s2_sequence call) thread (s2_target call))
  | [] =>
      _ ← print (Hit (u "SMMACHINE_STAGE2_RETURN") hit 8);
      _ ← registers ["tpidr_el1"];
      probe (Stage2ReturnWithoutPre thread)
  end.
Definition on_stage2_return : SM bool :=
  hit ← bump i;
  _ ← answer_stage2 hit;
  _ ← bounded i hit 8;
  mret false.

Definition on_return : SM bool :=
  cfg ← get (λ d, RETURNS d !! i);
  match cfg with
  | None => mret false
  | Some cfg =>
      if negb (bool_decide (tp = r_tp cfg)) then mret false
      else
        let result := reg f "x0" in
        _ ← print (ReturnElapsed (r_label cfg) (now - r_time cfg));
        _ ← print (Registers thread [result]);
        _ ← probe (LabelReturn (r_label cfg) thread (or0 result));
        _ ← update (with_bps (delete i));
        _ ← put (λ d, set_returns (delete i (RETURNS d)) d);
        mret false
  end.

(** What is dumped of the object a labelled site is called with. *)
Definition dump_label (label : list Z) : SM () :=
  let x0 := reg f "x0" in
  let x1 := reg f "x1" in
  let x2 := reg f "x2" in
  if bool_decide (label = u "AFK_CLIENT_STATE_EVENT") then
    _ ← dump_object f "client" x0 [0x110; 0x130; 0x138; 0x140; 0x1a0];
    print (VTable (u "client_words") 0 0 (words f x0 5))
  else if bool_decide (label = u "AFK_REQUEST_SM_STATE") then
    dump_object f "state-client" x0 [0x110; 0x130; 0x138; 0x140]
  else if bool_decide (label = u "SMMACHINE_TRANSITION") then
    _ ← dump_object f "machine" x0 [0x10; 0x18; 0x20; 0x28; 0x30; 0x38; 0x40];
    dump_object f "transition" x1 [0x10; 0x18; 0x20; 0x28; 0x30]
  else if bool_decide (label = u "IOMFB_A500") then
    if truthy x1 && truthy x2 then print (Bytes (u "A500") (mem f x1 (Z.min (or0 x2) 16)))
    else print (NoBuffer (or0 x1) (or0 x2))
  else mret ().
Definition RETURN_LIMIT : Z := 24.
Definition watch_return (label : list Z) (lr : option Z) : SM () :=
  returns ← get RETURNS;
  when (truthy lr && (Z.of_nat (size returns) <? RETURN_LIMIT))
    (id ← create_unchecked (kptr lr);
     _ ← attach id OnReturn;
     put (λ d, set_returns (<[id := Returning label tp now]> (RETURNS d)) d)).
Definition on_break : SM bool :=
  cfg ← get (λ d, CONFIG d !! i);
  '(label, limit) ← lift (opt_or cfg (KeyError (dec i)));
  hit ← bump i;
  let lr := reg f "lr" in
  _ ← print (Hit label hit limit);
  _ ← registers ["tpidr_el1"; "pc"; "lr"; "x0"; "x1"; "x2"];
  _ ← dump_label label;
  _ ← probe (LabelEntry label thread (or0 (reg f "x0")) (or0 (reg f "x1")) (or0 (reg f "x2")) (or0 lr));
  _ ← watch_return label lr;
  _ ← bounded i hit limit;
  mret false.
End callbacks.

Definition run_callback (c : callback) (f : frame) (i : Z) : SM bool :=
  match c with
  | OnBreak => on_break f i
  | OnStage2Pre => on_stage2_pre f i
  | OnStage2Return => on_stage2_return f i
  | OnTailBoundary => on_tail_boundary f i
  | OnWorkloopBlockCall => on_workloop_block_call f i
  | OnWorkloopBlockReturn => on_workloop_block_return f i
  | OnGateFirstCall => on_gate_first_call f i
  | OnGateFirstReturn => on_gate_first_return f i
  | OnGateActionBoundary => on_gate_action_boundary f i
  | OnTarget Tail => on_tail_target f i
  | OnTarget Action => on_action_target f i
  | OnTarget GateFirst => on_gate_first_target f i
  | OnTarget GateAction => on_gate_action_target f i
  | OnReturn => on_return f i
  end.

(** ** Installation *)

Record entry := Entry { e_static : Z; e_label : list Z; e_limit : Z; e_callback : callback }.
Definition ENTRIES : list entry :=
  [Entry 0xfffffff008ba47b0 (u "AFK_CLIENT_STATE_EVENT") 32 OnBreak;
   Entry 0xfffffff008b82378 (u "AFK_REQUEST_SM_STATE") 32 OnBreak;
   Entry 0xfffffff008b8c2d0 (u "SMMACHINE_TRANSITION") 32 OnBreak;
   Entry 0xfffffff00a0d41f0 (u "IOMFB_A500") 8 OnBreak;
   Entry 0xfffffff008b8c4e8 (u "SMMACHINE_STAGE2_PRE") 8 OnStage2Pre;
   Entry 0xfffffff008b8c4ec (u "SMMACHINE_STAGE2_RETURN") 8 OnStage2Return;
   Entry 0xfffffff008b8209c (u "SMMACHINE_TAIL_BOUNDARY") 8 OnTailBoundary;
   Entry 0xfffffff00b17a3b4 (u "SMMACHINE_WORKLOOP_BLOCK_CALL") 8 OnWorkloopBlockCall;
   Entry 0xfffffff00b17a3b8 (u "SMMACHINE_WORKLOOP_BLOCK_RETURN") 8 OnWorkloopBlockReturn;
   Entry 0xfffffff00b23f4e0 (u "SMMACHINE_GATE_FIRST_CALL") 8 OnGateFirstCall;
   Entry 0xfffffff00b23f4e4 (u "SMMACHINE_GATE_FIRST_RETURN") 8 OnGateFirstReturn;
   Entry 0xfffffff00b23f52c (u "SMMACHINE_GATE_ACTION_BOUNDARY") 8 OnGateActionBoundary].
(** [attached]: whether the callback could be attached; [instructions]: the
    bytes at the address. *)
Definition install_one (attached : list Z → bool) (instructions : Z → list byte) (e : entry) : SM () :=
  let address := e_static e + KSLIDE in
  i ← create address "failed breakpoint";
  _ ← put (λ d, set_config (<[i := (e_label e, e_limit e)]> (CONFIG d)) d);
  _ ← when (negb (attached (e_label e))) (raise (RuntimeError "callback attach failed"));
  _ ← attach i (e_callback e);
  print (Installed i (e_label e) address (instructions address)).
(** [imported]: the import of [display_iokit_callbacks] and its installation. *)
Definition install (imported : res ()) (attached : list Z → bool) (instructions : Z → list byte) : SM () :=
  _ ← lift imported;
  for_each (install_one attached instructions) ENTRIES.

(** What can happen: the installation, then callbacks at enabled breakpoints. *)
Inductive reachable : state → Prop :=
  | r_install imported attached instructions : reachable (install imported attached instructions no_state).2
  | r_hit s i a c f : reachable s → bps s !! i = Some (Breakpoint a (Some c) true) → reachable (run_callback c f i s).2.
End probe.
