(* ===== verification/SmMachineProps.v ===== *)
(** * What the focused SMMachine probe promises

    The events it prints follow, thread by thread, the protocol of its
    witnesses; its tables stay within their bounds and a callback finds its
    entry in them. *)

From stdpp Require Import base tactics list gmap functions strings sorting fin_maps.
From Stdlib Require Import Strings.Byte.
From S2P Require Import Prelude PyState PyBytes PyStr StartupDecode SmMachine.
Open Scope Z_scope.

(** ** The witness protocol

    Of one thread pointer: the call that is pending of each kind (target and
    arguments), how many stage-2 actions were begun, which of them are
    unanswered (number and target), and which labelled entries are. *)
Record witness := Witness {
  w_call : kind → option (Z * Z * Z); w_count : Z; w_queue : list (Z * Z); w_open : list (list Z);
}.
Definition idle : witness := Witness (λ _, None) 0 [] [].
Fixpoint remove_one (x : list Z) (l : list (list Z)) : option (list (list Z)) :=
  match l with
  | [] => None
  | y :: l => if decide (x = y) then Some l else (cons y) <$> remove_one x l
  end.
(** An event, when the protocol allows it. *)
Definition allow (w : witness) (e : event) : option witness :=
  match e with
  | Called k _ subject argument target _ =>
      Some (Witness (<[k := Some (target, subject, argument)]> (w_call w)) (w_count w) (w_queue w) (w_open w))
  | Entered k _ target subject argument =>
      if bool_decide (w_call w k = Some (target, subject, argument)) then Some w else None
  | Returned k _ target _ =>
      match w_call w k with
      | Some (t, _, _) => if t =? target then Some (Witness (<[k := None]> (w_call w)) (w_count w) (w_queue w) (w_open w)) else None
      | None => None
      end
  | Stage2Pre sequence _ _ _ target =>
      if sequence =? w_count w + 1
      then Some (Witness (w_call w) sequence (w_queue w ++ [(sequence, target)]) (w_open w)) else None
  | SmMachine.Stage2Return sequence _ target =>
      match w_queue w with
      | q :: rest => if bool_decide (q = (sequence, target)) then Some (Witness (w_call w) (w_count w) rest (w_open w)) else None
      | [] => None
      end
  | Stage2ReturnWithoutPre _ => if bool_decide (w_queue w = []) then Some w else None
  | LabelEntry label _ _ _ _ _ => Some (Witness (w_call w) (w_count w) (w_queue w) (label :: w_open w))
  | LabelReturn label _ _ =>
      open ← remove_one label (w_open w); Some (Witness (w_call w) (w_count w) (w_queue w) open)
  | TailBoundary _ _ _ _ _ _ | TailEntered _ _ _ _ _ => Some w
  end.
(** The events of a thread pointer in what was printed. *)
Definition follow (tp : option Z) (w : option witness) (l : line) : option witness :=
  match l with
  | Probe tp' e => if bool_decide (tp' = tp) then w ← w; allow w e else w
  | _ => w
  end.
Definition replay (tp : option Z) (l : list line) : option witness := foldl (follow tp) (Some idle) l.

(** ** The tables agree with the protocol *)

Definition call_of (p : pending) : Z * Z * Z := (p_target p, or0 (p_subject p), or0 (p_argument p)).
Definition action_of (a : stage2) : Z * Z := (s2_sequence a, s2_target a).
Definition label_at (tp : option Z) (ir : Z * returning) : option (list Z) :=
  if bool_decide (r_tp ir.2 = tp) then Some (r_label ir.2) else None.
Definition labels (tp : option Z) (m : gmap Z returning) : list (list Z) := omap (label_at tp) (map_to_list m).
Record agrees (tp : option Z) (d : dicts) (w : witness) : Prop := {
  a_call : ∀ k, w_call w k = call_of <$> PENDING d k !! tp;
  a_count : w_count w = default 0 (STAGE2_SEQUENCE d !! tp);
  a_queue : w_queue w = map action_of (default [] (STAGE2_PENDING d !! tp));
  a_open : labels tp (RETURNS d) ⊆+ w_open w;
}.
(** What was printed can be replayed, and the tables are as [P] says. *)
Definition J (P : option Z → dicts → witness → Prop) (s : state) : Prop :=
  ∀ tp, ∃ w, replay tp (out s) = Some w ∧ P tp (dict s) w.
Definition follows : state → Prop := J agrees.

Lemma replay_snoc tp l x : replay tp (l ++ [x]) = follow tp (replay tp l) x.
Proof. unfold replay. by rewrite foldl_app. Qed.
#[local] Arguments replay : simpl never.
Lemma remove_one_elem x l : x ∈ l → ∃ k, remove_one x l = Some k ∧ l ≡ₚ x :: k.
Proof.
  induction l as [|y l IH]; [by intros ?%not_elem_of_nil|]. intros Hx. cbn. destruct (decide (x = y)) as [->|Hne]; [eauto|].
  apply elem_of_cons in Hx as [?|Hx]; [done|]. destruct (IH Hx) as (k & -> & Hk). exists (y :: k). split; [done|].
  rewrite Hk. apply Permutation_swap.
Qed.

(** The tables of returns. *)
Lemma labels_insert tp i r m : m !! i = None → labels tp (<[i := r]> m) ≡ₚ option_list (label_at tp (i, r)) ++ labels tp m.
Proof.
  intros Hi. unfold labels. rewrite (map_to_list_insert m i r) by done. cbn. by destruct (label_at tp (i, r)).
Qed.
Lemma labels_delete tp i r m : m !! i = Some r → labels tp m ≡ₚ option_list (label_at tp (i, r)) ++ labels tp (delete i m).
Proof.
  intros Hi. rewrite <-(insert_delete_id m i r Hi) at 1. apply labels_insert, lookup_delete_eq.
Qed.
Lemma labels_insert_sub tp i r m : labels tp (<[i := r]> m) ⊆+ option_list (label_at tp (i, r)) ++ labels tp m.
Proof.
  destruct (m !! i) as [r'|] eqn:E; [|by rewrite labels_insert by done].
  rewrite <-insert_delete_eq, labels_insert by apply lookup_delete_eq. apply submseteq_app; [done|].
  rewrite (labels_delete tp i r' m E). apply submseteq_inserts_l. done.
Qed.

(** ** Every callback keeps to the protocol *)

Section protocol.
Variable alloc : Z → option Z.
Implicit Types P Q : option Z → dicts → witness → Prop.

(** Steps that print no event, change no table of the protocol and do not
    raise. *)
Class HitsFree P := hits_free tp d w v : P tp d w → P tp (set_hits v d) w.
Abbreviation Quiet P := (Holds (J P) (λ _, False)).
#[local] Instance agrees_hits : HitsFree agrees.
Proof. by intros tp d w v []. Qed.

Lemma quiet_print P l : match l with Probe _ _ => False | _ => True end → Quiet P (print l).
Proof.
  intros Hl. apply holds_update. intros s Hs tp. destruct (Hs tp) as (w & Hr & Hw). exists w. split; [|done].
  cbn [out]. rewrite replay_snoc, Hr. by destruct l.
Qed.
#[local] Hint Extern 1 (Quiet _ (print _)) => (apply quiet_print; exact I) : typeclass_instances.
#[local] Instance quiet_get P {A} (h : dicts → A) : Quiet P (get h).
Proof. unfold get. apply _. Qed.
#[local] Instance quiet_bps P h : Quiet P (update (with_bps h)).
Proof. by apply holds_update. Qed.
#[local] Instance quiet_registers P f names : Quiet P (registers f names).
Proof. unfold registers. apply _. Qed.
#[local] Instance quiet_arguments P f : Quiet P (argument_registers f).
Proof. unfold argument_registers. apply _. Qed.
#[local] Instance quiet_object P f label a l : Quiet P (dump_object f label a l).
Proof. unfold dump_object. apply _. Qed.
#[local] Instance quiet_operation P f a : Quiet P (dump_stage2_operation f a).
Proof. unfold dump_stage2_operation. apply _. Qed.
#[local] Instance quiet_tail P f a : Quiet P (dump_tail_object f a).
Proof. unfold dump_tail_object. apply _. Qed.
#[local] Instance quiet_label P f label : Quiet P (dump_label f label).
Proof. unfold dump_label. repeat case_bool_decide; try case_match; apply _. Qed.
#[local] Instance quiet_bump P i : HitsFree P → Quiet P (bump i).
Proof.
  intros HP. unfold bump. apply holds_bind; [apply _|]. intros n. apply holds_bind; [|intros _; apply _].
  apply holds_update. intros s Hs tp. destruct (Hs tp) as (w & Hr & Hw). exists w. split; [done|]. by apply HP.
Qed.
#[local] Instance quiet_attach P i c : Quiet P (attach i c).
Proof. unfold attach. apply _. Qed.
#[local] Instance quiet_bounded P i hit limit : Quiet P (bounded i hit limit).
Proof. unfold bounded, disable. apply _. Qed.
#[local] Instance quiet_create_unchecked P a : Quiet P (create_unchecked alloc a).
Proof. intros s Hs. unfold keeps_at, create_unchecked. destruct (alloc (created s)); (split; [exact Hs|done]). Qed.

(** The rules for a callback: it ends, or raises, in [follows]. *)
Abbreviation W m := (wp m (λ _, follows) (λ _, follows)).
Lemma quiet_then P {A B} (m : SM A) (K : A → SM B) (Q : B → state → Prop) s :
  Quiet P m → J P s → (∀ a s', J P s' → wp (K a) Q (λ _, follows) s') → wp (m ≫= K) Q (λ _, follows) s.
Proof.
  intros Hm Hs HK. apply wp_bind. unfold wp at 1. destruct (Hm s Hs) as [H1 H2]. destruct (m s) as [[a|e] s']; [by apply HK|done].
Qed.
Lemma loud_then {A B} (m : SM A) (K : A → SM B) s :
  Holds follows (λ _, True) m → follows s → (∀ a s', follows s' → W (K a) s') → W (m ≫= K) s.
Proof.
  intros Hm Hs HK. apply wp_bind. unfold wp at 1. destruct (Hm s Hs) as [H1 _]. destruct (m s) as [[a|e] s']; [by apply HK|done].
Qed.
(** A change of the tables. *)
Lemma put_then P Q {B} h (K : () → SM B) s :
  J P s → (∀ tp w, P tp (dict s) w → Q tp (h (dict s)) w) → (∀ s', J Q s' → dict s' = h (dict s) → W (K ()) s') → W (put h ≫= K) s.
Proof.
  intros Hs Hh HK. apply wp_bind, wp_update. apply HK; [|done]. intros tp. destruct (Hs tp) as (w & Hr & Hw). exists w. split; [done|by apply Hh].
Qed.
(** An event that the protocol allows. *)
Lemma probe_then P Q {B} f e (K : () → SM B) s :
  J P s →
  (∀ tp w, P tp (dict s) w → if bool_decide (reg f "tpidr_el1" = tp) then ∃ w', allow w e = Some w' ∧ Q tp (dict s) w'
                              else Q tp (dict s) w) →
  (∀ s', J Q s' → dict s' = dict s → W (K ()) s') → W (probe f e ≫= K) s.
Proof.
  intros Hs He HK. apply wp_bind, wp_update, HK; [|done]. intros tp. destruct (Hs tp) as (w & Hr & Hw). apply He in Hw.
  cbn [out dict]. rewrite replay_snoc, Hr. cbn [follow]. case_bool_decide as Htp.
  - destruct Hw as (w' & Ha & Hw). exists w'. by split.
  - by exists w.
Qed.
Lemma probe_last P Q f e s :
  J P s →
  (∀ tp w, P tp (dict s) w → if bool_decide (reg f "tpidr_el1" = tp) then ∃ w', allow w e = Some w' ∧ Q tp (dict s) w'
                              else Q tp (dict s) w) →
  (∀ s', J Q s' → follows s') → W (probe f e) s.
Proof.
  intros Hs He HK. assert (W (probe f e ≫= mret) s) as H; [|exact H].
  eapply probe_then; [exact Hs|exact He|]. intros s' H' _. by apply wp_ret, HK.
Qed.
Lemma done_follows {A} (a : A) s : follows s → W (mret a) s.
Proof. intros Hs. by apply wp_ret. Qed.

Lemma holds_weaken {A} I E (m : SM A) : Holds I (λ _, False) m → Holds I E m.
Proof. intros Hm s Hs. destruct (Hm s Hs) as [H1 H2]. split; [done|]. destruct (m s).1; [done|by destruct H2]. Qed.
Lemma follows_put E h : (∀ tp d w, agrees tp d w → agrees tp (h d) w) → Holds follows E (put h).
Proof. intros Hh. apply holds_update. intros s Hs tp. destruct (Hs tp) as (w & Hr & Hw). exists w. split; [done|by apply Hh]. Qed.
#[local] Instance install_follows k message a src : Holds follows (λ _, True) (install_target alloc k message a src).
Proof.
  intros s Hs. unfold install_target. apply keeps_gets.
  destruct (by_address (TARGETS (dict s) k) !! a) as [i|]; [by apply holds_ret|].
  apply keeps_bind.
  { unfold keeps_at, create. destruct (alloc (created s)); (split; [exact Hs|done]). }
  intros i s1 _ Hs1. assert (Holds follows (λ _, True) (attach i (OnTarget k))) as Ha by by apply holds_update.
  apply holds_bind; [exact Ha|intros _|exact Hs1]. apply holds_bind; [|intros _; apply holds_bind; [|intros _; apply _]].
  - apply follows_put. by intros tp d w [].
  - by apply holds_weaken, quiet_print.
Qed.
#[local] Instance loud_lift {A} (m : res A) : Holds follows (λ _, True) (lift m).
Proof. by apply holds_lift. Qed.

(** The call events: the table gets the call, and the event says so. *)
Lemma called_then f k p id thread (K : () → SM bool) s :
  follows s → (∀ s', follows s' → W (K ()) s') →
  W (_ ← expect k (reg f "tpidr_el1") p;
     probe f (Called k thread (or0 (p_subject p)) (or0 (p_argument p)) (p_target p) id) ≫= K) s.
Proof.
  intros Hs HK. unfold expect. eapply (put_then agrees (λ tp d w, ∃ d0, agrees tp d0 w ∧
    d = set_pending (<[k := <[reg f "tpidr_el1" := p]> (PENDING d0 k)]> (PENDING d0)) d0)); [exact Hs|by eauto|].
  intros s1 H1 _. eapply probe_then; [exact H1| |intros s2 H2 _; by apply HK].
  intros tp w (d0 & [Hc Hn Hq Ho] & ->). case_bool_decide as Htp.
  - eexists. split; [done|]. split; cbn; [|done..]. intros k'. destruct (decide (k = k')) as [<-|Hne].
    + by rewrite !fn_lookup_insert, Htp, lookup_insert_eq.
    + by rewrite !fn_lookup_insert_ne.
  - split; cbn; [|done..]. intros k'. rewrite Hc. destruct (decide (k = k')) as [<-|Hne].
    + by rewrite fn_lookup_insert, lookup_insert_ne.
    + by rewrite fn_lookup_insert_ne.
Qed.

(** Every kind of event, in its callback. *)
Ltac quiet := eapply (quiet_then agrees); [apply _|eassumption|intros ? ? ?].
Ltac quiets := repeat (quiet; cbv beta zeta).
Ltac loud := eapply loud_then; [apply _|eassumption|intros ? ? ?].
Lemma free_then f e (K : () → SM bool) s :
  follows s → (∀ w, allow w e = Some w) → (∀ s', follows s' → W (K ()) s') → W (probe f e ≫= K) s.
Proof.
  intros Hs He HK. eapply probe_then; [exact Hs| |intros s' H' _; by apply HK]. intros tp w Hw. case_bool_decide; [|done].
  exists w. by split.
Qed.
Lemma finish i hit limit s : follows s → W (_ ← bounded i hit limit; mret false) s.
Proof. intros Hs. quiet. by apply done_follows. Qed.
Lemma context_then h (K : () → SM bool) s :
  follows s → (∀ s', follows s' → W (K ()) s') → W (put (λ d, set_context (h d) d) ≫= K) s.
Proof. intros Hs HK. eapply (put_then agrees agrees); [exact Hs|by intros tp w []|]. intros s' H' _. by apply HK. Qed.

Lemma tail_boundary_follows f i s : follows s → W (on_tail_boundary alloc f i) s.
Proof.
  intros Hs. unfold on_tail_boundary. quiet. cbv zeta. destruct (_ =? 0); [by apply wp_raise|]. quiets.
  apply context_then; [done|]. intros ? ?. unfold install_tail_target. loud. apply free_then; [done..|]. intros ? ?. by apply finish.
Qed.
Lemma workloop_block_call_follows f i s : follows s → W (on_workloop_block_call alloc f i) s.
Proof.
  intros Hs. unfold on_workloop_block_call. quiet. destruct (_ : option tail_context) as [source|]; [|by apply done_follows].
  destruct (negb _); [by apply done_follows|]. cbv zeta. quiets. unfold install_action_target. loud.
  apply (called_then f Action (Pending (f_thread f) (reg f "x0") (reg f "x1") (kptr (reg f "x8")) (f_now f))); [done|].
  intros ? ?. by apply done_follows.
Qed.
Lemma gate_first_call_follows f i s : follows s → W (on_gate_first_call alloc f i) s.
Proof.
  intros Hs. unfold on_gate_first_call. quiet. destruct (_ : option tail_context) as [source|]; [|by apply done_follows].
  loud. cbv zeta. destruct (_ || _); [by apply done_follows|]. quiets. unfold install_gate_first_target. loud.
  apply (called_then f GateFirst (Pending (f_thread f) (reg f "x0") (reg f "x1") (kptr (reg f "x8")) (f_now f))); [done|].
  intros ? ?. by apply done_follows.
Qed.
Lemma gate_action_boundary_follows f i s : follows s → W (on_gate_action_boundary alloc f i) s.
Proof.
  intros Hs. unfold on_gate_action_boundary. quiet. destruct (_ : option tail_context) as [source|]; [|by apply done_follows].
  cbv zeta. destruct (negb _); [by apply done_follows|]. quiets. unfold install_gate_action_target. loud.
  apply (called_then f GateAction (Pending (f_thread f) (reg f "x0") (reg f "x1") (kptr (reg f "x16")) (f_now f))); [done|].
  intros ? ?. by apply done_follows.
Qed.
Lemma tail_target_follows f i s : follows s → W (on_tail_target f i) s.
Proof.
  intros Hs. unfold on_tail_target. quiets. loud. destruct (_ : Z * source) as [address src]. quiets.
  apply free_then; [done..|]. intros ? ?. by apply finish.
Qed.
(** An entry matches what is pending. *)
Definition knows (k : kind) (tp0 : option Z) (p : pending) (tp : option Z) (d : dicts) (w : witness) : Prop :=
  agrees tp d w ∧ PENDING d k !! tp0 = Some p.
#[local] Instance knows_hits k tp0 p : HitsFree (knows k tp0 p).
Proof. intros tp d w v [[] ?]. by split. Qed.
Lemma knows_follows k tp0 p s : J (knows k tp0 p) s → follows s.
Proof. intros H tp. destruct (H tp) as (w & Hr & Hw & _). eauto. Qed.
Lemma knows_intro k tp0 p s : follows s → PENDING (dict s) k !! tp0 = Some p → J (knows k tp0 p) s.
Proof. intros H Hp tp. destruct (H tp) as (w & Hr & Hw). exists w. by split. Qed.
Lemma hex_then a (K : Z → SM bool) s : follows s → (∀ x, or0 a = x → W (K x) s) → W (hex_arg a ≫= K) s.
Proof. intros Hs HK. apply wp_bind, wp_lift; [|done]. intros x Hx. apply HK. by destruct a; simplify_eq/=. Qed.
Lemma entered_follows f i k label argument_of s :
  (∀ a (K : Z → SM bool) s, follows s → (∀ x, or0 a = x → W (K x) s) → W (argument_of a ≫= K) s) →
  follows s → W (on_entered f i k label argument_of) s.
Proof.
  intros Harg Hs. unfold on_entered. quiet. loud. destruct (_ : Z * source) as [address src].
  apply wp_bind, wp_gets. destruct (_ !! _) as [p|] eqn:Ep; [|by apply done_follows].
  destruct (Z.eqb_spec address (p_target p)) as [->|]; cbn [negb]; [|by apply done_follows].
  assert (J (knows k (reg f "tpidr_el1") p) s'0) as Hk by by apply knows_intro.
  do 3 (eapply (quiet_then (knows k (reg f "tpidr_el1") p)); [apply _|eassumption|intros ? ? ?]).
  apply hex_then; [by eapply knows_follows|]. intros subject Hsub. apply Harg; [by eapply knows_follows|]. intros argument Hargu.
  eapply (probe_then _ agrees); [eassumption| |intros s5 H5 _; by apply done_follows].
  intros tp w [Ha Hp]. case_bool_decide as Htp; [|done]. exists w. split; [|done]. cbn.
  rewrite (a_call _ _ _ Ha), <-Htp, Hp. cbn. unfold call_of. by rewrite Hsub, Hargu, bool_decide_true.
Qed.
(** A return takes what is pending. *)
Definition taken (k : kind) (tp0 : option Z) (p : pending) (tp : option Z) (d : dicts) (w : witness) : Prop :=
  ∃ d0, agrees tp d0 w ∧ PENDING d0 k !! tp0 = Some p
    ∧ CONFIG d = CONFIG d0 ∧ RETURNS d = RETURNS d0 ∧ STAGE2_PENDING d = STAGE2_PENDING d0 ∧ STAGE2_SEQUENCE d = STAGE2_SEQUENCE d0
    ∧ PENDING d = <[k := delete tp0 (PENDING d0 k)]> (PENDING d0).
#[local] Instance taken_hits k tp0 p : HitsFree (taken k tp0 p).
Proof. intros tp d w v (d0 & ?). by exists d0. Qed.
Lemma returned_follows f i k label s : follows s → W (on_returned f i k label) s.
Proof.
  intros Hs. unfold on_returned, take_pending. apply wp_bind, wp_bind, wp_gets, wp_bind, wp_update, wp_ret.
  destruct (PENDING (dict s) k !! reg f "tpidr_el1") as [p|] eqn:Ep.
  - assert (J (taken k (reg f "tpidr_el1") p)
      (with_dict (λ d, set_pending (<[k := delete (reg f "tpidr_el1") (PENDING d k)]> (PENDING d)) d) s)) as Ht.
    { intros tp. destruct (Hs tp) as (w & Hr & Hw). exists w. split; [done|]. by exists (dict s). }
    do 3 (eapply (quiet_then (taken k (reg f "tpidr_el1") p)); [apply _|eassumption|intros ? ? ?]).
    eapply (probe_then _ agrees); [eassumption| |intros s5 H5 _; by apply done_follows].
    intros tp w (d0 & [Hc Hn Hq Ho] & Hp & _ & E1 & E2 & E3 & E4). case_bool_decide as Htp.
    + subst tp. cbn. rewrite Hc, Hp. cbn. rewrite Z.eqb_refl. eexists. split; [done|]. split; cbn; rewrite ?E1, ?E2, ?E3, ?E4; try done.
      intros k'. destruct (decide (k = k')) as [<-|Hne].
      * by rewrite !fn_lookup_insert, lookup_delete_eq.
      * by rewrite !fn_lookup_insert_ne.
    + split; rewrite ?E1, ?E2, ?E3, ?E4; try done. intros k'. rewrite Hc. destruct (decide (k = k')) as [<-|Hne].
      * by rewrite fn_lookup_insert, lookup_delete_ne.
      * by rewrite fn_lookup_insert_ne.
  - apply done_follows. intros tp. destruct (Hs tp) as (w & Hr & [Hc Hn Hq Ho]). exists w. split; [done|]. split; cbn; [|done..].
    intros k'. rewrite Hc. destruct (decide (k = k')) as [<-|Hne].
    + rewrite fn_lookup_insert. by rewrite delete_id.
    + by rewrite fn_lookup_insert_ne.
Qed.

(** The stage-2 actions of a thread, answered in order. *)
Definition begun (tp0 : option Z) (n : Z) (tp : option Z) (d : dicts) (w : witness) : Prop :=
  agrees tp (set_stage2 (STAGE2_PENDING d) (if decide (tp0 = tp) then <[tp := n]> (STAGE2_SEQUENCE d) else STAGE2_SEQUENCE d) d) w
  ∧ STAGE2_SEQUENCE d !! tp0 = Some (n + 1).
#[local] Instance begun_hits tp0 n : HitsFree (begun tp0 n).
Proof. intros tp d w v [[] ?]. by split. Qed.
Lemma stage2_pre_follows f i s : follows s → W (on_stage2_pre f i) s.
Proof.
  intros Hs. unfold on_stage2_pre. quiet. cbv zeta. apply wp_bind, wp_gets. set (n := default 0 (_ !! _)).
  eapply (put_then agrees (begun (reg f "tpidr_el1") n)); [eassumption| |intros s1 H1 _].
  { intros tp w [Hc Hn Hq Ho]. split; [|cbn; by rewrite lookup_insert_eq]. split; cbn; try done.
    destruct (decide (reg f "tpidr_el1" = tp)) as [<-|Hne]; [by rewrite lookup_insert_eq|by rewrite lookup_insert_ne]. }
  do 3 (eapply (quiet_then (begun (reg f "tpidr_el1") n)); [apply _|eassumption|intros ? ? ?]).
  set (act := Stage2 _ _ _ _ _).
  eapply (put_then _ (λ tp d w, ∃ d0, begun (reg f "tpidr_el1") n tp d0 w ∧ d = set_stage2
    (<[reg f "tpidr_el1" := default [] (STAGE2_PENDING d0 !! reg f "tpidr_el1") ++ [act]]> (STAGE2_PENDING d0)) (STAGE2_SEQUENCE d0) d0));
    [eassumption|by eauto|intros sq Hsq _].
  eapply (probe_then _ agrees); [exact Hsq| |intros sp Hsp _; by apply finish].
  intros tp w (d0 & [[Hc Hn Hq Ho] Hseq] & ->). case_bool_decide as Htp.
  - subst tp. cbn in *. rewrite decide_True, lookup_insert_eq in Hn by done. cbn in Hn. rewrite Hn, Z.eqb_refl. eexists. split; [done|].
    split; cbn; rewrite ?lookup_insert_eq; [done|by rewrite Hseq|rewrite Hq; cbn; by rewrite map_app|done].
  - cbn in *. rewrite decide_False in Hn by done. split; cbn; rewrite ?lookup_insert_ne by done; done.
Qed.
(** An answered action is the oldest one. *)
Definition answered (tp0 : option Z) (c : stage2) (rest : list stage2) (tp : option Z) (d : dicts) (w : witness) : Prop :=
  ∃ d0, agrees tp d0 w ∧ default [] (STAGE2_PENDING d0 !! tp0) = c :: rest
    ∧ d = set_stage2 (<[tp0 := rest]> (STAGE2_PENDING d0)) (STAGE2_SEQUENCE d0) d0.
Lemma answer_follows f hit s : follows s → W (answer_stage2 f hit) s.
Proof.
  intros Hs. unfold answer_stage2. apply wp_bind, wp_gets.
  destruct (default [] (STAGE2_PENDING (dict s) !! reg f "tpidr_el1")) as [|c rest] eqn:Eq.
  - set (P := λ tp d w, agrees tp d w ∧ default [] (STAGE2_PENDING d !! reg f "tpidr_el1") = []).
    assert (J P s) as HP by (intros tp; destruct (Hs tp) as (w & Hr & Hw); by exists w).
    do 2 (eapply (quiet_then P); [apply _|eassumption|intros ? ? ?]).
    eapply (probe_last P agrees); [eassumption| |done]. intros tp w [Hw He]. case_bool_decide as Htp; [|done].
    exists w. split; [|done]. subst tp. cbn. by rewrite (a_queue _ _ _ Hw), He, bool_decide_true.
  - eapply (put_then agrees (answered (reg f "tpidr_el1") c rest)); [exact Hs|intros tp w Hw|intros s1 H1 _].
    { by exists (dict s). }
    do 2 (eapply (quiet_then (answered (reg f "tpidr_el1") c rest)); [apply _|eassumption|intros ? ? ?]).
    eapply (probe_last _ agrees); [eassumption| |done]. intros tp w (d0 & [Hc Hn Hq Ho] & He & ->). case_bool_decide as Htp.
    + subst tp. cbn. rewrite Hq, He. cbn. rewrite bool_decide_true by done. eexists. split; [done|].
      split; cbn; [done|done|by rewrite lookup_insert_eq|done].
    + split; cbn; rewrite ?lookup_insert_ne by done; done.
Qed.
Lemma stage2_return_follows f i s : follows s → W (on_stage2_return f i) s.
Proof.
  intros Hs. unfold on_stage2_return. quiet. apply wp_bind. eapply wp_mono; [by apply answer_follows| |done].
  intros ? ? ?. by apply finish.
Qed.

(** A labelled entry that is returned from. *)
Definition returning_from (i : Z) (r : returning) (tp : option Z) (d : dicts) (w : witness) : Prop :=
  agrees tp d w ∧ RETURNS d !! i = Some r.
Lemma return_follows f i s : follows s → W (on_return f i) s.
Proof.
  intros Hs. unfold on_return. apply wp_bind, wp_gets. destruct (RETURNS (dict s) !! i) as [r|] eqn:Er; [|by apply done_follows].
  case_bool_decide as Htp; cbn [negb]; [|by apply done_follows]. cbv zeta.
  assert (J (returning_from i r) s) as Hr by (intros tp; destruct (Hs tp) as (w & Hr & Hw); by exists w).
  do 2 (eapply (quiet_then (returning_from i r)); [apply _|eassumption|intros ? ? ?]).
  eapply (probe_then _ (λ tp d w, agrees tp (set_returns (delete i (RETURNS d)) d) w)); [eassumption| |intros s3 H3 _].
  - intros tp w [[Hc Hn Hq Ho] Hi]. pose proof (labels_delete tp i r (RETURNS (dict s'0)) Hi) as Hd.
    unfold label_at in Hd. cbn in Hd. rewrite Htp. case_bool_decide as Htp'; cbn in Hd.
    + cbn. assert (r_label r ∈ w_open w) as Hin.
      { eapply elem_of_submseteq; [|exact Ho]. rewrite Hd. apply list_elem_of_here. }
      destruct (remove_one_elem _ _ Hin) as (k & -> & Hk). eexists. split; [done|]. split; cbn; [done..|].
      rewrite Hd, Hk in Ho. by apply (submseteq_app_inv_l _ _ [r_label r]).
    + split; cbn; [done..|]. by rewrite <-Hd.
  - eapply (quiet_then _); [apply _|exact H3|intros ? ? ?].
    eapply (put_then _ agrees); [eassumption|done|]. intros s5 H5 _. by apply done_follows.
Qed.

(** A labelled entry, and the return that may be watched for. *)
Definition spare (label : list Z) (tp0 tp : option Z) (d : dicts) (w : witness) : Prop :=
  agrees tp d w ∧ (tp0 = tp → label :: labels tp (RETURNS d) ⊆+ w_open w).
Lemma spare_follows label tp0 s : J (spare label tp0) s → follows s.
Proof. intros H tp. destruct (H tp) as (w & Hr & Hw & _). eauto. Qed.
Lemma break_follows f i s : follows s → W (on_break alloc f i) s.
Proof.
  intros Hs. unfold on_break. quiet. loud. destruct (_ : list Z * Z) as [label limit]. quiet. cbv zeta. quiets.
  eapply (probe_then agrees (spare label (reg f "tpidr_el1"))); [eassumption| |intros sp Hsp _].
  { intros tp w [Hc Hn Hq Ho]. case_bool_decide as Htp.
    - eexists. split; [done|]. split; [split; cbn; [done..|]|intros _; cbn; by apply submseteq_skip]. by apply submseteq_cons.
    - by split. }
  apply wp_bind. unfold watch_return. apply wp_bind, wp_gets, wp_when; [intros _|intros _; apply finish; by eapply spare_follows].
  do 2 (eapply (quiet_then (spare label (reg f "tpidr_el1"))); [apply _|eassumption|intros ? ? ?]).
  apply wp_update, finish. intros tp. destruct (H6 tp) as (w & Hr & [Hc Hn Hq Ho] & Hsp'). exists w. split; [done|]. split; cbn; [done..|].
  rewrite labels_insert_sub. unfold label_at. cbn. case_bool_decide as Htp; [by apply Hsp'|done].
Qed.

Lemma callback_follows c f i s : follows s → follows (run_callback alloc c f i s).2.
Proof.
  intros Hs. assert (W (run_callback alloc c f i) s) as HW.
  { destruct c as [| | | | | | | | |[]|]; cbn [run_callback].
    - by apply break_follows.
    - by apply stage2_pre_follows.
    - by apply stage2_return_follows.
    - by apply tail_boundary_follows.
    - by apply workloop_block_call_follows.
    - exact (returned_follows f i Action _ s Hs).
    - by apply gate_first_call_follows.
    - exact (returned_follows f i GateFirst _ s Hs).
    - by apply gate_action_boundary_follows.
    - by apply tail_target_follows.
    - unfold on_action_target. apply entered_follows; [|done]. intros a K s0 H0 HK. exact (HK _ eq_refl).
    - unfold on_gate_first_target. apply entered_follows; [|done]. intros a K s0 H0 HK. by apply hex_then.
    - unfold on_gate_action_target. apply entered_follows; [|done]. intros a K s0 H0 HK. by apply hex_then.
    - by apply return_follows. }
  unfold wp in HW. by destruct (run_callback alloc c f i s) as [[b|e] s'].
Qed.
Lemma install_follows' imported attached instructions : follows (install alloc imported attached instructions no_state).2.
Proof.
  assert (follows no_state) as H0.
  { intros tp. exists idle. split; [done|]. by split. }
  assert (∀ e, Holds follows (λ _, True) (install_one alloc attached instructions e)) as He.
  { intros e. unfold install_one. apply holds_bind; [|intros i; apply holds_bind; [|intros _; apply holds_bind; [apply _|intros _; apply holds_bind]]].
    - intros s Hs. unfold keeps_at, create. destruct (alloc (created s)); (split; [exact Hs|done]).
    - apply follows_put. by intros tp d w [].
    - by apply holds_update.
    - intros _. by apply holds_weaken, quiet_print. }
  assert (Holds follows (λ _, True) (install alloc imported attached instructions)) as Hi by (unfold install; apply _).
  apply (Hi no_state H0).
Qed.
End protocol.

(** C16: The probe's events are evidence.  In every reachable state, whatever
    the debugger reads, plants or fails to plant, what was printed at one thread
    pointer is a run of the witness protocol, whose state the tables hold: a
    target of a block or of a gate virtual is reported entered only between a
    reported call to it, with the same arguments, and its return; a return
    answers the pending call, once; the stage-2 actions of the thread are
    numbered from 1, each is answered at most once, in order and with its own
    target, and a return without a call is reported only when none is open; and
    a labelled return has a labelled entry of its own. *)
Theorem probe_refines_witness_protocol alloc s tp :
  reachable alloc s → ∃ w, replay tp (out s) = Some w ∧ agrees tp (dict s) w.
Proof.
  intros Hs. assert (follows s) as Hf; [|apply Hf].
  induction Hs as [imported attached instructions|s i a c f Hs IH Hi]; [apply install_follows'|by apply callback_follows].
Qed.

(** A frame at a thread pointer, with [x0], [x1] and the pointer register. *)
Definition sample_frame (x0 x1 pointer : Z) (pointer_name : string) : frame :=
  Frame (λ n, if bool_decide (n = u "tpidr_el1") then Some 0x77 else if bool_decide (n = u "x0") then Some x0
    else if bool_decide (n = u "x1") then Some x1 else if bool_decide (n = u pointer_name) then Some pointer else None)
    (λ _ _, None) [] 5 1000.
Definition sample_alloc (n : Z) : option Z := if n <? 0 then None else Some (n + 1).
Fixpoint hit_all (l : list (callback * Z * frame)) (s : state) : state :=
  match l with [] => s | (c, i, f) :: l => hit_all l (run_callback sample_alloc c f i s).2 end.
(** Each is an enabled breakpoint with that callback. *)
Fixpoint can_hit (l : list (callback * Z * frame)) (s : state) : bool :=
  match l with
  | [] => true
  | (c, i, f) :: l =>
      match bps s !! i with Some (Breakpoint _ (Some c') true) => bool_decide (c = c') | _ => false end
      && can_hit l (run_callback sample_alloc c f i s).2
  end.
Lemma hit_all_reachable l s : reachable sample_alloc s → can_hit l s = true → reachable sample_alloc (hit_all l s).
Proof.
  revert s. induction l as [|[[c i] f] l IH]; intros s Hs; cbn [hit_all can_hit]; [done|]. intros [Hb Hl]%andb_true_iff.
  apply IH; [|done]. destruct (bps s !! i) as [[a [c'|] []]|] eqn:E; try done. apply bool_decide_eq_true in Hb as ->.
  by eapply r_hit.
Qed.
(** A tail boundary, the block it leads to, its entry and its return. *)
Definition sample_hits : list (callback * Z * frame) :=
  [(OnTailBoundary, 7, sample_frame 0x500 0x600 0x8b90000 "x16");
   (OnWorkloopBlockCall, 8, sample_frame 0x600 0x9 0x8ba0000 "x8");
   (OnTarget Action, 14, sample_frame 0x600 0x9 0 "x8");
   (OnStage2Pre, 5, sample_frame 0x500 0x600 0x8bb0000 "x9");
   (OnWorkloopBlockReturn, 9, sample_frame 1 0 0 "x8");
   (OnStage2Return, 6, sample_frame 0 0 0 "x8")].
Definition installed : state := (install sample_alloc (Ok ()) (λ _, true) (λ _, []) no_state).2.
Definition sample_state : state := hit_all sample_hits installed.
Definition is_probe (l : line) : bool := match l with Probe _ _ => true | _ => false end.
Lemma probe_sample_reachable : reachable sample_alloc sample_state.
Proof.
  apply hit_all_reachable; [apply r_install|]. vm_compute. reflexivity.
Qed.
Lemma probe_refines_witness_protocol_witness :
  length (List.filter is_probe (out sample_state)) = 6%nat ∧ ∃ w, replay (Some 0x77) (out sample_state) = Some w ∧ w_count w = 1.
Proof.
  split; [vm_compute; reflexivity|].
  destruct (probe_refines_witness_protocol sample_alloc sample_state (Some 0x77) probe_sample_reachable) as (w & Hr & Hw).
  exists w. split; [exact Hr|]. destruct Hw as [_ Hc _ _]. rewrite Hc. vm_compute. reflexivity.
Defined.

(** Nested actions of one thread are answered in the order they began: the
    return of the inner one is reported as the outer one's. *)
Lemma nested_action_misreported :
  List.filter is_probe (out (hit_all
    [(OnStage2Pre, 5, sample_frame 0x500 0x600 0x8bb0000 "x9"); (OnStage2Pre, 5, sample_frame 0x510 0x610 0x8bc0000 "x9");
     (OnStage2Return, 6, sample_frame 0 0 0 "x8")] installed)) =
  [Probe (Some 0x77) (Stage2Pre 1 5 0x500 0x600 0xfffffff008bb0000);
   Probe (Some 0x77) (Stage2Pre 2 5 0x510 0x610 0xfffffff008bc0000);
   Probe (Some 0x77) (Stage2Return 1 5 0xfffffff008bb0000)].
Proof. vm_compute. reflexivity. Qed.

(** ** Bounds, and entries that are found *)

(** At most [limit] runs, and one more only while the breakpoint is enabled;
    [x]: the breakpoint whose callback is running. *)
Definition within (x : option Z) (i h limit : Z) (enabled : bool) : Prop :=
  h ≤ limit ∧ (enabled = true → x ≠ Some i → h < limit).
Definition entry_ok (x : option Z) (d : dicts) (i a : Z) (c : callback) (enabled : bool) : Prop :=
  match c with
  | OnBreak => ∃ label limit, CONFIG d !! i = Some (label, limit) ∧ within x i (hits i d) limit enabled
  | OnStage2Pre | OnStage2Return => within x i (hits i d) 8 enabled
  | OnTarget k => ∃ src, by_id (TARGETS d k) !! i = Some (a, src) ∧ by_address (TARGETS d k) !! a = Some i
  | _ => True
  end.
Definition is_bounded (c : callback) : bool := match c with OnBreak | OnStage2Pre | OnStage2Return => true | _ => false end.

Section bounds.
Variable alloc : Z → option Z.
(** The debugger does not use an identifier twice, and counts from 1. *)
Hypothesis Halloc : ∀ n m i, alloc n = Some i → alloc m = Some i → n = m.
Hypothesis Hpositive : ∀ n i, alloc n = Some i → 0 < i.

Record Inv (x : option Z) (s : state) : Prop := {
  v_returns : Z.of_nat (size (RETURNS (dict s))) ≤ RETURN_LIMIT;
  v_created : 0 ≤ created s;
  v_bps i b : bps s !! i = Some b → ∃ n, n < created s ∧ alloc n = Some i;
  v_hits i h : HITS (dict s) !! i = Some h → ∃ n, n < created s ∧ alloc n = Some i;
  v_entry i a c e : bps s !! i = Some (Breakpoint a (Some c) e) → entry_ok x (dict s) i a c e;
}.
(** While the callback [c] of [i] runs, at its [h]th hit; [cf]: its entry in
    [CONFIG]. *)
Definition running (x : option Z) (c : callback) (i h : Z) (cf : option (list Z * Z)) (s : state) : Prop :=
  Inv x s ∧ (∃ a e, bps s !! i = Some (Breakpoint a (Some c) e)) ∧ hits i (dict s) = h ∧ CONFIG (dict s) !! i = cf.
(** What a callback may raise. *)
Definition expected_exn (e : exn) : Prop := match e with RuntimeError _ | TypeError _ => True | _ => False end.

(** A breakpoint that is made is new. *)
Lemma new_is_new x s i : Inv x s → alloc (created s) = Some i → bps s !! i = None ∧ HITS (dict s) !! i = None.
Proof.
  intros Hi Ha. split; [destruct (bps s !! i) eqn:E|destruct (HITS (dict s) !! i) eqn:E]; try done; exfalso.
  - apply (v_bps _ _ Hi) in E as (n & Hn & E). pose proof (Halloc _ _ _ E Ha). lia.
  - apply (v_hits _ _ Hi) in E as (n & Hn & E). pose proof (Halloc _ _ _ E Ha). lia.
Qed.
Lemma no_zero x s : Inv x s → bps s !! 0 = None.
Proof.
  intros Hi. destruct (bps s !! 0) eqn:E; [|done]. apply (v_bps _ _ Hi) in E as (n & _ & Hn). apply Hpositive in Hn. lia.
Qed.
Lemma hits_other i v d : HITS d = v → hits i d = default 0 (v !! i).
Proof. by intros <-. Qed.

(** A breakpoint more, with what its callback needs. *)
Lemma inv_new x j b d o s :
  Inv x s → alloc (created s) = Some j → Z.of_nat (size (RETURNS d)) ≤ RETURN_LIMIT → HITS d = HITS (dict s) →
  (∀ i' a' c' e', i' ≠ j → entry_ok x (dict s) i' a' c' e' → entry_ok x d i' a' c' e') →
  (∀ a' c' e', b = Breakpoint a' (Some c') e' → entry_ok x d j a' c' e') →
  Inv x (State (created s + 1) (<[j := b]> (bps s)) d o).
Proof.
  intros Hi Hj Hret Hhits Hold Hnew. pose proof (v_created _ _ Hi) as Hc0. constructor; cbn.
  - done.
  - lia.
  - intros i' b'. destruct (decide (i' = j)) as [->|Hne'].
    + intros _. exists (created s). split; [lia|done].
    + rewrite lookup_insert_ne by done. intros (n & ? & ?)%(v_bps _ _ Hi). exists n. split; [lia|done].
  - rewrite Hhits. intros i' h' (n & ? & ?)%(v_hits _ _ Hi). exists n. split; [lia|done].
  - intros i' a' c' e'. destruct (decide (i' = j)) as [->|Hne'].
    + rewrite lookup_insert_eq. intros [= ->]. by apply Hnew.
    + rewrite lookup_insert_ne by done. intros Hb'. apply Hold; [done|by apply (v_entry _ _ Hi)].
Qed.

Section run.
Variables (x : option Z) (c : callback) (i h : Z) (cf : option (list Z * Z)) (E : exn → Prop).
Abbreviation Runs := (Holds (running x c i h cf)).
Lemma runs_print l : Runs E (print l).
Proof. apply holds_update. intros s ([] & Hb & Hh). split; [by constructor|done]. Qed.
Lemma runs_get {A} (g : dicts → A) : Runs E (get g).
Proof. unfold get. apply _. Qed.
(** Changes of the tables that have no bound. *)
Lemma runs_put g :
  (∀ d, CONFIG (g d) = CONFIG d ∧ RETURNS (g d) = RETURNS d ∧ HITS (g d) = HITS d ∧ TARGETS (g d) = TARGETS d) →
  Runs E (put g).
Proof.
  intros Hg. apply holds_update. intros s ([] & Hb & Hh). destruct (Hg (dict s)) as (E1 & E2 & E3 & E4).
  split; [|split; [done|cbn; unfold hits in *; by rewrite E1, E3]]. constructor; cbn; rewrite ?E1, ?E2, ?E3, ?E4; try done.
  intros j a c' e Hj. apply v_entry0 in Hj. destruct c'; cbn in *; unfold hits in *; rewrite ?E1, ?E3, ?E4; done.
Qed.
Lemma runs_hex a : Runs expected_exn (hex_arg a).
Proof. apply holds_lift. intros e He. destruct a; by simplify_eq/=. Qed.
Lemma running_new j b d s :
  running x c i h cf s → alloc (created s) = Some j →
  Z.of_nat (size (RETURNS d)) ≤ RETURN_LIMIT → HITS d = HITS (dict s) → CONFIG d = CONFIG (dict s) →
  (∀ i' a' c' e', i' ≠ j → entry_ok x (dict s) i' a' c' e' → entry_ok x d i' a' c' e') →
  (∀ a' c' e', b = Breakpoint a' (Some c') e' → entry_ok x d j a' c' e') →
  running x c i h cf (State (created s + 1) (<[j := b]> (bps s)) d (out s)).
Proof.
  intros (Hi & (a & e & Hb) & Hh) Hj Hret Hhits Hconf Hold Hnew. split; [by apply inv_new|]. split; cbn.
  - exists a, e. rewrite lookup_insert_ne; [done|]. intros ->. destruct (new_is_new _ _ _ Hi Hj). congruence.
  - unfold hits in *. by rewrite Hhits, Hconf.
Qed.
Lemma running_out o o' n bs d : running x c i h cf (State n bs d o) → running x c i h cf (State n bs d o').
Proof. intros ([] & Hb & Hh). split; [by constructor|done]. Qed.
Lemma runs_install k message address src : Runs expected_exn (install_target alloc k message address src).
Proof.
  intros s Hs. unfold install_target. apply keeps_gets. destruct (by_address (TARGETS (dict s) k) !! address) as [j|] eqn:Ea.
  { by apply holds_ret. }
  unfold keeps_at, mbind, se_bind, create, attach, put, print, update. destruct (alloc (created s)) as [j|] eqn:Ej; cbn; [|by split].
  split; [|done]. rewrite alter_insert_eq. apply (running_out (out s)). cbn [b_address b_enabled].
  apply running_new; [done|done|apply (v_returns _ _ (proj1 Hs))|done|done|..].
  - intros i' a' c' e' Hne. destruct c' as [| | | | | | | | |k'|]; cbn; try done. destruct (decide (k = k')) as [<-|Hk].
    + rewrite fn_lookup_insert. cbn. intros (src' & H1 & H2). exists src'. rewrite lookup_insert_ne by done.
      split; [done|]. rewrite lookup_insert_ne; [done|]. intros ->. congruence.
    + by rewrite fn_lookup_insert_ne.
  - intros a' c' e' [= <- <- <-]. cbn. rewrite fn_lookup_insert. cbn. exists src. by rewrite !lookup_insert_eq.
Qed.
(** The return that is watched for. *)
Lemma runs_watch f label lr : Runs E (watch_return alloc f label lr).
Proof.
  intros s Hs. unfold watch_return. apply keeps_gets. unfold when. destruct (truthy lr); [|by apply holds_ret]. cbn [andb].
  destruct (Z.ltb_spec (Z.of_nat (size (RETURNS (dict s)))) RETURN_LIMIT) as [Hlt|]; [|by apply holds_ret].
  unfold keeps_at, mbind, se_bind, create_unchecked, attach, put, update.
  assert (∀ j r, Z.of_nat (size (<[j := r]> (RETURNS (dict s)))) ≤ RETURN_LIMIT) as Hsize.
  { intros j r. rewrite map_size_insert. destruct (RETURNS (dict s) !! j); unfold id; lia. }
  destruct (alloc (created s)) as [j|] eqn:Ej; cbn; (split; [|done]).
  - unfold with_dict, with_bps, add_bp. cbn. rewrite alter_insert_eq. apply running_new; [done|done|apply Hsize|done|done|..].
    + intros i' a' c' e' _. by destruct c'.
    + by intros a' c' e' [= <- <- <-].
  - destruct Hs as (Hi & Hb & Hh). unfold with_dict, with_bps. cbn. rewrite alter_id; [|intros b E0; by rewrite (no_zero _ _ Hi) in E0].
    split; [|done]. destruct Hi. constructor; cbn; done.
Qed.
(** [SetEnabled(False)], here and at the end of the callback. *)
Lemma runs_disable : Runs E (disable i).
Proof.
  apply holds_update. intros s (Hi & (a & e & Hb) & Hh). split; [destruct Hi; constructor; cbn; try done|split; cbn].
  - intros i' b'. destruct (decide (i' = i)) as [->|Hne]; [intros _; by eapply v_bps0|rewrite lookup_alter_ne by done; apply v_bps0].
  - intros i' a' c' e'. destruct (decide (i' = i)) as [->|Hne].
    + rewrite lookup_alter_eq, Hb. cbn. intros [= <- <- <-]. apply v_entry0 in Hb. destruct c; cbn in *; try done.
      * destruct Hb as (label & limit & Hc & Hw & _). exists label, limit. by split_and!.
      * by destruct Hb.
      * by destruct Hb.
    + rewrite lookup_alter_ne by done. apply v_entry0.
  - exists a, false. by rewrite lookup_alter_eq, Hb.
  - done.
Qed.
End run.

(** A callback that has started: it ends, and the guest runs on, or raises,
    with the bounds. *)
Definition fine (m : SM bool) (s : state) : Prop :=
  wp m (λ b s', b = false ∧ Inv None s') (λ e s', expected_exn e ∧ Inv None s') s.
Abbreviation never := (λ _ : exn, False).
(** A step of a callback with no limit, and of one with a limit. *)
Lemma step_then {A} c i h cf (m : SM A) K s :
  Holds (running None c i h cf) expected_exn m → running None c i h cf s →
  (∀ a s', running None c i h cf s' → fine (K a) s') → fine (m ≫= K) s.
Proof.
  intros Hm Hs HK. apply wp_bind. unfold wp at 1. destruct (Hm s Hs) as [H1 H2]. destruct (m s) as [[a|e] s']; [by apply HK|].
  split; [done|apply H1].
Qed.
Lemma limited_then {A} c i h cf (m : SM A) K s :
  Holds (running (Some i) c i h cf) never m → running (Some i) c i h cf s →
  (∀ a s', running (Some i) c i h cf s' → fine (K a) s') → fine (m ≫= K) s.
Proof.
  intros Hm Hs HK. apply wp_bind. unfold wp at 1. destruct (Hm s Hs) as [H1 H2]. by destruct (m s) as [[a|e] s']; [apply HK|].
Qed.
Definition same_but_hits (i h : Z) (s : state) : state := with_dict (λ d, set_hits (<[i := h]> (HITS d)) d) s.
Lemma hit_created x c i h cf s : running x c i h cf s → ∃ n, n < created s ∧ alloc n = Some i.
Proof. intros (Hi & (a & e & Hb) & _). by apply (v_bps _ _ Hi) in Hb. Qed.
Lemma bump_then c i h cf K s :
  is_bounded c = false → running None c i h cf s → (∀ s', running None c i (h + 1) cf s' → fine (K (h + 1)) s') →
  fine (bump i ≫= K) s.
Proof.
  intros Hc Hs HK. pose proof (hit_created _ _ _ _ _ _ Hs) as Hn. destruct Hs as (Hi & (a & e & Hb) & Hh & Hf).
  unfold fine, bump. apply wp_bind, wp_bind, wp_gets, wp_bind, wp_update, wp_ret. rewrite Hh. apply HK.
  split; [destruct Hi; constructor; cbn; try done|].
  - intros j v. destruct (decide (j = i)) as [->|Hne]; [by intros _|rewrite lookup_insert_ne by done; apply v_hits0].
  - intros j a' c' e' Hj. assert (c' = c ∨ j ≠ i) as Hor by (destruct (decide (j = i)) as [->|]; [left; congruence|by right]).
    apply v_entry0 in Hj. destruct c'; cbn in *; unfold hits in *; cbn; destruct Hor as [<-|Hne]; try done;
      rewrite ?lookup_insert_ne by done; done.
  - split; [by exists a, e|]. unfold hits. cbn. by rewrite lookup_insert_eq.
Qed.
(** A callback with a limit: one hit more, and the end that disables it. *)
Definition limit_of (c : callback) (cf : option (list Z * Z)) : option Z :=
  match c with OnBreak => snd <$> cf | OnStage2Pre | OnStage2Return => Some 8 | _ => None end.
Lemma entry_within x d i a c e limit :
  limit_of c (CONFIG d !! i) = Some limit → entry_ok x d i a c e ↔ within x i (hits i d) limit e.
Proof.
  destruct c; cbn; try done; intros Hl; try (injection Hl as <-; done).
  destruct (CONFIG d !! i) as [[label l]|] eqn:E; [|done]. injection Hl as <-. split.
  - intros (label' & l' & [= <- <-] & Hw). done.
  - intros Hw. by exists label, l.
Qed.
Lemma bump_limited c i h cf limit a K s :
  bps s !! i = Some (Breakpoint a (Some c) true) → running None c i h cf s → limit_of c cf = Some limit →
  (∀ s', h + 1 ≤ limit → running (Some i) c i (h + 1) cf s' → fine (K (h + 1)) s') → fine (bump i ≫= K) s.
Proof.
  intros Hen Hs Hl HK. pose proof (hit_created _ _ _ _ _ _ Hs) as Hn. destruct Hs as (Hi & _ & Hh & Hf).
  pose proof (v_entry _ _ Hi _ _ _ _ Hen) as Hw. rewrite <-Hf in Hl. rewrite (entry_within _ _ _ _ _ _ limit Hl) in Hw.
  destruct Hw as [_ Hlt]. specialize (Hlt eq_refl ltac:(done)). rewrite Hh in Hlt.
  unfold fine, bump. apply wp_bind, wp_bind, wp_gets, wp_bind, wp_update, wp_ret. rewrite Hh. apply HK; [lia|].
  assert (hits i (set_hits (<[i := h + 1]> (HITS (dict s))) (dict s)) = h + 1) as Hh'.
  { unfold hits. cbn. by rewrite lookup_insert_eq. }
  split; [destruct Hi; constructor; cbn; try done|].
  - intros j v. destruct (decide (j = i)) as [->|Hne]; [by intros _|rewrite lookup_insert_ne by done; apply v_hits0].
  - intros j a' c' e' Hj. destruct (decide (j = i)) as [->|Hne].
    + rewrite Hen in Hj. injection Hj as <- <- <-. rewrite (entry_within _ _ _ _ _ _ limit) by done. rewrite Hh'.
      split; [lia|]. by intros _ [].
    + apply v_entry0 in Hj. assert (hits j (set_hits (<[i := h + 1]> (HITS (dict s))) (dict s)) = hits j (dict s)) as Hhj.
      { unfold hits. cbn. by rewrite lookup_insert_ne. }
      destruct c'; cbn [entry_ok set_hits CONFIG TARGETS] in *; rewrite ?Hhj; try done.
      * destruct Hj as (label & l & ? & Hle & Hlt'). exists label, l. split; [done|]. split; [done|]. intros He _. by apply Hlt'.
      * destruct Hj as [Hle Hlt']. split; [done|]. intros He _. by apply Hlt'.
      * destruct Hj as [Hle Hlt']. split; [done|]. intros He _. by apply Hlt'.
  - split; [by exists a, true|done].
Qed.
Lemma release c i h cf limit s :
  running (Some i) c i h cf s → limit_of c cf = Some limit →
  (h < limit ∨ ∀ a e, bps s !! i = Some (Breakpoint a (Some c) e) → e = false) → Inv None s.
Proof.
  intros ([] & (a & e & Hb) & Hh & Hf) Hl Hor. constructor; try done. intros j a' c' e' Hj.
  destruct (decide (j = i)) as [->|Hne].
  - rewrite Hb in Hj. injection Hj as <- <- <-. rewrite <-Hf in Hl. pose proof (v_entry0 _ _ _ _ Hb) as Hw.
    apply (entry_within _ _ _ _ _ _ limit Hl) in Hw. apply (entry_within _ _ _ _ _ _ limit Hl). destruct Hw as [Hle _]. split; [done|]. intros -> _. rewrite Hh.
    destruct Hor as [?|Hor]; [done|]. by apply Hor in Hb.
  - apply v_entry0 in Hj. destruct c'; cbn in *; try done.
    + destruct Hj as (label & l & ? & Hle & Hlt'). exists label, l. split; [done|]. split; [done|]. intros He _. apply Hlt'; congruence.
    + destruct Hj as [Hle Hlt']. split; [done|]. intros He _. apply Hlt'; congruence.
    + destruct Hj as [Hle Hlt']. split; [done|]. intros He _. apply Hlt'; congruence.
Qed.
Lemma limited_end c i h cf limit s :
  running (Some i) c i h cf s → limit_of c cf = Some limit → fine (_ ← bounded i h limit; mret false) s.
Proof.
  intros Hs Hl. unfold fine, bounded. apply wp_bind, wp_when.
  - intros _. apply wp_bind. destruct (runs_disable (Some i) c i h cf never s Hs) as [Hd _].
    unfold disable in *. apply wp_update. unfold print. apply wp_update, wp_ret. split; [done|].
    pose proof (runs_print (Some i) c i h cf never (Disabled i h) _ Hd) as [Hp _]. eapply release; [exact Hp|exact Hl|]. right.
    destruct Hs as (_ & (a & e & Hb) & _). intros a' e'. cbn. rewrite lookup_alter_eq, Hb. cbn. by intros [= <- <-].
  - intros Hlt. apply wp_ret. split; [done|]. eapply release; [exact Hs|exact Hl|]. left. lia.
Qed.

#[local] Existing Instances runs_print runs_get runs_hex runs_install runs_watch runs_disable.
#[local] Hint Extern 1 (Holds (running _ _ _ _ _) _ (put _)) => (apply runs_put; by intros []) : typeclass_instances.
Section steps.
Variables (x : option Z) (c : callback) (i h : Z) (cf : option (list Z * Z)) (E : exn → Prop).
Abbreviation Runs := (Holds (running x c i h cf) E).
#[export] Instance runs_bounded hit limit : Runs (bounded i hit limit).
Proof. unfold bounded. apply _. Qed.
#[export] Instance runs_registers f l : Runs (registers f l).
Proof. unfold registers. apply _. Qed.
#[export] Instance runs_arguments f : Runs (argument_registers f).
Proof. unfold argument_registers. apply _. Qed.
#[export] Instance runs_probe f e : Runs (probe f e).
Proof. unfold probe. apply _. Qed.
#[export] Instance runs_object f label a l : Runs (dump_object f label a l).
Proof. unfold dump_object. apply _. Qed.
#[export] Instance runs_operation f a : Runs (dump_stage2_operation f a).
Proof. unfold dump_stage2_operation. apply _. Qed.
#[export] Instance runs_tail f a : Runs (dump_tail_object f a).
Proof. unfold dump_tail_object. apply _. Qed.
#[export] Instance runs_label f label : Runs (dump_label f label).
Proof. unfold dump_label. repeat case_bool_decide; try case_match; apply _. Qed.
#[export] Instance runs_expect k tp p : Runs (expect k tp p).
Proof. unfold expect. apply _. Qed.
#[export] Instance runs_take k tp : Runs (take_pending k tp).
Proof. unfold take_pending. apply _. Qed.
#[export] Instance runs_answer f hit : Runs (answer_stage2 f hit).
Proof. unfold answer_stage2. apply holds_bind; [apply _|]. intros [|call rest]; apply _. Qed.
End steps.

Ltac free := eapply step_then; [apply _|eassumption|intros ? ? ?].
Ltac bump H := eapply bump_then; [|exact H|]; [done|].
Ltac frees := repeat (free; cbv beta zeta).
Ltac limited := eapply limited_then; [apply _|eassumption|intros ? ? ?].
Ltac limiteds := repeat (lazymatch goal with |- fine (bounded _ _ _ ≫= _) _ => fail | _ => limited end; cbv beta zeta).
Lemma fine_ret c i h cf s : running None c i h cf s → fine (mret false) s.
Proof. intros [Hi _]. by apply wp_ret. Qed.
Lemma fine_raise c i h cf e s : running None c i h cf s → expected_exn e → fine (raise e) s.
Proof. intros [Hi _] He. by apply wp_raise. Qed.
Lemma get_then {A} (g : dicts → A) K s : fine (K (g (dict s))) s → fine (get g ≫= K) s.
Proof. done. Qed.
#[local] Hint Extern 1 (fine (mret _) _) => (eapply fine_ret; eassumption) : core.

Section callbacks.
Variables (f : frame) (i a : Z).
Lemma fine_tail_boundary h cf s : running None OnTailBoundary i h cf s → fine (on_tail_boundary alloc f i) s.
Proof.
  intros Hs. unfold on_tail_boundary. bump Hs. intros s1 H1. cbv zeta.
  destruct (_ =? 0); [by eapply fine_raise|]. unfold install_tail_target. frees. auto.
Qed.
Lemma fine_call k message target src p e (K : SM bool) c h cf s :
  running None c i h cf s → (∀ s', running None c i h cf s' → fine K s') →
  fine (id ← install_target alloc k message target src; _ ← expect k (reg f "tpidr_el1") p; _ ← probe f (e id); K) s.
Proof. intros Hs HK. do 3 free. by apply HK. Qed.
Lemma fine_workloop h cf s : running None OnWorkloopBlockCall i h cf s → fine (on_workloop_block_call alloc f i) s.
Proof.
  intros Hs. unfold on_workloop_block_call, install_action_target. apply get_then. case_match; [|auto]. case_match; [auto|]. cbv zeta.
  bump Hs. intros s1 H1. frees. auto.
Qed.
Lemma fine_gate_first h cf s : running None OnGateFirstCall i h cf s → fine (on_gate_first_call alloc f i) s.
Proof.
  intros Hs. unfold on_gate_first_call, install_gate_first_target. apply get_then. case_match; [|auto].
  eapply step_then; [apply holds_lift|exact Hs|]; [intros e He; unfold opt_or in He; by case_match; simplify_eq/=|]. intros gate s1 H1. cbv zeta. case_match; [auto|].
  bump H1. intros s2 H2. frees. auto.
Qed.
Lemma fine_gate_action h cf s : running None OnGateActionBoundary i h cf s → fine (on_gate_action_boundary alloc f i) s.
Proof.
  intros Hs. unfold on_gate_action_boundary, install_gate_action_target. apply get_then. case_match; [|auto]. cbv zeta. case_match; [auto|].
  bump Hs. intros s1 H1. frees. auto.
Qed.
Lemma fine_returned k c label h cf s : is_bounded c = false → running None c i h cf s → fine (on_returned f i k label) s.
Proof.
  intros Hc Hs. unfold on_returned. free. case_match; [|auto]. bump H. intros s1 H1. frees. auto.
Qed.
(** An entry witness finds its entry. *)
Lemma fine_entered k label argument_of h cf s :
  (∀ v h, Holds (running None (OnTarget k) i h cf) expected_exn (argument_of v)) →
  running None (OnTarget k) i h cf s → fine (on_entered f i k label argument_of) s.
Proof.
  intros Harg Hs. pose proof Hs as (Hi & (a' & e & Hb) & _). apply (v_entry _ _ Hi) in Hb as (src & Hid & _).
  unfold on_entered. apply get_then. rewrite Hid. eapply step_then; [by apply holds_lift|exact Hs|]. intros [address src'] s1 H1.
  apply get_then. case_match; [|auto]. case_match; [auto|]. bump H1. intros s2 H2. frees. auto.
Qed.
Lemma fine_tail_target h cf s : running None (OnTarget Tail) i h cf s → fine (on_tail_target f i) s.
Proof.
  intros Hs. unfold on_tail_target. bump Hs. intros s1 H1. pose proof H1 as (Hi & (a' & e & Hb) & _).
  apply (v_entry _ _ Hi) in Hb as (src & Hid & _). apply get_then. rewrite Hid.
  eapply step_then; [by apply holds_lift|exact H1|]. intros [address src'] s2 H2. frees. auto.
Qed.
Lemma fine_stage2_pre h cf s : bps s !! i = Some (Breakpoint a (Some OnStage2Pre) true) → running None OnStage2Pre i h cf s → fine (on_stage2_pre f i) s.
Proof.
  intros Hen Hs. unfold on_stage2_pre. eapply bump_limited; [exact Hen|exact Hs|done|]. intros s1 _ H1. cbv zeta.
  limiteds. eapply limited_end; [eassumption|done].
Qed.
Lemma fine_stage2_return h cf s : bps s !! i = Some (Breakpoint a (Some OnStage2Return) true) → running None OnStage2Return i h cf s → fine (on_stage2_return f i) s.
Proof.
  intros Hen Hs. unfold on_stage2_return. eapply bump_limited; [exact Hen|exact Hs|done|]. intros s1 _ H1. limiteds.
  eapply limited_end; [eassumption|done].
Qed.
Lemma fine_break h cf s : bps s !! i = Some (Breakpoint a (Some OnBreak) true) → running None OnBreak i h cf s → fine (on_break alloc f i) s.
Proof.
  intros Hen Hs. pose proof Hs as (Hi & _ & _ & Hcf). pose proof (v_entry _ _ Hi _ _ _ _ Hen) as (label & limit & Hc & _).
  rewrite Hcf in Hc. unfold on_break. apply get_then. rewrite Hcf, Hc. apply wp_bind, wp_lift; [|done]. intros ? [= <-].
  change (fine (hit ← bump i; _ ← print (Hit label hit limit); _ ← registers f ["tpidr_el1"; "pc"; "lr"; "x0"; "x1"; "x2"];
    _ ← dump_label f label; _ ← probe f (LabelEntry label (f_thread f) (or0 (reg f "x0")) (or0 (reg f "x1")) (or0 (reg f "x2")) (or0 (reg f "lr")));
    _ ← watch_return alloc f label (reg f "lr"); _ ← bounded i hit limit; mret false) s).
  eapply bump_limited; [exact Hen|exact Hs|by rewrite Hc|]. intros s2 _ H2. limiteds. eapply limited_end; [eassumption|by rewrite Hc].
Qed.
(** The return that was watched for: its breakpoint is deleted. *)
Lemma fine_return h cf s : running None OnReturn i h cf s → fine (on_return f i) s.
Proof.
  intros Hs. unfold on_return. apply get_then. case_match; [|auto]. case_match; [auto|]. cbv zeta. do 3 free.
  destruct H3 as [[] _]. unfold fine. apply wp_bind, wp_update, wp_bind, wp_update, wp_ret. split; [done|]. constructor; cbn; try done.
  - etrans; [|exact v_returns0]. rewrite map_size_delete. unfold id. case_match; lia.
  - intros j b [_ Hj]%lookup_delete_Some. by eapply v_bps0.
  - intros j a' c' e [_ Hj]%lookup_delete_Some. apply v_entry0 in Hj. by destruct c'.
Qed.
Lemma callback_fine c s : Inv None s → bps s !! i = Some (Breakpoint a (Some c) true) → fine (run_callback alloc c f i) s.
Proof.
  intros Hi Hen. assert (running None c i (hits i (dict s)) (CONFIG (dict s) !! i) s) as Hs by by split; [|split; [exists a, true|]].
  destruct c as [| | | | | | | | |[]|]; cbn [run_callback].
  - by eapply fine_break.
  - by eapply fine_stage2_pre.
  - by eapply fine_stage2_return.
  - by eapply fine_tail_boundary.
  - by eapply fine_workloop.
  - eapply (fine_returned Action); [|exact Hs]; done.
  - by eapply fine_gate_first.
  - eapply (fine_returned GateFirst); [|exact Hs]; done.
  - by eapply fine_gate_action.
  - by eapply fine_tail_target.
  - unfold on_action_target. eapply fine_entered; [|exact Hs]. apply _.
  - unfold on_gate_first_target. eapply fine_entered; [|exact Hs]. apply _.
  - unfold on_gate_action_target. eapply fine_entered; [|exact Hs]. apply _.
  - by eapply fine_return.
Qed.
End callbacks.

(** The installation plants no entry witness and gives each breakpoint a limit
    that is positive. *)
Definition entry_positive (e : entry) : bool := bool_decide (0 < e_limit e) && match e_callback e with OnTarget _ | OnReturn => false | _ => true end.
Lemma install_one_inv attached instructions e :
  entry_positive e = true → Holds (Inv None) expected_exn (install_one alloc attached instructions e).
Proof.
  intros [Hpos%bool_decide_eq_true Hcb]%andb_true_iff s Hi. unfold install_one, keeps_at, mbind, se_bind, create.
  destruct (alloc (created s)) as [j|] eqn:Ej; cbn; [|by split].
  assert (∀ c o, (∀ c', c = Some c' → c' = e_callback e) →
    Inv None (State (created s + 1) (<[j := Breakpoint (e_static e + KSLIDE) c true]> (bps s))
      (set_config (<[j := (e_label e, e_limit e)]> (CONFIG (dict s))) (dict s)) o)) as Hnew.
  { intros c o Hc. apply inv_new; [done|done|apply (v_returns _ _ Hi)|done|..]; cbn.
    - intros i' a' [] e' Hne; cbn; try done. rewrite lookup_insert_ne; done.
    - assert (hits j (dict s) = 0) as H0 by (unfold hits; by rewrite (proj2 (new_is_new _ _ _ Hi Ej))).
      intros a' c' e' [= <- -> <-]. rewrite (Hc c') in * by done. destruct (e_callback e) eqn:Ec; cbn; try done.
      1: exists (e_label e), (e_limit e); rewrite lookup_insert_eq; split; [done|].
      all: change (hits j (set_config _ _)) with (hits j (dict s)); rewrite H0; split; [lia|intros _ _; lia]. }
  unfold when. destruct (attached (e_label e)); cbn.
  - rewrite alter_insert_eq. split; [|done]. apply Hnew. by intros ? [= <-].
  - split; [|done]. by apply Hnew.
Qed.
Lemma install_inv imported attached instructions : Inv None (install alloc imported attached instructions no_state).2.
Proof.
  assert (Inv None no_state) as H0.
  { constructor; cbn; intros *; try rewrite lookup_empty; try done. }
  assert (Forall (λ e, entry_positive e = true) ENTRIES) as Hall by (unfold ENTRIES; repeat (constructor; [reflexivity|]); constructor).
  assert (Holds (Inv None) expected_exn (for_each (install_one alloc attached instructions) ENTRIES)) as Hl.
  { induction Hall as [|e l He Hl IH]; cbn [for_each]; [apply _|]. apply holds_bind; [by apply install_one_inv|done]. }
  unfold install. destruct imported as [[]|e]; [|done]. apply (Hl _ H0).
Qed.
Lemma probe_reachable_inv s : reachable alloc s → Inv None s.
Proof.
  induction 1 as [|s i a c f Hs IH Hi]; [apply install_inv|]. pose proof (callback_fine f i a c s IH Hi) as Hf. unfold fine, wp in Hf.
  destruct (run_callback alloc c f i s) as [[b|e] s']; by destruct Hf.
Qed.
End bounds.

(** C17: The probe is bounded and does not disturb the guest it observes.  When
    the debugger numbers its breakpoints from 1 and never twice, in every
    reachable state at most 24 returns are watched for; a labelled site has run
    at most as often as its entry in [CONFIG] allows and a stage-2 site at most
    8 times, and when it has it is disabled; and a callback at an enabled
    breakpoint lets the guest run on, or raises an error of its own
    ([RuntimeError] or [TypeError]): it finds its entry in every table, and
    never fails with [KeyError]. *)
Theorem probe_bounded alloc s :
  (∀ n m i, alloc n = Some i → alloc m = Some i → n = m) → (∀ n i, alloc n = Some i → 0 < i) → reachable alloc s →
  Z.of_nat (size (RETURNS (dict s))) ≤ RETURN_LIMIT
  ∧ (∀ i a e, bps s !! i = Some (Breakpoint a (Some OnBreak) e) → ∃ label limit,
      CONFIG (dict s) !! i = Some (label, limit) ∧ hits i (dict s) ≤ limit ∧ (e = true → hits i (dict s) < limit))
  ∧ (∀ i a c e, bps s !! i = Some (Breakpoint a (Some c) e) → c = OnStage2Pre ∨ c = OnStage2Return →
      hits i (dict s) ≤ 8 ∧ (e = true → hits i (dict s) < 8))
  ∧ (∀ i a c f, bps s !! i = Some (Breakpoint a (Some c) true) →
      match (run_callback alloc c f i s).1 with Ok stop => stop = false | Raise e => expected_exn e end).
Proof.
  intros Halloc Hpositive Hs. pose proof (probe_reachable_inv _ Halloc Hpositive _ Hs) as Hi. split; [apply (v_returns _ _ _ Hi)|]. split_and!.
  - intros i a e Hb. apply (v_entry _ _ _ Hi) in Hb as (label & limit & ? & ? & Hlt). exists label, limit. split_and!; [done..|]. intros He. by apply Hlt.
  - intros i a c e Hb Hc. apply (v_entry _ _ _ Hi) in Hb. destruct Hc as [-> | ->]; destruct Hb as [? Hlt]; (split; [done|]; intros He; by apply Hlt).
  - intros i a c f Hb. pose proof (callback_fine _ Halloc Hpositive f i a c s Hi Hb) as Hf. unfold fine, wp in Hf.
    destruct (run_callback alloc c f i s) as [[b|e] s']; by destruct Hf.
Qed.
(** A labelled site at its limit. *)
Definition exhausted : state := hit_all (repeat (OnBreak, 4, sample_frame 0x500 0x600 0x1000 "lr") 8) installed.
Lemma exhausted_reachable : reachable sample_alloc exhausted.
Proof. apply hit_all_reachable; [apply r_install|]. vm_compute. reflexivity. Qed.
Lemma sample_alloc_injective n m i : sample_alloc n = Some i → sample_alloc m = Some i → n = m.
Proof. unfold sample_alloc. destruct (n <? 0), (m <? 0); intros; simplify_eq; lia. Qed.
Lemma sample_alloc_positive n i : sample_alloc n = Some i → 0 < i.
Proof. unfold sample_alloc. destruct (Z.ltb_spec n 0); intros; simplify_eq; lia. Qed.
Lemma probe_bounded_witness :
  (∃ a, bps exhausted !! 4 = Some (Breakpoint a (Some OnBreak) false))
  ∧ hits 4 (dict exhausted) = 8 ∧ ∃ label limit, CONFIG (dict exhausted) !! 4 = Some (label, limit) ∧ hits 4 (dict exhausted) ≤ limit.
Proof.
  assert (bps exhausted !! 4 = Some (Breakpoint 0xfffffff02a0d41f0 (Some OnBreak) false)) as H4 by (vm_compute; reflexivity).
  split; [by eexists|]. split; [vm_compute; reflexivity|].
  destruct (probe_bounded sample_alloc exhausted) as (_ & Hb & _).
  - exact sample_alloc_injective.
  - exact sample_alloc_positive.
  - exact exhausted_reachable.
  - destruct (Hb 4 _ _ H4) as (label & limit & H1 & H2 & _). exists label, limit. by split.
Defined.
