(* ===== verification/FirstSurface.v ===== *)
(** * The first-surface tracer: [tools/re/first_surface_callbacks.py]

    The tracer breaks where QuartzCore hands a surface to the display driver.
    At a decisive site it reads the surface's geometry and pixels out of the
    stopped guest, keeps each new picture in a file and counts its pixels; what
    it finds is written as event files, and a success label can stop the guest.
    The debugger is an argument, as in the other tracers; so is which files can
    be written. *)

From stdpp Require Import base tactics list gmap strings.
From Stdlib Require Import Strings.Byte.
From S2P Require Import Prelude PyState PyBytes PyStr StartupDecode.
From S2P Require Sha256.
Open Scope Z_scope.

(** ** Options and reading *)

(** [DVM_PROBE_EVENT_DIR], [DVM_PROBE_SUCCESS_LABELS],
    [DVM_FIRST_SURFACE_STOP_ON_SUCCESS] and [DVM_KERNEL_SLIDE]. *)
Record options := Options {
  EVENT_DIR : list Z; SUCCESS_LABELS : list (list Z); STOP_ON_SUCCESS : bool; KERNEL_SLIDE : Z;
}.
Definition success_labels_of (env : option (list Z)) : list (list Z) :=
  filter (λ l, l ≠ []) (split1 44 (default [] env)).
Definition stop_on_success_of (env : option (list Z)) : bool := negb (bool_decide (default (u "0") env = u "0")).
Definition options_of (env : list Z → option (list Z)) : res options :=
  kernel_slide ← int0 (default (u "0x20000000") (env (u "DVM_KERNEL_SLIDE")));
  Ok (Options (default [] (env (u "DVM_PROBE_EVENT_DIR"))) (success_labels_of (env (u "DVM_PROBE_SUCCESS_LABELS")))
        (stop_on_success_of (env (u "DVM_FIRST_SURFACE_STOP_ON_SUCCESS"))) kernel_slide).

Definition IOSURFACE_IVAR_OFFSET_GLOBAL : Z := 0x1e5c16b44.
(** The byte of red, green, blue and alpha in a pixel. *)
Definition PIXEL_CHANNELS (format : Z) : option (Z * Z * Z * Z) :=
  if format =? 0x42475241 then Some (2, 1, 0, 3)
  else if format =? 0x41524742 then Some (1, 2, 3, 0)
  else if format =? 0x52474241 then Some (0, 1, 2, 3)
  else if format =? 0x41424752 then Some (3, 2, 1, 0)
  else None.

Definition reg (f : frame) (name : string) : option Z := f_reg f (u name).
Definition u32_at (f : frame) (address : Z) : option Z :=
  let data := read f address 4 in if zlen data =? 4 then Some (le_Z data) else None.
(** [int.from_bytes(data, "little", signed=True)] of four bytes. *)
Definition signed32 (data : list byte) : Z :=
  let v := le_Z data in if v <? 2 ^ 31 then v else v - 2 ^ 32.

(** ** Surfaces *)

Inductive metadata :=
  | IvarOffsetUnreadable
  | InternalObjectUnreadable (ivar_offset : Z)
  | Metadata (ivar_offset internal : Z) (alloc_size width height bytes_per_row base_address pixel_format plane_count : option Z).
(** [metadata.get(...)]. *)
Definition m_alloc_size (m : metadata) := match m with Metadata _ _ a _ _ _ _ _ _ => a | _ => None end.
Definition m_width (m : metadata) := match m with Metadata _ _ _ w _ _ _ _ _ => w | _ => None end.
Definition m_height (m : metadata) := match m with Metadata _ _ _ _ h _ _ _ _ => h | _ => None end.
Definition m_row (m : metadata) := match m with Metadata _ _ _ _ _ r _ _ _ => r | _ => None end.
Definition m_base (m : metadata) := match m with Metadata _ _ _ _ _ _ b _ _ => b | _ => None end.
Definition m_format (m : metadata) := match m with Metadata _ _ _ _ _ _ _ p _ => p | _ => None end.

Definition surface_metadata (slide : Z) (f : frame) (surface : Z) : metadata :=
  let raw_offset := read f (slide + IOSURFACE_IVAR_OFFSET_GLOBAL) 4 in
  if negb (zlen raw_offset =? 4) then IvarOffsetUnreadable
  else
    let ivar_offset := signed32 raw_offset in
    let internal := u64_at f (surface + ivar_offset) in
    if negb (truthy internal) then InternalObjectUnreadable ivar_offset
    else
      let internal := or0 internal in
      let plane_count := u32_at f (internal + 0xc8) in
      let base :=
        if bool_decide (plane_count = Some 0)
        then base_component ← u64_at f (internal + 0xb0);
             base_offset ← u64_at f (internal + 0x70);
             Some (base_component + base_offset)
        else None in
      Metadata ivar_offset internal (u64_at f (internal + 0x90)) (u64_at f (internal + 0x98)) (u64_at f (internal + 0xa0))
        (u64_at f (internal + 0xa8)) base (u32_at f (internal + 0xb8)) plane_count.

(** ** Pixels *)

Record pixel_stats := PixelStats {
  color_nonzero_bytes : Z; nonblack_pixels : Z; opaque_pixels : Z; total_pixels : Z; peak_rgb : Z; pixels_over_32 : Z;
}.
(** The counters of the loop: colour bytes, pixels not black, opaque ones, the
    peak, and pixels over 32. *)
Record tally := Tally { t_color : Z; t_nonblack : Z; t_opaque : Z; t_peak : Z; t_over : Z }.
Definition no_tally : tally := Tally 0 0 0 0 0.
Definition bit (c : bool) : Z := if c then 1 else 0.
(** [scanline[i]]. *)
Definition byte_at (l : list byte) (i : Z) : res Z := opt_or (b2z <$> znth i l) IndexError.
Definition count_pixel (channels : Z * Z * Z * Z) (scanline : list byte) (t : tally) (x : Z) : res tally :=
  let '(red, green, blue, alpha) := channels in
  r ← byte_at scanline (x + red);
  g ← byte_at scanline (x + green);
  b ← byte_at scanline (x + blue);
  let brightness := Z.max (Z.max r g) b in
  a ← byte_at scanline (x + alpha);
  Ok (Tally (t_color t + (bit (negb (r =? 0)) + bit (negb (g =? 0)) + bit (negb (b =? 0))))
        (t_nonblack t + bit (negb (r =? 0) || negb (g =? 0) || negb (b =? 0)))
        (t_opaque t + bit (negb (a =? 0)))
        (Z.max (t_peak t) brightness)
        (t_over t + bit (32 <? brightness))).
(** [range(0, n, 4)]. *)
Definition range4 (n : Z) : list Z := map (λ i, 4 * i) (seqZ 0 ((n + 3) / 4)).
Definition count_row (channels : Z * Z * Z * Z) (data : list byte) (row width : Z) (t : tally) (y : Z) : res tally :=
  let scanline := slice (y * row) (y * row + width * 4) data in
  res_foldl (count_pixel channels scanline) t (range4 (zlen scanline)).
Definition count_pixels (channels : Z * Z * Z * Z) (data : list byte) (row width height : Z) : res pixel_stats :=
  t ← res_foldl (count_row channels data row width) no_tally (seqZ 0 height);
  Ok (PixelStats (t_color t) (t_nonblack t) (t_opaque t) (width * height) (t_peak t) (t_over t)).
(** [None]: unsupported-pixel-format. *)
Definition pixel_stats_of (m : metadata) (data : list byte) (row height : Z) : res (option pixel_stats) :=
  match m_format m ≫= PIXEL_CHANNELS, m_width m with
  | Some channels, Some width =>
      if (0 <? width) && (width * 4 <=? row) then Some <$> count_pixels channels data row width height else Ok None
  | _, _ => Ok None
  end.

(** ** What is recorded *)

Inductive capture :=
  | MissingBaseOrGeometry
  | ImplausibleGeometry (expected : Z)
  | GuestMemoryReadFailed (capture_bytes : Z)
  | Captured (bytes : Z) (sha256 : list Z) (nonzero : Z) (duplicate : bool) (stats : option pixel_stats) (raw_path : option (list Z)).
Record payload := Payload {
  p_label : list Z; p_time : Z; p_hit : Z; p_thread : Z; p_pc : option Z; p_lr : option Z; p_progname : list Z;
  p_registers : list (list Z * option Z);
  p_surface : option (option Z); p_surface_id : option (option Z); p_metadata : option metadata; p_capture : option capture;
}.
Definition set_surface (v : option Z) (p : payload) : payload :=
  Payload (p_label p) (p_time p) (p_hit p) (p_thread p) (p_pc p) (p_lr p) (p_progname p) (p_registers p)
    (Some v) (p_surface_id p) (p_metadata p) (p_capture p).
Definition set_surface_id (v : option Z) (p : payload) : payload :=
  Payload (p_label p) (p_time p) (p_hit p) (p_thread p) (p_pc p) (p_lr p) (p_progname p) (p_registers p)
    (p_surface p) (Some v) (p_metadata p) (p_capture p).
Definition set_capture (m : metadata) (c : capture) (p : payload) : payload :=
  Payload (p_label p) (p_time p) (p_hit p) (p_thread p) (p_pc p) (p_lr p) (p_progname p) (p_registers p)
    (p_surface p) (p_surface_id p) (Some m) (Some c).
Definition set_label (v : list Z) (p : payload) : payload :=
  Payload v (p_time p) (p_hit p) (p_thread p) (p_pc p) (p_lr p) (p_progname p) (p_registers p)
    (p_surface p) (p_surface_id p) (p_metadata p) (p_capture p).

(** A file of the directory: an event, the ready event, or pixels. *)
Inductive file :=
  | Event (p : payload)
  | Ready (time slide kernel_slide breakpoints : Z)
  | Raw (bytes : list byte).
(** The printed lines, without the debugger's own text. *)
Inductive line :=
  | LHit (label : list Z) (hit limit time : Z)
  | LTrace (p : payload)
  | LSurface (surface : option Z)
  | LSurfaceId (surface surface_id : Z)
  | LCapture (surface : Z) (m : metadata) (c : capture)
  | LDisabled (breakpoint hit : Z)
  | LInstalled (breakpoint : Z) (label : list Z) (address : Z)
  | LReady (slide kernel_slide breakpoints : Z) (stop_on_success : bool).

(** ** State *)

Record config := Config {
  c_label : list Z; c_regs : list (list Z); c_limit : Z; c_surface_reg : option (list Z); c_decisive : bool;
  c_allowed : list (list Z);
}.
Record breakpoint := Breakpoint { b_address : Z; b_attached : bool; b_enabled : bool }.
Record state := State {
  created : Z;
  bps : gmap Z breakpoint;
  CONFIG : gmap Z config;
  HITS : gmap Z Z;
  CAPTURED : gset (Z * list Z);
  CAPTURE_SEQUENCE : Z;
  files : gmap (list Z) file;
  out : list line;
}.
Definition no_state : state := State 0 ∅ ∅ ∅ ∅ 0 ∅ [].
Definition set_bps v s := State (created s) v (CONFIG s) (HITS s) (CAPTURED s) (CAPTURE_SEQUENCE s) (files s) (out s).
Definition set_config v s := State (created s) (bps s) v (HITS s) (CAPTURED s) (CAPTURE_SEQUENCE s) (files s) (out s).
Definition set_hits v s := State (created s) (bps s) (CONFIG s) v (CAPTURED s) (CAPTURE_SEQUENCE s) (files s) (out s).
Definition set_captured v s := State (created s) (bps s) (CONFIG s) (HITS s) v (CAPTURE_SEQUENCE s) (files s) (out s).
Definition set_sequence v s := State (created s) (bps s) (CONFIG s) (HITS s) (CAPTURED s) v (files s) (out s).
Definition set_files v s := State (created s) (bps s) (CONFIG s) (HITS s) (CAPTURED s) (CAPTURE_SEQUENCE s) v (out s).
Definition set_out v s := State (created s) (bps s) (CONFIG s) (HITS s) (CAPTURED s) (CAPTURE_SEQUENCE s) (files s) v.
Abbreviation FM := (SE state).
Definition print (l : line) : FM () := update (λ s, set_out (out s ++ [l]) s).

(** [os.path.join]. *)
Definition join (directory name : list Z) : list Z :=
  directory ++ (if bool_decide (last directory = Some 47) then [] else [47]) ++ name.
(** ["%03d"]. *)
Definition pad3 (n : Z) : list Z := let d := dec n in replicate (3 - length d) 48 ++ d.
Definition raw_name (sequence surface hit : Z) : list Z :=
  u "iosurface-" ++ pad3 sequence ++ u "-" ++ hex surface ++ u "-hit" ++ dec hit ++ u ".raw".
Definition surface_name (label : list Z) (hit : Z) : list Z := u "surface." ++ label ++ u "." ++ dec hit ++ u ".json".
Definition success_name (label : list Z) : list Z := u "success." ++ label ++ u ".json".

(** What comes of writing a file of pixels: all of it, no file, or a part. *)
Inductive stored := Whole | Refused | Cut (n : Z).

Section tracer.
Variable o : options.
(** [SLIDE[0]], and the debugger: the identifier of the n-th breakpoint. *)
Variable slide : Z.
Variable alloc : Z → option Z.
Definition directory : list Z := if bool_decide (EVENT_DIR o = []) then u "/tmp/dvm" else EVENT_DIR o.

Section callback.
(** Whether the directory can be made, an event file written and replaced, and
    pixels written, during this callback. *)
Variables (made : bool) (writable : list Z → bool) (store : list Z → stored).

Definition put_file (name : list Z) (v : file) : FM () :=
  update (λ s, set_files (<[join directory name := v]> (files s)) s).
Definition write_event (name : list Z) (v : file) : FM () :=
  if bool_decide (EVENT_DIR o = []) then mret ()
  else if made && writable name then put_file name v else raise OSError.

Variable f : frame.

(** The chunks of the picture; [inr]: how much had been read when a read
    failed. *)
Fixpoint read_pieces (fuel : nat) (base size offset : Z) : res (list byte + Z) :=
  if offset <? size then
    match fuel with
    | O => Raise OutOfFuel
    | S fuel =>
        let piece := read f (base + offset) (Z.min (1024 * 1024) (size - offset)) in
        if bool_decide (piece = []) then Ok (inr offset)
        else
          rest ← read_pieces fuel base size (offset + zlen piece);
          Ok (match rest with inl data => inl (piece ++ data) | inr n => inr n end)
    end
  else Ok (inl []).
Definition capture_size (alloc_size : option Z) (expected : Z) : Z :=
  if truthy alloc_size then Z.min expected (or0 alloc_size) else expected.
(** [sum(byte != 0 for byte in data)]. *)
Definition nonzero_bytes (data : list byte) : Z := zlen (List.filter (λ x, negb (b2z x =? 0)) data).
Definition write_raw (name : list Z) (data : list byte) : FM () :=
  match store name with
  | Whole => put_file name (Raw data)
  | Refused => raise OSError
  | Cut n => _ ← put_file name (Raw (ztake n data)); raise OSError
  end.
(** The picture that was read. *)
Definition record_capture (surface : Z) (m : metadata) (hit row height : Z) (data : list byte) : FM capture :=
  let digest := Sha256.sha256_hex data in
  s ← gets id;
  let duplicate := bool_decide ((surface, digest) ∈ CAPTURED s) in
  _ ← update (λ s, set_captured ({[ (surface, digest) ]} ∪ CAPTURED s) s);
  stats ← lift (pixel_stats_of m data row height);
  _ ← update (λ s, set_sequence (CAPTURE_SEQUENCE s + 1) s);
  s ← gets id;
  _ ← when (negb made) (raise OSError);
  let name := raw_name (CAPTURE_SEQUENCE s) surface hit in
  _ ← when (negb duplicate) (write_raw name data);
  mret (Captured (zlen data) digest (nonzero_bytes data) duplicate stats (if duplicate then None else Some (join directory name))).
Definition capture_surface (surface : Z) (m : metadata) (hit : Z) : FM capture :=
  match m_base m, m_row m, m_height m with
  | Some base, Some row, Some height =>
      if negb ((0 <? base) && (0 <? row) && (0 <? height)) then mret MissingBaseOrGeometry
      else
        let expected := row * height in
        if (64 * 1024 * 1024 <? expected) || (1024 * 1024 <? row) || (16384 <? height) then mret (ImplausibleGeometry expected)
        else
          let size := capture_size (m_alloc_size m) expected in
          pieces ← lift (read_pieces (Z.to_nat size) base size 0);
          match pieces with
          | inr offset => mret (GuestMemoryReadFailed offset)
          | inl data => record_capture surface m hit row height data
          end
  | _, _, _ => mret MissingBaseOrGeometry
  end.

(** ** Callback *)

Definition emit (c : config) (hit : Z) : FM payload :=
  let p := Payload (c_label c) (f_now f) hit (f_thread f) (reg f "pc") (reg f "lr") (progname slide f)
             (map (λ n, (n, f_reg f n)) (c_regs c)) None None None None in
  _ ← print (LHit (c_label c) hit (c_limit c) (f_now f));
  _ ← print (LTrace p);
  mret p.
(** What a capture says of the pixels. *)
Definition stats_of (c : capture) : option pixel_stats := match c with Captured _ _ _ _ stats _ => stats | _ => None end.
Definition nonblack (c : capture) : Z := match stats_of c with Some st => nonblack_pixels st | None => 0 end.
Definition over_32 (c : capture) : Z := match stats_of c with Some st => pixels_over_32 st | None => 0 end.
(** The label of a surface that was seen at a decisive site. *)
Definition surface_label (c : capture) : list Z :=
  let label := if 0 <? nonblack c then u "NONBLACK_IOSURFACE" else u "NONNULL_IOSURFACE" in
  if bool_decide (u "VISIBLE_IOSURFACE" ∈ SUCCESS_LABELS o) && (128 <=? over_32 c) then u "VISIBLE_IOSURFACE" else label.
(** [payload["surface"]] and [payload["surface_id"]]. *)
Definition note_surface (c : config) (p : payload) : FM payload :=
  p ← (match c_surface_reg c with
       | Some r => _ ← print (LSurface (f_reg f r)); mret (set_surface (f_reg f r) p)
       | None => mret p
       end : FM payload);
  if startswith (u "IOSURFACE_ID_RETURN") (c_label c) then
    _ ← print (LSurfaceId (or0 (reg f "x20")) (or0 (reg f "w0")));
    mret (set_surface (reg f "x20") (set_surface_id (reg f "w0") p))
  else mret p.
(** A surface at a decisive site. *)
Definition decide_surface (c : config) (surface hit : Z) (p : payload) : FM (payload * bool) :=
  let m := surface_metadata slide f surface in
  capture ← capture_surface surface m hit;
  _ ← print (LCapture surface m capture);
  let p := set_label (u "NONNULL_IOSURFACE") (set_capture m capture p) in
  _ ← write_event (surface_name (c_label c) hit) (Event p);
  let p := set_label (surface_label capture) p in
  mret (p, bool_decide (p_label p ∈ SUCCESS_LABELS o)).
Definition surface_of (c : config) : option Z := r ← c_surface_reg c; f_reg f r.
Definition on_break (i : Z) : FM bool :=
  s ← gets id;
  c ← lift (opt_or (CONFIG s !! i) (KeyError (dec i)));
  let name := progname slide f in
  if negb (bool_decide (c_allowed c = [])) && negb (bool_decide (name ∈ c_allowed c)) then mret false
  else if c_decisive c && negb (bool_decide (c_surface_reg c = None)) && negb (truthy (surface_of c)) then mret false
  else
    let hit := default 0 (HITS s !! i) + 1 in
    _ ← update (λ s, set_hits (<[i := hit]> (HITS s)) s);
    p ← emit c hit;
    p ← note_surface c p;
    '(p, success) ← (if truthy (surface_of c) && c_decisive c then decide_surface c (or0 (surface_of c)) hit p
                     else mret (p, bool_decide (c_label c ∈ SUCCESS_LABELS o)));
    _ ← when success (write_event (success_name (p_label p)) (Event p));
    _ ← write_event (u "last-hit.json") (Event p);
    _ ← when (c_limit c <=? hit)
          (_ ← update (λ s, set_bps (alter (λ b, Breakpoint (b_address b) (b_attached b) false) i (bps s)) s);
           print (LDisabled i hit));
    mret (success && STOP_ON_SUCCESS o).

(** ** Installation *)

Definition split_words (s : list Z) : list (list Z) := filter (λ w, w ≠ []) (split1 32 s).
Definition install_one (attached : list Z → bool) (address : Z) (c : config) : FM () :=
  s ← gets id;
  i ← lift (opt_or (alloc (created s)) (RuntimeError "failed breakpoint"));
  _ ← update (λ s, State (created s + 1) (<[i := Breakpoint address false true]> (bps s)) (CONFIG s) (HITS s) (CAPTURED s)
                     (CAPTURE_SEQUENCE s) (files s) (out s));
  _ ← update (λ s, set_config (<[i := c]> (CONFIG s)) s);
  _ ← when (negb (attached (c_label c))) (raise (RuntimeError "callback attach failed"));
  _ ← update (λ s, set_bps (alter (λ b, Breakpoint (b_address b) true (b_enabled b)) i (bps s)) s);
  print (LInstalled i (c_label c) address).
Definition BASE_REGS : list Z := u "pc lr sp tpidr_el1 ".
Definition user_entry (label regs : string) (limit : Z) (surface_reg : option string) (decisive : bool) : config :=
  Config (u label) (split_words (BASE_REGS ++ u regs)) limit (u <$> surface_reg) decisive
    [u "SpringBoard"; u "Setup"; u "backboardd"].
Definition kernel_entry (label regs : string) (limit : Z) : config :=
  Config (u label) (split_words (BASE_REGS ++ u regs)) limit None false [].
Definition USER_ENTRIES : list (Z * config) :=
  [(0x18490d11c, user_entry "UIAPPLICATION_MAIN" "x0 x1 x2 x3" 8 None false);
   (0x2244d0ba4, user_entry "SB_ADFL_ENTRY" "x0 x2" 8 None false);
   (0x1843e2e58, user_entry "CADISPLAY_MAIN_ENTRY" "x0" 16 None false);
   (0x1843e2e84, user_entry "CADISPLAY_MAIN_RETURN" "x0" 16 None false);
   (0x1847ae2cc, user_entry "CREATE_SURFACE_ENTRY" "x0 x1 x2 x3" 16 None false);
   (0x18471bf38, user_entry "ALLOCATE_IOSURFACE_ENTRY" "x0 x1 x2 x3" 16 None false);
   (0x1847ae314, user_entry "ALLOCATE_IOSURFACE_RETURN" "x0" 16 (Some "x0") false);
   (0x18446bb14, user_entry "FINISH_UPDATE_ENTRY" "x0 x1 x2 x3" 32 None false);
   (0x184478b48, user_entry "SWAP_SET_LAYER_ENTRY" "x0 x1 x2 x3" 32 (Some "x3") false);
   (0x18447238c, user_entry "FB_SWAP_SET_LAYER_ENTRY" "x0 x1 x2 x3 x4 x5 x6 x7" 32 (Some "x3") true);
   (0x1844723dc, user_entry "IOSURFACE_ID_RETURN_1" "x0 x20" 32 None false);
   (0x184472400, user_entry "IOSURFACE_ID_RETURN_2" "x0 x20" 32 None false);
   (0x184472488, user_entry "FB_SWAP_HANDOFF" "x0 x1 x2 x3 x8" 32 (Some "x2") true)].
Definition KERNEL_ENTRIES : list (Z * config) :=
  [(0xfffffff00918e3c4, kernel_entry "H17P_SWAP_SUBMIT" "x0 x1 x2 x3 x4 x5" 16);
   (0xfffffff00a0c366c, kernel_entry "IOMFB_GENERIC_MAP" "x0 x1 x2 x3 x4" 16);
   (0xfffffff00a0c40d4, kernel_entry "IOMFB_PRIMARY_MAP_CALL" "x0 x1 x2 x3" 16);
   (0xfffffff00a0c41cc, kernel_entry "IOMFB_SECONDARY_MAP_CALL" "x0 x1 x2 x3" 16);
   (0xfffffff00a0c4664, kernel_entry "IOMFB_A408_BUILD" "x0 x1 x2 x3" 16);
   (0xfffffff00a0c477c, kernel_entry "IOMFB_A407_BUILD" "x0 x1 x2 x3" 16)].
Definition install (attached : list Z → bool) : FM () :=
  _ ← for_each (λ e, install_one attached (e.1 + slide) e.2) USER_ENTRIES;
  _ ← for_each (λ e, install_one attached (e.1 + KERNEL_SLIDE o) e.2) KERNEL_ENTRIES;
  s ← gets id;
  let breakpoints := Z.of_nat (size (CONFIG s)) in
  _ ← write_event (u "ready") (Ready (f_now f) slide (KERNEL_SLIDE o) breakpoints);
  print (LReady slide (KERNEL_SLIDE o) breakpoints (STOP_ON_SUCCESS o)).
End callback.

(** What can happen: the installation, then callbacks at enabled breakpoints.
    The index says that none has raised. *)
Inductive reachable : bool → state → Prop :=
  | r_install made writable f attached :
      let r := install made writable f attached no_state in reachable (is_ok r.1) r.2
  | r_hit quiet s i a made writable store f :
      reachable quiet s → bps s !! i = Some (Breakpoint a true true) →
      let r := on_break made writable store f i s in reachable (quiet && is_ok r.1) r.2.
End tracer.
