(* ===== verification/FirstSurfaceProps.v ===== *)
(** * What the first-surface tracer promises

    The pixel counts are those of the picture in guest memory; a picture that
    was reported is in its file, whatever happens later; and the guest is
    stopped only with the event file on disk. *)

From stdpp Require Import base tactics list gmap strings.
From Stdlib Require Import Strings.Byte.
From S2P Require Import Prelude PyState PyBytes PyStr StartupDecode FirstSurface.
From S2P Require Sha256.
Open Scope Z_scope.

(** ** The statistics of a picture *)

(** Red, green, blue and alpha of the pixels, row by row. *)
Abbreviation pixel := (Z * Z * Z * Z)%type.
Definition rgb (p : pixel) : list Z := let '(r, g, b, _) := p in [r; g; b].
Definition alpha (p : pixel) : Z := p.2.
(** At [i] in the data, 0 beyond it. *)
Definition at_ (data : list byte) (i : Z) : Z := default 0 (b2z <$> znth i data).
Definition pixel_at (channels : Z * Z * Z * Z) (data : list byte) (i : Z) : pixel :=
  let '(red, green, blue, alpha) := channels in
  (at_ data (i + red), at_ data (i + green), at_ data (i + blue), at_ data (i + alpha)).
Definition picture (channels : Z * Z * Z * Z) (data : list byte) (row width height : Z) : list pixel :=
  y ← seqZ 0 height; x ← seqZ 0 width; [pixel_at channels data (y * row + 4 * x)].
(** What is counted: non-zero colour bytes, pixels with one, pixels that are
    not transparent, the largest colour value, pixels with one over 32. *)
Definition statistics (ps : list pixel) : pixel_stats :=
  PixelStats (zlen (filter (λ c, c ≠ 0) (ps ≫= rgb)))
    (zlen (filter (λ p, Exists (λ c, c ≠ 0) (rgb p)) ps))
    (zlen (filter (λ p, alpha p ≠ 0) ps))
    (zlen ps)
    (foldr Z.max 0 (ps ≫= rgb))
    (zlen (filter (λ p, Exists (λ c, 32 < c) (rgb p)) ps)).

(** The loops visit the pixels in that order. *)
Definition add_pixel (t : tally) (p : pixel) : tally :=
  let '(r, g, b, a) := p in
  let brightness := Z.max (Z.max r g) b in
  Tally (t_color t + (bit (negb (r =? 0)) + bit (negb (g =? 0)) + bit (negb (b =? 0))))
    (t_nonblack t + bit (negb (r =? 0) || negb (g =? 0) || negb (b =? 0)))
    (t_opaque t + bit (negb (a =? 0))) (Z.max (t_peak t) brightness) (t_over t + bit (32 <? brightness)).
Lemma res_foldl_ok {A B} (f : B → A → res B) g b l :
  (∀ b x, x ∈ l → f b x = Ok (g b x)) → res_foldl f b l = Ok (foldl g b l).
Proof.
  revert b. induction l as [|x l IH]; intros b Hf; [done|]. cbn. rewrite Hf by set_solver. cbn. apply IH. set_solver.
Qed.
Lemma foldl_bind {A B C} (g : B → A → B) (h : C → list A) b l :
  foldl (λ b x, foldl g b (h x)) b l = foldl g b (l ≫= h).
Proof. revert b. induction l as [|x l IH]; intros b; [done|]. cbn. by rewrite IH, foldl_app. Qed.
Lemma bind_single {A B} (f : A → B) (l : list A) : (x ← l; [f x]) = map f l.
Proof. induction l as [|x l IH]; [done|]. cbn. by rewrite IH. Qed.

Lemma byte_at_ok l i : 0 ≤ i < zlen l → byte_at l i = Ok (at_ l i).
Proof.
  unfold zlen. intros Hi. unfold byte_at, at_. rewrite znth_lookup by lia.
  destruct (lookup_lt_is_Some_2 l (Z.to_nat i)) as [x ->]; [lia|done].
Qed.
Lemma at_slice a c i l : 0 ≤ a → 0 ≤ i < c - a → at_ (slice a c l) i = at_ l (a + i).
Proof. intros. unfold at_. by rewrite znth_slice. Qed.
Lemma channels_range format red green blue alpha :
  PIXEL_CHANNELS format = Some (red, green, blue, alpha) → 0 ≤ red < 4 ∧ 0 ≤ green < 4 ∧ 0 ≤ blue < 4 ∧ 0 ≤ alpha < 4.
Proof. unfold PIXEL_CHANNELS. repeat case_match; intros [= <- <- <- <-]; lia. Qed.

Section counting.
Context (format : Z) (channels : Z * Z * Z * Z) (Hchannels : PIXEL_CHANNELS format = Some channels).
Lemma count_pixel_ok scanline t x :
  0 ≤ x → x + 4 ≤ zlen scanline → count_pixel channels scanline t x = Ok (add_pixel t (pixel_at channels scanline x)).
Proof.
  destruct channels as [[[red green] blue] alpha]. apply channels_range in Hchannels. intros Hx Hl.
  unfold count_pixel. rewrite !byte_at_ok by lia. done.
Qed.
Lemma range4_4 w : 0 ≤ w → range4 (4 * w) = map (λ i, 4 * i) (seqZ 0 w).
Proof. intros Hw. unfold range4. do 2 f_equal. symmetry. apply (Z.div_unique _ _ _ 3); lia. Qed.
Lemma count_row_ok data row width t y :
  0 ≤ y → 0 < width → width * 4 ≤ row → (y + 1) * row ≤ zlen data →
  count_row channels data row width t y = Ok (foldl add_pixel t (x ← seqZ 0 width; [pixel_at channels data (y * row + 4 * x)])).
Proof.
  intros Hy Hw Hr Hl. unfold count_row. assert (0 ≤ y * row) by (apply Z.mul_nonneg_nonneg; lia).
  assert (zlen (slice (y * row) (y * row + width * 4) data) = 4 * width) as Hz by (rewrite zlen_slice by lia; lia).
  rewrite Hz, range4_4, bind_single by lia.
  erewrite res_foldl_ok; [|intros b x Hx; apply count_pixel_ok; rewrite ?Hz]; cycle 1.
  - apply list_elem_of_fmap in Hx as (i & -> & ?%elem_of_seqZ). lia.
  - apply list_elem_of_fmap in Hx as (i & -> & ?%elem_of_seqZ). lia.
  - f_equal. assert (∀ l : list Z, Forall (λ i, 0 ≤ i < width) l → ∀ t : tally,
      foldl (λ t x, add_pixel t (pixel_at channels (slice (y * row) (y * row + width * 4) data) x)) t (map (λ i, 4 * i) l) =
      foldl add_pixel t (map (λ x, pixel_at channels data (y * row + 4 * x)) l)) as Hgo.
    { induction 1 as [|i l Hi Hl' IH]; intros t'; [done|]. cbn. rewrite IH. do 2 f_equal.
      destruct channels as [[[red green] blue] alpha]. apply channels_range in Hchannels. unfold pixel_at.
      by rewrite !at_slice, !Z.add_assoc by lia. }
    apply Hgo. apply Forall_forall. intros i ?%elem_of_seqZ. lia.
Qed.
Lemma zlen_filter_cons {A} (P : A → Prop) `{!∀ x, Decision (P x)} (x : A) l :
  zlen (filter P (x :: l)) = bit (bool_decide (P x)) + zlen (filter P l).
Proof. rewrite filter_cons, bool_decide_decide. destruct (decide (P x)); [apply zlen_cons|done]. Qed.
Lemma exists_rgb (P : Z → Prop) `{!∀ c, Decision (P c)} r g b a :
  bool_decide (Exists P (rgb (r, g, b, a))) = bool_decide (P r) || bool_decide (P g) || bool_decide (P b).
Proof.
  assert (Exists P (rgb (r, g, b, a)) ↔ P r ∨ P g ∨ P b) as HE by (cbn; rewrite !Exists_cons, Exists_nil; naive_solver).
  rewrite (bool_decide_ext _ _ HE). repeat case_bool_decide; naive_solver.
Qed.
Lemma nonzero_bit x : bool_decide (x ≠ 0) = negb (x =? 0).
Proof. destruct (Z.eqb_spec x 0); by case_bool_decide. Qed.
Lemma over_bit x : bool_decide (32 < x) = (32 <? x).
Proof. destruct (Z.ltb_spec 32 x); case_bool_decide; lia. Qed.
Lemma tally_statistics ps t :
  0 ≤ t_peak t →
  foldl add_pixel t ps =
  let st := statistics ps in
  Tally (t_color t + color_nonzero_bytes st) (t_nonblack t + nonblack_pixels st) (t_opaque t + opaque_pixels st)
    (Z.max (t_peak t) (peak_rgb st)) (t_over t + pixels_over_32 st).
Proof.
  cbv zeta. revert t. induction ps as [|[[[r g] b] a] ps IH]; intros t Ht.
  - destruct t. cbn in *. unfold zlen; cbn; f_equal; lia.
  - cbn [foldl]. rewrite IH by (cbn; lia). unfold statistics. cbn [add_pixel t_color t_nonblack t_opaque t_peak t_over
      color_nonzero_bytes nonblack_pixels opaque_pixels peak_rgb pixels_over_32].
    change (((r, g, b, a) :: ps) ≫= rgb) with (r :: g :: b :: (ps ≫= rgb)). rewrite !zlen_filter_cons, !exists_rgb, !nonzero_bit, !over_bit.
    cbn [alpha snd foldr].
    assert (bit (32 <? Z.max (Z.max r g) b) = bit ((32 <? r) || (32 <? g) || (32 <? b))) as ->.
    { f_equal. destruct (Z.ltb_spec 32 r), (Z.ltb_spec 32 g), (Z.ltb_spec 32 b); cbn; lia. }
    f_equal; lia.
Qed.
Lemma zlen_picture data row width height :
  0 ≤ width → 0 ≤ height → zlen (picture channels data row width height) = width * height.
Proof.
  intros Hw Hh. unfold picture, zlen. assert (∀ l : list Z, length (y ← l; x ← seqZ 0 width; [pixel_at channels data (y * row + 4 * x)])
    = (length l * Z.to_nat width)%nat) as ->.
  { induction l as [|y l IH]; [done|]. cbn [mbind list_bind length]. rewrite length_app, IH, bind_single, length_map, length_seqZ. lia. }
  rewrite length_seqZ. lia.
Qed.
Lemma count_pixels_ok data row width height :
  0 ≤ height → 0 < width → width * 4 ≤ row → row * height ≤ zlen data →
  count_pixels channels data row width height = Ok (statistics (picture channels data row width height)).
Proof.
  intros Hh Hw Hr Hl. unfold count_pixels. erewrite res_foldl_ok; [|intros t y ?%elem_of_seqZ; apply count_row_ok; try lia; nia].
  rewrite foldl_bind. change (foldl add_pixel no_tally _) with (foldl add_pixel no_tally (picture channels data row width height)).
  rewrite tally_statistics by done. pose proof (zlen_picture data row width height) as Hp.
  assert (∀ l, 0 ≤ foldr Z.max 0 l) as Hpeak by (induction l as [|x l IH]; cbn; lia).
  assert (total_pixels (statistics (picture channels data row width height)) = width * height) as Ht by (apply Hp; lia).
  assert (0 ≤ peak_rgb (statistics (picture channels data row width height))) as Hpk by apply Hpeak.
  destruct (statistics _). cbn in *. do 2 f_equal; lia.
Qed.
End counting.

(** ** Reading the picture *)

Section reading.
Context (f : frame).
Lemma read_pieces_end fuel base size offset :
  size - offset ≤ Z.of_nat fuel → ∃ r, read_pieces f fuel base size offset = Ok r.
Proof.
  revert offset. induction fuel as [|fuel IH]; intros offset Hf; cbn [read_pieces]; destruct (Z.ltb_spec offset size) as [Hlt|]; eauto; [lia|].
  cbv zeta. case_bool_decide as Hp; [eauto|].
  destruct (IH (offset + zlen (read f (base + offset) ((1024 * 1024) `min` (size - offset))))) as [[data|n] ->]; [|by eexists..].
  destruct (read _ _ _); [done|]. rewrite zlen_cons. pose proof (zlen_nonneg l). lia.
Qed.
(** [mem] is what is at [base]. *)
Definition holds_at (base : Z) (mem : list byte) : Prop :=
  ∀ i n, 0 ≤ i → 0 < n → i + n ≤ zlen mem → read f (base + i) n = slice i (i + n) mem.
Lemma read_pieces_picture fuel base mem offset :
  holds_at base mem → 0 ≤ offset ≤ zlen mem → zlen mem - offset ≤ Z.of_nat fuel →
  read_pieces f fuel base (zlen mem) offset = Ok (inl (zdrop offset mem)).
Proof.
  intros Hmem. revert offset. induction fuel as [|fuel IH]; intros offset Ho Hf; cbn [read_pieces]; destruct (Z.ltb_spec offset (zlen mem)) as [Hlt|Hge].
  - lia.
  - by rewrite zdrop_ge.
  - cbv zeta. set (n := (1024 * 1024) `min` (zlen mem - offset)). assert (0 < n ≤ zlen mem - offset) as Hn by (unfold n; lia).
    rewrite Hmem by lia. assert (zlen (slice offset (offset + n) mem) = n) as Hl by (rewrite zlen_slice by lia; lia).
    rewrite bool_decide_false by (intros H0; rewrite H0 in Hl; unfold zlen in Hl; cbn in Hl; lia).
    rewrite Hl, IH by lia. cbn. do 2 f_equal. unfold slice. rewrite <-(zdrop_zdrop n offset) by lia.
    replace (offset + n - offset) with n by lia. apply ztake_zdrop.
  - by rewrite zdrop_ge.
Qed.
End reading.

(** ** File names *)

Lemma parse_zeros n us l : (∀ us, parse_digits 10 0 us l = Some n) → parse_digits 10 0 us (replicate (3 - length l) 48 ++ l) = Some n.
Proof.
  intros Hl. generalize (3 - length l)%nat. intros k. revert us. induction k as [|k IH]; intros us; [apply Hl|].
  cbn [replicate app]. change 48 with (digit_char 0). rewrite parse_digits_char by lia. apply IH.
Qed.
Lemma pad3_inj n n' : 0 ≤ n → 0 ≤ n' → pad3 n = pad3 n' → n = n'.
Proof.
  assert (∀ n, 0 ≤ n → parse_digits 10 0 true (pad3 n) = Some n) as Hp.
  { intros k Hk. unfold pad3, dec. destruct (Z.ltb_spec k 0); [lia|]. cbv zeta. apply parse_zeros. intros us. apply parse_digits_of; lia. }
  intros Hn Hn' He. pose proof (Hp n Hn) as H1. rewrite He, Hp in H1 by done. by injection H1.
Qed.
Lemma pad3_no_dash n : 0 ≤ n → 45 ∉ pad3 n.
Proof.
  intros Hn. unfold pad3, dec. destruct (Z.ltb_spec n 0); [lia|]. cbv zeta.
  assert (Forall (λ c, 45 < c) (digits_of 10 n)) as Hd.
  { apply digits_of_Forall; [lia|lia|]. intros d Hd. unfold digit_char. case_match; lia. }
  rewrite Forall_forall in Hd. intros [[? _]%elem_of_replicate|H0%Hd]%elem_of_app; [done|lia].
Qed.
Lemma raw_name_inj n a h n' a' h' : 0 ≤ n → 0 ≤ n' → raw_name n a h = raw_name n' a' h' → n = n'.
Proof.
  intros Hn Hn'. unfold raw_name. intros He%app_inv_head. apply pad3_inj; [done..|].
  apply (f_equal (before 45)) in He. change (u "-") with [45] in He. cbn [app] in He.
  by rewrite !before_app in He by by apply pad3_no_dash.
Qed.
Lemma join_inj d n n' : join d n = join d n' → n = n'.
Proof. unfold join. by intros ?%app_inv_head%app_inv_head. Qed.
(** The names of events are not those of pictures. *)
Definition event_name (name : list Z) : bool := negb (bool_decide (head name = Some 105)).
Lemma raw_is_no_event n a h : event_name (raw_name n a h) = false.
Proof. done. Qed.

(** ** Pictures that were reported stay *)

#[local] Arguments raw_name : simpl never.
#[local] Arguments join : simpl never.
Section evidence.
Context (o : options) (slide : Z) (alloc : Z → option Z).
Abbreviation path name := (join (directory o) name).
(** A reported picture is in its file; one reported again was kept the first
    time, as long as no callback raised. *)
Definition kept (s : state) (surface : Z) (sha p : list Z) (bytes : Z) : Prop :=
  ∃ n hit data, 0 < n ≤ CAPTURE_SEQUENCE s ∧ p = path (raw_name n surface hit) ∧ files s !! p = Some (Raw data)
    ∧ zlen data = bytes ∧ Sha256.sha256_hex data = sha.
Definition first_report (s : state) (surface : Z) (sha : list Z) : Prop :=
  ∃ m bytes nonzero stats p, LCapture surface m (Captured bytes sha nonzero false stats (Some p)) ∈ out s.
Definition report_ok (s : state) (surface : Z) (c : capture) : Prop :=
  match c with
  | Captured bytes sha _ false _ (Some p) => kept s surface sha p bytes
  | Captured _ _ _ true _ None => True
  | Captured _ _ _ _ _ _ => False
  | _ => True
  end.
Record evidence (quiet : bool) (s : state) : Prop := {
  e_sequence : 0 ≤ CAPTURE_SEQUENCE s;
  e_reports surface m c : LCapture surface m c ∈ out s → report_ok s surface c;
  e_again surface m bytes sha nonzero stats : quiet = true →
    LCapture surface m (Captured bytes sha nonzero true stats None) ∈ out s → (surface, sha) ∈ CAPTURED s;
  e_captured surface sha : quiet = true → (surface, sha) ∈ CAPTURED s → first_report s surface sha;
}.
Lemma evidence_loud quiet s : evidence quiet s → evidence false s.
Proof. intros []. by constructor. Qed.
(** What keeps it. *)
Lemma kept_mono s s' surface sha p bytes :
  CAPTURE_SEQUENCE s ≤ CAPTURE_SEQUENCE s' → (∀ n a h v, 0 < n ≤ CAPTURE_SEQUENCE s → files s !! path (raw_name n a h) = Some v →
    files s' !! path (raw_name n a h) = Some v) →
  kept s surface sha p bytes → kept s' surface sha p bytes.
Proof. intros Hs Hf (n & hit & data & Hn & -> & Hp & Hd). exists n, hit, data. split_and!; [lia|lia|done|by apply Hf|apply Hd..]. Qed.
Lemma evidence_mono quiet s s' :
  CAPTURE_SEQUENCE s ≤ CAPTURE_SEQUENCE s' → CAPTURED s' = CAPTURED s → out s' = out s →
  (∀ n a h v, 0 < n ≤ CAPTURE_SEQUENCE s → files s !! path (raw_name n a h) = Some v → files s' !! path (raw_name n a h) = Some v) →
  evidence quiet s → evidence quiet s'.
Proof.
  intros Hs Hc Ho Hf []. constructor; rewrite ?Hc, ?Ho; [lia| |done|].
  - intros surface m c Hin%e_reports0. destruct c as [| | |bytes sha nz [] st []]; try done. by apply (kept_mono s s').
  - intros surface sha Hq Hin. destruct (e_captured0 _ _ Hq Hin) as (m & bytes & nz & st & p & Hp). exists m, bytes, nz, st, p. by rewrite Ho.
Qed.
Abbreviation Keeps q m := (Holds (evidence q) (λ _, True) m).
Lemma keeps_print q l : match l with LCapture _ _ _ => False | _ => True end → Keeps q (print l).
Proof.
  intros Hl. apply holds_update. intros s []. constructor; cbn; [done|..].
  - intros surface m c [Hin| <-%list_elem_of_singleton]%elem_of_app; [|done]. apply e_reports0 in Hin.
    destruct c as [| | |bytes sha nz [] st []]; try done.
  - intros surface m bytes sha nz st Hq [?| <-%list_elem_of_singleton]%elem_of_app; [by eapply e_again0|done].
  - intros surface sha Hq Hin. destruct (e_captured0 _ _ Hq Hin) as (m & bytes & nz & st & p & Hp). exists m, bytes, nz, st, p.
    apply elem_of_app. by left.
Qed.
Lemma keeps_state q g : (∀ s, CAPTURE_SEQUENCE (g s) = CAPTURE_SEQUENCE s ∧ CAPTURED (g s) = CAPTURED s ∧ out (g s) = out s ∧ files (g s) = files s) →
  Keeps q (update g).
Proof. intros Hg. apply holds_update. intros s. destruct (Hg s) as (E1 & E2 & E3 & E4). apply evidence_mono; [lia|done|done|]. by rewrite E4. Qed.
Lemma keeps_event q made writable name v : event_name name = true → Keeps q (write_event o made writable name v).
Proof.
  intros Hn. unfold write_event. apply holds_if; [apply _|]. apply holds_if; [|by apply holds_raise].
  apply holds_update. intros s. apply evidence_mono; [done..|]. cbn. intros n a h w _ Hw. rewrite lookup_insert_ne; [done|].
  intros Heq%join_inj. by rewrite Heq, raw_is_no_event in Hn.
Qed.

(** A capture, once it is printed. *)
Definition reported (surface : Z) (m : metadata) (c : capture) (s : state) : state := set_out (out s ++ [LCapture surface m c]) s.
Lemma reported_other q surface m c s :
  match c with Captured _ _ _ _ _ _ => False | _ => True end → evidence q s → evidence q (reported surface m c s).
Proof.
  intros Hc []. constructor; cbn; [done|..].
  - intros surface' m' c' [Hin|[= -> -> ->]%list_elem_of_singleton]%elem_of_app; [|by destruct c]. apply e_reports0 in Hin.
    destruct c' as [| | |bytes sha nz [] st []]; try done.
  - intros surface' m' bytes sha nz st Hq [?|[= -> -> <-]%list_elem_of_singleton]%elem_of_app; [by eapply e_again0|done].
  - intros surface' sha Hq Hin. destruct (e_captured0 _ _ Hq Hin) as (m' & bytes & nz & st & p & Hp). exists m', bytes, nz, st, p.
    apply elem_of_app. by left.
Qed.
(** The next picture's file is not one of those before. *)
Lemma next_picture s n a h a' h' v w :
  0 ≤ CAPTURE_SEQUENCE s → 0 < n ≤ CAPTURE_SEQUENCE s → files s !! path (raw_name n a h) = Some w →
  <[path (raw_name (CAPTURE_SEQUENCE s + 1) a' h') := v]> (files s) !! path (raw_name n a h) = Some w.
Proof. intros H0 Hn Hw. rewrite lookup_insert_ne; [done|]. intros He%join_inj%raw_name_inj; lia. Qed.
Definition after (k : Z * list Z) (s : state) : state := set_sequence (CAPTURE_SEQUENCE s + 1) (set_captured ({[ k ]} ∪ CAPTURED s) s).
Lemma after_reports k v s surface c name :
  evidence false s → report_ok s surface c → (∃ a h, name = raw_name (CAPTURE_SEQUENCE s + 1) a h) →
  report_ok (after k s) surface c ∧ report_ok (set_files (<[path name := v]> (files s)) (after k s)) surface c.
Proof.
  intros [H0 _ _ _] Hc (a & h & ->). destruct c as [| | |bytes sha nz [] st []]; try done. split; (eapply kept_mono; [| |exact Hc]); cbn; try lia; [done|].
  intros n a' h' w Hn Hw. by apply next_picture.
Qed.
Lemma reported_again q surface m bytes sha nz st s :
  evidence q s → (surface, sha) ∈ CAPTURED s →
  evidence q (reported surface m (Captured bytes sha nz true st None) (after (surface, sha) s)).
Proof.
  intros Hs Hin. pose proof Hs as []. constructor; cbn; [lia|..].
  - intros surface' m' c' [Hr|[= -> -> ->]%list_elem_of_singleton]%elem_of_app; [|done]. apply e_reports0 in Hr.
    apply (after_reports (surface, sha) (Raw []) s surface' c' (raw_name (CAPTURE_SEQUENCE s + 1) 0 0)) in Hr as [Hr _];
      [|by eapply evidence_loud|by eexists _, _].
    destruct c' as [| | |? ? ? [] ? []]; done.
  - intros surface' m' bytes' sha' nz' st' Hq [Hr|[= -> -> -> -> -> ->]%list_elem_of_singleton]%elem_of_app; [|set_solver].
    pose proof (e_again0 _ _ _ _ _ _ Hq Hr). set_solver.
  - intros surface' sha' Hq Hin'. assert ((surface', sha') ∈ CAPTURED s) as Hin2 by set_solver.
    destruct (e_captured0 _ _ Hq Hin2) as (m' & b' & nz' & st' & p & Hp). exists m', b', nz', st', p. apply elem_of_app. by left.
Qed.
Lemma reported_new q surface m data nz st hit s :
  let p := path (raw_name (CAPTURE_SEQUENCE s + 1) surface hit) in
  let sha := Sha256.sha256_hex data in
  evidence q s →
  evidence q (reported surface m (Captured (zlen data) sha nz false st (Some p)) (set_files (<[p := Raw data]> (files s)) (after (surface, sha) s))).
Proof.
  intros p sha Hs. pose proof Hs as []. constructor; cbn; [lia|..].
  - intros surface' m' c' [Hr|[= -> -> ->]%list_elem_of_singleton]%elem_of_app.
    + apply e_reports0 in Hr. apply (after_reports (surface, sha) (Raw data) s surface' c' (raw_name (CAPTURE_SEQUENCE s + 1) surface hit)) in Hr as [_ Hr];
        [|by eapply evidence_loud|by eexists _, _].
      destruct c' as [| | |? ? ? [] ? []]; done.
    + exists (CAPTURE_SEQUENCE s + 1), hit, data. split_and!; cbn; [lia|lia|done| |done|done]. by rewrite lookup_insert_eq.
  - intros surface' m' bytes' sha' nz' st' Hq [Hr|Hr%list_elem_of_singleton]%elem_of_app; [|done].
    pose proof (e_again0 _ _ _ _ _ _ Hq Hr). set_solver.
  - intros surface' sha' Hq [Heq|Hin]%elem_of_union.
    + apply elem_of_singleton in Heq as [= -> ->]. exists m, (zlen data), nz, st, p. apply elem_of_app. right. by apply list_elem_of_singleton.
    + destruct (e_captured0 _ _ Hq Hin) as (m' & b' & nz' & st' & p' & Hp). exists m', b', nz', st', p'. apply elem_of_app. by left.
Qed.
Section one.
Context (made : bool) (writable : list Z → bool) (store : list Z → stored) (f : frame).
Lemma record_capture_evidence q surface m hit row height data s :
  evidence q s →
  wp (record_capture o made store surface m hit row height data) (λ c s', evidence q (reported surface m c s')) (λ _, evidence false) s.
Proof.
  intros Hs. unfold record_capture. apply wp_bind, wp_gets. cbv zeta beta. unfold id.
  set (sha := Sha256.sha256_hex data). apply wp_bind, wp_update.
  assert (evidence false (set_captured ({[ (surface, sha) ]} ∪ CAPTURED s) s)) as Hloud by (destruct Hs; by constructor).
  assert (evidence false (after (surface, sha) s)) as Hloud' by (eapply evidence_mono; [..|exact Hloud]; cbn; (lia || done)).
  apply wp_bind, wp_lift; [intros stats _|done]. apply wp_bind, wp_update, wp_bind, wp_gets. cbv beta.
  change (set_sequence _ _) with (after (surface, sha) s). cbn [CAPTURE_SEQUENCE after set_sequence].
  apply wp_bind, wp_when; [done|intros _]. case_bool_decide as Hdup; cbn [negb when].
  - apply wp_bind, wp_ret, wp_ret. by apply reported_again.
  - apply wp_bind. unfold write_raw. set (name := raw_name _ _ _).
    assert (∀ v, evidence false (set_files (<[path name := v]> (files s)) (after (surface, sha) s))) as Hfile.
    { intros v. eapply evidence_mono; [..|exact Hloud]; cbn; [lia|done|done|]. intros n a h w Hn Hw. apply next_picture; [apply Hs|done|done]. }
    destruct (store name) as [| |k].
    + apply wp_update, wp_ret. exact (reported_new q surface m data _ stats hit s Hs).
    + done.
    + apply wp_bind, wp_update, wp_raise. apply (Hfile (Raw (ztake k data))).
Qed.
Lemma capture_evidence q surface m hit s :
  evidence q s →
  wp (capture_surface o made store f surface m hit) (λ c s', evidence q (reported surface m c s')) (λ _, evidence false) s.
Proof.
  intros Hs. unfold capture_surface. destruct (m_base m), (m_row m) as [row|], (m_height m) as [height|]; try by apply wp_ret, reported_other.
  case_match; [by apply wp_ret, reported_other|]. cbv zeta. case_match; [by apply wp_ret, reported_other|].
  apply wp_bind, wp_lift; [intros [data|n] _|by intros; eapply evidence_loud].
  - by apply record_capture_evidence.
  - by apply wp_ret, reported_other.
Qed.
#[local] Hint Extern 1 (Keeps _ (print _)) => (apply keeps_print; exact I) : typeclass_instances.
#[local] Hint Extern 1 (Keeps _ (update _)) => (apply keeps_state; done) : typeclass_instances.
#[local] Hint Extern 1 (Keeps _ (raise _)) => (apply holds_raise; done) : typeclass_instances.
#[local] Hint Extern 1 (Keeps _ (lift _)) => (apply holds_lift; done) : typeclass_instances.
#[local] Instance keeps_emit q c hit : Keeps q (emit slide f c hit).
Proof. unfold emit. apply _. Qed.
#[local] Instance keeps_note q c p : Keeps q (note_surface f c p).
Proof. unfold note_surface. apply _. Qed.
#[local] Hint Extern 1 (Keeps _ (write_event _ _ _ _ _)) => (apply keeps_event; reflexivity) : typeclass_instances.
Lemma keep_then q {A B} (m : FM A) (K : A → FM B) (Q : B → state → Prop) s :
  Keeps q m → evidence q s → (∀ a s', evidence q s' → wp (K a) Q (λ _, evidence false) s') →
  wp (m ≫= K) Q (λ _, evidence false) s.
Proof.
  intros Hm Hs HK. apply wp_bind. unfold wp at 1. destruct (Hm s Hs) as [H1 _].
  destruct (m s) as [[a|e] s']; [by apply HK|by eapply evidence_loud].
Qed.
Ltac keep := eapply keep_then; [apply _|eassumption|intros ? ? ?].
Lemma decide_evidence q c surface hit p s :
  evidence q s → wp (decide_surface o slide made writable store f c surface hit p) (λ _, evidence q) (λ _, evidence false) s.
Proof.
  intros Hs. unfold decide_surface. cbv zeta. apply wp_bind. eapply wp_mono; [by apply capture_evidence| |done].
  intros capture s1 H1. cbv beta in H1. apply wp_bind, wp_update. keep. by apply wp_ret.
Qed.
Lemma on_break_evidence q i s :
  evidence q s → wp (on_break o slide made writable store f i) (λ _, evidence q) (λ _, evidence false) s.
Proof.
  intros Hs. unfold on_break. do 2 keep. cbv zeta. do 2 (case_match; [by apply wp_ret|]). do 3 keep. apply wp_bind.
  eapply (wp_mono _ (λ _, evidence q) _ (λ _, evidence false)); [|intros [p success] ? Hq; cbv beta in Hq; do 3 keep; by apply wp_ret|done].
  case_match; [by apply decide_evidence|by apply wp_ret].
Qed.
Lemma install_evidence q attached : evidence q no_state → wp (install o slide alloc made writable f attached) (λ _, evidence q) (λ _, evidence false) no_state.
Proof.
  intros Hs. assert (∀ a c, Keeps q (install_one alloc attached a c)) as Hone by (intros a c; unfold install_one; apply _).
  unfold install. do 4 keep. unfold wp, print, update. exact (proj1 (keeps_print q (LReady _ _ _ _) I _ H2)).
Qed.
End one.
Lemma reachable_evidence quiet s : reachable o slide alloc quiet s → evidence quiet s.
Proof.
  assert (∀ q, evidence q no_state) as H0.
  { intros q. constructor; cbn; [lia|set_solver..]. }
  induction 1 as [made writable f attached r|quiet s i a made writable store f Hs IH Hb r].
  - pose proof (install_evidence made writable f true attached (H0 true)) as Hi. unfold wp in Hi. fold r in Hi.
    destruct r as [[x|e] s']; exact Hi.
  - pose proof (on_break_evidence made writable store f quiet i s IH) as Hi. unfold wp in Hi. fold r in Hi.
    destruct r as [[x|e] s']; [rewrite andb_true_r|rewrite andb_false_r]; exact Hi.
Qed.
End evidence.

(** C18: A picture that was reported is kept.  In every reachable state of the
    tracer, whatever was hit, whatever the guest's memory held and whichever
    files could not be written, a capture reported with a path is in the file
    of that path, with the reported length and digest, whatever was captured
    since; and as long as no callback has raised, a capture reported as a
    duplicate is the content of a file kept earlier for the same surface. *)
Theorem pictures_kept o slide alloc quiet s surface m bytes sha nonzero duplicate stats raw_path :
  reachable o slide alloc quiet s → LCapture surface m (Captured bytes sha nonzero duplicate stats raw_path) ∈ out s →
  match raw_path with
  | Some p => duplicate = false ∧ ∃ data, files s !! p = Some (Raw data) ∧ zlen data = bytes ∧ Sha256.sha256_hex data = sha
  | None => duplicate = true ∧ (quiet = true → ∃ m' bytes' nonzero' stats' p data,
      LCapture surface m' (Captured bytes' sha nonzero' false stats' (Some p)) ∈ out s
      ∧ files s !! p = Some (Raw data) ∧ Sha256.sha256_hex data = sha)
  end.
Proof.
  intros Hs%reachable_evidence Hin. pose proof (e_reports _ _ _ Hs _ _ _ Hin) as Hr. destruct raw_path as [p|], duplicate; cbn in Hr; try done.
  - split; [done|]. destruct Hr as (n & hit & data & _ & _ & Hf & Hd). by exists data.
  - split; [done|]. intros ->. pose proof (e_captured _ _ _ Hs _ _ eq_refl (e_again _ _ _ Hs _ _ _ _ _ _ eq_refl Hin)) as Hfirst.
    destruct Hfirst as (m' & b' & nz' & st' & p & Hp). pose proof (e_reports _ _ _ Hs _ _ _ Hp) as (n & hit & data & _ & _ & Hf & _ & Hd).
    by exists m', b', nz', st', p, data.
Qed.

(** *** A stop *)

Section stop.
Context (o : options) (slide : Z) (made : bool) (writable : list Z → bool) (store : list Z → stored) (f : frame).
(** What stops the guest. *)
Definition stop_reason (c : config) (p : payload) : Prop :=
  p_label p ∈ SUCCESS_LABELS o ∧
  match p_capture p with
  | None => p_label p = c_label c
  | Some capture =>
      c_decisive c = true ∧ truthy (surface_of f c) = true
      ∧ (p_label p = u "NONNULL_IOSURFACE" ∨ (p_label p = u "NONBLACK_IOSURFACE" ∧ 0 < nonblack capture)
         ∨ (p_label p = u "VISIBLE_IOSURFACE" ∧ 128 <= over_32 capture))
  end.
Lemma surface_label_cases capture :
  let label := surface_label o capture in
  label = u "NONNULL_IOSURFACE" ∨ (label = u "NONBLACK_IOSURFACE" ∧ 0 < nonblack capture)
  ∨ (label = u "VISIBLE_IOSURFACE" ∧ 128 <= over_32 capture).
Proof.
  unfold surface_label. destruct (Z.ltb_spec 0 (nonblack capture)), (Z.leb_spec 128 (over_32 capture)); rewrite ?andb_true_r, ?andb_false_r;
    repeat case_match; auto.
Qed.
Abbreviation Wp m Q := (wp m Q (λ _ _, True)).
Lemma wp_true {A} (m : FM A) s : Wp m (λ _ _, True) s.
Proof. unfold wp. by destruct (m s) as [[a|e] s']. Qed.
Lemma any_then {A B} (m : FM A) (K : A → FM B) (Q : B → state → Prop) s : (∀ a s', Wp (K a) Q s') → Wp (m ≫= K) Q s.
Proof. intros HK. apply wp_bind. eapply wp_mono; [apply wp_true|intros a s' _; apply HK|done]. Qed.
Lemma note_payload c p (Q : payload → state → Prop) s :
  (∀ p' s', p_label p' = p_label p → p_capture p' = p_capture p → Q p' s') → Wp (note_surface f c p) Q s.
Proof.
  intros HQ. unfold note_surface. apply wp_bind. eapply (wp_mono _ (λ p' _, p_label p' = p_label p ∧ p_capture p' = p_capture p));
    [destruct (c_surface_reg c); [by apply any_then; intros; apply wp_ret|by apply wp_ret]| |done].
  intros p' s' [H1 H2]. destruct (startswith _ _); [apply any_then; intros|]; apply wp_ret; by apply HQ.
Qed.
(** The payload of a decisive site says why it succeeded. *)
Lemma decide_reason c surface hit p s :
  c_decisive c = true → truthy (surface_of f c) = true →
  Wp (decide_surface o slide made writable store f c surface hit p) (λ '(p', success) _, success = true → stop_reason c p') s.
Proof.
  intros Hc Hs. unfold decide_surface. cbv zeta. do 3 (apply any_then; intros). apply wp_ret. intros Hl%bool_decide_eq_true.
  split; [exact Hl|]. split_and!; [done..|apply surface_label_cases].
Qed.
Lemma last_not_success label : u "last-hit.json" ≠ success_name label.
Proof. by intros H%(f_equal head). Qed.
(** The event that was written last, and what comes after it. *)
Definition on_disk (name : list Z) (v : file) (s : state) : Prop := EVENT_DIR o ≠ [] → files s !! join (directory o) name = Some v.
Lemma write_on_disk name v s : Wp (write_event o made writable name v) (λ _, on_disk name v) s.
Proof.
  unfold write_event. case_bool_decide as Hd; [by apply wp_ret; intros []|]. case_match; [|by apply wp_raise].
  apply wp_update. intros _. cbn. by rewrite lookup_insert_eq.
Qed.
Lemma other_on_disk name v name' v' s :
  name' ≠ name → on_disk name v s → Wp (write_event o made writable name' v') (λ _, on_disk name v) s.
Proof.
  intros Hne Hs. unfold write_event. case_bool_decide as Hd; [by apply wp_ret|]. case_match; [|by apply wp_raise].
  apply wp_update. intros Hd'. cbn. rewrite lookup_insert_ne; [by apply Hs|]. by intros ?%join_inj.
Qed.
(** C20: The guest is stopped only with the evidence on disk.  When a callback
    answers that the guest is to stay stopped, stopping was asked for, and the
    payload's label is one of the requested success labels: the label of the
    site, or at a decisive site with a surface [NONNULL_IOSURFACE], or
    [NONBLACK_IOSURFACE] with a pixel that is not black, or [VISIBLE_IOSURFACE]
    with at least 128 pixels over 32; and with an event directory the success
    file of that label holds that payload. *)
Theorem surface_stop_sound i s s' :
  on_break o slide made writable store f i s = (Ok true, s') →
  STOP_ON_SUCCESS o = true ∧ ∃ c p, CONFIG s !! i = Some c ∧ stop_reason c p
    ∧ (EVENT_DIR o ≠ [] → files s' !! join (directory o) (success_name (p_label p)) = Some (Event p)).
Proof.
  assert (Wp (on_break o slide made writable store f i) (λ b s', b = true →
    STOP_ON_SUCCESS o = true ∧ ∃ c p, CONFIG s !! i = Some c ∧ stop_reason c p ∧ on_disk (success_name (p_label p)) (Event p) s') s) as HW.
  { unfold on_break. apply wp_bind, wp_gets, wp_bind, wp_lift; [|done]. intros c Hc%opt_or_Ok. cbv zeta.
    do 2 (case_match; [by apply wp_ret|]). apply any_then. intros _ s1. apply wp_bind. unfold emit. apply wp_bind, wp_update, wp_bind, wp_update, wp_ret.
    apply wp_bind, note_payload. intros p s2 Hl Hcap. apply wp_bind.
    eapply (wp_mono _ (λ '(p', success) _, success = true → stop_reason c p')); [..|done].
    { case_match eqn:Hs; [apply andb_true_iff in Hs as []; by apply decide_reason|]. apply wp_ret. intros Hin%bool_decide_eq_true.
      split; [by rewrite Hl|]. by rewrite Hcap. }
    intros [p' [|]] s3 Hreason; [|repeat (apply any_then; intros); by apply wp_ret]. specialize (Hreason eq_refl).
    apply wp_bind. eapply wp_mono; [apply write_on_disk| |done]. intros [] s4 H4.
    apply wp_bind. eapply wp_mono; [apply other_on_disk; [apply last_not_success|exact H4]| |done]. intros [] s5 H5.
    apply wp_bind, wp_when; intros _; [apply wp_bind, wp_update, wp_update|]; apply wp_ret; intros Hstop; (split; [done|]); by exists c, p'. }
  unfold wp in HW. intros He. rewrite He in HW. apply (HW eq_refl).
Qed.
End stop.

(** *** A picture *)

(** The surface with the metadata [m] is a plain one of a known format and of
    plausible geometry, all of it allocated, and [mem] is its memory. *)
Record picture_at (f : frame) (m : metadata) (channels : Z * Z * Z * Z) (row width height : Z) (mem : list byte) : Prop := {
  pa_base : ∃ base, m_base m = Some base ∧ 0 < base ∧ holds_at f base mem;
  pa_row : m_row m = Some row;
  pa_width : m_width m = Some width;
  pa_height : m_height m = Some height;
  pa_format : ∃ format, m_format m = Some format ∧ PIXEL_CHANNELS format = Some channels;
  pa_geometry : 0 < width ∧ width * 4 ≤ row ≤ 1024 * 1024 ∧ 0 < height ≤ 16384 ∧ row * height ≤ 64 * 1024 * 1024;
  pa_size : capture_size (m_alloc_size m) (row * height) = row * height;
  pa_mem : zlen mem = row * height;
}.
(** C19: A capture is the picture.  Of a plain surface of a known format, of
    plausible geometry and wholly allocated, the capture reads exactly its
    memory, in however many chunks; reports its length and digest and the
    statistics of its pixels, visited row by row with the channels of the
    format; calls it a duplicate exactly if that content was captured of that
    surface before; and otherwise keeps the bytes in the file it names. *)
Theorem capture_is_the_picture o made store f surface m hit s channels row width height mem :
  picture_at f m channels row width height mem → made = true → store (raw_name (CAPTURE_SEQUENCE s + 1) surface hit) = Whole →
  let sha := Sha256.sha256_hex mem in
  let duplicate := bool_decide ((surface, sha) ∈ CAPTURED s) in
  let p := join (directory o) (raw_name (CAPTURE_SEQUENCE s + 1) surface hit) in
  ∃ s', capture_surface o made store f surface m hit s =
      (Ok (Captured (row * height) sha (nonzero_bytes mem) duplicate (Some (statistics (picture channels mem row width height)))
             (if duplicate then None else Some p)), s')
    ∧ (surface, sha) ∈ CAPTURED s' ∧ (duplicate = false → files s' !! p = Some (Raw mem)).
Proof.
  intros [(base & Hb & Hbase & Hmem) Hr Hw Hh (format & Hf & Hch) (Hw0 & Hrow & Hheight & Hexp) Hsize Hlen] -> Hstore sha duplicate p.
  unfold capture_surface. rewrite Hb, Hr, Hh. cbv zeta. rewrite Hsize.
  rewrite !(proj2 (Z.ltb_lt _ _)) by lia. cbn [andb negb]. rewrite !(proj2 (Z.ltb_ge _ _)) by lia. cbn [orb].
  assert (read_pieces f (Z.to_nat (row * height)) base (row * height) 0 = Ok (inl mem)) as ->.
  { rewrite <-Hlen. rewrite read_pieces_picture; [by rewrite zdrop_le_0|done|pose proof (zlen_nonneg mem); lia|lia]. }
  assert (pixel_stats_of m mem row height = Ok (Some (statistics (picture channels mem row width height)))) as Hst.
  { unfold pixel_stats_of. rewrite Hf, Hw. cbn [mbind option_bind]. rewrite Hch. rewrite (proj2 (Z.ltb_lt _ _)), (proj2 (Z.leb_le _ _)) by lia. cbn [andb].
    rewrite (count_pixels_ok format) by (done || lia). done. }
  unfold mbind at 1, se_bind at 1, lift at 1, record_capture. unfold mbind, se_bind, gets, update, lift. rewrite Hst. cbn [id].
  fold sha. fold duplicate. cbn [negb when mret se_ret raise lift].
  cbn [CAPTURE_SEQUENCE set_sequence set_captured]. rewrite Hlen. destruct duplicate; cbn [negb when].
  - eexists. split; [reflexivity|]. split; [cbn; set_solver|done].
  - unfold write_raw. rewrite Hstore. eexists. split; [reflexivity|]. split; [cbn; set_solver|]. intros _. cbn. apply lookup_insert_eq.
Qed.

(** ** A sample *)

(** SpringBoard hands over a surface of two pixels, dark red and white. *)
Definition sample_picture : list byte := [x00; x00; x10; xff; xff; xff; xff; x00].
Definition sample_memory : list (Z * list byte) :=
  [(PROGNAME_PTR, le_bytes 8 0x1000); (0x1000, le_bytes 8 0x2000); (0x2000, b "SpringBoard" ++ [x00]);
   (IOSURFACE_IVAR_OFFSET_GLOBAL, le_bytes 4 8); (0x5008, le_bytes 8 0x6000);
   (0x6070, le_bytes 8 0x100); (0x6090, le_bytes 8 8); (0x6098, le_bytes 8 2); (0x60a0, le_bytes 8 1); (0x60a8, le_bytes 8 8);
   (0x60b0, le_bytes 8 0x7000); (0x60b8, le_bytes 4 0x42475241); (0x60c8, le_bytes 4 0); (0x7100, sample_picture)].
Definition sample_read (memory : list (Z * list byte)) (a n : Z) : option (list byte) :=
  data ← list_find (λ e, e.1 ≤ a ∧ a < e.1 + zlen e.2) memory;
  let e := data.2 in Some (slice (a - e.1) (a - e.1 + n) e.2).
Definition sample_frame (memory : list (Z * list byte)) : frame :=
  Frame (λ r, if bool_decide (r = u "x3") then Some 0x5000 else Some 1) (sample_read memory) [] 7 1000.
Definition sample_options (labels : list string) : options := Options (u "/tmp/events") (map u labels) true 0x20000000.
Definition sample_alloc (n : Z) : option Z := Some (n + 1).
Definition everywhere {A} (v : A) (_ : list Z) : A := v.
Definition sample_installed (o : options) : state :=
  (install o 0 sample_alloc true (everywhere true) (sample_frame sample_memory) (everywhere true) no_state).2.
(** The tenth breakpoint is [FB_SWAP_SET_LAYER_ENTRY]. *)
Definition hit_surface (o : options) (memory : list (Z * list byte)) (store : list Z → stored) (s : state) : res bool * state :=
  on_break o 0 true (everywhere true) store (sample_frame memory) 10 s.
Lemma hit_reachable o quiet made writable store f s i a r :
  reachable o 0 sample_alloc quiet s → bps s !! i = Some (Breakpoint a true true) →
  (on_break o 0 made writable store f i s).1 = Ok r → reachable o 0 sample_alloc quiet (on_break o 0 made writable store f i s).2.
Proof.
  intros Hs Ha Hr. pose proof (r_hit o 0 sample_alloc quiet s i a made writable store f Hs Ha) as H. cbv zeta in H.
  rewrite Hr, andb_true_r in H. exact H.
Qed.
Definition visible : options := sample_options ["NONBLACK_IOSURFACE"].
Abbreviation once :=
  (on_break visible 0 true (everywhere true) (everywhere Whole) (sample_frame sample_memory) 10 (sample_installed visible)).
Abbreviation twice :=
  (on_break visible 0 true (everywhere true) (everywhere Whole) (sample_frame sample_memory) 10 once.2).
Example sample_stops : once.1 = Ok true ∧ twice.1 = Ok true.
Proof. vm_compute. split; reflexivity. Qed.
Lemma installed_reachable : reachable visible 0 sample_alloc true (sample_installed visible).
Proof. exact (r_install visible 0 sample_alloc true (everywhere true) (sample_frame sample_memory) (everywhere true)). Qed.
Definition sample_breakpoint : breakpoint := Breakpoint 0x18447238c true true.
Lemma sample_enabled : bps (sample_installed visible) !! 10 = Some sample_breakpoint ∧ bps once.2 !! 10 = Some sample_breakpoint.
Proof. vm_compute. split; reflexivity. Qed.
Lemma once_reachable : reachable visible 0 sample_alloc true once.2.
Proof.
  exact (hit_reachable visible true true (everywhere true) (everywhere Whole) (sample_frame sample_memory) (sample_installed visible) 10
    _ true installed_reachable (proj1 sample_enabled) (proj1 sample_stops)).
Qed.
Lemma twice_reachable : reachable visible 0 sample_alloc true twice.2.
Proof.
  exact (hit_reachable visible true true (everywhere true) (everywhere Whole) (sample_frame sample_memory) once.2 10
    _ true once_reachable (proj2 sample_enabled) (proj2 sample_stops)).
Qed.
Definition is_capture (l : line) : bool := match l with LCapture _ _ _ => true | _ => false end.
Definition captures (s : state) : list line := List.filter is_capture (out s).
Lemma captures_out l s : l ∈ captures s → l ∈ out s.
Proof. unfold captures. rewrite !list_elem_of_In. by intros [? _]%filter_In. Qed.
Definition sample_surface : metadata := surface_metadata 0 (sample_frame sample_memory) 0x5000.
Definition sample_statistics : pixel_stats := statistics (picture (2, 1, 0, 3) sample_picture 8 2 1).
Definition sample_again : line :=
  LCapture 0x5000 sample_surface (Captured 8 (Sha256.sha256_hex sample_picture) 5 true (Some sample_statistics) None).
Lemma sample_captured_again : sample_again ∈ out twice.2.
Proof. apply captures_out. apply (list_elem_of_lookup_2 _ 1). vm_compute. reflexivity. Qed.
Lemma pictures_kept_witness :
  sample_again ∈ out twice.2 ∧ ∃ p data, files twice.2 !! p = Some (Raw data) ∧ Sha256.sha256_hex data = Sha256.sha256_hex sample_picture.
Proof.
  split; [exact sample_captured_again|].
  destruct (pictures_kept visible 0 sample_alloc true _ _ _ _ _ _ _ _ _ twice_reachable sample_captured_again) as [_ Hkept].
  destruct (Hkept eq_refl) as (m & bytes & nonzero & stats & p & data & _ & Hf & Hd). exists p, data. split; [exact Hf|exact Hd].
Defined.
Lemma run_pair (p : res bool * state) r : p.1 = r → p = (r, p.2).
Proof. destruct p. cbn. by intros ->. Qed.
Lemma sample_directory : EVENT_DIR visible ≠ [].
Proof. vm_compute. discriminate. Qed.
Lemma surface_stop_sound_witness :
  ∃ p, p_label p ∈ SUCCESS_LABELS visible
    ∧ files once.2 !! join (directory visible) (success_name (p_label p)) = Some (Event p).
Proof.
  destruct (surface_stop_sound visible 0 true (everywhere true) (everywhere Whole) (sample_frame sample_memory) 10 (sample_installed visible) once.2
    (run_pair once (Ok true) (proj1 sample_stops))) as (_ & c & p & _ & [Hl _] & Hf).
  exists p. split; [exact Hl|]. apply Hf. exact sample_directory.
Defined.
Lemma sample_holds : holds_at (sample_frame sample_memory) 0x7100 sample_picture.
Proof.
  assert (forallb (λ i, forallb (λ n, negb (i + n <=? 8) || bool_decide (read (sample_frame sample_memory) (0x7100 + i) n = slice i (i + n) sample_picture))
    (seqZ 1 8)) (seqZ 0 8) = true) as Hall by (vm_compute; reflexivity).
  intros i n Hi Hn Hl. change (zlen sample_picture) with 8 in Hl. rewrite forallb_forall in Hall.
  specialize (Hall i ltac:(apply list_elem_of_In, elem_of_seqZ; lia)). rewrite forallb_forall in Hall.
  specialize (Hall n ltac:(apply list_elem_of_In, elem_of_seqZ; lia)). rewrite (proj2 (Z.leb_le _ _)) in Hall by lia.
  by apply bool_decide_eq_true in Hall.
Qed.
Lemma sample_picture_at : picture_at (sample_frame sample_memory) sample_surface (2, 1, 0, 3) 8 2 1 sample_picture.
Proof.
  assert (sample_surface = Metadata 8 0x6000 (Some 8) (Some 2) (Some 1) (Some 8) (Some 0x7100) (Some 0x42475241) (Some 0)) as Hm
    by (vm_compute; reflexivity).
  rewrite Hm. constructor; try reflexivity.
  - exists 0x7100. split; [done|]. split; [done|apply sample_holds].
  - exists 0x42475241. split; reflexivity.
  - lia.
Qed.
Lemma capture_is_the_picture_witness :
  ∃ s' p, capture_surface visible true (everywhere Whole) (sample_frame sample_memory) 0x5000 sample_surface 1 (sample_installed visible) =
    (Ok (Captured 8 (Sha256.sha256_hex sample_picture) 5 false (Some sample_statistics) (Some p)), s')
  ∧ files s' !! p = Some (Raw sample_picture).
Proof.
  destruct (capture_is_the_picture visible true (everywhere Whole) (sample_frame sample_memory) 0x5000 sample_surface 1 (sample_installed visible)
    (2, 1, 0, 3) 8 2 1 sample_picture sample_picture_at eq_refl eq_refl) as (s' & He & _ & Hf).
  eexists s', _. split; [exact He|]. apply Hf. vm_compute. reflexivity.
Defined.

(** *** What the labels and the files do not say *)

Abbreviation hit_once labels memory store := (hit_surface (sample_options labels) memory store (sample_installed (sample_options labels))).
Definition black : list (Z * list byte) := removelast sample_memory ++ [(0x7100, replicate 8 x00)].
(** Asking for a surface that is not null does not stop at one with a pixel
    that is not black; only at a black one. *)
Lemma nonblack_hides_nonnull :
  (hit_once ["NONNULL_IOSURFACE"] sample_memory (everywhere Whole)).1 = Ok false
  ∧ (hit_once ["NONNULL_IOSURFACE"] black (everywhere Whole)).1 = Ok true.
Proof. vm_compute. split; reflexivity. Qed.
(** The label of a decisive site never succeeds. *)
Lemma decisive_label_never_succeeds :
  (hit_once ["FB_SWAP_SET_LAYER_ENTRY"] sample_memory (everywhere Whole)).1 = Ok false.
Proof. vm_compute. reflexivity. Qed.
(** A picture whose file could not be written is a duplicate when it is seen
    again, and is in no file. *)
Definition lost : res bool * state :=
  hit_surface visible sample_memory (everywhere Whole) (hit_once ["NONBLACK_IOSURFACE"] sample_memory (everywhere Refused)).2.
Lemma refused_picture_is_lost :
  captures lost.2 = [sample_again]
  ∧ forallb (λ e, match e.2 with Raw _ => false | _ => true end) (map_to_list (files lost.2)) = true.
Proof. vm_compute. split; reflexivity. Qed.
(** An allocation that ends inside a pixel raises out of the callback. *)
Definition short_allocation : list (Z * list byte) :=
  (0x6090, le_bytes 8 6) :: sample_memory.
Lemma short_allocation_raises : (hit_once [] short_allocation (everywhere Whole)).1 = Raise IndexError.
Proof. vm_compute. reflexivity. Qed.
