(* ===== verification/HostSks.v ===== *)
(** * The guarded override of a key-store request:
    [tools/re/host_sks_request_callbacks.py]

    The callback breaks in QEMU's request validator and logs every request.
    When it is told to, it forces one exact request to succeed: it writes the
    response class into the output and returns from the validator.  The request
    is known by its digest, given in advance or approved while QEMU waits.
    Here are the callback, the approval and the installation, and that the
    override happens only behind its guards and once. *)

From stdpp Require Import base tactics list strings.
From Stdlib Require Import Strings.Byte.
From S2P Require Import Prelude PyState PyBytes PyStr StartupDecode.
From S2P Require Sha256.
Open Scope Z_scope.

(** ** What a callback meets *)

(** The environment variables, with the number [float] makes of the approval
    timeout in milliseconds ([None]: [ValueError]); the approval file at a
    time, or what reading it raises; [time.monotonic()] when the callback
    starts, and by how much a sleep is longer than asked; the files that can be
    written; and LLDB's answers: the bytes [WriteMemory] wrote ([None]: an
    error) and whether [ReturnFromFrame] succeeded. *)
Record world := World {
  environ : list Z → option (list Z);
  approval_timeout : option Z;
  approval_file : Z → res (list Z);
  now : Z;
  lag : nat → Z;
  writable : list Z → bool;
  written : Z → list byte → option Z;
  returned : bool;
}.
Definition getenv (w : world) (name : string) : list Z := default [] (environ w (u name)).
Definition env_int (w : world) (name : string) : option Z :=
  if bool_decide (getenv w name = []) then None else res_opt (int0 (getenv w name)).
Definition reg_u64 (f : frame) (name : string) : Z := or0 (f_reg f (u name)).
Definition u32 (data : list byte) (offset : Z) : option Z :=
  if zlen data <? offset + 4 then None else Some (le_Z (slice offset (offset + 4) data)).

Record fields := Fields {
  header : option Z; version : option Z; variant : option Z; kind_ : option Z; class_ : option Z; record_len : option Z;
}.
Definition fields_of (data : list byte) (request_size : Z) : fields :=
  Fields (u32 data 0x00) (u32 data 0x14) (u32 data 0x4C) (u32 data 0x68) (u32 data 0x6C)
    (u32 data (if request_size =? 0xA4 then 0x84 else 0x78)).

(** ** What it does *)

Inductive line :=
  | InvalidPointer (count pointer size : Z)
  | ReadError (count pointer size : Z)
  | Request (count thread pointer size : Z) (sha256 : list Z) (fs : fields)
  | ApprovalRefused (why : string)
  | AwaitApproval (sha256 : list Z) (timeout : Z)
  | ApprovalAccepted (sha256 : list Z)
  | ApprovalTimedOut (sha256 : list Z)
  | OverrideRefused (why : string)
  | OverrideApplied (sha256 : list Z) (response_class : Z)
  | Installed (locations : Z).
(** What is done, in order.  [Saw] is the approval file read with the digest in
    it; the two that touch the guest carry whether they succeeded. *)
Inductive effect :=
  | Say (l : line)
  | WroteRequest (path : list Z) (data : list byte)
  | Challenge (path sha256 : list Z) (size : Z) (fs : fields)
  | Saw (sha256 : list Z)
  | WroteMemory (address : Z) (bytes : list byte) (ok : bool)
  | ForcedReturn (ok : bool).
Record state := State { seen : Z; overridden : bool; trace : list effect }.
Definition start : state := State 0 false [].
Abbreviation KM := (SE state).
Definition act (e : effect) : KM () := update (λ s, State (seen s) (overridden s) (trace s ++ [e])).
Definition say (l : line) : KM () := act (Say l).

Definition startswith_tmp (path : list Z) : bool := startswith (u "/tmp/dvm/") path.
Definition is_safe (approval : list Z) : bool :=
  startswith_tmp approval && negb (bool_decide (u ".." ∈ split1 47 approval)).
(** [min(max(...))] of the timeout, in milliseconds. *)
Definition timeout_of (w : world) : Z := Z.max 1000 (Z.min (default 300000 (approval_timeout w)) 3600000).

(** [while time.monotonic() < deadline], from its [k]th pass on. *)
Fixpoint await (w : world) (digest : list Z) (deadline : Z) (fuel k : nat) (t : Z) : KM (option (list Z)) :=
  if t <? deadline then
    match fuel with
    | O => raise OutOfFuel
    | S fuel =>
        approved ← lift (match approval_file w t with
                         | Ok text => Ok (lower (strip text))
                         | Raise OSError => Ok []
                         | Raise e => Raise e
                         end);
        if bool_decide (approved = digest) then
          _ ← act (Saw digest); _ ← say (ApprovalAccepted digest); mret (Some digest)
        else await w digest deadline fuel (S k) (t + 100 + Z.max 0 (lag w k))
    end
  else _ ← say (ApprovalTimedOut digest); mret None.
Definition await_fuel (w : world) : nat := Z.to_nat ((timeout_of w + 99) / 100).

Definition write_file (w : world) (path : list Z) (e : effect) : KM () :=
  if writable w path then act e else raise OSError.
Definition approval_digest (w : world) (digest : list Z) (data : list byte) (fs : fields) (request_size : Z) : KM (option (list Z)) :=
  let approval := getenv w "DVM_HOST_SKS_APPROVAL_FILE" in
  if bool_decide (approval = []) then mret None
  else if negb (is_safe approval) then _ ← say (ApprovalRefused "unsafe-path"); mret None
  else
    match env_int w "DVM_HOST_SKS_MATCH_SIZE", env_int w "DVM_HOST_SKS_MATCH_CLASS", env_int w "DVM_HOST_SKS_MATCH_KIND" with
    | Some match_size, Some match_class, Some match_kind =>
        if negb (bool_decide ((Some request_size, class_ fs, kind_ fs) = (Some match_size, Some match_class, Some match_kind)))
        then mret None
        else
          _ ← write_file w (approval ++ u ".request.bin") (WroteRequest (approval ++ u ".request.bin") data);
          _ ← write_file w (approval ++ u ".challenge.json.tmp")
                (Challenge (approval ++ u ".challenge.json") digest request_size fs);
          _ ← say (AwaitApproval digest (timeout_of w));
          await w digest (now w + timeout_of w) (await_fuel w) 0 (now w)
    | _, _, _ => _ ← say (ApprovalRefused "incomplete-match"); mret None
    end.

(** Whether the digest that was configured is one. *)
Definition bad_sha256 (expected : list Z) : bool :=
  negb (bool_decide (expected = []))
  && (negb (zlen expected =? 64) || negb (forallb (λ c, is_digit c || ((97 <=? c) && (c <=? 102))) expected)).
(** The override itself. *)
Definition apply_override (w : world) (f : frame) (digest : list Z) (response_class : Z) : KM bool :=
  let response_class_ptr := reg_u64 f "x3" in
  if (response_class_ptr =? 0) || negb ((0 <=? response_class) && (response_class <=? 0xFFFFFFFF))
  then _ ← say (OverrideRefused "invalid-output"); mret false
  else
    let bytes := le_bytes 4 response_class in
    let wrote := bool_decide (written w response_class_ptr bytes = Some 4) in
    _ ← act (WroteMemory response_class_ptr bytes wrote);
    if negb wrote then _ ← say (OverrideRefused "write-failed"); mret false
    else
      _ ← act (ForcedReturn (returned w));
      if negb (returned w) then _ ← say (OverrideRefused "return-failed"); mret false
      else
        _ ← update (λ s, State (seen s) true (trace s));
        _ ← say (OverrideApplied digest response_class);
        mret false.
Definition consider (w : world) (f : frame) (data : list byte) (fs : fields) (request_size : Z) : KM bool :=
  let digest := Sha256.sha256_hex data in
  let expected := lower (getenv w "DVM_HOST_SKS_OVERRIDE_SHA256") in
  let once := bool_decide (getenv w "DVM_HOST_SKS_OVERRIDE_ONCE" = u "1") in
  let class_text := getenv w "DVM_HOST_SKS_OVERRIDE_CLASS" in
  let approval_configured := negb (bool_decide (getenv w "DVM_HOST_SKS_APPROVAL_FILE" = [])) in
  if bool_decide (expected = []) && bool_decide (class_text = []) && negb once && negb approval_configured then mret false
  else if bad_sha256 expected then _ ← say (OverrideRefused "invalid-sha256"); mret false
  else
    match int0 class_text with
    | Raise _ => _ ← say (OverrideRefused "invalid-class"); mret false
    | Ok response_class =>
        if negb once then _ ← say (OverrideRefused "once-guard-not-set"); mret false
        else
          s ← gets id;
          if overridden s then mret false
          else
            expected ← (if approval_configured then approval_digest w digest data fs request_size else mret (Some expected));
            match expected with
            | None => mret false
            | Some expected =>
                if negb (bool_decide (digest = expected)) then mret false else apply_override w f digest response_class
            end
    end.
Definition callback (w : world) (f : frame) : KM bool :=
  _ ← update (λ s, State (seen s + 1) (overridden s) (trace s));
  s ← gets id;
  let request_ptr := reg_u64 f "x1" in
  let request_size := reg_u64 f "w2" in
  if (request_size =? 0) || (4096 <? request_size) || (request_ptr =? 0) then
    _ ← say (InvalidPointer (seen s) request_ptr request_size); mret false
  else
    match f_read f request_ptr request_size with
    | Some data =>
        if negb (zlen data =? request_size) then _ ← say (ReadError (seen s) request_ptr request_size); mret false
        else
          let fs := fields_of data request_size in
          _ ← say (Request (seen s) (f_thread f) request_ptr request_size (Sha256.sha256_hex data) fs);
          consider w f data fs request_size
    | None => _ ← say (ReadError (seen s) request_ptr request_size); mret false
    end.
(** [install]: how many places the symbol has. *)
Definition install (locations : Z) : KM () :=
  _ ← say (Installed locations);
  when (negb (locations =? 1)) (raise (RuntimeError "expected one location")).

(** One callback after the other, whatever each meets and whatever it raises. *)
Inductive reachable : state → Prop :=
  | r_start : reachable (install 1 start).2
  | r_hit s w f : reachable s → reachable (callback w f s).2.

(** ** The guards *)

(** What changes the guest. *)
Definition touches (e : effect) : bool := match e with WroteMemory _ _ _ | ForcedReturn _ => true | _ => false end.
Definition calm (es : list effect) : Prop := Forall (λ e, touches e = false) es.
(** From [s] to [s'] by effects that touch nothing. *)
Definition calmly (s : state) (P : list effect → Prop) (s' : state) : Prop :=
  ∃ es, trace s' = trace s ++ es ∧ overridden s' = overridden s ∧ calm es ∧ P es.
Lemma calmly_refl (P : list effect → Prop) s : P [] → calmly s P s.
Proof. intros HP. exists []. rewrite app_nil_r. split_and!; [done..|by apply Forall_nil|done]. Qed.
Lemma calmly_act (P : list effect → Prop) e n s : touches e = false → P [e] → calmly s P (State n (overridden s) (trace s ++ [e])).
Proof. intros He HP. exists [e]. split_and!; [done..|by apply Forall_singleton|done]. Qed.
Lemma calmly_trans (P Q R : list effect → Prop) s s1 s2 :
  calmly s P s1 → calmly s1 Q s2 → (∀ a b, P a → Q b → R (a ++ b)) → calmly s R s2.
Proof.
  intros (a & H1 & H2 & H3 & H4) (b & H5 & H6 & H7 & H8) HR. exists (a ++ b). split_and!; [by rewrite H5, H1, app_assoc|congruence|by apply Forall_app|auto].
Qed.
Lemma calmly_weaken (P Q : list effect → Prop) s s' : calmly s P s' → (∀ es, P es → Q es) → calmly s Q s'.
Proof. intros (es & H1 & H2 & H3 & H4) HQ. exists es. auto. Qed.
Definition whatever (_ : list effect) : Prop := True.

(** The wait ends, and gives the digest only when it was read in the file. *)
Definition gives (digest : list Z) (P : list effect → Prop) (r : option (list Z)) (es : list effect) : Prop :=
  ∀ x, r = Some x → x = digest ∧ P es.
Lemma await_spec w digest deadline fuel k t s :
  deadline - t ≤ 100 * Z.of_nat fuel →
  wp (await w digest deadline fuel k t) (λ r, calmly s (gives digest (λ es, Saw digest ∈ es) r))
    (λ e s', calmly s whatever s' ∧ ∃ t, approval_file w t = Raise e) s.
Proof.
  revert k t. induction fuel as [|fuel IH]; intros k t Hf; cbn [await]; destruct (Z.ltb_spec t deadline) as [Hlt|]; [lia| | |];
    try (apply wp_bind, wp_update, wp_ret, calmly_act; [done|]; by intros ? ?).
  apply wp_bind, wp_lift.
  - intros approved _. case_bool_decide as Ha.
    + apply wp_bind, wp_update, wp_bind, wp_update, wp_ret.
      exists [Saw digest; Say (ApprovalAccepted digest)]. cbn. split_and!; [by rewrite <-app_assoc|done|by repeat constructor|].
      intros x [= <-]. split; [done|apply list_elem_of_here].
    + apply IH. lia.
  - intros e He. split; [by apply calmly_refl|]. exists t. destruct (approval_file w t) as [|[]]; by simplify_eq/=.
Qed.
Definition approval_configured (w : world) : bool := negb (bool_decide (getenv w "DVM_HOST_SKS_APPROVAL_FILE" = [])).
(** The challenge of the request was published, for the size, class and kind
    that were asked for, and then its digest was read in the approval file. *)
Definition approved (w : world) (digest : list Z) (fs : fields) (size : Z) (es : list effect) : Prop :=
  let approval := getenv w "DVM_HOST_SKS_APPROVAL_FILE" in
  is_safe approval = true ∧ env_int w "DVM_HOST_SKS_MATCH_SIZE" = Some size
  ∧ class_ fs = env_int w "DVM_HOST_SKS_MATCH_CLASS" ∧ kind_ fs = env_int w "DVM_HOST_SKS_MATCH_KIND"
  ∧ ∃ a b, es = a ++ b ∧ Challenge (approval ++ u ".challenge.json") digest size fs ∈ a ∧ Saw digest ∈ b.
(** What a callback raises: a file that cannot be written, or what reading the
    approval file raises. *)
Definition raises (w : world) (e : exn) : Prop := e = OSError ∨ ∃ t, approval_file w t = Raise e.
Lemma await_enough w : now w + timeout_of w - now w ≤ 100 * Z.of_nat (await_fuel w).
Proof.
  unfold await_fuel, timeout_of. pose proof (Z.div_mod (1000 `max` (default 300000 (approval_timeout w) `min` 3600000) + 99) 100).
  pose proof (Z.mod_pos_bound (1000 `max` (default 300000 (approval_timeout w) `min` 3600000) + 99) 100). lia.
Qed.
Lemma approval_spec w digest data fs size s :
  wp (approval_digest w digest data fs size) (λ r, calmly s (gives digest (approved w digest fs size) r))
    (λ e s', calmly s whatever s' ∧ raises w e) s.
Proof.
  unfold approval_digest. case_bool_decide as Ha; [apply wp_ret, calmly_refl; by intros ?|].
  destruct (is_safe _) eqn:Hsafe; cbn [negb]; [|apply wp_bind, wp_update, wp_ret, calmly_act; [done|]; by intros ? ?].
  destruct (env_int w "DVM_HOST_SKS_MATCH_SIZE") as [msize|] eqn:E1, (env_int w "DVM_HOST_SKS_MATCH_CLASS") as [mclass|] eqn:E2,
    (env_int w "DVM_HOST_SKS_MATCH_KIND") as [mkind|] eqn:E3; try (apply wp_bind, wp_update, wp_ret, calmly_act; [done|]; by intros ? ?).
  case_bool_decide as Hm; cbn [negb]; [|apply wp_ret, calmly_refl; by intros ?]. injection Hm as -> Hc Hk.
  apply wp_bind. unfold write_file at 1. destruct (writable w (_ ++ u ".request.bin")); [|split; [by apply calmly_refl|by left]].
  apply wp_update, wp_bind. unfold write_file. destruct (writable w _); [|split; [by apply calmly_act|by left]].
  apply wp_update, wp_bind, wp_update.
  set (p := getenv w "DVM_HOST_SKS_APPROVAL_FILE"). set (s3 := State _ _ _).
  assert (calmly s (λ es, Challenge (p ++ u ".challenge.json") digest msize fs ∈ es) s3) as H3.
  { eexists [_; _; _]. subst s3. cbn. rewrite <-!app_assoc. split_and!; [done|done|by repeat constructor|]. apply list_elem_of_further, list_elem_of_here. }
  eapply wp_mono; [apply await_spec, await_enough|..].
  - intros r s4 H4. eapply calmly_trans; [exact H3|exact H4|]. intros a b Hin Hg x Hx. destruct (Hg x Hx) as [-> Hsaw].
    split; [done|]. unfold approved. fold p. rewrite E1, E2, E3. split_and!; [done..|]. by exists a, b.
  - intros e s4 [H4 Ht]. split; [by eapply calmly_trans|by right].
Qed.

(** An override: what was overridden, and behind which guards. *)
Definition override (w : world) (f : frame) (s s' : state) : Prop :=
  ∃ data response_class before after ok,
    let size := reg_u64 f "w2" in
    let digest := Sha256.sha256_hex data in
    overridden s = false
    ∧ f_read f (reg_u64 f "x1") size = Some data ∧ zlen data = size ∧ 0 < size ≤ 4096
    ∧ getenv w "DVM_HOST_SKS_OVERRIDE_ONCE" = u "1"
    ∧ int0 (getenv w "DVM_HOST_SKS_OVERRIDE_CLASS") = Ok response_class ∧ 0 ≤ response_class ≤ 0xFFFFFFFF ∧ reg_u64 f "x3" ≠ 0
    ∧ (if approval_configured w then approved w digest (fields_of data size) size before
       else lower (getenv w "DVM_HOST_SKS_OVERRIDE_SHA256") = digest)
    ∧ calm before
    ∧ trace s' = trace s ++ before ++ WroteMemory (reg_u64 f "x3") (le_bytes 4 response_class) ok :: after
    ∧ List.filter touches after = (if ok then [ForcedReturn (returned w)] else [])
    ∧ overridden s' = (ok && returned w).
Definition outcome (w : world) (f : frame) (s s' : state) : Prop := calmly s whatever s' ∨ override w f s s'.
Abbreviation Guarded w f m s0 := (wp m (λ b s', b = false ∧ outcome w f s0 s') (λ e s', raises w e ∧ calmly s0 whatever s')).

(** What is known when the override is applied. *)
Record cleared (w : world) (f : frame) (s0 s : state) (data : list byte) (response_class : Z) : Prop := {
  cl_open : overridden s0 = false;
  cl_read : f_read f (reg_u64 f "x1") (reg_u64 f "w2") = Some data;
  cl_size : zlen data = reg_u64 f "w2" ∧ 0 < reg_u64 f "w2" ≤ 4096;
  cl_once : getenv w "DVM_HOST_SKS_OVERRIDE_ONCE" = u "1";
  cl_class : int0 (getenv w "DVM_HOST_SKS_OVERRIDE_CLASS") = Ok response_class;
  cl_digest : calmly s0 (λ es, if approval_configured w then
      approved w (Sha256.sha256_hex data) (fields_of data (reg_u64 f "w2")) (reg_u64 f "w2") es
      else lower (getenv w "DVM_HOST_SKS_OVERRIDE_SHA256") = Sha256.sha256_hex data) s;
}.
Lemma calm_say_outcome w f s0 s P l : calmly s0 P s → outcome w f s0 (State (seen s) (overridden s) (trace s ++ [Say l])).
Proof. intros Hs. left. eapply calmly_trans; [exact Hs|by apply (calmly_act whatever)|done]. Qed.
Lemma apply_guarded w f data response_class s0 s :
  cleared w f s0 s data response_class → Guarded w f (apply_override w f (Sha256.sha256_hex data) response_class) s0 s.
Proof.
  intros [Ho Hr [Hz Hsz] Honce Hcl Hd]. unfold apply_override. cbv zeta.
  destruct (_ || _) eqn:Hout; [apply wp_bind, wp_update, wp_ret; split; [done|by eapply calm_say_outcome]|].
  apply orb_false_iff in Hout as [Hptr%Z.eqb_neq Hrange%negb_false_iff%andb_true_iff]. destruct Hd as (before & Ht & Hov & Hcalm & Hd).
  apply wp_bind, wp_update.
  assert (∀ ok after s', trace s' = trace s ++ WroteMemory (reg_u64 f "x3") (le_bytes 4 response_class) ok :: after →
    List.filter touches after = (if ok then [ForcedReturn (returned w)] else []) → overridden s' = ok && returned w → outcome w f s0 s') as Hover.
  { intros ok after s' Htr Hfil Hovr. right. exists data, response_class, before, after, ok. cbv zeta.
    split_and!; try done; try lia. by rewrite Htr, Ht, <-app_assoc. }
  case_bool_decide as Hw; cbn [negb].
  - apply wp_bind, wp_update. destruct (returned w) eqn:Hret; cbn [negb].
    + apply wp_bind, wp_update, wp_bind, wp_update, wp_ret. split; [done|].
      eapply (Hover true [_; _]); cbn; [by rewrite <-!app_assoc|done..].
    + apply wp_bind, wp_update, wp_ret. split; [done|]. eapply (Hover true [_; _]); cbn; [by rewrite <-!app_assoc|done|congruence].
  - apply wp_bind, wp_update, wp_ret. split; [done|]. eapply (Hover false [_]); cbn; [by rewrite <-!app_assoc|done|congruence].
Qed.
Lemma calm_ret w f s0 s P : calmly s0 P s → Guarded w f (mret false) s0 s.
Proof. intros Hs. apply wp_ret. split; [done|]. left. by eapply calmly_weaken. Qed.
Lemma calm_refuse w f s0 s P l : calmly s0 P s → Guarded w f (_ ← say l; mret false) s0 s.
Proof. intros Hs. apply wp_bind, wp_update, wp_ret. split; [done|]. by eapply calm_say_outcome. Qed.
Lemma consider_guarded w f data s0 s :
  calmly s0 whatever s → f_read f (reg_u64 f "x1") (reg_u64 f "w2") = Some data → zlen data = reg_u64 f "w2" →
  0 < reg_u64 f "w2" ≤ 4096 →
  Guarded w f (consider w f data (fields_of data (reg_u64 f "w2")) (reg_u64 f "w2")) s0 s.
Proof.
  intros Hs Hr Hz Hsz. unfold consider. cbv zeta. destruct (_ && _ && _ && _); [by eapply calm_ret|].
  destruct (bad_sha256 _); [by eapply calm_refuse|].
  destruct (int0 _) as [response_class|] eqn:Hc; [|by eapply calm_refuse]. case_bool_decide as Honce; cbn [negb]; [|by eapply calm_refuse].
  apply wp_bind, wp_gets. unfold id. destruct (overridden s) eqn:Hov; [by eapply calm_ret|].
  assert (overridden s0 = false) as Hov0 by (destruct Hs as (? & _ & Hs & _); congruence). fold (approval_configured w).
  destruct (approval_configured w) eqn:Hap; cbn [negb].
  - apply wp_bind. eapply wp_mono; [apply approval_spec|..].
    + intros [x|] s1 H1; [|apply (calm_ret _ _ _ _ whatever); eapply calmly_trans; [exact Hs|exact H1|done]].
      case_bool_decide as Hd; cbn [negb]; [|apply (calm_ret _ _ _ _ whatever); eapply calmly_trans; [exact Hs|exact H1|done]].
      apply apply_guarded. split; try done. rewrite Hap. eapply calmly_trans; [exact Hs|exact H1|]. intros a b _ Hg. cbv beta.
      destruct (Hg x eq_refl) as [-> Happ]. unfold approved in *. destruct Happ as (? & ? & ? & ? & a' & b' & -> & Hch & Hsaw).
      split_and!; [done..|]. exists (a ++ a'), b'. split_and!; [by rewrite app_assoc|by apply elem_of_app; right|done].
    + intros e s1 [H1 He]. split; [done|]. by eapply calmly_trans.
  - apply wp_bind, wp_ret. case_bool_decide as Hd; cbn [negb]; [|by eapply calm_ret].
    apply apply_guarded. split; try done. rewrite Hap. by eapply calmly_weaken.
Qed.
Lemma callback_guarded w f s : Guarded w f (callback w f) s s.
Proof.
  unfold callback. apply wp_bind, wp_update, wp_bind, wp_gets. unfold id. cbv zeta. set (s1 := State _ _ _).
  assert (calmly s whatever s1) as H1 by (exists []; subst s1; cbn; rewrite app_nil_r; by repeat constructor).
  case_match eqn:Hsz; [by eapply calm_refuse|]. destruct (f_read _ _ _) as [data|] eqn:Hr; [|by eapply calm_refuse].
  destruct (Z.eqb_spec (zlen data) (reg_u64 f "w2")) as [Hz|]; cbn [negb]; [|by eapply calm_refuse].
  apply wp_bind, wp_update. apply consider_guarded; try done.
  - eapply calmly_trans; [exact H1|by apply (calmly_act whatever)|done].
  - apply orb_false_iff in Hsz as [[Hn Hm]%orb_false_iff _]. pose proof (zlen_nonneg data). lia.
Qed.

(** At most one return is ever forced. *)
Definition forced (e : effect) : bool := match e with ForcedReturn true => true | _ => false end.
Definition forced_of (es : list effect) : Z := zlen (List.filter forced es).
Lemma forced_app a b : forced_of (a ++ b) = forced_of a + forced_of b.
Proof. unfold forced_of. by rewrite List.filter_app, zlen_app. Qed.
Lemma forced_touches es : forced_of es = forced_of (List.filter touches es).
Proof.
  unfold forced_of. induction es as [|e es IH]; [done|]. cbn. destruct e as [| | | | |[]]; cbn; rewrite ?zlen_cons; by rewrite IH.
Qed.
Lemma forced_calm es : calm es → forced_of es = 0.
Proof. intros Hc. rewrite forced_touches. by induction Hc as [|e es He Hc IH]; [|cbn; rewrite He]. Qed.
Definition counted (s : state) : Prop := forced_of (trace s) = if overridden s then 1 else 0.
Lemma outcome_counted w f s s' : counted s → outcome w f s s' → counted s'.
Proof.
  unfold counted. intros Hs [(es & -> & -> & Hc & _)|(data & rc & before & after & ok & Ho & _ & _ & _ & _ & _ & _ & _ & _ & Hc & -> & Hf & ->)].
  - rewrite forced_app, (forced_calm es Hc). lia.
  - rewrite !forced_app, Hs, Ho, (forced_calm before Hc).
    change (WroteMemory (reg_u64 f "x3") (le_bytes 4 rc) ok :: after) with ([WroteMemory (reg_u64 f "x3") (le_bytes 4 rc) ok] ++ after).
    rewrite forced_app, (forced_touches after), Hf. by destruct ok, (returned w).
Qed.
Lemma reachable_counted s : reachable s → counted s.
Proof.
  induction 1 as [|s w f Hs IH]; [done|]. apply (outcome_counted w f s); [done|].
  pose proof (callback_guarded w f s) as Hg. unfold wp in Hg. destruct (callback w f s) as [[b|e] s']; [apply Hg|by left; apply Hg].
Qed.

(** C21: The override is guarded.  In every reachable state, whatever the guest,
    the debugger and the file system answer, a callback lets QEMU run on, or
    raises what writing or reading a file raised; and either it touches nothing
    of the guest, or nothing was overridden before, the once-guard is set, the
    response class is a number of 32 bits, the request was read whole, and its
    digest is the one configured, or, when an approval file is configured, the
    digest read there after the challenge for exactly this request, of the
    size, class and kind asked for, was published: then it writes those four
    bytes at the output, forces the return only if they were written, and does
    nothing else to the guest.  Over any history at most one return is forced. *)
Theorem override_guarded w f s :
  reachable s →
  let r := callback w f s in
  match r.1 with Ok stop => stop = false | Raise e => raises w e end
  ∧ outcome w f s r.2
  ∧ forced_of (trace r.2) = if overridden r.2 then 1 else 0.
Proof.
  intros Hs%reachable_counted r. pose proof (callback_guarded w f s) as Hg. unfold wp in Hg. fold r in Hg.
  assert (outcome w f s r.2) as Ho by (destruct r as [[b|e] s']; [apply Hg|left; apply Hg]).
  split_and!; [by destruct r as [[b|e] s']; apply Hg|done|by apply (outcome_counted w f s)].
Qed.

(** A migration request of 164 bytes, approved after three looks. *)
Definition sample_request : list byte := replicate 0x68 x00 ++ le_bytes 4 4 ++ le_bytes 4 3 ++ replicate 52 x00.
Definition sample_digest : list Z := Sha256.sha256_hex sample_request.
Definition sample_frame : frame :=
  Frame (λ r, if bool_decide (r = u "x1") then Some 0x4000 else if bool_decide (r = u "w2") then Some 164
    else if bool_decide (r = u "x3") then Some 0x5000 else None)
    (λ a n, if bool_decide ((a, n) = (0x4000, 164)) then Some sample_request else None) [] 9 0.
Definition sample_environ (name : list Z) : option (list Z) :=
  if bool_decide (name = u "DVM_HOST_SKS_APPROVAL_FILE") then Some (u "/tmp/dvm/run.sks.approve")
  else if bool_decide (name = u "DVM_HOST_SKS_MATCH_SIZE") then Some (u "164")
  else if bool_decide (name = u "DVM_HOST_SKS_MATCH_CLASS") then Some (u "3")
  else if bool_decide (name = u "DVM_HOST_SKS_MATCH_KIND") then Some (u "4")
  else if bool_decide (name = u "DVM_HOST_SKS_OVERRIDE_CLASS") then Some (u "0x3")
  else if bool_decide (name = u "DVM_HOST_SKS_OVERRIDE_ONCE") then Some (u "1") else None.
Definition sample_world (file : res (list Z)) (returns : bool) : world :=
  World sample_environ (Some 1500) (λ t, if t <? 250 then Raise OSError else file) 0 (λ _, 10) (λ _, true) (λ _ bytes, Some (zlen bytes)) returns.
Definition approving : world := sample_world (Ok (upper sample_digest ++ [10])) true.
Lemma override_guarded_witness :
  let r := callback approving sample_frame (install 1 start).2 in
  List.filter touches (trace r.2) = [WroteMemory 0x5000 [x03; x00; x00; x00] true; ForcedReturn true]
  ∧ overridden r.2 = true ∧ forced_of (trace r.2) = 1.
Proof.
  intros r. assert (overridden r.2 = true) as Ho by (vm_compute; reflexivity).
  split; [vm_compute; reflexivity|]. split; [exact Ho|].
  destruct (override_guarded approving sample_frame (install 1 start).2 r_start) as (_ & _ & Hf). fold r in Hf. rewrite Ho in Hf. exact Hf.
Defined.

(** The output of a request whose return then fails keeps the class, and the
    override is tried again. *)
Lemma failed_return_leaves_class :
  let s1 := (callback (sample_world (Ok sample_digest) false) sample_frame start).2 in
  let s2 := (callback (sample_world (Ok sample_digest) true) sample_frame s1).2 in
  overridden s1 = false
  ∧ List.filter touches (trace s2) =
    [WroteMemory 0x5000 [x03; x00; x00; x00] true; ForcedReturn false;
     WroteMemory 0x5000 [x03; x00; x00; x00] true; ForcedReturn true].
Proof. vm_compute. split; reflexivity. Qed.
(** An approval file that is not ASCII raises out of the callback. *)
Lemma non_ascii_approval_raises :
  (callback (sample_world (Raise UnicodeDecodeError) true) sample_frame start).1 = Raise UnicodeDecodeError.
Proof. vm_compute. reflexivity. Qed.
