(* ===== verification/LsdTrace.v ===== *)
(** * The LaunchServices message tracer: [tools/re/lsd_ipc_trace_callbacks.py]

    The tracer follows [mach_msg2] of one process on a running guest: it decodes
    the packed arguments of each call, plants a return witness at the caller and
    reads the receive buffer again when the call returns.  The debugger is an
    argument, as in the other tracers. *)

From stdpp Require Import base tactics list gmap strings.
From Stdlib Require Import Strings.Byte.
From S2P Require Import Prelude PyState PyBytes PyStr StartupDecode.
Open Scope Z_scope.

(** ** Reading the stopped guest *)

Definition MACH_MSG2_TRAP : Z := 0x237CCFCCC.
Definition reg (f : frame) (name : string) : Z := or0 (f_reg f (u name)).
(** [_read]: at most 0x400 bytes. *)
Definition read (f : frame) (address size : Z) : list byte :=
  if (address =? 0) || (size =? 0) then [] else StartupDecode.read f address (Z.min size 0x400).
Definition u64 (f : frame) (address : Z) : Z :=
  let data := read f address 8 in if zlen data =? 8 then le_Z data else 0.
Definition cstring (f : frame) (address limit : Z) : list Z :=
  let data := read f address limit in if bool_decide (data = []) then [] else ascii_replace (before x00 data).
Definition progname (slide : Z) (f : frame) : list Z :=
  let pointer := u64 f (slide + PROGNAME_PTR) in
  let string := if pointer =? 0 then 0 else u64 f pointer in
  cstring f string 64.
Definition is_lsd (slide thread_group : Z) (f : frame) : bool :=
  if negb (thread_group =? 0) then u64 f (reg f "tpidr_el1" + 0x290) =? thread_group
  else bool_decide (progname slide f = u "lsd").

(** ** Messages *)

(** The header of a message, when 24 bytes of it could be read. *)
Record msg_header := MsgHeader { h_bits : Z; h_size : Z; h_remote : Z; h_local : Z; h_voucher : Z; h_id : Z }.
Record message := Message { m_address : Z; m_requested : Z; m_data : list byte; m_header : option msg_header }.
Definition field (data : list byte) (offset : Z) : Z := le_Z (slice offset (offset + 4) data).
Definition message_at (f : frame) (address size : Z) : message :=
  let data := read f address size in
  Message address size data
    (if 24 <=? zlen data
     then Some (MsgHeader (field data 0) (field data 4) (field data 8) (field data 12) (field data 16) (field data 20))
     else None).
Record msg_vector := MsgVector { x_data : Z; x_receive_address : Z; x_send_size : Z; x_receive_size : Z }.
Definition vector_of (raw : list byte) (offset : Z) : msg_vector :=
  MsgVector (le_Z (slice offset (offset + 8) raw)) (le_Z (slice (offset + 8) (offset + 16) raw))
    (field raw (offset + 16)) (field raw (offset + 20)).
(** [range(0, len(raw) - 23, 24)]. *)
Definition vector_offsets (n : Z) : list Z := map (λ i, 24 * i) (seqZ 0 ((Z.max 0 (n - 23) + 23) / 24)).
(** [a_vectors]: the raw bytes and what they decode to, of a vector message. *)
Record arguments := Arguments {
  a_registers : list Z; a_options : Z; a_vector : bool; a_send_count : Z; a_receive_count : Z; a_remote_port : Z; a_local_port : Z;
  a_voucher_port : Z; a_message_id : Z; a_descriptor_count : Z; a_receive_name : Z; a_timeout : Z;
  a_vectors : option (list byte * list msg_vector); a_send_address : Z; a_receive_address : Z; a_entry_message : message;
}.
Definition arguments_of (f : frame) : arguments :=
  let r := reg f in
  let registers := map r ["x0"; "x1"; "x2"; "x3"; "x4"; "x5"; "x6"; "x7"]%string in
  let vector := negb (Z.land (r "x1"%string) (Z.shiftl 1 32) =? 0) in
  let send_count := Z.shiftr (r "x2"%string) 32 in
  let make := Arguments registers (r "x1"%string) vector send_count (Z.land (r "x6"%string) 0xFFFFFFFF)
    (Z.land (r "x3"%string) 0xFFFFFFFF) (Z.shiftr (r "x3"%string) 32) (Z.land (r "x4"%string) 0xFFFFFFFF) (Z.shiftr (r "x4"%string) 32)
    (Z.land (r "x5"%string) 0xFFFFFFFF) (Z.shiftr (r "x5"%string) 32) (r "x7"%string) in
  if negb vector then make None (r "x0"%string) (r "x0"%string) (message_at f (r "x0"%string) send_count)
  else
    let raw := read f (r "x0"%string) 48 in
    let vectors := map (vector_of raw) (vector_offsets (zlen raw)) in
    match vectors with
    | first :: _ => make (Some (raw, vectors)) (x_data first) (x_receive_address first) (message_at f (x_data first) (x_send_size first))
    | [] => make (Some (raw, [])) 0 0 (message_at f 0 0)
    end.
(** [receive_size] of the buffer that is read on return. *)
Definition receive_size_of (a : arguments) : Z :=
  match a_vectors a with
  | Some (_, first :: _) => if x_receive_size first =? 0 then 0x400 else x_receive_size first
  | _ => 0x400
  end.

(** ** State *)

Record call := Call { c_call : Z; c_arguments : arguments; c_started : Z }.
(** The records; [Planted] is the line of a return witness. *)
Inductive event :=
  | Entry (call thread_pointer return_address : Z) (a : arguments) (time : Z)
  | Return (call thread_pointer return_address result elapsed : Z) (receive_name : Z) (receive_message : message) (time : Z)
  | Site (label : list Z) (thread_pointer pc lr sp : Z) (backtrace : list Z) (time : Z)
  | Planted (breakpoint : Z) (label : list Z) (address : Z).
Inductive callback := OnEntry | OnReturn | OnSite.
Record state := State {
  created : Z;
  bps : gmap Z (Z * callback);
  SLIDE : Z;
  THREAD_GROUP : Z;
  CALLS : Z;
  ACTIVE : gmap (Z * Z) (list call);
  RETURN_BPS : gmap Z Z;
  SITE_BPS : gmap Z (list Z);
  out : list event;
}.
Definition no_state : state := State 0 ∅ 0 0 0 ∅ ∅ ∅ [].
Definition set_calls v s := State (created s) (bps s) (SLIDE s) (THREAD_GROUP s) v (ACTIVE s) (RETURN_BPS s) (SITE_BPS s) (out s).
Definition set_active v s := State (created s) (bps s) (SLIDE s) (THREAD_GROUP s) (CALLS s) v (RETURN_BPS s) (SITE_BPS s) (out s).
Definition set_return_bps v s := State (created s) (bps s) (SLIDE s) (THREAD_GROUP s) (CALLS s) (ACTIVE s) v (SITE_BPS s) (out s).
Definition set_site_bps v s := State (created s) (bps s) (SLIDE s) (THREAD_GROUP s) (CALLS s) (ACTIVE s) (RETURN_BPS s) v (out s).
Abbreviation LM := (SE state).
Definition emit (e : event) : LM () :=
  update (λ s, State (created s) (bps s) (SLIDE s) (THREAD_GROUP s) (CALLS s) (ACTIVE s) (RETURN_BPS s) (SITE_BPS s) (out s ++ [e])).

Section tracer.
(** The identifier of the n-th breakpoint; [None]: it is not valid or has not
    exactly one location. *)
Variable alloc : Z → option Z.
Definition create (address : Z) (c : callback) (message : string) : LM Z :=
  s ← gets id;
  i ← lift (opt_or (alloc (created s)) (RuntimeError message));
  _ ← update (λ s, State (created s + 1) (<[i := (address, c)]> (bps s)) (SLIDE s) (THREAD_GROUP s) (CALLS s) (ACTIVE s) (RETURN_BPS s)
                     (SITE_BPS s) (out s));
  mret i.
Definition install_return (address : Z) : LM () :=
  s ← gets id;
  match RETURN_BPS s !! address with
  | Some _ => mret ()
  | None =>
      i ← create address OnReturn "failed lsd return breakpoint";
      _ ← update (λ s, set_return_bps (<[address := i]> (RETURN_BPS s)) s);
      emit (Planted i (u "LSD_MACH_MSG2_RETURN") address)
  end.

Section callbacks.
Variables (f : frame) (i : Z).
Definition on_entry : LM bool :=
  s ← gets id;
  if negb (is_lsd (SLIDE s) (THREAD_GROUP s) f) then mret false
  else
    _ ← update (λ s, set_calls (CALLS s + 1) s);
    s ← gets id;
    let thread_pointer := reg f "tpidr_el1" in
    let return_address := canonical (reg f "lr") in
    let a := arguments_of f in
    let key := (thread_pointer, return_address) in
    _ ← update (λ s, set_active (<[key := default [] (ACTIVE s !! key) ++ [Call (CALLS s) a (f_now f)]]> (ACTIVE s)) s);
    _ ← install_return return_address;
    _ ← emit (Entry (CALLS s) thread_pointer return_address a (f_now f));
    mret false.
Definition on_return : LM bool :=
  s ← gets id;
  if negb (is_lsd (SLIDE s) (THREAD_GROUP s) f) then mret false
  else
    let thread_pointer := reg f "tpidr_el1" in
    let return_address := canonical (reg f "pc") in
    let key := (thread_pointer, return_address) in
    let pending := default [] (ACTIVE s !! key) in
    match last pending with
    | None => mret false
    | Some c =>
        let pending := removelast pending in
        _ ← update (set_active (if bool_decide (pending = []) then delete key (ACTIVE s) else <[key := pending]> (ACTIVE s)));
        let a := c_arguments c in
        _ ← emit (Return (c_call c) thread_pointer return_address (reg f "x0") (f_now f - c_started c) (a_receive_name a)
                    (message_at f (a_receive_address a) (receive_size_of a)) (f_now f));
        mret false
    end.
Definition on_site : LM bool :=
  s ← gets id;
  if negb (is_lsd (SLIDE s) (THREAD_GROUP s) f) then mret false
  else
    _ ← emit (Site (default (u "site") (SITE_BPS s !! i)) (reg f "tpidr_el1") (reg f "pc") (canonical (reg f "lr")) (reg f "sp")
                (map canonical (take 32 (f_pcs f))) (f_now f));
    mret false.
End callbacks.
Definition run_callback (c : callback) (f : frame) (i : Z) : LM bool :=
  match c with OnEntry => on_entry f | OnReturn => on_return f | OnSite => on_site f i end.

Definition install_site (address : Z) (label : list Z) : LM Z :=
  i ← create address OnSite "failed lsd site breakpoint";
  _ ← update (λ s, set_site_bps (<[i := label]> (SITE_BPS s)) s);
  _ ← emit (Planted i label address);
  mret i.
Definition install (slide thread_group : Z) : LM Z :=
  _ ← update (λ s, State (created s) (bps s) slide thread_group (CALLS s) (ACTIVE s) (RETURN_BPS s) (SITE_BPS s) (out s));
  i ← create (slide + MACH_MSG2_TRAP) OnEntry "failed lsd mach_msg2 breakpoint";
  _ ← emit (Planted i (u "LSD_MACH_MSG2_ENTRY") (slide + MACH_MSG2_TRAP));
  mret i.

(** What can happen: the installation, sites, and callbacks at breakpoints.
    The index says that none has raised. *)
Inductive reachable : bool → state → Prop :=
  | r_install slide thread_group :
      let r := install slide thread_group no_state in reachable (is_ok r.1) r.2
  | r_site quiet s address label :
      reachable quiet s → let r := install_site address label s in reachable (quiet && is_ok r.1) r.2
  | r_hit quiet s i a c f :
      reachable quiet s → bps s !! i = Some (a, c) → let r := run_callback c f i s in reachable (quiet && is_ok r.1) r.2.
End tracer.

(** ** The records *)

(** The calls that are open, by thread and return address, and the number of
    the last one; what a record adds to them, when it may follow. *)
Abbreviation open := (gmap (Z * Z) (list call)).
Definition leave (key : Z * Z) (pending : list call) (o : open) : open :=
  if bool_decide (pending = []) then delete key o else <[key := pending]> o.
Definition follow (p : option (Z * open)) (e : event) : option (Z * open) :=
  '(n, o) ← p;
  match e with
  | Entry call tp ra a time =>
      if call =? n + 1 then Some (call, <[(tp, ra) := default [] (o !! (tp, ra)) ++ [Call call a time]]> o) else None
  | Return call tp ra _ elapsed receive_name m time =>
      c ← last (default [] (o !! (tp, ra)));
      if bool_decide ((call, elapsed, receive_name) = (c_call c, time - c_started c, a_receive_name (c_arguments c))
                      ∧ (m_address m, m_requested m) = (a_receive_address (c_arguments c), receive_size_of (c_arguments c)))
      then Some (n, leave (tp, ra) (removelast (default [] (o !! (tp, ra)))) o) else None
  | Site _ _ _ _ _ _ _ | Planted _ _ _ => Some (n, o)
  end.
Definition replay (l : list event) : option (Z * open) := foldl follow (Some (0, ∅)) l.
Lemma lsd_replay_snoc l e : replay (l ++ [e]) = follow (replay l) e.
Proof. unfold replay. by rewrite foldl_app. Qed.
#[local] Arguments replay : simpl never.

Section records.
Context (alloc : Z → option Z).
Definition told (s : state) : Prop := replay (out s) = Some (CALLS s, ACTIVE s).
(** A step that prints no call and keeps the tables tells nothing new. *)
Abbreviation W m := (wp m (λ _, told) (λ _ _, True)).
Lemma create_then {B} a c message (K : Z → LM B) s :
  (∀ i s', CALLS s' = CALLS s → ACTIVE s' = ACTIVE s → out s' = out s → W (K i) s') → W (create alloc a c message ≫= K) s.
Proof.
  intros HK. apply wp_bind. unfold create. apply wp_bind, wp_gets, wp_bind, wp_lift; [|done]. intros i _.
  apply wp_bind, wp_update, wp_ret. by apply HK.
Qed.
Lemma install_return_then {B} ra (K : () → LM B) (Q : B → state → Prop) s :
  (∀ s', CALLS s' = CALLS s → ACTIVE s' = ACTIVE s → replay (out s') = replay (out s) → wp (K ()) Q (λ _ _, True) s') →
  wp (install_return alloc ra ≫= K) Q (λ _ _, True) s.
Proof.
  intros HK. apply wp_bind. unfold install_return. apply wp_bind, wp_gets. unfold id. destruct (RETURN_BPS s !! ra); [by apply wp_ret, HK|].
  apply wp_bind. unfold create. apply wp_bind, wp_gets, wp_bind, wp_lift; [|done]. intros i _. apply wp_bind, wp_update, wp_ret, wp_bind, wp_update, wp_update.
  apply HK; [done..|]. cbn. rewrite lsd_replay_snoc. destruct (replay (out s)) as [[]|]; done.
Qed.
Lemma on_entry_told f s : told s → W (on_entry alloc f) s.
Proof.
  intros Hs. unfold on_entry. apply wp_bind, wp_gets. destruct (is_lsd _ _ _); cbn [negb]; [|by apply wp_ret].
  apply wp_bind, wp_update, wp_bind, wp_gets. cbv zeta. apply wp_bind, wp_update. apply install_return_then. intros s' H1 H2 H3.
  apply wp_bind, wp_update, wp_ret. unfold told in *. cbn in *. rewrite lsd_replay_snoc, H3, Hs. cbn. by rewrite Z.eqb_refl, H1, H2.
Qed.
Lemma on_return_told f s : told s → W (on_return f) s.
Proof.
  intros Hs. unfold on_return. apply wp_bind, wp_gets. destruct (is_lsd _ _ _); cbn [negb]; [|by apply wp_ret]. cbv zeta. change (id s) with s.
  destruct (last _) as [c|] eqn:Hl; [|by apply wp_ret]. apply wp_bind, wp_update, wp_bind, wp_update, wp_ret.
  unfold told in *. cbn [out CALLS ACTIVE set_active]. rewrite lsd_replay_snoc, Hs. cbn [follow mbind option_bind]. rewrite Hl. cbn [mbind option_bind].
  by rewrite bool_decide_true.
Qed.
Lemma on_site_told f i s : told s → W (on_site f i) s.
Proof.
  intros Hs. unfold on_site. apply wp_bind, wp_gets. destruct (is_lsd _ _ _); cbn [negb]; [|by apply wp_ret].
  apply wp_bind, wp_update, wp_ret. unfold told in *. cbn. by rewrite lsd_replay_snoc, Hs.
Qed.
Lemma told_ok {A} (m : LM A) s : W m s → is_ok (m s).1 = true → told (m s).2.
Proof. intros Hm. unfold wp in Hm. destruct (m s) as [[a|e] s']; [done|]. by intros. Qed.
Lemma reachable_told s : reachable alloc true s → told s.
Proof.
  remember true as quiet eqn:Hq. induction 1 as [slide group r|quiet s address label Hs IH r|quiet s i a c f Hs IH Hb r].
  - apply told_ok; [|done]. unfold install. apply wp_bind, wp_update, create_then. intros i s' H1 H2 H3. apply wp_bind, wp_update, wp_ret.
    unfold told. cbn in *. by rewrite lsd_replay_snoc, H3, H1, H2.
  - apply andb_true_iff in Hq as [-> Hr]. apply told_ok; [|done]. specialize (IH eq_refl). unfold install_site. apply create_then. intros i s' H1 H2 H3.
    apply wp_bind, wp_update, wp_bind, wp_update, wp_ret. unfold told in *. cbn. by rewrite lsd_replay_snoc, H3, IH, H1, H2.
  - apply andb_true_iff in Hq as [-> Hr]. apply told_ok; [|done]. specialize (IH eq_refl).
    destruct c; [by apply on_entry_told|by apply on_return_told|by apply on_site_told].
Qed.
End records.

(** C22: The records are a history of calls.  In every state that is reached
    without an exception, the records replay from nothing: the entries are
    numbered without a gap; each return is that of the youngest open call of
    its thread and return address, with the receive name of that call's
    arguments, the receive buffer they name and the time since its entry; and
    the calls that are open in the end are the ones the tables hold. *)
Theorem records_replay alloc s : reachable alloc true s → replay (out s) = Some (CALLS s, ACTIVE s).
Proof. apply reachable_told. Qed.

(** The two tracers of [mach_msg2] decode the packed arguments alike. *)
Lemma decoders_agree f m :
  mach_msg2_arguments f = Ok m →
  let a := arguments_of f in
  (a_options a, a_vector a, a_remote_port a, a_local_port a, a_voucher_port a, a_message_id a, a_descriptor_count a, a_receive_name a,
   a_send_count a, a_receive_count a, a_timeout a) =
  (mm_options m, is_vector m, remote_port m, local_port m, voucher_port m, msgh_id m, descriptor_count m, receive_name m,
   send_size_or_vector_count m, receive_size_or_vector_count m, or0 (timeout m)).
Proof.
  intros Hm a. subst a. unfold mach_msg2_arguments in Hm. simpl_res. unfold arguments_of, reg, lo32, hi32. cbn [mm_options is_vector remote_port local_port
    voucher_port msgh_id descriptor_count receive_name send_size_or_vector_count receive_size_or_vector_count timeout].
  destruct (negb (Z.land (or0 (f_reg f (u "x1"))) (Z.shiftl 1 32) =? 0)); cbn [negb]; [|done]. by destruct (map _ _).
Qed.

(** ** A sample *)

(** A thread of [lsd] calls twice from one place, the second time within the
    first, and both return. *)
Definition sample_frame (lr pc : Z) : frame :=
  Frame (λ r, if bool_decide (r = u "tpidr_el1") then Some 0x7000 else if bool_decide (r = u "lr") then Some lr
    else if bool_decide (r = u "pc") then Some pc else if bool_decide (r = u "x5") then Some (Z.shiftl 0x1203 32) else Some 0)
    (λ a n, if bool_decide ((a, n) = (0x7290, 8)) then Some (le_bytes 8 0xBEEF) else None) [] 3 5000.
Definition sample_alloc (n : Z) : option Z := Some (n + 1).
Abbreviation hit c i lr pc s := (run_callback sample_alloc c (sample_frame lr pc) i s).
Lemma hit_again c i lr pc s a :
  reachable sample_alloc true s → bps s !! i = Some (a, c) → is_ok (hit c i lr pc s).1 = true → reachable sample_alloc true (hit c i lr pc s).2.
Proof.
  intros Hs Hb Hok. pose proof (r_hit sample_alloc true s i a c (sample_frame lr pc) Hs Hb) as H. cbv zeta in H. rewrite Hok in H. exact H.
Qed.
Abbreviation s0 := (install sample_alloc 0x1000 0xBEEF no_state).2.
Abbreviation s1 := (hit OnEntry 1 0x4444 0 s0).2.
Abbreviation s2 := (hit OnEntry 1 0x4444 0 s1).2.
Abbreviation s3 := (hit OnReturn 2 0 0x4444 s2).2.
Abbreviation s4 := (hit OnReturn 2 0 0x4444 s3).2.
Lemma sample_calls_reachable : reachable sample_alloc true s4.
Proof.
  assert (reachable sample_alloc true s0) as H0 by exact (r_install sample_alloc 0x1000 0xBEEF).
  assert (reachable sample_alloc true s1) as H1 by (apply (hit_again _ _ _ _ _ (0x237CCFCCC + 0x1000)); [exact H0|vm_compute; reflexivity..]).
  assert (reachable sample_alloc true s2) as H2 by (apply (hit_again _ _ _ _ _ (0x237CCFCCC + 0x1000)); [exact H1|vm_compute; reflexivity..]).
  assert (reachable sample_alloc true s3) as H3 by (apply (hit_again _ _ _ _ _ 0x4444); [exact H2|vm_compute; reflexivity..]).
  apply (hit_again _ _ _ _ _ 0x4444); [exact H3|vm_compute; reflexivity..].
Qed.
Definition call_numbers (l : list event) : list (bool * Z) :=
  omap (λ e, match e with Entry n _ _ _ _ => Some (true, n) | Return n _ _ _ _ _ _ _ => Some (false, n) | _ => None end) l.
Lemma records_replay_witness :
  call_numbers (out s4) = [(true, 1); (true, 2); (false, 2); (false, 1)] ∧ replay (out s4) = Some (CALLS s4, ACTIVE s4).
Proof. split; [vm_compute; reflexivity|]. exact (records_replay sample_alloc s4 sample_calls_reachable). Defined.

(** A call whose return witness cannot be planted is not recorded, but stays
    open: once the witness is there, its number is reported to return. *)
Definition failing_alloc (n : Z) : option Z := if n =? 0 then Some 1 else None.
Lemma unrecorded_call_returns :
  let a0 := (install failing_alloc 0x1000 0xBEEF no_state).2 in
  let a1 := run_callback failing_alloc OnEntry (sample_frame 0x4444 0) 1 a0 in
  let a2 := (hit OnEntry 1 0x4444 0 a1.2).2 in
  let a3 := (hit OnReturn 2 0 0x4444 a2).2 in
  a1.1 = Raise (RuntimeError "failed lsd return breakpoint")
  ∧ call_numbers (out (hit OnReturn 2 0 0x4444 a3).2) = [(true, 2); (false, 2); (false, 1)].
Proof. vm_compute. split; reflexivity. Qed.
