(* ===== verification/NativeInput.v ===== *)
(** * The native input host: [tools/input/native_input.py]

    Host events go to QEMU over QMP, and QEMU's status file says how far they
    came: queued, sent, acknowledged by the guest's helper, dispatched.  The
    host is a state with a clock in microseconds, a script of what the next
    reads of the status file give and how long they take, the chunks the two
    sockets deliver, the screen dumps, and the list of what was done and seen.
    A socket whose script is used up times out.  Reports keep the counters; the
    durations measured on the way, and the text printed, are left out. *)

From stdpp Require Import base tactics list list_numbers strings.
From Stdlib Require Import Strings.Byte.
From S2P Require Import Prelude PyState PyBytes PyStr Sha256.
Open Scope Z_scope.

(** ** Coordinates *)

Definition FB_W : Z := 1179.
Definition FB_H : Z := 2556.

(** [round(p / q)]: to the nearest, ties to even.  The division of the source
    is a double; for operands below [2 ^ 40] and divisors below [2 ^ 10] or so
    its error is too small to move a quotient across a tie. *)
Definition round_div (p q : Z) : Z :=
  let f := p / q in
  let r := p mod q in
  if 2 * r <? q then f else if q <? 2 * r then f + 1 else if Z.even f then f else f + 1.
Definition norm (value : list Z) (size : Z) (px : bool) : res Z :=
  v ← int10 value;
  Ok (if px then round_div (v * 32767) size else v).
(** The samples of a swipe. *)
Definition sample (n a b i : Z) : Z := round_div (a * (n - 1) + (b - a) * i) (n - 1).
Definition swipe_points (steps x1 y1 x2 y2 : Z) : list (Z * Z) :=
  let n := Z.max 2 steps in
  map (λ i, (sample n x1 x2 i, sample n y1 y2 i)) (seqZ 0 n).

(** ** The host *)

(** The object of the status file, with the fields the tool reads. *)
Record status := Status {
  guest_state : list Z; inflight : Z; queue_len : Z; sent : Z; acked : Z; ack_failed : Z; ack_not_ready : Z;
  ack_rejected : Z; timeouts : Z; coalesced : Z; pings : Z; dispatched : Z; dispatch_failed : Z;
  contact_sent : bool; probe_open : bool; input_to_present_samples : Z; epoch : Z;
}.
Inductive ievent :=
  | Abs (axis : string) (value : Z)
  | Btn (button : string) (down : bool)
  | Key (qcode : string) (down : bool).
Inductive act :=
  | QmpConnect
  | QmpCapabilities
  | Input (events : list ievent)
  | HmpConnect
  | HmpCommand (text : list Z)
  | Slept (ms parts : Z)
  | Seen (s : status).
Record host := Host {
  clock : Z;
  reads : list (N * option status);
  qmp_in : option (list (list byte));
  qmp_buf : list byte;
  hmp_in : option (list (list byte));
  shots : list (option (list byte));
  acts : list act;
}.
Abbreviation HM := (SE host).

Definition act_ (a : act) (h : host) : host :=
  Host (clock h) (reads h) (qmp_in h) (qmp_buf h) (hmp_in h) (shots h) (acts h ++ [a]).
Definition note (a : act) : HM () := update (act_ a).
Definition set_qmp (cs : option (list (list byte))) (buf : list byte) (h : host) : host :=
  Host (clock h) (reads h) cs buf (hmp_in h) (shots h) (acts h).
Definition set_hmp (cs : option (list (list byte))) (h : host) : host :=
  Host (clock h) (reads h) (qmp_in h) (qmp_buf h) cs (shots h) (acts h).
Definition pass_time (us : Z) (h : host) : host :=
  Host (clock h + us) (reads h) (qmp_in h) (qmp_buf h) (hmp_in h) (shots h) (acts h).
(** [time.sleep(ms / parts / 1000)]: not less than asked for. *)
Definition sleep (ms parts : Z) : HM () :=
  if ms <? 0 then raise (ValueError "sleep length must be non-negative")
  else _ ← note (Slept ms parts); update (pass_time ((ms * 1000 + parts - 1) / parts)).

(** ** QMP *)

(** What a reply line decodes to, as far as it is looked at. *)
Record reply := Reply { is_event : bool; is_error : bool }.
Definition newline : byte := x0a.

Section qmp.
(** [json.loads]: [None] when the line does not decode to an object. *)
Variable loads : list byte → option reply.

(** [recv]: the line, what is left in the buffer and on the socket. *)
Fixpoint recv_line (chunks : list (list byte)) (buf : list byte) : res (list byte) * list byte * list (list byte) :=
  if bool_decide (newline ∈ buf) then (Ok (before newline buf), zdrop (zlen (before newline buf) + 1) buf, chunks)
  else match chunks with
       | [] => (Raise (TimeoutError "timed out"), buf, [])
       | [] :: chunks => (Raise (RuntimeError "QMP closed"), buf, chunks)
       | data :: chunks => recv_line chunks (buf ++ data)
       end.
Definition qmp_recv : HM reply :=
  cs ← gets qmp_in; buf ← gets qmp_buf;
  cs ← lift (opt_or cs OSError);
  let '(line, buf, cs) := recv_line cs buf in
  _ ← update (set_qmp (Some cs) buf);
  line ← lift line;
  lift (opt_or (loads line) JSONDecodeError).
(** The [while True] of [execute]. *)
Fixpoint await_reply (fuel : nat) : HM () :=
  match fuel with
  | O => raise OutOfFuel
  | S fuel =>
      r ← qmp_recv;
      if is_event r then await_reply fuel
      else if is_error r then raise (RuntimeError "error reply")
      else mret ()
  end.
(** Every line takes a byte of what is still to come. *)
Definition unread (h : host) : nat := length (qmp_buf h ++ concat (default [] (qmp_in h))).
Definition execute (a : act) : HM () :=
  _ ← note a;
  n ← gets unread;
  await_reply (S n).
Definition qmp_connect : HM () :=
  _ ← note QmpConnect;
  _ ← qmp_recv;
  execute QmpCapabilities.

(** ** The monitor *)

(** [buf.rstrip().endswith(b'(qemu)')]. *)
Definition is_blank (x : byte) : bool := (b2z x =? 32) || ((9 <=? b2z x) && (b2z x <=? 13)).
Definition at_prompt (buf : list byte) : bool :=
  startswith (reverse (b "(qemu)")) (dropwhile is_blank (reverse buf)).
Fixpoint read_prompt (chunks : list (list byte)) (buf : list byte) : res (list byte) * list (list byte) :=
  if at_prompt buf then (Ok buf, chunks)
  else match chunks with
       | [] => (Raise (TimeoutError "timed out"), [])
       | [] :: chunks => (Ok buf, chunks)
       | chunk :: chunks => read_prompt chunks (buf ++ chunk)
       end.
Definition hmp_read : HM (list Z) :=
  cs ← gets hmp_in;
  cs ← lift (opt_or cs OSError);
  let '(text, cs) := read_prompt cs [] in
  _ ← update (set_hmp (Some cs));
  text ← lift text;
  mret (utf8_replace text).
Definition hmp_connect : HM () := _ ← note HmpConnect; _ ← hmp_read; mret ().
Definition screendump (path : list Z) : HM (list Z) :=
  _ ← note (HmpCommand (u "screendump " ++ path ++ u " -f png"));
  _ ← hmp_read;
  shot ← gets (λ h, mjoin (head (shots h)));
  _ ← update (λ h, Host (clock h) (reads h) (qmp_in h) (qmp_buf h) (hmp_in h) (tail (shots h)) (acts h));
  data ← lift (opt_or shot OSError);
  mret (sha256_hex data).

(** ** Waiting for the status file *)

(** [read_status]; what is read is noted. *)
Definition read_status : HM (option status) :=
  r ← gets (λ h, default (0%N, None) (head (reads h)));
  _ ← update (λ h, Host (clock h + Z.of_N r.1) (tail (reads h)) (qmp_in h) (qmp_buf h) (hmp_in h) (shots h) (acts h));
  match r.2 with
  | Some s => _ ← note (Seen s); mret (Some s)
  | None => mret None
  end.
Fixpoint wait_from (fuel : nat) (deadline : Z) (predicate : status → bool) (what : string) : HM status :=
  now ← gets clock;
  if now <? deadline then
    match fuel with
    | O => raise OutOfFuel
    | S fuel =>
        last ← read_status;
        match last with
        | Some s =>
            if predicate s then mret s
            else _ ← update (pass_time 50000); wait_from fuel deadline predicate what
        | None => _ ← update (pass_time 50000); wait_from fuel deadline predicate what
        end
    end
  else raise (TimeoutError what).
(** Every pass takes 50 ms. *)
Definition wait_status (predicate : status → bool) (timeout : Z) (what : string) : HM status :=
  now ← gets clock;
  wait_from (Z.to_nat (timeout / 50000 + 1)) (now + timeout) predicate what.

(** ** The commands *)

Record options := Options {
  px : bool; hold_ms : Z; steps : Z; frames : option (list Z); frame_wait : Z; settle : Z;
  ready_timeout : Z; ack_timeout : Z;
}.
Variable o : options.

Definition send (x y : Z) (down : bool) : HM () := execute (Input [Abs "x" x; Abs "y" y; Btn "left" down]).
Definition move (x y : Z) : HM () := execute (Input [Abs "x" x; Abs "y" y]).
Definition ready (s : status) : bool := bool_decide (guest_state s = u "R").
Definition idle (s : status) : bool := (inflight s =? 0) && (queue_len s =? 0).

(** What the commands begin with, and the frame taken before. *)
Definition frame_of (suffix : string) : HM (option (list Z)) :=
  match frames o with
  | None | Some [] => mret None
  | Some prefix => d ← screendump (prefix ++ u suffix); mret (Some d)
  end.
Definition open_session : HM (status * option (list Z)) :=
  before ← wait_status ready (ready_timeout o) "guest helper readiness";
  _ ← qmp_connect;
  _ ← hmp_connect;
  frame ← frame_of "-before.png";
  mret (before, frame).
Definition frame_changed (before after : option (list Z)) : option bool :=
  match before, after with
  | Some b, Some a => Some (negb (bool_decide (b = a)))
  | _, _ => None
  end.

Record key_report := KeyReport {
  k_sent : Z; k_acked : Z; k_ack_failed : Z; k_timeouts : Z; k_frame_changed : option bool;
}.
Definition key_event (qcode : string) (button : option string) (down : bool) : ievent :=
  match button with Some name => Btn name down | None => Key qcode down end.
Definition key_press (qcode : string) (button : option string) : HM key_report :=
  '(before, frame) ← open_session;
  _ ← execute (Input [key_event qcode button true]);
  _ ← sleep (hold_ms o) 1;
  _ ← execute (Input [key_event qcode button false]);
  after ← wait_status (λ s, idle s && (sent before + 2 <=? sent s)) (ack_timeout o) "button acknowledgement";
  _ ← match frame with Some _ => sleep (settle o) 1 | None => mret () end;
  frame' ← frame_of "-after.png";
  mret (KeyReport (sent after - sent before) (acked after - acked before) (ack_failed after - ack_failed before)
          (timeouts after - timeouts before) (frame_changed frame frame')).

Record wheel_report := WheelReport {
  w_sent : Z; w_dispatch_failed : Z; w_timeouts : Z; w_contact : bool; w_frame_changed : option bool;
}.
Definition notch (notches : Z) : list ievent :=
  let name := if 0 <? notches then "wheel-up"%string else "wheel-down"%string in [Btn name true; Btn name false].
Definition wheel (x y notches : Z) : HM wheel_report :=
  '(before, frame) ← open_session;
  _ ← move x y;
  _ ← for_each (λ _, execute (Input (notch notches))) (seq 0 (Z.to_nat (Z.abs notches)));
  after ← wait_status (λ s, idle s && (sent before <? sent s) && negb (contact_sent s)
      && (dispatched before + dispatch_failed before <? dispatched s + dispatch_failed s)) (ack_timeout o) "wheel gesture dispatch";
  _ ← match frame with Some _ => sleep (settle o) 1 | None => mret () end;
  frame' ← frame_of "-after.png";
  mret (WheelReport (sent after - sent before) (dispatch_failed after - dispatch_failed before)
          (timeouts after - timeouts before) (contact_sent after) (frame_changed frame frame')).

(** [try: ... except TimeoutError]. *)
Definition catch_timeout {A} (m : HM A) : HM (A + string) := λ h,
  match m h with
  | (Ok a, h) => (Ok (inl a), h)
  | (Raise (TimeoutError msg), h) => (Ok (inr msg), h)
  | (Raise e, h) => (Raise e, h)
  end.

Record gesture_report := GestureReport {
  g_sent : Z; g_acked : Z; g_ack_failed : Z; g_ack_not_ready : Z; g_ack_rejected : Z; g_timeouts : Z; g_coalesced : Z;
  g_dispatched : Z; g_dispatch_failed : Z; g_dispatch_note : option string; g_epoch : Z; g_present_note : option string;
  g_frame_changed : option bool;
}.
(** Every record of the gesture is acknowledged, and the contact released. *)
Definition gesture_acked (before s : status) : bool :=
  idle s && (sent before <? sent s) && negb (contact_sent s).
Definition done_since (before s : status) : Z :=
  (dispatched s + dispatch_failed s) - (dispatched before + dispatch_failed before).
Definition expected_since (before s : status) : Z := (sent s - sent before) - (pings s - pings before).

Definition presented (before : status) : HM (option string) :=
  if frame_wait o =? 0 then mret None
  else
    r ← catch_timeout (wait_status (λ s, negb (probe_open s)
          && (input_to_present_samples before <? input_to_present_samples s)) (frame_wait o) "presented frame after input");
    _ ← sleep (settle o) 1;
    mret (match r with inl _ => None | inr note => Some note end).
Definition drag (points : list (Z * Z)) : HM () :=
  match points with
  | [] => raise IndexError
  | p :: rest =>
      _ ← send p.1 p.2 true;
      let step := Z.max 1 (zlen points - 1) in
      _ ← for_each (λ q : Z * Z, _ ← sleep (hold_ms o) step; move q.1 q.2) rest;
      _ ← when (zlen points =? 1) (sleep (hold_ms o) 1);
      let q := List.last points (0, 0) in
      send q.1 q.2 false
  end.
Definition gesture (points : list (Z * Z)) : HM gesture_report :=
  '(before, frame) ← open_session;
  _ ← drag points;
  after ← wait_status (gesture_acked before) (ack_timeout o) "gesture acknowledgement";
  let expected := expected_since before after in
  r ← catch_timeout (wait_status (λ s, expected <=? done_since before s) (ack_timeout o) "HID dispatch completion");
  let '(after, dispatch_note) := match r with inl s => (s, None) | inr note => (after, Some note) end in
  present_note ← presented before;
  frame' ← frame_of "-after.png";
  mret (GestureReport (sent after - sent before) (acked after - acked before) (ack_failed after - ack_failed before)
          (ack_not_ready after - ack_not_ready before) (ack_rejected after - ack_rejected before)
          (timeouts after - timeouts before) (coalesced after - coalesced before)
          (done_since before after) (dispatch_failed after - dispatch_failed before) dispatch_note (epoch after)
          present_note (frame_changed frame frame')).

(** ** [main] *)

Definition key_ok (r : key_report) : bool := (k_sent r <=? k_acked r) && (k_ack_failed r =? 0) && (k_timeouts r =? 0).
Definition wheel_ok (r : wheel_report) : bool := (w_dispatch_failed r =? 0) && (w_timeouts r =? 0) && negb (w_contact r).
Definition gesture_ok (r : gesture_report) : bool :=
  (g_sent r <=? g_acked r) && (g_ack_failed r =? 0) && (g_timeouts r =? 0) && (g_dispatch_failed r =? 0)
  && bool_decide (g_dispatch_note r = None).

Inductive command :=
  | Tap (x y : list Z)
  | Swipe (x1 y1 x2 y2 : list Z)
  | Home (button : option string)
  | Wheel (x y : list Z) (notches : Z)
  | ShowStatus
  | WaitReady (timeout : Z)
  | Frame (path : list Z).
(** The command's verdict: [true] exits with 0, [false] with 1. *)
Definition verdict {A} (ok : A → bool) (r : A + string) : bool := match r with inl a => ok a | inr _ => false end.
Definition points_of (c : command) : res (list (Z * Z)) :=
  match c with
  | Tap x y => x ← norm x FB_W (px o); y ← norm y FB_H (px o); Ok [(x, y)]
  | Swipe x1 y1 x2 y2 =>
      x1 ← norm x1 FB_W (px o); y1 ← norm y1 FB_H (px o);
      x2 ← norm x2 FB_W (px o); y2 ← norm y2 FB_H (px o);
      Ok (swipe_points (steps o) x1 y1 x2 y2)
  | _ => Ok []
  end.
Definition main (c : command) : HM bool :=
  match c with
  | ShowStatus => _ ← read_status; mret true
  | WaitReady timeout => _ ← wait_status ready timeout "readiness"; mret true
  | Frame path => _ ← hmp_connect; _ ← screendump path; mret true
  | Home button => r ← catch_timeout (key_press "f5" button); mret (verdict key_ok r)
  | Wheel x y notches =>
      r ← catch_timeout (x ← lift (norm x FB_W (px o)); y ← lift (norm y FB_H (px o)); wheel x y notches);
      mret (verdict wheel_ok r)
  | Tap _ _ | Swipe _ _ _ _ =>
      points ← lift (points_of c);
      r ← catch_timeout (gesture points);
      mret (verdict gesture_ok r)
  end.
End qmp.

(** ** Rounding *)

Lemma round_div_near p q : 0 < q → - q ≤ 2 * (round_div p q * q - p) ≤ q.
Proof.
  intros Hq. pose proof (Z.div_mod p q ltac:(lia)) as E. pose proof (Z.mod_pos_bound p q Hq) as Hr. unfold round_div.
  destruct (Z.ltb_spec (2 * (p mod q)) q); [nia|]. destruct (Z.ltb_spec q (2 * (p mod q))); [nia|].
  destruct (Z.even (p / q)); nia.
Qed.
Lemma round_div_unique p q r : 0 < q → - q < 2 * (r * q - p) < q → round_div p q = r.
Proof. intros Hq Hr. pose proof (round_div_near p q Hq). nia. Qed.
Lemma pixel_div_exact v q : 0 < q → round_div (v * q) q = v.
Proof. intros Hq. apply round_div_unique; [done|]. lia. Qed.
Lemma round_div_mono p p' q : 0 < q → p ≤ p' → round_div p q ≤ round_div p' q.
Proof.
  intros Hq Hp. destruct (decide (round_div p q ≤ round_div p' q)) as [|Hlt]; [done|]. exfalso.
  pose proof (round_div_near p q Hq). pose proof (round_div_near p' q Hq).
  assert (round_div p q = round_div p' q + 1 ∧ p = p') as [Hs <-] by nia. lia.
Qed.

(** a pixel survives the trip: for a display narrower than QEMU's
    coordinate range, the normalised coordinate of a pixel lies in the range,
    grows with the pixel, and scaling it back to the display as the guest does
    gives the pixel. *)
Theorem pixel_round_trip v size :
  0 < size < 32767 → 0 ≤ v ≤ size →
  let n := round_div (v * 32767) size in
  0 ≤ n ≤ 32767 ∧ round_div (n * size) 32767 = v ∧ (∀ v', v ≤ v' → n ≤ round_div (v' * 32767) size).
Proof.
  intros Hs Hv n. pose proof (round_div_near (v * 32767) size ltac:(lia)) as Hn. fold n in Hn. split_and!.
  - rewrite <-(pixel_div_exact 0 size) by lia. apply round_div_mono; lia.
  - rewrite <-(pixel_div_exact 32767 size) by lia. apply round_div_mono; nia.
  - apply round_div_unique; [lia|]. lia.
  - intros v' Hv'. apply round_div_mono; lia.
Qed.
Lemma pixel_round_trip_witness : round_div (round_div (590 * 32767) FB_W * FB_W) 32767 = 590.
Proof. apply (pixel_round_trip 590 FB_W); unfold FB_W; lia. Defined.

Lemma sample_first n a c : 1 < n → sample n a c 0 = a.
Proof. intros Hn. unfold sample. replace (a * (n - 1) + (c - a) * 0) with (a * (n - 1)) by lia. apply pixel_div_exact. lia. Qed.
Lemma sample_last n a c : 1 < n → sample n a c (n - 1) = c.
Proof.
  intros Hn. unfold sample. replace (a * (n - 1) + (c - a) * (n - 1)) with (c * (n - 1)) by lia.
  apply pixel_div_exact. lia.
Qed.
Lemma sample_between n a c i j : 1 < n → i ≤ j → 0 ≤ i → j ≤ n - 1 →
  (a ≤ c → a ≤ sample n a c i ≤ sample n a c j ∧ sample n a c j ≤ c)
  ∧ (c ≤ a → c ≤ sample n a c j ≤ sample n a c i ∧ sample n a c i ≤ a).
Proof.
  intros Hn Hij Hi Hj. pose proof (sample_first n a c Hn) as H0. pose proof (sample_last n a c Hn) as H1.
  assert (∀ k l, k ≤ l → (a ≤ c → sample n a c k ≤ sample n a c l) ∧ (c ≤ a → sample n a c l ≤ sample n a c k)) as Hmono.
  { intros k l Hkl. unfold sample. split; intros Hac; apply round_div_mono; nia. }
  pose proof (Hmono 0 i Hi). pose proof (Hmono i j Hij). pose proof (Hmono j (n - 1) Hj). lia.
Qed.

(** A swipe has the samples asked for, two at least; it begins at its first
    point and ends at its last, and its samples never leave the rectangle
    between them nor go back: from one to the next every coordinate moves
    towards the end. *)
Theorem swipe_monotone steps x1 y1 x2 y2 :
  let n := Z.max 2 steps in
  let ps := swipe_points steps x1 y1 x2 y2 in
  zlen ps = n ∧ head ps = Some (x1, y1) ∧ last ps = Some (x2, y2)
  ∧ ∀ i j p q, (i ≤ j)%nat → ps !! i = Some p → ps !! j = Some q →
      Z.min x1 x2 ≤ p.1 ≤ Z.max x1 x2 ∧ Z.min y1 y2 ≤ p.2 ≤ Z.max y1 y2
      ∧ Z.abs (x2 - q.1) ≤ Z.abs (x2 - p.1) ∧ Z.abs (y2 - q.2) ≤ Z.abs (y2 - p.2).
Proof.
  intros n ps. assert (1 < n) as Hn by lia.
  assert (∀ i, ps !! i = (λ k, (sample n x1 x2 k, sample n y1 y2 k)) <$> seqZ 0 n !! i) as Hlook.
  { intros i. apply list_lookup_fmap. }
  assert (zlen ps = n) as Hlen by (unfold zlen, ps, swipe_points; rewrite length_map, length_seqZ; lia).
  split_and!; [done| | |].
  - rewrite head_lookup, Hlook, lookup_seqZ_lt by lia. cbn. by rewrite !sample_first.
  - rewrite last_lookup, Hlook, lookup_seqZ_lt by (unfold zlen in Hlen; lia). cbn.
    replace (0 + Z.of_nat (Init.Nat.pred (length ps))) with (n - 1) by (unfold zlen in Hlen; lia). by rewrite !sample_last.
  - intros i j p q Hij Hp Hq. rewrite Hlook in Hp, Hq.
    apply fmap_Some in Hp as (k & Hk & ->), Hq as (l & Hl & ->). apply lookup_seqZ in Hk as [-> Hk], Hl as [-> Hl].
    cbn [fst snd].
    pose proof (sample_between n x1 x2 (0 + Z.of_nat i) (0 + Z.of_nat j) Hn ltac:(lia) ltac:(lia) ltac:(lia)).
    pose proof (sample_between n y1 y2 (0 + Z.of_nat i) (0 + Z.of_nat j) Hn ltac:(lia) ltac:(lia) ltac:(lia)).
    lia.
Qed.

(** ** Framing *)

Definition stream (h : host) : list byte := qmp_buf h ++ concat (default [] (qmp_in h)).

Lemma split_unique {A} `{EqDecision A} (x : A) l l' r r' :
  x ∉ l → x ∉ l' → l ++ x :: r = l' ++ x :: r' → l = l' ∧ r = r'.
Proof.
  intros Hl Hl' E. pose proof (before_app x l r Hl) as H. rewrite E, before_app in H by done. subst l'.
  split; [done|]. apply app_inv_head in E. by injection E.
Qed.
Lemma cut_line (x : byte) l r : x ∉ l → before x (l ++ x :: r) = l ∧ zdrop (zlen l + 1) (l ++ x :: r) = r.
Proof.
  intros Hl. split; [by apply before_app|].
  rewrite (cons_middle x l r), app_assoc. apply zdrop_app_exact. by rewrite zlen_app.
Qed.
Lemma first_line buf :
  newline ∈ buf → ∃ k, buf = before newline buf ++ newline :: k ∧ zdrop (zlen (before newline buf) + 1) buf = k.
Proof.
  intros Hin. pose proof (before_not_in newline buf) as Hb.
  destruct (before_prefix newline buf) as [E|[k E]]; [by rewrite <-E in Hb|]. exists k. split; [done|].
  rewrite E at 2. by apply cut_line.
Qed.
(** The line [recv] returns and what it leaves do not depend on how the bytes
    were cut into chunks. *)
Lemma recv_line_whole chunks buf line rest :
  [] ∉ chunks → newline ∉ line → buf ++ concat chunks = line ++ newline :: rest →
  ∃ buf' chunks', recv_line chunks buf = (Ok line, buf', chunks') ∧ buf' ++ concat chunks' = rest ∧ [] ∉ chunks'.
Proof.
  revert buf. induction chunks as [|data chunks IH]; intros buf Hne Hline E; cbn [recv_line].
  - cbn in E. rewrite app_nil_r in E. subst buf.
    rewrite bool_decide_true by (apply elem_of_app; right; apply list_elem_of_here).
    destruct (cut_line newline line rest Hline) as [-> ->].
    eexists _, _. split; [reflexivity|]. split; [|done]. apply app_nil_r.
  - case_bool_decide as Hin.
    + destruct (first_line buf Hin) as (k & Eb & ->). rewrite Eb, <-app_assoc in E.
      apply split_unique in E as [-> <-]; [|apply before_not_in|done].
      eexists _, _. done.
    + apply not_elem_of_cons in Hne as [Hd Hne]. destruct data as [|x data]; [done|].
      apply IH; [done|done|]. cbn [concat] in E. by rewrite <-E, <-app_assoc.
Qed.

(** ** What a run does *)

(** The input events among the actions. *)
Definition inputs (l : list act) : list (list ievent) := omap (λ a, match a with Input e => Some e | _ => None end) l.
Lemma inputs_app l k : inputs (l ++ k) = inputs l ++ inputs k.
Proof. apply omap_app. Qed.

(** Runs that send no input. *)
Definition quietly (h h' : host) : Prop := ∃ l, acts h' = acts h ++ l ∧ inputs l = [].
#[export] Instance quietly_refl : Reflexive quietly.
Proof. intros h. exists []. by rewrite app_nil_r. Qed.
#[export] Instance quietly_trans : Transitive quietly.
Proof.
  intros h1 h2 h3 (l & E1 & H1) (k & E2 & H2). exists (l ++ k).
  rewrite inputs_app, H1, H2, E2, E1. by rewrite app_assoc.
Qed.
(** Runs that do nothing that is noted. *)
Definition unnoted (h h' : host) : Prop := acts h' = acts h.
#[export] Instance unnoted_refl : Reflexive unnoted.
Proof. intros h. reflexivity. Qed.
#[export] Instance unnoted_trans : Transitive unnoted.
Proof. unfold unnoted. intros h1 h2 h3 H1 H2. congruence. Qed.
Lemma unnoted_quiet {A} (m : HM A) : Leads unnoted m → Leads quietly m.
Proof. intros H h. exists []. rewrite app_nil_r. split; [apply H|done]. Qed.
Class QuietAct (a : act) := quiet_act : inputs [a] = [].
#[export] Hint Extern 0 (QuietAct _) => (red; reflexivity) : typeclass_instances.
#[export] Instance quiet_note a `{!QuietAct a} : Leads quietly (note a).
Proof. intros h. by exists [a]. Qed.

#[export] Instance unnoted_qmp cs buf : Leads unnoted (update (set_qmp cs buf)).
Proof. intros h. reflexivity. Qed.
#[export] Instance unnoted_hmp cs : Leads unnoted (update (set_hmp cs)).
Proof. intros h. reflexivity. Qed.
#[export] Instance unnoted_time us : Leads unnoted (update (pass_time us)).
Proof. intros h. reflexivity. Qed.
#[export] Instance quiet_time us : Leads quietly (update (pass_time us)).
Proof. apply unnoted_quiet, _. Qed.

Section runs.
Variable loads : list byte → option reply.
Variable o : options.

#[local] Instance unnoted_recv : Leads unnoted (qmp_recv loads).
Proof.
  unfold qmp_recv. apply leads_bind; [apply _|apply _|]. intros cs. apply leads_bind; [apply _|apply _|]. intros buf.
  apply leads_bind; [apply _|apply _|]. intros cs'. destruct (recv_line cs' buf) as [[line buf'] cs'']. apply _.
Qed.
#[local] Instance unnoted_await n : Leads unnoted (await_reply loads n).
Proof. induction n as [|n IH]; cbn [await_reply]; apply _. Qed.
Lemma execute_acts a h : acts (execute loads a h).2 = acts h ++ [a].
Proof. apply (unnoted_await (S (unread (act_ a h))) (act_ a h)). Qed.
#[local] Instance quiet_execute a `{!QuietAct a} : Leads quietly (execute loads a).
Proof. intros h. exists [a]. by rewrite execute_acts. Qed.
#[local] Instance quiet_recv : Leads quietly (qmp_recv loads).
Proof. apply unnoted_quiet, _. Qed.
#[local] Instance quiet_connect : Leads quietly (qmp_connect loads).
Proof. unfold qmp_connect. apply _. Qed.
#[local] Instance quiet_read : Leads quietly hmp_read.
Proof.
  apply unnoted_quiet. unfold hmp_read. apply leads_bind; [apply _|apply _|]. intros cs.
  apply leads_bind; [apply _|apply _|]. intros cs'. destruct (read_prompt cs' []) as [text cs'']. apply _.
Qed.
#[local] Instance quiet_hmp : Leads quietly hmp_connect.
Proof. unfold hmp_connect. apply _. Qed.
#[local] Instance quiet_shots f : Leads quietly (update (λ h, Host (clock h) (reads h) (qmp_in h) (qmp_buf h) (hmp_in h) (f h) (acts h))).
Proof. intros h. exists []. by rewrite app_nil_r. Qed.
#[local] Instance quiet_reads f g : Leads quietly (update (λ h, Host (f h) (g h) (qmp_in h) (qmp_buf h) (hmp_in h) (shots h) (acts h))).
Proof. intros h. exists []. by rewrite app_nil_r. Qed.
#[local] Instance quiet_dump path : Leads quietly (screendump path).
Proof. unfold screendump. apply _. Qed.
#[local] Instance quiet_status : Leads quietly read_status.
Proof. unfold read_status. apply _. Qed.
#[local] Instance quiet_sleep ms parts : Leads quietly (sleep ms parts).
Proof. unfold sleep. apply _. Qed.
#[local] Instance quiet_frame_of suffix : Leads quietly (frame_of o suffix).
Proof. unfold frame_of. destruct (frames o) as [[|c l]|]; apply _. Qed.
Lemma quiet_catch {A} (m : HM A) : Leads quietly m → Leads quietly (catch_timeout m).
Proof. intros Hm h. specialize (Hm h). unfold catch_timeout. destruct (m h) as [[a|e] h']; [done|]. by destruct e. Qed.

(** The events a run sends; one that raises has sent the first of them. *)
Class Sends {A} (es : list (list ievent)) (m : HM A) := sends h :
  wp m (λ _ h', ∃ l, acts h' = acts h ++ l ∧ inputs l = es) (λ _ h', ∃ l, acts h' = acts h ++ l ∧ inputs l `prefix_of` es) h.
Lemma sends_quiet {A} (m : HM A) : Leads quietly m → Sends [] m.
Proof.
  intros Hm h. specialize (Hm h). unfold wp. destruct (m h) as [[a|e] h']; destruct Hm as (l & El & Hl); exists l;
    (split; [done|]); by rewrite Hl.
Qed.
Lemma sends_bind {A B} es fs (m : HM A) (f : A → HM B) : Sends es m → (∀ a, Sends fs (f a)) → Sends (es ++ fs) (m ≫= f).
Proof.
  intros Hm Hf h. apply wp_bind. eapply wp_mono; [apply Hm| |].
  - intros a h1 (l & E1 & <-). eapply wp_mono; [apply Hf| |]; intros b h2 (k & E2 & Hk); exists (l ++ k);
      rewrite E2, E1, app_assoc, inputs_app; (split; [done|]); [by rewrite Hk|by apply prefix_app].
  - intros e h1 (l & E1 & Hl). exists l. split; [done|]. by apply prefix_app_r.
Qed.
Lemma sends_after {A B} es (m : HM A) (f : A → HM B) : Leads quietly m → (∀ a, Sends es (f a)) → Sends es (m ≫= f).
Proof. intros Hm Hf. apply (sends_bind [] es); [by apply sends_quiet|done]. Qed.
Lemma sends_before {A B} es (m : HM A) (f : A → HM B) : Sends es m → (∀ a, Leads quietly (f a)) → Sends es (m ≫= f).
Proof. intros Hm Hf. rewrite <-(app_nil_r es). apply sends_bind; [done|]. intros a. by apply sends_quiet. Qed.
Lemma sends_input events : Sends [events] (execute loads (Input events)).
Proof.
  intros h. pose proof (execute_acts (Input events) h) as E. unfold wp.
  destruct (execute _ _ h) as [[a|e] h']; exists [Input events]; by split.
Qed.
Lemma sends_each {A} (f : A → HM ()) (g : A → list ievent) l :
  (∀ x, Sends [g x] (f x)) → Sends (map g l) (for_each f l).
Proof.
  intros Hf. induction l as [|x l IH]; cbn [for_each map]; [apply sends_quiet, _|].
  apply (sends_bind [g x] (map g l)); [apply Hf|done].
Qed.

(** What a gesture through [points] sends: down at the first, moves through the
    others, up at the last. *)
Definition at_point (p : Z * Z) : list ievent := [Abs "x" p.1; Abs "y" p.2].
Definition gesture_events (points : list (Z * Z)) : list (list ievent) :=
  match points with
  | [] => []
  | p :: rest =>
      (at_point p ++ [Btn "left" true]) :: map at_point rest ++ [at_point (List.last points (0, 0)) ++ [Btn "left" false]]
  end.
Lemma drag_sends points : points ≠ [] → Sends (gesture_events points) (drag loads o points).
Proof.
  destruct points as [|p rest]; [done|]. intros _. unfold drag, gesture_events. cbv zeta.
  apply (sends_bind [_] _); [apply sends_input|]. intros _.
  apply sends_bind.
  - apply sends_each. intros q. apply sends_after; [apply _|]. intros _. apply sends_input.
  - intros _. apply sends_after; [apply _|]. intros _. apply sends_input.
Qed.

(** ** Waiting *)

#[local] Existing Instance quiet_catch.
(** A wait ends, within its time, with a status it was waiting for, or with the
    timeout; it sends nothing. *)
Lemma status_wait_spec fuel deadline predicate what h :
  deadline - clock h ≤ 50000 * Z.of_nat fuel →
  wp (wait_from fuel deadline predicate what)
    (λ s h', predicate s = true ∧ ∃ l, acts h' = acts h ++ l ∧ inputs l = [] ∧ Seen s ∈ l)
    (λ e h', e = TimeoutError what ∧ quietly h h') h.
Proof.
  revert h. induction fuel as [|fuel IH]; intros h Hfuel; cbn [wait_from]; apply wp_bind, wp_gets.
  - destruct (Z.ltb_spec (clock h) deadline); [lia|]. apply wp_raise. by split.
  - destruct (Z.ltb_spec (clock h) deadline); [|apply wp_raise; by split].
    unfold read_status. set (r := default (0%N, None) (head (reads h))).
    set (h1 := Host (clock h + Z.of_N r.1) (tail (reads h)) (qmp_in h) (qmp_buf h) (hmp_in h) (shots h) (acts h)).
    assert (∀ h2 l, acts h2 = acts h ++ l → inputs l = [] → clock h2 = clock h1 →
      wp (_ ← update (pass_time 50000); wait_from fuel deadline predicate what)
        (λ s h', predicate s = true ∧ ∃ l, acts h' = acts h ++ l ∧ inputs l = [] ∧ Seen s ∈ l)
        (λ e h', e = TimeoutError what ∧ quietly h h') h2) as Hrest.
    { intros h2 l El Hl Hc. apply wp_bind, wp_update. eapply wp_mono; [apply IH| |].
      - unfold pass_time. cbn [clock]. rewrite Hc. cbn [h1 clock]. lia.
      - intros s h3 (Hs & k & Ek & Hk & Hin). split; [done|]. exists (l ++ k). cbn in Ek.
        rewrite Ek, El, app_assoc, inputs_app, Hl, Hk. split_and!; [done|done|]. apply elem_of_app. by right.
      - intros e h3 (He & k & Ek & Hk). split; [done|]. exists (l ++ k). cbn in Ek.
        by rewrite Ek, El, app_assoc, inputs_app, Hl, Hk. }
    apply wp_bind, wp_bind, wp_gets. fold r. apply wp_bind, wp_update. fold h1.
    destruct r.2 as [s|].
    + apply wp_bind. cbn. destruct (predicate s) eqn:Ep.
      * apply wp_ret. split; [done|]. exists [Seen s]. split_and!; [done|done|apply list_elem_of_here].
      * apply (Hrest (act_ (Seen s) h1) [Seen s]); done.
    + apply wp_ret. apply (Hrest h1 []); [by rewrite app_nil_r|done|done].
Qed.
Lemma wait_spec predicate timeout what h :
  wp (wait_status predicate timeout what)
    (λ s h', predicate s = true ∧ ∃ l, acts h' = acts h ++ l ∧ inputs l = [] ∧ Seen s ∈ l)
    (λ e h', e = TimeoutError what ∧ quietly h h') h.
Proof.
  unfold wait_status. apply wp_bind, wp_gets. apply status_wait_spec.
  destruct (decide (0 ≤ timeout)) as [Ht|Ht].
  - pose proof (Z.div_mod timeout 50000 ltac:(lia)). pose proof (Z.mod_pos_bound timeout 50000 ltac:(lia)).
    rewrite Z2Nat.id by (apply Z.add_nonneg_nonneg; [apply Z.div_pos; lia|lia]). lia.
  - pose proof (Nat2Z.is_nonneg (Z.to_nat (timeout / 50000 + 1))). lia.
Qed.
#[local] Instance quiet_wait predicate timeout what : Leads quietly (wait_status predicate timeout what).
Proof.
  intros h. pose proof (wait_spec predicate timeout what h) as Hw. unfold wp in Hw.
  destruct (wait_status _ _ _ h) as [[s|e] h']; [|apply Hw]. destruct Hw as (_ & l & El & Hl & _). by exists l.
Qed.

(** ** Gestures *)

Lemma wp_quiet {A} (m : HM A) (Q : A → host → Prop) (E : exn → host → Prop) h :
  Leads quietly m → (∀ a h', quietly h h' → Q a h') → (∀ e h', quietly h h' → E e h') → wp m Q E h.
Proof. intros Hm HQ HE. specialize (Hm h). unfold wp. destruct (m h) as [[a|e] h']; auto. Qed.
(** Between [h] and [h'] nothing was sent, and [s] was read. *)
Definition saw (s : status) (h h' : host) : Prop := ∃ l, acts h' = acts h ++ l ∧ inputs l = [] ∧ Seen s ∈ l.
Lemma saw_later s h1 h2 h3 : saw s h1 h2 → quietly h2 h3 → saw s h1 h3.
Proof.
  intros (l & El & Hl & Hin) (k & Ek & Hk). exists (l ++ k). rewrite Ek, El, app_assoc, inputs_app, Hl, Hk.
  split_and!; [done|done|]. apply elem_of_app. by left.
Qed.
Lemma saw_earlier s h1 h2 h3 : quietly h1 h2 → saw s h2 h3 → saw s h1 h3.
Proof.
  intros (l & El & Hl) (k & Ek & Hk & Hin). exists (l ++ k). rewrite Ek, El, app_assoc, inputs_app, Hl, Hk.
  split_and!; [done|done|]. apply elem_of_app. by right.
Qed.
Lemma saw_quietly s h h' : saw s h h' → quietly h h'.
Proof. intros (l & El & Hl & _). by exists l. Qed.
Lemma wait_saw predicate timeout what h :
  wp (wait_status predicate timeout what) (λ s h', predicate s = true ∧ saw s h h')
    (λ e h', e = TimeoutError what ∧ quietly h h') h.
Proof. apply wait_spec. Qed.
Lemma wp_catch {A} (m : HM A) (Q : A + string → host → Prop) (E : exn → host → Prop) h :
  wp m (λ a, Q (inl a)) (λ e h', ∀ msg, e = TimeoutError msg → Q (inr msg) h') h →
  wp m (λ _ _, True) (λ e h', (∀ msg, e ≠ TimeoutError msg) → E e h') h →
  wp (catch_timeout m) Q E h.
Proof.
  unfold wp, catch_timeout. destruct (m h) as [[a|e] h']; [done|]. intros HQ HE.
  destruct e; try (by apply HE); by apply HQ.
Qed.

Lemma open_session_spec h :
  wp (open_session loads o) (λ r h', ready r.1 = true ∧ saw r.1 h h') (λ _ h', quietly h h') h.
Proof.
  unfold open_session. apply wp_bind. eapply wp_mono; [apply wait_saw| |by intros e h' [_ Hq]].
  intros before h1 [Hr Hs]. pose proof (saw_quietly _ _ _ Hs) as Hq.
  apply wp_bind, wp_quiet; [apply _| |intros; by etransitivity]. intros _ h2 H2.
  apply wp_bind, wp_quiet; [apply _| |intros; do 2 (etransitivity; [eassumption|]); done]. intros _ h3 H3.
  apply wp_bind, wp_quiet; [apply _| |intros; do 3 (etransitivity; [eassumption|]); done]. intros frame h4 H4.
  apply wp_ret. split; [done|]. do 3 (eapply saw_later; [|eassumption]). exact Hs.
Qed.

(** The gesture, from its report back to what was sent and read. *)
Definition report_of (before z : status) (r : gesture_report) : Prop :=
  g_sent r = sent z - sent before ∧ g_acked r = acked z - acked before ∧ g_ack_failed r = ack_failed z - ack_failed before
  ∧ g_timeouts r = timeouts z - timeouts before ∧ g_dispatched r = done_since before z
  ∧ g_dispatch_failed r = dispatch_failed z - dispatch_failed before.
Lemma gesture_spec points h :
  points ≠ [] →
  wp (gesture loads o points)
    (λ r h', ∃ before a z h1 h2,
       ready before = true ∧ saw before h h1
       ∧ (∃ l, acts h2 = acts h1 ++ l ∧ inputs l = gesture_events points)
       ∧ saw a h2 h' ∧ gesture_acked before a = true ∧ saw z h2 h'
       ∧ (g_dispatch_note r = None → expected_since before a ≤ done_since before z) ∧ report_of before z r)
    (λ _ h', ∃ h1, quietly h h1
       ∧ ∃ l, acts h' = acts h1 ++ l ∧ inputs l `prefix_of` gesture_events points
       ∧ (inputs l ≠ [] → ∃ before, ready before = true ∧ saw before h h1)) h.
Proof.
  intros Hp. unfold gesture. apply wp_bind. eapply wp_mono; [apply open_session_spec| |].
  2:{ intros e h1 Hq. exists h1. split; [done|]. exists []. rewrite app_nil_r. split_and!; [done|apply prefix_nil|done]. }
  intros [before frame] h1 [Hr Hs]. cbn [fst] in Hr, Hs. pose proof (saw_quietly _ _ _ Hs) as Hq1.
  apply wp_bind. eapply wp_mono; [apply (drag_sends points Hp)| |].
  2:{ intros e h2 (l & El & Hl). exists h1. split; [done|]. exists l. split_and!; [done|done|]. intros _. by exists before. }
  intros [] h2 Hsent. cbv beta in Hsent.
  assert (∀ h3, quietly h2 h3 → ∃ h1, quietly h h1
       ∧ ∃ l, acts h3 = acts h1 ++ l ∧ inputs l `prefix_of` gesture_events points
       ∧ (inputs l ≠ [] → ∃ before, ready before = true ∧ saw before h h1)) as Hfail.
  { intros h3 (k & Ek & Hk). destruct Hsent as (l & El & Hl). exists h1. split; [done|]. exists (l ++ k).
    rewrite Ek, El, app_assoc, inputs_app, Hk, app_nil_r, Hl. split_and!; [done|done|]. intros _. by exists before. }
  apply wp_bind. eapply wp_mono; [apply wait_saw| |intros e h3 [_ H3]; by apply Hfail].
  intros a h3 [Ha Hsa]. pose proof (saw_quietly _ _ _ Hsa) as Hq3. cbv zeta.
  apply wp_bind.
  eapply (wp_mono _ (λ r h', let z := match r with inl s => s | inr _ => a end in
      saw z h2 h' ∧ quietly h3 h' ∧ match r with inl s => expected_since before a ≤ done_since before s | inr _ => True end)
    _ (λ _ h', quietly h2 h')).
  { apply wp_catch; (eapply wp_mono; [apply wait_saw| |]); try done.
    - intros s h4 [Hle Hsz]. apply Z.leb_le in Hle. cbv zeta. split_and!; [by eapply saw_earlier|by eapply saw_quietly|done].
    - intros e h4 [_ H4] msg _. cbv zeta. split_and!; [by eapply saw_later|done|done].
    - intros e h4 [He _] Hne. by apply Hne in He. }
  2:{ intros e h4 H4. by apply Hfail. }
  intros r h4 (Hz & Hq4 & Hr4). pose proof (saw_quietly _ _ _ Hz) as Hq24.
  set (z := match r with inl s => s | inr _ => a end) in *.
  assert (saw a h2 h4) as Ha4 by (by eapply saw_later).
  set (dn := match r with inl _ => None | inr note => Some note end).
  replace (match r with inl s => (s, None) | inr note => (a, Some note) end) with (z, dn) by (by destruct r).
  apply wp_bind, wp_quiet; [apply _| |intros e h5 H5; apply Hfail; by etransitivity]. intros pn h5 H5.
  apply wp_bind, wp_quiet; [apply _| |intros e h6 H6; apply Hfail; do 2 (etransitivity; [eassumption|]); done].
  intros frame' h6 H6. apply wp_ret. exists before, a, z, h1, h2. split_and!; try done.
  - do 2 (eapply saw_later; [|eassumption]). exact Ha4.
  - do 2 (eapply saw_later; [|eassumption]). exact Hz.
  - unfold dn, z. cbn. by destruct r.
Qed.

(** C26: a gesture is what was asked for.  On every run, whatever the status
    file, the sockets and the clock do, the input a gesture sends is its first
    point pressed, the moves in order and its last point released; a run that
    stops in between has sent a beginning of that, and nothing at all before the
    guest's helper was seen ready.  When [main] exits with success, the whole of
    it was sent to the emulator, and after the release the status file was read
    with the contact released and nothing queued or in flight, and with as many
    dispatches as the records that it counted and that are not pings, none of
    them failed or timed out, and no fewer acknowledgements than records.  These
    are counters, which name no record: [ping_passes_for_gesture] below shows
    what they do not tell. *)
Theorem gesture_witnessed c points h :
  points_of o c = Ok points → points ≠ [] →
  match main loads o c h with
  | (Ok true, h') => ∃ before a z h1 h2,
      ready before = true ∧ saw before h h1
      ∧ (∃ l, acts h2 = acts h1 ++ l ∧ inputs l = gesture_events points)
      ∧ saw a h2 h' ∧ gesture_acked before a = true
      ∧ saw z h2 h' ∧ expected_since before a ≤ done_since before z ∧ dispatch_failed z = dispatch_failed before
      ∧ sent z - sent before ≤ acked z - acked before ∧ ack_failed z = ack_failed before ∧ timeouts z = timeouts before
  | (_, h') => ∃ h1, quietly h h1
      ∧ ∃ l, acts h' = acts h1 ++ l ∧ inputs l `prefix_of` gesture_events points
      ∧ (inputs l ≠ [] → ∃ before, ready before = true ∧ saw before h h1)
  end.
Proof.
  intros Hc Hp. assert (main loads o c = (points ← lift (points_of o c); r ← catch_timeout (gesture loads o points); mret (verdict gesture_ok r))) as ->.
  { destruct c; cbn in Hc; try (injection Hc as <-; done); done. }
  rewrite Hc. pose proof (gesture_spec points h Hp) as Hg. unfold wp in Hg.
  unfold mbind, se_bind, lift, catch_timeout. destruct (gesture loads o points h) as [[r|e] h'].
  - cbn [verdict mret se_ret]. destruct Hg as (before & a & z & h1 & h2 & Hr & Hs & Hl & Ha & Hga & Hz & Hle & Hrep).
    destruct (gesture_ok r) eqn:Eok; cbn.
    + exists before, a, z, h1, h2. destruct Hrep as (E1 & E2 & E3 & E4 & E5 & E6).
      unfold gesture_ok in Eok. repeat (apply andb_prop in Eok as [Eok ?]).
      rewrite ?Z.leb_le, ?Z.eqb_eq, ?bool_decide_eq_true in *. split_and!; try done; try lia. by apply Hle.
    + exists h1. split; [by apply saw_quietly in Hs|]. destruct Hl as (l & El & Hl). destruct Ha as (k & Ek & Hk & _).
      exists (l ++ k). rewrite Ek, El, app_assoc, inputs_app, Hk, app_nil_r, Hl. split_and!; [done|done|]. intros _. by exists before.
  - destruct e; exact Hg.
Qed.

(** ** Every run ends *)

Definition ended (e : exn) : Prop := e ≠ OutOfFuel.
Abbreviation Ends := (Holds (λ _ : host, True) ended).
#[local] Instance ends_update (f : host → host) : Ends (update f).
Proof. by apply holds_update. Qed.
#[local] Instance ends_opt {A} (v : option A) e : TCEq (bool_decide (e = OutOfFuel)) false → Ends (lift (opt_or v e)).
Proof. intros He%TCEq_eq%bool_decide_eq_false. apply holds_lift. intros e'. destruct v; [done|]. by intros [= <-]. Qed.
Lemma ends_raise {A} e : e ≠ OutOfFuel → Ends (raise (A:=A) e).
Proof. intros He. by apply holds_raise. Qed.
#[local] Hint Extern 1 (Holds _ ended (raise _)) => (apply ends_raise; discriminate) : typeclass_instances.

Lemma recv_line_shrinks chunks buf :
  let '(line, buf', chunks') := recv_line chunks buf in
  match line with
  | Ok _ => (length (buf' ++ concat chunks') < length (buf ++ concat chunks))%nat
  | Raise e => e ≠ OutOfFuel
  end.
Proof.
  revert buf. induction chunks as [|data chunks IH]; intros buf; cbn [recv_line]; case_bool_decide as Hin; try done.
  1, 2: destruct (first_line buf Hin) as (k & E & ->); rewrite E at 1; rewrite !length_app; cbn; lia.
  destruct data as [|x data]; [done|]. specialize (IH (buf ++ x :: data)). cbn [concat] in *.
  by rewrite <-app_assoc in IH.
Qed.
Lemma await_ends n h : (unread h < n)%nat → (await_reply loads n h).1 ≠ Raise OutOfFuel.
Proof.
  revert h. induction n as [|n IH]; intros h Hn; [lia|]. cbn [await_reply]. unfold mbind at 1, se_bind at 1.
  assert (match qmp_recv loads h with (Ok _, h') => (unread h' < unread h)%nat | (Raise e, _) => e ≠ OutOfFuel end) as Hr.
  { unfold qmp_recv, mbind, se_bind, gets, lift, unread. destruct (qmp_in h) as [cs|]; cbn [opt_or]; [|done].
    pose proof (recv_line_shrinks cs (qmp_buf h)) as Hs. destruct (recv_line cs (qmp_buf h)) as [[[line|e] buf] cs']; cbn.
    - destruct (loads line) as [r|]; [exact Hs|done].
    - exact Hs. }
  destruct (qmp_recv loads h) as [[r|e] h1]; [|by intros [= ->]].
  destruct (is_event r); [apply IH; lia|]. by destruct (is_error r).
Qed.
#[local] Instance ends_execute a : Ends (execute loads a).
Proof.
  intros h _. split; [done|]. pose proof (await_ends (S (unread (act_ a h))) (act_ a h) ltac:(lia)) as H.
  change (execute loads a h) with (await_reply loads (S (unread (act_ a h))) (act_ a h)).
  destruct (await_reply _ _ _) as [[r|e] h']; [done|]. intros ->. by apply H.
Qed.
#[local] Instance ends_recv : Ends (qmp_recv loads).
Proof.
  unfold qmp_recv. apply holds_bind; [apply _|]. intros cs. apply holds_bind; [apply _|]. intros buf.
  apply holds_bind; [apply _|]. intros cs'. pose proof (recv_line_shrinks cs' buf) as Hs.
  destruct (recv_line cs' buf) as [[line buf'] cs'']. apply holds_bind; [apply _|]. intros _.
  apply holds_bind; [|apply _]. apply holds_lift. by intros e ->.
Qed.
#[local] Instance ends_note a : Ends (note a).
Proof. unfold note. apply _. Qed.
#[local] Instance ends_connect : Ends (qmp_connect loads).
Proof. unfold qmp_connect. apply _. Qed.
Lemma read_prompt_ends chunks buf : (read_prompt chunks buf).1 ≠ Raise OutOfFuel.
Proof.
  revert buf. induction chunks as [|data chunks IH]; intros buf; cbn [read_prompt]; destruct (at_prompt buf); try done.
  by destruct data.
Qed.
#[local] Instance ends_read : Ends hmp_read.
Proof.
  unfold hmp_read. apply holds_bind; [apply _|]. intros cs. apply holds_bind; [apply _|]. intros cs'.
  pose proof (read_prompt_ends cs' []) as Hr. destruct (read_prompt cs' []) as [text cs''].
  apply holds_bind; [apply _|]. intros _. apply holds_bind; [|apply _]. apply holds_lift. intros e -> ->. by apply Hr.
Qed.
#[local] Instance ends_hmp : Ends hmp_connect.
Proof. unfold hmp_connect. apply _. Qed.
#[local] Instance ends_dump path : Ends (screendump path).
Proof. unfold screendump. apply _. Qed.
#[local] Instance ends_sleep ms parts : Ends (sleep ms parts).
Proof. unfold sleep. apply _. Qed.
#[local] Instance ends_status : Ends read_status.
Proof. unfold read_status. apply _. Qed.
#[local] Instance ends_frame_of suffix : Ends (frame_of o suffix).
Proof. unfold frame_of. destruct (frames o) as [[|c l]|]; apply _. Qed.
#[local] Instance ends_wait predicate timeout what : Ends (wait_status predicate timeout what).
Proof.
  intros h _. split; [done|]. pose proof (wait_spec predicate timeout what h) as Hw. unfold wp in Hw.
  destruct (wait_status _ _ _ h) as [[s|e] h']; [done|]. destruct Hw as [-> _]. done.
Qed.
#[local] Instance ends_catch {A} (m : HM A) : Ends m → Ends (catch_timeout m).
Proof.
  intros Hm h Hh. destruct (Hm h Hh) as [_ He]. split; [done|]. unfold catch_timeout.
  destruct (m h) as [[a|e] h']; [done|]. by destruct e.
Qed.
#[local] Instance ends_open : Ends (open_session loads o).
Proof. unfold open_session. apply _. Qed.
#[local] Instance ends_drag points : Ends (drag loads o points).
Proof. destruct points; unfold drag, send, move; apply _. Qed.
#[local] Instance ends_presented before : Ends (presented o before).
Proof. unfold presented. apply _. Qed.
#[local] Instance ends_gesture points : Ends (gesture loads o points).
Proof.
  unfold gesture. apply holds_bind; [apply _|]. intros [before frame]. do 2 (apply holds_bind; [apply _|]; intros ?). cbv zeta.
  apply holds_bind; [apply _|]. intros [s|note]; apply _.
Qed.
#[local] Instance ends_key qcode button : Ends (key_press loads o qcode button).
Proof. unfold key_press. apply holds_bind; [apply _|]. intros [before [d|]]; apply _. Qed.
#[local] Instance ends_wheel x y n : Ends (wheel loads o x y n).
Proof. unfold wheel, move. apply holds_bind; [apply _|]. intros [before [d|]]; apply _. Qed.
Lemma norm_ends value size pixel : norm value size pixel ≠ Raise OutOfFuel.
Proof. unfold norm, int10. by destruct (int10_opt value). Qed.
#[local] Instance ends_norm value size pixel : Ends (lift (norm value size pixel)).
Proof. apply holds_lift. intros e He ->. by apply norm_ends in He. Qed.
Lemma points_end c : points_of o c ≠ Raise OutOfFuel.
Proof.
  assert (∀ A v size pixel (f : Z → res A), (∀ n, f n ≠ Raise OutOfFuel) → (n ← norm v size pixel; f n) ≠ Raise OutOfFuel) as Hb.
  { intros A v size pixel f Hf. pose proof (norm_ends v size pixel) as Hn. destruct (norm v size pixel); [apply Hf|]. intros [= ->]. by apply Hn. }
  destruct c; cbn [points_of]; try done; repeat (apply Hb; intros ?); done.
Qed.
#[local] Instance ends_points c : Ends (lift (points_of o c)).
Proof. apply holds_lift. intros e He ->. by apply points_end in He. Qed.

(** The host tool always ends: whatever the status file, the sockets and the
    guest do, no wait and no socket loop goes on past its deadline or its input;
    a run of [main] gives a verdict or raises an exception of Python. *)
Theorem host_always_ends c h : (main loads o c h).1 ≠ Raise OutOfFuel.
Proof.
  assert (Ends (main loads o c)) as Hm.
  { destruct c; cbn [main].
    - apply holds_bind; [apply ends_points|]. intros points. apply holds_bind; [apply ends_catch, ends_gesture|apply _].
    - apply holds_bind; [apply ends_points|]. intros points. apply holds_bind; [apply ends_catch, ends_gesture|apply _].
    - apply holds_bind; [apply ends_catch, ends_key|apply _].
    - apply holds_bind; [apply ends_catch|apply _]. do 2 (apply holds_bind; [apply ends_norm|intros ?]). apply ends_wheel.
    - apply holds_bind; [apply ends_status|apply _].
    - apply holds_bind; [apply ends_wait|apply _].
    - apply holds_bind; [apply ends_hmp|]. intros _. apply holds_bind; [apply ends_dump|apply _]. }
  destruct (Hm h I) as [_ He]. destruct (main loads o c h) as [[r|e] h']; [done|]. intros [= ->]. by apply He.
Qed.
End runs.

(** ** Two verdicts *)

Definition sample_status (s a p d : Z) (q : Z) : status :=
  Status (u "R") q 0 s a 0 0 0 0 0 p d 0 false false 0 1.
Definition ok_reply (line : list byte) : option reply := Some (Reply false false).
Definition ok_host (seen : list status) : host :=
  Host 0 (map (λ s, (0%N, Some s)) seen) (Some (replicate 4 (b "{}" ++ [x0a]))) [] (Some [b "(qemu) "]) [] [].
Definition tap_options : options := Options false 80 12 None 0 0 5000000 15000000.
Definition tap : command := Tap (u "100") (u "200").

Lemma gesture_witnessed_witness :
  ∃ z, Seen z ∈ acts (main ok_reply tap_options tap (ok_host [sample_status 4 4 0 4 0; sample_status 6 6 0 6 0; sample_status 6 6 0 6 0])).2
    ∧ dispatch_failed z = 0.
Proof.
  pose proof (gesture_witnessed ok_reply tap_options tap [(100, 200)]
    (ok_host [sample_status 4 4 0 4 0; sample_status 6 6 0 6 0; sample_status 6 6 0 6 0]) eq_refl ltac:(discriminate)) as H.
  exists (sample_status 6 6 0 6 0). split; [|reflexivity].
  destruct (main _ _ _ _) as [[[|]|e] h'] eqn:E; [|vm_compute in E; discriminate..].
  vm_compute in E. injection E as <-. repeat first [apply list_elem_of_here | apply list_elem_of_further].
Defined.

(** A ping acknowledged since the first status is enough for the first wait, and
    with no touch record sent there is nothing to dispatch: the tool reports
    success for a tap that never left the queue it was put in. *)
Example ping_passes_for_gesture :
  (main ok_reply tap_options tap (ok_host [sample_status 4 4 0 4 0; sample_status 5 5 1 4 0; sample_status 5 5 1 4 0])).1 = Ok true.
Proof. vm_compute. reflexivity. Qed.
(** The counters of the report are those of the status that showed the dispatch,
    which may have a later ping still in flight: a tap that was acknowledged and
    dispatched is reported as failed. *)
Example ping_in_flight_fails_gesture :
  (main ok_reply tap_options tap (ok_host [sample_status 4 4 0 4 0; sample_status 6 6 0 5 0; sample_status 7 6 1 6 1])).1 = Ok false.
Proof. vm_compute. reflexivity. Qed.
