(* ===== verification/LiveThreads.v ===== *)
(** * Threads of a stopped guest: [tools/re/live_task_threads.py]

    The walk of a thread queue with the saved user state of every thread, the
    frame chains of the saved states, and the candidate chains found on the
    kernel stacks.  The guest is an argument: what a memory read returns
    ([None]: it failed) and what the debug stub answers to a packet.  Every
    access is kept in a log, newest first. *)

From stdpp Require Import base tactics list list_numbers gmap sorting strings.
From Stdlib Require Import Strings.Byte.
From S2P Require Import Prelude PyState PyBytes PyStr PyDict.
Open Scope Z_scope.

(** ** The guest *)

Inductive access :=
  | Virtual (address size : Z)
  | Packet (command : list Z)
  | Report (path : list Z).
(** [ReadMemory] and the output of [process plugin packet send] ([None]: the
    command failed); an answer may depend on everything done before. *)
Record guest := Guest {
  g_read : list access → Z → Z → option (list byte);
  g_packet : list access → list Z → option (list Z);
}.
Abbreviation GM := (SE (list access)).
(** Frame pointer: parent and return address. *)
Abbreviation links_t := (list (Z * (Z * Z))).
Definition did (a : access) : GM () := update (cons a).

Section guest.
Variable g : guest.

(** [_read]. *)
Definition read (address size : Z) : GM (list byte) :=
  log ← gets id;
  _ ← did (Virtual address size);
  match g_read g log address size with
  | Some raw => if zlen raw =? size then mret raw else raise (RuntimeError "unreadable")
  | None => raise (RuntimeError "unreadable")
  end.
(** [try: m except RuntimeError: h]. *)
Definition except_RuntimeError {A} (m h : GM A) : GM A := λ s,
  match m s with (Raise (RuntimeError _), s) => h s | r => r end.
(** [_ptr]. *)
Definition ptr (value : Z) : Z := if value =? 0 then 0 else Z.lor value 0xffff000000000000.
(** [int.from_bytes(raw[offset:offset + 8], "little")]. *)
Definition word (raw : list byte) (offset : Z) : Z := le_Z (slice offset (offset + 8) raw).

(** ** [walk] *)

(** [fp], [lr], [sp] and [pc] of a saved state of the known flavour. *)
Record user_regs := UserRegs { u_fp : Z; u_lr : Z; u_sp : Z; u_pc : Z }.
Record row := Row {
  r_thread : Z; r_wait_event : Z; r_continuation : Z; r_kernel_stack : Z; r_state : Z; r_group : Z; r_saved : Z;
  r_user : option user_regs;
}.
Definition SIGNATURE : Z := 0x2010002030100000.
Definition user_of (state : list byte) : option user_regs :=
  if negb (bool_decide (state = [])) && (le_Z (slice 0 4 state) =? 0x15)
  then Some (UserRegs (word state 0xf0) (word state 0xf8) (word state 0x100) (word state 0x108)) else None.
Definition row_of (address : Z) (raw : list byte) : GM row :=
  let saved := ptr (word raw 0x110) in
  state ← (if saved =? 0 then mret [] else read saved 0x110);
  mret (Row address (word raw 0x18) (word raw 0xe0) (word raw 0xf0) (word raw 0x1f0) (word raw 0x290) saved (user_of state)).

(** The [for] loop: the rows, the last address, and what was seen. *)
Fixpoint walk_from (n : nat) (link address : Z) (seen : list Z) : GM (list row * Z * list Z) :=
  match n with
  | O => mret ([], address, seen)
  | S n =>
      if bool_decide (address ∈ seen) then mret ([], address, seen)
      else
        raw ← read address 0x440;
        if negb (word raw 0x1a0 =? SIGNATURE) then
          let next := ptr (word raw 0) in
          if next =? 0 then mret ([], next, address :: seen) else walk_from n link next (address :: seen)
        else
          r ← row_of address raw;
          let next := ptr (word raw link) in
          if next =? 0 then mret ([r], next, address :: seen)
          else '(rows, last, seen) ← walk_from n link next (address :: seen); mret (r :: rows, last, seen)
  end.
Definition WALK_LIMIT : nat := 256.
Definition walk (anchor : Z) (path : list Z) (link : Z) : GM (list row) :=
  '(rows, last, seen) ← walk_from WALK_LIMIT link anchor [];
  _ ← did (Report path);
  mret rows.

(** ** [user_chains] *)

Record frame := FrameLink { f_fp : Z; f_lr : Z }.
Record chain := Chain { c_thread : Z; c_pc : option Z; c_frames : list frame }.

(** The walk over saved frame pointers, with the read it goes by and whether
    its exceptions end the walk. *)
Fixpoint frames_from (n : nat) (read : Z → GM (list byte)) (caught : exn → bool) (fp : Z) (seen : list Z) : GM (list frame) :=
  match n with
  | O => mret []
  | S n =>
      if (fp =? 0) || bool_decide (fp ∈ seen) || negb (Z.land fp 7 =? 0) then mret []
      else λ s,
        match read fp s with
        | (Ok raw, s) =>
            (rest ← frames_from n read caught (word raw 0) (fp :: seen);
             mret (FrameLink fp (Z.land (word raw 8) 0x0000ffffffffffff) :: rest)) s
        | (Raise e, s) => if caught e then (Ok [], s) else (Raise e, s)
        end
  end.
Definition is_RuntimeError (e : exn) : bool := match e with RuntimeError _ => true | _ => false end.
Definition chain_of (n : nat) (read : Z → GM (list byte)) (caught : exn → bool) (r : row) : GM chain :=
  frames ← frames_from n read caught (match r_user r with Some u => u_fp u | None => 0 end) [];
  mret (Chain (r_thread r) (u_pc <$> r_user r) frames).
Fixpoint each {A B} (f : A → GM B) (l : list A) : GM (list B) :=
  match l with
  | [] => mret []
  | x :: l => y ← f x; ys ← each f l; mret (y :: ys)
  end.
Definition user_chains (rows : list row) (path : list Z) : GM (list chain) :=
  cs ← each (chain_of 64 (λ fp, read fp 16) is_RuntimeError) rows;
  _ ← did (Report path);
  mret cs.

(** ** [kernel_chains] *)

(** A link at [offset]: the parent is further up this stack and aligned, and
    the return address is in the kernel's text. *)
Definition link_at (base : Z) (raw : list byte) (offset : Z) : option (Z * (Z * Z)) :=
  let parent := ptr (word raw offset) in
  let lr := ptr (word raw (offset + 8)) in
  if (base + offset <? parent) && (parent <? base + zlen raw) && (Z.land parent 15 =? 0)
     && (0xfffffff007004000 <=? lr) && (lr <? 0xfffffff040000000)
  then Some (base + offset, (parent, lr)) else None.
(** [range(0, len(raw) - 15, 16)]. *)
Definition offsets (raw : list byte) : list Z := map (λ k, 16 * k) (seqZ 0 (zlen raw / 16)).
Definition links_of (base : Z) (raw : list byte) : links_t := omap (link_at base raw) (offsets raw).
(** [links.keys() - {v[0] for v in links.values()}]: no link leads to it. *)
Definition starts (links : links_t) : list Z := filter (λ k, k ∉ map (λ l, l.2.1) links) (map fst links).
(** [while fp in links]; a link leads up, so as many steps as links are enough. *)
Fixpoint follow (fuel : nat) (links : links_t) (fp : Z) : res (list frame) :=
  match dget fp links with
  | None => Ok []
  | Some (parent, lr) =>
      match fuel with
      | O => Raise OutOfFuel
      | S fuel => rest ← follow fuel links parent; Ok (FrameLink fp lr :: rest)
      end
  end.
(** [chains.sort(key=len, reverse=True)]: stable, longest first. *)
Definition longer (c d : list frame) : Prop := (length d ≤ length c)%nat.
#[export] Instance longer_dec : RelDecision longer.
Proof. intros c d. unfold longer. apply _. Defined.
Definition candidates (order : list Z → list Z) (links : links_t) : res (list (list frame)) :=
  cs ← res_map (follow (length links) links) (order (starts links));
  Ok (merge_sort longer (filter (λ c, (2 ≤ length c)%nat) cs)).

Record stack := Stack { k_thread : Z; k_base : Z; k_chains : list (list frame) }.
(** [order]: in which order the set of starts is gone through. *)
Definition stack_of (order : list Z → list Z) (r : row) : GM (list stack) :=
  let base := r_kernel_stack r in
  if base =? 0 then mret []
  else
    raw ← except_RuntimeError (raw ← read base 0x4000; mret (Some raw)) (mret None);
    match raw with
    | None => mret []
    | Some raw => cs ← lift (candidates order (links_of base raw)); mret [Stack (r_thread r) base cs]
    end.
Definition kernel_chains (order : list Z → list Z) (rows : list row) (path : list Z) : GM (list stack) :=
  ss ← each (stack_of order) rows;
  _ ← did (Report path);
  mret (concat ss).
End guest.

(** ** Candidate chains *)

(** The links of a stack as a graph whose edges lead up. *)
Record upward (links : links_t) : Prop := {
  up_keys : dict_wf links;
  up_edges : ∀ k p lr, (k, (p, lr)) ∈ links → k < p;
}.
(** The frames from [k] to where no link goes on. *)
Inductive path (links : links_t) : Z → list frame → Prop :=
  | path_end k : dget k links = None → path links k []
  | path_step k p lr fs : dget k links = Some (p, lr) → path links p fs → path links k (FrameLink k lr :: fs).
(** No link leads to [k]. *)
Definition bottom (links : links_t) (k : Z) : Prop := ∀ k' p lr, dget k' links = Some (p, lr) → p ≠ k.

Lemma link_at_Some base raw offset k p lr :
  link_at base raw offset = Some (k, (p, lr)) →
  k = base + offset ∧ k < p < base + zlen raw ∧ Z.land p 15 = 0 ∧ 0xfffffff007004000 ≤ lr < 0xfffffff040000000.
Proof. unfold link_at. destruct (_ && _) eqn:E; [|done]. intros [= <- <- <-]. lia. Qed.
Lemma elem_links_of base raw k p lr :
  (k, (p, lr)) ∈ links_of base raw → ∃ offset, offset ∈ offsets raw ∧ link_at base raw offset = Some (k, (p, lr)).
Proof. unfold links_of. intros (o & Ho & H)%list_elem_of_omap. eauto. Qed.
Lemma keys_of_offsets base raw os : NoDup os → dict_wf (omap (link_at base raw) os).
Proof.
  unfold dict_wf. induction 1 as [|o os Ho Hos IH]; [constructor|]. cbn.
  destruct (link_at base raw o) as [[k [p lr]]|] eqn:E; [|done]. apply link_at_Some in E as (-> & _).
  cbn. constructor; [|done]. intros ([k' [p' lr']] & Hk & (o' & Ho' & E')%list_elem_of_omap)%list_elem_of_fmap.
  cbn in Hk. apply link_at_Some in E' as (-> & _). assert (o = o') as -> by lia. done.
Qed.
Lemma links_of_upward base raw : upward (links_of base raw).
Proof.
  split.
  - apply keys_of_offsets. apply NoDup_fmap_2; [intros x y H; lia|]. apply NoDup_seqZ.
  - intros k p lr (o & _ & E)%elem_links_of. apply link_at_Some in E. lia.
Qed.

Section upward.
Context (links : links_t) (Hup : upward links).

Lemma edge_up k p lr : dget k links = Some (p, lr) → k < p.
Proof. intros H%dget_In. by eapply (up_edges links Hup). Qed.
Lemma path_unique k fs fs' : path links k fs → path links k fs' → fs = fs'.
Proof.
  intros H. revert fs'. induction H as [k Hk|k p lr fs Hk H IH]; intros fs' H'; inversion H'; simplify_eq; [done|].
  f_equal. by apply IH.
Qed.
(** The links at or above [k] bound the length of a path from [k]. *)
Definition above (k : Z) : nat := length (filter (λ l, k ≤ l.1) links).
Lemma above_edge k p lr : dget k links = Some (p, lr) → (above p < above k)%nat.
Proof.
  intros H. pose proof (edge_up _ _ _ H) as Hkp. apply dget_In in H. unfold above.
  set (count := λ (k : Z) (l : links_t), length (filter (λ l, k ≤ l.1) l)).
  assert (∀ l, (count p l ≤ count k l)%nat) as Hle.
  { unfold count. induction l as [|x l IH]; [done|]. rewrite !filter_cons. repeat case_decide; cbn; lia. }
  change (count p links < count k links)%nat.
  apply list_elem_of_split in H as (l1 & l2 & ->). pose proof (Hle l1). pose proof (Hle l2). unfold count in *.
  rewrite !filter_app, !filter_cons, !length_app.
  rewrite (decide_False (P := p ≤ _)) by (cbn; lia). rewrite (decide_True (P := k ≤ _)) by (cbn; lia). cbn. lia.
Qed.
Lemma follow_path fuel k : (above k ≤ fuel)%nat → ∃ fs, follow fuel links k = Ok fs ∧ path links k fs.
Proof.
  revert k. induction fuel as [|fuel IH]; intros k Hf; cbn [follow]; destruct (dget k links) as [[p lr]|] eqn:E.
  - apply above_edge in E. lia.
  - exists []. split; [done|by apply path_end].
  - destruct (IH p) as (fs & -> & Hfs); [apply above_edge in E; lia|]. exists (FrameLink k lr :: fs).
    split; [done|by eapply path_step].
  - exists []. split; [done|by apply path_end].
Qed.
Lemma path_ascends k fs : path links k fs → StronglySorted Z.lt (map f_fp fs) ∧ Forall (λ f, k ≤ f_fp f) fs.
Proof.
  induction 1 as [k Hk|k p lr fs Hk H [IH1 IH2]]; [by repeat constructor|]. apply edge_up in Hk. cbn. split.
  - constructor; [done|]. rewrite Forall_fmap. eapply Forall_impl; [exact IH2|]. cbn. lia.
  - constructor; cbn; [lia|]. eapply Forall_impl; [exact IH2|]. cbn. lia.
Qed.
Lemma path_link k fs f : path links k fs → f ∈ fs → ∃ p, dget (f_fp f) links = Some (p, f_lr f).
Proof.
  induction 1 as [k Hk|k p lr fs Hk H IH]; [by intros ?%not_elem_of_nil|]. intros [->|Hf]%elem_of_cons; [eauto|auto].
Qed.
(** A path goes on with the parent of each of its frames. *)
Lemma path_parent k fs f p lr :
  path links k fs → f ∈ fs → dget (f_fp f) links = Some (p, lr) → ∀ p' lr', dget p links = Some (p', lr') → FrameLink p lr' ∈ fs.
Proof.
  intros H. revert f p lr. induction H as [k Hk|k q lq fs Hk H IH]; intros f p lr Hf Hp p' lr' Hp'; [by apply not_elem_of_nil in Hf|].
  apply elem_of_cons. right. apply elem_of_cons in Hf as [->|Hf]; [|by eapply IH].
  cbn in Hp. simplify_eq. inversion H; simplify_eq. apply list_elem_of_here.
Qed.
Lemma elem_starts k : k ∈ starts links ↔ is_Some (dget k links) ∧ bottom links k.
Proof.
  unfold starts, bottom. rewrite list_elem_of_filter. split.
  - intros [Hn Hk]. split.
    + apply not_eq_None_Some. intros Hd%dget_None. done.
    + intros k' p lr H%dget_In ->. apply Hn. change (list_fmap ?f ?l) with (map f l).
      apply list_elem_of_fmap. by exists (k', (k, lr)).
  - intros [[v Hv] Hb]. split.
    + intros ([k' [p lr]] & -> & H)%list_elem_of_fmap. cbn in Hb.
      refine (Hb k' p lr _ eq_refl). apply dget_wf; [apply (up_keys links Hup)|done].
    + apply dget_In in Hv. apply list_elem_of_fmap. by exists (k, v).
Qed.
(** Every link is on the path from some bottom. *)
Lemma from_bottom k p lr : dget k links = Some (p, lr) → ∃ s fs, s ∈ starts links ∧ path links s fs ∧ FrameLink k lr ∈ fs.
Proof.
  assert (length links - above k < S (length links))%nat as Hn by lia. revert Hn. generalize (S (length links)) as n.
  intros n. revert k p lr. induction n as [|n IH]; intros k p lr Hn Hk; [lia|].
  destruct (decide (k ∈ map (λ l, l.2.1) links)) as [Hin|Hout].
  - apply list_elem_of_fmap in Hin as ([k' [q lq]] & -> & H'). cbn in Hk, Hn.
    apply dget_wf in H'; [|apply (up_keys links Hup)]. pose proof (above_edge _ _ _ H') as Ha.
    assert (above k' ≤ length links)%nat as Hl by (unfold above; apply length_filter).
    destruct (IH k' q lq) as (s & fs & Hs & Hp & Hin); [lia|done|]. exists s, fs. split_and!; [done|done|].
    by apply (path_parent s fs (FrameLink k' lq) q lq Hp Hin H' p lr).
  - destruct (follow_path (above k) k (le_n _)) as (fs & _ & Hfs). exists k, fs. split_and!; [|done|].
    + apply elem_starts. split; [eauto|]. intros k' p' lr' H%dget_In ->. apply Hout. apply list_elem_of_fmap. by exists (k', (k, lr')).
    + inversion Hfs; simplify_eq. apply list_elem_of_here.
Qed.
End upward.

#[local] Instance longer_total : Total longer.
Proof. intros c d. unfold longer. lia. Qed.
#[local] Instance longer_trans : Transitive longer.
Proof. intros c d e. unfold longer. lia. Qed.

(** C32: The candidate chains of a kernel stack are exactly the maximal chains.
    The search always ends, in whatever order the set of starts is gone
    through; it gives, longest first, every path of at least two frames from a
    link that no link leads to up to where no link goes on; frame pointers
    ascend within the stack and return addresses are kernel text; and every
    link with another above it is on some listed chain. *)
Theorem candidate_chains_maximal base raw order :
  (∀ l, order l ≡ₚ l) →
  let links := links_of base raw in
  ∃ cs, candidates order links = Ok cs ∧ StronglySorted longer cs
    ∧ (∀ c, c ∈ cs ↔ ∃ s, is_Some (dget s links) ∧ bottom links s ∧ path links s c ∧ (2 ≤ length c)%nat)
    ∧ (∀ c, c ∈ cs → StronglySorted Z.lt (map f_fp c)
         ∧ Forall (λ f, base ≤ f_fp f < base + zlen raw ∧ 0xfffffff007004000 ≤ f_lr f < 0xfffffff040000000) c)
    ∧ ∀ k p lr, dget k links = Some (p, lr) → is_Some (dget p links) → ∃ c, c ∈ cs ∧ FrameLink k lr ∈ c.
Proof.
  intros Horder links. pose proof (links_of_upward base raw) as Hup. fold links in Hup.
  assert (∀ ss, ∃ ps, res_map (follow (length links) links) ss = Ok ps ∧ ∀ c, c ∈ ps ↔ ∃ s, s ∈ ss ∧ path links s c) as Hall.
  { induction ss as [|s ss (ps & E & IH)]; [exists []; split; [done|]; intros c; split; [by intros ?%not_elem_of_nil|by intros (? & ?%not_elem_of_nil & _)]|].
    destruct (follow_path links Hup (length links) s) as (fs & Efs & Hfs); [apply length_filter|]. exists (fs :: ps).
    split; [by simpl; rewrite Efs, ok_bind; change (mapM ?f ?l) with (res_map f l); rewrite E|].
    intros c. rewrite elem_of_cons, IH. split.
    - intros [->|(s' & Hs' & Hp)]; [exists s|exists s']; (split; [apply elem_of_cons; auto|done]).
    - intros (s' & [->|Hs']%elem_of_cons & Hp); [left; by eapply path_unique|right; eauto]. }
  destruct (Hall (order (starts links))) as (ps & E & Hps). clear Hall.
  assert (∀ c, c ∈ ps ↔ ∃ s, is_Some (dget s links) ∧ bottom links s ∧ path links s c) as Hps'.
  { intros c. rewrite Hps. split; intros (s & H); exists s; rewrite (Horder (starts links)), elem_starts in * by done; tauto. }
  unfold candidates. rewrite E, ok_bind. eexists. split; [done|].
  assert (∀ c, c ∈ merge_sort longer (filter (λ c, (2 ≤ length c)%nat) ps)
    ↔ ∃ s, is_Some (dget s links) ∧ bottom links s ∧ path links s c ∧ (2 ≤ length c)%nat) as Hin.
  { intros c. rewrite merge_sort_Permutation, list_elem_of_filter, Hps'. naive_solver. }
  split; [apply (StronglySorted_merge_sort longer)|]. split; [exact Hin|]. split.
  - intros c (s & _ & _ & Hp & _)%Hin. split; [by apply (path_ascends links Hup s)|].
    apply Forall_forall. intros f Hf. destruct (path_link links s c f Hp Hf) as (p & Hd%dget_In).
    apply elem_links_of in Hd as (o & Ho & El). apply link_at_Some in El. unfold offsets in Ho.
    apply list_elem_of_fmap in Ho as (i & -> & Hi%elem_of_seqZ). lia.
  - intros k p lr Hk [[p' lr'] Hp']. destruct (from_bottom links Hup k p lr Hk) as (s & c & Hs & Hp & Hf).
    exists c. split; [|done]. apply Hin. apply elem_starts in Hs as [Hs Hb]; [|done]. exists s. split_and!; try done.
    pose proof (path_parent links s c _ _ _ Hp Hf Hk _ _ Hp') as Hf'. pose proof (edge_up links Hup _ _ _ Hk).
    destruct c as [|x [|y c]]; cbn; [by apply not_elem_of_nil in Hf| |lia].
    apply list_elem_of_singleton in Hf, Hf'. simplify_eq. lia.
Qed.


(** Two frames that lead up a stack of four words and their tail. *)
Definition sample_base : Z := 0xffffffe000010000.
Definition sample_stack : list byte :=
  le_bytes 8 (sample_base + 0x10) ++ le_bytes 8 0xfffffff00a000000 ++ le_bytes 8 (sample_base + 0x20)
  ++ le_bytes 8 0xfffffff00a000004 ++ replicate 32 x00.
Definition sample_chain : list frame :=
  [FrameLink sample_base 0xfffffff00a000000; FrameLink (sample_base + 0x10) 0xfffffff00a000004].
Lemma candidate_chains_maximal_witness :
  candidates reverse (links_of sample_base sample_stack) = Ok [sample_chain]
  ∧ ∃ c, c ∈ [sample_chain] ∧ FrameLink sample_base 0xfffffff00a000000 ∈ c.
Proof.
  assert (candidates reverse (links_of sample_base sample_stack) = Ok [sample_chain]) as E by (vm_compute; reflexivity).
  split; [exact E|].
  destruct (candidate_chains_maximal sample_base sample_stack reverse reverse_Permutation) as (cs & Ecs & _ & _ & _ & H).
  rewrite E in Ecs. injection Ecs as <-. apply (H sample_base (sample_base + 0x10) 0xfffffff00a000000).
  - vm_compute. reflexivity.
  - exists (sample_base + 0x20, 0xfffffff00a000004). vm_compute. reflexivity.
Defined.

(** ** The thread queue *)

Section walk.
Variable g : guest.

(** One step of the queue, from what the read at [address] gave. *)
Definition next_of (link : Z) (raw : list byte) : Z :=
  if word raw 0x1a0 =? SIGNATURE then ptr (word raw link) else ptr (word raw 0).

(** What a finished walk visited: distinct addresses, each the successor of
    the one before it, up to the null pointer, a visited address or [n]. *)
Inductive visits (link : Z) (mem : Z → list byte) : nat → Z → list Z → list Z → Z → Prop :=
  | v_limit a seen : visits link mem 0 a seen [] a
  | v_closed n a seen : a ∈ seen → visits link mem n a seen [] a
  | v_end n a seen : a ∉ seen → next_of link (mem a) = 0 → visits link mem (S n) a seen [a] 0
  | v_next n a seen vs last : a ∉ seen → next_of link (mem a) ≠ 0 →
      visits link mem n (next_of link (mem a)) (a :: seen) vs last → visits link mem (S n) a seen (a :: vs) last.
Lemma visits_distinct link mem n a seen vs last :
  visits link mem n a seen vs last → NoDup vs ∧ (∀ v, v ∈ vs → v ∉ seen) ∧ (length vs ≤ n)%nat.
Proof.
  induction 1 as [a seen|n a seen Ha|n a seen Ha Hn|n a seen vs last Ha Hn Hv (IH1 & IH2 & IH3)]; cbn.
  - split_and!; [constructor|by intros v ?%not_elem_of_nil|lia].
  - split_and!; [constructor|by intros v ?%not_elem_of_nil|lia].
  - split_and!; [apply NoDup_singleton|by intros v ->%list_elem_of_singleton|lia].
  - split_and!; [|intros v [->|Hin]%elem_of_cons; [done|]|lia].
    + constructor; [|done]. intros H. apply (IH2 a H). apply list_elem_of_here.
    + intros Hs. apply (IH2 v Hin). apply elem_of_cons. by right.
Qed.

Lemma read_returns a n log raw log' : read g a n log = (Ok raw, log') → g_read g log a n = Some raw.
Proof.
  unfold read, mbind, se_bind, gets, did, update, mret, se_ret, raise, lift. cbn.
  destruct (g_read g log a n) as [r|]; [|done]. destruct (zlen r =? n); [|done]. by intros [= <- _].
Qed.
Lemma row_of_thread a raw log r log' : row_of g a raw log = (Ok r, log') → r_thread r = a.
Proof. unfold row_of. intros (state & log1 & _ & [= <- _])%bind_returns. done. Qed.
(** The rows are the visited threads that carry the signature, in order. *)
Lemma walk_from_visits mem link n a seen log rows last seen' log' :
  (∀ log a, g_read g log a 0x440 = Some (mem a)) →
  walk_from g n link a seen log = (Ok (rows, last, seen'), log') →
  ∃ vs, visits link mem n a seen vs last
    ∧ map r_thread rows = filter (λ v, word (mem v) 0x1a0 = SIGNATURE) vs.
Proof.
  intros Hmem. revert a seen log rows last seen' log'. induction n as [|n IH]; intros a seen log rows last seen' log' H; cbn [walk_from] in H.
  { injection H as <- <- <- <-. exists []. split; [constructor|done]. }
  case_bool_decide as Hs; [injection H as <- <- <- <-; exists []; split; [by constructor|done]|].
  apply bind_returns in H as (raw & log1 & Hr & H). apply read_returns in Hr. rewrite Hmem in Hr. injection Hr as <-.
  destruct (word (mem a) 0x1a0 =? SIGNATURE) eqn:Esig; cbn [negb] in H.
  - apply bind_returns in H as (r & log2 & Hrow & H). apply row_of_thread in Hrow. apply Z.eqb_eq in Esig as Es.
    destruct (ptr (word (mem a) link) =? 0) eqn:E0.
    + injection H as <- <- <- <-. exists [a]. split; [apply Z.eqb_eq in E0; rewrite E0; apply v_end; [done|unfold next_of; by rewrite Esig]|].
      rewrite filter_cons_True, filter_nil by done. cbn. by rewrite Hrow.
    + apply bind_returns in H as ([[rows1 last1] seen1] & log3 & Hw & H). injection H as <- <- <- <-.
      apply IH in Hw as (vs & Hv & Hrows). exists (a :: vs). split; [|rewrite filter_cons_True by done; cbn; by rewrite Hrow, Hrows].
      apply v_next; [done|unfold next_of; rewrite Esig; lia|]. unfold next_of at 1. by rewrite Esig.
  - assert (word (mem a) 0x1a0 ≠ SIGNATURE) as Es by lia. destruct (ptr (word (mem a) 0) =? 0) eqn:E0.
    + injection H as <- <- <- <-. exists [a]. split; [apply Z.eqb_eq in E0; rewrite E0; apply v_end; [done|unfold next_of; by rewrite Esig]|].
      by rewrite filter_cons_False, filter_nil.
    + apply IH in H as (vs & Hv & Hrows). exists (a :: vs). split; [|by rewrite filter_cons_False].
      apply v_next; [done|unfold next_of; rewrite Esig; lia|]. unfold next_of at 1. by rewrite Esig.
Qed.
End walk.

(** What [walk] returns of memory that does not change: the signed threads of
    the queue, each once, at most 256. *)
Lemma walk_reads_queue g mem anchor path link log rows log' :
  (∀ log a, g_read g log a 0x440 = Some (mem a)) → walk g anchor path link log = (Ok rows, log') →
  ∃ vs last, visits link mem WALK_LIMIT anchor [] vs last ∧ NoDup vs ∧ (length rows ≤ WALK_LIMIT)%nat
    ∧ map r_thread rows = filter (λ v, word (mem v) 0x1a0 = SIGNATURE) vs.
Proof.
  unfold walk. generalize WALK_LIMIT. intros n Hmem H. apply bind_returns in H as ([[rows' last] seen] & log1 & Hw & H).
  injection H as <- _. apply (walk_from_visits g mem) in Hw as (vs & Hv & Hrows); [|done].
  exists vs, last. pose proof (visits_distinct _ _ _ _ _ _ _ Hv) as (Hnd & _ & Hlen). split_and!; [done|done| |done].
  assert (length rows' = length (map r_thread rows')) as -> by (symmetry; apply length_fmap). rewrite Hrows.
  etrans; [apply length_filter|done].
Qed.
