(* ===== verification/PhysTask.v ===== *)
(** * Memory of sleeping tasks: [tools/re/physical_task_memory.py]

    The list of the processes of a stopped guest, and the memory of one that is
    not running: its page tables are walked with reads of physical memory, in a
    mode of the debug stub that has to be left again.  The guest is that of
    [LiveThreads]. *)

From stdpp Require Import base tactics list list_numbers strings.
From Stdlib Require Import Strings.Byte.
From S2P Require Import Prelude PyState PyBytes PyStr PyDict LiveThreads.
From S2P Require StartupDecode PageWalk TrustCache.
Open Scope Z_scope.

Section guest.
Variable g : guest.
Abbreviation read := (LiveThreads.read g).

(** ** [list_processes] *)

Record proc := Proc { p_address : Z; p_name : list Z }.
(** [raw[0x55c:0x56c].split(b"\0", 1)[0].decode("ascii", "replace")]. *)
Definition name_of (raw : list byte) : list Z := StartupDecode.ascii_replace (before x00 raw).
Definition printable (name : list Z) : bool := forallb ascii_printable name.

(** One direction; [link] is 0 or 8.  [records] is keyed by address. *)
Fixpoint follow_from (n : nat) (link address : Z) (seen : list Z) (records : list (Z * proc)) : GM (list (Z * proc)) :=
  match n with
  | O => mret records
  | S n =>
      if (address =? 0) || bool_decide (address ∈ seen) || negb (Z.land address 7 =? 0) then mret records
      else
        raw ← except_RuntimeError (raw ← read address 0x57c; mret (Some raw)) (mret None);
        match raw with
        | None => mret records
        | Some raw =>
            let name := name_of (slice 0x55c 0x56c raw) in
            if bool_decide (name = []) || negb (printable name) then mret records
            else follow_from n link (word raw link) (address :: seen) (dset address (Proc address name) records)
        end
  end.
Definition list_processes (anchor : Z) (path : list Z) : GM (list proc) :=
  records ← follow_from 512 0 anchor [] [];
  records ← follow_from 512 8 anchor [] records;
  _ ← did (Report path);
  mret (map snd records).

(** ** Packets *)

(** [output.split("response:", 1)[1].strip()]. *)
Definition response_of (output : list Z) : option (list Z) :=
  i ← find (u "response:") output; Some (strip (zdrop (i + 9) output)).
Definition packet (command : list Z) : GM (list Z) :=
  log ← gets id;
  _ ← did (Packet command);
  output ← lift (opt_or (g_packet g log command) (RuntimeError "packet failed"));
  lift (opt_or (response_of output) (RuntimeError "missing GDB response")).

Definition mode_query : list Z := u "qqemu.PhyMemMode".
Definition mode_on : list Z := u "Qqemu.PhyMemMode:1".
Definition mode_off : list Z := u "Qqemu.PhyMemMode:0".
Definition read_command (address size : Z) : list Z := u "m" ++ digits_of 16 address ++ u "," ++ digits_of 16 size.

(** ** [PhysicalTaskMemory] *)

(** [__init__]: 43-bit addresses and 16K pages. *)
Definition geometry_ok (tcr : Z) : bool := (Z.land tcr 0x3f =? 21) && (Z.land (Z.shiftr tcr 14) 3 =? 2).
Definition enter : GM () :=
  mode ← packet mode_query;
  _ ← when (negb (bool_decide (mode = u "0"))) (raise (RuntimeError "GDB is already in physical-memory mode"));
  ok ← packet mode_on;
  when (negb (bool_decide (ok = u "OK"))) (raise (RuntimeError "cannot enable physical-memory mode")).
Definition leave : GM () :=
  ok ← packet mode_off;
  when (negb (bool_decide (ok = u "OK"))) (raise (RuntimeError "cannot restore virtual-memory mode; do not resume")).
(** [with PhysicalTaskMemory(debugger, root) as memory: m]. *)
Definition with_physical {A} (tcr : Z) (m : GM A) : GM A :=
  _ ← when (negb (geometry_ok tcr)) (raise (RuntimeError "requires verified 43-bit VA / 16K granule"));
  _ ← enter;
  (λ s, match m s with
        | (Ok a, s) => (_ ← leave; mret a) s
        | (Raise e, s) => (_ ← leave; raise e) s
        end) : GM A.

Definition physical (address size : Z) : GM (list byte) :=
  raw ← packet (read_command address size);
  data ← lift (match fromhex raw with Ok d => Ok d | Raise _ => Raise (RuntimeError "physical read failed") end);
  _ ← when (negb (zlen data =? size)) (raise (RuntimeError "short physical read"));
  mret data.

(** The walk of one virtual address: its physical address. *)
Fixpoint walk_levels (levels : list (Z * Z)) (table va : Z) : GM Z :=
  match levels with
  | [] => raise (RuntimeError "no level left")
  | (level, shift) :: levels =>
      let index := Z.land (Z.shiftr va shift) (if level =? 1 then 0x7f else 0x7ff) in
      raw ← physical (table + index * 8) 8;
      let entry := le_Z raw in
      _ ← when ((Z.land entry 1 =? 0) || ((level =? 3) && negb (Z.land entry 3 =? 3))) (raise (RuntimeError "unmapped VA"));
      if (Z.land entry 3 =? 1) || (level =? 3) then
        let mask := Z.shiftl 1 shift - 1 in
        mret (Z.lor (Z.land (Z.land entry 0x0000ffffffffffff) (Z.lnot mask)) (Z.land va mask))
      else walk_levels levels (Z.land entry 0x0000ffffffffc000) va
  end.
Definition LEVELS : list (Z * Z) := [(1, 36); (2, 25); (3, 14)].
Section root.
Variable root : Z.

(** The [while] loop; every pass reads at least a byte. *)
Fixpoint read_from (fuel : nat) (va left_ : Z) : GM (list byte) :=
  if left_ <=? 0 then mret []
  else match fuel with
  | O => raise OutOfFuel
  | S fuel =>
      pa ← walk_levels LEVELS (Z.land root 0x0000fffffffffc00) va;
      let length := Z.min left_ (0x4000 - Z.land va 0x3fff) in
      data ← physical pa length;
      rest ← read_from fuel (va + zlen data) (left_ - zlen data);
      mret (data ++ rest)
  end.
Definition read_user (address size : Z) : GM (list byte) :=
  if negb ((0 <=? address) && (address <? Z.shiftl 1 43)) || negb ((0 <=? size) && (size <=? 0x100000))
  then raise (ValueError "user address/size out of bounds")
  else read_from (Z.to_nat size) address size.
Definition user_u64 (address : Z) : GM Z := raw ← read_user address 8; mret (le_Z raw).
Definition progname (slide : Z) : GM (list Z) :=
  pointer ← user_u64 (0x1e6ef1590 + slide);
  string ← user_u64 pointer;
  raw ← read_user string 96;
  mret (name_of raw).
(** [except (RuntimeError, ValueError)]; at most 64 frames. *)
Definition ends_chain (e : exn) : bool := match e with RuntimeError _ | ValueError _ => true | _ => false end.
Definition chains (rows : list row) : GM (list chain) :=
  each (chain_of 64 (λ fp, read_user fp 16) ends_chain) rows.
End root.

(** ** [inspect_process] *)

Record task := Task {
  t_proc : Z; t_name : list Z; t_map : Z; t_pmap : Z; t_root : Z; t_threads : list row; t_chains : list chain;
}.
Definition u64 (address : Z) : GM Z := raw ← read address 8; mret (le_Z raw).
Definition inspect_process (tcr proc : Z) (path : list Z) (slide : Z) : GM task :=
  raw ← read (proc + 0x55c) 16;
  let kernel_name := name_of raw in
  vm_map ← u64 (proc + 0x790);
  pmap ← u64 (vm_map + 0x58);
  root ← u64 (pmap + 8);
  threads ← u64 (proc + 0x7b8);
  rows ← walk g threads (path ++ u ".threads.json") 0x408;
  '(name, cs) ← with_physical tcr
    (name ← progname root slide;
     _ ← when (negb (bool_decide (ztake (zlen kernel_name) name = kernel_name))) (raise (RuntimeError "process mapping mismatch"));
     cs ← chains root rows;
     mret (name, cs));
  _ ← did (Report path);
  mret (Task proc name vm_map pmap root rows cs).
End guest.

(** ** Which mode the stub is in *)

Section modes.
Variable g : guest.

(** The response to a packet after a log. *)
Definition response (log : list access) (command : list Z) : option (list Z) := g_packet g log command ≫= response_of.
(** The mode the stub is in after a log, which need not be the virtual one at
    the start.  What the stub's documentation says of it: an answer of 0 to the
    query is true, an acknowledged request has its effect, and nothing else
    than a request changes the mode; a request that is not acknowledged may or
    may not have had its effect. *)
Record stub_laws (mode : list access → bool) : Prop := {
  law_query : ∀ log, response log mode_query = Some (u "0") → mode log = false;
  law_on : ∀ log, response log mode_on = Some (u "OK") → mode (Packet mode_on :: log) = true;
  law_off : ∀ log, response log mode_off = Some (u "OK") → mode (Packet mode_off :: log) = false;
  law_other : ∀ a log, a ≠ Packet mode_on → a ≠ Packet mode_off → mode (a :: log) = mode log;
}.
Variable mode : list access → bool.
Hypothesis laws : stub_laws mode.
Abbreviation found := (mode []).

(** Every access was made in the mode it is meant for: kernel memory in the mode
    that was found, physical memory in the physical one, after it was found that
    the stub was not in it. *)
Fixpoint in_mode (log : list access) : Prop :=
  match log with
  | [] => True
  | Virtual _ _ :: log | Report _ :: log => mode log = found ∧ in_mode log
  | Packet c :: log => (startswith (u "m") c = true → mode log = true ∧ found = false) ∧ in_mode log
  end.
Definition outside (log : list access) : Prop := in_mode log ∧ mode log = found.
Definition inside (log : list access) : Prop := in_mode log ∧ mode log = true ∧ found = false.
Definition anything (e : exn) : Prop := True.
Abbreviation Outside := (Holds outside anything).
Abbreviation Inside := (Holds inside anything).

#[local] Instance outside_did_virtual a n : Outside (did (Virtual a n)).
Proof. apply holds_update. intros log [H1 H2]. split; [by split|]. by rewrite (law_other mode laws). Qed.
#[local] Instance outside_did_report path : Outside (did (Report path)).
Proof. apply holds_update. intros log [H1 H2]. split; [by split|]. by rewrite (law_other mode laws). Qed.
#[local] Instance any_lift {A} (I : list access → Prop) (m : res A) : Holds I anything (lift m).
Proof. by apply holds_lift. Qed.
#[local] Instance any_raise {A} (I : list access → Prop) e : Holds I anything (raise (A := A) e).
Proof. by apply holds_raise. Qed.
#[local] Instance outside_read a n : Outside (LiveThreads.read g a n).
Proof. unfold LiveThreads.read. apply _. Qed.
#[local] Instance any_each {A B} (I : list access → Prop) (f : A → GM B) l : (∀ x, Holds I anything (f x)) → Holds I anything (each f l).
Proof. intros Hf. induction l as [|x l IH]; cbn [each]; apply _. Qed.
#[local] Instance outside_row_of a raw : Outside (row_of g a raw).
Proof. unfold row_of. apply _. Qed.
#[local] Instance outside_walk_from n link a seen : Outside (walk_from g n link a seen).
Proof.
  revert a seen. induction n as [|n IH]; intros a seen; cbn [walk_from]; [apply _|].
  case_bool_decide; [apply _|]. apply holds_bind; [apply _|]. intros raw. destruct (negb _).
  - destruct (_ =? 0); apply _.
  - apply holds_bind; [apply _|]. intros r. destruct (_ =? 0); [apply _|]. apply holds_bind; [apply IH|].
    intros [[rows last] seen']. apply _.
Qed.
#[local] Instance outside_walk anchor path link : Outside (walk g anchor path link).
Proof. unfold walk. apply holds_bind; [apply _|]. intros [[rows last] seen]. apply _. Qed.
#[local] Instance outside_u64 a : Outside (u64 g a).
Proof. unfold u64. apply _. Qed.

(** A read of physical memory stays inside. *)
Lemma read_command_other a n : read_command a n ≠ mode_on ∧ read_command a n ≠ mode_off.
Proof. split; unfold read_command; intros [=]. Qed.
#[local] Instance inside_packet a n : Inside (packet g (read_command a n)).
Proof.
  unfold packet. intros log [H1 H2]. apply keeps_gets.
  assert (inside (Packet (read_command a n) :: log)) as Hin.
  { destruct (read_command_other a n) as [Hon Hoff]. split; cbn [in_mode]; [by split|]. rewrite (law_other mode laws); [done|congruence..]. }
  eapply keeps_ok; [done|]. by apply (_ : Inside (output ← _; _)).
Qed.
#[local] Instance inside_physical a n : Inside (physical g a n).
Proof. unfold physical. apply _. Qed.
#[local] Instance inside_walk_levels levels table va : Inside (walk_levels g levels table va).
Proof.
  revert table. induction levels as [|[level shift] levels IH]; intros table; cbn [walk_levels]; [apply _|].
  apply holds_bind; [apply _|]. intros raw. apply holds_bind; [apply _|]. intros _. destruct (_ || _); apply _.
Qed.
#[local] Instance inside_read_from root fuel va n : Inside (read_from g root fuel va n).
Proof. revert va n. induction fuel as [|fuel IH]; intros va n; cbn [read_from]; destruct (_ <=? 0); apply _. Qed.
#[local] Instance inside_read_user root a n : Inside (read_user g root a n).
Proof. unfold read_user. apply _. Qed.
#[local] Instance inside_progname root slide : Inside (progname g root slide).
Proof. unfold progname, user_u64. apply _. Qed.
#[local] Instance any_frames (I : list access → Prop) n rd caught fp seen :
  (∀ a, Holds I anything (rd a)) → Holds I anything (frames_from n rd caught fp seen).
Proof.
  intros Hrd. revert fp seen. induction n as [|n IH]; intros fp seen; cbn [frames_from]; [apply _|].
  destruct (_ || _); [apply _|]. intros s Hs. specialize (Hrd fp s Hs). unfold keeps_at in *.
  destruct (rd fp s) as [[raw|e] s']; cbn in Hrd.
  - apply holds_bind; [apply IH|apply _|apply Hrd].
  - by destruct (caught e).
Qed.
#[local] Instance inside_chains root rows : Inside (chains g root rows).
Proof. unfold chains, chain_of. apply _. Qed.

(** What is left after an exception: the mode that was found, or a request to
    change it that was not acknowledged. *)
Definition unacknowledged (log : list access) : Prop :=
  ∃ c log', log = Packet c :: log' ∧ c ∈ [mode_on; mode_off] ∧ response log' c ≠ Some (u "OK").
Definition left_behind (e : exn) (log : list access) : Prop :=
  in_mode log ∧ (mode log = found ∨ unacknowledged log ∧ ∃ msg, e = RuntimeError msg).
Lemma outside_left e log : outside log → left_behind e log.
Proof. intros [H1 H2]. split; auto. Qed.
Lemma holds_then {A B} (I : list access → Prop) (m : GM A) (f : A → GM B) (Q : B → list access → Prop) E s :
  Holds I anything m → I s → (∀ e s', I s' → E e s') → (∀ a s', I s' → wp (f a) Q E s') → wp (m ≫= f) Q E s.
Proof.
  intros Hm Hs HE Hf. apply wp_bind. unfold wp. specialize (Hm s Hs). unfold keeps_at in Hm.
  destruct (m s) as [[a|e] s']; cbn in Hm; destruct Hm as [Hi _]; [by apply Hf|by apply HE].
Qed.
(** A request to change the mode. *)
Lemma packet_wp c (Q : list Z → list access → Prop) (E : exn → list access → Prop) log :
  (∀ r, response log c = Some r → Q r (Packet c :: log)) →
  (response log c = None → ∀ msg, E (RuntimeError msg) (Packet c :: log)) →
  wp (packet g c) Q E log.
Proof.
  intros HQ HE. unfold packet, response in *. apply wp_bind, wp_gets, wp_bind, wp_update, wp_bind, wp_lift.
  - intros out Hout. change (id log) with log in Hout. destruct (g_packet g log c) as [o|]; [|done].
    injection Hout as ->. cbn in HQ, HE. apply wp_lift.
    + intros r Hr. apply HQ. destruct (response_of out); by simplify_eq/=.
    + intros e Hr. destruct (response_of out); simplify_eq/=. by apply HE.
  - intros e He. change (id log) with log in He. destruct (g_packet g log c) as [o|]; simplify_eq/=. by apply HE.
Qed.
Lemma in_mode_request c log : startswith (u "m") c = false → in_mode log → in_mode (Packet c :: log).
Proof. intros Hc Hlog. split; [congruence|done]. Qed.

Lemma enter_wp (log : list access) : outside log → wp (enter g) (λ _, inside) left_behind log.
Proof.
  intros [H1 H2]. unfold enter.
  assert (outside (Packet mode_query :: log)) as Hq by (split; [by apply in_mode_request|by rewrite (law_other mode laws)]).
  apply wp_bind, packet_wp; [intros r Hr|by intros _ msg; apply outside_left].
  apply wp_bind, wp_when; intros Hd; [by apply wp_raise, outside_left|].
  apply negb_false_iff, bool_decide_eq_true in Hd as ->. apply (law_query mode laws) in Hr. rewrite Hr in H2. clear H1 Hr.
  revert Hq. generalize (Packet mode_query :: log). clear log. intros log [H1 H3].
  assert (in_mode (Packet mode_on :: log)) as Hin by (by apply in_mode_request).
  assert (∀ r msg, response log mode_on = r → r ≠ Some (u "OK") → left_behind (RuntimeError msg) (Packet mode_on :: log)) as Hno.
  { intros r msg <- Hr. split; [done|]. right. split; [|eauto]. exists mode_on, log. split_and!; [done|by left|done]. }
  apply wp_bind, packet_wp; [intros r Hr|by intros Hr msg; eapply Hno]. apply wp_when; intros Hd.
  - apply wp_raise. eapply Hno; [exact Hr|]. intros [= ->]. by rewrite bool_decide_true in Hd.
  - apply negb_false_iff, bool_decide_eq_true in Hd as ->. split; [done|]. by rewrite (law_on mode laws).
Qed.
Lemma leave_wp (log : list access) : inside log → wp (leave g) (λ _ s, outside s ∧ found = false) left_behind log.
Proof.
  intros (H1 & H2 & H3). unfold leave. assert (in_mode (Packet mode_off :: log)) as Hin by (by apply in_mode_request).
  assert (∀ r msg, response log mode_off = r → r ≠ Some (u "OK") → left_behind (RuntimeError msg) (Packet mode_off :: log)) as Hno.
  { intros r msg <- Hr. split; [done|]. right. split; [|eauto]. exists mode_off, log. split_and!; [done|by right; left|done]. }
  apply wp_bind, packet_wp; [intros r Hr|by intros Hr msg; eapply Hno]. apply wp_when; intros Hd.
  - apply wp_raise. eapply Hno; [exact Hr|]. intros [= ->]. by rewrite bool_decide_true in Hd.
  - apply negb_false_iff, bool_decide_eq_true in Hd as ->. split; [|done]. split; [done|]. by rewrite (law_off mode laws).
Qed.
Lemma with_physical_wp {A} tcr (m : GM A) log :
  Holds inside anything m → outside log → wp (with_physical g tcr m) (λ _ s, outside s ∧ found = false) left_behind log.
Proof.
  intros Hm Hlog. unfold with_physical. apply wp_bind, wp_when; intros _; [by apply wp_raise, outside_left|].
  eapply wp_then; [by apply enter_wp|].
  intros [] s Hs. cbv beta in Hs. specialize (Hm s Hs). unfold wp at 1. unfold keeps_at in Hm.
  destruct (m s) as [[a|e] s']; cbn in Hm; destruct Hm as [Hs' _]; pose proof (leave_wp s' Hs') as Hl;
    unfold wp in Hl; unfold mbind, se_bind; destruct (leave g s') as [[[]|e'] s'']; [done|done|by apply outside_left, Hl|done].
Qed.

Lemma inspect_process_modes tcr proc path slide log :
  outside log → wp (inspect_process g tcr proc path slide) (λ _ s, outside s ∧ found = false) left_behind log.
Proof.
  intros H0. unfold inspect_process.
  do 6 (eapply (holds_then outside); [apply _|eassumption|by intros; apply outside_left|]; clear log H0; intros ? log H0).
  eapply wp_then; [apply with_physical_wp; [|exact H0]|].
  - apply holds_bind; [apply _|]. intros name. apply holds_bind; [apply _|]. intros _. apply _.
  - cbv beta. intros [name cs] s [Hs Hf]. eapply (holds_then outside); [apply _|exact Hs|by intros; apply outside_left|].
    intros _ s' Hs'. by apply wp_ret.
Qed.

(** C30: An inspection gives the debug stub back in the mode it found it in, or
    the caller is told.  For every stub that keeps its documented promises, in
    whatever mode it starts: physical memory is read only in the physical mode
    and only when the stub was found in the virtual one, kernel memory and the
    reports only in the mode that was found; an inspection that returns found
    the virtual mode and leaves it; and after an exception the mode is the one
    that was found, unless the last thing done was a request to change it that
    the stub did not acknowledge, and the exception is a RuntimeError. *)
Theorem inspection_leaves_physical_mode tcr proc path slide :
  let '(r, log) := inspect_process g tcr proc path slide [] in
  in_mode log
  ∧ match r with
    | Ok _ => found = false ∧ mode log = false
    | Raise e => mode log = found ∨ unacknowledged log ∧ ∃ msg, e = RuntimeError msg
    end.
Proof.
  assert (outside []) as H0 by done. pose proof (inspect_process_modes tcr proc path slide [] H0) as H. unfold wp in H.
  destruct (inspect_process g tcr proc path slide []) as [[t|e] log]; [|exact H]. destruct H as [[H1 H2] H3]. by rewrite H2.
Qed.
End modes.

(** ** The same translation as of a dump *)

Section translation.
Variable g : guest.
Variable maps : PageWalk.maps_t.

(** The stub answers a read of dumped memory with its bytes in hexadecimal. *)
Definition serves : Prop := ∀ log a n data,
  0 ≤ a → 0 ≤ n → PageWalk.physical maps a n = Ok data → response g log (read_command a n) = Some (hex_of_bytes data).
(** Regions of a dump that overlap agree, and have addresses. *)
Definition consistent : Prop :=
  (∀ pa x y, PageWalk.holds maps pa x → PageWalk.holds maps pa y → x = y) ∧ Forall (λ r, 0 ≤ r.1) maps.
Hypothesis Hserves : serves.
Hypothesis Hconsistent : consistent.

Lemma bind_runs {A B} (m : GM A) (f : A → GM B) a s s' : m s = (Ok a, s') → (m ≫= f) s = f a s'.
Proof. unfold mbind, se_bind. by intros ->. Qed.
Lemma packet_returns c r log : response g log c = Some r → packet g c log = (Ok r, Packet c :: log).
Proof.
  unfold response, packet. intros H. rewrite (bind_runs _ _ log log log) by done.
  rewrite (bind_runs _ _ () log (Packet c :: log)) by done. destruct (g_packet g log c) as [out|]; [|done]. cbn in H.
  rewrite (bind_runs _ _ out _ (Packet c :: log)) by done. by rewrite H.
Qed.
(** A range is readable when it lies in a region. *)
Lemma physical_covers (ms : PageWalk.maps_t) base bytes a n :
  (base, bytes) ∈ ms → base ≤ a → a + n ≤ base + zlen bytes → ∃ d, PageWalk.physical ms a n = Ok d.
Proof.
  intros Hin Hb He. induction ms as [|[b0 d0] ms IH]; [by apply not_elem_of_nil in Hin|]. cbn [PageWalk.physical].
  destruct ((b0 <=? a) && (a + n <=? b0 + zlen d0)) eqn:E; [eauto|]. apply elem_of_cons in Hin as [[= -> ->]|Hin]; [lia|auto].
Qed.
Lemma physical_region (ms : PageWalk.maps_t) a n d :
  PageWalk.physical ms a n = Ok d → ∃ base bytes, (base, bytes) ∈ ms ∧ base ≤ a ∧ a + n ≤ base + zlen bytes.
Proof.
  induction ms as [|[b0 d0] ms IH]; cbn [PageWalk.physical]; [done|].
  destruct ((b0 <=? a) && (a + n <=? b0 + zlen d0)) eqn:E.
  - intros _. exists b0, d0. split; [apply list_elem_of_here|lia].
  - intros (base & bytes & Hin & ?)%IH. exists base, bytes. split; [by apply elem_of_cons; right|done].
Qed.
Lemma physical_returns a n data log :
  0 ≤ n → PageWalk.physical maps a n = Ok data → physical g a n log = (Ok data, Packet (read_command a n) :: log).
Proof.
  intros Hn H. assert (0 ≤ a) as Ha.
  { destruct (physical_region maps a n data H) as (base & bytes & Hin & Hb & _).
    pose proof (proj1 (Forall_forall _ _) (proj2 Hconsistent) _ Hin) as H0. cbn in H0. lia. }
  pose proof (Hserves log a n data Ha Hn H) as Hr. pose proof (PageWalk.physical_spec maps a n Hn) as Hs.
  rewrite H in Hs. destruct Hs as [Hl _]. unfold physical. erewrite bind_runs by (by apply packet_returns).
  rewrite TrustCache.fromhex_hex. erewrite bind_runs by done. unfold when. by rewrite Hl, Z.eqb_refl.
Qed.

(** A part of a readable range is readable, with the same bytes. *)
Lemma physical_part a n data i m :
  PageWalk.physical maps a n = Ok data → 0 ≤ i → 0 ≤ m → i + m ≤ n →
  PageWalk.physical maps (a + i) m = Ok (slice i (i + m) data).
Proof.
  intros H Hi Hm Hn. destruct (physical_region maps a n data H) as (base & bytes & Hin & Hb & He).
  destruct (physical_covers maps base bytes (a + i) m Hin) as [d Hd]; [lia|lia|]. rewrite Hd. f_equal.
  pose proof (PageWalk.physical_spec maps a n ltac:(lia)) as Hs. rewrite H in Hs. destruct Hs as [Hl Hh].
  pose proof (PageWalk.physical_spec maps (a + i) m Hm) as Hs. rewrite Hd in Hs. destruct Hs as [Hl' Hh'].
  assert (zlen (slice i (i + m) data) = m) as Hls by (rewrite zlen_slice; lia).
  apply list_eq_znth; [lia|]. intros j Hj.
  assert (is_Some (znth j d)) as [x Hx] by (rewrite znth_lookup by lia; apply lookup_lt_is_Some; unfold zlen in Hj; lia).
  assert (is_Some (znth (i + j) data)) as [y Hy] by (rewrite znth_lookup by lia; apply lookup_lt_is_Some; unfold zlen in Hl; lia).
  rewrite Hx, znth_slice by lia. rewrite Hy. f_equal. apply (proj1 Hconsistent (a + i + j)); [by apply Hh'; [lia|]|].
  replace (a + i + j) with (a + (i + j)) by lia. by apply Hh; [lia|].
Qed.

(** The two walks read the same entries and give the same address. *)
Lemma entry_address entry s :
  14 ≤ s → Z.land (Z.land entry 0x0000ffffffffffff) (Z.lnot (Z.ones s))
         = Z.land (Z.land entry 0x0000ffffffffc000) (Z.lnot (Z.ones s)).
Proof.
  intros Hs. apply Z.bits_inj'. intros i Hi. rewrite !Z.land_spec, Z.lnot_spec by done.
  destruct (Z_lt_le_dec i s) as [Hlt|Hge]; [rewrite Z.ones_spec_low by lia; by rewrite !andb_false_r|].
  rewrite Z.ones_spec_high by lia. rewrite !andb_true_r. f_equal.
  change 0x0000ffffffffffff with (Z.ones 48). change 0x0000ffffffffc000 with (Z.ldiff (Z.ones 48) (Z.ones 14)).
  rewrite Z.ldiff_spec, (Z.ones_spec_high 14) by lia. by rewrite andb_true_r.
Qed.
Lemma walk_levels_same levels table va pa room log :
  Forall (λ l, 14 ≤ l.2) levels → PageWalk.walk_levels maps levels table va = Ok (pa, room) →
  ∃ log', walk_levels g levels table va log = (Ok pa, log').
Proof.
  intros Hl. revert table log. induction Hl as [|[level shift] levels Hs Hl IH]; intros table log H; [done|].
  cbn [PageWalk.walk_levels walk_levels] in *. cbn in Hs. apply bind_Ok in H as (raw & Hraw & H).
  erewrite bind_runs by (apply physical_returns; [lia|exact Hraw]). set (bad := _ || _) in H |- *. destruct bad; [done|].
  unfold when at 1. erewrite bind_runs by done. destruct ((Z.land (le_Z raw) 3 =? 1) || (level =? 3)).
  - injection H as <- _. rewrite PageWalk.mask_ones, entry_address by lia. by eexists.
  - by apply IH.
Qed.

(** What the reader of a dump reads, as a list of chunks of blocks. *)
Inductive readable (root : Z) : Z → Z → list byte → Prop :=
  | rd_none va n : n ≤ 0 → readable root va n []
  | rd_chunk va n pa room c out :
      0 < n → PageWalk.translate maps root va = Ok (pa, room) → PageWalk.physical maps pa (Z.min n room) = Ok c →
      zlen c = Z.min n room → readable root (va + zlen c) (n - zlen c) out → readable root va n (c ++ out).
Lemma user_readable fuel root va n out : PageWalk.user_from fuel maps root va n = Ok out → readable root va n out.
Proof.
  revert va n out. induction fuel as [|fuel IH]; intros va n out H; cbn [PageWalk.user_from] in H;
    (destruct (n <=? 0) eqn:En; [injection H as <-; apply rd_none; lia|]); [done|].
  apply bind_Ok in H as ([pa room] & Ht & H). apply bind_Ok in H as (c & Hc & H). apply bind_Ok in H as (rest & Hr & [= <-]).
  pose proof (PageWalk.translate_next _ _ _ _ _ Ht) as [Hroom _].
  pose proof (PageWalk.physical_spec maps pa (Z.min n room) ltac:(lia)) as Hs. rewrite Hc in Hs.
  eapply rd_chunk; [lia|exact Ht|exact Hc|apply Hs|by apply IH].
Qed.
(** The rest of a readable range, from anywhere in it. *)
Lemma readable_rest root va n out l :
  readable root va n out → 0 ≤ l ≤ n → readable root (va + l) (n - l) (zdrop l out).
Proof.
  intros H. revert l. induction H as [va n Hn|va n pa room c out Hn Ht Hc Hlc Hrest IH]; intros l Hl.
  { rewrite zdrop_drop, drop_nil. apply rd_none. lia. }
  pose proof (PageWalk.translate_next _ _ _ _ _ Ht) as [Hroom Hnext].
  destruct (Z_lt_le_dec l (zlen c)) as [Hlt|Hge].
  - assert (zdrop l (c ++ out) = zdrop l c ++ out) as ->.
    { rewrite !zdrop_drop. rewrite drop_app_le; [done|]. unfold zlen in Hlt. lia. }
    assert (zlen (zdrop l c) = zlen c - l) as Hlz by (rewrite zlen_zdrop; lia).
    eapply (rd_chunk root (va + l) (n - l) (pa + l) (room - l)); [lia|apply Hnext; lia| |lia|].
    + replace (Z.min (n - l) (room - l)) with (zlen c - l) by lia.
      rewrite (physical_part pa (Z.min n room) c l (zlen c - l) Hc) by lia. f_equal. unfold slice.
      replace (l + (zlen c - l) - l) with (zlen c - l) by lia. apply ztake_ge. lia.
    + rewrite Hlz. by replace (va + l + (zlen c - l)) with (va + zlen c) by lia;
        replace (n - l - (zlen c - l)) with (n - zlen c) by lia.
  - assert (zdrop l (c ++ out) = zdrop (l - zlen c) out) as ->.
    { rewrite !zdrop_drop. rewrite drop_app_ge; [|unfold zlen in Hge; lia]. f_equal. unfold zlen. lia. }
    specialize (IH (l - zlen c) ltac:(lia)).
    by replace (va + l) with (va + zlen c + (l - zlen c)) by lia; replace (n - l) with (n - zlen c - (l - zlen c)) by lia.
Qed.

(** The bytes left in the page bound the bytes left in the block. *)
Lemma block_has_page root va pa room :
  PageWalk.translate maps root va = Ok (pa, room) → 0x4000 - Z.land va 0x3fff ≤ room.
Proof.
  unfold PageWalk.translate. generalize (Z.land root 0x0000fffffffffc00). intros table H.
  assert (∀ levels table, Forall (λ l, 14 ≤ l.2) levels → PageWalk.walk_levels maps levels table va = Ok (pa, room) →
    0x4000 - Z.land va 0x3fff ≤ room) as Hall; [|by eapply Hall; [|exact H]; repeat constructor].
  clear. intros levels table Hl. revert table. induction Hl as [|[level s] levels Hs Hl IH]; intros table H; [done|].
  cbn [PageWalk.walk_levels] in H. cbn in Hs. apply bind_Ok in H as (raw & _ & H). destruct (_ || _) in H; [done|].
  destruct ((_ =? 1) || _) in H; [|by eapply IH]. injection H as _ <-. rewrite PageWalk.mask_ones, Z.land_ones by lia.
  rewrite Z.shiftl_mul_pow2, Z.mul_1_l by lia. change 0x3fff with (Z.ones 14). rewrite Z.land_ones by lia.
  pose proof (PageWalk.room_mono va s 14 ltac:(lia)). change (2 ^ 14) with 0x4000 in *. lia.
Qed.
Lemma read_from_same root fuel va n out log :
  readable root va n out → n ≤ Z.of_nat fuel → ∃ log', read_from g root fuel va n log = (Ok out, log').
Proof.
  revert va n out log. induction fuel as [|fuel IH]; intros va n out log H Hf.
  { destruct H; [|lia]. cbn [read_from]. replace (n <=? 0) with true by lia. by eexists. }
  destruct H as [va n Hn|va n pa room c out Hn Ht Hc Hlc Hrest]; cbn [read_from].
  { replace (n <=? 0) with true by lia. by eexists. }
  replace (n <=? 0) with false by lia.
  assert (readable root va n (c ++ out)) as Hr by (by eapply rd_chunk).
  pose proof (block_has_page root va pa room Ht) as Hroom.
  destruct (walk_levels_same LEVELS _ va pa room log ltac:(repeat constructor; cbn; lia) Ht) as (log1 & E1).
  erewrite bind_runs by exact E1. cbv zeta. set (l := Z.min n (0x4000 - Z.land va 0x3fff)).
  assert (0 < 0x4000 - Z.land va 0x3fff) as Hpos.
  { change 0x3fff with (Z.ones 14). rewrite Z.land_ones by lia. pose proof (Z.mod_pos_bound va (2 ^ 14) ltac:(lia)). lia. }
  assert (PageWalk.physical maps pa l = Ok (ztake l (c ++ out))) as Hp.
  { pose proof (physical_part pa (Z.min n room) c 0 l Hc ltac:(lia) ltac:(lia) ltac:(lia)) as Hp. rewrite Z.add_0_r in Hp.
    rewrite Hp. f_equal. unfold slice. rewrite zdrop_le_0 by lia. replace (0 + l - 0) with l by lia.
    rewrite !ztake_take. rewrite take_app_le; [done|]. unfold zlen in Hlc. lia. }
  erewrite bind_runs by (apply physical_returns; [lia|exact Hp]).
  assert (zlen (ztake l (c ++ out)) = l) as Hl.
  { rewrite zlen_ztake, zlen_app. pose proof (zlen_nonneg out). lia. }
  rewrite Hl. destruct (IH (va + l) (n - l) (zdrop l (c ++ out)) (Packet (read_command pa l) :: log1)) as (log2 & E2);
    [apply readable_rest; [done|lia]|lia|].
  erewrite bind_runs by exact E2. exists log2. by rewrite <-(ztake_zdrop l (c ++ out)) at 3.
Qed.

(** C31: The live reader reads what the post-mortem reader reads, up to its own
    limit of 1 MiB.  Of a guest whose stub answers reads of dumped physical
    memory with the dumped bytes, every user range of at most 0x100000 bytes
    that the dump's reader, which has no such limit, can read through the
    process' tables is read by the live walk, page by page, with the same
    bytes; a range of any other size is refused with a ValueError before the
    guest is touched. *)
Theorem live_read_agrees root address size data log :
  PageWalk.user maps root address size = Ok data →
  if (0 <=? size) && (size <=? 0x100000) then ∃ log', read_user g root address size log = (Ok data, log')
  else read_user g root address size log = (Raise (ValueError "user address/size out of bounds"), log).
Proof.
  intros H. unfold PageWalk.user in H. unfold read_user.
  destruct ((0 <=? address) && (address <? Z.shiftl 1 43)) eqn:Ea; [|done]. cbn [negb orb] in *.
  destruct ((0 <=? size) && (size <=? 0x100000)) eqn:Es; cbn [negb]; [|done]. apply user_readable in H.
  apply read_from_same; [done|lia].
Qed.
End translation.

(** ** A dump that is served *)

Definition sample_maps : PageWalk.maps_t := PageWalk.sample_maps.
(** The command is read back, and the dump answers. *)
Definition parse_read (command : list Z) : option (Z * Z) :=
  match split1 44 (zdrop 1 command) with
  | [a; n] => a ← int_hex a; n ← int_hex n; Some (a, n)
  | _ => None
  end.
Definition dump_guest (maps : PageWalk.maps_t) : guest := Guest (λ _ _ _, None) (λ _ c,
  '(a, n) ← parse_read c;
  match PageWalk.physical maps a n with
  | Ok data => Some (u "response: " ++ hex_of_bytes data ++ [10])
  | Raise _ => Some (u "response: E14")
  end).

(** Regions in order, after an address. *)
Fixpoint in_order (start : Z) (maps : PageWalk.maps_t) : bool :=
  match maps with [] => true | (base, data) :: maps => (start <=? base) && in_order (base + zlen data) maps end.
Lemma in_order_above start maps : in_order start maps = true → Forall (λ r, start ≤ r.1) maps.
Proof.
  revert start. induction maps as [|[base data] maps IH]; intros start H; [done|]. cbn in H.
  apply andb_true_iff in H as [Hs H]. constructor; [cbn; lia|]. eapply Forall_impl; [by apply IH|].
  intros r Hr. cbv beta in Hr. pose proof (zlen_nonneg data). lia.
Qed.
Lemma in_order_consistent maps : in_order 0 maps = true → consistent maps.
Proof.
  intros H. split; [|by apply in_order_above]. revert H. generalize 0. 
  induction maps as [|[base data] maps IH]; intros start H pa x y (b1 & d1 & H1 & L1 & E1) (b2 & d2 & H2 & L2 & E2);
    [by apply not_elem_of_nil in H1|].
  cbn in H. apply andb_true_iff in H as [Hs H]. pose proof (proj1 (Forall_forall _ _) (in_order_above _ _ H)) as Ha.
  assert (∀ b (d : list byte) z, znth (pa - b) d = Some z → b ≤ pa → pa < b + zlen d) as Hz.
  { intros b d z Hz Hb. rewrite znth_lookup in Hz by lia. apply lookup_lt_Some in Hz. unfold zlen. lia. }
  pose proof (Hz _ _ _ E1 L1). pose proof (Hz _ _ _ E2 L2).
  apply elem_of_cons in H1 as [[= -> ->]|H1], H2 as [[= -> ->]|H2].
  - congruence.
  - specialize (Ha _ H2). cbn in Ha. lia.
  - specialize (Ha _ H1). cbn in Ha. lia.
  - eapply IH; [exact H| |]; eexists _, _; eauto.
Qed.
Lemma parse_read_command a n : 0 ≤ a → 0 ≤ n → parse_read (read_command a n) = Some (a, n).
Proof.
  intros Ha Hn. unfold parse_read, read_command.
  assert (zdrop 1 (u "m" ++ digits_of 16 a ++ u "," ++ digits_of 16 n) = digits_of 16 a ++ 44 :: digits_of 16 n) as ->
    by by rewrite zdrop_drop.
  assert (∀ k, 0 ≤ k → 44 ∉ digits_of 16 k) as Hno.
  { intros k Hk Hin. pose proof (digits_of_Forall (λ c, c ≠ 44) 16 k ltac:(lia) Hk) as Hf.
    eapply Forall_forall in Hf; [by apply Hf|..|exact Hin]. intros d Hd. unfold digit_char. destruct (d <? 10) eqn:E; lia. }
  rewrite split1_sep, split1_none by auto. unfold int_hex.
  by rewrite !parse_digits_of by lia.
Qed.
Lemma hex_no_space l : Forall (λ c, is_space c = false) (hex_of_bytes l).
Proof.
  unfold hex_of_bytes. induction l as [|x l IH]; [done|]. cbn [map concat app]. pose proof (b2z_range x).
  constructor; [|constructor; [|done]]; apply digit_char_space; [|pose proof (Z.mod_pos_bound (b2z x) 16); lia].
  split; [apply Z.div_pos; lia|]. apply Z.div_lt_upper_bound; lia.
Qed.
Lemma response_of_answer l : response_of (u "response: " ++ l) = Some (strip (32 :: l)).
Proof. done. Qed.
Lemma strip_line l : Forall (λ c, is_space c = false) l → strip (32 :: l ++ [10]) = l.
Proof.
  intros Hl. unfold strip, lstrip. change (dropwhile is_space (32 :: ?k)) with (dropwhile is_space k).
  destruct l as [|x l]; [done|]. cbn [app dropwhile]. rewrite (Forall_inv Hl). unfold rstrip.
  rewrite app_comm_cons, reverse_app. change (dropwhile is_space (reverse [10] ++ ?k)) with (dropwhile is_space k).
  rewrite dropwhile_id by by apply Forall_reverse. apply reverse_involutive.
Qed.
Lemma dump_guest_serves maps : serves (dump_guest maps) maps.
Proof.
  intros log a n data Ha Hn H. unfold response, dump_guest. cbn [g_packet]. rewrite parse_read_command by done.
  cbn [mbind option_bind]. rewrite H. etrans; [apply response_of_answer|]. by rewrite strip_line by apply hex_no_space.
Qed.
Lemma live_read_agrees_witness :
  PageWalk.user sample_maps 0x10000 (2 ^ 25 + 0x3ffe) 6 = Ok (b "aapage")
  ∧ ∃ log', read_user (dump_guest sample_maps) 0x10000 (2 ^ 25 + 0x3ffe) 6 [] = (Ok (b "aapage"), log').
Proof.
  assert (PageWalk.user sample_maps 0x10000 (2 ^ 25 + 0x3ffe) 6 = Ok (b "aapage")) as E by (vm_compute; reflexivity).
  split; [exact E|].
  exact (live_read_agrees (dump_guest sample_maps) sample_maps (dump_guest_serves sample_maps)
    (in_order_consistent sample_maps ltac:(vm_compute; reflexivity)) 0x10000 (2 ^ 25 + 0x3ffe) 6 (b "aapage") [] E).
Defined.

(** A stub that starts in the mode [start] and acknowledges every request, of a
    guest whose memory repeats eight bytes. *)
Fixpoint mode_from (start : bool) (log : list access) : bool :=
  match log with
  | [] => start
  | Packet c :: log => if bool_decide (c = mode_on) then true else if bool_decide (c = mode_off) then false else mode_from start log
  | _ :: log => mode_from start log
  end.
Definition repeated (n : Z) : list byte := take (Z.to_nat n) (concat (replicate (Z.to_nat n) [x01; x01; x01; x01; x01; x00; x00; x00])).
Definition willing_stub (start : bool) : guest := Guest (λ _ _ n, Some (replicate (Z.to_nat n) x00)) (λ log c,
  Some (u "response: " ++
    if bool_decide (c = mode_query) then (if mode_from start log then u "1" else u "0")
    else if bool_decide (c = mode_on) || bool_decide (c = mode_off) then u "OK"
    else match parse_read c with Some (_, n) => hex_of_bytes (repeated n) | None => u "E14" end)).
Lemma willing_laws start : stub_laws (willing_stub start) (mode_from start).
Proof.
  split.
  - intros log. unfold response, willing_stub. cbn [g_packet]. rewrite bool_decide_true by done. by destruct (mode_from start log).
  - intros log _. cbn [mode_from]. by rewrite bool_decide_true.
  - intros log _. cbn [mode_from]. rewrite bool_decide_false by done. by rewrite bool_decide_true.
  - intros [| c |] log Hon Hoff; cbn [mode_from]; [done| |done]. by rewrite !bool_decide_false by congruence.
Qed.
Definition inspected (start : bool) : res task * list access := inspect_process (willing_stub start) 0x8015 0 (u "/t.json") 0 [].
(** A stub found in the virtual mode is inspected and given back; one found in
    the physical mode is left in it. *)
Lemma inspection_leaves_physical_mode_witness :
  is_ok (inspected false).1 = true ∧ mode_from false (inspected false).2 = false
  ∧ (inspected true).1 = Raise (RuntimeError "GDB is already in physical-memory mode") ∧ mode_from true (inspected true).2 = true.
Proof.
  pose proof (inspection_leaves_physical_mode (willing_stub false) (mode_from false) (willing_laws false) 0x8015 0 (u "/t.json") 0) as H.
  change (inspect_process _ _ _ _ _ _) with (inspected false) in H.
  assert (is_ok (inspected false).1 = true) as Hok by (vm_compute; reflexivity).
  split; [exact Hok|]. split; [|split; vm_compute; reflexivity].
  destruct (inspected false) as [[t|e] log]; [apply H|discriminate].
Defined.

(** The class says the mode is always restored; a request to enter it that is
    answered otherwise than with OK is never followed by the request to leave. *)
Definition odd_stub : guest := Guest (λ _ _ _, Some (replicate 16 x00)) (λ _ c,
  if bool_decide (c = mode_query) then Some (u "response: 0") else Some (u "no answer")).
Lemma entered_without_leaving :
  with_physical odd_stub 0x8015 (mret ()) [] =
    (Raise (RuntimeError "missing GDB response"), [Packet mode_on; Packet mode_query]).
Proof. vm_compute. reflexivity. Qed.
