(* ===== verification/Provision.v ===== *)
(** * Files provisioned through native guest calls: [tools/re/guest_file_provision.py]

    The registers of a paused guest are borrowed for a system call and given
    back; files are written and verified through such calls.  The debugger is
    an interface ([Debugger], with what its operations do in [DebuggerLaws]),
    and so is the kernel's file system ([NativeFiles]). *)

From stdpp Require Import base tactics relations list list_numbers functions strings.
From Stdlib Require Import Strings.Byte.
From S2P Require Import Prelude PyState PyBytes PyStr.
From S2P Require StartupDecode Sha256.
Open Scope Z_scope.

(** ** The debugger *)

Inductive register := X (i : Z) | LR | SP | PC | CPSR | TPIDR | V (i : Z) | FPSR | FPCR.
#[export] Instance register_eq_dec : EqDecision register.
Proof. solve_decision. Defined.

(** The registers of frame 0 of the selected thread; [None] from a setter: it
    failed.  [get_text]: [GetValue], [None] when the register is not valid. *)
Class Debugger (M : Type) := {
  get_reg : M → register → Z;
  set_reg : M → register → Z → option M;
  get_text : M → register → option (list Z);
  set_text : M → register → list Z → option M;
  create_bp : M → Z → M * Z;
  delete_bp : M → Z → M;
  get_async : M → bool;
  set_async : M → bool → M;
  resume : M → M * bool;
  read_mem : M → Z → Z → option (list byte);
  write_mem : M → Z → list byte → M * Z;
}.

Inductive event :=
  | Call (number : Z) (args : list Z) (result : Z) (failed : bool)
  | Provisioned (source destination : list Z) (size : Z) (sha256 : list Z).

(** [machine]: the debugger with the guest; [buffer] and [events] of a [Provisioner]. *)
Record prov (M : Type) := Prov { machine : M; buffer : Z; events : list event }.
Arguments Prov {M}.
Arguments machine {M}.
Arguments buffer {M}.
Arguments events {M}.

Definition capacity : Z := 0x100000.
Definition PROGNAME_PTR : Z := 0x1e6ef1590.
(** [range(start, start + n)] of registers. *)
Definition names : list register := map X (seqZ 0 31) ++ [SP; PC; CPSR].
Definition vector_names : list register := map V (seqZ 0 32) ++ [FPSR; FPCR].
(** [range(0, n, capacity)]. *)
Definition starts (n : Z) : list Z := map (λ k, capacity * k) (seqZ 0 ((n + capacity - 1) / capacity)).

(** [slide] and [expected_process] are of the provisioner, [welcome_slide] is
    [SLIDE] of [welcome_abort_callbacks]. *)
Section provisioner.
Context {M : Type} `{Debugger M}.
Variables (slide welcome_slide : Z) (expected : list Z).
Abbreviation PM := (SE (prov M)).

Definition svc : Z := slide + 0x237cd5e38.
Definition bzero : Z := slide + 0x18c3738e0.

(** [_read], [_u64] and [_progname] of [welcome_abort_callbacks]. *)
Definition w_read (m : M) (address size : Z) : list byte := default [] (read_mem m address size).
Definition w_u64 (m : M) (address : Z) : Z :=
  let data := w_read m address 8 in if zlen data =? 8 then le_Z data else 0.
Definition progname (m : M) : list Z :=
  let pointer := w_u64 m (welcome_slide + PROGNAME_PTR) in
  let string := if pointer =? 0 then 0 else w_u64 m pointer in
  let data := if string =? 0 then [] else w_read m string 96 in
  if bool_decide (data = []) then u "<unknown>" else StartupDecode.ascii_replace (before x00 data).

Definition set_machine (m : M) : PM () := update (λ s, Prov m (buffer s) (events s)).
Definition record (e : event) : PM () := update (λ s, Prov (machine s) (buffer s) (events s ++ [e])).
Definition assert (b : bool) : PM () := when (negb b) (raise AssertionError).
(** [try: m finally: h]. *)
Definition try_finally {A} (m : PM A) (h : PM ()) : PM A := λ s,
  let '(r, s) := m s in
  match h s with
  | (Ok _, s) => (r, s)
  | (Raise e, s) => (Raise e, s)
  end.

(** [reg] and [setreg]. *)
Definition reg (r : register) : PM Z := gets (λ s, get_reg (machine s) r).
Definition setreg (r : register) (value : Z) : PM () :=
  m ← gets machine;
  match set_reg m r (Z.land value (Z.shiftl 1 64 - 1)) with
  | Some m => set_machine m
  | None => raise AssertionError
  end.
Definition set_vector (rv : register * list Z) : PM () :=
  m ← gets machine;
  match set_text m rv.1 rv.2 with Some m => set_machine m | None => raise AssertionError end.
Definition continue_ : PM bool :=
  m ← gets machine;
  let '(m, success) := resume m in
  _ ← set_machine m; mret success.

(** The breakpoint and the synchronous mode of one run, and their [finally]. *)
Definition enter_call : PM (Z * bool) :=
  m ← gets machine;
  let '(m, bp) := create_bp m (svc + 4) in
  _ ← set_machine (set_async m false);
  mret (bp, get_async m).
Definition leave_call (bp : Z) (old_async : bool) : PM () :=
  update (λ s, Prov (set_async (delete_bp (machine s) bp) old_async) (buffer s) (events s)).
Definition saved_of (m : M) : list (register * Z) := map (λ r, (r, get_reg m r)) names.
Definition restore (saved : list (register * Z)) : PM () := for_each (λ '(r, v), setreg r v) saved.
(** [for i, value in enumerate(args)]. *)
Definition set_args (args : list Z) : PM () := for_each (λ '(i, v), setreg (X i) v) (zip (seqZ 0 (zlen args)) args).

(** [syscall(number, *args)]; [m]: the machine when it was called. *)
Definition call_body (number : Z) (args : list Z) (m : M) : PM (Z * bool) :=
  _ ← set_args args;
  _ ← setreg (X 16) number;
  _ ← setreg PC svc;
  success ← continue_;
  _ ← assert success;
  pc ← reg PC;
  _ ← assert (pc =? svc + 4);
  tp ← reg TPIDR;
  _ ← assert (tp =? get_reg m TPIDR);
  result ← reg (X 0);
  cpsr ← reg CPSR;
  let failed := negb (Z.land cpsr (Z.shiftl 1 29) =? 0) in
  _ ← restore (saved_of m);
  _ ← record (Call number args result failed);
  mret (result, failed).
Definition syscall (number : Z) (args : list Z) : PM (Z * bool) :=
  m ← gets machine;
  _ ← assert (bool_decide (progname m = expected));
  '(bp, old_async) ← enter_call;
  try_finally (call_body number args m) (leave_call bp old_async).

(** [{name: GetValue() for name in ... if IsValid()}]. *)
Definition vectors_of (m : M) : list (register * list Z) := omap (λ r, t ← get_text m r; Some (r, t)) vector_names.
Definition fault_body (b : Z) (m : M) : PM () :=
  _ ← setreg (X 0) b;
  _ ← setreg (X 1) capacity;
  _ ← setreg LR (svc + 4);
  _ ← setreg PC bzero;
  success ← continue_;
  _ ← assert success;
  pc ← reg PC;
  tp ← reg TPIDR;
  _ ← assert ((pc =? svc + 4) && (tp =? get_reg m TPIDR));
  _ ← restore (saved_of m);
  for_each set_vector (vectors_of m).
Definition fault_buffer : PM () :=
  m ← gets machine;
  b ← gets buffer;
  '(bp, old_async) ← enter_call;
  try_finally (fault_body b m) (leave_call bp old_async).
Definition allocate : PM (list Z) :=
  '(address, failed) ← syscall 197 [0; capacity; 3; 0x1002; -1; 0];
  _ ← assert (negb failed);
  _ ← update (λ s, Prov (machine s) address (events s));
  _ ← fault_buffer;
  mret (hex address).

Definition put (data : list byte) : PM () :=
  b ← gets buffer;
  _ ← assert (negb (b =? 0) && (zlen data <=? capacity));
  m ← gets machine;
  let '(m, n) := write_mem m b data in
  _ ← set_machine m;
  _ ← assert (n =? zlen data);
  assert (bool_decide (read_mem m b (zlen data) = Some data)).
Definition put_path (path : list Z) : PM () :=
  raw ← lift (utf8_encode path);
  put (raw ++ [x00]).
Definition mkdir (path : list Z) : PM (Z * bool) :=
  _ ← put_path path;
  b ← gets buffer;
  syscall 136 [b; 0x1ed].

(** [data]: the content of the file [source]. *)
Definition write_chunk (fd : Z) (data : list byte) (start : Z) : PM () :=
  let chunk := slice start (start + capacity) data in
  _ ← put chunk;
  b ← gets buffer;
  '(count, failed) ← syscall 4 [fd; b; zlen chunk];
  assert (negb failed && (count =? zlen chunk)).
Definition close (fd : Z) : PM () :=
  '(_, failed) ← syscall 6 [fd];
  assert (negb failed).
Definition write_file (source destination : list Z) (data : list byte) : PM () :=
  _ ← put_path destination;
  b ← gets buffer;
  '(fd, failed) ← syscall 5 [b; 0xa01; 0x1a4];
  _ ← assert (negb failed);
  _ ← try_finally (for_each (write_chunk fd data) (starts (zlen data))) (close fd);
  record (Provisioned source destination (zlen data) (hex_of_bytes (Sha256.sha256 data))).

(** The [while True] loop: what was read. *)
Fixpoint read_back (fuel : nat) (fd : Z) : PM (list byte) :=
  match fuel with
  | O => raise OutOfFuel
  | S fuel =>
      b ← gets buffer;
      '(size, failed) ← syscall 3 [fd; b; capacity];
      _ ← assert (negb failed && (size <=? capacity));
      if size =? 0 then mret []
      else
        m ← gets machine;
        data ← lift (opt_or (read_mem m b size) AssertionError);
        _ ← assert (zlen data =? size);
        rest ← read_back fuel fd;
        mret (data ++ rest)
  end.
Definition verify_file (fuel : nat) (content : list byte) (destination : list Z) : PM () :=
  _ ← put_path destination;
  b ← gets buffer;
  '(fd, failed) ← syscall 5 [b; 0; 0];
  _ ← assert (negb failed);
  data ← try_finally (read_back fuel fd) (close fd);
  assert ((zlen data =? zlen content) && bool_decide (Sha256.sha256 data = Sha256.sha256 content)).
Definition release : PM () :=
  b ← gets buffer;
  '(_, failed) ← syscall 73 [b; capacity];
  _ ← assert (negb failed);
  update (λ s, Prov (machine s) 0 (events s)).

(** A session: the methods a script calls, one after the other. *)
Inductive operation :=
  | Allocate
  | Mkdir (path : list Z)
  | WriteFile (source destination : list Z) (data : list byte)
  | VerifyFile (fuel : nat) (content : list byte) (destination : list Z)
  | Release.
Definition perform (o : operation) : PM () :=
  match o with
  | Allocate => _ ← allocate; mret ()
  | Mkdir path => _ ← mkdir path; mret ()
  | WriteFile source destination data => write_file source destination data
  | VerifyFile fuel content destination => verify_file fuel content destination
  | Release => release
  end.
Definition session (ops : list operation) : PM () := for_each perform ops.

(** [__init__]: a provisioner of a guest paused at EL0. *)
Definition SVC_BYTES : list byte := [x01; x10; x00; xd4].
Definition provisioner (m : M) : res (prov M) :=
  raise_if negb (bool_decide (progname m = expected)) with AssertionError ;;
  raise_if negb (Z.land (get_reg m CPSR) 15 =? 0) with AssertionError ;;
  raise_if negb (bool_decide (read_mem m svc 4 = Some SVC_BYTES)) with AssertionError ;;
  Ok (Prov m 0 []).
End provisioner.

(** ** What the debugger does *)

(** [lr] is another name of [x30]. *)
Definition canon (r : register) : register := match r with LR => X 30 | r => r end.
Definition width (r : register) : Z := match r with CPSR | FPSR | FPCR => 32 | V _ => 128 | _ => 64 end.

(** [breaks]: the breakpoints by identifier. *)
Class DebuggerLaws (M : Type) `{Debugger M} := {
  breaks : M → list (Z * Z);
  reg_range m r : 0 ≤ get_reg m r < 2 ^ width r;
  set_reg_get m r v m' r' : set_reg m r v = Some m' →
    get_reg m' r' = if decide (canon r = canon r') then v mod 2 ^ width r else get_reg m r';
  set_reg_text m r v m' r' : set_reg m r v = Some m' → canon r ≠ canon r' → get_text m' r' = get_text m r';
  set_text_get m r t m' r' : set_text m r t = Some m' → get_text m' r' = if decide (r = r') then Some t else get_text m r';
  set_text_reg m r t m' r' : set_text m r t = Some m' → canon r ≠ canon r' → get_reg m' r' = get_reg m r';
  create_breaks m a m' i : create_bp m a = (m', i) → breaks m' = (i, a) :: breaks m ∧ i ∉ (breaks m).*1;
  delete_breaks m i : breaks (delete_bp m i) = filter (λ b, b.1 ≠ i) (breaks m);
  set_async_get m b : get_async (set_async m b) = b;
  (* what leaves the breakpoints and the mode alone *)
  set_reg_control m r v m' : set_reg m r v = Some m' → breaks m' = breaks m ∧ get_async m' = get_async m;
  set_text_control m r t m' : set_text m r t = Some m' → breaks m' = breaks m ∧ get_async m' = get_async m;
  resume_control m m' b : resume m = (m', b) → breaks m' = breaks m ∧ get_async m' = get_async m;
  write_control m a d m' n : write_mem m a d = (m', n) → breaks m' = breaks m ∧ get_async m' = get_async m;
  create_async m a m' i : create_bp m a = (m', i) → get_async m' = get_async m;
  set_async_breaks m b : breaks (set_async m b) = breaks m;
  (* what leaves the registers alone *)
  write_regs m a d m' n r : write_mem m a d = (m', n) → get_reg m' r = get_reg m r ∧ get_text m' r = get_text m r;
  create_regs m a m' i r : create_bp m a = (m', i) → get_reg m' r = get_reg m r ∧ get_text m' r = get_text m r;
  delete_regs m i r : get_reg (delete_bp m i) r = get_reg m r ∧ get_text (delete_bp m i) r = get_text m r;
  set_async_regs m b r : get_reg (set_async m b) r = get_reg m r ∧ get_text (set_async m b) r = get_text m r;
}.

Section laws.
Context {M : Type} `{DebuggerLaws M}.
Variables (slide welcome_slide : Z) (expected : list Z).
Abbreviation PM := (SE (prov M)).

(** ** Nothing of the debugger's is left changed *)

(** The breakpoints and the mode are as they were. *)
Definition same_control (m m' : M) : Prop := breaks m' = breaks m ∧ get_async m' = get_async m.
(** The registers of the interrupted code are as they were. *)
Definition same_regs (m m' : M) : Prop := ∀ r, r ∈ names → get_reg m' r = get_reg m r.
(** Every run gives the debugger back as it was; one that returns, the registers. *)
Definition gives_at {A} (m : PM A) (s : prov M) : Prop :=
  same_control (machine s) (machine (m s).2) ∧ (is_ok (m s).1 = true → same_regs (machine s) (machine (m s).2)).
Class GivesBack {A} (m : PM A) := gives_back s : gives_at m s.

Lemma same_control_refl m : same_control m m.
Proof. done. Qed.
Lemma same_control_trans m1 m2 m3 : same_control m1 m2 → same_control m2 m3 → same_control m1 m3.
Proof. unfold same_control. intros [-> ->] [-> ->]. done. Qed.
Lemma same_regs_trans m1 m2 m3 : same_regs m1 m2 → same_regs m2 m3 → same_regs m1 m3.
Proof. intros H1 H2 r Hr. by rewrite H2, H1. Qed.
#[local] Hint Resolve same_control_refl : core.

Lemma gives_pure {A} (m : PM A) : (∀ s, machine (m s).2 = machine s) → GivesBack m.
Proof. intros Hm s. unfold gives_at. rewrite Hm. split; [done|by intros _ r]. Qed.
#[local] Instance gives_ret {A} (a : A) : GivesBack (mret a).
Proof. by apply gives_pure. Qed.
#[local] Instance gives_lift {A} (m : res A) : GivesBack (lift m).
Proof. by apply gives_pure. Qed.
#[local] Instance gives_raise {A} e : GivesBack (raise (A := A) e).
Proof. by apply gives_pure. Qed.
#[local] Instance gives_gets {A} (f : prov M → A) : GivesBack (gets f).
Proof. by apply gives_pure. Qed.
#[local] Instance gives_assert b : GivesBack (assert b).
Proof. apply gives_pure. by destruct b. Qed.
#[local] Instance gives_record e : GivesBack (record e).
Proof. by apply gives_pure. Qed.
Lemma gives_update (f : prov M → prov M) : (∀ s, machine (f s) = machine s) → GivesBack (update f).
Proof. intros Hf. by apply gives_pure. Qed.
#[local] Instance gives_bind {A B} (m : PM A) (f : A → PM B) :
  GivesBack m → (∀ a, GivesBack (f a)) → GivesBack (m ≫= f).
Proof.
  intros Hm Hf s. specialize (Hm s). unfold gives_at, mbind, se_bind in *. destruct (m s) as [[a|e] s1]; cbn in Hm |- *; [|by destruct Hm].
  destruct Hm as [Hc Hr], (Hf a s1) as [Hc' Hr']. split; [by eapply same_control_trans|].
  intros Ho. eapply same_regs_trans; [by apply Hr|by apply Hr'].
Qed.
Lemma gives_gets_at {A B} (f : prov M → A) (k : A → PM B) s : gives_at (k (f s)) s → gives_at (gets f ≫= k) s.
Proof. done. Qed.
Lemma gives_assert_at {B} b (k : () → PM B) s : gives_at (k ()) s → gives_at (assert b ≫= k) s.
Proof. destruct b; [done|]. intros _. by apply gives_raise. Qed.
#[local] Instance gives_try {A} (m : PM A) (h : PM ()) : GivesBack m → GivesBack h → GivesBack (try_finally m h).
Proof.
  intros Hm Hh s. unfold gives_at, try_finally. specialize (Hm s). unfold gives_at in Hm. destruct (m s) as [r s1]. cbn in Hm. specialize (Hh s1). unfold gives_at in Hh.
  destruct (h s1) as [[[]|e] s2]; cbn in Hh |- *; destruct Hm as [Hc Hr], Hh as [Hc' Hr'];
    (split; [by eapply same_control_trans|]); [|done].
  intros Ho. eapply same_regs_trans; [by apply Hr|by apply Hr'].
Qed.
#[local] Instance gives_for_each {A} (f : A → PM ()) l : (∀ a, GivesBack (f a)) → GivesBack (for_each f l).
Proof. intros Hf. induction l as [|x l IH]; cbn [for_each]; apply _. Qed.

(** Writing registers changes nothing of the debugger's. *)
Class Control {A} (m : PM A) := control s : same_control (machine s) (machine (m s).2).
Lemma control_pure {A} (m : PM A) : (∀ s, machine (m s).2 = machine s) → Control m.
Proof. intros Hm s. by rewrite Hm. Qed.
#[local] Instance control_bind {A B} (m : PM A) (f : A → PM B) : Control m → (∀ a, Control (f a)) → Control (m ≫= f).
Proof.
  intros Hm Hf s. specialize (Hm s). unfold mbind, se_bind. destruct (m s) as [[a|e] s1]; [|done].
  eapply same_control_trans; [exact Hm|apply Hf].
Qed.
#[local] Instance control_setreg r v : Control (setreg r v).
Proof.
  intros s. unfold setreg. unfold mbind, se_bind, gets. destruct (set_reg _ _ _) as [m'|] eqn:E; cbn; [|done]. by apply set_reg_control in E.
Qed.
#[local] Instance control_set_vector rv : Control (set_vector rv).
Proof.
  intros s. unfold set_vector. unfold mbind, se_bind, gets. destruct (set_text _ _ _) as [m'|] eqn:E; cbn; [|done]. by apply set_text_control in E.
Qed.
#[local] Instance control_continue : Control continue_.
Proof. intros s. unfold continue_. unfold mbind, se_bind, gets. destruct (resume _) as [m' b] eqn:E. cbn. by apply resume_control in E. Qed.
#[local] Instance control_assert b : Control (assert b).
Proof. apply control_pure. by destruct b. Qed.
#[local] Instance control_for_each {A} (f : A → PM ()) l : (∀ a, Control (f a)) → Control (for_each f l).
Proof. intros Hf. induction l as [|x l IH]; cbn [for_each]; [by apply control_pure|apply _]. Qed.
#[local] Instance control_reg r : Control (reg r).
Proof. by apply control_pure. Qed.
#[local] Instance control_record e : Control (record e).
Proof. by apply control_pure. Qed.
#[local] Instance control_ret {A} (a : A) : Control (mret (M := SE (prov M)) a).
Proof. by apply control_pure. Qed.

(** Registers written one after the other. *)
Lemma setreg_runs r v s s' :
  setreg r v s = (Ok (), s') →
  ∃ m, set_reg (machine s) r (Z.land v (Z.shiftl 1 64 - 1)) = Some m ∧ s' = Prov m (buffer s) (events s).
Proof.
  unfold setreg, mbind, se_bind, gets. destruct (set_reg _ _ _) as [m|]; [|done]. intros [= <-]. by exists m.
Qed.
Lemma low64 v : Z.land v (Z.shiftl 1 64 - 1) = v mod 2 ^ 64.
Proof. change (Z.shiftl 1 64 - 1) with (Z.ones 64). by rewrite Z.land_ones. Qed.
Lemma setreg_get r v s s' r' :
  setreg r v s = (Ok (), s') → width r ≤ 64 →
  get_reg (machine s') r' = if decide (canon r = canon r') then v mod 2 ^ width r else get_reg (machine s) r'.
Proof.
  intros (m & Hm & ->)%setreg_runs Hw. cbn. erewrite set_reg_get by exact Hm. destruct (decide _); [|done].
  rewrite low64. apply Z.mod_mod_divide. exists (2 ^ (64 - width r)). rewrite <-Z.pow_add_r by (destruct r; cbn in *; lia). f_equal. lia.
Qed.
Lemma setreg_text r v s s' r' :
  setreg r v s = (Ok (), s') → canon r ≠ canon r' → get_text (machine s') r' = get_text (machine s) r'.
Proof. intros (m & Hm & ->)%setreg_runs Hne. cbn. by eapply set_reg_text. Qed.

Lemma names_plain r : r ∈ names → canon r = r ∧ width r ≤ 64.
Proof.
  intros [(i & -> & _)%list_elem_of_fmap|H1]%elem_of_app; [done|].
  repeat (apply elem_of_cons in H1 as [->|H1]; [done|]). by apply not_elem_of_nil in H1.
Qed.
Lemma restore_gives f l s s' r :
  Forall (λ r, canon r = r ∧ width r ≤ 64 ∧ 0 ≤ f r < 2 ^ width r) l → canon r = r →
  restore (map (λ r, (r, f r)) l) s = (Ok (), s') →
  get_reg (machine s') r = if decide (r ∈ l) then f r else get_reg (machine s) r.
Proof.
  intros Hl Hr. revert s. induction Hl as [|x l (Hx & Hw & Hf) Hl IH]; intros s Hrun; cbn [restore map for_each] in Hrun.
  { injection Hrun as <-. by rewrite decide_False by apply not_elem_of_nil. }
  apply bind_returns in Hrun as ([] & s1 & Hs & Hrun). rewrite (IH s1 Hrun). pose proof (setreg_get x (f x) s s1 r Hs Hw) as Hg.
  rewrite Hx, Hr in Hg. destruct (decide (r ∈ l)); [by rewrite decide_True by (apply elem_of_cons; auto)|]. rewrite Hg.
  destruct (decide (x = r)) as [->|Hne].
  - rewrite decide_True by (apply elem_of_cons; auto). by apply Z.mod_small.
  - by rewrite decide_False by (intros [?|?]%elem_of_cons; congruence).
Qed.
Lemma saved_ok m : Forall (λ r, canon r = r ∧ width r ≤ 64 ∧ 0 ≤ get_reg m r < 2 ^ width r) names.
Proof. apply Forall_forall. intros r [Hc Hw]%names_plain. pose proof (reg_range m r). done. Qed.
Lemma restore_same m s s' : restore (saved_of m) s = (Ok (), s') → same_regs m (machine s').
Proof.
  intros Hrun r Hr. rewrite (restore_gives (get_reg m) names s s' r (saved_ok m)); [by rewrite decide_True|by apply names_plain|done].
Qed.

Lemma filter_fresh (i : Z) (l : list (Z * Z)) : i ∉ l.*1 → filter (λ b, b.1 ≠ i) l = l.
Proof.
  induction l as [|[j a] l IH]; [done|]. rewrite fmap_cons. intros [Hne Hni]%not_elem_of_cons.
  rewrite filter_cons_True by (cbn in *; congruence). by rewrite IH.
Qed.
(** A run between [enter_call] and [leave_call]. *)
Definition entered (s : prov M) : prov M := ((enter_call slide) s).2.
Lemma enter_runs s : ∃ bp, enter_call slide s = (Ok (bp, get_async (machine s)), entered s)
  ∧ breaks (machine (entered s)) = (bp, svc slide + 4) :: breaks (machine s) ∧ (bp ∉ (breaks (machine s)).*1)
  ∧ (∀ r, get_reg (machine (entered s)) r = get_reg (machine s) r ∧ get_text (machine (entered s)) r = get_text (machine s) r)
  ∧ buffer (entered s) = buffer s ∧ events (entered s) = events s.
Proof.
  unfold entered, enter_call, mbind, se_bind, gets, set_machine, update. destruct (create_bp _ _) as [m bp] eqn:E. cbn.
  exists bp. rewrite (create_async _ _ _ _ E), set_async_breaks. apply create_breaks in E as Hb. destruct Hb as [-> Hni].
  split_and!; [done..| |done|done]. intros r. destruct (set_async_regs m false r) as [-> ->]. by eapply create_regs.
Qed.
Lemma borrowed {A} (body : PM A) s :
  Control body →
  (is_ok (body (entered s)).1 = true → same_regs (machine s) (machine (body (entered s)).2)) →
  gives_at ('(bp, old_async) ← enter_call slide; try_finally body (leave_call bp old_async)) s.
Proof.
  intros Hc Hr. destruct (enter_runs s) as (bp & E & Hb & Hni & _ & _ & _). unfold gives_at, mbind, se_bind. rewrite E.
  unfold try_finally. specialize (Hc (entered s)). destruct (body (entered s)) as [r s1]. cbn in *. destruct Hc as [Hc _].
  split.
  - split; cbn; [|apply set_async_get]. rewrite set_async_breaks, delete_breaks, Hc, Hb. rewrite filter_cons_False by auto.
    by apply filter_fresh.
  - intros Ho x Hx. destruct (set_async_regs (delete_bp (machine s1) bp) (get_async (machine s)) x) as [-> _].
    destruct (delete_regs (machine s1) bp x) as [-> _]. by apply Hr.
Qed.

Lemma assert_runs b s s' : assert (M := M) b s = (Ok (), s') → b = true ∧ s' = s.
Proof. unfold assert, when. destruct b; [|done]. by intros [= <-]. Qed.

(** Register writes, and what they leave of a provisioner. *)
Definition writes : M → M → Prop := rtc (λ m m', ∃ r v, set_reg m r v = Some m').
Record written (s s' : prov M) : Prop := {
  wr_machine : writes (machine s) (machine s');
  wr_buffer : buffer s' = buffer s;
  wr_events : events s' = events s;
}.
Lemma written_refl s : written s s.
Proof. by split; [apply rtc_refl|..]. Qed.
Lemma written_trans s1 s2 s3 : written s1 s2 → written s2 s3 → written s1 s3.
Proof. intros [? E1 F1] [? E2 F2]. split; [by etrans|by rewrite E2|by rewrite F2]. Qed.
Lemma setreg_written r v s s' : setreg r v s = (Ok (), s') → written s s'.
Proof. intros (m & Hm & ->)%setreg_runs. split; [|done..]. apply rtc_once. eauto. Qed.
Lemma for_each_written {A} (f : A → PM ()) l s s' :
  (∀ x s s', f x s = (Ok (), s') → written s s') → for_each f l s = (Ok (), s') → written s s'.
Proof.
  intros Hf. revert s. induction l as [|x l IH]; intros s; cbn [for_each]; [intros [= <-]; apply written_refl|].
  intros ([] & s1 & H1 & H2)%bind_returns. eapply written_trans; [by eapply Hf|by apply IH].
Qed.
Lemma restore_written saved s s' : restore saved s = (Ok (), s') → written s s'.
Proof. apply for_each_written. intros [r v]. apply setreg_written. Qed.
Lemma set_args_written args s s' : set_args args s = (Ok (), s') → written s s'.
Proof. apply for_each_written. intros [i v]. apply setreg_written. Qed.
(** The arguments are in [x0], [x1], ... *)
Lemma set_args_gives args s s' i v :
  set_args args s = (Ok (), s') → args !! i = Some v → get_reg (machine s') (X (Z.of_nat i)) = v mod 2 ^ 64.
Proof.
  assert (∀ args k s s', for_each (λ '(i, v), setreg (X i) v) (zip (seqZ k (zlen args)) args) s = (Ok (), s') →
    (∀ i v, args !! i = Some v → get_reg (machine s') (X (k + Z.of_nat i)) = v mod 2 ^ 64) ∧
    ∀ j, j < k → get_reg (machine s') (X j) = get_reg (machine s) (X j)) as Hgo; [|by intros H1%Hgo H2; apply H1 in H2].
  clear args s s' i v. induction args as [|a args IH]; intros k s s'; [intros [= <-]; by split|].
  rewrite zlen_cons, seqZ_cons by (pose proof (zlen_nonneg args); lia). replace (Z.pred (1 + zlen args)) with (zlen args) by lia.
  cbn [zip zip_with for_each]. intros ([] & s1 & H1 & [Ha Hj]%IH)%bind_returns.
  assert (∀ j, get_reg (machine s1) (X j) = if decide (X k = X j) then a mod 2 ^ 64 else get_reg (machine s) (X j)) as Hs1
    by (intros j; by apply (setreg_get (X k) a s s1 (X j) H1)).
  split.
  - intros [|i] v Hi; cbn in Hi.
    + injection Hi as ->. rewrite Z.add_0_r, Hj, Hs1 by lia. by rewrite decide_True.
    + rewrite <-(Ha i v Hi). do 2 f_equal. lia.
  - intros j Hlt. rewrite Hj, Hs1 by lia. rewrite decide_False; [done|]. intros [= ->]. lia.
Qed.
Lemma assert_then {A} b (f : () → PM A) s a s' : (assert b ≫= f) s = (Ok a, s') → b = true ∧ f () s = (Ok a, s').
Proof. intros ([] & s1 & [-> ->]%assert_runs & H1)%bind_returns. done. Qed.

(** A call: the machine that is resumed and the one that stops. *)
Record call (number : Z) (args : list Z) (s : prov M) (r : Z) (f : bool) (s' : prov M) (m1 m2 : M) : Prop := {
  c_before : writes (machine s) m1;
  c_args : ∀ i v, (i < 16)%nat → args !! i = Some v → get_reg m1 (X (Z.of_nat i)) = v mod 2 ^ 64;
  c_number : get_reg m1 (X 16) = number mod 2 ^ 64;
  c_pc : get_reg m1 PC = svc slide mod 2 ^ 64;
  c_resume : resume m1 = (m2, true);
  c_stop : get_reg m2 PC = svc slide + 4;
  c_result : r = get_reg m2 (X 0);
  c_failed : f = Z.testbit (get_reg m2 CPSR) 29;
  c_after : writes m2 (machine s');
  c_buffer : buffer s' = buffer s;
  c_events : events s' = events s ++ [Call number args r f];
}.
Lemma flag_bit v : negb (Z.land v (Z.shiftl 1 29) =? 0) = Z.testbit v 29.
Proof.
  assert (Z.land v (Z.shiftl 1 29) = if Z.testbit v 29 then 2 ^ 29 else 0) as ->; [|by destruct (Z.testbit v 29)].
  rewrite Z.shiftl_1_l. apply Z.bits_inj'. intros i Hi. rewrite Z.land_spec, Z.pow2_bits_eqb by lia.
  destruct (Z.eqb_spec 29 i) as [<-|Hne].
  - rewrite andb_true_r. by destruct (Z.testbit v 29).
  - rewrite andb_false_r. destruct (Z.testbit v 29); [|by rewrite Z.bits_0]. by rewrite Z.pow2_bits_false.
Qed.
Lemma continue_runs b s s' :
  continue_ s = (Ok b, s') → ∃ m, resume (machine s) = (m, b) ∧ s' = Prov m (buffer s) (events s).
Proof.
  unfold continue_. intros (m & s1 & [= <- <-] & H1)%bind_returns. destruct (resume (machine s)) as [m b'].
  apply bind_returns in H1 as ([] & s2 & [= <-] & [= <- <-]). by exists m.
Qed.
Lemma reg_runs r v s s' : reg r s = (Ok v, s') → v = get_reg (machine s) r ∧ s' = s.
Proof. by intros [= <- <-]. Qed.
Lemma call_body_runs number args m s r f s' :
  call_body slide number args m s = (Ok (r, f), s') →
  (∃ m1 m2, call number args s r f s' m1 m2 ∧ get_reg m2 TPIDR = get_reg m TPIDR) ∧ same_regs m (machine s').
Proof.
  unfold call_body. intros ([] & s1 & H1 & H')%bind_returns. apply bind_returns in H' as ([] & s2 & H2 & H').
  apply bind_returns in H' as ([] & s3 & H3 & H'). apply bind_returns in H' as (success & s4 & (m2 & E & ->)%continue_runs & H').
  apply assert_then in H' as [-> H']. apply bind_returns in H' as (pc & s5 & [-> ->]%reg_runs & H').
  apply assert_then in H' as [Hpc H']. apply bind_returns in H' as (tp & s5 & [-> ->]%reg_runs & H').
  apply assert_then in H' as [Htp H']. apply bind_returns in H' as (result & s5 & [-> ->]%reg_runs & H').
  apply bind_returns in H' as (cpsr & s5 & [-> ->]%reg_runs & H'). apply bind_returns in H' as ([] & s5 & H5 & H').
  apply bind_returns in H' as ([] & s6 & [= <-] & [= <- <- <-]).
  cbn in Hpc, Htp. apply Z.eqb_eq in Hpc, Htp. rewrite flag_bit. split; [exists (machine s3), m2; split; [split|]|]; try done; try lia.
  - etrans; [exact (wr_machine _ _ (set_args_written _ _ _ H1))|].
    etrans; [exact (wr_machine _ _ (setreg_written _ _ _ _ H2))|exact (wr_machine _ _ (setreg_written _ _ _ _ H3))].
  - intros i v Hi Hv. rewrite (setreg_get _ _ _ _ (X (Z.of_nat i)) H3), decide_False by done.
    rewrite (setreg_get _ _ _ _ (X (Z.of_nat i)) H2), decide_False by (cbn; first [done|intros [= ?]; lia]).
    by eapply set_args_gives.
  - by rewrite (setreg_get _ _ _ _ (X 16) H3), decide_False, (setreg_get _ _ _ _ (X 16) H2), decide_True by done.
  - by rewrite (setreg_get _ _ _ _ PC H3), decide_True by done.
  - exact (wr_machine _ _ (restore_written _ _ _ H5)).
  - cbn. rewrite (wr_buffer _ _ (restore_written _ _ _ H5)). cbn. rewrite (wr_buffer _ _ (setreg_written _ _ _ _ H3)).
    rewrite (wr_buffer _ _ (setreg_written _ _ _ _ H2)). apply (wr_buffer _ _ (set_args_written _ _ _ H1)).
  - cbn. rewrite (wr_events _ _ (restore_written _ _ _ H5)). cbn. rewrite (wr_events _ _ (setreg_written _ _ _ _ H3)).
    rewrite (wr_events _ _ (setreg_written _ _ _ _ H2)). by rewrite (wr_events _ _ (set_args_written _ _ _ H1)).
  - cbn. by eapply restore_same.
Qed.

(** The vector registers that could be read are as they were. *)
Definition same_vectors (m m' : M) : Prop :=
  ∀ r t, r ∈ vector_names → get_text m r = Some t → get_text m' r = Some t.
Lemma vector_plain r : r ∈ vector_names → canon r = r ∧ r ∉ names.
Proof.
  intros Hr. assert (∃ i, r = V i ∨ r = FPSR ∨ r = FPCR) as (i & Hi).
  { apply elem_of_app in Hr as [(i & -> & _)%list_elem_of_fmap|Hr]; [by exists i; left|exists 0].
    repeat (apply elem_of_cons in Hr as [->|Hr]; [auto|]). by apply not_elem_of_nil in Hr. }
  split; [by destruct Hi as [->|[->| ->]]|]. intros [(j & Hj & _)%list_elem_of_fmap|Hn]%elem_of_app.
  - by destruct Hi as [->|[->| ->]].
  - repeat (apply elem_of_cons in Hn as [Hn|Hn]; [subst; by destruct Hi as [?|[?|?]]|]). by apply not_elem_of_nil in Hn.
Qed.
Lemma set_vectors_gives (l : list (register * list Z)) s s' :
  Forall (λ rt, rt.1 ∈ vector_names) l → NoDup l.*1 → for_each set_vector l s = (Ok (), s') →
  (∀ r t, (r, t) ∈ l → get_text (machine s') r = Some t) ∧
  (∀ r, r ∉ l.*1 → get_text (machine s') r = get_text (machine s) r) ∧
  (∀ r, r ∈ names → get_reg (machine s') r = get_reg (machine s) r).
Proof.
  revert s. induction l as [|[x t] l IH]; intros s Hv Hnd Hrun; cbn [for_each] in Hrun.
  { injection Hrun as <-. split_and!; [|done..]. by intros r t ?%not_elem_of_nil. }
  apply Forall_cons in Hv as [Hx Hv]. rewrite fmap_cons in Hnd. apply NoDup_cons in Hnd as [Hni Hnd]. cbn in Hx, Hni.
  apply bind_returns in Hrun as ([] & s1 & Hs & Hrun). destruct (IH s1 Hv Hnd Hrun) as (Ht & Hn & Hr).
  assert (∃ m, set_text (machine s) x t = Some m ∧ machine s1 = m) as (m & Hm & E).
  { unfold set_vector in Hs. apply bind_returns in Hs as (m & s2 & [= <- <-] & Hs). cbn in Hs.
    destruct (set_text _ _ _) as [m'|]; [|done]. injection Hs as <-. by exists m'. }
  subst m. split_and!.
  - intros r t' [[= -> ->]|Hin]%elem_of_cons; [|by apply Ht]. rewrite (Hn x Hni), (set_text_get _ _ _ _ x Hm). by rewrite decide_True.
  - intros r [Hne Hni']%not_elem_of_cons. cbn in Hne. rewrite (Hn r Hni'), (set_text_get _ _ _ _ r Hm). by rewrite decide_False.
  - intros r Hr'. rewrite (Hr r Hr'). apply (set_text_reg _ _ _ _ r Hm). destruct (vector_plain x Hx) as [-> Hx'].
    destruct (names_plain r Hr') as [-> _]. by intros ->.
Qed.
Lemma elem_vectors_of m r t : (r, t) ∈ vectors_of m ↔ r ∈ vector_names ∧ get_text m r = Some t.
Proof.
  unfold vectors_of. rewrite list_elem_of_omap. split.
  - intros (x & Hx & E). destruct (get_text m x) as [t'|] eqn:Et; [|done]. by injection E as -> ->.
  - intros [Hr Ht]. exists r. split; [done|]. by rewrite Ht.
Qed.
Lemma vectors_keys m : (vectors_of m).*1 `sublist_of` vector_names.
Proof.
  unfold vectors_of. induction vector_names as [|r l IH]; [done|]. cbn. destruct (get_text m r); cbn.
  - by apply sublist_skip.
  - by apply sublist_cons.
Qed.
Lemma vector_names_NoDup : NoDup vector_names.
Proof. apply (bool_decide_unpack _). vm_compute. exact I. Qed.
Lemma fault_body_runs b m s s' :
  fault_body slide b m s = (Ok (), s') → same_regs m (machine s') ∧ same_vectors m (machine s').
Proof.
  unfold fault_body. intros ([] & s1 & _ & H')%bind_returns. do 3 apply bind_returns in H' as ([] & ? & _ & H').
  apply bind_returns in H' as (success & s4 & _ & H'). apply assert_then in H' as [_ H'].
  apply bind_returns in H' as (pc & s5 & _ & H'). apply bind_returns in H' as (tp & s6 & _ & H').
  apply assert_then in H' as [_ H']. apply bind_returns in H' as ([] & s7 & H7%restore_same & H').
  destruct (set_vectors_gives (vectors_of m) s7 s') as (Ht & _ & Hr); [| |done|].
  - apply Forall_forall. by intros [r t] [Hr _]%elem_vectors_of.
  - eapply sublist_NoDup; [apply vector_names_NoDup|apply vectors_keys].
  - split; [intros r Hr'; by rewrite (Hr r Hr'), H7|]. intros r t Hr' Ht'. by apply Ht, elem_vectors_of.
Qed.

#[local] Instance control_restore saved : Control (restore saved).
Proof. apply control_for_each. intros [r v]. apply _. Qed.
#[local] Instance control_set_args args : Control (set_args args).
Proof. apply control_for_each. intros [i v]. apply _. Qed.
#[local] Instance control_call_body number args m : Control (call_body slide number args m).
Proof. unfold call_body. apply _. Qed.
#[local] Instance control_fault_body b m : Control (fault_body slide b m).
Proof. unfold fault_body. apply _. Qed.
#[local] Instance gives_syscall number args : GivesBack (syscall slide welcome_slide expected number args).
Proof.
  intros s. apply gives_gets_at, gives_assert_at, borrowed; [apply _|]. intros Ho. destruct (call_body _ _ _ _ (entered s)) as [[[r f]|e] s'] eqn:E; [|done].
  by apply call_body_runs in E as [_ ?].
Qed.
#[local] Instance gives_fault_buffer : GivesBack (fault_buffer slide).
Proof.
  intros s. apply gives_gets_at, gives_gets_at, borrowed; [apply _|]. intros Ho.
  destruct (fault_body _ _ _ (entered s)) as [[[]|e] s'] eqn:E; [|done]. by apply fault_body_runs in E as [? _].
Qed.
Lemma gives_set_at {B} m (k : () → PM B) s :
  same_control (machine s) m → same_regs (machine s) m → GivesBack (k ()) → gives_at (set_machine m ≫= k) s.
Proof.
  intros Hc Hr Hk. destruct (Hk (Prov m (buffer s) (events s))) as [Hc' Hr']. split; [by eapply same_control_trans|].
  intros Ho. eapply same_regs_trans; [exact Hr|by apply Hr'].
Qed.
#[local] Instance gives_put data : GivesBack (put data).
Proof.
  intros s. apply gives_gets_at, gives_assert_at, gives_gets_at. destruct (write_mem _ _ _) as [m n] eqn:E.
  apply gives_set_at; [by eapply write_control| |apply _]. intros r _. by eapply write_regs.
Qed.
#[local] Instance gives_if {A} (b : bool) (m1 m2 : PM A) : GivesBack m1 → GivesBack m2 → GivesBack (if b then m1 else m2).
Proof. by destruct b. Qed.
Lemma gives_bind2 {A B C} (m : PM (A * B)) (f : A → B → PM C) :
  GivesBack m → (∀ a b, GivesBack (f a b)) → GivesBack ('(a, b) ← m; f a b).
Proof. intros Hm Hf. apply gives_bind; [done|]. intros [a b]. apply Hf. Qed.
#[local] Typeclasses Opaque syscall fault_buffer put set_machine record assert.
Ltac gives := repeat lazymatch goal with
  | |- GivesBack (mbind (λ p, match p with (_, _) => _ end) _) => apply gives_bind2; [|intros ? ?]
  | |- GivesBack (mbind _ _) => apply gives_bind; [|intros ?]
  | |- GivesBack (update _) => by (apply gives_update; intros ?)
  | |- _ => apply _
  end.
#[local] Instance gives_close fd : GivesBack (close slide welcome_slide expected fd).
Proof. unfold close. gives. Qed.
#[local] Instance gives_write_chunk fd data start : GivesBack (write_chunk slide welcome_slide expected fd data start).
Proof. unfold write_chunk. gives. Qed.
#[local] Instance gives_read_back fuel fd : GivesBack (read_back slide welcome_slide expected fuel fd).
Proof.
  induction fuel as [|fuel IH]; cbn [read_back]; gives.
Qed.
#[local] Instance gives_perform o : GivesBack (perform slide welcome_slide expected o).
Proof.
  destruct o; unfold perform, allocate, mkdir, write_file, verify_file, release, put_path; gives.
Qed.

(** C29: A session of the provisioner leaves nothing of itself in the debugger.
    Whatever the guest does when it is resumed and whatever fails, the
    breakpoints and the synchronous mode are after every session what they were
    before it; and after a session that raised nothing every general register,
    the stack pointer, the program counter and the flags of the interrupted
    code have their values back. *)
Theorem sessions_give_back ops s :
  let '(r, s') := session slide welcome_slide expected ops s in
  breaks (machine s') = breaks (machine s) ∧ get_async (machine s') = get_async (machine s) ∧
  (r = Ok () → ∀ x, x ∈ names → get_reg (machine s') x = get_reg (machine s) x).
Proof.
  assert (GivesBack (session slide welcome_slide expected ops)) as Hg by apply _. destruct (Hg s) as [[Hb Ha] Hr].
  destruct (session _ _ _ ops s) as [r s']. split_and!; [done|done|]. intros ->. by apply Hr.
Qed.
(** The vector registers too, after the buffer was zeroed. *)
Lemma fault_buffer_vectors s s' : fault_buffer slide s = (Ok (), s') → same_vectors (machine s) (machine s').
Proof.
  unfold fault_buffer. intros (m & s1 & [= <- <-] & H1)%bind_returns. apply bind_returns in H1 as (b & s1 & [= <- <-] & H1).
  destruct (enter_runs s) as (bp & E & _ & _ & _ & _ & _). unfold mbind, se_bind in H1. rewrite E in H1. unfold try_finally in H1.
  destruct (fault_body _ _ _ (entered s)) as [r s1] eqn:Eb. injection H1 as -> <-. apply fault_body_runs in Eb as [_ Hv].
  intros x t Hx Ht. cbn. destruct (set_async_regs (delete_bp (machine s1) bp) (get_async (machine s)) x) as [_ ->].
  destruct (delete_regs (machine s1) bp x) as [_ ->]. by apply Hv.
Qed.
End laws.

(** ** The guest's files *)

(** Files by path, and what the descriptors point to: path and offset. *)
Record os := Os { files : list byte → option (list byte); fds : Z → option (list byte * Z) }.
Definition O_CREATE_NEW : Z := 0xa01.

(** A call that was made at [svc] and has come back with the carry flag clear. *)
Definition returned {M} `{Debugger M} (svc : Z) (m m' : M) (number : Z) : Prop :=
  get_reg m PC = svc mod 2 ^ 64 ∧ get_reg m (X 16) = number ∧ resume m = (m', true) ∧ get_reg m' PC = svc + 4
  ∧ Z.testbit (get_reg m' CPSR) 29 = false.
(** What the kernel does between the call and the stop after it, when the
    carry flag is clear; nothing is said of a call that fails. *)
Class NativeFiles (M : Type) `{DebuggerLaws M} (svc : Z) := {
  kernel : M → os;
  (* only a run of the guest changes its files, only a write its memory *)
  set_reg_guest m r v m' : set_reg m r v = Some m' → kernel m' = kernel m ∧ ∀ a n, read_mem m' a n = read_mem m a n;
  create_guest m a m' i : create_bp m a = (m', i) → kernel m' = kernel m ∧ ∀ a n, read_mem m' a n = read_mem m a n;
  delete_guest m i : kernel (delete_bp m i) = kernel m ∧ ∀ a n, read_mem (delete_bp m i) a n = read_mem m a n;
  set_async_guest m b : kernel (set_async m b) = kernel m ∧ ∀ a n, read_mem (set_async m b) a n = read_mem m a n;
  write_guest m a d m' n : write_mem m a d = (m', n) → kernel m' = kernel m;
  read_length m a n d : read_mem m a n = Some d → zlen d = n;
  (* the calls *)
  native_create m m' path : returned svc m m' 5 → get_reg m (X 1) = O_CREATE_NEW → x00 ∉ path →
    read_mem m (get_reg m (X 0)) (zlen path + 1) = Some (path ++ [x00]) →
    files (kernel m) path = None ∧
    kernel m' = Os (<[path := Some []]> (files (kernel m))) (<[get_reg m' (X 0) := Some (path, 0)]> (fds (kernel m)));
  native_open m m' path : returned svc m m' 5 → get_reg m (X 1) = 0 → x00 ∉ path →
    read_mem m (get_reg m (X 0)) (zlen path + 1) = Some (path ++ [x00]) →
    (∃ c, files (kernel m) path = Some c) ∧
    kernel m' = Os (files (kernel m)) (<[get_reg m' (X 0) := Some (path, 0)]> (fds (kernel m)));
  native_write m m' path pos c d : returned svc m m' 4 → fds (kernel m) (get_reg m (X 0)) = Some (path, pos) →
    files (kernel m) path = Some c → 0 ≤ pos ≤ zlen c →
    read_mem m (get_reg m (X 1)) (get_reg m (X 2)) = Some d → get_reg m' (X 0) ≤ zlen d ∧
    let k := get_reg m' (X 0) in
    kernel m' = Os (<[path := Some (zsplice pos (ztake k d) c)]> (files (kernel m)))
                   (<[get_reg m (X 0) := Some (path, pos + k)]> (fds (kernel m)));
  native_read m m' path pos c : returned svc m m' 3 → fds (kernel m) (get_reg m (X 0)) = Some (path, pos) →
    files (kernel m) path = Some c → 0 ≤ pos ≤ zlen c →
    let k := get_reg m' (X 0) in
    pos + k ≤ zlen c ∧ k ≤ get_reg m (X 2) ∧ (k = 0 → get_reg m (X 2) = 0 ∨ pos = zlen c) ∧
    read_mem m' (get_reg m (X 1)) k = Some (slice pos (pos + k) c) ∧
    kernel m' = Os (files (kernel m)) (<[get_reg m (X 0) := Some (path, pos + k)]> (fds (kernel m)));
  native_close m m' : returned svc m m' 6 → files (kernel m') = files (kernel m);
}.

Section files.
Context {M : Type} `{DebuggerLaws M}.
Variables (slide welcome_slide : Z) (expected : list Z).
Context `{!NativeFiles M (svc slide)}.
Abbreviation syscall := (syscall slide welcome_slide expected).

Definition same_guest (m m' : M) : Prop := kernel m' = kernel m ∧ ∀ a n, read_mem m' a n = read_mem m a n.
Lemma same_guest_trans m1 m2 m3 : same_guest m1 m2 → same_guest m2 m3 → same_guest m1 m3.
Proof. intros [H1 H2] [H3 H4]. split; [by rewrite H3|]. intros a n. by rewrite H4. Qed.
Lemma writes_guest m m' : writes m m' → same_guest m m'.
Proof.
  induction 1 as [m|m1 m2 m3 (r & v & E) _ IH]; [done|]. eapply same_guest_trans; [|exact IH]. by eapply set_reg_guest.
Qed.
(** The file system call of a method that came back. *)
Record native (number : Z) (args : list Z) (s : prov M) (r : Z) (f : bool) (s' : prov M) (m1 m2 : M) : Prop := {
  n_before : same_guest (machine s) m1;
  n_args i v : (i < 16)%nat → args !! i = Some v → get_reg m1 (X (Z.of_nat i)) = v mod 2 ^ 64;
  n_returned : f = false → returned (svc slide) m1 m2 (number mod 2 ^ 64);
  n_result : r = get_reg m2 (X 0);
  n_after : same_guest m2 (machine s');
  n_buffer : buffer s' = buffer s;
}.
Lemma syscall_native number args s r f s' :
  syscall number args s = (Ok (r, f), s') → ∃ m1 m2, native number args s r f s' m1 m2.
Proof.
  unfold Provision.syscall. intros (m & s1 & [= <- <-] & H1)%bind_returns. apply assert_then in H1 as [_ H1].
  destruct (enter_runs slide s) as (bp & E & _ & _ & _ & Hbuf & _). unfold mbind, se_bind in H1. rewrite E in H1.
  unfold try_finally in H1. destruct (call_body _ _ _ _ (entered slide s)) as [r1 s1] eqn:Eb. injection H1 as -> <-.
  apply call_body_runs in Eb as [(m1 & m2 & [H1 H2 H3 H4 H5 H6 H7 H8 H9 H10 _] & _) _]. exists m1, m2. split.
  - eapply same_guest_trans; [|by apply writes_guest]. clear -E H2. unfold entered, enter_call, mbind, se_bind, gets.
    destruct (create_bp _ _) as [m i] eqn:Ec. cbn. eapply same_guest_trans; [by eapply create_guest|apply set_async_guest].
  - exact H2.
  - intros ->. by split_and!.
  - done.
  - eapply same_guest_trans; [by apply writes_guest|]. cbn.
    eapply same_guest_trans; [apply delete_guest|apply set_async_guest].
  - cbn. by rewrite H10.
Qed.
Lemma put_runs data s s' :
  put data s = (Ok (), s') → buffer s' = buffer s ∧ buffer s ≠ 0 ∧ kernel (machine s') = kernel (machine s)
    ∧ read_mem (machine s') (buffer s) (zlen data) = Some data.
Proof.
  unfold put. intros (b & s1 & [= <- <-] & H1)%bind_returns. apply assert_then in H1 as [Hb H1].
  apply bind_returns in H1 as (m & s1 & [= <- <-] & H1). destruct (write_mem _ _ _) as [m n] eqn:E.
  apply bind_returns in H1 as ([] & s1 & [= <-] & H1). apply assert_then in H1 as [_ H1]. cbn in H1.
  apply assert_runs in H1 as [Hr ->]. apply bool_decide_eq_true in Hr. cbn. split_and!; [done|lia| |done]. by eapply write_guest.
Qed.
Lemma try_runs {A} (m : SE (prov M) A) h s a s' :
  try_finally m h s = (Ok a, s') → ∃ s1, m s = (Ok a, s1) ∧ h s1 = (Ok (), s').
Proof.
  unfold try_finally. destruct (m s) as [r s1]. destruct (h s1) as [[[]|e] s2] eqn:E; intros [= -> <-]. eauto.
Qed.
(** An argument that is a machine word. *)
Lemma native_arg i v number args s r f s' m1 m2 :
  native number args s r f s' m1 m2 → 0 ≤ i < 16 → args !! Z.to_nat i = Some v → 0 ≤ v < 2 ^ 64 → get_reg m1 (X i) = v.
Proof.
  intros Hn Hi Hv Hr. pose proof (n_args _ _ _ _ _ _ _ _ Hn (Z.to_nat i) v ltac:(lia) Hv) as E.
  rewrite Z2Nat.id in E by lia. by rewrite E, Z.mod_small.
Qed.
Lemma result_range number args s r f s' m1 m2 : native number args s r f s' m1 m2 → 0 ≤ r < 2 ^ 64.
Proof. intros Hn. rewrite (n_result _ _ _ _ _ _ _ _ Hn). apply (reg_range m2 (X 0)). Qed.

Section descriptor.
Variable path : list byte.
Hypothesis Hpath : x00 ∉ path.

(** [fd] is the end of the file at [path], which holds [c]; the other files are
    those of [fs]. *)
Record at_end (fs : list byte → option (list byte)) (fd : Z) (c : list byte) (s : prov M) : Prop := {
  ae_fd : fds (kernel (machine s)) fd = Some (path, zlen c);
  ae_file : files (kernel (machine s)) path = Some c;
  ae_rest : ∀ p, p ≠ path → files (kernel (machine s)) p = fs p;
}.
(** Paths and their calls. *)
Lemma put_path_runs dest s s' :
  put_path dest s = (Ok (), s') → utf8_encode dest = Ok path →
  buffer s' = buffer s ∧ kernel (machine s') = kernel (machine s)
  ∧ read_mem (machine s') (buffer s) (zlen path + 1) = Some (path ++ [x00]).
Proof.
  unfold put_path. intros (raw & s1 & [= Hraw <-] & H1)%bind_returns He. rewrite Hraw in He. injection He as ->.
  apply put_runs in H1 as (Hb & _ & Hk & Hr). split_and!; [done|done|]. rewrite <-Hr, zlen_app. done.
Qed.
Lemma opened_new s fd s' m1 m2 :
  0 ≤ buffer s < 2 ^ 64 → read_mem (machine s) (buffer s) (zlen path + 1) = Some (path ++ [x00]) →
  native 5 [buffer s; 0xa01; 0x1a4] s fd false s' m1 m2 →
  files (kernel (machine s)) path = None ∧ at_end (files (kernel (machine s))) fd [] s'.
Proof.
  intros Hb Hr Hn. pose proof (native_arg 0 (buffer s) _ _ _ _ _ _ _ _ Hn ltac:(lia) eq_refl Hb) as H0'.
  pose proof (native_arg 1 0xa01 _ _ _ _ _ _ _ _ Hn ltac:(lia) eq_refl ltac:(lia)) as H1'.
  destruct Hn as [[Hk Hm] _ Hret Hres [Hk' Hm'] _]. specialize (Hret eq_refl).
  destruct (native_create m1 m2 path Hret H1' Hpath) as [Hnone Hos]; [by rewrite H0', Hm|]. rewrite Hk in Hnone.
  split; [done|]. split; rewrite Hk', Hos; cbn.
  - rewrite Hres. apply fn_lookup_insert.
  - apply fn_lookup_insert.
  - intros p Hne. rewrite fn_lookup_insert_ne by done. by rewrite Hk.
Qed.
Lemma write_chunk_appends fs fd data start c s s' :
  0 ≤ fd < 2 ^ 64 → 0 ≤ buffer s < 2 ^ 64 → at_end fs fd c s →
  write_chunk slide welcome_slide expected fd data start s = (Ok (), s') →
  buffer s' = buffer s ∧ at_end fs fd (c ++ slice start (start + capacity) data) s'.
Proof.
  intros Hfd Hb [H1 H2 H3]. unfold write_chunk. set (chunk := slice _ _ data).
  intros ([] & s1 & Hp & H')%bind_returns. apply put_runs in Hp as (Hb1 & _ & Hk1 & Hr1).
  apply bind_returns in H' as (b & s2 & [= <- <-] & H'). apply bind_returns in H' as ([count f] & s2 & Hc & H').
  apply assert_runs in H' as [Hok ->]. destruct f; [done|]. assert (count = zlen chunk) as -> by lia.
  apply syscall_native in Hc as (m1 & m2 & Hn). pose proof (result_range _ _ _ _ _ _ _ _ Hn) as Hl. rewrite Hb1 in Hn.
  pose proof (native_arg 0 fd _ _ _ _ _ _ _ _ Hn ltac:(lia) eq_refl Hfd) as E0.
  pose proof (native_arg 1 (buffer s) _ _ _ _ _ _ _ _ Hn ltac:(lia) eq_refl Hb) as E1.
  pose proof (native_arg 2 (zlen chunk) _ _ _ _ _ _ _ _ Hn ltac:(lia) eq_refl Hl) as E2.
  destruct Hn as [[Hk Hm] _ Hret Hres [Hk' _] Hb2]. specialize (Hret eq_refl). split; [congruence|].
  destruct (native_write m1 m2 path (zlen c) c chunk Hret) as [_ Hos].
  - by rewrite E0, Hk, Hk1.
  - by rewrite Hk, Hk1.
  - pose proof (zlen_nonneg c). lia.
  - by rewrite E1, E2, Hm, Hr1.
  - cbv zeta in Hos. rewrite <-Hres, E0 in Hos. assert (zsplice (zlen c) (ztake (zlen chunk) chunk) c = c ++ chunk) as Hz.
    { unfold zsplice. rewrite (ztake_ge (zlen chunk)), ztake_ge, zdrop_ge by (pose proof (zlen_nonneg chunk); lia).
      by rewrite app_nil_r. }
    rewrite Hz in Hos. split; rewrite Hk', Hos; cbn.
    + rewrite fn_lookup_insert. by rewrite zlen_app.
    + apply fn_lookup_insert.
    + intros p Hne. rewrite fn_lookup_insert_ne by done. rewrite Hk, Hk1. by apply H3.
Qed.
Lemma write_chunks fs fd data i n s s' :
  0 ≤ fd < 2 ^ 64 → 0 ≤ buffer s < 2 ^ 64 → 0 ≤ i → 0 ≤ n → at_end fs fd (ztake (capacity * i) data) s →
  for_each (write_chunk slide welcome_slide expected fd data) (map (λ k, capacity * k) (seqZ i n)) s = (Ok (), s') →
  at_end fs fd (ztake (capacity * (i + n)) data) s'.
Proof.
  intros Hfd Hb Hi Hn. revert i s Hi Hb. pattern n. apply natlike_ind; [| |exact Hn]; clear n Hn.
  - intros i s Hi Hb Ha [= <-]. by rewrite Z.add_0_r.
  - intros n Hn IH i s Hi Hb Ha. rewrite seqZ_cons by lia. cbn [map for_each].
    intros ([] & s1 & Hc & Hrest)%bind_returns. apply (write_chunk_appends fs fd data _ _ s s1 Hfd Hb Ha) in Hc as [Hb1 Ha1].
    replace (Z.pred (Z.succ n)) with n in Hrest by lia. replace (i + Z.succ n) with (Z.succ i + n) by lia.
    apply (IH (Z.succ i) s1); [lia|by rewrite Hb1| |done].
    replace (ztake (capacity * Z.succ i) data) with (ztake (capacity * i) data ++ slice (capacity * i) (capacity * i + capacity) data);
      [done|]. rewrite <-(ztake_zdrop (capacity * i) (ztake (capacity * Z.succ i) data)). f_equal.
    + rewrite ztake_ztake. f_equal. unfold capacity. lia.
    + unfold slice. rewrite !zdrop_drop, !ztake_take. rewrite skipn_firstn_comm. f_equal. unfold capacity. lia.
Qed.
Lemma at_end_starts fs fd data s s' :
  0 ≤ fd < 2 ^ 64 → 0 ≤ buffer s < 2 ^ 64 → at_end fs fd [] s →
  for_each (write_chunk slide welcome_slide expected fd data) (starts (zlen data)) s = (Ok (), s') → at_end fs fd data s'.
Proof.
  intros Hfd Hb Ha Hrun. pose proof (zlen_nonneg data) as Hd. unfold starts in Hrun.
  apply (write_chunks fs fd data 0 _ s s' Hfd Hb) in Hrun; [| done | apply Z.div_pos; unfold capacity; lia |].
  - rewrite ztake_ge in Hrun; [done|]. unfold capacity.
    pose proof (Z.div_mod (zlen data + 0x100000 - 1) 0x100000 ltac:(lia)).
    pose proof (Z.mod_pos_bound (zlen data + 0x100000 - 1) 0x100000 ltac:(lia)). lia.
  - by rewrite ztake_le_0 by (unfold capacity; lia).
Qed.
Lemma close_files fd s s' : close slide welcome_slide expected fd s = (Ok (), s') → files (kernel (machine s')) = files (kernel (machine s)).
Proof.
  unfold close. intros ([r f] & s1 & Hc & H1)%bind_returns. apply assert_runs in H1 as [Hf ->]. destruct f; [done|].
  apply syscall_native in Hc as (m1 & m2 & [[Hk _] _ Hret _ [Hk' _] _]).
  by rewrite Hk', (native_close _ _ (Hret eq_refl)), Hk.
Qed.

(** C28: What [write_file] reports written is written.  When it returns, on a
    kernel whose [open], [write] and [close] do what they are documented to, no
    file was at the destination before, the file there now holds exactly the
    bytes of the source, however many chunks they took, and no other file has
    changed. *)
Theorem write_file_writes source dest data s s' :
  0 ≤ buffer s < 2 ^ 64 → utf8_encode dest = Ok path →
  write_file slide welcome_slide expected source dest data s = (Ok (), s') →
  files (kernel (machine s)) path = None ∧ files (kernel (machine s')) path = Some data
  ∧ ∀ p, p ≠ path → files (kernel (machine s')) p = files (kernel (machine s)) p.
Proof.
  intros Hb He. unfold write_file. intros ([] & s1 & Hp & H1)%bind_returns.
  apply (put_path_runs dest s s1) in Hp as (Hb1 & Hk1 & Hr1); [|done]. apply bind_returns in H1 as (b & s2 & [= <- <-] & H1).
  apply bind_returns in H1 as ([fd f] & s2 & Ho & H1). apply assert_then in H1 as [Hf H1]. destruct f; [done|].
  apply syscall_native in Ho as (m1 & m2 & Hn). pose proof (result_range _ _ _ _ _ _ _ _ Hn) as Hfd.
  pose proof (n_buffer _ _ _ _ _ _ _ _ Hn) as Hb2.
  apply opened_new in Hn as [Hnone Ha]; [|by rewrite Hb1|by rewrite Hb1]. rewrite Hk1 in Hnone.
  apply bind_returns in H1 as ([] & s3 & (s4 & Hw & Hc)%try_runs & [= <-]).
  assert (0 ≤ buffer s2 < 2 ^ 64) as Hb' by by rewrite Hb2, Hb1.
  destruct (at_end_starts _ _ _ _ _ Hfd Hb' Ha Hw) as [_ Hfile Hrest].
  apply close_files in Hc. cbn. rewrite Hc. split_and!; [done|done|]. intros p Hne. by rewrite (Hrest p Hne), Hk1.
Qed.

(** Nothing but a failed assertion comes out of the methods a read uses. *)
Definition is_assertion (e : exn) : Prop := e = AssertionError.
Abbreviation Asserts := (Holds (λ _ : prov M, True) is_assertion).
#[local] Instance asserts_assert b : Asserts (assert b).
Proof. apply holds_when. by apply holds_raise. Qed.
#[local] Instance asserts_update f : Asserts (update f).
Proof. by apply holds_update. Qed.
#[local] Instance asserts_setreg r v : Asserts (setreg r v).
Proof. unfold setreg. apply holds_bind; [apply _|]. intros m. destruct (set_reg _ _ _); [apply _|by apply holds_raise]. Qed.
#[local] Instance asserts_continue : Asserts continue_.
Proof. unfold continue_. apply holds_bind; [apply _|]. intros m. destruct (resume m). apply _. Qed.
#[local] Instance asserts_registers l : Asserts (for_each (λ '(r, v), setreg r v) l).
Proof. apply holds_for_each. intros [r v]. apply _. Qed.
#[local] Instance asserts_arguments l : Asserts (for_each (λ '(i, v), setreg (X i) v) l).
Proof. apply holds_for_each. intros [i v]. apply _. Qed.
#[local] Instance asserts_try {A} (m : SE (prov M) A) h : Asserts m → Asserts h → Asserts (try_finally m h).
Proof.
  intros Hm Hh s _. unfold keeps_at, try_finally. destruct (Hm s I) as [_ Hr]. destruct (m s) as [r s1].
  destruct (Hh s1 I) as [_ Hr']. destruct (h s1) as [[[]|e] s2]; by split.
Qed.
#[local] Instance asserts_syscall number args : Asserts (syscall number args).
Proof.
  unfold Provision.syscall. apply holds_bind; [apply _|]. intros m. apply holds_bind; [apply _|]. intros _.
  apply holds_bind; [unfold enter_call; apply holds_bind; [apply _|]; intros m'; destruct (create_bp m' _); apply _|].
  intros [bp old]. apply asserts_try; [|apply _]. unfold call_body, set_args, restore, reg, record. apply _.
Qed.
#[local] Instance asserts_close fd : Asserts (close slide welcome_slide expected fd).
Proof. unfold close. apply holds_bind; [apply _|]. intros [r f]. apply _. Qed.

Lemma opened_read s fd s' m1 m2 :
  0 ≤ buffer s < 2 ^ 64 → read_mem (machine s) (buffer s) (zlen path + 1) = Some (path ++ [x00]) →
  native 5 [buffer s; 0; 0] s fd false s' m1 m2 →
  (∃ c, files (kernel (machine s)) path = Some c)
  ∧ kernel (machine s') = Os (files (kernel (machine s))) (<[fd := Some (path, 0)]> (fds (kernel (machine s)))).
Proof.
  intros Hb Hr Hn. pose proof (native_arg 0 (buffer s) _ _ _ _ _ _ _ _ Hn ltac:(lia) eq_refl Hb) as H0'.
  pose proof (native_arg 1 0 _ _ _ _ _ _ _ _ Hn ltac:(lia) eq_refl ltac:(lia)) as H1'.
  destruct Hn as [[Hk Hm] _ Hret Hres [Hk' Hm'] _]. specialize (Hret eq_refl).
  destruct (native_open m1 m2 path Hret H1' Hpath) as [Hc Hos]; [by rewrite H0', Hm|]. rewrite Hk in Hc. split; [done|].
  by rewrite Hk', Hos, Hres, Hk.
Qed.
(** One read, from the offset. *)
Lemma read_once fd c pos s size s' m1 m2 :
  0 ≤ fd < 2 ^ 64 → 0 ≤ buffer s < 2 ^ 64 → 0 ≤ pos ≤ zlen c →
  fds (kernel (machine s)) fd = Some (path, pos) → files (kernel (machine s)) path = Some c →
  native 3 [fd; buffer s; capacity] s size false s' m1 m2 →
  0 ≤ size ∧ pos + size ≤ zlen c ∧ (size = 0 → pos = zlen c) ∧
  read_mem (machine s') (buffer s) size = Some (slice pos (pos + size) c) ∧
  kernel (machine s') = Os (files (kernel (machine s))) (<[fd := Some (path, pos + size)]> (fds (kernel (machine s)))).
Proof.
  intros Hfd Hb Hpos Hf Hc Hn. pose proof (result_range _ _ _ _ _ _ _ _ Hn) as Hs.
  pose proof (native_arg 0 fd _ _ _ _ _ _ _ _ Hn ltac:(lia) eq_refl Hfd) as E0.
  pose proof (native_arg 1 (buffer s) _ _ _ _ _ _ _ _ Hn ltac:(lia) eq_refl Hb) as E1.
  pose proof (native_arg 2 capacity _ _ _ _ _ _ _ _ Hn ltac:(lia) eq_refl ltac:(unfold capacity; lia)) as E2.
  destruct Hn as [[Hk Hm] _ Hret Hres [Hk' Hm'] _]. specialize (Hret eq_refl).
  destruct (native_read m1 m2 path pos c Hret) as (H1 & _ & H3 & H4 & H5); [by rewrite E0, Hk|by rewrite Hk|done|].
  rewrite <-Hres in H1, H3, H4, H5. rewrite E1 in H4. split_and!; [lia|lia| |by rewrite Hm'|by rewrite Hk', H5, E0, Hk].
  intros Hz. destruct (H3 Hz) as [Hz'|?]; [|done]. rewrite E2 in Hz'. done.
Qed.
Lemma read_back_reads fuel fd c pos s :
  0 ≤ fd < 2 ^ 64 → 0 ≤ buffer s < 2 ^ 64 → 0 ≤ pos ≤ zlen c →
  fds (kernel (machine s)) fd = Some (path, pos) → files (kernel (machine s)) path = Some c →
  wp (read_back slide welcome_slide expected fuel fd)
    (λ d s', d = zdrop pos c ∧ files (kernel (machine s')) = files (kernel (machine s)))
    (λ e _, zlen c - pos < Z.of_nat fuel → e ≠ OutOfFuel) s.
Proof.
  intros Hfd. revert pos s. induction fuel as [|fuel IH]; intros pos s Hb Hpos Hf Hc; cbn [read_back].
  { apply wp_raise. lia. }
  apply wp_bind, wp_gets, wp_bind. unfold wp at 1. pose proof (asserts_syscall 3 [fd; buffer s; capacity] s I) as [_ He].
  destruct (syscall 3 [fd; buffer s; capacity] s) as [[[size f]|e] s1] eqn:Es; cbn in He; [|by rewrite He].
  apply wp_bind. unfold assert. apply wp_when; intros Hok; [by apply wp_raise|]. destruct f; [done|].
  apply syscall_native in Es as (m1 & m2 & Hn). pose proof (n_buffer _ _ _ _ _ _ _ _ Hn) as Hb1.
  apply (read_once fd c pos) in Hn as (Hs & Hle & Hz & Hr & Hk); [|done..]. destruct (size =? 0) eqn:Ez.
  { apply wp_ret. split; [|by rewrite Hk]. by rewrite (Hz ltac:(lia)), zdrop_ge. }
  apply wp_bind, wp_gets, wp_bind, wp_lift; rewrite Hr; [intros data [= <-]|done].
  apply wp_bind, wp_when; intros Hl; [by apply wp_raise|]. apply wp_bind.
  eapply wp_mono; [apply (IH (pos + size))|..].
  - by rewrite Hb1.
  - lia.
  - rewrite Hk. apply fn_lookup_insert.
  - by rewrite Hk.
  - intros d s' [-> Hfs]. apply wp_ret. split; [|by rewrite Hfs, Hk].
    unfold slice. replace (pos + size - pos) with size by lia. replace (pos + size) with (pos + size) by done.
    rewrite <-(zdrop_zdrop size pos c) by lia. apply ztake_zdrop.
  - intros e s' He' Hfuel. apply He'. lia.
Qed.

#[local] Instance asserts_put data : Asserts (put data).
Proof.
  unfold put. apply holds_bind; [apply _|]. intros b. apply holds_bind; [apply _|]. intros _. apply holds_bind; [apply _|].
  intros m. destruct (write_mem m b data). unfold set_machine. apply _.
Qed.
Lemma put_path_wp dest s (Q : () → prov M → Prop) :
  utf8_encode dest = Ok path →
  (∀ s', buffer s' = buffer s → kernel (machine s') = kernel (machine s) →
     read_mem (machine s') (buffer s) (zlen path + 1) = Some (path ++ [x00]) → Q () s') →
  wp (put_path dest) Q (λ e _, e ≠ OutOfFuel) s.
Proof.
  intros He HQ. unfold wp. destruct (put_path dest s) as [[[]|e] s1] eqn:E.
  - destruct (put_path_runs dest s s1 E He) as (H1 & H2 & H3). by apply HQ.
  - unfold put_path in E. rewrite He in E. pose proof (asserts_put (path ++ [x00]) s I) as [_ Hr].
    unfold mbind, se_bind, lift in E. rewrite E in Hr. cbn in Hr. by rewrite Hr.
Qed.
(** A body and its [finally]. *)
Lemma try_wp {A} (m : SE (prov M) A) h (Q : A → prov M → Prop) (E : exn → prov M → Prop) s :
  wp m (λ a s', wp h (λ _, Q a) E s') (λ e s', wp h (λ _, E e) E s') s → wp (try_finally m h) Q E s.
Proof. unfold wp, try_finally. destruct (m s) as [[a|e] s1]; by destruct (h s1) as [[[]|e'] s2]. Qed.
Lemma asserts_wp {A} (m : SE (prov M) A) (Q : A → prov M → Prop) (E : exn → prov M → Prop) s :
  Asserts m → (∀ a s', m s = (Ok a, s') → Q a s') → (∀ s', E AssertionError s') → wp m Q E s.
Proof.
  intros Hm HQ HE. unfold wp. destruct (Hm s I) as [_ Hr]. destruct (m s) as [[a|e] s']; [by apply HQ|].
  cbn in Hr. rewrite Hr. apply HE.
Qed.

(** [verify_file] accepts only the content it is given, and ends.  When it
    returns, the file at the destination exists, has the length and the SHA-256
    digest of the expected content, and no file was changed; and with one pass
    more than the file has bytes its loop is never cut short, whatever fails. *)
Theorem verify_file_sound fuel content dest s :
  0 ≤ buffer s < 2 ^ 64 → utf8_encode dest = Ok path →
  let '(r, s') := verify_file slide welcome_slide expected fuel content dest s in
  (r = Ok () → ∃ c, files (kernel (machine s)) path = Some c ∧ zlen c = zlen content
     ∧ Sha256.sha256 c = Sha256.sha256 content ∧ files (kernel (machine s')) = files (kernel (machine s)))
  ∧ ((∀ c, files (kernel (machine s)) path = Some c → zlen c < Z.of_nat fuel) → r ≠ Raise OutOfFuel).
Proof.
  intros Hb He.
  assert (wp (verify_file slide welcome_slide expected fuel content dest) (λ _ s',
      ∃ c, files (kernel (machine s)) path = Some c ∧ zlen c = zlen content
        ∧ Sha256.sha256 c = Sha256.sha256 content ∧ files (kernel (machine s')) = files (kernel (machine s)))
    (λ e _, (∀ c, files (kernel (machine s)) path = Some c → zlen c < Z.of_nat fuel) → e ≠ OutOfFuel) s) as Hw.
  2:{ unfold wp in Hw. destruct (verify_file _ _ _ _ _ _ s) as [[[]|e] s']; split; [by intros _|done|done|].
      intros Hfuel [= ->]. by apply Hw. }
  unfold verify_file. eapply wp_then; [eapply wp_mono; [by eapply (put_path_wp dest s (λ _ s1, buffer s1 = buffer s
    ∧ kernel (machine s1) = kernel (machine s) ∧ read_mem (machine s1) (buffer s) (zlen path + 1) = Some (path ++ [x00])))
    |intros a s' Hq; exact Hq|by intros e s']|].
  intros [] s1 (Hb1 & Hk1 & Hr1). apply wp_bind, wp_gets, wp_bind. apply asserts_wp; [apply _| |done]. rewrite Hb1.
  intros [fd f] s2 Ho. apply wp_bind, wp_when; intros Hf; [by apply wp_raise|]. destruct f; [done|].
  apply syscall_native in Ho as (m1 & m2 & Hn). pose proof (result_range _ _ _ _ _ _ _ _ Hn) as Hfd.
  pose proof (n_buffer _ _ _ _ _ _ _ _ Hn) as Hb2. rewrite <-Hb1 in Hn, Hr1.
  apply opened_read in Hn as [[c Hc] Hos]; [|by rewrite Hb1|done]. rewrite Hk1 in Hc, Hos.
  apply wp_bind, try_wp. eapply wp_mono; [apply (read_back_reads fuel fd c 0 s2 Hfd)|..].
  - by rewrite Hb2, Hb1.
  - pose proof (zlen_nonneg c). lia.
  - rewrite Hos. apply fn_lookup_insert.
  - by rewrite Hos.
  - intros d s3 [-> Hfs]. apply asserts_wp; [apply _| |done]. intros [] s4 Hcl%close_files.
    rewrite zdrop_le_0 by lia. apply wp_when; intros Hd; [by apply wp_raise|].
    apply negb_false_iff, andb_true_iff in Hd as [Hl Hd%bool_decide_eq_true]. apply Z.eqb_eq in Hl.
    exists c. split_and!; [done..|]. by rewrite Hcl, Hfs, Hos.
  - intros e s3 He'. apply asserts_wp; [apply _| |done]. intros [] s4 _ Hfuel. apply He'. rewrite Z.sub_0_r. by apply Hfuel.
Qed.
End descriptor.
End files.

(** ** A guest *)

(** A machine of which these laws hold: an echo of the kernel with one
    descriptor, and memory at every address. *)
Module Sample.
Record guest := Guest {
  regs : register → Z;
  texts : register → option (list Z);
  mem : Z → byte;
  mode : bool;
  points : list (Z * Z);
  system : os;
}.
Definition with_regs f g := Guest (f (regs g)) (texts g) (mem g) (mode g) (points g) (system g).
Definition with_texts f g := Guest (regs g) (f (texts g)) (mem g) (mode g) (points g) (system g).
Definition with_mem f g := Guest (regs g) (texts g) (f (mem g)) (mode g) (points g) (system g).
Definition with_mode b g := Guest (regs g) (texts g) (mem g) b (points g) (system g).
Definition with_points f g := Guest (regs g) (texts g) (mem g) (mode g) (f (points g)) (system g).
Definition with_system o g := Guest (regs g) (texts g) (mem g) (mode g) (points g) o.

Definition value (g : guest) (r : register) : Z := regs g (canon r) mod 2 ^ width r.
Definition bytes_at (f : Z → byte) (a n : Z) : list byte := map f (seqZ a n).
Definition overwrite (a : Z) (d : list byte) (f : Z → byte) : Z → byte := λ x,
  if (a <=? x) && (x <? a + zlen d) then default x00 (znth (x - a) d) else f x.
Definition fresh (l : list (Z * Z)) : Z := 1 + foldr Z.max 0 l.*1.

(** The stop after a call, with its result or the carry flag. *)
Definition stop (svc r : Z) (failed : bool) (g : guest) : guest :=
  with_regs (λ f, <[X 0 := r]> (<[CPSR := if failed then 2 ^ 29 else 0]> (<[PC := svc + 4]> f))) g.
Definition PATH_MAX : Z := 64.
Definition path_at (g : guest) (a : Z) : option (list byte) :=
  let raw := bytes_at (mem g) a PATH_MAX in if bool_decide (x00 ∈ raw) then Some (before x00 raw) else None.
Definition FD : Z := 3.
Definition run_open (svc : Z) (g : guest) (path : list byte) : guest :=
  match files (system g) path, value g (X 1) =? O_CREATE_NEW with
  | None, true => stop svc FD false
      (with_system (Os (<[path := Some []]> (files (system g))) (<[FD := Some (path, 0)]> (fds (system g)))) g)
  | Some _, false => stop svc FD false
      (with_system (Os (files (system g)) (<[FD := Some (path, 0)]> (fds (system g)))) g)
  | _, _ => stop svc 0 true g
  end.
Definition run_write (svc : Z) (g : guest) (path : list byte) (pos : Z) (c : list byte) : guest :=
  let d := bytes_at (mem g) (value g (X 1)) (value g (X 2)) in
  let k := value g (X 2) in
  stop svc k false (with_system (Os (<[path := Some (zsplice pos (ztake k d) c)]> (files (system g)))
    (<[value g (X 0) := Some (path, pos + k)]> (fds (system g)))) g).
Definition run_read (svc : Z) (g : guest) (path : list byte) (pos : Z) (c : list byte) : guest :=
  let k := Z.max 0 (Z.min (value g (X 2)) (zlen c - pos)) in
  stop svc k false (with_mem (overwrite (value g (X 1)) (slice pos (pos + k) c))
    (with_system (Os (files (system g)) (<[value g (X 0) := Some (path, pos + k)]> (fds (system g)))) g)).
Definition on_fd (svc : Z) (run : list byte → Z → list byte → guest) (g : guest) : guest :=
  match fds (system g) (value g (X 0)) with
  | Some (path, pos) => match files (system g) path with Some c => run path pos c | None => stop svc 0 true g end
  | None => stop svc 0 true g
  end.
Definition run_call (svc : Z) (g : guest) : guest :=
  let number := value g (X 16) in
  if number =? 5 then match path_at g (value g (X 0)) with Some path => run_open svc g path | None => stop svc 0 true g end
  else if number =? 4 then on_fd svc (run_write svc g) g
  else if number =? 3 then on_fd svc (run_read svc g) g
  else if number =? 197 then stop svc 0x10000 false g
  else stop svc 0 false g.
Definition SVC : Z := svc 0.
Definition run (g : guest) : guest * bool :=
  if value g PC =? SVC then (run_call SVC g, true)
  else if value g PC =? bzero 0 then (with_regs <[PC := SVC + 4]> (with_mem (λ f x,
    if (value g (X 0) <=? x) && (x <? value g (X 0) + value g (X 1)) then x00 else f x) g), true)
  else (g, false).

#[export] Instance sample_debugger : Debugger guest := {
  get_reg := value;
  set_reg g r v := Some (with_regs <[canon r := v]> g);
  get_text := texts;
  set_text g r t := Some (with_texts <[r := Some t]> g);
  create_bp g a := (with_points (cons (fresh (points g), a)) g, fresh (points g));
  delete_bp g i := with_points (filter (λ b, b.1 ≠ i)) g;
  get_async := mode;
  set_async g b := with_mode b g;
  resume := run;
  read_mem g a n := if n <? 0 then None else Some (bytes_at (mem g) a n);
  write_mem g a d := (with_mem (overwrite a d) g, zlen d);
}.

Lemma fresh_new l : fresh l ∉ l.*1.
Proof.
  assert (∀ x, x ∈ l.*1 → x ≤ foldr Z.max 0 l.*1) as Hle.
  { intros x. induction (l.*1) as [|y k IH]; [by intros ?%not_elem_of_nil|]. cbn. intros [->|Hx]%elem_of_cons; [lia|].
    specialize (IH Hx). lia. }
  intros H%Hle. unfold fresh in H. lia.
Qed.
Lemma width_canon r r' : canon r = canon r' → width r = width r'.
Proof. destruct r, r'; cbn; by intros [= ->] || done. Qed.
Lemma run_keeps g g' b : run g = (g', b) → points g' = points g ∧ mode g' = mode g.
Proof.
  unfold run, run_call, on_fd, run_open, run_write, run_read, stop, with_regs, with_mem, with_system. intros H.
  repeat case_match; simplify_eq/=; done.
Qed.
#[refine, export] Instance sample_laws : DebuggerLaws guest := { breaks := points }.
Proof.
  - intros g r. apply Z.mod_pos_bound. destruct r; by apply Z.pow_pos_nonneg.
  - intros g r v g' r' [= <-]. cbn. unfold value, with_regs. cbn. destruct (decide (canon r = canon r')) as [E|Hne].
    + rewrite <-E, fn_lookup_insert. by rewrite (width_canon r' r).
    + by rewrite fn_lookup_insert_ne.
  - by intros g r v g' r' [= <-] _.
  - intros g r t g' r' [= <-]. cbn. destruct (decide (r = r')) as [->|Hne]; [apply fn_lookup_insert|by apply fn_lookup_insert_ne].
  - by intros g r t g' r' [= <-] _.
  - intros g a g' i [= <- <-]. split; [done|apply fresh_new].
  - done.
  - done.
  - by intros g r v g' [= <-].
  - by intros g r t g' [= <-].
  - intros g g' b H. by apply run_keeps in H.
  - by intros g a d g' n [= <- _].
  - by intros g a g' i [= <- _].
  - done.
  - by intros g a d g' n r [= <- _].
  - by intros g a g' i r [= <- _].
  - done.
  - done.
Defined.

(** What the calls do. *)
Lemma bytes_at_app f a n m : 0 ≤ n → 0 ≤ m → bytes_at f a (n + m) = bytes_at f a n ++ bytes_at f (a + n) m.
Proof. intros Hn Hm. unfold bytes_at. by rewrite seqZ_app, map_app. Qed.
Lemma zlen_bytes_at f a n : 0 ≤ n → zlen (bytes_at f a n) = n.
Proof. intros Hn. unfold bytes_at, zlen. rewrite length_map, length_seqZ. lia. Qed.
Lemma path_at_reads g a path p :
  x00 ∉ path → bytes_at (mem g) a (zlen path + 1) = path ++ [x00] → path_at g a = Some p → p = path.
Proof.
  intros Hp Hb. unfold path_at. case_bool_decide as Hin; [|done]. intros [= <-]. pose proof (zlen_nonneg path).
  destruct (Z_le_gt_dec (zlen path + 1) PATH_MAX) as [Hle|Hgt].
  - change (before x00 (bytes_at (mem g) a PATH_MAX) = path).
    replace PATH_MAX with ((zlen path + 1) + (PATH_MAX - (zlen path + 1))) by lia.
    rewrite bytes_at_app, Hb, <-app_assoc by lia. by apply before_app.
  - exfalso. apply Hp. assert (bytes_at (mem g) a PATH_MAX ++ bytes_at (mem g) (a + PATH_MAX) (zlen path - PATH_MAX) = path) as E.
    { rewrite <-bytes_at_app by (unfold PATH_MAX in *; lia). replace (PATH_MAX + (zlen path - PATH_MAX)) with (zlen path) by lia.
      rewrite bytes_at_app in Hb by lia. by apply app_inj_tail in Hb as [-> _]. }
    rewrite <-E. apply elem_of_app. by left.
Qed.
Lemma stop_X0 svc r f g : value (stop svc r f g) (X 0) = r mod 2 ^ 64.
Proof. unfold value, stop, with_regs. cbn [regs canon width]. by rewrite fn_lookup_insert. Qed.
Lemma stop_failed svc r f g : Z.testbit (value (stop svc r f g) CPSR) 29 = f.
Proof.
  unfold value, stop, with_regs. cbn [regs canon width]. rewrite fn_lookup_insert_ne, fn_lookup_insert by done. by destruct f.
Qed.
Lemma returned_runs g g' n : returned SVC g g' n → n = value g (X 16) ∧ g' = run_call SVC g ∧ Z.testbit (value g' CPSR) 29 = false.
Proof.
  intros (Hpc & <- & Hr & _ & Hf). change (SVC mod 2 ^ 64) with SVC in Hpc. change (value g PC = SVC) in Hpc.
  change (run g = (g', true)) in Hr. unfold run in Hr. rewrite Hpc, Z.eqb_refl in Hr. by injection Hr as <-.
Qed.
Lemma call_5 g g' path : returned SVC g g' 5 → x00 ∉ path →
  read_mem g (get_reg g (X 0)) (zlen path + 1) = Some (path ++ [x00]) → g' = run_open SVC g path ∧ g' ≠ stop SVC 0 true g.
Proof.
  intros (Hn & -> & Hf)%returned_runs Hp Hr. cbn in Hr. replace (zlen path + 1 <? 0) with false in Hr by (pose proof (zlen_nonneg path); lia).
  injection Hr as Hr. unfold run_call in *. rewrite <-Hn in *. cbn [Z.eqb Pos.eqb] in *.
  destruct (path_at g (value g (X 0))) as [p|] eqn:E; [|by rewrite stop_failed in Hf].
  apply (path_at_reads _ _ _ _ Hp Hr) in E as ->. split; [done|]. intros E. rewrite E in Hf. by rewrite stop_failed in Hf.
Qed.
Lemma on_fd_runs f g path pos c : fds (system g) (value g (X 0)) = Some (path, pos) → files (system g) path = Some c →
  on_fd SVC f g = f path pos c.
Proof. unfold on_fd. by intros -> ->. Qed.
Lemma overwrite_reads f a d n : n = zlen d → bytes_at (overwrite a d f) a n = d.
Proof.
  intros ->. pose proof (zlen_nonneg d). apply list_eq_znth; [by rewrite zlen_bytes_at|]. intros j Hj. rewrite zlen_bytes_at in Hj by done.
  unfold bytes_at. rewrite znth_lookup, list_lookup_fmap by lia. rewrite lookup_seqZ_lt by lia. cbn. unfold overwrite.
  rewrite Z2Nat.id by lia. replace ((a <=? a + j) && (a + j <? a + zlen d)) with true by lia.
  replace (a + j - a) with j by lia. destruct (znth j d) eqn:E; [done|]. rewrite znth_lookup in E by lia.
  apply lookup_ge_None in E. unfold zlen in *. lia.
Qed.
#[refine, export] Instance sample_files : NativeFiles guest (svc 0) := { kernel := system }.
Proof.
  - by intros g r v g' [= <-].
  - by intros g a g' i [= <- _].
  - done.
  - done.
  - by intros g a d g' n [= <- _].
  - intros g a n d. cbn. destruct (n <? 0) eqn:E; [done|]. intros [= <-]. apply zlen_bytes_at. lia.
  - intros g g' path Hret H1 Hp Hr. destruct (call_5 g g' path Hret Hp Hr) as [-> Hne]. unfold run_open in *.
    change (value g (X 1) = O_CREATE_NEW) in H1. rewrite H1, Z.eqb_refl in *. destruct (files (system g) path) eqn:E; [done|].
    split; [done|]. change (get_reg ?x (X 0)) with (value x (X 0)). by rewrite stop_X0.
  - intros g g' path Hret H1 Hp Hr. destruct (call_5 g g' path Hret Hp Hr) as [-> Hne]. unfold run_open in *.
    change (value g (X 1) = 0) in H1. rewrite H1 in *. change (0 =? O_CREATE_NEW) with false in *.
    destruct (files (system g) path) as [c|] eqn:E; [|done].
    split; [by exists c|]. change (get_reg ?x (X 0)) with (value x (X 0)). by rewrite stop_X0.
  - intros g g' path pos c d (Hn & -> & Hf)%returned_runs Hfd Hc Hpos Hr. unfold run_call in *. rewrite <-Hn in *.
    cbn [Z.eqb Pos.eqb] in *. rewrite (on_fd_runs _ _ _ _ _ Hfd Hc). unfold run_write.
    pose proof (Z.mod_pos_bound (regs g (X 2)) (2 ^ 64) ltac:(lia)) as Hx2. change (regs g (X 2) mod 2 ^ 64) with (value g (X 2)) in Hx2.
    cbn [read_mem sample_debugger get_reg] in *. destruct (value g (X 2) <? 0) eqn:E; [done|]. injection Hr as <-.
    rewrite stop_X0, zlen_bytes_at, Z.mod_small by lia. done.
  - intros g g' path pos c (Hn & -> & Hf)%returned_runs Hfd Hc Hpos. unfold run_call in *. rewrite <-Hn in *.
    cbn [Z.eqb Pos.eqb] in *. rewrite (on_fd_runs _ _ _ _ _ Hfd Hc). unfold run_read.
    pose proof (Z.mod_pos_bound (regs g (X 2)) (2 ^ 64) ltac:(lia)) as Hx2. change (regs g (X 2) mod 2 ^ 64) with (value g (X 2)) in Hx2.
    set (k := Z.max 0 (Z.min (value g (X 2)) (zlen c - pos))). cbn [get_reg sample_debugger]. rewrite stop_X0, Z.mod_small by lia.
    cbv zeta. split_and!; [lia|lia|lia| |done]. cbn [read_mem sample_debugger]. replace (k <? 0) with false by lia. f_equal.
    apply overwrite_reads. rewrite zlen_slice; lia.
  - intros g g' (Hn & -> & Hf)%returned_runs. unfold run_call. rewrite <-Hn. done.
Defined.

(** A guest paused in Setup, with an empty file system. *)
Definition sample_memory : Z → byte :=
  overwrite PROGNAME_PTR (le_bytes 8 0x3000) (overwrite 0x3000 (le_bytes 8 0x4000) (overwrite 0x4000 (b "Setup") (λ _, x00))).
Definition paused : guest :=
  Guest (<[PC := 0x1000]> (<[X 0 := 7]> (<[SP := 0x160000000]> (λ _, 0)))) (λ _, None) sample_memory true [] (Os (λ _, None) (λ _, None)).
Definition sample : prov guest := Prov paused 0x10000 [].
Lemma ran {A B} (p : A * B) a : p.1 = a → p = (a, p.2).
Proof. destruct p. by intros <-. Qed.
Definition dest : list Z := u "/assets/manifest".
Definition content : list byte := b "manifest".
Definition written_sample : prov guest := (write_file 0 0 (u "Setup") (u "manifest") dest content sample).2.
Lemma write_file_writes_witness :
  0 ≤ buffer sample < 2 ^ 64 ∧ utf8_encode dest = Ok (b "/assets/manifest") ∧ (x00 ∉ b "/assets/manifest")
  ∧ write_file 0 0 (u "Setup") (u "manifest") dest content sample = (Ok (), written_sample)
  ∧ files (kernel (machine written_sample)) (b "/assets/manifest") = Some content.
Proof.
  assert (x00 ∉ b "/assets/manifest") as Hp by (apply (bool_decide_unpack _); vm_compute; exact I).
  assert (utf8_encode dest = Ok (b "/assets/manifest")) as He by (vm_compute; reflexivity).
  assert (write_file 0 0 (u "Setup") (u "manifest") dest content sample = (Ok (), written_sample)) as Hw.
  { assert ((write_file 0 0 (u "Setup") (u "manifest") dest content sample).1 = Ok ()) as H by (vm_compute; reflexivity).
    exact (ran _ _ H). }
  split; [cbn; lia|]. split; [exact He|]. split; [exact Hp|]. split; [exact Hw|].
  apply (write_file_writes 0 0 (u "Setup") (b "/assets/manifest") Hp (u "manifest") dest content sample written_sample); [cbn; lia|exact He|exact Hw].
Defined.
Lemma verify_file_sound_witness :
  0 ≤ buffer written_sample < 2 ^ 64 ∧ utf8_encode dest = Ok (b "/assets/manifest") ∧ (x00 ∉ b "/assets/manifest")
  ∧ (verify_file 0 0 (u "Setup") 9 content dest written_sample).1 = Ok ()
  ∧ ∃ c, files (kernel (machine written_sample)) (b "/assets/manifest") = Some c ∧ zlen c = zlen content
    ∧ Sha256.sha256 c = Sha256.sha256 content.
Proof.
  assert (x00 ∉ b "/assets/manifest") as Hp by (apply (bool_decide_unpack _); vm_compute; exact I).
  assert (utf8_encode dest = Ok (b "/assets/manifest")) as He by (vm_compute; reflexivity).
  assert (0 ≤ buffer written_sample < 2 ^ 64) as Hb by (vm_compute; split; [discriminate|reflexivity]).
  assert ((verify_file 0 0 (u "Setup") 9 content dest written_sample).1 = Ok ()) as Hv by (vm_compute; reflexivity).
  split; [exact Hb|]. split; [exact He|]. split; [exact Hp|]. split; [exact Hv|].
  pose proof (verify_file_sound 0 0 (u "Setup") (b "/assets/manifest") Hp 9 content dest written_sample Hb He) as H.
  destruct (verify_file 0 0 (u "Setup") 9 content dest written_sample) as [r s']. destruct H as [H _].
  destruct (H Hv) as (c & H1 & H2 & H3 & _). exists c. split; [exact H1|]. split; [exact H2|exact H3].
Defined.
Lemma sessions_give_back_witness :
  let '(r, s') := session 0 0 (u "Setup")
    [Allocate; Mkdir (u "/assets"); WriteFile (u "manifest") dest content; VerifyFile 9 content dest; Release] sample in
  r = Ok () ∧ length (events s') = 11%nat ∧ get_reg (machine s') (X 0) = 7 ∧ breaks (machine s') = [].
Proof.
  pose proof (sessions_give_back 0 0 (u "Setup")
    [Allocate; Mkdir (u "/assets"); WriteFile (u "manifest") dest content; VerifyFile 9 content dest; Release] sample) as H.
  assert ((session 0 0 (u "Setup") [Allocate; Mkdir (u "/assets"); WriteFile (u "manifest") dest content;
    VerifyFile 9 content dest; Release] sample).1 = Ok ()) as Hr by (vm_compute; reflexivity).
  assert (length (events (session 0 0 (u "Setup") [Allocate; Mkdir (u "/assets"); WriteFile (u "manifest") dest content;
    VerifyFile 9 content dest; Release] sample).2) = 11%nat) as Hl by (vm_compute; reflexivity).
  destruct (session _ _ _ _ sample) as [r s']. cbn in Hr, Hl. destruct H as (Hb & _ & H).
  split; [exact Hr|]. split; [exact Hl|]. split; [|exact Hb].
  rewrite (H Hr (X 0)) by (apply (bool_decide_unpack _); vm_compute; exact I). reflexivity.
Defined.
End Sample.

