(* ===== verification/Pipeline.v ===== *)
(** * How the parts meet

    Theorems about what one program hands to the next: the launch template of
    [bootstrap_profile.py] and the installer that starts it, its hash list and
    [build_tc.py], and the device trees [dt_fixup.py] writes read by
    [dt_patch.py] and [power_passthrough_dt.py]. *)

From stdpp Require Import base tactics list list_numbers strings sets.
From Stdlib Require Import Strings.Byte.
From S2P Require Import Prelude PyBytes PyStr PyDict PyShlex Sha256 TrustCache CodeSign InstallHelpers Profile.
Open Scope Z_scope.

(** ** The launch template *)

(** The template [main] of [bootstrap_profile.py] writes for the installer. *)
Definition restore_template (argv : list (list Z)) : list (list Z * json) :=
  [(u "format", JStr (u "darwin-vm-qemu-launch-v1")); (u "argv", JList (map JStr argv));
   (u "env", JDict (map (λ e, (e.1, JStr e.2)) restore_env))].

Definition absolute (p : list Z) : Prop := ∃ r, p = 47 :: r.

Section template.
Context (resolve : list Z → list Z) (qemu firmware out disk : list Z) (cpus : Z).
Context (Hq : absolute qemu) (Hf : absolute firmware) (Ho : absolute out).
Local Abbreviation argv := (machine qemu firmware out disk cpus true).

Lemma template_drive : option_values argv (u "-drive") = Ok [u "if=none,id=ans,file=" ++ disk ++ u ",format=qcow2"].
Proof using Hq Hf Ho.
  destruct Hq as [q ->], Hf as [f ->], Ho as [o ->]. reflexivity.
Qed.
Lemma template_args : option_values argv (u "-args") = Ok [u "rd=md0 " ++ BOOTARGS].
Proof using Hq Hf Ho. destruct Hq as [q ->], Hf as [f ->], Ho as [o ->]. reflexivity. Qed.
Lemma template_ramdisk : option_values argv (u "-ramdisk") = Ok [path firmware (u "ramdisk.dmg")].
Proof using Hq Hf Ho. destruct Hq as [q ->], Hf as [f ->], Ho as [o ->]. reflexivity. Qed.

Lemma template_ans : 44 ∉ disk → ans_drive_path resolve argv = Ok (resolve disk).
Proof using Hq Hf Ho.
  intros Hd. unfold ans_drive_path. rewrite template_drive, ok_bind. cbn [res_map].
  unfold ans_file.
  change (u "if=none,id=ans,file=" ++ disk ++ u ",format=qcow2")
    with (u "if=none" ++ 44 :: u "id=ans" ++ 44 :: (u "file=" ++ disk) ++ 44 :: u "format=qcow2").
  rewrite !split1_sep, (split1_none _ (u "format=qcow2")).
  - transitivity (Ok (resolve (zdrop 5 (u "file=" ++ disk)))); [reflexivity|].
    by rewrite zdrop_app_exact.
  - apply (bool_decide_unpack _). reflexivity.
  - apply not_elem_of_app. split; [|done]. apply (bool_decide_unpack _). reflexivity.
  - apply (bool_decide_unpack _). reflexivity.
  - apply (bool_decide_unpack _). reflexivity.
Qed.

Lemma template_valid :
  44 ∉ disk → validate_template resolve (restore_template argv) disk = Ok (argv, restore_env).
Proof using Hq Hf Ho.
  intros Hd. unfold validate_template. cbn [restore_template].
  change (dget (u "argv") (restore_template argv)) with (Some (JList (map JStr argv))).
  change (env_of (dget (u "env") (restore_template argv))) with (Ok restore_env).
  assert (argv_of (Some (JList (map JStr argv))) = Ok argv) as -> by reflexivity.
  rewrite !ok_bind, template_args, template_ramdisk, template_ans by done.
  assert (bool_decide (u "-incoming" ∈ argv) || bool_decide (u "-loadvm" ∈ argv) = false) as ->.
  { destruct Hq as [q ->], Hf as [f ->], Ho as [o ->]. reflexivity. }
  rewrite !ok_bind. rewrite (bool_decide_eq_true_2 (resolve disk = resolve disk)) by done.
  reflexivity.
Qed.

(** The child's command line: the template with the installer's ramdisk and
    the fresh disk. *)
Lemma template_command ramdisk dir :
  absolute ramdisk →
  ∃ rewritten command,
    rewrite_ramdisk argv ramdisk = Ok rewritten ∧ boot_command rewritten dir = Ok command ∧
    option_values command (u "-ramdisk") = Ok [ramdisk] ∧
    option_values command (u "-drive") = Ok [child_drive dir] ∧
    existsb (λ x, bool_decide (x ∈ map u ["-incoming"; "-gdb"; "-S"; "-s"]%string)) command = false ∧
    existsb (λ x, startswith (u "if=none,id=ans,file=") x && contains (dir ++ u "/disk.qcow2") x) command = true.
Proof using Hq Hf Ho.
  intros [r ->]. destruct Hq as [q ->], Hf as [f ->], Ho as [o ->].
  eexists _, _. split; [reflexivity|]. split; [reflexivity|].
  split_and!; [reflexivity..|].
  apply existsb_exists. exists (child_drive dir). split.
  - apply list_elem_of_In, list_elem_of_lookup. exists 30%nat. reflexivity.
  - unfold child_drive. apply andb_true_iff. split; [apply startswith_spec; eauto|].
    apply contains_spec. exists (u "if=none,id=ans,file="), (u ",format=qcow2").
    by rewrite <-!(assoc_L app).
Qed.
End template.

(** C37: The installer starts what the profile asks for.  The restore template
    [bootstrap_profile.py] writes, for absolute paths and a source disk without
    a comma, is accepted by [install_staged_helpers.py] with that disk as its
    parent; its rewritten and sanitised command line has the installer's
    ramdisk, the fresh child as its only drive, and passes both of the
    installer's own checks. *)
Theorem profile_template_installs resolve qemu firmware out disk ramdisk dir cpus :
  absolute qemu → absolute firmware → absolute out → absolute ramdisk → 44 ∉ disk →
  let argv := machine qemu firmware out disk cpus true in
  validate_template resolve (restore_template argv) disk = Ok (argv, restore_env) ∧
  ∃ rewritten command,
    rewrite_ramdisk argv ramdisk = Ok rewritten ∧ boot_command rewritten dir = Ok command ∧
    option_values command (u "-ramdisk") = Ok [ramdisk] ∧
    option_values command (u "-drive") = Ok [child_drive dir] ∧
    existsb (λ x, bool_decide (x ∈ map u ["-incoming"; "-gdb"; "-S"; "-s"]%string)) command = false ∧
    existsb (λ x, startswith (u "if=none,id=ans,file=") x && contains (dir ++ u "/disk.qcow2") x) command = true.
Proof. intros. split; [by apply template_valid|by apply template_command]. Qed.

Lemma profile_template_installs_witness :
  validate_template id (restore_template (machine (u "/q") (u "/f") (u "/o") (u "/d") 1 true)) (u "/d")
  = Ok (machine (u "/q") (u "/f") (u "/o") (u "/d") 1 true, restore_env).
Proof.
  apply (profile_template_installs id (u "/q") (u "/f") (u "/o") (u "/d") (u "/r") (u "/i") 1).
  - by exists (u "q").
  - by exists (u "f").
  - by exists (u "o").
  - by exists (u "r").
  - apply (bool_decide_unpack _). reflexivity.
Defined.

(** ** The hash list *)

(** The text of a 20-byte hash. *)
Definition hash_text (l : list Z) : Prop := ∃ h, zlen h = 20 ∧ l = hex_of_bytes h.

Lemma hash_texts ls : Forall hash_text ls → ∃ hs, Forall (λ h, zlen h = 20) hs ∧ ls = map hex_of_bytes hs.
Proof.
  induction 1 as [|l ls (h & Hh & ->) _ (hs & Hhs & ->)]; [by exists []|].
  exists (h :: hs). split; [by constructor|done].
Qed.

Lemma join_lines hs : hs ≠ [] → join1 10 (map hex_of_bytes hs) ++ [10] = hash_lines hs.
Proof.
  unfold hash_lines. induction hs as [|h hs IH]; [done|]. intros _. cbn [map concat].
  destruct hs as [|h' hs]; [cbn; by rewrite app_nil_r|].
  rewrite <-IH by done. cbn [map]. change (join1 10 (hex_of_bytes h :: hex_of_bytes h' :: map hex_of_bytes hs))
    with (hex_of_bytes h ++ 10 :: join1 10 (hex_of_bytes h' :: map hex_of_bytes hs)).
  by rewrite <-!(assoc_L app).
Qed.

Lemma ztake_hex n l : 0 ≤ n → ztake (2 * n) (hex_of_bytes l) = hex_of_bytes (ztake n l).
Proof.
  intros Hn. rewrite !ztake_take. replace (Z.to_nat (2 * n)) with (2 * Z.to_nat n)%nat by lia.
  generalize (Z.to_nat n). clear. intros n. unfold hex_of_bytes. revert n.
  induction l as [|x l IH]; intros [|n]; try done.
  replace (2 * S n)%nat with (S (S (2 * n))) by lia. cbn [map concat app take]. by rewrite IH.
Qed.

Lemma cdhash_hash_text cd : hash_text (ztake 40 (sha256_hex cd)).
Proof.
  exists (ztake 20 (sha256 cd)). unfold sha256_hex. change 40 with (2 * 20). rewrite ztake_hex by lia.
  split; [|done]. rewrite zlen_ztake, zlen_sha256. lia.
Qed.

Lemma add_hashes p target bef aft offset : p_hashes (add p target bef aft offset) = p_hashes p.
Proof. unfold add. destruct aft as [a|]; [|done]. by destruct (bool_decide _). Qed.
Lemma add_regions_hashes target patched rs p : p_hashes (foldl (add_region target patched) p rs) = p_hashes p.
Proof. revert p. induction rs as [|r rs IH]; intros p; [done|]. cbn [foldl]. rewrite IH. apply add_hashes. Qed.

Lemma cache_payload_hash cache spec regions h : cache_payload cache spec = Ok (regions, h) → hash_text h.
Proof. unfold cache_payload. intros H. simpl_res. apply cdhash_hash_text. Qed.

Lemma add_spec_hashes p sc p' :
  add_spec true p sc = Ok p' → ∃ h, hash_text h ∧ p_hashes p' = p_hashes p ++ [h].
Proof.
  destruct sc as [spec cache]. unfold add_spec. intros H. simpl_res. cbn [p_hashes].
  rewrite add_regions_hashes. eexists. split; [|done]. by eapply cache_payload_hash.
Qed.

Lemma add_specs_hashes specs p p' :
  res_foldl (add_spec true) p specs = Ok p' →
  ∃ hs, Forall hash_text hs ∧ zlen hs = zlen specs ∧ p_hashes p' = p_hashes p ++ hs.
Proof.
  revert p. induction specs as [|sc specs IH]; intros p; cbn [res_foldl].
  - intros [= <-]. exists []. by rewrite app_nil_r.
  - intros (q & (h & Hh & Eq)%add_spec_hashes & (hs & Hhs & Hl & ->)%IH)%bind_Ok.
    exists (h :: hs). rewrite Eq, !zlen_cons, Hl, <-(assoc_L app). by repeat constructor.
Qed.

(** A lower-case digit pair is a byte. *)
Definition low_hex (c : Z) : bool := is_digit c || ((97 <=? c) && (c <=? 102)).
Lemma low_hex_digit c : low_hex c = true → ∃ d, 0 ≤ d < 16 ∧ c = digit_char d.
Proof.
  unfold low_hex, is_digit, digit_char. intros H. exists (if c <=? 57 then c - 48 else c - 87).
  destruct (c <=? 57) eqn:E.
  - rewrite (proj2 (Z.ltb_lt _ _)) by lia. lia.
  - rewrite (proj2 (Z.ltb_ge _ _)) by lia. lia.
Qed.
Lemma low_hex_bytes n l :
  length l = (2 * n)%nat → Forall (λ c, low_hex c = true) l → ∃ h, length h = n ∧ l = hex_of_bytes h.
Proof.
  revert l. induction n as [|n IH]; intros l Hl Hx.
  - destruct l; [by exists []|done].
  - destruct l as [|c [|d l]]; simpl in Hl; [lia..|].
    apply Forall_cons in Hx as [(x & Hxr & ->)%low_hex_digit Hx].
    apply Forall_cons in Hx as [(y & Hyr & ->)%low_hex_digit Hx].
    destruct (IH l) as (h & <- & ->); [lia|done|].
    exists (z2b (16 * x + y) :: h). split; [done|]. unfold hex_of_bytes. cbn [map concat app].
    rewrite b2z_z2b, (Z.mod_small (16 * x + y)) by lia.
    assert ((16 * x + y) / 16 = x ∧ (16 * x + y) mod 16 = y) as [-> ->]; [|done].
    split; Z.div_mod_to_equations; lia.
Qed.

Lemma cdhash_of_text info h : cdhash_of info = Ok h → hash_text h.
Proof.
  unfold cdhash_of. intros H%opt_or_Ok%head_Some_elem_of. apply list_elem_of_omap in H as (line & _ & H).
  unfold cdhash_line in H. destruct (_ && _) eqn:E; [|done]. injection H as <-.
  apply andb_true_iff in E as [[_ Hlen%Z.eqb_eq]%andb_true_iff Hx].
  destruct (low_hex_bytes 20 (zdrop 7 line)) as (b & Hb & ->).
  - unfold zlen in Hlen. lia.
  - apply Forall_forall. intros c Hc. rewrite forallb_forall in Hx. by apply Hx, list_elem_of_In.
  - exists b. split; [unfold zlen; lia|done].
Qed.

(** The hashes a patched profile signs are the hashes the guest trusts.
    The list [prepare] writes has one hash for each shared cache and one for
    powerd; [build_tc.py] accepts it, and the module it builds loads as exactly
    those hashes, ascending. *)
Theorem profile_hashes_load {V} (str : V → list Z) specs powerd launchd info daemons p :
  prepare str true specs powerd launchd info daemons = Ok p → zlen specs < 2 ^ 31 →
  ∃ hs tc,
    p_hashes p = map hex_of_bytes hs ∧ zlen hs = zlen specs + 1 ∧
    make_trustcache (hashes_text p) = Ok tc ∧
    load tc = Ok (1, replicate 16 x41, map (λ h, h ++ [x02; x00; x00; x00]) (sort_by codes hs)) ∧
    sort_by codes hs ≡ₚ hs.
Proof.
  unfold prepare. intros H Hn. simpl_res. cbn [p_hashes] in *. unfold hashes_text. cbn [p_hashes].
  rewrite !add_hashes. apply add_specs_hashes in Hr as (hs & Hhs & Hl & ->). cbn [p_hashes empty_plan app].
  match goal with E : cdhash_of _ = Ok _ |- _ => apply cdhash_of_text in E; rename E into Hp end.
  assert (Forall hash_text (hs ++ [r0])) as (bs & Hbs & Ebs)%hash_texts by (apply Forall_app; by repeat constructor).
  assert (zlen bs = zlen specs + 1) as Hlen.
  { apply (f_equal zlen) in Ebs. rewrite zlen_app in Ebs. unfold zlen in *. rewrite length_map in Ebs. simpl in Ebs. lia. }
  rewrite Ebs, join_lines by (intros ->; pose proof (zlen_nonneg specs); rewrite zlen_nil in Hlen; lia).
  destruct (make_trustcache_loads bs) as (tc & Htc & Hload & Hperm & _); [done|lia|]. by exists bs, tc.
Qed.

Lemma profile_hashes_load_witness :
  ∃ p hs tc,
    prepare (λ s : list Z, s) true [(sample_spec, sample_cache)] [] [] (u "CDHash=" ++ replicate 40 97) (Some []) = Ok p
    ∧ p_hashes p = map hex_of_bytes hs ∧ zlen hs = 2 ∧ make_trustcache (hashes_text p) = Ok tc.
Proof.
  destruct sample_payload as (regions & cdhash & Hc & _).
  eassert (prepare (λ s : list Z, s) true [(sample_spec, sample_cache)] [] []
             (u "CDHash=" ++ replicate 40 97) (Some []) = Ok _) as H.
  { unfold prepare. cbn [res_foldl]. unfold add_spec at 1. rewrite Hc. reflexivity. }
  destruct (profile_hashes_load _ _ _ _ _ _ _ H) as (hs & tc & H1 & H2 & H3 & _); [reflexivity|].
  eexists _, hs, tc. split; [exact H|]. split; [exact H1|]. split; [exact H2|exact H3].
Defined.
