(* ===== verification/TreeCodecs.v ===== *)
(** * One format, three codecs

    [dt_fixup.py], [dt_patch.py] and [power_passthrough_dt.py] each have their
    own reader and writer of the device tree format, and a tree goes from one
    to the next.  For a tree of plain text, what [dt_fixup.py] writes is read
    by the other two, node for node and value for value, and each writes the
    same bytes back. *)

From stdpp Require Import base tactics list list_numbers strings.
From Stdlib Require Import Strings.Byte.
From S2P Require Import Prelude PyBytes PyStr PyDict AdtCodec DtPatch PowerPassthrough.
Open Scope Z_scope.

(** ** What each tool sees of a tree *)

(** The value as [dt_patch.py] keeps it: the bytes up to the stored length. *)
Definition raw_prop (kv : list Z * pval) : res DProp :=
  '(len, val) ← parse_prop_entry kv.2; Ok (mkProp kv.1 0 (ztake len val)).
Fixpoint raw_node (d : ADTNode) : res DNode :=
  match d with
  | AdtCodec.mkNode ps cs => qs ← res_map raw_prop ps; ds ← res_map raw_node cs; Ok (mkDNode qs ds)
  end.

(** The property as [power_passthrough_dt.py] keeps it: its whole record. *)
Definition rec_prop (kv : list Z * pval) : res Property :=
  nm ← utf8_encode kv.1; '(len, val) ← parse_prop_entry kv.2; w ← pack_I len;
  Ok (mkProperty kv.1 (ljust 32 x00 nm ++ w ++ val)).
Fixpoint rec_node (d : ADTNode) : res Node :=
  match d with
  | AdtCodec.mkNode ps cs => qs ← res_map rec_prop ps; ds ← res_map rec_node cs; Ok (PowerPassthrough.mkNode qs ds)
  end.

(** Plain trees: names and texts are ASCII without NUL, and no value has the
    high bit in its length. *)
Definition plain_text (s : list Z) : Prop := Forall (λ c, 0 < c < 128) s.
Definition plain_value (v : pval) : Prop :=
  match v with
  | VStr s => plain_text s ∧ zlen s < 2 ^ 31 - 1
  | VBytes l => zlen l < 2 ^ 31
  | _ => True
  end.
Definition plain_prop (kv : list Z * pval) : Prop := plain_text kv.1 ∧ plain_value kv.2.
Fixpoint plain (d : ADTNode) : Prop :=
  match d with
  | AdtCodec.mkNode ps cs => (Forall plain_prop ps) ∧ (foldr (λ c P, (plain c) ∧ P) True cs)
  end.

(** ** One property *)

Lemma plain_encode s : plain_text s →
  utf8_encode s = Ok (map z2b s) ∧ zlen (map z2b s) = zlen s ∧ (0 ∉ s) ∧ (x00 ∉ map z2b s) ∧
  ascii_decode (map z2b s) = Ok s.
Proof.
  intros Hs. assert (Forall (λ c, 0 ≤ c < 128) s) as Ha by (eapply Forall_impl; [exact Hs|]; simpl; lia).
  assert (0 ∉ s) as H0 by (intros Hin; unfold plain_text in Hs; rewrite Forall_forall in Hs; specialize (Hs _ Hin); lia).
  split; [by apply utf8_encode_ascii|]. split; [unfold zlen; by rewrite length_map|]. split; [done|].
  split; [by apply z2b_nonzero|by apply ascii_bytes].
Qed.

(** The stored length, and the value as padding of what it counts. *)
Lemma parse_prop_entry_padded v len val :
  plain_value v → parse_prop_entry v = Ok (len, val) →
  0 ≤ len < 2 ^ 31 ∧ zlen (ztake len val) = len ∧ val = ljust (roundup4 len) x00 (ztake len val).
Proof.
  intros Hv H.
  assert (∀ l : list byte, zlen l < 2 ^ 31 → val = ljust (roundup4 (zlen l)) x00 l → len = zlen l →
    0 ≤ len < 2 ^ 31 ∧ zlen (ztake len val) = len ∧ val = ljust (roundup4 len) x00 (ztake len val)) as Hgo.
  { intros l Hl -> ->. assert (ztake (zlen l) (ljust (roundup4 (zlen l)) x00 l) = l) as ->
      by (unfold ljust; by rewrite ztake_app_exact).
    pose proof (zlen_nonneg l). done. }
  destruct v as [s|l| | |]; cbn [parse_prop_entry] in H; [|by injection H as <- <-; eapply Hgo|done..].
  destruct Hv as [Hs Hlen]. destruct (plain_encode s Hs) as (He & Hl & _).
  destruct (startswith (u "u32:") s); [|destruct (startswith (u "u64:") s); [|destruct (bool_decide (s = u "<NULL>"))]];
    simpl_res.
  - match goal with E : pack_I _ = Ok val |- _ => apply pack_u_length in E end.
    apply (Hgo val); [lia| |lia]. unfold ljust. replace (zlen val) with 4 by lia. by rewrite app_nil_r.
  - match goal with E : pack_Q _ = Ok val |- _ => apply pack_u_length in E end.
    apply (Hgo val); [lia| |lia]. unfold ljust. replace (zlen val) with 8 by lia. by rewrite app_nil_r.
  - by apply (Hgo []).
  - rewrite He in *. simpl_res. apply (Hgo (map z2b s ++ [x00])).
    + rewrite zlen_app, Hl. change (zlen [x00]) with 1. lia.
    + rewrite zlen_app, Hl. change (zlen [x00]) with 1. unfold ljust, round_up_to_multiple_of_4.
      rewrite zlen_app, Hl. change (zlen [x00]) with 1. pose proof (roundup4_spec (zlen s + 1)) as [? _].
      rewrite <-(assoc_L app). f_equal. cbn [app].
      replace (Z.to_nat (roundup4 (zlen s + 1) - zlen s)) with (S (Z.to_nat (roundup4 (zlen s + 1) - (zlen s + 1)))) by lia.
      done.
    + rewrite zlen_app, Hl. done.
Qed.

Lemma find_padded (l : list byte) n : x00 ∉ l → zlen l < n → PyBytes.find [x00] (ljust n x00 l) = Some (zlen l).
Proof.
  intros Hl Hn. unfold ljust. replace (Z.to_nat (n - zlen l)) with (S (Z.to_nat (n - zlen l - 1))) by lia.
  cbn [replicate]. generalize (replicate (Z.to_nat (n - zlen l - 1)) x00). clear Hn. intros k.
  unfold PyBytes.find. enough (∀ i, find_from i [x00] (l ++ x00 :: k) = Some (i + zlen l)) as -> by done.
  induction l as [|x l IH]; intros i; cbn [app find_from startswith].
  - rewrite bool_decide_eq_true_2 by done. cbn [andb startswith]. rewrite zlen_nil. f_equal. lia.
  - apply not_elem_of_cons in Hl as [Hx Hl]. rewrite bool_decide_eq_false_2 by done. cbn [andb].
    rewrite IH by done. rewrite zlen_cons. f_equal. lia.
Qed.

(** The record [dt_fixup.py] writes, as the other two tools see it. *)
Lemma plain_record outv kv outv' :
  plain_prop kv → encode_prop_step outv kv = Ok outv' →
  ∃ q r, raw_prop kv = Ok q ∧ rec_prop kv = Ok r ∧ wf_prop q = true ∧ record_ok r ∧
    pname q = kv.1 ∧ prop_name r = kv.1 ∧ encode_prop q = Ok (prop_raw r) ∧ outv' = outv ++ prop_raw r.
Proof.
  destruct kv as [k v]. intros [Hk Hv]. cbn [fst snd] in *. unfold encode_prop_step. intros H.
  destruct (plain_encode k Hk) as (He & Hlk & H0 & H00 & Hascii).
  rewrite He in H. simpl_res. destruct (32 <=? zlen k) eqn:Ek; [done|]. apply Z.leb_gt in Ek.
  simpl_res.
  match goal with E : parse_prop_entry v = Ok (?z, ?l) |- _ =>
    rename z into len; rename l into val; rename E into Hval end.
  match goal with E : pack_I len = Ok ?r |- _ => rename r into w; rename E into Hw end.
  destruct (parse_prop_entry_padded v len val Hv Hval) as (Hlen & Hraw & Hpad).
  pose proof (roundup4_spec len) as [Hr4 _].
  assert (zlen val = roundup4 len) as Hzv by (rewrite Hpad, zlen_ljust; lia).
  assert (zlen (ljust 32 x00 (map z2b k)) = 32) as Hfield by (rewrite zlen_ljust; lia).
  pose proof (pack_u_length _ _ _ Hw) as Hw4. change (Z.of_nat 4) with 4 in Hw4.
  eexists _, _. unfold raw_prop, rec_prop. cbn [fst snd]. rewrite He, Hval, !ok_bind, Hw, ok_bind.
  split; [done|]. split; [done|]. cbn [pname prop_name prop_raw].
  split; [|split; [|do 2 (split; [done|]); split; [|done]]].
  - unfold wf_prop. cbn [pname pflags pval_raw]. rewrite He, Hraw, Hlk.
    rewrite (proj2 (Z.ltb_lt _ _)), (proj2 (Z.ltb_lt len _)) by lia.
    rewrite !bool_decide_eq_true_2 by auto. done.
  - exists len. cbn [prop_raw prop_name]. unfold record_length, unpack_from_I.
    rewrite slice_app_exact by done. unfold decode_name. rewrite find_padded by (done || lia).
    unfold ljust at 1. rewrite ztake_app_exact, Hascii by done. split; [done|].
    rewrite (unpack_from_app 4 len w _ val 32) by done. rewrite ok_bind.
    destruct (flagged_length len 0) as (_ & _ & Hl); [lia|auto|]. rewrite Z.lor_0_r in Hl. rewrite Hl.
    split; [done|]. split; [lia|]. rewrite !zlen_app, Hfield, Hw4, Hzv. unfold aligned.
    rewrite land_lnot3. lia.
  - unfold encode_prop. cbn [pname pflags pval_raw]. rewrite (proj2 (Z.leb_gt 32 _)) by lia.
    rewrite He, ok_bind, Hraw, Z.lor_0_r, Hw, ok_bind, roundup4_bits_eq. by rewrite <-Hpad.
Qed.

Lemma plain_records outv ps outv' :
  Forall plain_prop ps → res_foldl encode_prop_step outv ps = Ok outv' →
  ∃ qs rs, res_map raw_prop ps = Ok qs ∧ res_map rec_prop ps = Ok rs ∧
    forallb wf_prop qs = true ∧ Forall record_ok rs ∧
    map pname qs = dkeys ps ∧ map prop_name rs = dkeys ps ∧
    res_foldl (λ out p, e ← encode_prop p; Ok (out ++ e)) outv qs = Ok outv' ∧ outv' = outv ++ raws rs.
Proof.
  intros H. revert outv. induction H as [|kv ps Hkv _ IH]; intros outv; cbn [res_foldl].
  - intros [= <-]. exists [], []. unfold raws. cbn. by rewrite app_nil_r.
  - intros (out & Hout & Hrest)%bind_Ok.
    destruct (plain_record _ _ _ Hkv Hout) as (q & r & Hq & Hr & Hwf & Hok & Hnq & Hnr & Hen & ->).
    destruct (IH _ Hrest) as (qs & rs & Hqs & Hrs & Hwfs & Hoks & Hnqs & Hnrs & Hens & ->).
    exists (q :: qs), (r :: rs). cbn [res_map forallb map res_foldl]. 
    rewrite Hq, Hr, !ok_bind, Hqs, Hrs, !ok_bind, Hwf, Hwfs, Hen, !ok_bind, Hens.
    unfold dkeys, raws in *. cbn [map concat]. rewrite Hnq, Hnr, Hnqs, Hnrs, (assoc_L app).
    by repeat constructor.
Qed.

(** ** Trees *)

(** What the induction carries of a node. *)
Definition agrees (d : ADTNode) : Prop :=
  ∀ l, AdtCodec.encode_node d = Ok l → plain d →
    ∃ n r, raw_node d = Ok n ∧ rec_node d = Ok r ∧ wf_node n = true ∧ node_ok r ∧
      DtPatch.encode n = Ok l ∧ PowerPassthrough.encode_node r = Ok l.

Lemma plain_children cs outv outv' :
  Forall agrees cs → foldr (λ c P, plain c ∧ P) True cs →
  res_foldl (λ outv c, e ← AdtCodec.encode_node c; Ok (outv ++ e)) outv cs = Ok outv' →
  ∃ ns rs, res_map raw_node cs = Ok ns ∧ res_map rec_node cs = Ok rs ∧
    forallb wf_node ns = true ∧ Forall node_ok rs ∧
    res_foldl (λ out c, e ← DtPatch.encode c; Ok (out ++ e)) outv ns = Ok outv' ∧
    res_foldl (λ out c, e ← PowerPassthrough.encode_node c; Ok (out ++ e)) outv rs = Ok outv'.
Proof.
  intros H. revert outv. induction H as [|c cs Hc _ IH]; intros outv; cbn [foldr res_foldl].
  - intros _ [= <-]. by exists [], [].
  - intros [Hp Hps] (out & (e & He & Hout)%bind_Ok & Hrest)%bind_Ok. apply Ok_inj in Hout. subst out.
    destruct (Hc _ He Hp) as (n & r & Hn & Hr & Hwf & Hok & Hen & Her).
    destruct (IH _ Hps Hrest) as (ns & rs & Hns & Hrs & Hwfs & Hoks & Hens & Hers).
    exists (n :: ns), (r :: rs). cbn [res_map forallb res_foldl].
    rewrite Hn, Hr, !ok_bind, Hns, Hrs, !ok_bind, Hwf, Hwfs, Hen, Her, !ok_bind, Hens, Hers.
    by repeat constructor.
Qed.

Lemma all_agree d : agrees d.
Proof.
  induction d as [ps cs IH] using ADTNode_nested_ind. intros l H [Hps Hcs].
  cbn [AdtCodec.encode_node] in H. apply bind_Ok in H as (h & Hh & H). apply bind_Ok in H as (out & Hout & H).
  destruct (plain_records _ _ _ Hps Hout) as (qs & rs & Hqs & Hrs & Hwf & Hok & Hnq & Hnr & Hen & ->).
  destruct (plain_children _ _ _ IH Hcs H) as (ns & ms & Hns & Hms & Hwfs & Hoks & Hens & Hems).
  assert (zlen qs = zlen ps ∧ zlen rs = zlen ps ∧ zlen ns = zlen cs ∧ zlen ms = zlen cs) as (E1 & E2 & E3 & E4).
  { apply res_map_Ok, Forall2_length in Hqs, Hrs, Hns, Hms. unfold zlen. lia. }
  assert (zlen ps < 2 ^ 32 ∧ zlen cs < 2 ^ 32) as [Hnp Hnc].
  { unfold pack_II in Hh. simpl_res. unfold pack_I in *.
    repeat match goal with E : pack_u 4 _ = Ok _ |- _ => apply pack_u_Ok in E as [[_ ?] _] end. done. }
  eexists _, _. cbn [raw_node rec_node]. rewrite Hqs, Hrs, !ok_bind, Hns, Hms, !ok_bind.
  do 2 (split; [done|]). cbn [wf_node node_ok DtPatch.encode PowerPassthrough.encode_node].
  rewrite foldr_Forall, Hwf, Hwfs, E1, E2, E3, E4, Hh, !ok_bind, Hen, ok_bind, Hens.
  rewrite (proj2 (Z.ltb_lt _ _)), (proj2 (Z.ltb_lt (zlen cs) _)) by done.
  fold (raws rs). by rewrite Hems.
Qed.

(** C27: The three device-tree codecs agree.  For a tree of plain text, the
    bytes [dt_fixup.py] writes are read by [dt_patch.py] as the same names,
    values and children, whole, and written back unchanged; and the strict
    parser of [power_passthrough_dt.py] accepts them, with the same names and
    records, and writes them back unchanged. *)
Theorem codecs_agree d l :
  AdtCodec.encode_node d = Ok l → plain d →
  ∃ n r, raw_node d = Ok n ∧ DtPatch.decode l 0 = Ok (n, zlen l) ∧ DtPatch.encode n = Ok l ∧
         rec_node d = Ok r ∧ parse_tree l = Ok r ∧ PowerPassthrough.encode_node r = Ok l.
Proof.
  intros H Hp. destruct (all_agree d l H Hp) as (n & r & Hn & Hr & Hwf & Hok & Hen & Her).
  exists n, r. split; [done|].
  destruct (wf_node_encodes n Hwf) as (e & He & _ & Hd). rewrite Hen in He. apply Ok_inj in He. subst e.
  destruct (node_ok_encodes r Hok) as (e & He & _ & Hparse). rewrite Her in He. apply Ok_inj in He. subst e.
  assert (DtPatch.decode l 0 = Ok (n, zlen l)) as ->.
  { unfold DtPatch.decode. specialize (Hd (S (length l)) ltac:(lia) [] []). by rewrite app_nil_r in Hd. }
  assert (parse_tree l = Ok r) as ->; [|done].
  unfold parse_tree, parse_node. specialize (Hparse (S (length l)) ltac:(lia) [] []).
  rewrite app_nil_r in Hparse. cbn [app] in Hparse. change (zlen []) with 0 in Hparse.
  rewrite Hparse, ok_bind, Z.add_0_l. by rewrite Z.eqb_refl.
Qed.

#[export] Instance plain_prop_dec kv : Decision (plain_prop kv).
Proof. destruct kv as [k [s|l| | |]]; unfold plain_prop, plain_value, plain_text; cbn; apply _. Defined.

Lemma codecs_agree_witness :
  ∃ l n r, AdtCodec.encode_node sample_tree = Ok l ∧ plain sample_tree ∧
           DtPatch.decode l 0 = Ok (n, zlen l) ∧ parse_tree l = Ok r.
Proof.
  eassert (AdtCodec.encode_node sample_tree = Ok _) as H by (vm_compute; reflexivity).
  assert (plain sample_tree) as Hp.
  { unfold sample_tree. cbn [plain foldr]. apply (bool_decide_unpack _). vm_compute. exact I. }
  destruct (codecs_agree _ _ H Hp) as (n & r & _ & H1 & _ & _ & H2 & _).
  eexists _, n, r. split; [exact H|]. split; [exact Hp|]. split; [exact H1|exact H2].
Defined.

(** Outside plain text: the stored length of a text counts characters, so
    [dt_patch.py] reads an accented letter without its terminator. *)
Example accented_text_unterminated :
  let d := AdtCodec.mkNode [(u "k", VStr [0xe9])] [] in
  ∃ l, AdtCodec.encode_node d = Ok l ∧
       DtPatch.decode l 0 = Ok (mkDNode [mkProp (u "k") 0 [xc3; xa9]] [], zlen l).
Proof. eexists. split; [vm_compute; reflexivity|]. vm_compute. reflexivity. Qed.
